(* ===== verification/_CoqProject ===== *)
-Q . S2P
Prelude.v
GoTime.v
Tail.v
Utf8.v
Domain.v
Heartbeat.v
Pacing.v
Sql.v
Schema.v
StoreEvents.v
Executor.v
Failure.v
Redact.v
Capture.v
GoStrings.v
JobSpec.v
Probe.v
StartTLS.v
TimeText.v
Migrations.v
Drill.v
Attempt.v
Chat.v
StoreRuns.v
StoreHeartbeats.v
StoreDeliveries.v
StoreConfig.v
StoreInterface.v
PingApi.v
StoreInv.v
Watch.v
PingLog.v
PingHandler.v
History.v
StorePacing.v
StoreStory.v
StoreSpec.v
Worker.v
Runner.v
RunnerStart.v
ConfigFile.v
Reconcile.v
SecretRefs.v
Dto.v
Views.v
Auth.v
Api.v
Dashboard.v
Web.v
Gate.v
Isolation.v
Effects.v
PingExec.v
HcImport.v
Fetch.v
EnvConfig.v
Sweep.v
Reclaim.v
Flags.v
CliText.v
Cli.v
CliAlerts.v
CliAccounts.v
Drain.v
CliRun.v
CliMain.v
CliReport.v
CliSpec.v
Serve.v
Pg.v
PgStore.v
PgHistory.v
OpenStore.v
PgAgrees.v
PgRows.v
PgLocks.v
