(* ===== verification/Prelude.v ===== *)
(** * Tend: a verification development

    Tend is a single-binary scheduler and dead-man's switch: it runs jobs
    (shell commands, requests, probes, drills) on a schedule, watches
    heartbeats that other machines ping, and alerts channels through a
    durable delivery queue. Its state is a SQL database; the processes around
    it (scheduler, workers, reaper, watcher, delivery worker, HTTP handlers,
    one-off commands) meet only there. The development models that core: the
    store's operations, the loops that drive them, and the pure rules they
    apply.

    ** The parts, and where they are

    The ground:

    - [Prelude]: bytes, Go integers, list and finite-map lemmas, tactics.
      [GoTime]: [time.Time], [time.Duration] and its text. [Utf8],
      [GoStrings], [Flags]: what is used of [unicode/utf8], [strings],
      [strconv], [net/url] and [flag].
    - [Domain]: the data of [core], [jobs], [heartbeat], [notify] and [auth].
    - [Sql], [Schema]: tables, statements, transactions, faults; the rows and
      their conversions ([scanJob] and the like of [store/sqlite.go]).
      [TimeText]: the text a time is stored as. [Migrations]
      ([store/migrations.go]): bringing the schema up to date.

    Jobs ([jobs/*.go]):

    - [JobSpec] ([spec.go]): what a definition must satisfy. [Executor]: the
      retry loop and the run limit. [Attempt] ([executor.go]): one attempt of
      a shell or an HTTP job. [Probe] ([probe*.go]): the verdicts of the
      TLS, domain and expiry probes. [StartTLS] ([probe_tls.go]): what is
      said to a server before its handshake. [Fetch] ([probe_domain.go], and
      [hcimport/]): what is asked of registries, and the check list of an
      import. [Drill] ([drill.go]): the steps of a
      restore drill. [Failure], [Redact], [Capture]: what is kept and shown
      of an output. [Runner] ([runner.go], [schedule.go]): the tick, the claim
      and finish of a run, the reaper. [RunnerStart] ([runner.go]): the
      goroutines of [Start].

    Heartbeats and alerts:

    - [Heartbeat], [Watch] ([heartbeat/*.go]): deadlines and the watcher.
      [PingApi], [PingHandler] ([httpserver/ping.go]): the ping API.
      [PingExec] ([pingexec/*.go]): the wrapper of a command. [HcImport]
      ([hcimport/], [cli/import.go]): importing from Healthchecks.
    - [Pacing] ([notify/pacing.go]): when a streak of failures is told.
      [Tail], [Chat] ([notify/chat.go], [message.go]): the texts. [Worker]
      ([notify/worker.go]): the delivery queue as the worker uses it.

    The store ([store/*.go]), one definition per method:

    - [StoreInterface] ([store.go]): what callers see, as classes.
      [OpenStore]: connection strings, pools, and the backend a caller gets.
    - [StoreEvents], [StoreRuns], [StoreHeartbeats], [StoreDeliveries],
      [StoreConfig]: SQLite. [StoreInv]: every operation as one type [Op].
      [History], [PingLog]: what holds after any sequence of operations.
      [StorePacing], [StoreStory]: the store against the pacing rules.
      [StoreSpec]: contracts of single operations.
    - [Pg], [PgStore] ([store/postgres.go] and the shared code's PostgreSQL
      branches): the second backend, a definition [pg_M] per method [M], with
      what its columns refuse and sequences that a rollback does not give
      back. [PgHistory]: what holds after any sequence of operations.
      [PgAgrees]: the two backends side by side. [PgRows]: transactions that
      contend for one row. [PgLocks]: the rows that transactions about jobs,
      and a channel's deletion, lock, beside each other.

    Configuration and the command line:

    - [ConfigFile], [Reconcile], [SecretRefs] ([configfile/configfile.go]):
      [tend.yaml], parsed and brought into the store. [EnvConfig]
      ([config/*.go]): the environment. [Sweep] ([cli/cli.go]): retention.
      [Reclaim] ([store/sqlite.go]): giving space back.
    - [Cli], [CliAlerts], [CliAccounts], [CliRun] ([cli/cli.go],
      [notify/channel.go], the send step of [notify/worker.go]): one
      definition per command, a computation of the store that answers the
      value its output is printed from, or an error. [CliText]: what reaches
      a terminal, ping keys. [CliMain] ([cli/cli.go], [exec.go],
      [import.go]): [Run] and its dispatch. [Drain] ([jobs/runner.go]):
      [DrainOnce]. [Serve]: the goroutines of [cmdServe], and the log of
      failing claims. [CliSpec]: what the commands promise. [CliReport]
      ([cli/cli.go], [cmd/tend/main.go]): what is printed of the
      configuration, and the exit status.

    The web server ([httpserver/*.go]):

    - [Dto], [Views]: what replies show. [Auth] ([auth.go]): sessions, tokens
      and the gate. [Api], [Dashboard]: one definition per handler. [Web]:
      routing and the whole server. [Gate], [Isolation], [Effects]: what the
      server as a whole does.

    ** How the model works

    An operation of the store is a function [St DB -> res A * St DB] in the
    monad of [Sql]: a statement reads or rewrites tables, [tx] runs a body and
    commits or rolls back, an error is a value. A [World] gives the clock's
    reading and the database's fault at every tick; a fault fails the
    transaction, or commits it and loses the acknowledgement. An upsert draws
    an id whether it inserts or not, as AUTOINCREMENT does. SQLite's store
    opens one connection, so transactions are atomic; what interleaves are
    whole transactions, as the sequences [list Op] of [StoreInv] and the step
    relation [watch_step] of [Watch]. PostgreSQL runs transactions side by
    side: what statements on one row then do is the relation [row_step] of
    [PgRows] (READ COMMITTED: a statement looks at the row as last committed,
    waits for its lock and looks again). Theorems without [Reliable] hold
    whatever the faults. A handler of the server is a function from a request
    to a computation of the store that answers a reply.

    An event's JSON payload and detail are kept as the values that were
    marshalled; what [encoding/json] would read from a text that is not such
    an object is the class [JSONText]. Names and identifiers are [string],
    text the program cuts or scans is [bytes]. Integers are [Z]; where a
    64-bit operation can wrap, [wrap64] is written out. A [Time] is a number
    of nanoseconds, 0 being Go's zero time; rows keep it as that number,
    which [TimeText] justifies for the years 0 to 9999.

    What the code calls and does not contain is a parameter: cron
    expressions, encryption ([Box]), the providers that send ([Providers]),
    the session codec and the hashes
    ([KitAuth], with the laws [KitAuthLaws] the proofs rely on), [url.Parse]
    ([URLs], [URLTexts] and the like), number syntax ([GoText], [GoFlags]).
    What answers is a parameter too, a function of everything that was said
    to it so far: a server that is probed ([Peer]), one that is fetched from,
    SQLite's own pragmas ([Engine]), the database drivers ([Drivers]).

    The sections of the [Store] interface are classes, [Storage] is all of
    them, and each backend an instance. [handlePing] is written against it;
    what is shown of the handler is shown on SQLite, with the difference that
    PostgreSQL makes in [OpenStore]. [Historic] is what a backend promises,
    and what holds of every store that [Open] returns follows from it: each
    operation is a sequence of the elementary steps [micro] of [StoreInv],
    which record and delete nothing but what [emits] and [drops] list for
    that operation.

    Loops whose recursion is not structural take fuel that is enough by a
    lemma beside them: [chunks_from] and [find_spans] the length of the text
    ([chunks_from_enough], [find_spans_spec]), [extend_head] and
    [extend_tail] the bytes up to the cut ([extend_head_spec]),
    [resolve_refs] one more than the text's length (every turn takes a
    placeholder off it), [DrainOnce] one more than the runs that are pending
    ([DrainOnce_drains]). The retry loops count down the attempts the code
    counts up. [ReadSlice] takes as many turns as the buffer has room for
    ([ReadSlice_fuel]), [vacuum_steps] one more than there are free pages
    ([vacuum_steps_fuel]).

    ** What the theorems show

    - Runs: a run is claimed once and has at most one outcome on record,
      however finishes, retries, reaps and requeues interleave, as long as
      each carries the event of its run ([one_outcome_per_run], [claimed_once], [finish_exactly_once],
      [finished_run_final]); a tick never makes runs overlap
      ([Tick_no_overlap], [DueJobs_spec]), nor does the runner as a whole,
      call by call, or give a run to two workers ([runner_never_overlaps],
      [one_worker_per_run]), and it stops when told to ([start_stops]); the reaper spares healthy runs
      ([reaper_spares], [healthy_run_spared], [run_within_limit],
      [maxRunDuration_exact], [run_attempts]); a drain of the queue ends and
      leaves nothing pending ([DrainOnce_drains]).
    - Probes and drills: a drill runs exactly its steps and cleans up
      ([runOnceDrill_spec], [runOnceDrill_unchecked]); when a certificate, a
      registration, a date passes ([checkCertificate_spec],
      [checkDomain_spec], [judgeExpiry_spec]), and a TLS probe as a whole
      ([probeTLS_succeeds]); the exchange before a handshake is the
      protocol's, bounded, and leaves nothing over
      ([handshake_starts_clean], [starttls_reads_bounded]), and a server that
      keeps to it is heard out ([compliant_server_reached]); what is asked of
      a registry stays with it ([rdap_stays_home]).
    - Heartbeats: deadlines ([Deadline_spec]), alarms that alternate under
      every interleaving ([alarms_alternate]), a check that alerts once
      ([Check_once]), the bounded log ([ping_logs_bounded]).
    - Pings: every documented URL is understood ([parsePing_url]), an answer
      tells what was recorded, dispatched and charged
      ([handlePing_acknowledges], [handlePing_refuses]), a logged body shows
      no credential, and nothing of one that a cut fell into
      ([readPingBody_hides]). The wrapper reports a command as it ended, in
      bounded time ([Run_reports], [Run_in_budget], [newRID_canonical]). An
      import takes no heartbeat over and is idempotent
      ([import_takes_over_nothing], [import_again]), and its API key goes to
      no other host ([api_key_stays_home]), though it may go in the clear
      ([key_in_the_clear]).
    - Alerts: routing ([matchedChannels_spec], [EmitEvent_delivers]), pacing
      over all traces ([pacing_recoveries], [pacing_spaced],
      [pacing_announced], [PaceFailure_reminder]), the store against it
      ([store_paces], [channel_recoveries]), the queue ([claims_leased],
      [GiveUp_reports], [pending_alerts_have_events]), the fitted text
      ([fit_spec]).
    - Output: redaction ([redact_spec]), cuts that leave no piece of a secret
      ([headOf_redacted]), from the process's writes to the database
      ([shell_job_stored]), what an HTTP attempt makes of its response
      ([runOnceHTTP_spec]), the ring buffer ([headTail_text]), the stored text
      ([storedOutput_clean]).
    - Definitions: what [Parse] and [ValidateSpec] let through
      ([Parse_valid], [ValidateSpec_storable], [NormalizeDomain_type]), a
      sync that converges ([reconcileJobs_converges]), secret references
      ([resolveSecretRefs_values]), the retention windows and what a sweep
      takes ([LoadRetention_spec], [sweep_spec]).
    - The command line: [tend job add] is a sync of one entry
      ([job_add_is_sync]), a channel is sent to with what it was added with
      ([channel_add_sends]), the life of an API token ([token_lifecycle]),
      what [tend exec] runs with ([exec_plan_settings]), what reaches a
      terminal ([terminalSafe_safe], [merge_history_newest],
      [ping_key_url]); [serve] stops when told to, and not before
      ([serve_stops]); failing claims do not flood the log
      ([claim_errors_logged]).
    - Storage: stored timestamps compare and read back as the times they are
      ([formatTime_order], [formatTime_parse]), up to the year 9999
      ([run_at_10000]); interrupted migrations are taken up where they stopped
      ([migrations_converge]); the pragmas a database is opened with
      ([buildDSN_pragmas]), the pools ([Open_spec]), the placeholders
      ([rebind_numbers]); whatever store is opened keeps its history, and
      loses of it only what an operation is there to delete
      ([Open_keeps_history]); reclaiming space holds nobody up, and where
      nothing cuts it short gives back what there is ([reclaim_stays_short],
      [reclaim_frees_all]).
    - PostgreSQL: it answers as SQLite does, operation after operation, where
      its columns can hold the parameters ([backends_agree]; [wide_period] and
      [json_name_refused] are where they cannot), and has the same ids until a
      UNIQUE constraint refuses something ([ids_drift_after_a_conflict]); it
      keeps what SQLite keeps over any history
      ([pg_history]), and gives the statements on a row an order
      ([statements_serial]), so that a run has one outcome ([run_ends_once])
      and a recovery one event ([one_recovery]), but not when a failure
      comes between ([recovery_lost]). A token that is no text for it is
      not counted as a miss ([pg_unstorable_tokens_uncounted]).
      Transactions about jobs and channels never deadlock, as long as each
      statement over several rows visits them in the order of their keys
      ([job_txns_no_deadlock]); where that is not so, deletions can
      ([visits_out_of_order_deadlock], [channel_deletions_deadlock]), and so
      can a success that found the job without a streak and takes its alert
      states without the job's row ([success_passes_the_job_by]).
    - The server: nothing behind the gate runs for a stranger
      ([serve_closed]), logins ([login_session], [login_reveals_nothing]), a
      caller sees and touches only its own org ([authed_noninterference],
      [authed_effects]).
    - Where a 64-bit duration or a cut goes wrong: [Deadline_wraps],
      [NextRun_wraps], [headOf_keeps_piece], [retry_after_wraps]. Where a
      command leaves something half done or says what it did not do:
      [user_without_membership], [revoked_nothing], [bad_key_writes],
      [serving_without_runner]. What is printed of a DSN hides the password
      before its host ([redaction_blind]) but not one among its parameters
      ([query_password_printed]); [tend exec] exits as the command it ran
      ([exec_exit_status]).

    ** What is not modelled

    Network and process I/O (what a process writes and a server answers are
    arguments; sending an alert), polling intervals, logging but for failing
    claims, HTML and the text of JSON, how a command's answer is laid out in
    columns, what the migrations' SQL does, what the drivers do with a
    connection string, and on PostgreSQL what transactions that are not about
    jobs do when they contend for several rows at once. *)
From Stdlib Require Export ZArith Lia Bool List Ascii String Sorting.Sorted.
From stdpp Require Export base tactics list gmap strings numbers.
Open Scope Z_scope.

(** ** Byte strings

    Go strings and byte slices that the program cuts, splits or scans are
    lists of bytes; names and identifiers, which are only compared, stay
    [string]s. *)
Abbreviation bytes := (list ascii).

Definition byte_val (c : ascii) : Z := Z.of_N (N_of_ascii c).

Definition bstr (s : string) : bytes := list_ascii_of_string s.

Definition nl : ascii := "010"%char.

(** ** Proof automation *)

(** [split_ifs] destructs every [if] of the goal, keeping the equations. *)
Ltac split_ifs :=
  repeat match goal with
  | |- context [if ?b then _ else _] => destruct b eqn:?
  end.

(** [split_matches] is the same for a [match] on a variable or term. *)
Ltac split_matches :=
  repeat match goal with
  | |- context [match ?b with _ => _ end] => destruct b eqn:?
  end.

(** [bsimpl] turns boolean (in)equations in the context into propositions. *)
Ltac bsimpl :=
  repeat match goal with
  | H : (_ && _)%bool = true |- _ => apply andb_true_iff in H; destruct H
  | H : (_ && _)%bool = false |- _ => apply andb_false_iff in H
  | H : (_ || _)%bool = false |- _ => apply orb_false_iff in H; destruct H
  | H : (_ || _)%bool = true |- _ => apply orb_true_iff in H
  | H : negb _ = true |- _ => apply negb_true_iff in H
  | H : negb _ = false |- _ => apply negb_false_iff in H
  | H : (_ =? _)%Z = true |- _ => apply Z.eqb_eq in H
  | H : (_ =? _)%Z = false |- _ => apply Z.eqb_neq in H
  | H : (_ <? _)%Z = true |- _ => apply Z.ltb_lt in H
  | H : (_ <? _)%Z = false |- _ => apply Z.ltb_ge in H
  | H : (_ <=? _)%Z = true |- _ => apply Z.leb_le in H
  | H : (_ <=? _)%Z = false |- _ => apply Z.leb_gt in H
  | H : String.eqb _ _ = true |- _ => apply String.eqb_eq in H
  | H : String.eqb _ _ = false |- _ => apply String.eqb_neq in H
  | H : bool_decide _ = true |- _ => apply bool_decide_eq_true in H
  | H : bool_decide _ = false |- _ => apply bool_decide_eq_false in H
  end.

(** ** Go integers

    [int] and [int64] are 64 bits wide; an operation that overflows wraps. *)
Definition min_int64 : Z := - 2 ^ 63.
Definition max_int64 : Z := 2 ^ 63 - 1.

Definition wrap64 (z : Z) : Z := (z + 2 ^ 63) mod 2 ^ 64 - 2 ^ 63.

Definition int64_range (z : Z) : Prop := min_int64 <= z <= max_int64.

Lemma wrap64_id z : int64_range z -> wrap64 z = z.
Proof.
  unfold int64_range, wrap64, min_int64, max_int64. intros H.
  rewrite Z.mod_small; lia.
Qed.

Lemma wrap64_range z : int64_range (wrap64 z).
Proof.
  unfold int64_range, wrap64, min_int64, max_int64.
  pose proof (Z.mod_pos_bound (z + 2 ^ 63) (2 ^ 64) ltac:(lia)). lia.
Qed.

Create HintDb tend.
#[export] Hint Resolve wrap64_range : tend.

(** ** Lists *)

(** The last [n] elements. *)
Definition lastn {A} (n : nat) (l : list A) : list A := drop (List.length l - n) l.

(** [drop_while p l] drops the longest prefix of [l] satisfying [p]. *)
Fixpoint drop_while {A} (p : A -> bool) (l : list A) : list A :=
  match l with
  | [] => []
  | x :: r => if p x then drop_while p r else l
  end.

Lemma length_lastn {A} n (l : list A) : List.length (lastn n l) = Nat.min n (List.length l).
Proof. unfold lastn. rewrite length_drop. lia. Qed.

Lemma lastn_all {A} n (l : list A) : (List.length l <= n)%nat -> lastn n l = l.
Proof. intros. unfold lastn. replace (List.length l - n)%nat with 0%nat by lia. done. Qed.

Lemma lastn_app_le {A} n (v u : list A) : (n <= List.length u)%nat -> lastn n (v ++ u) = lastn n u.
Proof.
  intros. unfold lastn. rewrite length_app.
  rewrite drop_app_ge by lia. f_equal. lia.
Qed.

Lemma lastn_suffix {A} n (l : list A) : exists v, l = v ++ lastn n l.
Proof. exists (take (List.length l - n) l). symmetry. apply take_drop. Qed.

Lemma drop_while_suffix {A} p (l : list A) : exists v, l = v ++ drop_while p l /\ Forall (fun x => p x = true) v.
Proof.
  induction l as [|x l (v & E & F)]; simpl; [by exists []|].
  destruct (p x) eqn:Hp; [exists (x :: v); simpl; split; [by f_equal|by constructor]|by exists []].
Qed.

Lemma drop_while_head {A} p (l : list A) : match drop_while p l with [] => True | x :: _ => p x = false end.
Proof. induction l as [|x l IH]; simpl; [done|]. by destruct (p x) eqn:Hp. Qed.

Lemma drop_while_id {A} p (l : list A) : match l with [] => True | x :: _ => p x = false end -> drop_while p l = l.
Proof. destruct l as [|x l]; simpl; [done|]. by intros ->. Qed.

Lemma Forall_elem {A} (P : A -> Prop) l : Forall P l <-> forall x, x ∈ l -> P x.
Proof. rewrite List.Forall_forall. split; intros H x Hx; apply H; by apply list_elem_of_In. Qed.

Lemma Forall_mono {A} (P Q : A -> Prop) l : (forall x, P x -> Q x) -> Forall P l -> Forall Q l.
Proof. intros Hi H. induction H; constructor; auto. Qed.

Lemma elem_of_filter_b {A} (p : A -> bool) l x : x ∈ List.filter p l <-> x ∈ l /\ p x = true.
Proof. rewrite !list_elem_of_In. apply filter_In. Qed.

Lemma filter_none {A} (p : A -> bool) l : (forall x, x ∈ l -> p x = false) -> List.filter p l = [].
Proof.
  intros Hp. destruct (List.filter p l) as [|x r] eqn:E; [done|].
  assert (Hx : x ∈ List.filter p l) by (rewrite E; left). apply elem_of_filter_b in Hx as [Hx Ht].
  rewrite Hp in Ht; done.
Qed.

Lemma elem_of_rev {A} (l : list A) x : x ∈ rev l <-> x ∈ l.
Proof. rewrite !list_elem_of_In. symmetry. apply in_rev. Qed.

Lemma elem_of_map {A B} (f : A -> B) l y : y ∈ map f l <-> exists x, x ∈ l /\ y = f x.
Proof. rewrite list_elem_of_In, in_map_iff. split; intros (x & H1 & H2); exists x; rewrite list_elem_of_In in *; done. Qed.

Lemma elem_of_omap {A B} (f : A -> option B) (l : list A) y : y ∈ omap f l <-> exists x, x ∈ l /\ f x = Some y.
Proof. apply list_elem_of_omap. Qed.

Lemma NoDup_map_inj {A B} (f : A -> B) l x y : NoDup (map f l) -> x ∈ l -> y ∈ l -> f x = f y -> x = y.
Proof.
  induction l as [|z l IH]; simpl; [by intros _ ?%elem_of_nil|]. rewrite list.NoDup_cons. intros [Hn Hd] [->|Hx]%elem_of_cons [->|Hy]%elem_of_cons E; [done| | |by apply IH];
    destruct Hn; [rewrite E|rewrite <- E]; by apply list_elem_of_fmap_2.
Qed.

(** Rewrite rules that are always simplifications. *)
Create Rewrite HintDb tend_simpl.
#[export] Hint Rewrite @length_app @length_drop @length_take @length_rev @length_lastn : tend_simpl.
