(* ===== verification/GoTime.v ===== *)
(** * Go's [time.Time] and [time.Duration]

    A [Time] is the number of nanoseconds since Go's zero time (January 1 of
    year 1, UTC), so [IsZero] is a test for 0; a [Duration] is a signed 64-bit
    number of nanoseconds. *)
From stdpp Require Import pretty.
From S2P Require Import Prelude.
Open Scope Z_scope.

Abbreviation Time := Z.
Abbreviation Duration := Z.

Definition Nanosecond : Duration := 1.
Definition Millisecond : Duration := 1000000.
Definition Second : Duration := 1000000000.
Definition Minute : Duration := 60 * Second.
Definition Hour : Duration := 60 * Minute.

Definition zero_time : Time := 0.
Definition IsZero (t : Time) : bool := t =? 0.

(** [t.Add d], [t.Before u] and [t.After u]. *)
Definition TimeAdd (t : Time) (d : Duration) : Time := t + d.
Definition Before (t u : Time) : bool := t <? u.
Definition After (t u : Time) : bool := u <? t.

(** [t.Sub u] saturates at the largest and smallest durations. *)
Definition TimeSub (t u : Time) : Duration := Z.max min_int64 (Z.min max_int64 (t - u)).

(** [time.Duration(n) * time.Second]: a plain 64-bit multiplication. *)
Definition secs (n : Z) : Duration := wrap64 (n * Second).

(** The largest number of seconds a [Duration] holds. *)
Definition max_secs : Z := max_int64 / Second.

Lemma secs_small n : 0 <= n <= max_secs -> secs n = n * Second.
Proof.
  unfold max_secs, secs, max_int64, Second. intros H. apply wrap64_id.
  unfold int64_range, min_int64, max_int64.
  pose proof (Z.mul_div_le (2 ^ 63 - 1) 1000000000 ltac:(lia)). lia.
Qed.

Lemma secs_0 : secs 0 = 0.
Proof. done. Qed.

Lemma secs_range n : int64_range (secs n).
Proof. apply wrap64_range. Qed.

#[export] Hint Resolve secs_range : tend.

Lemma TimeSub_small t u : int64_range (t - u) -> TimeSub t u = t - u.
Proof. unfold TimeSub, int64_range. lia. Qed.

(** ** [Duration.String] *)

(** The [prec] decimal digits of the fraction of [v], without its trailing zeros, and the point before them. *)
Definition fraction (v : Z) (prec : nat) : bytes :=
  let digits := map (fun i => (v / 10 ^ Z.of_nat i) mod 10) (rev (seq 0 prec)) in
  match rev (drop_while (fun d => d =? 0) (rev digits)) with
  | [] => []
  | ds => bstr "." ++ map (fun d => ascii_of_N (Z.to_N (48 + d))) ds
  end.

Definition digits (v : Z) : bytes := bstr (pretty v).

(** [Duration.String]: hours, minutes and seconds, or the largest smaller unit below a second. *)
Definition DurationString (d : Duration) : bytes :=
  let u := Z.abs d in
  let sign := if d <? 0 then bstr "-" else [] in
  if u =? 0 then bstr "0s"
  else if u <? 1000 then sign ++ digits u ++ bstr "ns"
  else if u <? Millisecond then sign ++ digits (u / 1000) ++ fraction u 3 ++ ["194"; "181"]%char ++ bstr "s"
  else if u <? Second then sign ++ digits (u / Millisecond) ++ fraction u 6 ++ bstr "ms"
  else
    let n := u / Second in
    let s := digits (n mod 60) ++ fraction u 9 ++ bstr "s" in
    let m := if n <? 60 then [] else digits (n / 60 mod 60) ++ bstr "m" in
    let h := if n <? 3600 then [] else digits (n / 3600) ++ bstr "h" in
    sign ++ h ++ m ++ s.

Example DurationString_reap : DurationString (2 * Minute) = bstr "2m0s".
Proof. vm_compute. reflexivity. Qed.
Example DurationString_forever : DurationString max_int64 = bstr "2562047h47m16.854775807s".
Proof. vm_compute. reflexivity. Qed.
Example DurationString_small : map DurationString [0; 7; 1500; 250 * Millisecond; - Hour]
  = [bstr "0s"; bstr "7ns"; bstr "1.5" ++ ["194"; "181"]%char ++ bstr "s"; bstr "250ms"; bstr "-1h0m0s"].
Proof. vm_compute. reflexivity. Qed.
