(* ===== verification/Tail.v ===== *)
(** * The tail and the head of some output ([internal/core/tail.go])

    Every alert carries at most the last lines of an output and at most
    [OutputTailBytes] bytes of them. The main theorem is the promise of
    [TailLines]'s comment: cutting a tail again to fewer lines gives what
    cutting the whole output to that many would have. *)
From S2P Require Import Prelude.
Open Scope Z_scope.

Definition OutputTailLines : Z := 10.
Definition MaxOutputTailLines : Z := 50.
Definition OutputTailBytes : nat := 1000.

(** [utf8.RuneStart]: the byte is not a continuation byte (10xxxxxx). *)
Definition RuneStart (c : ascii) : bool := negb ((128 <=? byte_val c) && (byte_val c <? 192)).

(** The cutset " \t\r\n" of [strings.TrimRight] and [strings.Trim]. *)
Definition blank (c : ascii) : bool :=
  (Ascii.eqb c " " || Ascii.eqb c "009" || Ascii.eqb c "013" || Ascii.eqb c nl)%char%bool.

Definition TrimLeft (s : bytes) : bytes := drop_while blank s.
Definition TrimRight (s : bytes) : bytes := rev (drop_while blank (rev s)).
Definition Trim (s : bytes) : bytes := TrimRight (TrimLeft s).

(** [strings.Split s "\n"]. *)
Fixpoint split_nl (s : bytes) : list bytes :=
  match s with
  | [] => [[]]
  | c :: r =>
      if Ascii.eqb c nl then [] :: split_nl r
      else match split_nl r with
           | [] => [[c]]
           | p :: ps => (c :: p) :: ps
           end
  end.

(** [strings.Join parts "\n"]. *)
Fixpoint join_nl (ps : list bytes) : bytes :=
  match ps with
  | [] => []
  | [p] => p
  | p :: r => p ++ nl :: join_nl r
  end.

(** The loop that drops continuation bytes from the front of a cut tail. *)
Definition drop_cont (s : bytes) : bytes := drop_while (fun c => negb (RuneStart c)) s.

(** The byte cap of [TailLines]. *)
Definition cap_tail (tail : bytes) : bytes :=
  if (OutputTailBytes <? List.length tail)%nat
  then drop_cont (drop (List.length tail - OutputTailBytes) tail)
  else tail.

Definition TailLines (s : bytes) (lines : Z) : bytes :=
  let s := TrimRight s in
  if bool_decide (s = []) || (lines <=? 0) then []
  else
    let parts := split_nl s in
    let parts := if Z.of_nat (List.length parts) >? lines
                 then drop (List.length parts - Z.to_nat lines) parts else parts in
    cap_tail (join_nl parts).

Definition OutputTail (s : bytes) : bytes := TailLines s OutputTailLines.

(** [strings.SplitN s "\n" n] for [n > 0]: at most [n] parts, the last one
    the unsplit remainder. *)
Fixpoint splitn_nl (n : nat) (s : bytes) : list bytes :=
  match n with
  | O => []
  | S O => [s]
  | S n' =>
      match split_nl s with
      | [] => []
      | [p] => [p]
      | p :: _ => p :: splitn_nl n' (drop (S (List.length p)) s)
      end
  end.

(** [for cut > 0 && !utf8.RuneStart(head[cut]) { cut-- }]. *)
Fixpoint back_to_start (head : bytes) (cut : nat) : nat :=
  match cut with
  | O => O
  | S c => match head !! cut with
           | Some x => if RuneStart x then cut else back_to_start head c
           | None => cut
           end
  end.

Definition cap_head (head : bytes) : bytes :=
  if (OutputTailBytes <? List.length head)%nat
  then take (back_to_start head OutputTailBytes) head
  else head.

Definition HeadLines (s : bytes) (lines : Z) : bytes :=
  let s := Trim s in
  if bool_decide (s = []) || (lines <=? 0) then []
  else
    let parts := splitn_nl (Z.to_nat (lines + 1)) s in
    let parts := if Z.of_nat (List.length parts) >? lines then take (Z.to_nat lines) parts else parts in
    cap_head (join_nl parts).

(** No line of [s] starts with a continuation byte, as in any valid UTF-8. *)
Fixpoint no_stray_cont (at_start : bool) (s : bytes) : Prop :=
  match s with
  | [] => True
  | c :: r => (at_start = true -> RuneStart c = true) /\ no_stray_cont (Ascii.eqb c nl) r
  end.

Definition lines_start_runes (s : bytes) : Prop := no_stray_cont true s.

Example tail_ex1 : TailLines (bstr "a
b
c
") 2 = bstr "b
c".
Proof. reflexivity. Qed.
Example head_ex1 : HeadLines (bstr "FAIL: a
FAIL: b
FAIL: c
") 2 = bstr "FAIL: a
FAIL: b".
Proof. reflexivity. Qed.

(** ** Lines *)

Definition lastlines (n : nat) (t : bytes) : bytes := join_nl (lastn n (split_nl t)).

Lemma split_nl_nonempty t : split_nl t <> [].
Proof.
  destruct t as [|c r]; simpl; [done|]. destruct (Ascii.eqb c nl); [done|].
  by destruct (split_nl r).
Qed.

Lemma join_split t : join_nl (split_nl t) = t.
Proof.
  induction t as [|c r IH]; simpl; [done|].
  pose proof (split_nl_nonempty r).
  destruct (Ascii.eqb c nl) eqn:E.
  - apply Ascii.eqb_eq in E as ->. destruct (split_nl r); [done|]. simpl in *. by rewrite IH.
  - destruct (split_nl r) as [|p [|q ps]]; [done| |]; simpl in *; by rewrite IH.
Qed.

(** Splitting an append merges the part at the seam. *)
Lemma split_app v u p ps : split_nl u = p :: ps ->
  exists ws w, split_nl (v ++ u) = ws ++ (w ++ p) :: ps.
Proof.
  intros Hu. induction v as [|c v (ws & w & IH)]; simpl.
  - by exists [], [].
  - rewrite IH. destruct (Ascii.eqb c nl).
    + exists ([] :: ws), w. done.
    + destruct ws as [|w0 ws]; simpl; [by exists [], (c :: w)|by exists ((c :: w0) :: ws), w].
Qed.

Lemma join_nl_cons p ps : ps <> [] -> join_nl (p :: ps) = p ++ nl :: join_nl ps.
Proof. by destruct ps. Qed.

Lemma join_nl_app ws ps : ps <> [] -> exists v, join_nl (ws ++ ps) = v ++ join_nl ps.
Proof.
  intros Hp. induction ws as [|w ws (v & IH)]; [by exists []|].
  exists (w ++ nl :: v). simpl app. rewrite join_nl_cons by (by destruct ws).
  rewrite IH. by rewrite <- app_assoc.
Qed.

(** The last lines of a suffix [u] of [v ++ u] are those of the whole, or all
    of [u] when the whole's last lines reach further back. *)
Lemma lastlines_suffix m v u : (0 < m)%nat ->
  lastlines m u = lastlines m (v ++ u) \/
  (lastlines m u = u /\ exists w, lastlines m (v ++ u) = w ++ u).
Proof.
  intros Hm. unfold lastlines.
  destruct (split_nl u) as [|p ps] eqn:Hu; [by apply split_nl_nonempty in Hu|].
  destruct (split_app v u p ps Hu) as (ws & w & Hvu). rewrite Hvu.
  destruct (decide (m <= List.length ps)%nat) as [Hle|Hgt].
  - left. change (p :: ps) with ([p] ++ ps).
    replace (ws ++ (w ++ p) :: ps) with ((ws ++ [w ++ p]) ++ ps) by (by rewrite <- app_assoc).
    by rewrite !lastn_app_le by lia.
  - right. rewrite lastn_all by (simpl; lia). rewrite <- Hu, join_split. split; [done|].
    destruct (lastn_suffix m (ws ++ (w ++ p) :: ps)) as (pre & Hpre).
    assert (exists ws', lastn m (ws ++ (w ++ p) :: ps) = ws' ++ (w ++ p) :: ps) as (ws' & ->).
    { unfold lastn. rewrite length_app. simpl.
      exists (drop (List.length ws + S (List.length ps) - m) ws).
      rewrite drop_app_le by lia. done. }
    destruct (join_nl_app ws' ((w ++ p) :: ps) ltac:(done)) as (v' & ->).
    exists (v' ++ w). rewrite <- (join_split u), Hu, <- !app_assoc. f_equal.
    destruct ps; [done|]. rewrite !join_nl_cons by done. by rewrite <- app_assoc.
Qed.

Lemma lastlines_is_suffix m t : exists v, t = v ++ lastlines m t.
Proof.
  destruct (decide (m = 0%nat)) as [->|Hm].
  { exists t. unfold lastlines, lastn. rewrite drop_ge by lia. by rewrite app_nil_r. }
  unfold lastlines. destruct (lastn_suffix m (split_nl t)) as (pre & E).
  assert (lastn m (split_nl t) <> []) as Hne.
  { intros E'. apply (f_equal (@List.length _)) in E'. rewrite length_lastn in E'.
    pose proof (split_nl_nonempty t). destruct (split_nl t); simpl in *; [done|lia]. }
  destruct (join_nl_app pre _ Hne) as (v & Hv). exists v. by rewrite <- Hv, <- E, join_split.
Qed.

Lemma lastlines_mono m n t : (m <= n)%nat -> exists w, lastlines n t = w ++ lastlines m t.
Proof.
  intros Hmn. destruct (lastlines_is_suffix n t) as (v & Hv).
  destruct (decide (m = 0%nat)) as [->|Hm].
  { exists (lastlines n t). replace (lastlines 0 t) with (@nil ascii); [by rewrite app_nil_r|].
    unfold lastlines, lastn. by rewrite drop_ge by lia. }
  unfold lastlines. assert (exists pre, lastn n (split_nl t) = pre ++ lastn m (split_nl t)) as (pre & ->).
  { destruct (decide (n <= List.length (split_nl t))%nat).
    - exists (take (n - m) (lastn n (split_nl t))). rewrite <- (take_drop (n - m) (lastn n _)) at 1. f_equal.
      unfold lastn. rewrite drop_drop. f_equal. lia.
    - rewrite (lastn_all n) by lia. apply lastn_suffix. }
  apply join_nl_app. intros E. apply (f_equal (@List.length _)) in E. rewrite length_lastn in E.
  pose proof (split_nl_nonempty t). destruct (split_nl t); simpl in *; [done|lia].
Qed.

(** A non-empty tail of lines starts where a line starts. *)
Lemma no_stray_cont_head b t : no_stray_cont b t -> b = true ->
  match t with [] => True | c :: _ => RuneStart c = true end.
Proof. destruct t as [|c t]; simpl; [done|]. intros [H _] ->. by apply H. Qed.

Lemma no_stray_cont_weaken b t : no_stray_cont true t -> no_stray_cont b t.
Proof. destruct t as [|c t]; simpl; [done|]. intros [H ?]. split; [by intros; apply H|done]. Qed.

Lemma no_stray_cont_split b t : no_stray_cont b t ->
  match split_nl t with
  | [] => True
  | p :: ps => no_stray_cont b p /\ Forall (no_stray_cont true) ps
  end.
Proof.
  revert b. induction t as [|c t IH]; intros b; simpl; [done|].
  intros [H1 H2]. specialize (IH _ H2).
  destruct (Ascii.eqb c nl) eqn:E.
  - split; [done|]. destruct (split_nl t); [done|]. constructor; tauto.
  - destruct (split_nl t) as [|p ps]; simpl; [by split|].
    destruct IH. repeat split; try done.
    rewrite E. done.
Qed.

Lemma lastlines_starts m t : lines_start_runes t ->
  match lastlines m t with [] => True | c :: _ => RuneStart c = true end.
Proof.
  intros H. apply no_stray_cont_split in H.
  assert (Forall (no_stray_cont true) (split_nl t)) as HF.
  { destruct (split_nl t); [done|]. constructor; tauto. }
  unfold lastlines. assert (Forall (no_stray_cont true) (lastn m (split_nl t))) as HF'.
  { by apply Forall_drop. }
  destruct (lastn m (split_nl t)) as [|p ps]; [done|].
  inversion HF' as [|? ? Hp Hps]; subst.
  destruct p as [|c p]; [by destruct ps|].
  destruct ps; simpl; by apply (no_stray_cont_head true (c :: p)).
Qed.

(** ** Trimming *)

Lemma TrimRight_prefix s : exists w, s = TrimRight s ++ w.
Proof.
  unfold TrimRight. destruct (drop_while_suffix blank (rev s)) as (v & E & _).
  exists (rev v). rewrite <- rev_app_distr, <- E. by rewrite rev_involutive.
Qed.

Lemma TrimRight_last s : match list.last (TrimRight s) with None => True | Some c => blank c = false end.
Proof.
  unfold TrimRight. pose proof (drop_while_head blank (rev s)).
  destruct (drop_while blank (rev s)) as [|c r]; [done|].
  change (rev (c :: r)) with (rev r ++ [c]). by rewrite last_snoc.
Qed.

Lemma TrimRight_id s : match list.last s with None => True | Some c => blank c = false end -> TrimRight s = s.
Proof.
  destruct s as [|x s _] using rev_ind; [done|]. rewrite last_snoc. intros H.
  unfold TrimRight. rewrite rev_app_distr. simpl. rewrite H. simpl. by rewrite rev_involutive.
Qed.

Lemma last_suffix {A} (v u : list A) : u <> [] -> list.last (v ++ u) = list.last u.
Proof. destruct u as [|x u _] using rev_ind; [done|]. intros _. by rewrite app_assoc, !last_snoc. Qed.

Lemma no_stray_cont_app b s w : no_stray_cont b (s ++ w) -> no_stray_cont b s.
Proof. revert b. induction s as [|c s IH]; intros b; simpl; [done|]. intros [H1 H2]. split; [done|]. by apply IH. Qed.

Lemma TrimRight_lines_start s : lines_start_runes s -> lines_start_runes (TrimRight s).
Proof. unfold lines_start_runes. destruct (TrimRight_prefix s) as (w & E). rewrite E at 1. apply no_stray_cont_app. Qed.

(** ** The byte cap *)

Lemma cap_tail_suffix t : exists v, t = v ++ cap_tail t.
Proof.
  unfold cap_tail, drop_cont. destruct (_ <? _)%nat; [|by exists []].
  destruct (drop_while_suffix (fun c => negb (RuneStart c)) (drop (List.length t - OutputTailBytes) t)) as (v & E & _).
  exists (take (List.length t - OutputTailBytes) t ++ v). rewrite <- app_assoc, <- E. by rewrite take_drop.
Qed.

Lemma cap_tail_small t : (List.length t <= OutputTailBytes)%nat -> cap_tail t = t.
Proof. intros. unfold cap_tail. destruct (Nat.ltb_spec OutputTailBytes (List.length t)); [lia|done]. Qed.

Lemma length_drop_cont s : (List.length (drop_cont s) <= List.length s)%nat.
Proof.
  unfold drop_cont. destruct (drop_while_suffix (fun c => negb (RuneStart c)) s) as (v & E & _).
  apply (f_equal (@List.length _)) in E. rewrite length_app in E. lia.
Qed.

Lemma length_cap_tail t : (List.length (cap_tail t) <= OutputTailBytes)%nat.
Proof.
  unfold cap_tail. destruct (Nat.ltb_spec OutputTailBytes (List.length t)); [|lia].
  etrans; [apply length_drop_cont|]. rewrite length_drop. lia.
Qed.

(** The cap of a long text depends on its last bytes alone. *)
Lemma cap_tail_app v u : (OutputTailBytes < List.length u)%nat -> cap_tail (v ++ u) = cap_tail u.
Proof.
  intros H. unfold cap_tail. rewrite length_app.
  destruct (Nat.ltb_spec OutputTailBytes (List.length u)); [|lia].
  destruct (Nat.ltb_spec OutputTailBytes (List.length v + List.length u)); [|lia].
  rewrite drop_app_ge by lia. do 2 f_equal. lia.
Qed.

(** When the last lines [u] of a longer text fit in the cap and start at a
    rune, the cap of the longer text keeps all of them. *)
Lemma cap_tail_keeps v u : (List.length u <= OutputTailBytes)%nat ->
  match u with [] => True | c :: _ => RuneStart c = true end ->
  exists w, cap_tail (v ++ u) = w ++ u.
Proof.
  intros Hlen Hu. unfold cap_tail. rewrite length_app.
  destruct (Nat.ltb_spec OutputTailBytes (List.length v + List.length u)) as [Hlt|]; [|by exists v].
  rewrite drop_app_le by lia.
  set (d := drop _ v). clearbody d.
  unfold drop_cont. induction d as [|c d (w & IH)]; simpl.
  - exists []. simpl. apply drop_while_id. destruct u as [|c u]; [done|]. by rewrite Hu.
  - destruct (negb (RuneStart c)); [by exists w|by exists (c :: d)].
Qed.

(** ** The functional form of [TailLines] *)

Lemma TailLines_eq s n : TailLines s n =
  if bool_decide (TrimRight s = []) || (n <=? 0) then [] else cap_tail (lastlines (Z.to_nat n) (TrimRight s)).
Proof.
  unfold TailLines. destruct (_ || _) eqn:E; [done|]. bsimpl. f_equal. unfold lastlines.
  f_equal. unfold lastn. split_ifs; [done|].
  assert (Z.of_nat (List.length (split_nl (TrimRight s))) <= n) by lia.
  replace (_ - _)%nat with 0%nat by lia. by rewrite drop_0.
Qed.

(** The two cuts agree on a text whose last byte is not blank. *)
Lemma cap_lastlines_twice t (n m : nat) : t <> [] -> (0 < m <= n)%nat -> lines_start_runes t ->
  let k := cap_tail (lastlines n t) in
  (k = [] -> cap_tail (lastlines m t) = []) /\ cap_tail (lastlines m k) = cap_tail (lastlines m t).
Proof.
  intros Hne Hmn Ht k.
  pose proof (lastlines_starts m t Ht) as Hstart.
  destruct (lastlines_is_suffix n t) as (vn & Hvn).
  (* the last m lines are those of the last n lines *)
  assert (exists w, lastlines n t = w ++ lastlines m t) as (wm & Hwm).
  { apply lastlines_mono; lia. }
  destruct (cap_tail_suffix (lastlines n t)) as (vk & Hk). fold k in Hk.
  assert (Hkm : (exists w, k = w ++ lastlines m t) \/ cap_tail (lastlines m t) = k).
  { destruct (decide (List.length (lastlines m t) <= OutputTailBytes)%nat) as [Hs|Hs].
    - left. unfold k. rewrite Hwm. by apply cap_tail_keeps.
    - right. unfold k. rewrite Hwm. symmetry. apply cap_tail_app. lia. }
  assert (Htk : t = (vn ++ vk) ++ k) by (rewrite <- app_assoc, <- Hk; done).
  destruct (lastlines_suffix m (vn ++ vk) k ltac:(lia)) as [E|(E & w & E')]; rewrite <- Htk in *.
  - split; [|by rewrite E]. intros ->. rewrite <- E. by destruct m.
  - rewrite E. destruct Hkm as [(w' & Hk')|<-].
    + assert (w = [] /\ w' = []) as [-> ->].
      { rewrite E' in Hk'. apply (f_equal (@List.length _)) in Hk'. rewrite !length_app in Hk'.
        destruct w, w'; simpl in *; try lia. done. }
      simpl in *. rewrite E'. by split; [intros ->|].
    + split; [done|]. apply cap_tail_small, length_cap_tail.
Qed.

(** cutting a kept tail again to fewer lines gives what cutting the whole
    output to that many would have, provided no line of the output starts
    with a stray UTF-8 continuation byte (true of the cleaned text the program
    stores). *)
Theorem TailLines_TailLines (s : bytes) (n m : Z) :
  m <= n -> lines_start_runes s -> TailLines (TailLines s n) m = TailLines s m.
Proof.
  intros Hmn Hs. rewrite (TailLines_eq s n), (TailLines_eq s m), (TailLines_eq _ m).
  apply TrimRight_lines_start in Hs. pose proof (TrimRight_last s) as Hlast.
  revert Hs Hlast. generalize (TrimRight s) as t. clear s. intros t Ht Hlast.
  destruct (decide (t = [])) as [->|Hne]; [done|]. rewrite (bool_decide_eq_false_2 (t = [])) by done.
  destruct (Z.leb_spec m 0) as [|Hm]; [by rewrite !orb_true_r|].
  destruct (Z.leb_spec n 0) as [|Hn]; [lia|]. simpl orb. cbv iota.
  destruct (cap_lastlines_twice t (Z.to_nat n) (Z.to_nat m) Hne ltac:(lia) Ht) as [Hnil Heq].
  set (k := cap_tail (lastlines (Z.to_nat n) t)) in *.
  destruct (lastlines_is_suffix (Z.to_nat n) t) as (vn & Hvn).
  destruct (cap_tail_suffix (lastlines (Z.to_nat n) t)) as (vk & Hk). fold k in Hk.
  destruct (decide (k = [])) as [Ek|Ek]; [rewrite Ek, Hnil by done; done|].
  rewrite TrimRight_id, bool_decide_eq_false_2 by
    (try done; rewrite Hvn, Hk, app_assoc, last_suffix in Hlast by done; done).
  done.
Qed.

Lemma TailLines_TailLines_witness :
  TailLines (TailLines (bstr "one
two
three") 50) 2 = TailLines (bstr "one
two
three") 2.
Proof. apply (TailLines_TailLines (bstr "one
two
three") 50 2); [lia | cbv; repeat split; discriminate || reflexivity]. Defined.

(** Without that proviso the two differ: a line of exactly
    [OutputTailBytes] bytes that starts with a continuation byte keeps it when
    it is cut alone and loses it when it is cut out of a longer text. *)
Definition stray_output : bytes :=
  "a"%char :: nl :: "128"%char :: repeat "x"%char (OutputTailBytes - 1).

(** the unconditional reading of the comment does not hold. *)
Theorem TailLines_TailLines_stray :
  exists s n m, m <= n /\ TailLines (TailLines s n) m <> TailLines s m.
Proof. exists stray_output, 2, 1. split; [lia|]. vm_compute. discriminate. Qed.

(** a tail is at most [OutputTailBytes] long. *)
Lemma length_TailLines (s : bytes) (n : Z) : (List.length (TailLines s n) <= OutputTailBytes)%nat.
Proof. rewrite TailLines_eq. split_ifs; [simpl; lia|apply length_cap_tail]. Qed.
