(* ===== verification/Utf8.v ===== *)
(** * UTF-8 ([unicode/utf8] and [strings] of Go's standard library)

    The functions the program's capture and clean-up of outputs use:
    [utf8.RuneStart] (in [Tail]), the width of the character at the front of a
    byte string ([utf8.DecodeRune]), [utf8.FullRune], [utf8.ValidString] and
    [strings.ToValidUTF8]. A byte string is read as a sequence of [chunks]: a
    whole character, or one byte that starts none. *)
From S2P Require Import Prelude Tail.
Open Scope Z_scope.

(** ** Characters *)

(** The width of the character a byte starts, with the range its second byte
    must lie in (Go's [first] and [acceptRanges] tables); [None] for a byte
    that starts none. *)
Definition first_byte (c : ascii) : option (nat * Z * Z) :=
  let n := byte_val c in
  if n <? 128 then Some (1%nat, 0, 0)
  else if n <? 194 then None
  else if n <? 224 then Some (2%nat, 128, 191)
  else if n =? 224 then Some (3%nat, 160, 191)
  else if n =? 237 then Some (3%nat, 128, 159)
  else if n <? 240 then Some (3%nat, 128, 191)
  else if n =? 240 then Some (4%nat, 144, 191)
  else if n <? 244 then Some (4%nat, 128, 191)
  else if n =? 244 then Some (4%nat, 128, 143)
  else None.

Definition cont (c : ascii) : bool := negb (RuneStart c).
Definition between (lo hi : Z) (c : ascii) : bool := (lo <=? byte_val c) && (byte_val c <=? hi).

(** Whether [r] can be the bytes after the first of a character that is [n]
    bytes wide and whose second byte lies in [lo, hi]: all of them if [r] has
    that many, otherwise as many as there are. *)
Fixpoint conts (n : nat) (r : bytes) : bool :=
  match n, r with
  | S n', c :: r' => cont c && conts n' r'
  | _, _ => true
  end.
Definition follows (n : nat) (lo hi : Z) (r : bytes) : bool :=
  match n, r with
  | S n', c :: r' => between lo hi c && conts n' r'
  | _, _ => true
  end.

(** [utf8.DecodeRune]'s width, where it is not that of a [RuneError] for a
    byte that starts no character. *)
Definition rune_len (s : bytes) : option nat :=
  match s with
  | [] => None
  | c :: r =>
      match first_byte c with
      | None => None
      | Some (n, lo, hi) => if (n <=? List.length s)%nat && follows (n - 1) lo hi r then Some n else None
      end
  end.

(** [utf8.FullRune]: false only for a character the bytes end too early for. *)
Definition FullRune (s : bytes) : bool :=
  match s with
  | [] => false
  | c :: r =>
      match first_byte c with
      | None => true
      | Some (n, lo, hi) => (n <=? List.length s)%nat || negb (follows (n - 1) lo hi r)
      end
  end.

(** ** Strings *)

(** The characters and stray bytes of a string, in order, each with whether it
    is a character. *)
Fixpoint chunks_from (fuel : nat) (s : bytes) : list (bytes * bool) :=
  match fuel, s with
  | S f, c :: r =>
      match rune_len s with
      | Some n => (take n s, true) :: chunks_from f (drop n s)
      | None => ([c], false) :: chunks_from f r
      end
  | _, _ => []
  end.
Definition chunks (s : bytes) : list (bytes * bool) := chunks_from (List.length s) s.

(** [utf8.ValidString]. *)
Definition ValidString (s : bytes) : bool := forallb snd (chunks s).

(** [strings.ToValidUTF8]: each run of stray bytes becomes one [rep]; [inv]
    says that the previous byte was one. *)
Fixpoint replace_invalid (rep : bytes) (inv : bool) (l : list (bytes * bool)) : bytes :=
  match l with
  | [] => []
  | (r, true) :: l' => r ++ replace_invalid rep false l'
  | (_, false) :: l' => (if inv then [] else rep) ++ replace_invalid rep true l'
  end.
Definition ToValidUTF8 (s rep : bytes) : bytes := replace_invalid rep false (chunks s).

(** U+FFFD. *)
Definition FFFD : bytes := ["239"; "191"; "189"]%char.

(** [unicode.IsSpace] of a character, and [strings.TrimSpace]. *)
Definition space_runes : list bytes :=
  map (fun n => [ascii_of_N n]) [9; 10; 11; 12; 13; 32]%N
  ++ [["194"; "133"]; ["194"; "160"]; ["225"; "154"; "128"]]%char
  ++ map (fun n => ["226"; "128"; ascii_of_N n]%char) [128; 129; 130; 131; 132; 133; 134; 135; 136; 137; 138; 168; 169; 175]%N
  ++ [["226"; "129"; "159"]; ["227"; "128"; "128"]]%char.
Definition is_space (r : bytes * bool) : bool := bool_decide (fst r ∈ space_runes).
Definition TrimSpace (s : bytes) : bytes :=
  mjoin (map fst (rev (drop_while is_space (rev (drop_while is_space (chunks s)))))).

(** ** Facts *)

Lemma first_byte_bounds c n lo hi : first_byte c = Some (n, lo, hi) -> (1 <= n <= 4)%nat.
Proof. unfold first_byte. split_ifs; intros [= <- <- <-]; lia. Qed.

Lemma first_byte_second c n lo hi : first_byte c = Some (n, lo, hi) -> (1 < n)%nat -> 128 <= lo /\ hi <= 191.
Proof. unfold first_byte. split_ifs; intros [= <- <- <-]; lia. Qed.

Lemma first_byte_start c n lo hi : first_byte c = Some (n, lo, hi) -> RuneStart c = true.
Proof.
  unfold first_byte, RuneStart. intros H. apply negb_true_iff, andb_false_iff.
  destruct (Z.ltb_spec (byte_val c) 128); [left; lia|]. destruct (Z.ltb_spec (byte_val c) 194); [done|]. right. lia.
Qed.

Lemma between_cont lo hi c : 128 <= lo -> hi <= 191 -> between lo hi c = true -> cont c = true.
Proof. unfold between, cont, RuneStart. intros ?? H. bsimpl. rewrite negb_involutive. apply andb_true_iff. lia. Qed.

Lemma follows_conts n lo hi r : 128 <= lo -> hi <= 191 -> follows n lo hi r = true -> conts n r = true.
Proof.
  intros Hl Hh. destruct n, r as [|c r]; simpl; try done. intros H. bsimpl.
  rewrite (between_cont lo hi) by done. done.
Qed.

Lemma conts_app n r s : (n <= List.length r)%nat -> conts n (r ++ s) = conts n r.
Proof. revert r. induction n as [|n IH]; intros [|c r] H; simpl in *; try done; try lia. rewrite IH by lia. done. Qed.

Lemma follows_app n lo hi r s : (n <= List.length r)%nat -> follows n lo hi (r ++ s) = follows n lo hi r.
Proof. destruct n, r as [|c r]; simpl; intros; try done; try lia. rewrite conts_app by lia. done. Qed.

Lemma conts_all n r : (n <= List.length r)%nat -> conts n r = true -> Forall (fun c => cont c = true) (take n r).
Proof.
  revert r. induction n as [|n IH]; intros [|c r] Hl H; simpl in *; try constructor; try lia; bsimpl; [done|].
  apply IH; [lia|done].
Qed.

Lemma rune_len_bounds s n : rune_len s = Some n -> (1 <= n <= 4)%nat /\ (n <= List.length s)%nat.
Proof.
  destruct s as [|c r]; [done|]. unfold rune_len. destruct (first_byte c) as [[[m lo] hi]|] eqn:E; [|done].
  destruct (_ && _) eqn:H; [|done]. intros [= <-]. apply andb_true_iff in H as [H _]. apply Nat.leb_le in H.
  apply first_byte_bounds in E. lia.
Qed.

(** A character is a character whatever follows it. *)
Lemma rune_len_app s t n : rune_len s = Some n -> rune_len (s ++ t) = Some n.
Proof.
  intros H. pose proof (rune_len_bounds _ _ H) as [Hb Hl]. destruct s as [|c r]; [done|]. revert H. simpl.
  destruct (first_byte c) as [[[m lo] hi]|] eqn:E; [|done]. destruct (_ && _) eqn:H; [|done]. intros [= ->].
  apply andb_true_iff in H as [_ H]. simpl in Hl. rewrite follows_app, H by lia.
  rewrite length_app. destruct (Nat.leb_spec n (S (List.length r + List.length t))); [done|lia].
Qed.

Lemma rune_len_take s n : rune_len s = Some n -> rune_len (take n s) = Some n.
Proof.
  intros H. pose proof (rune_len_bounds _ _ H) as [Hb Hl]. destruct s as [|c r]; [done|]. revert H. simpl.
  destruct (first_byte c) as [[[m lo] hi]|] eqn:E; [|done]. destruct (_ && _) eqn:H; [|done]. intros [= ->].
  apply andb_true_iff in H as [_ H]. simpl in Hl. destruct n as [|n]; [lia|]. simpl. rewrite E.
  replace (S n - 1)%nat with n in H by lia. rewrite <- (take_drop n r), follows_app in H by (rewrite length_take; lia).
  rewrite length_take, Nat.min_l, Nat.leb_refl by lia. cbn. rewrite ?Nat.sub_0_r, H. done.
Qed.

Lemma rune_len_start c r n : rune_len (c :: r) = Some n -> RuneStart c = true.
Proof. simpl. destruct (first_byte c) as [[[m lo] hi]|] eqn:E; [|done]. intros _. by apply first_byte_start in E. Qed.

(** The bytes of a character after its first are continuation bytes. *)
Lemma rune_len_tail c r n : rune_len (c :: r) = Some n -> Forall (fun x => cont x = true) (take (n - 1) r).
Proof.
  intros H. pose proof (rune_len_bounds _ _ H) as [Hb Hl]. revert H. simpl.
  destruct (first_byte c) as [[[m lo] hi]|] eqn:E; [|done]. destruct (_ && _) eqn:H; [|done]. intros [= ->].
  apply andb_true_iff in H as [_ H]. simpl in Hl. destruct (Nat.eq_dec n 1%nat) as [->|]; [constructor|].
  destruct (first_byte_second _ _ _ _ E); [lia|]. apply conts_all; [lia|]. by apply follows_conts in H.
Qed.

Lemma chunks_from_enough f s : (List.length s <= f)%nat -> chunks_from f s = chunks s.
Proof.
  unfold chunks. remember (List.length s) as n eqn:E. assert (Hn : (List.length s <= n)%nat) by lia. clear E.
  revert f n Hn. revert s.
  enough (H : forall k s, (List.length s <= k)%nat -> forall f n, (List.length s <= n)%nat -> (n <= f)%nat ->
    chunks_from f s = chunks_from n s) by (intros s f n Hs Hf; apply (H (List.length s)); lia).
  induction k as [|k IH]; intros s Hk f n Hs Hf.
  - destruct s; [|simpl in Hk; lia]. by destruct f, n.
  - destruct s as [|c r]; [by destruct f, n|]. simpl in Hs. destruct n as [|n]; [lia|]. destruct f as [|f]; [lia|].
    cbn [chunks_from]. destruct (rune_len (c :: r)) as [m|] eqn:E.
    + pose proof (rune_len_bounds _ _ E) as [Hb Hl]. simpl in Hk.
      assert (Hd : (List.length (drop m (c :: r)) <= List.length r)%nat) by (rewrite length_drop; simpl in *; lia).
      f_equal. apply IH; lia.
    + f_equal. simpl in Hk. apply IH; lia.
Qed.

(** The decomposition's equation. *)
Lemma chunks_cons c r : chunks (c :: r) =
  match rune_len (c :: r) with
  | Some n => (take n (c :: r), true) :: chunks (drop n (c :: r))
  | None => ([c], false) :: chunks r
  end.
Proof.
  unfold chunks at 1. cbn [chunks_from List.length]. destruct (rune_len (c :: r)) as [n|] eqn:E; [|done].
  pose proof (rune_len_bounds _ _ E) as [Hb Hl]. f_equal. apply chunks_from_enough. rewrite length_drop. simpl in *. lia.
Qed.

(** Induction along the decomposition. *)
Lemma chunks_ind (P : bytes -> Prop) :
  P [] ->
  (forall c r n, rune_len (c :: r) = Some n -> P (drop n (c :: r)) -> P (c :: r)) ->
  (forall c r, rune_len (c :: r) = None -> P r -> P (c :: r)) ->
  forall s, P s.
Proof.
  intros H0 H1 H2. enough (H : forall k s, (List.length s <= k)%nat -> P s) by (intros s; by apply (H (List.length s))).
  induction k as [|k IH]; intros [|c r] Hk; simpl in Hk; try done; try lia.
  destruct (rune_len (c :: r)) as [n|] eqn:E.
  - pose proof (rune_len_bounds _ _ E) as [Hb Hl]. eapply H1; [done|]. apply IH. rewrite length_drop. simpl. lia.
  - apply H2; [done|]. apply IH. lia.
Qed.

(** The chunks are the string. *)
Lemma chunks_concat s : mjoin (map fst (chunks s)) = s.
Proof.
  induction s as [|c r n E IH|c r E IH] using chunks_ind; [done| |]; rewrite chunks_cons, E; cbn [map fst mjoin list_join].
  - setoid_rewrite IH. apply take_drop.
  - setoid_rewrite IH. done.
Qed.

Lemma ValidString_cons c r : ValidString (c :: r) =
  match rune_len (c :: r) with Some n => ValidString (drop n (c :: r)) | None => false end.
Proof. unfold ValidString. rewrite chunks_cons. destruct (rune_len (c :: r)); done. Qed.

(** Decoding a valid prefix first. *)
Lemma chunks_app s t : ValidString s = true -> chunks (s ++ t) = chunks s ++ chunks t.
Proof.
  induction s as [|c r n E IH|c r E IH] using chunks_ind; [done| |]; rewrite ValidString_cons, E; [|done].
  intros Hv. pose proof (rune_len_bounds _ _ E) as [_ Hl]. rewrite <- app_comm_cons, !chunks_cons, E.
  rewrite (app_comm_cons r t c), (rune_len_app _ t _ E).
  rewrite take_app_le, drop_app_le by lia. rewrite IH by done. done.
Qed.

Lemma ValidString_app s t : ValidString s = true -> ValidString (s ++ t) = ValidString t.
Proof. intros H. unfold ValidString. rewrite chunks_app by done. rewrite forallb_app. unfold ValidString in H. by rewrite H. Qed.

Lemma ValidString_app_true s t : ValidString s = true -> ValidString t = true -> ValidString (s ++ t) = true.
Proof. intros H1 H2. by rewrite ValidString_app. Qed.

Lemma ValidString_start c r : ValidString (c :: r) = true -> RuneStart c = true.
Proof. rewrite ValidString_cons. destruct (rune_len (c :: r)) eqn:E; [|done]. intros _. by apply rune_len_start in E. Qed.

(** Position [i] of [s] is not inside a character. *)
Definition boundary (s : bytes) (i : nat) : Prop := match drop i s with [] => True | c :: _ => RuneStart c = true end.

(** A valid string can be cut at every boundary, and only there. *)
Lemma ValidString_split s i : ValidString s = true -> boundary s i -> (i <= List.length s)%nat ->
  ValidString (take i s) = true /\ ValidString (drop i s) = true.
Proof.
  revert i. induction s as [|c r n E IH|c r E IH] using chunks_ind; intros i; [by rewrite take_nil, drop_nil| |];
    rewrite ValidString_cons, E; [|done].
  intros Hv Hb Hi. pose proof (rune_len_bounds _ _ E) as [H1 Hl]. destruct (Nat.eq_dec i 0%nat) as [->|Hne].
  - rewrite take_0, drop_0. split; [done|]. by rewrite ValidString_cons, E.
  - destruct (Nat.lt_ge_cases i n) as [Hlt|Hge].
    + exfalso. pose proof (rune_len_tail _ _ _ E) as Hc. unfold boundary in Hb.
      destruct i as [|i]; [done|]. simpl in Hb, Hi, Hl.
      destruct (drop i r) as [|x y] eqn:Ed; [apply (f_equal List.length) in Ed; rewrite length_drop in Ed; simpl in Ed; lia|].
      assert (Hx : r !! i = Some x) by (rewrite <- (Nat.add_0_r i), <- lookup_drop, Ed; done).
      rewrite Forall_elem in Hc. specialize (Hc x). unfold cont in Hc. rewrite Hb in Hc. simpl in Hc.
      assert (x ∈ take (n - 1) r); [|by apply Hc in H].
      apply list_elem_of_lookup. exists i. rewrite lookup_take_lt by lia. done.
    + specialize (IH (i - n)%nat Hv). unfold boundary in *. rewrite drop_drop in IH.
      replace (n + (i - n))%nat with i in IH by lia. rewrite length_drop in IH.
      destruct (IH Hb ltac:(lia)) as [IH1 IH2]. split; [|done].
      rewrite <- (take_drop n (take i (c :: r))). rewrite take_take, Nat.min_l by lia.
      rewrite ValidString_app.
      * replace (take i (c :: r)) with (take (n + (i - n)) (c :: r)) by (f_equal; lia).
        rewrite <- take_drop_commute. done.
      * destruct (take n (c :: r)) as [|c' r'] eqn:Et.
        { done. }
        rewrite ValidString_cons, <- Et, (rune_len_take _ _ E). rewrite drop_ge; [done|]. rewrite length_take. lia.
Qed.

(** ** [ToValidUTF8] *)

Lemma chunk_valid s r : (r, true) ∈ chunks s -> ValidString r = true /\ r <> [].
Proof.
  induction s as [|c t n E IH|c t E IH] using chunks_ind; [by intros ?%elem_of_nil| |]; rewrite chunks_cons, E;
    rewrite elem_of_cons; [|intros [[=]|]; auto].
  intros [[= ->]|]; [|auto]. pose proof (rune_len_bounds _ _ E) as [Hb Hl].
  split; [|destruct n; [lia|]; by simpl]. destruct (take n (c :: t)) as [|c' r'] eqn:Et; [done|].
  rewrite ValidString_cons, <- Et, (rune_len_take _ _ E). rewrite drop_ge; [done|]. rewrite length_take. lia.
Qed.

Lemma replace_invalid_valid rep b l : ValidString rep = true -> (forall r, (r, true) ∈ l -> ValidString r = true) ->
  ValidString (replace_invalid rep b l) = true.
Proof.
  intros Hr. revert b. induction l as [|[r [|]] l IH]; intros b Hl; simpl; [done| |].
  - rewrite ValidString_app by (apply Hl; left). apply IH. intros x Hx. apply Hl. by right.
  - rewrite ValidString_app by (by destruct b). apply IH. intros x Hx. apply Hl. by right.
Qed.

Lemma ToValidUTF8_valid s rep : ValidString rep = true -> ValidString (ToValidUTF8 s rep) = true.
Proof. intros H. apply replace_invalid_valid; [done|]. intros r Hr. by destruct (chunk_valid _ _ Hr). Qed.

(** Clean text is unchanged. *)
Lemma ToValidUTF8_id s rep : ValidString s = true -> ToValidUTF8 s rep = s.
Proof.
  unfold ToValidUTF8. intros Hv. rewrite <- (chunks_concat s) at 2. unfold ValidString in Hv. revert Hv.
  generalize false. induction (chunks s) as [|[r [|]] l IH]; intros b Hv; simpl in *; try done.
  f_equal. by apply IH.
Qed.

(** The bytes of the result come from the string and the replacement. *)
Lemma replace_invalid_bytes rep b l x : x ∈ replace_invalid rep b l -> x ∈ rep \/ exists r, (r, true) ∈ l /\ x ∈ r.
Proof.
  revert b. induction l as [|[r [|]] l IH]; intros b; simpl; [by intros ?%elem_of_nil| |]; rewrite elem_of_app; intros [H|H].
  - right. exists r. split; [left|done].
  - destruct (IH _ H) as [|(r' & Hr & Hx)]; [by left|right]. exists r'. split; [by right|done].
  - destruct b; [by apply elem_of_nil in H|by left].
  - destruct (IH _ H) as [|(r' & Hr & Hx)]; [by left|right]. exists r'. split; [by right|done].
Qed.

Lemma chunks_bytes s r b x : (r, b) ∈ chunks s -> x ∈ r -> x ∈ s.
Proof.
  intros Hr Hx. rewrite <- (chunks_concat s). induction (chunks s) as [|[r' b'] l IH]; [by apply elem_of_nil in Hr|].
  simpl. rewrite elem_of_app. apply elem_of_cons in Hr as [[= <- <-]|Hr]; auto.
Qed.

Lemma ToValidUTF8_bytes s rep x : x ∈ ToValidUTF8 s rep -> x ∈ rep \/ x ∈ s.
Proof. intros [H|(r & Hr & Hx)]%replace_invalid_bytes; [by left|right]. by eapply chunks_bytes. Qed.
