(* ===== verification/Domain.v ===== *)
(** * Domain types

    The records every component shares: [core.Event] ([internal/core]),
    [jobs.Job], [jobs.Run], [jobs.Streak] and [jobs.FailureDetail]
    ([internal/jobs]), [heartbeat.Heartbeat] and its pings
    ([internal/heartbeat]), the channels, rules and deliveries of
    [internal/notify], and the identity rows of [internal/auth].

    An event's payload and detail are JSON texts in the code. They are kept
    here as the values that were marshalled, with a constructor for a text
    that is not such a JSON object (a heartbeat's name, an event type). What
    [encoding/json] reads out of a plain text is the parameter [text_run_id]
    and [text_job_id] of the class [JSONText]. *)
From S2P Require Import Prelude GoTime.
From stdpp Require Export pretty.
From Stdlib Require Export SpecFloat.
Open Scope Z_scope.

(** ** Runs and jobs *)

Inductive RunStatus := StatusPending | StatusRunning | StatusSucceeded | StatusFailed | StatusTimedOut.

Inductive JobType := Shell | HTTP | TLS | Domain | Expiry | Drill | OtherType (s : string).

#[export] Instance RunStatus_eq_dec : EqDecision RunStatus.
Proof. solve_decision. Defined.
#[export] Instance JobType_eq_dec : EqDecision JobType.
Proof. solve_decision. Defined.

(** A run that has reached its outcome. *)
Definition terminal (s : RunStatus) : bool :=
  match s with StatusPending | StatusRunning => false | _ => true end.

Record Spec := {
  sp_warn_days : Z;
  sp_host : string; sp_port : Z; sp_server_name : string; sp_starttls : string;
  sp_insecure_skip_verify : bool; sp_ca_file : string; sp_renew_after_fraction : spec_float;
  sp_domain : string; sp_rdap_url : string;
  sp_expires_at : Time; sp_expiry_command : string;
  sp_restore : string; sp_checks : list string; sp_cleanup : string;
  sp_scratch_dir : string; sp_max_duration_seconds : Z;
}.

Definition sp_with_fraction (s : Spec) (f : spec_float) : Spec :=
  {| sp_warn_days := sp_warn_days s; sp_host := sp_host s; sp_port := sp_port s; sp_server_name := sp_server_name s; sp_starttls := sp_starttls s;
     sp_insecure_skip_verify := sp_insecure_skip_verify s; sp_ca_file := sp_ca_file s; sp_renew_after_fraction := f;
     sp_domain := sp_domain s; sp_rdap_url := sp_rdap_url s; sp_expires_at := sp_expires_at s; sp_expiry_command := sp_expiry_command s;
     sp_restore := sp_restore s; sp_checks := sp_checks s; sp_cleanup := sp_cleanup s; sp_scratch_dir := sp_scratch_dir s;
     sp_max_duration_seconds := sp_max_duration_seconds s |}.

Record Job := {
  j_id : Z; j_org : Z; j_name : string; j_type : JobType; j_command : string;
  j_http_url : string; j_http_method : string; j_http_body : string; j_cron : string;
  j_interval_seconds : Z; j_run_at : Time; j_timeout_seconds : Z; j_max_retries : Z;
  j_enabled : bool; j_env : gmap string string; j_spec : option Spec;
  j_next_run_at : Time; j_created_at : Time; j_updated_at : Time;
}.

Record Run := {
  r_id : Z; r_org : Z; r_job : Z; r_status : RunStatus; r_attempt : Z; r_exit_code : Z;
  r_output : bytes; r_claimed_by : string;
  r_started_at : Time; r_ended_at : Time; r_created_at : Time;
}.

Record Streak := { FailedRuns : Z; FailingSince : Time }.
Definition no_streak : Streak := {| FailedRuns := 0; FailingSince := zero_time |}.

Record FailureDetail := {
  fd_verdict : bytes; fd_output : bytes; fd_truncated : bool;
  fd_timeout_seconds : Z; fd_http_status : Z; fd_streak : Streak;
}.
Definition empty_failure : FailureDetail :=
  {| fd_verdict := []; fd_output := []; fd_truncated := false;
     fd_timeout_seconds := 0; fd_http_status := 0; fd_streak := no_streak |}.

(** ** Heartbeats *)

Inductive HbStatus := HbNew | HbUp | HbDown.
#[export] Instance HbStatus_eq_dec : EqDecision HbStatus.
Proof. solve_decision. Defined.

Record Heartbeat := {
  hb_id : Z; hb_org : Z; hb_name : string; hb_token : string;
  hb_last_seen_at : Time; hb_period_seconds : Z; hb_grace_seconds : Z;
  hb_status : HbStatus; hb_created_at : Time;
  hb_started_at : Time; hb_started_rid : string;
}.

Inductive PingKind := PingSuccess | PingStart | PingFail | PingLog | PingOther (s : string).
#[export] Instance PingKind_eq_dec : EqDecision PingKind.
Proof. solve_decision. Defined.

Record PingInput := { in_kind : PingKind; in_exit_status : option Z; in_rid : string; in_body : bytes }.

Record Ping := {
  p_id : Z; p_org : Z; p_heartbeat : Z; p_kind : PingKind; p_exit_status : option Z; p_rid : string;
  p_duration_ms : option Z; p_body : bytes; p_created_at : Time;
}.

Inductive MissReason := ReasonMissed | ReasonFailed | ReasonOverran.

Record MissDetail := {
  md_reason : MissReason; md_heartbeat_id : Z; md_exit_status : option Z; md_output : bytes;
  md_last_seen_at : Time; md_period_seconds : Z; md_started_at : Time; md_grace_seconds : Z;
}.

(** ** Events *)

Inductive Payload :=
| PlText (s : string)
| PlRun (run_id job_id : Z) (job_name : string) (status : RunStatus) (exit_code : Z)
| PlJob (job_id : Z) (job_name : string).

Inductive Detail :=
| DtNone
| DtText (s : string)
| DtHeartbeat (id : Z)
| DtMiss (d : MissDetail)
| DtFailure (d : FailureDetail)
| DtStreak (s : Streak).

Record Event := {
  ev_id : Z; ev_org : Z; ev_type : string; ev_source : string; ev_payload : Payload;
  ev_dedup_key : string; ev_created_at : Time; ev_detail : Detail;
}.

Definition EventRunStarted : string := "run.started".
Definition EventRunSucceeded : string := "run.succeeded".
Definition EventRunFailed : string := "run.failed".
Definition EventRunRecovered : string := "run.recovered".
Definition EventJobRemoved : string := "job.removed".
Definition EventMissed : string := "heartbeat.missed".
Definition EventRecovered : string := "heartbeat.recovered".
Definition EventRemoved : string := "heartbeat.removed".
Definition EventNotificationFailed : string := "notification.failed".

(** What [json.Unmarshal] finds under ["run_id"] and ["job_id"] in a text. *)
Class JSONText := { text_run_id : string -> Z; text_job_id : string -> Z }.

(** A world whose text payloads are not run payloads. *)
Definition plain_text : JSONText := {| text_run_id _ := 0; text_job_id _ := 0 |}.

Definition set_type_dedup (e : Event) (t k : string) : Event :=
  {| ev_id := 0; ev_org := ev_org e; ev_type := t; ev_source := ev_source e; ev_payload := ev_payload e;
     ev_dedup_key := k; ev_created_at := ev_created_at e; ev_detail := ev_detail e |}.

Definition with_detail (e : Event) (d : Detail) : Event :=
  {| ev_id := ev_id e; ev_org := ev_org e; ev_type := ev_type e; ev_source := ev_source e; ev_payload := ev_payload e;
     ev_dedup_key := ev_dedup_key e; ev_created_at := ev_created_at e; ev_detail := d |}.

Definition with_id (e : Event) (i : Z) : Event :=
  {| ev_id := i; ev_org := ev_org e; ev_type := ev_type e; ev_source := ev_source e; ev_payload := ev_payload e;
     ev_dedup_key := ev_dedup_key e; ev_created_at := ev_created_at e; ev_detail := ev_detail e |}.

Definition with_created (e : Event) (t : Time) : Event :=
  {| ev_id := ev_id e; ev_org := ev_org e; ev_type := ev_type e; ev_source := ev_source e; ev_payload := ev_payload e;
     ev_dedup_key := ev_dedup_key e; ev_created_at := t; ev_detail := ev_detail e |}.

(** An event as its emitter builds it, before it is recorded. *)
Definition new_event (org : Z) (typ src : string) (pl : Payload) (key : string) (d : Detail) : Event :=
  {| ev_id := 0; ev_org := org; ev_type := typ; ev_source := src; ev_payload := pl;
     ev_dedup_key := key; ev_created_at := zero_time; ev_detail := d |}.

(** [notify.EventJobID]. *)
Definition EventJobID `{JSONText} (e : Event) : Z :=
  match ev_payload e with
  | PlText s => if bool_decide (s = "") then 0 else text_job_id s
  | PlRun _ j _ _ _ => j
  | PlJob j _ => j
  end.

(** The ["run_id"] of a run event's payload, 0 when it has none. *)
Definition EventRunID `{JSONText} (e : Event) : Z :=
  match ev_payload e with
  | PlText s => text_run_id s
  | PlRun r _ _ _ _ => r
  | PlJob _ _ => 0
  end.

Definition run_dedup_key (run : Z) (typ : string) : string := "run:" +:+ pretty run +:+ ":" +:+ typ.

(** [jobs.RunEvent]. *)
Definition RunEvent (run : Run) (jobName typ : string) (status : RunStatus) (exitCode : Z) : Event :=
  new_event (r_org run) typ "jobs.runner" (PlRun (r_id run) (r_job run) jobName status exitCode)
    (run_dedup_key (r_id run) typ) DtNone.

(** [jobs.RecoveredEvent]. *)
Definition RunRecoveredEvent (succeeded : Event) (runID : Z) : Event :=
  set_type_dedup succeeded EventRunRecovered (run_dedup_key runID EventRunRecovered).

(** [jobs.RemovedEvent]. *)
Definition JobRemovedEvent (org id : Z) (name : string) : Event :=
  new_event org EventJobRemoved "jobs" (PlJob id name) ("job:" +:+ pretty id +:+ ":removed") DtNone.

(** [jobs.WithStreak]: the detail of a run.failed with the streak added. A
    text that is not a JSON object is returned as it is; a heartbeat's detail
    would decode with nothing but its output. *)
Definition WithStreak (d : Detail) (s : Streak) : Detail :=
  let add f := DtFailure {| fd_verdict := fd_verdict f; fd_output := fd_output f; fd_truncated := fd_truncated f;
     fd_timeout_seconds := fd_timeout_seconds f; fd_http_status := fd_http_status f; fd_streak := s |} in
  match d with
  | DtText _ => d
  | DtFailure f => add f
  | DtMiss m => add {| fd_verdict := []; fd_output := md_output m; fd_truncated := false;
                       fd_timeout_seconds := 0; fd_http_status := 0; fd_streak := no_streak |}
  | DtNone | DtHeartbeat _ | DtStreak _ => add empty_failure
  end.

(** [jobs.RecoveryDetail]. *)
Definition RecoveryDetail (s : Streak) : Detail := if FailedRuns s <=? 0 then DtNone else DtStreak s.

(** [jobs.HasSpec] and [jobs.givesVerdict]. *)
Definition HasSpec (t : JobType) : bool :=
  match t with TLS | Domain | Expiry | Drill => true | _ => false end.
Definition givesVerdict (t : JobType) : bool :=
  match t with TLS | Domain | Expiry | Drill => true | _ => false end.

(** [jobs.RollbackGuardCommand]. *)
Definition dquote : string := String "034" EmptyString.
Definition RollbackGuardCommand : string :=
  "echo " +:+ dquote +:+ "tend: this job needs tend v0.5 or later; it was not run" +:+ dquote +:+ " >&2; exit 2".

(** ** Notification types *)

Inductive ChannelType := Webhook | Slack | Discord | SMTP | Telegram | Ntfy | Pushover | OtherChannel (s : string).
#[export] Instance ChannelType_eq_dec : EqDecision ChannelType.
Proof. solve_decision. Defined.

Record Channel := { ch_id : Z; ch_org : Z; ch_name : string; ch_kind : ChannelType; ch_created_at : Time }.

Record Rule := {
  ru_id : Z; ru_org : Z; ru_channel : Z; ru_event_type : string; ru_enabled : bool; ru_job : Z;
  ru_repeat : option Duration; ru_created_at : Time;
}.

Inductive DeliveryState := DeliveryPending | DeliveryDelivered | DeliveryFailed.
#[export] Instance DeliveryState_eq_dec : EqDecision DeliveryState.
Proof. solve_decision. Defined.

Record Delivery := {
  d_id : Z; d_org : Z; d_event_id : Z; d_channel : Z; d_attempts : Z; d_state : DeliveryState;
  d_next_attempt_at : Time; d_created_at : Time; d_event : option Event;
}.

(** [notify.Alertable]. *)
Definition alertableTypes : list string :=
  [EventRunFailed; EventRunRecovered; EventMissed; EventRecovered; EventJobRemoved; EventRemoved;
   EventNotificationFailed].
Definition Alertable (t : string) : bool := bool_decide (t ∈ alertableTypes).

(** [notify.ValidChannelType]. *)
Definition channelTypes : list ChannelType := [Webhook; Slack; Discord; SMTP; Telegram; Ntfy; Pushover].
Definition ValidChannelType (t : ChannelType) : bool := bool_decide (t ∈ channelTypes).

(** ** Identity rows *)

Record User := { u_id : Z; u_org : Z; u_email : string; u_password_hash : string; u_created_at : Time }.
Record APIToken := { tk_id : Z; tk_org : Z; tk_name : string; tk_hash : string; tk_created_at : Time }.
Record Membership := { m_id : Z; m_org : Z; m_user : Z; m_role : string; m_created_at : Time }.
Record Org := { o_id : Z; o_name : string; o_created_at : Time }.
