(* ===== verification/Heartbeat.v ===== *)
(** * Heartbeats ([internal/heartbeat])

    The deadline of a dead-man's switch ([heartbeat.go]), the ping kinds and
    the run id form ([ping.go]), and the lifecycle events and their details
    ([detail.go]). *)
From S2P Require Import Prelude GoTime Domain Tail.
Open Scope Z_scope.

(** ** [heartbeat.go] *)

(** [Heartbeat.RunGrace]. *)
Definition RunGrace (h : Heartbeat) : Duration :=
  if 0 <? hb_grace_seconds h then secs (hb_grace_seconds h) else secs (hb_period_seconds h).

(** [Heartbeat.Deadline]: the deadline, whether it is a started run's, and
    whether the heartbeat is watched at all. *)
Definition Deadline (h : Heartbeat) : Time * bool * bool :=
  if (hb_period_seconds h <=? 0) || bool_decide (hb_status h = HbDown) then (zero_time, false, false)
  else
    let anchor := if bool_decide (hb_status h = HbNew) then hb_created_at h else hb_last_seen_at h in
    if IsZero anchor then (zero_time, false, false)
    else
      let grace := secs (hb_grace_seconds h) in
      let deadline := TimeAdd anchor (wrap64 (secs (hb_period_seconds h) + grace)) in
      if negb (IsZero (hb_started_at h)) then
        let run := TimeAdd (hb_started_at h) (RunGrace h) in
        if Before run deadline then (run, true, true) else (deadline, false, true)
      else (deadline, false, true).

Definition heartbeat_source : string := "heartbeat".

(** [MissedEvent], [RecoveredEvent] and [RemovedEvent]. *)
Definition MissedEvent (org : Z) (name : string) : Event :=
  new_event org EventMissed heartbeat_source (PlText name) "" DtNone.
Definition RecoveredEvent (org id : Z) (name : string) : Event :=
  new_event org EventRecovered heartbeat_source (PlText name) "" (if 0 <? id then DtHeartbeat id else DtNone).
Definition RemovedEvent (org : Z) (name : string) : Event :=
  new_event org EventRemoved heartbeat_source (PlText name) "" DtNone.

(** ** [ping.go] *)

Definition ValidPingKind (k : PingKind) : bool :=
  match k with PingSuccess | PingStart | PingFail | PingLog => true | PingOther _ => false end.

Definition MaxRunDuration : Duration := 72 * Hour.

Definition is_hex (c : ascii) : bool :=
  let n := byte_val c in
  ((48 <=? n) && (n <=? 57)) || ((97 <=? n) && (n <=? 102)) || ((65 <=? n) && (n <=? 70)).

(** [strings.ToLower] on an ASCII letter. *)
Definition to_lower (c : ascii) : ascii :=
  let n := byte_val c in
  if (65 <=? n) && (n <=? 90) then ascii_of_N (Z.to_N (n + 32)) else c.

(** The loop of [CanonicalUUID] over the bytes from index [i] on. *)
Fixpoint uuid_bytes_ok (i : nat) (s : bytes) : bool :=
  match s with
  | [] => true
  | c :: r =>
      (if bool_decide (i ∈ [8; 13; 18; 23]%nat) then Ascii.eqb c "-" else is_hex c) && uuid_bytes_ok (S i) r
  end.

Definition CanonicalUUID (s : bytes) : option bytes :=
  if negb (List.length s =? 36)%nat then None
  else if uuid_bytes_ok 0 s then Some (map to_lower s) else None.

(** ** [detail.go] *)

Definition plain_miss (r : MissReason) (id : Z) : MissDetail :=
  {| md_reason := r; md_heartbeat_id := id; md_exit_status := None; md_output := [];
     md_last_seen_at := zero_time; md_period_seconds := 0; md_started_at := zero_time; md_grace_seconds := 0 |}.

(** [FailedEvent]. *)
Definition FailedEvent (org id : Z) (name : string) (exitStatus : option Z) (body : bytes) : Event :=
  with_detail (MissedEvent org name)
    (DtMiss {| md_reason := ReasonFailed; md_heartbeat_id := id; md_exit_status := exitStatus;
               md_output := TailLines body MaxOutputTailLines;
               md_last_seen_at := zero_time; md_period_seconds := 0; md_started_at := zero_time;
               md_grace_seconds := 0 |}).

(** [OverdueEvent]. *)
Definition OverdueEvent (h : Heartbeat) : Event :=
  with_detail (MissedEvent (hb_org h) (hb_name h))
    (DtMiss {| md_reason := ReasonMissed; md_heartbeat_id := hb_id h; md_exit_status := None; md_output := [];
               md_last_seen_at := hb_last_seen_at h; md_period_seconds := hb_period_seconds h;
               md_started_at := zero_time; md_grace_seconds := hb_grace_seconds h |}).

(** [OverranEvent]. *)
Definition OverranEvent (h : Heartbeat) : Event :=
  with_detail (MissedEvent (hb_org h) (hb_name h))
    (DtMiss {| md_reason := ReasonOverran; md_heartbeat_id := hb_id h; md_exit_status := None; md_output := [];
               md_last_seen_at := zero_time; md_period_seconds := 0;
               md_started_at := hb_started_at h; md_grace_seconds := Z.quot (RunGrace h) Second |}).

(** [IDOf]. *)
Definition IDOf (d : Detail) : Z :=
  match d with DtHeartbeat id => id | DtMiss m => md_heartbeat_id m | _ => 0 end.

(** [ParseMissDetail]: only a detail with a reason is one. *)
Definition ParseMissDetail (d : Detail) : option MissDetail :=
  match d with DtMiss m => Some m | _ => None end.

(** ** The deadline, without machine arithmetic *)

(** The settings for which the 64-bit arithmetic of [Deadline] is exact. *)
Definition small_settings (h : Heartbeat) : Prop :=
  0 <= hb_grace_seconds h /\ hb_period_seconds h + hb_grace_seconds h <= max_secs.

Definition watched (h : Heartbeat) : Prop :=
  0 < hb_period_seconds h /\
  match hb_status h with
  | HbDown => False
  | HbUp => hb_last_seen_at h <> zero_time
  | HbNew => hb_created_at h <> zero_time
  end.

Definition anchor_of (h : Heartbeat) : Time :=
  match hb_status h with HbNew => hb_created_at h | _ => hb_last_seen_at h end.

Definition regular_deadline (h : Heartbeat) : Time :=
  anchor_of h + (hb_period_seconds h + hb_grace_seconds h) * Second.

Definition run_deadline (h : Heartbeat) : Time :=
  hb_started_at h + (if 0 <? hb_grace_seconds h then hb_grace_seconds h else hb_period_seconds h) * Second.

#[export] Instance watched_dec h : Decision (watched h).
Proof. unfold watched. destruct (hb_status h); apply _. Defined.

Lemma max_secs_val : max_secs = 9223372036.
Proof. reflexivity. Qed.

Lemma RunGrace_exact h : small_settings h -> 0 < hb_period_seconds h ->
  RunGrace h = (if 0 <? hb_grace_seconds h then hb_grace_seconds h else hb_period_seconds h) * Second.
Proof.
  unfold small_settings, RunGrace. intros [] Hp. split_ifs; rewrite secs_small; lia.
Qed.

Lemma deadline_sum h : small_settings h -> 0 < hb_period_seconds h ->
  wrap64 (secs (hb_period_seconds h) + secs (hb_grace_seconds h))
  = (hb_period_seconds h + hb_grace_seconds h) * Second.
Proof.
  intros [H1 H2] Hp. rewrite !secs_small by lia. rewrite max_secs_val in H2.
  rewrite wrap64_id; [lia|]. unfold int64_range, min_int64, max_int64, Second. lia.
Qed.

(** for every watched heartbeat whose period and grace fit a [Duration],
    the deadline is the earlier of period + grace after the anchor (the last
    ping, or the creation of one never pinged) and, when a run was started,
    the run's grace after its start; the run is reported as overrunning
    exactly when its own deadline is strictly the earlier. *)
Theorem Deadline_spec (h : Heartbeat) : small_settings h -> watched h ->
  Deadline h =
    (if bool_decide (hb_started_at h <> zero_time /\ run_deadline h < regular_deadline h)
     then (run_deadline h, true, true) else (regular_deadline h, false, true)).
Proof.
  intros Hs [Hp Hw]. unfold Deadline, TimeAdd, Before, regular_deadline, run_deadline, anchor_of, IsZero, zero_time in *.
  rewrite deadline_sum, RunGrace_exact by done.
  destruct (Z.leb_spec (hb_period_seconds h) 0); [lia|].
  destruct (hb_status h) eqn:E; try done; simpl;
    (rewrite (proj2 (Z.eqb_neq _ 0) Hw));
    (destruct (Z.eqb_spec (hb_started_at h) 0) as [Hz|Hz]; simpl;
      [rewrite bool_decide_eq_false_2 by tauto; done|]);
    (match goal with |- context [?a <? ?b] => destruct (Z.ltb_spec a b) end;
      [rewrite bool_decide_eq_true_2 by done; done|rewrite bool_decide_eq_false_2 by lia; done]).
Qed.

Definition daily : Heartbeat :=
  {| hb_id := 1; hb_org := 1; hb_name := "backup"; hb_token := "t"; hb_last_seen_at := 1000 * Hour;
     hb_period_seconds := 86400; hb_grace_seconds := 600; hb_status := HbUp; hb_created_at := Hour;
     hb_started_at := 1001 * Hour; hb_started_rid := "" |}.

Lemma Deadline_spec_witness : small_settings daily /\ watched daily /\
  Deadline daily = (1001 * Hour + 10 * Minute, true, true).
Proof.
  assert (Hs : small_settings daily) by (split; vm_compute; congruence).
  assert (Hw : watched daily) by (split; vm_compute; [reflexivity|discriminate]).
  split; [exact Hs|split; [exact Hw|]]. rewrite (Deadline_spec daily Hs Hw). vm_compute. reflexivity.
Defined.

(** a period that does not fit a [Duration] wraps: the deadline of a
    heartbeat that has just pinged then lies in its past, so the watcher
    declares it missed at once. Nothing refuses such a period. *)
Theorem Deadline_wraps (h : Heartbeat) :
  hb_status h = HbUp -> hb_last_seen_at h <> zero_time -> hb_started_at h = zero_time -> hb_grace_seconds h = 0 ->
  max_secs < hb_period_seconds h <= 2 * max_secs ->
  fst (fst (Deadline h)) < hb_last_seen_at h.
Proof.
  intros Hu Hl Hs Hg [Hp Hp2]. rewrite max_secs_val in Hp, Hp2. unfold Deadline, TimeAdd, IsZero, zero_time in *.
  destruct (Z.leb_spec (hb_period_seconds h) 0); [lia|]. rewrite Hu. simpl.
  rewrite (proj2 (Z.eqb_neq _ 0) Hl), Hs, Hg. simpl. rewrite secs_0, Z.add_0_r, (wrap64_id (secs _)) by apply secs_range.
  unfold secs, wrap64, Second.
  rewrite <- (Z.mod_unique (hb_period_seconds h * 1000000000 + 2 ^ 63) (2 ^ 64) 1
    (hb_period_seconds h * 1000000000 + 2 ^ 63 - 2 ^ 64)); lia.
Qed.

Definition thrice_a_millennium : Heartbeat :=
  {| hb_id := 1; hb_org := 1; hb_name := "rarely"; hb_token := "t"; hb_last_seen_at := 1000 * Hour;
     hb_period_seconds := 10000000000; hb_grace_seconds := 0; hb_status := HbUp; hb_created_at := Hour;
     hb_started_at := zero_time; hb_started_rid := "" |}.

Lemma Deadline_wraps_witness : fst (fst (Deadline thrice_a_millennium)) < 1000 * Hour.
Proof.
  apply (Deadline_wraps thrice_a_millennium); try reflexivity; vm_compute; [discriminate|].
  split; [reflexivity|discriminate].
Defined.

(** a heartbeat is watched exactly when it has a period, is not down and
    has an anchor to count from. *)
Theorem Deadline_watched (h : Heartbeat) : snd (Deadline h) = true <-> watched h.
Proof.
  unfold Deadline, watched, IsZero, zero_time.
  destruct (Z.leb_spec (hb_period_seconds h) 0); simpl; [split; [done|lia]|].
  destruct (hb_status h); simpl; try (split; [done|tauto]);
    (match goal with |- context [?a =? 0] => destruct (Z.eqb_spec a 0) as [->|]; simpl; [split; [done|tauto]|] end);
    (split; [by split|]); intros _; split_ifs; done.
Qed.

(** A start never moves a deadline later. *)
Lemma Deadline_start_earlier h t rid : small_settings h -> watched h -> hb_started_at h = zero_time ->
  let h' := {| hb_id := hb_id h; hb_org := hb_org h; hb_name := hb_name h; hb_token := hb_token h;
               hb_last_seen_at := hb_last_seen_at h; hb_period_seconds := hb_period_seconds h;
               hb_grace_seconds := hb_grace_seconds h; hb_status := hb_status h; hb_created_at := hb_created_at h;
               hb_started_at := t; hb_started_rid := rid |} in
  fst (fst (Deadline h')) <= fst (fst (Deadline h)).
Proof.
  intros Hs Hw Hz h'. rewrite (Deadline_spec h), (Deadline_spec h') by done.
  rewrite (bool_decide_eq_false_2 (hb_started_at h <> zero_time /\ _)) by tauto. simpl.
  case_bool_decide as Hb; simpl; [|unfold regular_deadline, anchor_of; simpl; lia].
  destruct Hb as [_ Hb]. change (regular_deadline h') with (regular_deadline h) in Hb. lia.
Qed.

(** ** Run ids *)

Lemma to_lower_idem c : to_lower (to_lower c) = to_lower c.
Proof. destruct c as [[] [] [] [] [] [] [] []]; reflexivity. Qed.

Lemma to_lower_hex c : is_hex (to_lower c) = is_hex c.
Proof. destruct c as [[] [] [] [] [] [] [] []]; reflexivity. Qed.

Lemma to_lower_dash c : Ascii.eqb (to_lower c) "-" = Ascii.eqb c "-".
Proof. destruct c as [[] [] [] [] [] [] [] []]; reflexivity. Qed.

Lemma uuid_bytes_ok_lower i s : uuid_bytes_ok i (map to_lower s) = uuid_bytes_ok i s.
Proof.
  revert i. induction s as [|c s IH]; intros i; simpl; [done|].
  rewrite IH, to_lower_hex, to_lower_dash. done.
Qed.

(** the canonical form of a run id is a fixed point: it is accepted again
    and returned unchanged, so a start and a completion that spell the same
    UUID in different cases are the same run. *)
Theorem CanonicalUUID_idempotent (s u : bytes) : CanonicalUUID s = Some u -> CanonicalUUID u = Some u.
Proof.
  unfold CanonicalUUID. destruct (negb _) eqn:El; [done|]. destruct (uuid_bytes_ok 0 s) eqn:Eo; [|done].
  intros [= <-]. rewrite length_map, El, uuid_bytes_ok_lower, Eo. f_equal.
  rewrite map_map. apply map_ext. apply to_lower_idem.
Qed.

Definition mixed_case : bytes := bstr "3F2504E0-4f89-11d3-9A0C-0305E82C3301".

Lemma CanonicalUUID_idempotent_witness :
  CanonicalUUID mixed_case = Some (map to_lower mixed_case) /\
  CanonicalUUID (map to_lower mixed_case) = Some (map to_lower mixed_case).
Proof.
  assert (H : CanonicalUUID mixed_case = Some (map to_lower mixed_case)) by (vm_compute; reflexivity).
  split; [exact H|]. exact (CanonicalUUID_idempotent _ _ H).
Defined.
