(* ===== verification/Pacing.v ===== *)
(** * The pacing of failure alerts ([internal/notify/pacing.go])

    The decisions first, as the code writes them; then the conversation one
    channel has about one job, as a trace of failures, releases and
    recoveries, and what the pacing promises of every such trace. *)
From S2P Require Import Prelude GoTime Domain.
Open Scope Z_scope.

Definition DefaultRepeat : Duration := Hour.
Definition MinRepeat : Duration := Minute.
Definition MaxRepeat : Duration := 7 * 24 * Hour.

(** [EffectiveRepeat]. *)
Definition EffectiveRepeat (kind : ChannelType) (repeat : option Duration) : Duration :=
  match repeat with
  | Some r => r
  | None => if bool_decide (kind = Webhook) then 0 else DefaultRepeat
  end.

Record AlertState := { LastSentAt : Time; Held : bool }.
Definition no_alert : AlertState := {| LastSentAt := zero_time; Held := false |}.

(** [AlertState.Told]. *)
Definition Told (s : AlertState) (since : Time) : bool :=
  negb (IsZero (LastSentAt s)) && negb (Before (LastSentAt s) since).

Definition flapHold (repeat : Duration) : Duration := Z.min repeat DefaultRepeat.

Definition slack (repeat : Duration) : Duration := Z.min (Z.quot repeat 10) Minute.

Definition reached (at_ mark : Time) (repeat : Duration) : bool :=
  negb (Before at_ (TimeAdd mark (- slack repeat))).

(** [PaceFailure]. *)
Definition PaceFailure (st : AlertState) (known : bool) (at_ since : Time) (repeat : Duration) : bool * AlertState :=
  let told := known && Told st since in
  let sent := (true, {| LastSentAt := at_; Held := false |}) in
  if repeat <=? 0 then sent
  else if told then
    if negb (reached at_ (TimeAdd (LastSentAt st) repeat) repeat)
    then (false, {| LastSentAt := LastSentAt st; Held := false |})
    else sent
  else if known && negb (reached at_ (TimeAdd (LastSentAt st) (flapHold repeat)) (flapHold repeat))
  then (false, {| LastSentAt := LastSentAt st; Held := true |})
  else sent.

(** [PaceRecovery]. *)
Definition PaceRecovery (st : AlertState) (known : bool) (since : Time) : bool :=
  negb known || IsZero since || Told st since.

(** [ReleaseDue]. *)
Definition ReleaseDue (st : AlertState) (now : Time) (repeat : Duration) : bool :=
  let hold := flapHold repeat in
  Held st && ((repeat <=? 0) || reached now (TimeAdd (LastSentAt st) hold) hold).

(** [Released]. *)
Definition Released (now : Time) : AlertState := {| LastSentAt := now; Held := false |}.

(** ** One channel and one job *)

(** What happens to the job, as the channel's alert state sees it: a
    [run.failed] is recorded, the delivery worker's poll looks for a held
    failure to release, a success ends the streak. *)
Inductive PStep := PFail (at_ : Time) | PRelease (now : Time) | PSuccess (at_ : Time).

Definition step_time (s : PStep) : Time := match s with PFail t | PRelease t | PSuccess t => t end.

Inductive PSent := SentFailure (at_ : Time) | SentRecovery.

(** The channel's alert state ([None]: no row yet) and the start of the job's
    streak ([None]: not failing). *)
Record PState := { ps_alert : option AlertState; ps_since : option Time }.
Definition ps_init : PState := {| ps_alert := None; ps_since := None |}.

Section Trace.
Variable repeat : Duration.

(** The store's composition of the decisions ([paced], [releaseOne],
    [endStreak]) for a job whose failures are routed to the channel. *)
Definition pstep (s : PState) (e : PStep) : PState * list PSent :=
  let st := default no_alert (ps_alert s) in
  let known := bool_decide (is_Some (ps_alert s)) in
  match e with
  | PFail at_ =>
      let since := default at_ (ps_since s) in
      let '(send, next) := PaceFailure st known at_ since repeat in
      ({| ps_alert := Some next; ps_since := Some since |}, if send then [SentFailure at_] else [])
  | PRelease now =>
      if known && bool_decide (is_Some (ps_since s)) && ReleaseDue st now repeat
      then ({| ps_alert := Some (Released now); ps_since := ps_since s |}, [SentFailure now])
      else (s, [])
  | PSuccess _ =>
      match ps_since s with
      | None => (s, [])
      | Some since =>
          ({| ps_alert := (fun a => {| LastSentAt := LastSentAt a; Held := false |}) <$> ps_alert s; ps_since := None |},
           if PaceRecovery st known since then [SentRecovery] else [])
      end
  end.

Fixpoint ptrace (s : PState) (tr : list PStep) : list (PStep * list PSent) :=
  match tr with
  | [] => []
  | e :: r => let '(s', o) := pstep s e in (e, o) :: ptrace s' r
  end.

Definition prun (s : PState) (tr : list PStep) : PState := fold_left (fun s e => fst (pstep s e)) tr s.

(** The steps happen at strictly increasing times after [t]. *)
Fixpoint increasing (t : Time) (tr : list PStep) : Prop :=
  match tr with
  | [] => True
  | e :: r => t < step_time e /\ increasing (step_time e) r
  end.

Definition is_failure (o : PSent) : bool := match o with SentFailure _ => true | SentRecovery => false end.
Definition is_recovery (o : PSent) : bool := negb (is_failure o).

(** Every success sends a recovery exactly when the channel was sent a
    failure since the last success. *)
Fixpoint recoveries_match (told : bool) (l : list (PStep * list PSent)) : Prop :=
  match l with
  | [] => True
  | (PSuccess _, o) :: r => existsb is_recovery o = told /\ recoveries_match false r
  | (_, o) :: r => recoveries_match (told || existsb is_failure o) r
  end.

(** Whether the channel was sent a failure since the last success. *)
Fixpoint told_after (told : bool) (l : list (PStep * list PSent)) : bool :=
  match l with
  | [] => told
  | (PSuccess _, _) :: r => told_after false r
  | (_, o) :: r => told_after (told || existsb is_failure o) r
  end.

(** The times of the failures sent. *)
Definition failure_times (l : list (PStep * list PSent)) : list Time :=
  omap (fun o => match o with SentFailure t => Some t | SentRecovery => None end) (concat (map snd l)).

(** Each element is at least [d] after the one before it ([last] before the first). *)
Fixpoint spaced (d : Duration) (last : option Time) (ts : list Time) : Prop :=
  match ts with
  | [] => True
  | t :: r => match last with None => True | Some u => u + d <= t end /\ spaced d (Some t) r
  end.

(** What holds of the state at time [t], with [told]: the channel was sent a
    failure of the current streak. *)
Definition pinv (t : Time) (told : bool) (s : PState) : Prop :=
  0 <= t /\
  match ps_alert s with
  | None => ps_since s = None /\ told = false
  | Some a => 0 < LastSentAt a <= t /\
      match ps_since s with
      | None => told = false /\ Held a = false
      | Some since => 0 < since <= t /\ Told a since = told /\ Held a = negb told
      end
  end.

End Trace.

(** ** Properties of the decisions *)

Lemma slack_bounds r : 0 <= r -> 0 <= slack r <= Z.quot r 10 /\ slack r <= Minute.
Proof. intros. unfold slack, Minute, Second. assert (0 <= Z.quot r 10) by (apply Z.quot_pos; lia). lia. Qed.

Lemma slack_lt r : 0 < r -> slack r < r.
Proof.
  intros. destruct (slack_bounds r ltac:(lia)) as [[? H1] ?].
  assert (Z.quot r 10 < r) by (apply Z.quot_lt; lia). lia.
Qed.

Lemma flapHold_pos r : 0 < r -> 0 < flapHold r <= r.
Proof. unfold flapHold, DefaultRepeat, Hour, Minute, Second. lia. Qed.

Lemma slack_mono a b : 0 <= a <= b -> b - slack b >= a - slack a.
Proof.
  intros. unfold slack, Minute, Second. rewrite !Z.quot_div_nonneg by lia.
  pose proof (Z.div_mod a 10 ltac:(lia)). pose proof (Z.mod_pos_bound a 10 ltac:(lia)).
  pose proof (Z.div_mod b 10 ltac:(lia)). pose proof (Z.mod_pos_bound b 10 ltac:(lia)). lia.
Qed.

(** The smallest gap between two alerts of one job on a channel. *)
Definition min_gap (repeat : Duration) : Duration := flapHold repeat - slack (flapHold repeat).

Lemma min_gap_pos r : 0 < r -> 0 < min_gap r.
Proof. intros. unfold min_gap. pose proof (slack_lt (flapHold r)). pose proof (flapHold_pos r). lia. Qed.

Lemma reached_spec at_ mark r : reached at_ mark r = true <-> mark - slack r <= at_.
Proof. unfold reached, Before, TimeAdd. rewrite negb_true_iff, Z.ltb_ge. lia. Qed.

Lemma Told_spec s since : 0 < LastSentAt s -> (Told s since = true <-> since <= LastSentAt s).
Proof.
  intros. unfold Told, IsZero, Before. rewrite andb_true_iff, !negb_true_iff, Z.eqb_neq, Z.ltb_ge. lia.
Qed.

(** a reminder (an alert about a streak the channel was already told of)
    never comes sooner than the interval, less the slack, after the last
    alert, and any failure an interval or more after it is one. *)
Theorem PaceFailure_reminder (st : AlertState) (at_ since : Time) (repeat : Duration) :
  0 < repeat -> Told st since = true ->
  fst (PaceFailure st true at_ since repeat) = true <-> LastSentAt st + repeat - slack repeat <= at_.
Proof.
  intros Hr Ht. unfold PaceFailure. destruct (Z.leb_spec repeat 0); [lia|]. rewrite Ht. simpl.
  unfold TimeAdd. rewrite <- (reached_spec at_ (LastSentAt st + repeat) repeat).
  destruct (reached _ _ _); simpl; split; congruence.
Qed.

Lemma PaceFailure_reminder_witness :
  fst (PaceFailure {| LastSentAt := 100 * Hour; Held := false |} true (101 * Hour - Minute) (99 * Hour) Hour) = true.
Proof. apply PaceFailure_reminder; [reflexivity | reflexivity | vm_compute; discriminate]. Defined.

(** Closes [pinv] goals left by symbolic execution of a step. *)
Ltac pinv_solve :=
  unfold pinv; simpl; rewrite ?orb_true_r, ?orb_false_r; repeat split;
  first [lia | done | eassumption | apply Told_spec; simpl; lia].

(** One step: the ghost [told] follows what was sent, and recoveries go where
    a failure went. *)
Lemma pstep_inv repeat t told s e : pinv t told s -> t < step_time e ->
  let '(s', o) := pstep repeat s e in
  match e with
  | PSuccess _ => existsb is_recovery o = told /\ existsb is_failure o = false /\ pinv (step_time e) false s'
  | _ => existsb is_recovery o = false /\ pinv (step_time e) (told || existsb is_failure o) s'
  end.
Proof.
  intros (Ht & Hs) He. destruct s as [[a|] since]; simpl in Hs; unfold pstep; simpl.
  - destruct Hs as [Ha Hs]. destruct e as [t'|t'|t']; simpl in *.
    + assert (Hsince : 0 < default t' since <= t') by (destruct since; simpl; lia).
      assert (Htold : Told a (default t' since) = told).
      { destruct since as [since|]; simpl; [by destruct Hs as (_ & -> & _)|]. destruct Hs as [-> _].
        apply not_true_is_false. rewrite Told_spec by lia. lia. }
      unfold PaceFailure. rewrite Htold. simpl.
      destruct (repeat <=? 0); simpl; [pinv_solve|].
      destruct told; simpl; destruct (reached _ _ _); simpl; pinv_solve.
    + destruct since as [since|]; simpl.
      * destruct Hs as (Hsi & Htold & Hheld). destruct (ReleaseDue a t' repeat) eqn:Hrel; simpl; pinv_solve.
      * destruct Hs. pinv_solve.
    + destruct since as [since|]; simpl.
      * destruct Hs as (Hsi & Htold & Hheld). unfold PaceRecovery, IsZero. simpl.
        rewrite (proj2 (Z.eqb_neq since 0)) by lia. simpl. rewrite Htold.
        destruct told; simpl; pinv_solve.
      * destruct Hs as [-> Hh]. simpl. pinv_solve.
  - destruct Hs as [-> ->]. destruct e as [t'|t'|t']; simpl in *.
    + unfold PaceFailure. simpl. destruct (repeat <=? 0); simpl; pinv_solve.
    + pinv_solve.
    + pinv_solve.
Qed.

Lemma recoveries_from repeat t told s tr : pinv t told s -> increasing t tr -> recoveries_match told (ptrace repeat s tr).
Proof.
  revert t told s. induction tr as [|e r IH]; intros t told s Hi Hinc; simpl; [done|]. destruct Hinc as [He Hr].
  pose proof (pstep_inv repeat t told s e Hi He) as Hstep. destruct (pstep repeat s e) as [s' o]. simpl.
  destruct e; destruct Hstep as [Hrec Hstep]; [| |destruct Hstep as [_ Hstep]; split; [done|]]; by eapply IH.
Qed.

(** however a job fails and recovers, a channel is sent the recovery that
    ends a streak exactly when it was sent one of the streak's failures. *)
Theorem pacing_recoveries (repeat : Duration) (tr : list PStep) :
  increasing 0 tr -> recoveries_match false (ptrace repeat ps_init tr).
Proof. intros Hinc. apply (recoveries_from repeat 0); [by repeat split|done]. Qed.

(** What one step sends. *)
Lemma pstep_sent repeat s e : let o := map is_failure (snd (pstep repeat s e)) in
  match e with PSuccess _ => o = [] \/ o = [false] | _ => o = [] \/ o = [true] end.
Proof.
  destruct s as [a since], e as [t|t|t]; unfold pstep; simpl.
  - destruct (PaceFailure _ _ _ _ _) as [[|] next]; simpl; auto.
  - destruct (_ && _); simpl; auto.
  - destruct since; simpl; [|by left]. destruct (PaceRecovery _ _ _); simpl; auto.
Qed.

(** A recovery comes only after a failure, and never twice in a row;
    [told]: a failure was sent before, and no recovery since. *)
Fixpoint recovers_told (told : bool) (l : list bool) : Prop :=
  match l with
  | [] => True
  | true :: r => recovers_told true r
  | false :: r => told = true /\ recovers_told false r
  end.

(** The alerts of a trace, failures and recoveries. *)
Definition sent (repeat : Duration) (s : PState) (tr : list PStep) : list bool :=
  concat (map (fun x => map is_failure (snd x)) (ptrace repeat s tr)).

Lemma sent_cons repeat s e tr : sent repeat s (e :: tr) = map is_failure (snd (pstep repeat s e)) ++ sent repeat (fst (pstep repeat s e)) tr.
Proof. unfold sent. simpl. by destruct (pstep repeat s e). Qed.

Lemma existsb_sent (f : bool -> bool) o : existsb (fun x => f (is_failure x)) o = existsb f (map is_failure o).
Proof. induction o as [|x o IH]; simpl; congruence. Qed.

Lemma sent_recovers repeat t told s tr : pinv t told s -> increasing t tr -> recovers_told told (sent repeat s tr).
Proof.
  revert t told s. induction tr as [|e r IH]; intros t told s Hi Hinc; [done|]. destruct Hinc as [He Hr]. rewrite sent_cons.
  pose proof (pstep_inv repeat t told s e Hi He) as Hstep. pose proof (pstep_sent repeat s e) as Ho.
  destruct (pstep repeat s e) as [s' o]. cbn [fst snd] in *. unfold is_recovery in Hstep.
  rewrite (existsb_sent negb), (existsb_sent (fun b => b)) in Hstep. set (k := map is_failure o) in *.
  destruct e; destruct Ho as [Ho|Ho]; rewrite Ho in *; simpl in Hstep |- *.
  1-4: destruct Hstep as [_ Hstep]; rewrite ?orb_false_r, ?orb_true_r in Hstep; by eapply IH.
  - destruct Hstep as (<- & _ & Hstep). by eapply IH.
  - destruct Hstep as (<- & _ & Hstep). split; [done|]. by eapply IH.
Qed.

Lemma pstep_gap repeat t told s e : 0 < repeat -> pinv t told s -> t < step_time e ->
  let '(s', o) := pstep repeat s e in
  exists ts, failure_times [(e, o)] = ts /\ spaced (min_gap repeat) (LastSentAt <$> ps_alert s) ts /\
    LastSentAt <$> ps_alert s' = match ts with [] => LastSentAt <$> ps_alert s | u :: _ => Some u end /\
    (List.length ts <= 1)%nat.
Proof.
  intros Hr (Ht & Hs) He.
  pose proof (slack_mono (flapHold repeat) repeat) as Hmono. pose proof (flapHold_pos repeat Hr).
  destruct s as [[a|] since]; simpl in Hs.
  - destruct Hs as [Ha Hs]. destruct e as [t'|t'|t']; unfold pstep; simpl.
    + unfold PaceFailure. destruct (Z.leb_spec repeat 0); [lia|]. simpl.
      destruct (Told a _) eqn:Htold; simpl.
      * destruct (reached t' _ repeat) eqn:Hre; simpl; (eexists; split; [reflexivity|]); simpl; [|by repeat split; first [done|lia]].
        apply reached_spec in Hre. unfold TimeAdd, min_gap in *. repeat split; first [done | lia].
      * destruct (reached t' _ (flapHold repeat)) eqn:Hre; simpl; (eexists; split; [reflexivity|]); simpl; [|by repeat split; first [done|lia]].
        apply reached_spec in Hre. unfold TimeAdd, min_gap in *. repeat split; first [done | lia].
    + destruct (bool_decide _ && ReleaseDue a t' repeat) eqn:Hrel; simpl; (eexists; split; [reflexivity|]); simpl; [|by repeat split; first [done|lia]].
      bsimpl. unfold ReleaseDue in *. bsimpl. destruct H2 as [|Hre]; bsimpl; [lia|].
      apply reached_spec in Hre. unfold TimeAdd, min_gap in *. repeat split; first [done | lia].
    + destruct since; simpl; [|by eexists; repeat split; simpl; first [done|lia]].
      destruct (PaceRecovery _ _ _); simpl; eexists; (split; [reflexivity|]); simpl; repeat split; first [done | lia].
  - destruct Hs as [-> ->]. destruct e as [t'|t'|t']; unfold pstep; simpl.
    + unfold PaceFailure. destruct (Z.leb_spec repeat 0); [lia|]. simpl. eexists; split; [reflexivity|]; simpl; repeat split; first [done | lia].
    + eexists; split; [reflexivity|]; simpl; repeat split; first [done | lia].
    + eexists; split; [reflexivity|]; simpl; repeat split; first [done | lia].
Qed.

Lemma failure_times_cons e o l : failure_times ((e, o) :: l) = failure_times [(e, o)] ++ failure_times l.
Proof. unfold failure_times. simpl. by rewrite app_nil_r, omap_app. Qed.

(** with an interval set, two failure alerts about one job are never sent
    to a channel closer together than the hold (the interval, at most an
    hour) less its slack, however the job flaps and whenever the worker polls. *)
Theorem pacing_spaced (repeat : Duration) (tr : list PStep) :
  0 < repeat -> increasing 0 tr -> spaced (min_gap repeat) None (failure_times (ptrace repeat ps_init tr)).
Proof.
  intros Hr.
  assert (G : forall t told s, pinv t told s -> increasing t tr ->
    spaced (min_gap repeat) (LastSentAt <$> ps_alert s) (failure_times (ptrace repeat s tr))).
  { induction tr as [|e r IH]; intros t told s Hi Hinc; simpl; [done|]. destruct Hinc as [He Hrest].
    pose proof (pstep_inv repeat t told s e Hi He) as Hstep.
    pose proof (pstep_gap repeat t told s e Hr Hi He) as Hgap.
    destruct (pstep repeat s e) as [s' o]. simpl.
    assert (exists told', pinv (step_time e) told' s') as [told' Hi'] by (destruct e; eexists; apply Hstep).
    specialize (IH _ _ _ Hi' Hrest). destruct Hgap as (ts & Ets & Hsp & Hlast & Hlen).
    rewrite failure_times_cons, Ets. rewrite Hlast in IH.
    destruct ts as [|u [|]]; simpl in *; [done|by destruct Hsp|lia]. }
  intros Hinc. apply (G 0 false ps_init); [by repeat split|done].
Qed.

Lemma prun_inv repeat tr t told s : pinv t told s -> increasing t tr ->
  exists t', pinv t' (told_after told (ptrace repeat s tr)) (prun repeat s tr).
Proof.
  revert t told s. induction tr as [|e r IH]; intros t told s Hi Hinc; simpl; [by exists t|].
  destruct Hinc as [He Hr]. pose proof (pstep_inv repeat t told s e Hi He) as Hstep.
  destruct (pstep repeat s e) as [s' o]. simpl.
  destruct e; (eapply IH; [|exact Hr]); apply Hstep.
Qed.

(** a failing job is never left unannounced for longer than the hold: in
    a streak of which the channel was sent no failure yet, the channel holds
    one, and a poll at any time once the hold has passed since the channel's
    last alert sends it. *)
Theorem pacing_announced (repeat : Duration) (tr : list PStep) (now : Time) :
  0 < repeat -> increasing 0 tr ->
  let s := prun repeat ps_init tr in
  ps_since s <> None -> told_after false (ptrace repeat ps_init tr) = false ->
  exists a, ps_alert s = Some a /\
    (LastSentAt a + flapHold repeat <= now -> snd (pstep repeat s (PRelease now)) = [SentFailure now]).
Proof.
  intros Hr Hinc s Hsince Htold.
  destruct (prun_inv repeat tr 0 false ps_init) as (t' & _ & Hi); [by repeat split|done|].
  fold s in Hi. rewrite Htold in Hi.
  destruct s as [[a|] [since|]]; simpl in *; try (destruct Hi; done).
  exists a. split; [done|]. intros Hnow. destruct Hi as (_ & _ & _ & Hheld).
  unfold pstep, ReleaseDue. simpl. rewrite Hheld. simpl.
  pose proof (slack_bounds (flapHold repeat)). pose proof (flapHold_pos repeat Hr).
  rewrite (proj2 (reached_spec now _ _)) by (unfold TimeAdd; lia).
  by rewrite orb_true_r.
Qed.

(** A job that fails, recovers and fails again half an hour later, with polls. *)
Definition flapping : list PStep :=
  [PFail (1 * Hour); PSuccess (1 * Hour + 10 * Minute); PFail (1 * Hour + 30 * Minute);
   PRelease (1 * Hour + 31 * Minute)].

Lemma pacing_recoveries_witness :
  recoveries_match false (ptrace Hour ps_init flapping).
Proof. apply (pacing_recoveries Hour flapping). vm_compute. repeat split. Defined.

Lemma pacing_spaced_witness :
  spaced (min_gap Hour) None (failure_times (ptrace Hour ps_init flapping)).
Proof. apply (pacing_spaced Hour flapping); vm_compute; repeat split. Defined.

Lemma pacing_announced_witness :
  exists a, ps_alert (prun Hour ps_init flapping) = Some a /\
    (LastSentAt a + flapHold Hour <= 2 * Hour ->
     snd (pstep Hour (prun Hour ps_init flapping) (PRelease (2 * Hour))) = [SentFailure (2 * Hour)]).
Proof. apply (pacing_announced Hour flapping (2 * Hour)); vm_compute; first [discriminate | repeat split]. Defined.
