(* ===== verification/Sql.v ===== *)
(** * Tables, statements and transactions

    What the store's code uses of [database/sql] and of its SQLite backend.
    A table is its rows in primary-key order with the AUTOINCREMENT counter;
    a statement reads or rewrites whole tables; a transaction runs its body
    and then commits or rolls back, and the commit may fail, or succeed with
    its acknowledgement lost. The database serialises transactions (the store
    opens a single connection), so each one sees the state the one before it
    left. The clock and the faults are those of a [World]. *)
From S2P Require Import Prelude GoTime.
Open Scope Z_scope.

(** ** Errors *)

Inductive Err :=
| ErrNotFound                          (* store.ErrNotFound *)
| ErrRunGone                           (* store.ErrNotFound and jobs.ErrRunGone *)
| ErrRunNotRunning                     (* jobs.ErrRunNotRunning *)
| ErrUnreadableJob (org job : Z) (name : string)
| ErrUnknownKind                       (* a ping of an unknown kind *)
| ErrSchedule                          (* a job without a schedule, or an unreadable one *)
| ErrText (text : bytes)               (* an error that is only its text *)
| ErrConstraint                        (* a UNIQUE constraint was violated *)
| ErrMarshal                           (* a value that JSON cannot hold *)
| ErrDatabase.                         (* anything the database reports *)
#[export] Instance Err_eq_dec : EqDecision Err.
Proof. solve_decision. Defined.

(** [errors.Is(err, ErrNotFound)]. *)
Definition is_not_found (e : Err) : bool :=
  match e with ErrNotFound | ErrRunGone => true | _ => false end.

Inductive res (A : Type) := Ok (a : A) | Error (e : Err).
Arguments Ok {A} a.
Arguments Error {A} e.

(** ** Tables *)

Record Table (R : Type) := mkTable { rows : list R; next_id : Z }.
Arguments mkTable {R} rows next_id.
Arguments rows {R} t.
Arguments next_id {R} t.

Section Tables.
Context {R : Type}.
Implicit Types (t : Table R) (p : R -> bool).

Definition empty_table : Table R := mkTable [] 1.

(** [SELECT ... WHERE p ORDER BY id]. *)
Definition select p t : list R := List.filter p (rows t).

(** The first row of that, as [QueryRow] and [LIMIT 1] read it. *)
Definition select1 p t : option R := List.find p (rows t).

(** [... ORDER BY id DESC LIMIT n]. *)
Definition select_desc p (n : Z) t : list R := take (Z.to_nat n) (rev (select p t)).

(** [EXISTS (SELECT 1 ... WHERE p)]. *)
Definition exists_row p t : bool := existsb p (rows t).

(** [UPDATE ... SET f WHERE p] and the number of rows it affects. *)
Definition update_where p (f : R -> R) t : Table R :=
  mkTable (map (fun r => if p r then f r else r) (rows t)) (next_id t).
Definition count_where p t : Z := Z.of_nat (List.length (select p t)).

(** [DELETE ... WHERE p]. *)
Definition delete_where p t : Table R := mkTable (List.filter (fun r => negb (p r)) (rows t)) (next_id t).

(** [INSERT ... VALUES]; the row gets the next id. *)
Definition insert_row (mk : Z -> R) t : Table R := mkTable (rows t ++ [mk (next_id t)]) (next_id t + 1).

(** A value of the counter taken and not used: an insert that ends in its
    [ON CONFLICT] clause has taken one all the same. *)
Definition draw t : Table R := mkTable (rows t) (next_id t + 1).

(** [MAX(f)] over some rows, [NULL] over none. *)
Definition max_opt (l : list Z) : option Z :=
  fold_left (fun m x => Some (match m with None => x | Some y => Z.max y x end)) l None.

End Tables.

(** ** Statements and transactions *)

Inductive Fault := NoFault | Fails | AckLost.

(** What the program does not control: the wall clock's reading and the
    database's fault at each tick of the computation. *)
Class World := { clock : nat -> Time; fault : nat -> Fault }.

(** A database that never fails. *)
Class Reliable `{World} := reliable : forall n, fault n = NoFault.

(** A world for concrete runs: a database that never fails and a clock that
    ticks once a second from [t0]. *)
Definition steady (t0 : Time) : World := {| clock n := t0 + Z.of_nat n * Second; fault _ := NoFault |}.

Lemma steady_reliable t0 : @Reliable (steady t0).
Proof. intros n. reflexivity. Defined.

Record St (DB : Type) := mkSt { st_db : DB; st_tick : nat }.
Arguments mkSt {DB} st_db st_tick.
Arguments st_db {DB} s.
Arguments st_tick {DB} s.

Definition M (DB A : Type) := St DB -> res A * St DB.

(** How a transaction's function leaves it: by [tx.Commit], or by returning
    without it, so that the deferred [tx.Rollback] undoes it. *)
Inductive Outcome (A : Type) := Commit (a : A) | Rollback (a : A).
Arguments Commit {A} a.
Arguments Rollback {A} a.

Section Statements.
Context {DB : Type} `{World}.

Definition ret {A} (a : A) : M DB A := fun s => (Ok a, s).
Definition throw {A} (e : Err) : M DB A := fun s => (Error e, s).
Definition bind {A B} (m : M DB A) (k : A -> M DB B) : M DB B := fun s =>
  match m s with
  | (Ok a, s') => k a s'
  | (Error e, s') => (Error e, s')
  end.

(** [m], its error made a value. *)
Definition try {A} (m : M DB A) : M DB (res A) := fun s => let '(r, s') := m s in (Ok r, s').

(** [time.Now()]. *)
Definition now_ : M DB Time := fun s => (Ok (clock (st_tick s)), mkSt (st_db s) (S (st_tick s))).

Definition query {A} (f : DB -> A) : M DB A := fun s => (Ok (f (st_db s)), s).
Definition exec (f : DB -> DB) : M DB unit := fun s => (Ok tt, mkSt (f (st_db s)) (st_tick s)).

(** [BeginTx], the body, [Commit] or [Rollback]. A fault at the beginning
    stands for an error of any of the body's statements: the transaction is
    rolled back all the same. *)
Definition tx {A} (body : M DB (Outcome A)) : M DB A := fun s =>
  let s0 := mkSt (st_db s) (S (st_tick s)) in
  match fault (st_tick s) with
  | Fails => (Error ErrDatabase, s0)
  | _ =>
      match body s0 with
      | (Error e, s') => (Error e, mkSt (st_db s) (st_tick s'))
      | (Ok (Rollback a), s') => (Ok a, mkSt (st_db s) (st_tick s'))
      | (Ok (Commit a), s') =>
          match fault (st_tick s') with
          | NoFault => (Ok a, mkSt (st_db s') (S (st_tick s')))
          | Fails => (Error ErrDatabase, mkSt (st_db s) (S (st_tick s')))
          | AckLost => (Error ErrDatabase, mkSt (st_db s') (S (st_tick s')))
          end
      end
  end.

End Statements.

Declare Scope sql_scope.
Delimit Scope sql_scope with sql.
Notation "'let*' x := m 'in' k" := (bind m (fun x => k)) (at level 10, x name, m at level 200, k at level 200) : sql_scope.
Notation "'let*' ' p := m 'in' k" := (bind m (fun x => let p := x in k))
  (at level 10, p pattern, m at level 200, k at level 200) : sql_scope.
Notation "m ;;; k" := (bind m (fun _ => k)) (at level 62, k at level 200, right associativity) : sql_scope.
Open Scope sql_scope.

(** A statement outside a transaction is a transaction of its own. *)
Definition autocommit {DB A} `{World} (m : M DB A) : M DB A := tx (let* a := m in ret (Commit a)).

(** The loop [for _, x := range l] whose body may fail. *)
Fixpoint for_each {DB A} (l : list A) (f : A -> M DB unit) : M DB unit :=
  match l with
  | [] => ret tt
  | x :: r => f x ;;; for_each r f
  end.

(** ** Tables: lemmas *)

Section RowLemmas.
Context {R : Type}.
Implicit Types (t : Table R) (p : R -> bool).

Lemma elem_of_select p t r : r ∈ select p t <-> r ∈ rows t /\ p r = true.
Proof. apply elem_of_filter_b. Qed.

Lemma elem_of_update p f t r :
  r ∈ rows (update_where p f t) <-> exists r0, r0 ∈ rows t /\ r = if p r0 then f r0 else r0.
Proof. simpl. rewrite list_elem_of_In, in_map_iff. split; intros (r0 & H1 & H2); exists r0; rewrite list_elem_of_In in *; [by split|by split]. Qed.

Lemma update_where_ext (p q : R -> bool) f t : (forall r, r ∈ rows t -> p r = q r) -> update_where p f t = update_where q f t.
Proof. intros Hp. unfold update_where. f_equal. apply map_ext_in. intros r Hr. rewrite Hp; [done|by apply list_elem_of_In]. Qed.

Lemma elem_of_delete p t r : r ∈ rows (delete_where p t) <-> r ∈ rows t /\ p r = false.
Proof. simpl. rewrite !list_elem_of_In, filter_In, negb_true_iff. done. Qed.

Lemma elem_of_insert mk t r : r ∈ rows (insert_row mk t) <-> r ∈ rows t \/ r = mk (next_id t).
Proof. simpl. rewrite elem_of_app, list_elem_of_singleton. done. Qed.

Lemma exists_row_true p t : exists_row p t = true <-> exists r, r ∈ rows t /\ p r = true.
Proof. unfold exists_row. rewrite existsb_exists. setoid_rewrite list_elem_of_In. done. Qed.

Lemma exists_row_false p t : exists_row p t = false <-> forall r, r ∈ rows t -> p r = false.
Proof.
  rewrite <- not_true_iff_false, exists_row_true. split.
  - intros Hn r Hr. apply not_true_iff_false. naive_solver.
  - intros H (r & Hr & Hp). rewrite (H r Hr) in Hp. done.
Qed.

Lemma select1_Some p t r : select1 p t = Some r -> r ∈ rows t /\ p r = true.
Proof. intros H. apply find_some in H. by rewrite list_elem_of_In. Qed.

Lemma select1_None p t : select1 p t = None <-> forall r, r ∈ rows t -> p r = false.
Proof.
  split; intros H.
  - intros r Hr. apply (find_none _ _ H). by apply list_elem_of_In.
  - unfold select1. destruct (List.find p (rows t)) eqn:E; [|done].
    apply find_some in E as [E1 E2]. rewrite (H r) in E2; [done|by apply list_elem_of_In].
Qed.

Lemma count_where_0 p t : count_where p t = 0 <-> forall r, r ∈ rows t -> p r = false.
Proof.
  unfold count_where. split.
  - intros H r Hr. destruct (p r) eqn:E; [|done].
    assert (Hin : r ∈ select p t) by (by apply elem_of_select).
    destruct (select p t); [by apply elem_of_nil in Hin|simpl in H; lia].
  - intros H. unfold select. destruct (List.filter p (rows t)) as [|r l] eqn:E; [done|].
    assert (Hin : r ∈ select p t) by (unfold select; rewrite E; left).
    apply elem_of_select in Hin as [Hin Hp]. rewrite (H r Hin) in Hp. done.
Qed.

Lemma update_where_none p f t : count_where p t = 0 -> update_where p f t = t.
Proof.
  rewrite count_where_0. destruct t as [l n]. unfold update_where. simpl. intros H. f_equal.
  rewrite <- (map_id l) at 2. apply map_ext_in. intros r Hr. rewrite H; [done|by apply list_elem_of_In].
Qed.

End RowLemmas.

Section TableLemmas.
Context {R : Type} (key : R -> Z).
Implicit Types (t : Table R) (p : R -> bool).

(** Rows in strictly increasing id order, all ids given out already. *)
Definition table_wf t : Prop :=
  StronglySorted Z.lt (map key (rows t)) /\ Forall (fun r => 0 < key r < next_id t) (rows t) /\ 0 < next_id t.

Lemma StronglySorted_filter (p : R -> bool) l :
  StronglySorted Z.lt (map key l) -> StronglySorted Z.lt (map key (List.filter p l)).
Proof.
  induction l as [|r l IH]; simpl; [done|]. intros Hs. apply StronglySorted_inv in Hs as [Hs Hf].
  destruct (p r); simpl; [|by apply IH]. constructor; [by apply IH|].
  rewrite Forall_map in *. rewrite Forall_elem in *. intros x Hx. apply Hf.
  by apply elem_of_filter_b in Hx as [Hx _].
Qed.

Lemma NoDup_sorted l : StronglySorted Z.lt l -> NoDup l.
Proof.
  induction 1 as [|x l Hs IH Hf]; constructor; [|done]. intros Hx. rewrite Forall_elem in Hf. specialize (Hf x Hx). lia.
Qed.

Lemma StronglySorted_snoc l x : StronglySorted Z.lt l -> Forall (fun y => y < x) l -> StronglySorted Z.lt (l ++ [x]).
Proof.
  induction l as [|y l IH]; simpl; intros Hs Hf; [repeat constructor|].
  apply StronglySorted_inv in Hs as [Hs Hy]. inversion Hf; subst. constructor; [by apply IH|].
  apply Forall_app. by repeat constructor.
Qed.

Lemma table_wf_empty : table_wf empty_table.
Proof. unfold table_wf. simpl. repeat constructor. Qed.

Lemma table_wf_update p f t : (forall r, key (f r) = key r) -> table_wf t -> table_wf (update_where p f t).
Proof.
  intros Hk (Hs & Hb & Hn). unfold table_wf. simpl. rewrite map_map.
  assert (E : map (fun x => key (if p x then f x else x)) (rows t) = map key (rows t)).
  { apply map_ext. intros r. by destruct (p r). }
  rewrite E. repeat split; [done| |done]. rewrite Forall_map.
  eapply Forall_mono; [|exact Hb]. simpl. intros r. destruct (p r); by rewrite ?Hk.
Qed.

Lemma table_wf_delete p t : table_wf t -> table_wf (delete_where p t).
Proof.
  intros (Hs & Hb & Hn). unfold table_wf. simpl. repeat split; [by apply StronglySorted_filter| |done].
  rewrite Forall_elem in *. intros r Hr. apply Hb. by apply elem_of_filter_b in Hr as [Hr _].
Qed.

Lemma table_wf_draw t : table_wf t -> table_wf (draw t).
Proof.
  intros (Hs & Hb & Hn). split; [done|]. simpl. split; [|lia]. eapply Forall_mono; [|exact Hb]. simpl. lia.
Qed.

Lemma table_wf_insert mk t : (forall i, key (mk i) = i) -> table_wf t -> table_wf (insert_row mk t).
Proof.
  intros Hk (Hs & Hb & Hn). unfold table_wf. simpl. repeat split; [| |lia].
  - rewrite map_app. simpl. rewrite Hk. apply StronglySorted_snoc; [done|].
    rewrite Forall_map. eapply Forall_mono; [|exact Hb]. simpl. lia.
  - apply Forall_app. split; [eapply Forall_mono; [|exact Hb]; simpl; lia|]. repeat constructor; rewrite Hk; lia.
Qed.

Lemma StronglySorted_key_inj l r1 r2 : StronglySorted Z.lt (map key l) -> r1 ∈ l -> r2 ∈ l -> key r1 = key r2 -> r1 = r2.
Proof.
  induction l as [|x l IH]; simpl; intros Hs H1 H2 E; [by apply elem_of_nil in H1|].
  apply StronglySorted_inv in Hs as [Hs Hf]. rewrite Forall_map, Forall_elem in Hf.
  apply elem_of_cons in H1 as [->|H1], H2 as [->|H2]; [done| | |by apply IH].
  - specialize (Hf _ H2). simpl in Hf. lia.
  - specialize (Hf _ H1). simpl in Hf. lia.
Qed.

Lemma table_key_inj t r1 r2 : table_wf t -> r1 ∈ rows t -> r2 ∈ rows t -> key r1 = key r2 -> r1 = r2.
Proof. intros (Hs & _). by apply StronglySorted_key_inj. Qed.

Lemma table_wf_lt t r : table_wf t -> r ∈ rows t -> 0 < key r < next_id t.
Proof. intros (_ & Hb & _) Hr. rewrite Forall_elem in Hb. by apply Hb. Qed.

(** The row with a given id, in a well-formed table. *)
Lemma select1_key t r : table_wf t -> r ∈ rows t -> select1 (fun x => key x =? key r) t = Some r.
Proof.
  intros Hw Hr. destruct (select1 _ t) as [x|] eqn:E.
  - apply select1_Some in E as [Hx Hk]. apply Z.eqb_eq in Hk. f_equal. by eapply table_key_inj.
  - rewrite select1_None in E. specialize (E r Hr). simpl in E. lia.
Qed.

(** [select1] finds the matching row with the smallest id. *)
Lemma select1_least p t r : table_wf t -> select1 p t = Some r ->
  forall x, x ∈ rows t -> p x = true -> key r <= key x.
Proof.
  intros (Hs & _) Hf x Hx Hp. unfold select1 in Hf. revert Hs Hf Hx.
  induction (rows t) as [|y l IH]; simpl; [done|]. intros Hs Hf Hx. apply StronglySorted_inv in Hs as [Hs Hl].
  rewrite Forall_map, Forall_elem in Hl. destruct (p y) eqn:Hy.
  - injection Hf as ->. apply elem_of_cons in Hx as [->|Hx]; [lia|]. specialize (Hl _ Hx). simpl in Hl. lia.
  - apply elem_of_cons in Hx as [->|Hx]; [congruence|]. by apply IH.
Qed.

End TableLemmas.

#[export] Hint Resolve table_wf_empty table_wf_delete table_wf_insert table_wf_update : tend.

(** ** Reasoning about computations *)

Section Logic.
Context {DB : Type} `{World}.
Implicit Types (I P : DB -> Prop).

(** From a state in [P], [m] either fails or returns an [a] in [Q a]. *)
Definition hoare {A} P (m : M DB A) (Q : A -> DB -> Prop) : Prop := forall s, P (st_db s) ->
  match m s with (Ok a, s') => Q a (st_db s') | (Error _, _) => True end.

(** [m] keeps [I], whatever it returns. *)
Definition preserves {A} I (m : M DB A) : Prop := forall s, I (st_db s) -> I (st_db (snd (m s))).

(** [m] relates the database before and after by [R]. *)
Definition evolves {A} (R : DB -> DB -> Prop) (m : M DB A) : Prop := forall s, R (st_db s) (st_db (snd (m s))).

Lemma hoare_ret {A} P (a : A) (Q : A -> DB -> Prop) : (forall d, P d -> Q a d) -> hoare P (ret a) Q.
Proof. intros Hq s. apply Hq. Qed.

Lemma hoare_throw {A} P e (Q : A -> DB -> Prop) : hoare P (throw e) Q.
Proof. by intros s. Qed.

Lemma hoare_query {A} P (f : DB -> A) (Q : A -> DB -> Prop) :
  (forall d, P d -> Q (f d) d) -> hoare P (query f) Q.
Proof. intros Hq s. apply Hq. Qed.

Lemma hoare_exec P f (Q : unit -> DB -> Prop) : (forall d, P d -> Q tt (f d)) -> hoare P (exec f) Q.
Proof. intros Hq s. apply Hq. Qed.

Lemma hoare_now P (Q : Time -> DB -> Prop) : (forall t d, P d -> Q t d) -> hoare P now_ Q.
Proof. intros Hq s. apply Hq. Qed.

Lemma hoare_bind {A B} P (m : M DB A) (k : A -> M DB B) (Q : A -> DB -> Prop) (Q' : B -> DB -> Prop) :
  hoare P m Q -> (forall a, hoare (Q a) (k a) Q') -> hoare P (bind m k) Q'.
Proof.
  intros H1 H2 s Hs. specialize (H1 s Hs). unfold bind. destruct (m s) as [[a|e] s']; [|done].
  by apply H2.
Qed.

Lemma hoare_weaken {A} P P' (m : M DB A) (Q Q' : A -> DB -> Prop) :
  hoare P' m Q' -> (forall d, P d -> P' d) -> (forall a d, Q' a d -> Q a d) -> hoare P m Q.
Proof.
  intros Hm Hp Hq s Hs. specialize (Hm s (Hp _ Hs)). destruct (m s) as [[a|] s']; [by apply Hq|done].
Qed.

Lemma hoare_for_each {A} I (l : list A) (f : A -> M DB unit) :
  (forall x, x ∈ l -> hoare I (f x) (fun _ => I)) -> hoare I (for_each l f) (fun _ => I).
Proof.
  induction l as [|x l IH]; simpl; intros Hf; [by apply hoare_ret|].
  eapply hoare_bind; [apply Hf; left|]. intros u. simpl. apply IH. intros y Hy. apply Hf. by right.
Qed.

Lemma preserves_tx {A} I (body : M DB (Outcome A)) :
  hoare I body (fun o d => match o with Commit _ => I d | Rollback _ => True end) -> preserves I (tx body).
Proof.
  intros Hb s Hs. unfold tx. specialize (Hb (mkSt (st_db s) (S (st_tick s))) Hs).
  destruct (fault (st_tick s)); simpl; try done;
    (destruct (body _) as [[[a|a]|e] s'] eqn:E; simpl; [destruct (fault (st_tick s')); simpl; done|done|done]).
Qed.

Lemma preserves_autocommit {A} I (m : M DB A) : hoare I m (fun _ => I) -> preserves I (autocommit m).
Proof.
  intros Hm. apply preserves_tx. eapply hoare_bind; [exact Hm|]. intros a. by apply hoare_ret.
Qed.

Lemma preserves_ret {A} I (a : A) : preserves I (ret a).
Proof. by intros s. Qed.

Lemma preserves_throw {A} I e : preserves I (throw (A := A) e).
Proof. by intros s. Qed.

Lemma preserves_query {A} I (f : DB -> A) : preserves I (query f).
Proof. by intros s. Qed.

Lemma preserves_now I : preserves I now_.
Proof. by intros s. Qed.

Lemma preserves_try {A} I (m : M DB A) : preserves I m -> preserves I (try m).
Proof. intros Hm s Hs. unfold try. specialize (Hm s Hs). by destruct (m s). Qed.

Lemma preserves_bind {A B} I (m : M DB A) (k : A -> M DB B) :
  preserves I m -> (forall a, preserves I (k a)) -> preserves I (bind m k).
Proof.
  intros Hm Hk s Hs. unfold bind. specialize (Hm s Hs). destruct (m s) as [[a|e] s']; [by apply Hk|done].
Qed.

Lemma evolves_ret {A} R `{!Reflexive R} (a : A) : evolves R (ret a).
Proof. by intros s. Qed.

Lemma evolves_throw {A} R `{!Reflexive R} e : evolves R (throw (A := A) e).
Proof. by intros s. Qed.

Lemma evolves_query {A} R `{!Reflexive R} (f : DB -> A) : evolves R (query f).
Proof. by intros s. Qed.

Lemma evolves_now R `{!Reflexive R} : evolves R now_.
Proof. by intros s. Qed.

Lemma evolves_exec R f : (forall d, R d (f d)) -> evolves R (exec f).
Proof. intros Hf s. apply Hf. Qed.

Lemma evolves_bind {A B} R `{!Transitive R} (m : M DB A) (k : A -> M DB B) :
  evolves R m -> (forall a, evolves R (k a)) -> evolves R (bind m k).
Proof.
  intros Hm Hk s. unfold bind. specialize (Hm s). destruct (m s) as [[a|e] s']; [|done].
  etrans; [exact Hm|]. apply Hk.
Qed.

Lemma evolves_try {A} R (m : M DB A) : evolves R m -> evolves R (try m).
Proof. intros Hm s. unfold try. specialize (Hm s). by destruct (m s). Qed.

Lemma evolves_tx {A} R `{!Reflexive R} (body : M DB (Outcome A)) : evolves R body -> evolves R (tx body).
Proof.
  intros Hb s. unfold tx. specialize (Hb (mkSt (st_db s) (S (st_tick s)))). simpl in Hb.
  destruct (fault (st_tick s)); simpl; try done;
    (destruct (body _) as [[[a|a]|e] s'] eqn:E; simpl; [destruct (fault (st_tick s')); simpl; done|done|done]).
Qed.

Lemma evolves_for_each {A} R `{!Reflexive R, !Transitive R} (l : list A) (f : A -> M DB unit) :
  (forall x, evolves R (f x)) -> evolves R (for_each l f).
Proof.
  intros Hf. induction l as [|x l IH]; simpl; [by apply evolves_ret|].
  by apply evolves_bind.
Qed.

(** The same, with the answer and the time of the commit; an answer without a
    commit is a rollback's. *)
Lemma tx_outcome {A} (body : M DB (Outcome A)) s :
  let '(r, s') := tx body s in let s0 := mkSt (st_db s) (S (st_tick s)) in
  (st_db s' = st_db s /\ forall a, r = Ok a -> exists s1, body s0 = (Ok (Rollback a), s1)) \/
  exists a s1, body s0 = (Ok (Commit a), s1) /\ st_db s' = st_db s1 /\ (st_tick s1 <= st_tick s')%nat /\ (r = Ok a \/ r = Error ErrDatabase).
Proof.
  unfold tx. destruct (fault (st_tick s)); [|by left|];
    (destruct (body _) as [[[a|a]|e] s1] eqn:E; [|left; split; [done|]; intros x [= <-]; by exists s1|by left]);
    (destruct (fault (st_tick s1)); [right; exists a, s1; simpl; auto|by left|right; exists a, s1; simpl; auto]).
Qed.

Lemma tx_commits {A} (body : M DB (Outcome A)) s :
  let '(r, s') := tx body s in let s0 := mkSt (st_db s) (S (st_tick s)) in
  (st_db s' = st_db s /\ forall a, r = Ok a -> exists s1, body s0 = (Ok (Rollback a), s1)) \/
  exists a s1, body s0 = (Ok (Commit a), s1) /\ st_db s' = st_db s1 /\ (st_tick s1 <= st_tick s')%nat.
Proof.
  pose proof (tx_outcome body s) as Ho. destruct (tx body s) as [r s']. destruct Ho as [?|(a & s1 & H1 & H2 & H3 & _)]; [by left|].
  right. by exists a, s1.
Qed.

(** A read leaves the database alone, and answers for it if it answers. *)
Lemma autocommit_query {A} (f : DB -> A) s : let '(r, s') := autocommit (query f) s in
  st_db s' = st_db s /\ (st_tick s <= st_tick s')%nat /\ (r = Ok (f (st_db s)) \/ exists e, r = Error e).
Proof.
  unfold autocommit, tx, bind, query, ret. destruct (fault (st_tick s)); simpl;
    try (destruct (fault (S (st_tick s))); simpl); repeat split; eauto; lia.
Qed.

Lemma read_error {A} (f : DB -> A) s e s' : autocommit (query f) s = (Error e, s') -> e = ErrDatabase.
Proof.
  unfold autocommit, tx, bind, query, ret. destruct (fault (st_tick s)); simpl;
    try (destruct (fault (S (st_tick s))); simpl); by intros [=].
Qed.

(** [m] never turns the clock back. *)
Definition advances {A} (m : M DB A) : Prop := forall s, (st_tick s <= st_tick (snd (m s)))%nat.

Lemma advances_ret {A} (a : A) : advances (ret a).
Proof. by intros s. Qed.
Lemma advances_throw {A} e : advances (throw (A := A) e).
Proof. by intros s. Qed.
Lemma advances_query {A} (f : DB -> A) : advances (query f).
Proof. by intros s. Qed.
Lemma advances_exec f : advances (exec f).
Proof. by intros s. Qed.
Lemma advances_now : advances now_.
Proof. intros s. simpl. lia. Qed.

Lemma advances_bind {A B} (m : M DB A) (k : A -> M DB B) : advances m -> (forall a, advances (k a)) -> advances (bind m k).
Proof.
  intros Hm Hk s. specialize (Hm s). unfold bind. destruct (m s) as [[a|e] s']; [|done]. etrans; [exact Hm|apply Hk].
Qed.

Lemma advances_try {A} (m : M DB A) : advances m -> advances (try m).
Proof. intros Hm s. specialize (Hm s). unfold try. by destruct (m s). Qed.

Lemma advances_tx {A} (body : M DB (Outcome A)) : advances body -> advances (tx body).
Proof.
  intros Hb s. unfold tx. specialize (Hb (mkSt (st_db s) (S (st_tick s)))). simpl in Hb.
  destruct (fault (st_tick s)); simpl; [|lia|];
    (destruct (body _) as [[[a|a]|e] s'] eqn:E; simpl in *; [destruct (fault (st_tick s')); simpl; lia|lia|lia]).
Qed.

Lemma advances_for_each {A} (l : list A) (f : A -> M DB unit) : (forall x, advances (f x)) -> advances (for_each l f).
Proof. intros Hf. induction l as [|x l IH]; simpl; [by apply advances_ret|]. by apply advances_bind. Qed.

(** A transaction of a database that never fails. *)
Lemma tx_reliable `{!Reliable} {A} (body : M DB (Outcome A)) s :
  tx body s = match body (mkSt (st_db s) (S (st_tick s))) with
              | (Error e, s') => (Error e, mkSt (st_db s) (st_tick s'))
              | (Ok (Rollback a), s') => (Ok a, mkSt (st_db s) (st_tick s'))
              | (Ok (Commit a), s') => (Ok a, mkSt (st_db s') (S (st_tick s')))
              end.
Proof.
  unfold tx. rewrite reliable. destruct (body _) as [[[a|a]|e] s']; [|done|done]. by rewrite reliable.
Qed.

(** There an error means the transaction was rolled back. *)
Lemma tx_reliable_error `{!Reliable} {A} (body : M DB (Outcome A)) s e s' : tx body s = (Error e, s') -> st_db s' = st_db s.
Proof. rewrite tx_reliable. destruct (body _) as [[[a|a]|e'] s1]; intros [=]; by subst. Qed.

(** Whatever the faults, a transaction has all of its effect or none. *)
Lemma tx_atomic {A} (body : M DB (Outcome A)) s :
  let '(r, s') := tx body s in
  st_db s' = st_db s \/
  exists a s1, body (mkSt (st_db s) (S (st_tick s))) = (Ok (Commit a), s1) /\ st_db s' = st_db s1 /\
    (r = Ok a \/ r = Error ErrDatabase).
Proof.
  unfold tx. destruct (fault (st_tick s)); [|by left|];
    (destruct (body _) as [[[a|a]|e] s1] eqn:E; [|by left|by left]);
    (destruct (fault (st_tick s1)); [right; exists a, s1; auto|by left|right; exists a, s1; auto]).
Qed.

End Logic.

Create HintDb evolves.

(** [evolve] splits a computation into its statements; what is left is each
    [exec]'s effect. *)
Ltac evolve :=
  repeat first
    [ progress intros
    | solve [eauto with evolves]
    | apply evolves_bind; [typeclasses eauto| |intros ?]
    | apply evolves_ret; typeclasses eauto
    | apply evolves_throw; typeclasses eauto
    | apply evolves_query; typeclasses eauto
    | apply evolves_now; typeclasses eauto
    | apply evolves_tx; [typeclasses eauto|]
    | apply evolves_try
    | apply evolves_for_each; [typeclasses eauto|typeclasses eauto|intros ?]
    | match goal with
      | |- evolves _ (if ?b then _ else _) => destruct b
      | |- evolves _ (match ?x with _ => _ end) => destruct x
      end
    | apply evolves_exec; intros ? ].

(** The same for the clock. *)
Ltac advance :=
  repeat first
    [ progress intros
    | solve [eauto with evolves]
    | apply advances_bind; [|intros ?]
    | apply advances_ret | apply advances_throw | apply advances_query | apply advances_exec | apply advances_now
    | apply advances_tx | apply advances_try | apply advances_for_each; intros ?
    | match goal with
      | |- advances (if ?b then _ else _) => destruct b
      | |- advances (match ?x with _ => _ end) => destruct x
      end ].
