(* ===== verification/Schema.v ===== *)
(** * The store's schema ([internal/store/migrations])

    The rows of each table, with [option] for a nullable column, and the
    conversions between a row and the domain value ([scanRun], [scanJob],
    [scanHeartbeat], ...). A timestamp column holds an instant: the code
    stores it as fixed-width UTC text, which compares as the instant does.
    [failure_alerts] has a composite primary key and is a finite map from it. *)
From S2P Require Import Prelude GoTime Domain Pacing Sql.
Open Scope Z_scope.

(** ** Columns *)

(** [nullTime]: a zero time is stored as NULL; [parseTime] reads NULL back as zero. *)
Definition nullTime (t : Time) : option Time := if IsZero t then None else Some t.
Definition parseTime (c : option Time) : Time := default zero_time c.

Lemma parseTime_nullTime t : parseTime (nullTime t) = t.
Proof. unfold nullTime, IsZero, zero_time, parseTime. by destruct (Z.eqb_spec t 0) as [->|]. Qed.

(** A column decoded on read: NULL, a value, or a text that does not decode. *)
Inductive Col (A : Type) := Null | Val (a : A) | Garbled.
Arguments Null {A}.
Arguments Val {A} a.
Arguments Garbled {A}.

(** ** Jobs *)

Record JobRow := {
  jr_id : Z; jr_org : Z; jr_name : string; jr_type : JobType; jr_command : string;
  jr_http_url : string; jr_http_method : string; jr_http_body : string; jr_cron : string;
  jr_interval_seconds : Z; jr_run_at : Col Time; jr_timeout_seconds : Z; jr_max_retries : Z;
  jr_enabled : bool; jr_env : Col (gmap string string); jr_spec : Col Spec;
  jr_next_run : option Time; jr_created_at : Col Time; jr_updated_at : Col Time;
  jr_failed_runs : Z; jr_failing_since : option Time;
}.

(** [encodeEnv]: an empty map is stored as NULL. *)
Definition encodeEnv (env : gmap string string) : Col (gmap string string) :=
  if bool_decide (env = ∅) then Null else Val env.

(** [decodeEnv] and [decodeSpec]; [None] is the error of a text that does not decode. *)
Definition decodeEnv (c : Col (gmap string string)) : option (gmap string string) :=
  match c with Null => Some ∅ | Val m => Some m | Garbled => None end.
(** A zero is left out of the JSON text, whatever its sign. *)
Definition stored_fraction (f : spec_float) : spec_float := match f with S754_zero _ => S754_zero false | _ => f end.
Definition stored_spec (s : Spec) : Spec := sp_with_fraction s (stored_fraction (sp_renew_after_fraction s)).
Definition spec_column (s : option Spec) : Col Spec := match s with None => Null | Some s => Val (stored_spec s) end.
(** JSON has no text for an infinite fraction, nor for one that is not a number. *)
Definition json_number (f : spec_float) : bool := match f with S754_infinity _ | S754_nan => false | _ => true end.
Definition encodeSpec (s : option Spec) : res (Col Spec) :=
  match s with
  | Some sp => if json_number (sp_renew_after_fraction sp) then Ok (spec_column s) else Error ErrMarshal
  | None => Ok (spec_column s)
  end.
Definition decodeSpec (c : Col Spec) : option (option Spec) :=
  match c with Null => Some None | Val s => Some (Some s) | Garbled => None end.
Definition decodeTime (c : Col Time) : option Time :=
  match c with Null => Some zero_time | Val t => Some t | Garbled => None end.

(** [storedCommand]. *)
Definition storedCommand (j : Job) : string := if HasSpec (j_type j) then RollbackGuardCommand else j_command j.

(** [scanJob]: the job, or the [UnreadableJobError] of a row with a column that
    does not decode. A [next_run] that does not decode is left out: whether
    [DueJobs], which compares it as text, finds such a row is up to the text. *)
Definition scanJob (r : JobRow) : res Job :=
  match decodeTime (jr_run_at r), decodeTime (jr_created_at r), decodeTime (jr_updated_at r), decodeEnv (jr_env r),
        decodeSpec (jr_spec r) with
  | Some runAt, Some created, Some updated, Some env, Some spec =>
      Ok {| j_id := jr_id r; j_org := jr_org r; j_name := jr_name r; j_type := jr_type r;
            j_command := if HasSpec (jr_type r) then "" else jr_command r;
            j_http_url := jr_http_url r; j_http_method := jr_http_method r; j_http_body := jr_http_body r;
            j_cron := jr_cron r; j_interval_seconds := jr_interval_seconds r; j_run_at := runAt;
            j_timeout_seconds := jr_timeout_seconds r; j_max_retries := jr_max_retries r;
            j_enabled := jr_enabled r; j_env := env; j_spec := spec;
            j_next_run_at := parseTime (jr_next_run r); j_created_at := created;
            j_updated_at := updated |}
  | _, _, _, _, _ => Error (ErrUnreadableJob (jr_org r) (jr_id r) (jr_name r))
  end.

(** The part of an unreadable row the error carries. *)
Record Unreadable := { un_org : Z; un_job : Z; un_name : string }.

(** [scanJobs]: the jobs that could be read and those that could not. *)
Fixpoint scanJobs (rs : list JobRow) : list Job * list Unreadable :=
  match rs with
  | [] => ([], [])
  | r :: rest =>
      let '(out, bad) := scanJobs rest in
      match scanJob r with
      | Ok j => (j :: out, bad)
      | Error _ => (out, {| un_org := jr_org r; un_job := jr_id r; un_name := jr_name r |} :: bad)
      end
  end.

Definition jr_with_streak (r : JobRow) (n : Z) (since : option Time) : JobRow :=
  {| jr_id := jr_id r; jr_org := jr_org r; jr_name := jr_name r; jr_type := jr_type r; jr_command := jr_command r;
     jr_http_url := jr_http_url r; jr_http_method := jr_http_method r; jr_http_body := jr_http_body r;
     jr_cron := jr_cron r; jr_interval_seconds := jr_interval_seconds r; jr_run_at := jr_run_at r;
     jr_timeout_seconds := jr_timeout_seconds r; jr_max_retries := jr_max_retries r; jr_enabled := jr_enabled r;
     jr_env := jr_env r; jr_spec := jr_spec r; jr_next_run := jr_next_run r; jr_created_at := jr_created_at r;
     jr_updated_at := jr_updated_at r; jr_failed_runs := n; jr_failing_since := since |}.

Definition jr_with_next_run (r : JobRow) (t : option Time) : JobRow :=
  {| jr_id := jr_id r; jr_org := jr_org r; jr_name := jr_name r; jr_type := jr_type r; jr_command := jr_command r;
     jr_http_url := jr_http_url r; jr_http_method := jr_http_method r; jr_http_body := jr_http_body r;
     jr_cron := jr_cron r; jr_interval_seconds := jr_interval_seconds r; jr_run_at := jr_run_at r;
     jr_timeout_seconds := jr_timeout_seconds r; jr_max_retries := jr_max_retries r; jr_enabled := jr_enabled r;
     jr_env := jr_env r; jr_spec := jr_spec r; jr_next_run := t; jr_created_at := jr_created_at r;
     jr_updated_at := jr_updated_at r; jr_failed_runs := jr_failed_runs r; jr_failing_since := jr_failing_since r |}.

(** ** Runs *)

Record RunRow := {
  rr_id : Z; rr_org : Z; rr_job : Z; rr_status : RunStatus; rr_attempt : Z; rr_exit_code : Z;
  rr_output : bytes; rr_claimed_by : option string;
  rr_started_at : option Time; rr_ended_at : option Time; rr_created_at : Time;
}.

(** [scanRun]. *)
Definition scanRun (r : RunRow) : Run :=
  {| r_id := rr_id r; r_org := rr_org r; r_job := rr_job r; r_status := rr_status r; r_attempt := rr_attempt r;
     r_exit_code := rr_exit_code r; r_output := rr_output r; r_claimed_by := default ("" : string) (rr_claimed_by r);
     r_started_at := parseTime (rr_started_at r); r_ended_at := parseTime (rr_ended_at r);
     r_created_at := rr_created_at r |}.

Definition rr_claim (r : RunRow) (st : RunStatus) (by_ : option string) (at_ : option Time) : RunRow :=
  {| rr_id := rr_id r; rr_org := rr_org r; rr_job := rr_job r; rr_status := st; rr_attempt := rr_attempt r;
     rr_exit_code := rr_exit_code r; rr_output := rr_output r; rr_claimed_by := by_;
     rr_started_at := at_; rr_ended_at := rr_ended_at r; rr_created_at := rr_created_at r |}.

Definition rr_finish (r : RunRow) (st : RunStatus) (exitCode : Z) (output : bytes) (at_ : Time) : RunRow :=
  {| rr_id := rr_id r; rr_org := rr_org r; rr_job := rr_job r; rr_status := st; rr_attempt := rr_attempt r;
     rr_exit_code := exitCode; rr_output := output; rr_claimed_by := rr_claimed_by r;
     rr_started_at := rr_started_at r; rr_ended_at := Some at_; rr_created_at := rr_created_at r |}.

Definition rr_with_attempt (r : RunRow) (n : Z) : RunRow :=
  {| rr_id := rr_id r; rr_org := rr_org r; rr_job := rr_job r; rr_status := rr_status r; rr_attempt := n;
     rr_exit_code := rr_exit_code r; rr_output := rr_output r; rr_claimed_by := rr_claimed_by r;
     rr_started_at := rr_started_at r; rr_ended_at := rr_ended_at r; rr_created_at := rr_created_at r |}.

(** ** Heartbeats and pings *)

Record HbRow := {
  hr_id : Z; hr_org : Z; hr_name : string; hr_last_seen_at : option Time; hr_created_at : Time;
  hr_token : option string; hr_period_seconds : Z; hr_grace_seconds : Z; hr_status : HbStatus;
  hr_started_at : option Time; hr_started_rid : string;
}.

(** [scanHeartbeat]. *)
Definition scanHeartbeat (r : HbRow) : Heartbeat :=
  {| hb_id := hr_id r; hb_org := hr_org r; hb_name := hr_name r; hb_token := default ("" : string) (hr_token r);
     hb_last_seen_at := parseTime (hr_last_seen_at r); hb_period_seconds := hr_period_seconds r;
     hb_grace_seconds := hr_grace_seconds r; hb_status := hr_status r; hb_created_at := hr_created_at r;
     hb_started_at := parseTime (hr_started_at r); hb_started_rid := hr_started_rid r |}.

Definition hr_set (r : HbRow) (seen : option Time) (st : HbStatus) (started : option Time) (rid : string) : HbRow :=
  {| hr_id := hr_id r; hr_org := hr_org r; hr_name := hr_name r; hr_last_seen_at := seen;
     hr_created_at := hr_created_at r; hr_token := hr_token r; hr_period_seconds := hr_period_seconds r;
     hr_grace_seconds := hr_grace_seconds r; hr_status := st; hr_started_at := started; hr_started_rid := rid |}.

Definition hr_with_status (r : HbRow) (st : HbStatus) : HbRow :=
  hr_set r (hr_last_seen_at r) st (hr_started_at r) (hr_started_rid r).

Definition hr_with_settings (r : HbRow) (period grace : Z) : HbRow :=
  {| hr_id := hr_id r; hr_org := hr_org r; hr_name := hr_name r; hr_last_seen_at := hr_last_seen_at r;
     hr_created_at := hr_created_at r; hr_token := hr_token r; hr_period_seconds := period;
     hr_grace_seconds := grace; hr_status := hr_status r; hr_started_at := hr_started_at r;
     hr_started_rid := hr_started_rid r |}.

Record PingRow := { pr_ping : Ping; pr_body_bytes : Z }.
Definition pr_id (r : PingRow) : Z := p_id (pr_ping r).

(** [scanPing]. *)
Definition scanPing (r : PingRow) : Ping := pr_ping r.

(** ** Notification rows *)

Record ChannelRow := { cr_channel : Channel; cr_config : option string }.
Definition cr_id (r : ChannelRow) : Z := ch_id (cr_channel r).

Record RuleRow := {
  rw_id : Z; rw_org : Z; rw_channel : Z; rw_event_type : string; rw_enabled : bool; rw_created_at : Time;
  rw_job : Z; rw_repeat_seconds : option Z;
}.

(** [repeatSeconds] and [repeatOf]. *)
Definition repeatSeconds (d : option Duration) : option Z := (fun d => Z.quot d Second) <$> d.
Definition repeatOf (n : option Z) : option Duration := secs <$> n.

(** [scanRule]. *)
Definition scanRule (r : RuleRow) : Rule :=
  {| ru_id := rw_id r; ru_org := rw_org r; ru_channel := rw_channel r; ru_event_type := rw_event_type r;
     ru_enabled := rw_enabled r; ru_job := rw_job r; ru_repeat := repeatOf (rw_repeat_seconds r);
     ru_created_at := rw_created_at r |}.

Record DeliveryRow := {
  dl_id : Z; dl_org : Z; dl_event : Z; dl_channel : Z; dl_attempts : Z; dl_state : DeliveryState;
  dl_next_attempt_at : Time; dl_created_at : Time; dl_first_attempt_at : option Time;
}.

(** [scanDelivery]: the originating event is joined in later. *)
Definition scanDelivery (r : DeliveryRow) : Delivery :=
  {| d_id := dl_id r; d_org := dl_org r; d_event_id := dl_event r; d_channel := dl_channel r;
     d_attempts := dl_attempts r; d_state := dl_state r; d_next_attempt_at := dl_next_attempt_at r;
     d_created_at := dl_created_at r; d_event := None |}.

Definition dl_with_state (r : DeliveryRow) (st : DeliveryState) : DeliveryRow :=
  {| dl_id := dl_id r; dl_org := dl_org r; dl_event := dl_event r; dl_channel := dl_channel r;
     dl_attempts := dl_attempts r; dl_state := st; dl_next_attempt_at := dl_next_attempt_at r;
     dl_created_at := dl_created_at r; dl_first_attempt_at := dl_first_attempt_at r |}.

Definition dl_schedule (r : DeliveryRow) (attempts : Z) (next : Time) (first : option Time) : DeliveryRow :=
  {| dl_id := dl_id r; dl_org := dl_org r; dl_event := dl_event r; dl_channel := dl_channel r;
     dl_attempts := attempts; dl_state := dl_state r; dl_next_attempt_at := next;
     dl_created_at := dl_created_at r; dl_first_attempt_at := first |}.

Record AlertRow := { fa_org : Z; fa_last_sent_at : option Time; fa_held : option Z }.

(** ** Tenancy and secrets *)

Record OrgRow := { or_org : Org; or_ping_key : option string }.
Definition or_id (r : OrgRow) : Z := o_id (or_org r).

Record SecretRow := {
  se_id : Z; se_org : Z; se_name : string; se_ciphertext : string; se_created_at : Time; se_updated_at : Time;
}.

(** ** The database *)

Record DB := {
  db_orgs : Table OrgRow; db_users : Table User; db_memberships : Table Membership; db_tokens : Table APIToken;
  db_jobs : Table JobRow; db_runs : Table RunRow; db_secrets : Table SecretRow; db_heartbeats : Table HbRow;
  db_pings : Table PingRow; db_events : Table Event; db_channels : Table ChannelRow; db_rules : Table RuleRow;
  db_deliveries : Table DeliveryRow; db_alerts : gmap (Z * Z) AlertRow;
}.

(** A database just migrated. *)
Definition empty_db : DB :=
  {| db_orgs := empty_table; db_users := empty_table; db_memberships := empty_table; db_tokens := empty_table;
     db_jobs := empty_table; db_runs := empty_table; db_secrets := empty_table; db_heartbeats := empty_table;
     db_pings := empty_table; db_events := empty_table; db_channels := empty_table; db_rules := empty_table;
     db_deliveries := empty_table; db_alerts := ∅ |}.

(** One table rewritten, the others as they are. *)
Definition on_orgs (f : Table OrgRow -> Table OrgRow) (d : DB) : DB :=
  {| db_orgs := f (db_orgs d); db_users := db_users d; db_memberships := db_memberships d; db_tokens := db_tokens d;
     db_jobs := db_jobs d; db_runs := db_runs d; db_secrets := db_secrets d; db_heartbeats := db_heartbeats d;
     db_pings := db_pings d; db_events := db_events d; db_channels := db_channels d; db_rules := db_rules d; db_deliveries := db_deliveries d; db_alerts := db_alerts d |}.
Definition on_users (f : Table User -> Table User) (d : DB) : DB :=
  {| db_orgs := db_orgs d; db_users := f (db_users d); db_memberships := db_memberships d; db_tokens := db_tokens d;
     db_jobs := db_jobs d; db_runs := db_runs d; db_secrets := db_secrets d; db_heartbeats := db_heartbeats d;
     db_pings := db_pings d; db_events := db_events d; db_channels := db_channels d; db_rules := db_rules d; db_deliveries := db_deliveries d; db_alerts := db_alerts d |}.
Definition on_memberships (f : Table Membership -> Table Membership) (d : DB) : DB :=
  {| db_orgs := db_orgs d; db_users := db_users d; db_memberships := f (db_memberships d); db_tokens := db_tokens d;
     db_jobs := db_jobs d; db_runs := db_runs d; db_secrets := db_secrets d; db_heartbeats := db_heartbeats d;
     db_pings := db_pings d; db_events := db_events d; db_channels := db_channels d; db_rules := db_rules d; db_deliveries := db_deliveries d; db_alerts := db_alerts d |}.
Definition on_tokens (f : Table APIToken -> Table APIToken) (d : DB) : DB :=
  {| db_orgs := db_orgs d; db_users := db_users d; db_memberships := db_memberships d; db_tokens := f (db_tokens d);
     db_jobs := db_jobs d; db_runs := db_runs d; db_secrets := db_secrets d; db_heartbeats := db_heartbeats d;
     db_pings := db_pings d; db_events := db_events d; db_channels := db_channels d; db_rules := db_rules d; db_deliveries := db_deliveries d; db_alerts := db_alerts d |}.
Definition on_jobs (f : Table JobRow -> Table JobRow) (d : DB) : DB :=
  {| db_orgs := db_orgs d; db_users := db_users d; db_memberships := db_memberships d; db_tokens := db_tokens d;
     db_jobs := f (db_jobs d); db_runs := db_runs d; db_secrets := db_secrets d; db_heartbeats := db_heartbeats d;
     db_pings := db_pings d; db_events := db_events d; db_channels := db_channels d; db_rules := db_rules d; db_deliveries := db_deliveries d; db_alerts := db_alerts d |}.
Definition on_runs (f : Table RunRow -> Table RunRow) (d : DB) : DB :=
  {| db_orgs := db_orgs d; db_users := db_users d; db_memberships := db_memberships d; db_tokens := db_tokens d;
     db_jobs := db_jobs d; db_runs := f (db_runs d); db_secrets := db_secrets d; db_heartbeats := db_heartbeats d;
     db_pings := db_pings d; db_events := db_events d; db_channels := db_channels d; db_rules := db_rules d; db_deliveries := db_deliveries d; db_alerts := db_alerts d |}.
Definition on_secrets (f : Table SecretRow -> Table SecretRow) (d : DB) : DB :=
  {| db_orgs := db_orgs d; db_users := db_users d; db_memberships := db_memberships d; db_tokens := db_tokens d;
     db_jobs := db_jobs d; db_runs := db_runs d; db_secrets := f (db_secrets d); db_heartbeats := db_heartbeats d;
     db_pings := db_pings d; db_events := db_events d; db_channels := db_channels d; db_rules := db_rules d; db_deliveries := db_deliveries d; db_alerts := db_alerts d |}.
Definition on_heartbeats (f : Table HbRow -> Table HbRow) (d : DB) : DB :=
  {| db_orgs := db_orgs d; db_users := db_users d; db_memberships := db_memberships d; db_tokens := db_tokens d;
     db_jobs := db_jobs d; db_runs := db_runs d; db_secrets := db_secrets d; db_heartbeats := f (db_heartbeats d);
     db_pings := db_pings d; db_events := db_events d; db_channels := db_channels d; db_rules := db_rules d; db_deliveries := db_deliveries d; db_alerts := db_alerts d |}.
Definition on_pings (f : Table PingRow -> Table PingRow) (d : DB) : DB :=
  {| db_orgs := db_orgs d; db_users := db_users d; db_memberships := db_memberships d; db_tokens := db_tokens d;
     db_jobs := db_jobs d; db_runs := db_runs d; db_secrets := db_secrets d; db_heartbeats := db_heartbeats d;
     db_pings := f (db_pings d); db_events := db_events d; db_channels := db_channels d; db_rules := db_rules d; db_deliveries := db_deliveries d; db_alerts := db_alerts d |}.
Definition on_events (f : Table Event -> Table Event) (d : DB) : DB :=
  {| db_orgs := db_orgs d; db_users := db_users d; db_memberships := db_memberships d; db_tokens := db_tokens d;
     db_jobs := db_jobs d; db_runs := db_runs d; db_secrets := db_secrets d; db_heartbeats := db_heartbeats d;
     db_pings := db_pings d; db_events := f (db_events d); db_channels := db_channels d; db_rules := db_rules d; db_deliveries := db_deliveries d; db_alerts := db_alerts d |}.
Definition on_channels (f : Table ChannelRow -> Table ChannelRow) (d : DB) : DB :=
  {| db_orgs := db_orgs d; db_users := db_users d; db_memberships := db_memberships d; db_tokens := db_tokens d;
     db_jobs := db_jobs d; db_runs := db_runs d; db_secrets := db_secrets d; db_heartbeats := db_heartbeats d;
     db_pings := db_pings d; db_events := db_events d; db_channels := f (db_channels d); db_rules := db_rules d; db_deliveries := db_deliveries d; db_alerts := db_alerts d |}.
Definition on_rules (f : Table RuleRow -> Table RuleRow) (d : DB) : DB :=
  {| db_orgs := db_orgs d; db_users := db_users d; db_memberships := db_memberships d; db_tokens := db_tokens d;
     db_jobs := db_jobs d; db_runs := db_runs d; db_secrets := db_secrets d; db_heartbeats := db_heartbeats d;
     db_pings := db_pings d; db_events := db_events d; db_channels := db_channels d; db_rules := f (db_rules d); db_deliveries := db_deliveries d; db_alerts := db_alerts d |}.
Definition on_deliveries (f : Table DeliveryRow -> Table DeliveryRow) (d : DB) : DB :=
  {| db_orgs := db_orgs d; db_users := db_users d; db_memberships := db_memberships d; db_tokens := db_tokens d;
     db_jobs := db_jobs d; db_runs := db_runs d; db_secrets := db_secrets d; db_heartbeats := db_heartbeats d;
     db_pings := db_pings d; db_events := db_events d; db_channels := db_channels d; db_rules := db_rules d; db_deliveries := f (db_deliveries d); db_alerts := db_alerts d |}.
Definition on_alerts (f : gmap (Z * Z) AlertRow -> gmap (Z * Z) AlertRow) (d : DB) : DB :=
  {| db_orgs := db_orgs d; db_users := db_users d; db_memberships := db_memberships d; db_tokens := db_tokens d;
     db_jobs := db_jobs d; db_runs := db_runs d; db_secrets := db_secrets d; db_heartbeats := db_heartbeats d;
     db_pings := db_pings d; db_events := db_events d; db_channels := db_channels d; db_rules := db_rules d; db_deliveries := db_deliveries d; db_alerts := f (db_alerts d) |}.

Abbreviation Store := (M DB).

(** Every table keeps its ids in order and never gives one out twice. *)
Definition db_wf (d : DB) : Prop :=
  table_wf or_id (db_orgs d) /\ table_wf u_id (db_users d) /\ table_wf m_id (db_memberships d) /\
  table_wf tk_id (db_tokens d) /\ table_wf jr_id (db_jobs d) /\ table_wf rr_id (db_runs d) /\
  table_wf se_id (db_secrets d) /\ table_wf hr_id (db_heartbeats d) /\ table_wf pr_id (db_pings d) /\
  table_wf ev_id (db_events d) /\ table_wf cr_id (db_channels d) /\ table_wf rw_id (db_rules d) /\
  table_wf dl_id (db_deliveries d).

(** ** Reading back what was stored *)

(** The columns [CreateJob] and [UpdateJob] write for a job. *)
Definition job_row (id : Z) (j : Job) (created : Col Time) (updated : Time) (failed_runs : Z) (since : option Time) : JobRow :=
  {| jr_id := id; jr_org := j_org j; jr_name := j_name j; jr_type := j_type j;
     jr_command := storedCommand j; jr_http_url := j_http_url j; jr_http_method := j_http_method j;
     jr_http_body := j_http_body j; jr_cron := j_cron j; jr_interval_seconds := j_interval_seconds j;
     jr_run_at := match nullTime (j_run_at j) with None => Null | Some t => Val t end;
     jr_timeout_seconds := j_timeout_seconds j; jr_max_retries := j_max_retries j; jr_enabled := j_enabled j;
     jr_env := encodeEnv (j_env j); jr_spec := spec_column (j_spec j);
     jr_next_run := nullTime (j_next_run_at j); jr_created_at := created;
     jr_updated_at := Val updated; jr_failed_runs := failed_runs; jr_failing_since := since |}.

(** The job as the store hands it out: with its id and timestamps. *)
Definition stored_job (id : Z) (j : Job) (created updated : Time) : Job :=
  {| j_id := id; j_org := j_org j; j_name := j_name j; j_type := j_type j;
     j_command := if HasSpec (j_type j) then "" else j_command j;
     j_http_url := j_http_url j; j_http_method := j_http_method j; j_http_body := j_http_body j;
     j_cron := j_cron j; j_interval_seconds := j_interval_seconds j; j_run_at := j_run_at j;
     j_timeout_seconds := j_timeout_seconds j; j_max_retries := j_max_retries j; j_enabled := j_enabled j;
     j_env := j_env j; j_spec := stored_spec <$> j_spec j; j_next_run_at := j_next_run_at j; j_created_at := created;
     j_updated_at := updated |}.

(** Whatever job is stored, the row reads back as that job, the rollback guard
    its command column may hold notwithstanding. *)
Lemma scanJob_job_row id j created updated n since :
  scanJob (job_row id j (Val created) updated n since) = Ok (stored_job id j created updated).
Proof.
  unfold scanJob, job_row, stored_job. simpl.
  assert (Hr : decodeTime (match nullTime (j_run_at j) with None => Null | Some t => Val t end) = Some (j_run_at j)).
  { pose proof (parseTime_nullTime (j_run_at j)) as E. destruct (nullTime (j_run_at j)); simpl in *; by rewrite E. }
  assert (He : decodeEnv (encodeEnv (j_env j)) = Some (j_env j)).
  { unfold encodeEnv. case_bool_decide as E; simpl; [by rewrite E|done]. }
  assert (Hs : decodeSpec (spec_column (j_spec j)) = Some (stored_spec <$> j_spec j)) by (by destruct (j_spec j)).
  rewrite Hr, He, Hs, parseTime_nullTime. unfold storedCommand. by destruct (HasSpec (j_type j)).
Qed.

(** What a job that can be read has from its row. *)
Lemma scanJob_fields r j : scanJob r = Ok j ->
  j_id j = jr_id r /\ j_org j = jr_org r /\ j_name j = jr_name r /\ j_enabled j = jr_enabled r /\ decodeSpec (jr_spec r) = Some (j_spec j) /\
  decodeTime (jr_created_at r) = Some (j_created_at j).
Proof.
  unfold scanJob. destruct (decodeTime (jr_run_at r)), (decodeTime (jr_created_at r)), (decodeTime (jr_updated_at r)), (decodeEnv (jr_env r)), (decodeSpec (jr_spec r)); try done.
  by intros [= <-].
Qed.
