(* ===== verification/StoreEvents.v ===== *)
(** * Recording events ([internal/store/emit.go], [streak.go], [pacing.go])

    Every event is recorded by [recordEvent], on a transaction: it keeps the
    job's failing streak, appends the event, and queues a delivery on every
    channel a rule routes it to, as the pacing of failure alerts lets it.
    [releaseHeld] queues the failures the pacing held back. *)
From S2P Require Import Prelude GoTime Domain Heartbeat Pacing Sql Schema.
From stdpp Require Import sorting.
Open Scope Z_scope.

Section Events.
Context `{World} `{JSONText}.

(** ** Streaks ([streak.go]) *)

(** [a] comes before [b] in [ORDER BY ended_at DESC, id DESC]. *)
Definition ended_after (a b : RunRow) : bool :=
  let ea := parseTime (rr_ended_at a) in
  let eb := parseTime (rr_ended_at b) in
  (eb <? ea) || ((ea =? eb) && (rr_id b <? rr_id a)).

Definition last_ended (l : list RunRow) : option RunRow :=
  fold_left (fun best p => match best with
                           | None => Some p
                           | Some b => if ended_after p b then Some p else best
                           end) l None.

(** A run with an outcome: neither pending nor running, and ended. *)
Definition has_outcome (p : RunRow) : bool := terminal (rr_status p) && bool_decide (is_Some (rr_ended_at p)).

(** [previousRunStatusTx]: the status of the job's finished run that ended last before run [runID]. *)
Definition previousRunStatus (runID : Z) (d : DB) : option RunStatus :=
  match select1 (fun r => rr_id r =? runID) (db_runs d) with
  | None => None
  | Some r =>
      rr_status <$> last_ended (select (fun p => (rr_org p =? rr_org r) && (rr_job p =? rr_job r)
                                                 && negb (rr_id p =? rr_id r) && has_outcome p) (db_runs d))
  end.

(** [afterSuccess]. *)
Definition afterSuccess (e : Event) (d : DB) : bool :=
  if EventRunID e <=? 0 then false else bool_decide (previousRunStatus (EventRunID e) d = Some StatusSucceeded).

Definition is_job (org id : Z) (r : JobRow) : bool := (jr_org r =? org) && (jr_id r =? id).

(** The [UPDATE jobs SET failed_runs = ..., failing_since = ...] of a run.failed recorded at [at_]. *)
Definition extend_streak (fresh : bool) (at_ : Time) (r : JobRow) : JobRow :=
  if fresh then jr_with_streak r 1 (Some at_)
  else jr_with_streak r (jr_failed_runs r + 1) (Some (default at_ (jr_failing_since r))).

(** What [streakOf] reads out of the job's row. *)
Definition row_streak (jobID : Z) (r : option JobRow) : Z * Streak :=
  match r with
  | None => (0, no_streak)
  | Some r => (jobID, if jr_failed_runs r <=? 0 then no_streak
                      else {| FailedRuns := jr_failed_runs r; FailingSince := parseTime (jr_failing_since r) |})
  end.

(** [streakOf]. *)
Definition streakOf (e : Event) (at_ : Time) : Store (Z * Streak) :=
  let jobID := EventJobID e in
  if jobID <=? 0 then ret (0, no_streak)
  else if String.eqb (ev_type e) EventRunFailed then
    let* fresh := query (afterSuccess e) in
    exec (on_jobs (update_where (is_job (ev_org e) jobID) (extend_streak fresh at_))) ;;;
    query (fun d => row_streak jobID (select1 (is_job (ev_org e) jobID) (db_jobs d)))
  else if String.eqb (ev_type e) EventRunRecovered then
    query (fun d => row_streak jobID (select1 (is_job (ev_org e) jobID) (db_jobs d)))
  else ret (0, no_streak).

(** [withStreak]. *)
Definition withStreak (e : Event) (s : Streak) : Event :=
  if FailedRuns s <=? 0 then e
  else if String.eqb (ev_type e) EventRunFailed then with_detail e (WithStreak (ev_detail e) s)
  else if String.eqb (ev_type e) EventRunRecovered then
    match ev_detail e with DtNone => with_detail e (RecoveryDetail s) | _ => e end
  else e.

(** The job of a run: [(SELECT job_id FROM job_runs WHERE id = runID)]. *)
Definition job_of_run (runID : Z) (d : DB) : option Z :=
  rr_job <$> select1 (fun r => rr_id r =? runID) (db_runs d).

(** [dropHeld]. *)
Definition drop_held (k : Z * Z -> bool) (m : gmap (Z * Z) AlertRow) : gmap (Z * Z) AlertRow :=
  map_imap (fun key r => Some (if k key then {| fa_org := fa_org r; fa_last_sent_at := fa_last_sent_at r; fa_held := None |}
                               else r)) m.
Definition dropHeld (runID : Z) : Store unit :=
  exec (fun d => on_alerts (drop_held (fun key => bool_decide (job_of_run runID d = Some (snd key)))) d).

(** [endStreak]. *)
Definition endStreak (runID : Z) : Store unit :=
  exec (fun d => on_jobs (update_where
     (fun j => bool_decide (job_of_run runID d = Some (jr_id j)) && negb (jr_failed_runs j =? 0))
     (fun j => jr_with_streak j 0 None)) d) ;;;
  dropHeld runID.

(** ** Pacing ([pacing.go]) *)

Record matchedChannel := { mc_id : Z; mc_kind : ChannelType; mc_repeat : Duration }.

(** Rule [r] is enabled and routes events of type [typ] about job [jobID]. *)
Definition routes (org : Z) (typ : string) (jobID : Z) (r : RuleRow) : bool :=
  (rw_org r =? org) && rw_enabled r && String.eqb (rw_event_type r) typ
  && ((rw_job r =? 0) || (rw_job r =? jobID)).

Definition rule_le (a b : RuleRow) : Prop :=
  rw_channel a < rw_channel b \/ (rw_channel a = rw_channel b /\ rw_id a <= rw_id b).
#[export] Instance rule_le_dec a b : Decision (rule_le a b).
Proof. unfold rule_le. apply _. Defined.

(** The rows of [matchedChannels]'s query: rules joined with their channels. *)
Definition matched_rows (e : Event) (jobID : Z) (d : DB) : list (Z * ChannelType * option Z) :=
  omap (fun r =>
      c ← select1 (fun c => (cr_id c =? rw_channel r) && (ch_org (cr_channel c) =? rw_org r)) (db_channels d);
      Some (rw_channel r, ch_kind (cr_channel c), rw_repeat_seconds r))
    (merge_sort rule_le (select (routes (ev_org e) (ev_type e) jobID) (db_rules d))).

(** The loop over them: a channel's rows follow each other and become one,
    with the most frequent of their intervals. [out] is the result so far, last first. *)
Fixpoint collapse (out : list matchedChannel) (rs : list (Z * ChannelType * option Z)) : list matchedChannel :=
  match rs with
  | [] => rev out
  | (id, kind, repeat) :: rest =>
      let r := EffectiveRepeat kind (repeatOf repeat) in
      match out with
      | o :: os =>
          if mc_id o =? id
          then collapse ({| mc_id := mc_id o; mc_kind := mc_kind o; mc_repeat := Z.min (mc_repeat o) r |} :: os) rest
          else collapse ({| mc_id := id; mc_kind := kind; mc_repeat := r |} :: out) rest
      | [] => collapse [{| mc_id := id; mc_kind := kind; mc_repeat := r |}] rest
      end
  end.

(** [matchedChannels]. *)
Definition matchedChannels (e : Event) (jobID : Z) (d : DB) : list matchedChannel := collapse [] (matched_rows e jobID d).

(** [alertState]: what the channel was told about the job, whether anything
    is kept, and the held event. *)
Definition alertState (chID jobID : Z) (d : DB) : AlertState * bool * option Z :=
  match db_alerts d !! (chID, jobID) with
  | None => (no_alert, false, None)
  | Some r => ({| LastSentAt := parseTime (fa_last_sent_at r); Held := bool_decide (is_Some (fa_held r)) |}, true, fa_held r)
  end.

(** [saveAlertState]: an upsert which keeps the org of a row that is there. *)
Definition saveAlertState (org chID jobID : Z) (st : AlertState) (held : option Z) : Store unit :=
  exec (on_alerts (fun m =>
    <[(chID, jobID) := {| fa_org := default org (fa_org <$> m !! (chID, jobID));
                          fa_last_sent_at := nullTime (LastSentAt st); fa_held := held |}]> m)).

(** [failedRepeat]: the most frequent interval of the rules routing the job's
    run.failed to the channel, and whether there is one. *)
Definition failedRepeat (org chID jobID : Z) (kind : ChannelType) (d : DB) : Duration * bool :=
  fold_left (fun '(repeat, routed) r =>
      let x := EffectiveRepeat kind (repeatOf (rw_repeat_seconds r)) in
      (if negb routed || (x <? repeat) then x else repeat, true))
    (select (fun r => routes org EventRunFailed jobID r && (rw_channel r =? chID)) (db_rules d)) (0, false).

(** [paced]. *)
Definition paced (e : Event) (jobID : Z) (streak : Streak) (ch : matchedChannel) : Store bool :=
  if jobID <=? 0 then ret true
  else if String.eqb (ev_type e) EventRunFailed then
    if FailedRuns streak <=? 0 then ret true
    else
      let* '(st, known, _) := query (alertState (mc_id ch) jobID) in
      let '(send, next) := PaceFailure st known (ev_created_at e) (FailingSince streak) (mc_repeat ch) in
      saveAlertState (ev_org e) (mc_id ch) jobID next (if Held next then Some (ev_id e) else None) ;;;
      ret send
  else if String.eqb (ev_type e) EventRunRecovered then
    let* '(_, routed) := query (failedRepeat (ev_org e) (mc_id ch) jobID (mc_kind ch)) in
    if negb routed then ret true
    else
      let* '(st, known, _) := query (alertState (mc_id ch) jobID) in
      ret (PaceRecovery st known (FailingSince streak))
  else ret true.

(** ** Events ([emit.go]) *)

Definition new_delivery (org eventID chID : Z) (now : Time) (id : Z) : DeliveryRow :=
  {| dl_id := id; dl_org := org; dl_event := eventID; dl_channel := chID; dl_attempts := 0;
     dl_state := DeliveryPending; dl_next_attempt_at := now; dl_created_at := now; dl_first_attempt_at := None |}.

(** [insertDelivery]. *)
Definition insertDelivery (org eventID chID : Z) : Store unit :=
  let* now := now_ in
  exec (on_deliveries (insert_row (new_delivery org eventID chID now))).

(** The body of [enqueueDeliveries]'s loop. *)
Definition enqueue_one (e : Event) (jobID : Z) (streak : Streak) (ch : matchedChannel) : Store unit :=
  let* send := paced e jobID streak ch in
  if negb send then ret tt else insertDelivery (ev_org e) (ev_id e) (mc_id ch).

(** [enqueueDeliveries]. *)
Definition enqueueDeliveries (e : Event) (jobID : Z) (streak : Streak) : Store unit :=
  if negb (Alertable (ev_type e)) then ret tt
  else
    let jobID := if jobID <=? 0 then EventJobID e else jobID in
    let* channels := query (matchedChannels e jobID) in
    for_each channels (enqueue_one e jobID streak).

(** [recordEvent]. *)
Definition recordEvent (e : Event) : Store Event :=
  let* at_ := (if IsZero (ev_created_at e) then now_ else ret (ev_created_at e)) in
  let e := with_created e at_ in
  let* '(jobID, streak) := streakOf e at_ in
  let e := withStreak e streak in
  let* id := query (fun d => next_id (db_events d)) in
  exec (on_events (insert_row (with_id e))) ;;;
  let e := with_id e id in
  enqueueDeliveries e jobID streak ;;;
  ret e.

(** [emitEvent]. *)
Definition emitEvent (e : Event) : Store Z := let* r := recordEvent e in ret (ev_id r).

(** ** Releasing held failures ([pacing.go]) *)

Record heldCandidate := { hc_org : Z; hc_channel : Z; hc_job : Z; hc_event : Z; hc_kind : ChannelType }.

Definition alert_le (a b : (Z * Z) * AlertRow) : Prop :=
  let la := default (-1) (fa_last_sent_at (snd a)) in
  let lb := default (-1) (fa_last_sent_at (snd b)) in
  la < lb \/ (la = lb /\ (fst (fst a) < fst (fst b) \/ (fst (fst a) = fst (fst b) /\ snd (fst a) <= snd (fst b)))).
#[export] Instance alert_le_dec a b : Decision (alert_le a b).
Proof. unfold alert_le. apply _. Defined.

(** The query of [releaseHeld]. *)
Definition held_candidates (d : DB) : list heldCandidate :=
  omap (fun '((ch, job), r) =>
      ev ← fa_held r;
      c ← select1 (fun c => (cr_id c =? ch) && (ch_org (cr_channel c) =? fa_org r)) (db_channels d);
      Some {| hc_org := fa_org r; hc_channel := ch; hc_job := job; hc_event := ev; hc_kind := ch_kind (cr_channel c) |})
    (merge_sort alert_le (map_to_list (db_alerts d))).

(** [releaseOne]'s [drop]: forget the held failure unless it changed meanwhile. *)
Definition drop_one (c : heldCandidate) : Store (Outcome bool) :=
  exec (on_alerts (fun m => match m !! (hc_channel c, hc_job c) with
    | Some r => if bool_decide (fa_held r = Some (hc_event c))
                then <[(hc_channel c, hc_job c) := {| fa_org := fa_org r; fa_last_sent_at := fa_last_sent_at r; fa_held := None |}]> m
                else m
    | None => m
    end)) ;;;
  ret (Commit false).

(** [releaseOne]'s [stillHeld]. *)
Definition stillHeld (c : heldCandidate) (d : DB) : AlertState * bool :=
  let '(st, known, held) := alertState (hc_channel c) (hc_job c) d in
  (st, known && bool_decide (held = Some (hc_event c))).

(** The status of the job's run that ended last. *)
Definition last_run_status (org jobID : Z) (d : DB) : option RunStatus :=
  rr_status <$> last_ended (select (fun p => (rr_org p =? org) && (rr_job p =? jobID) && has_outcome p) (db_runs d)).

(** [releaseOne]. *)
Definition releaseOne (c : heldCandidate) (now : Time) : Store bool := tx (
  let* '(st, held) := query (stillHeld c) in
  if negb held then ret (Rollback false)
  else
    let* '(repeat, routed) := query (failedRepeat (hc_org c) (hc_channel c) (hc_job c) (hc_kind c)) in
    if negb routed then drop_one c
    else if negb (ReleaseDue st now repeat) then ret (Rollback false)
    else
      let* job := query (fun d => select1 (is_job (hc_org c) (hc_job c)) (db_jobs d)) in
      if (match job with None => true | Some j => jr_failed_runs j <=? 0 end) then drop_one c
      else
        let* last := query (last_run_status (hc_org c) (hc_job c)) in
        if bool_decide (last = Some StatusSucceeded) then drop_one c
        else
          let* '(st, held) := query (stillHeld c) in
          if negb held || negb (ReleaseDue st now repeat) then ret (Rollback false)
          else
            let* found := query (fun d => exists_row (fun e => ev_id e =? hc_event c) (db_events d)) in
            if negb found then drop_one c
            else
              saveAlertState (hc_org c) (hc_channel c) (hc_job c) (Released now) None ;;;
              insertDelivery (hc_org c) (hc_event c) (hc_channel c) ;;;
              ret (Commit true)).

(** [releaseHeld]'s loop: a candidate that fails does not stop the others. *)
Fixpoint release_all (cs : list heldCandidate) (now : Time) : Store (Z * list Err) :=
  match cs with
  | [] => ret (0, [])
  | c :: rest =>
      let* r := try (releaseOne c now) in
      let* '(n, errs) := release_all rest now in
      ret match r with
          | Error e => (n, e :: errs)
          | Ok ok => ((if ok then 1 else 0) + n, errs)
          end
  end.

(** [releaseHeld]: how many were queued, and what failed. When the context has
    ended the code returns with the first error; here the others are begun as
    well, and fail ([BeginTx] of an ended context), so what is said of them is
    longer and the database is the same. *)
Definition releaseHeld (now : Time) : Store (Z * list Err) :=
  let* cands := autocommit (query held_candidates) in
  release_all cands now.

(** [EmitEvent]. *)
Definition EmitEvent (e : Event) : Store Z := tx (let* id := emitEvent e in ret (Commit id)).

(** [deleteAlertStates], by job and by channel. *)
Definition deleteAlertStates (org : Z) (key : Z * Z -> Z) (id : Z) : Store unit :=
  exec (on_alerts (fun m => map_imap (fun k r => if (fa_org r =? org) && (key k =? id) then None else Some r) m)).

End Events.

(** ** Which channels an event goes to *)

Definition row_id (r : Z * ChannelType * option Z) : Z := fst (fst r).
Definition row_kind (r : Z * ChannelType * option Z) : ChannelType := snd (fst r).
Definition row_repeat (r : Z * ChannelType * option Z) : Duration := EffectiveRepeat (row_kind r) (repeatOf (snd r)).

(** What [collapse] owes the rows [rs] and the channels [out] made before them. *)
Definition collapsed (kind : Z -> ChannelType) (out : list matchedChannel) (rs : list (Z * ChannelType * option Z))
    (res : list matchedChannel) : Prop :=
  StronglySorted Z.lt (map mc_id res) /\
  (forall id, id ∈ map mc_id res <-> id ∈ map mc_id out \/ id ∈ map row_id rs) /\
  forall m, m ∈ res -> mc_kind m = kind (mc_id m) /\
    (forall r, r ∈ rs -> row_id r = mc_id m -> mc_repeat m <= row_repeat r) /\
    (forall o, o ∈ out -> mc_id o = mc_id m -> mc_repeat m <= mc_repeat o) /\
    ((exists r, r ∈ rs /\ row_id r = mc_id m /\ mc_repeat m = row_repeat r) \/
     (exists o, o ∈ out /\ mc_id o = mc_id m /\ mc_repeat m = mc_repeat o)).

Lemma StronglySorted_rev_lt l : StronglySorted Z.gt l -> StronglySorted Z.lt (rev l).
Proof.
  induction l as [|x l IH]; simpl; intros Hs; [constructor|]. apply StronglySorted_inv in Hs as [Hs Hf].
  apply StronglySorted_snoc; [by apply IH|]. apply Forall_rev. eapply Forall_mono; [|exact Hf]. simpl. lia.
Qed.

(** Nothing left: what was collapsed is in order the other way round. *)
Lemma collapsed_nil kind out : StronglySorted Z.gt (map mc_id out) -> (forall o, o ∈ out -> mc_kind o = kind (mc_id o)) ->
  collapsed kind out [] (rev out).
Proof.
  intros Ho Hko. split; [rewrite map_rev; by apply StronglySorted_rev_lt|]. split.
  - intros id. rewrite map_rev, elem_of_rev, elem_of_nil. tauto.
  - intros m Hm. rewrite elem_of_rev in Hm. split; [by apply Hko|].
    split; [by intros r Hr%elem_of_nil|]. split; [|right; by exists m].
    intros o Hin E. assert (o = m) as ->; [|done].
    apply (StronglySorted_key_inj (fun m => - mc_id m) out); [|done|done|lia].
    clear -Ho. induction out as [|x l IH]; simpl in *; [constructor|].
    simpl in Ho; apply StronglySorted_inv in Ho as [Ho Hf]. constructor; [by apply IH|].
    rewrite Forall_map in *. eapply Forall_mono; [|exact Hf]. simpl. lia.
Qed.

(** A row of a channel that was not there yet. *)
Lemma collapsed_fresh kind out row rs res :
  collapsed kind ({| mc_id := row_id row; mc_kind := row_kind row; mc_repeat := row_repeat row |} :: out) rs res -> collapsed kind out (row :: rs) res.
Proof.
  intros (Ha & Hb & Hc). split; [done|]. split.
  - intros i. rewrite Hb. simpl. rewrite !elem_of_cons. tauto.
  - intros m Hm. destruct (Hc m Hm) as (H1 & H2 & H3 & H4). split; [done|]. split; [|split].
    + intros r [->|Hr]%elem_of_cons E; [|by apply H2]. apply (H3 _ ltac:(left)). done.
    + intros o Hin E. apply (H3 o ltac:(by right) E).
    + destruct H4 as [(r & Hr & E)|(o & Hin & E)]; [left; exists r; split; [by right|done]|].
      apply elem_of_cons in Hin as [->|Hin]; [left; exists row; split; [left|done]|].
      right. by exists o.
Qed.

(** Another row of the channel at hand: the more frequent interval stays. *)
Lemma collapsed_merge kind o out row rs res : mc_id o = row_id row ->
  collapsed kind ({| mc_id := mc_id o; mc_kind := mc_kind o; mc_repeat := Z.min (mc_repeat o) (row_repeat row) |} :: out) rs res ->
  collapsed kind (o :: out) (row :: rs) res.
Proof.
  intros E (Ha & Hb & Hc). split; [done|]. split.
  - intros i. rewrite Hb. simpl. rewrite !elem_of_cons, E. tauto.
  - intros m Hm. destruct (Hc m Hm) as (H1 & H2 & H3 & H4). split; [done|].
    pose proof (fun F => H3 _ ltac:(left) F) as Ho'. simpl in Ho'. split; [|split].
    + intros r [->|Hr]%elem_of_cons F; [|by apply H2]. specialize (Ho' ltac:(congruence)). lia.
    + intros x [->|Hx]%elem_of_cons F; [specialize (Ho' F); lia|]. apply H3; [by right|done].
    + destruct H4 as [(r & Hr & F)|(x & Hx & F)]; [left; exists r; split; [by right|done]|].
      apply elem_of_cons in Hx as [->|Hx]; [|right; exists x; split; [by right|done]].
      simpl in F. destruct F as [F1 F2].
      destruct (Z.min_dec (mc_repeat o) (row_repeat row)) as [G|G]; rewrite G in F2.
      * right. exists o. split; [left|done].
      * left. exists row. split; [left|]. split; [congruence|done].
Qed.

Lemma collapse_spec kind out rs :
  StronglySorted Z.gt (map mc_id out) -> StronglySorted Z.le (map row_id rs) ->
  (forall o r, o ∈ out -> r ∈ rs -> mc_id o <= row_id r) ->
  (forall o, o ∈ out -> mc_kind o = kind (mc_id o)) -> (forall r, r ∈ rs -> row_kind r = kind (row_id r)) ->
  collapsed kind out rs (collapse out rs).
Proof.
  revert out. induction rs as [|[[id k] rep] rs IH]; intros out Ho Hrs Hle Hko Hkr; [by apply collapsed_nil|].
  simpl in Hrs. apply StronglySorted_inv in Hrs as [Hrs Hhd]. rewrite Forall_map, Forall_elem in Hhd.
  assert (Hnew : forall out', StronglySorted Z.gt (map mc_id out') ->
    (forall o, o ∈ out' -> mc_id o <= id) -> (forall o, o ∈ out' -> mc_kind o = kind (mc_id o)) ->
    collapsed kind out' rs (collapse out' rs)).
  { intros out' H1 H2 H3. apply IH; [done|done| |done|].
    - intros o r Hin Hr. specialize (H2 o Hin). specialize (Hhd r Hr). simpl in Hhd. unfold row_id in *. simpl in *. lia.
    - intros r Hr. apply Hkr. by right. }
  pose proof (Hkr (id, k, rep) ltac:(left)) as Hk. unfold row_kind, row_id in Hk. simpl in Hk.
  assert (Hlater : forall o out, StronglySorted Z.gt (map mc_id (o :: out)) -> forall x, x ∈ out -> mc_id x < mc_id o).
  { intros o l Hs x Hx. simpl in Hs. apply StronglySorted_inv in Hs as [_ Hf]. rewrite Forall_map, Forall_elem in Hf. specialize (Hf x Hx). simpl in Hf. lia. }
  assert (Hfresh : (forall o, o ∈ out -> mc_id o < id) -> collapsed kind out ((id, k, rep) :: rs)
    (collapse ({| mc_id := id; mc_kind := k; mc_repeat := row_repeat (id, k, rep) |} :: out) rs)).
  { intros Hlt. apply (collapsed_fresh kind out (id, k, rep)), Hnew.
    - simpl. constructor; [done|]. rewrite Forall_map, Forall_elem. intros o Hin. specialize (Hlt o Hin). unfold row_id. simpl. lia.
    - intros o [->|Hin]%elem_of_cons; unfold row_id; simpl; [lia|]. specialize (Hlt o Hin). lia.
    - intros o [->|Hin]%elem_of_cons; unfold row_id; simpl; [done|]. by apply Hko. }
  simpl. destruct out as [|o out]; [apply Hfresh; by intros o Hin%elem_of_nil|].
  pose proof (Hle o (id, k, rep) ltac:(left) ltac:(left)) as Hol. unfold row_id in Hol. simpl in Hol.
  destruct (Z.eqb_spec (mc_id o) id) as [E|E].
  - apply (collapsed_merge kind o out (id, k, rep)); [done|]. apply Hnew; [done| |].
    + intros x [->|Hx]%elem_of_cons; simpl; [lia|]. pose proof (Hlater o out Ho x Hx). lia.
    + intros x [->|Hx]%elem_of_cons; [apply (Hko o ltac:(left))|apply Hko; by right].
  - apply Hfresh. intros x [->|Hx]%elem_of_cons; [lia|]. pose proof (Hlater o out Ho x Hx). lia.
Qed.

#[local] Instance rule_le_trans : Transitive rule_le.
Proof. unfold rule_le. intros x y z. lia. Qed.
#[local] Instance rule_le_total : Total rule_le.
Proof. unfold rule_le. intros x y. lia. Qed.

(** The kind of the org's channel with an id. *)
Definition channel_kind (org id : Z) (d : DB) : option ChannelType :=
  (fun c => ch_kind (cr_channel c)) <$> select1 (fun c => (cr_id c =? id) && (ch_org (cr_channel c) =? org)) (db_channels d).

Lemma elem_of_matched_rows e jobID d row : row ∈ matched_rows e jobID d <-> exists r,
  r ∈ rows (db_rules d) /\ routes (ev_org e) (ev_type e) jobID r = true /\
  row_id row = rw_channel r /\ snd row = rw_repeat_seconds r /\
  channel_kind (ev_org e) (rw_channel r) d = Some (row_kind row).
Proof.
  unfold matched_rows, channel_kind. rewrite elem_of_omap. split.
  - intros (r & Hr & E). rewrite merge_sort_Permutation, elem_of_select in Hr. destruct Hr as [Hr Hp].
    exists r. split; [done|]. split; [done|].
    assert (Ho : rw_org r = ev_org e) by (unfold routes in Hp; bsimpl; done). rewrite Ho in E.
    destruct (select1 _ (db_channels d)) as [c|]; simpl in *; [|done]. injection E as <-. done.
  - intros (r & Hr & Hp & E1 & E2 & E3). exists r. rewrite merge_sort_Permutation, elem_of_select. split; [done|].
    assert (Ho : rw_org r = ev_org e) by (unfold routes in Hp; bsimpl; done). rewrite Ho.
    destruct (select1 _ (db_channels d)) as [c|]; simpl in *; [|done]. injection E3 as E3.
    destruct row as [[i k] rp]. unfold row_id, row_kind in *. simpl in *. by subst.
Qed.

Lemma matched_rows_sorted e jobID d : StronglySorted Z.le (map row_id (matched_rows e jobID d)).
Proof.
  unfold matched_rows.
  assert (Hs : StronglySorted rule_le (merge_sort rule_le (select (routes (ev_org e) (ev_type e) jobID) (db_rules d)))).
  { apply Sorted_StronglySorted; [apply _|]. apply Sorted_merge_sort. apply _. }
  induction Hs as [|r l Hs IH Hf]; simpl; [constructor|].
  destruct (select1 _ _) as [c|]; simpl; [|done]. constructor; [done|].
  rewrite Forall_map, Forall_elem. intros row (x & Hx & E)%elem_of_omap.
  rewrite Forall_elem in Hf. specialize (Hf x Hx).
  destruct (select1 _ (db_channels d)) as [c'|]; simpl in E; [|done]. injection E as <-. unfold rule_le, row_id in *. simpl. lia.
Qed.

Lemma matchedChannels_facts (e : Event) (jobID : Z) (d : DB) :
  let rule r := r ∈ rows (db_rules d) /\ routes (ev_org e) (ev_type e) jobID r = true in
  StronglySorted Z.lt (map mc_id (matchedChannels e jobID d)) /\
  (forall id, id ∈ map mc_id (matchedChannels e jobID d) <->
     exists r, rule r /\ rw_channel r = id /\ is_Some (channel_kind (ev_org e) id d)) /\
  forall m, m ∈ matchedChannels e jobID d ->
    channel_kind (ev_org e) (mc_id m) d = Some (mc_kind m) /\
    (forall r, rule r -> rw_channel r = mc_id m -> mc_repeat m <= EffectiveRepeat (mc_kind m) (repeatOf (rw_repeat_seconds r))) /\
    (exists r, rule r /\ rw_channel r = mc_id m /\ mc_repeat m = EffectiveRepeat (mc_kind m) (repeatOf (rw_repeat_seconds r))).
Proof.
  intros rule. set (rs := matched_rows e jobID d).
  assert (Hk : forall r, r ∈ rs -> row_kind r = default Webhook (channel_kind (ev_org e) (row_id r) d)).
  { intros r (x & _ & _ & E1 & _ & E3)%elem_of_matched_rows. rewrite E1, E3. done. }
  destruct (collapse_spec (fun id => default Webhook (channel_kind (ev_org e) id d)) [] rs) as (Ha & Hb & Hc);
    [constructor|apply matched_rows_sorted|by intros ? ? ?%elem_of_nil|by intros ? ?%elem_of_nil|done|].
  split; [done|]. split.
  - intros id. unfold matchedChannels. fold rs. rewrite Hb, !elem_of_map. split.
    + intros [(o & Ho%elem_of_nil & _)|(row & Hr & ->)]; [done|]. apply elem_of_matched_rows in Hr as (r & Hr & Hp & E1 & _ & E3).
      exists r. rewrite E1, E3. repeat split; [done|done|by eexists].
    + intros (r & [Hr Hp] & <- & [k E]). right. exists (rw_channel r, k, rw_repeat_seconds r). split; [|done].
      apply elem_of_matched_rows. exists r. done.
  - intros m Hm. destruct (Hc m Hm) as (H1 & H2 & _ & H4).
    destruct H4 as [(row & Hrow & E1 & E2)|(o & Ho%elem_of_nil & _)]; [|done].
    pose proof Hrow as (r & Hr & Hp & F1 & F2 & F3)%elem_of_matched_rows.
    assert (Hkm : mc_kind m = row_kind row) by (rewrite H1, (Hk row Hrow), E1; done).
    split; [rewrite <- E1, F1, F3, Hkm; done|]. split.
    + intros r' [Hr' Hp'] E. specialize (H2 (rw_channel r', mc_kind m, rw_repeat_seconds r')).
      apply H2; [|done]. apply elem_of_matched_rows. exists r'. repeat split; [done|done|].
      unfold row_kind. simpl. rewrite E, <- E1, F1, F3, Hkm. done.
    + exists r. repeat split; [done|done|congruence|]. rewrite E2. unfold row_repeat. rewrite Hkm, F2. done.
Qed.

(** an event is matched with each channel once, in channel order: exactly
    the org's channels that exist and have an enabled rule for its type, for
    all jobs or for its own, each with the most frequent interval those rules
    ask for. *)
Theorem matchedChannels_spec (e : Event) (jobID : Z) (d : DB) :
  let rule r := r ∈ rows (db_rules d) /\ routes (ev_org e) (ev_type e) jobID r = true in
  StronglySorted Z.lt (map mc_id (matchedChannels e jobID d)) /\
  (forall id, id ∈ map mc_id (matchedChannels e jobID d) <->
     exists r, rule r /\ rw_channel r = id /\ is_Some (channel_kind (ev_org e) id d)) /\
  forall m, m ∈ matchedChannels e jobID d ->
    channel_kind (ev_org e) (mc_id m) d = Some (mc_kind m) /\
    (forall r, rule r -> rw_channel r = mc_id m -> mc_repeat m <= EffectiveRepeat (mc_kind m) (repeatOf (rw_repeat_seconds r))) /\
    (exists r, rule r /\ rw_channel r = mc_id m /\ mc_repeat m = EffectiveRepeat (mc_kind m) (repeatOf (rw_repeat_seconds r))).
Proof. exact (matchedChannels_facts e jobID d). Qed.

(** ** What recording an event does to the database *)

Section Effects.
Context `{World} `{JSONText}.

(** Rows appended to a table, with the next ids. *)
Definition append_rows {R} (l : list R) (t : Table R) : Table R :=
  mkTable (rows t ++ l) (next_id t + Z.of_nat (List.length l)).

(** A delivery just queued for event [e] on channel [ch]. *)
Definition fresh_delivery (e : Event) (ch : Z) (r : DeliveryRow) : Prop :=
  dl_channel r = ch /\ dl_event r = ev_id e /\ dl_org r = ev_org e /\ dl_state r = DeliveryPending /\
  dl_attempts r = 0 /\ dl_first_attempt_at r = None.

(** Every event held in [m'] was held in [m], except perhaps [x]. *)
Definition held_from (x : option Z) (m m' : gmap (Z * Z) AlertRow) : Prop :=
  forall k r' y, m' !! k = Some r' -> fa_held r' = Some y -> x = Some y \/ exists r, m !! k = Some r /\ fa_held r = Some y.

Lemma held_from_refl x m : held_from x m m.
Proof. intros k r' y H1 H2. right. by exists r'. Qed.

Lemma held_from_trans x m1 m2 m3 : held_from x m1 m2 -> held_from x m2 m3 -> held_from x m1 m3.
Proof. intros H1 H2 k r' y G1 G2. destruct (H2 k r' y G1 G2) as [|(r & Hr & E)]; [by left|]. by eapply H1. Qed.

Lemma held_from_insert x m k org last h :
  h = None \/ h = x -> held_from x m (<[k := {| fa_org := org; fa_last_sent_at := last; fa_held := h |}]> m).
Proof.
  intros Hh k' r' y H1 H2. destruct (decide (k' = k)) as [->|Hne].
  - rewrite lookup_insert_eq in H1. injection H1 as <-. simpl in H2. left. destruct Hh; congruence.
  - rewrite lookup_insert_ne in H1 by done. right. by exists r'.
Qed.

(** [d'] is [d] with a delivery of [e] queued on each of [chs], in order, and
    what the channels were told updated; no event but [e] becomes held. *)
Definition queues (e : Event) (chs : list Z) (d d' : DB) : Prop := exists m news,
  d' = on_alerts (fun _ => m) (on_deliveries (append_rows news) d) /\
  held_from (Some (ev_id e)) (db_alerts d) m /\
  Forall2 (fresh_delivery e) chs news /\
  map dl_id news = map (fun k => next_id (db_deliveries d) + Z.of_nat k) (seq 0 (List.length news)).

Lemma append_nil {R} (t : Table R) : append_rows [] t = t.
Proof. destruct t. unfold append_rows. simpl. by rewrite app_nil_r, Z.add_0_r. Qed.

Lemma db_eta_alerts d m : d = on_alerts (fun _ => m) d <-> m = db_alerts d.
Proof. destruct d; unfold on_alerts; simpl. split; [by intros [= ->]|by intros ->]. Qed.

Lemma queues_nil e m d : held_from (Some (ev_id e)) (db_alerts d) m -> queues e [] d (on_alerts (fun _ => m) d).
Proof.
  intros Hm. exists m, []. split; [|by split; [done|split; constructor]]. unfold on_deliveries. rewrite append_nil. by destruct d.
Qed.

Lemma queues_refl e d : queues e [] d d.
Proof. replace d with (on_alerts (fun _ => db_alerts d) d) at 2 by (by destruct d). apply queues_nil, held_from_refl. Qed.

Lemma queues_one e ch now m d : held_from (Some (ev_id e)) (db_alerts d) m ->
  queues e [ch] d (on_deliveries (insert_row (new_delivery (ev_org e) (ev_id e) ch now)) (on_alerts (fun _ => m) d)).
Proof.
  intros Hm. exists m, [new_delivery (ev_org e) (ev_id e) ch now (next_id (db_deliveries d))].
  split; [by destruct d|]. split; [done|]. split; [by repeat constructor|]. simpl. f_equal. lia.
Qed.

Lemma queues_trans e c1 c2 d1 d2 d3 : queues e c1 d1 d2 -> queues e c2 d2 d3 -> queues e (c1 ++ c2) d1 d3.
Proof.
  intros (m1 & n1 & -> & G1 & F1 & I1) (m2 & n2 & -> & G2 & F2 & I2). exists m2, (n1 ++ n2).
  split; [|split; [by eapply held_from_trans|split]].
  - unfold on_alerts, on_deliveries, append_rows. simpl. f_equal. rewrite length_app. f_equal; [by rewrite app_assoc|lia].
  - by apply Forall2_app.
  - rewrite map_app, I1, I2, length_app. simpl. rewrite seq_app, map_app. f_equal.
    replace (seq (0 + List.length n1) (List.length n2)) with (map (Nat.add (List.length n1)) (seq 0 (List.length n2)))
      by (etrans; [apply fmap_add_seq|]; f_equal; lia).
    rewrite map_map. apply map_ext. intros k. simpl. lia.
Qed.

Lemma paced_effect e jobID streak ch s : exists b s' m,
  paced e jobID streak ch s = (Ok b, s') /\ st_db s' = on_alerts (fun _ => m) (st_db s) /\
  held_from (Some (ev_id e)) (db_alerts (st_db s)) m /\
  (String.eqb (ev_type e) EventRunFailed = false -> String.eqb (ev_type e) EventRunRecovered = false -> b = true).
Proof.
  assert (Hid : forall b, exists b0 s' m, @ret DB bool b s = (Ok b0, s') /\ st_db s' = on_alerts (fun _ => m) (st_db s) /\
    held_from (Some (ev_id e)) (db_alerts (st_db s)) m /\ b0 = b).
  { intros b. exists b, s, (db_alerts (st_db s)). split; [done|]. split; [by apply db_eta_alerts|]. split; [apply held_from_refl|done]. }
  assert (Hidt : forall b, (String.eqb (ev_type e) EventRunFailed = false -> String.eqb (ev_type e) EventRunRecovered = false -> b = true) ->
    exists b0 s' m, @ret DB bool b s = (Ok b0, s') /\ st_db s' = on_alerts (fun _ => m) (st_db s) /\
    held_from (Some (ev_id e)) (db_alerts (st_db s)) m /\
    (String.eqb (ev_type e) EventRunFailed = false -> String.eqb (ev_type e) EventRunRecovered = false -> b0 = true)).
  { intros b Hb. destruct (Hid b) as (b0 & s' & m & E1 & E2 & E3 & ->). exists b, s', m. done. }
  clear Hid. unfold paced. destruct (jobID <=? 0); [by apply Hidt|].
  destruct (String.eqb (ev_type e) EventRunFailed) eqn:Ef.
  - destruct (FailedRuns streak <=? 0); [by apply Hidt|].
    unfold bind, query. destruct (alertState _ _ _) as [[st known] held].
    destruct (PaceFailure _ _ _ _ _) as [send next]. unfold saveAlertState, exec, ret. simpl.
    eexists _, _, _. split; [done|]. split; [done|]. split; [|done].
    apply held_from_insert. destruct (Held next); auto.
  - destruct (String.eqb (ev_type e) EventRunRecovered) eqn:Er; [|by apply Hidt].
    unfold bind, query. destruct (failedRepeat _ _ _ _ _) as [rep routed]. destruct routed; simpl; [|by apply Hidt].
    destruct (alertState _ _ _) as [[st known] held]. by apply Hidt.
Qed.

Lemma enqueue_one_effect e jobID streak ch s : exists cs s',
  enqueue_one e jobID streak ch s = (Ok tt, s') /\ queues e cs (st_db s) (st_db s') /\
  cs `sublist_of` [mc_id ch] /\
  (String.eqb (ev_type e) EventRunFailed = false -> String.eqb (ev_type e) EventRunRecovered = false -> cs = [mc_id ch]).
Proof.
  destruct (paced_effect e jobID streak ch s) as (b & s1 & m & E1 & E2 & Hm & E3).
  unfold enqueue_one, bind. rewrite E1. destruct b; simpl.
  - eexists [mc_id ch], _. split; [done|]. simpl. rewrite E2. split; [by apply queues_one|]. done.
  - exists [], s1. split; [done|]. rewrite E2. split; [by apply queues_nil|]. split; [apply sublist_nil_l|].
    intros H1 H2. discriminate (E3 H1 H2).
Qed.

Lemma enqueue_all_effect e jobID streak chs s : exists cs s',
  for_each chs (enqueue_one e jobID streak) s = (Ok tt, s') /\ queues e cs (st_db s) (st_db s') /\
  cs `sublist_of` map mc_id chs /\
  (String.eqb (ev_type e) EventRunFailed = false -> String.eqb (ev_type e) EventRunRecovered = false -> cs = map mc_id chs).
Proof.
  revert s. induction chs as [|ch chs IH]; intros s; simpl.
  { exists [], s. repeat split; [apply queues_refl|constructor]. }
  destruct (enqueue_one_effect e jobID streak ch s) as (c1 & s1 & E1 & E2 & E3 & E4).
  destruct (IH s1) as (c2 & s2 & F1 & F2 & F3 & F4). unfold bind. rewrite E1, F1.
  exists (c1 ++ c2), s2. split; [done|]. split; [by eapply queues_trans|]. split.
  - change (mc_id ch :: map mc_id chs) with ([mc_id ch] ++ map mc_id chs). by apply sublist_app.
  - intros H1 H2. by rewrite E4, F4.
Qed.

(** The job whose rules an event is matched by. *)
Definition routed_job (e : Event) (jobID : Z) : Z := if jobID <=? 0 then EventJobID e else jobID.

Lemma enqueueDeliveries_effect e jobID streak s : exists cs s',
  enqueueDeliveries e jobID streak s = (Ok tt, s') /\ queues e cs (st_db s) (st_db s') /\
  cs `sublist_of` (if Alertable (ev_type e) then map mc_id (matchedChannels e (routed_job e jobID) (st_db s)) else []) /\
  (String.eqb (ev_type e) EventRunFailed = false -> String.eqb (ev_type e) EventRunRecovered = false ->
   cs = if Alertable (ev_type e) then map mc_id (matchedChannels e (routed_job e jobID) (st_db s)) else []).
Proof.
  unfold enqueueDeliveries. destruct (Alertable (ev_type e)); simpl.
  - apply enqueue_all_effect.
  - exists [], s. repeat split; [apply queues_refl|constructor].
Qed.

(** A job's row as it was, but for its streak. *)
Definition streaks_only (t t' : Table JobRow) : Prop :=
  next_id t' = next_id t /\
  map (fun r => jr_with_streak r 0 None) (rows t') = map (fun r => jr_with_streak r 0 None) (rows t).

Lemma streaks_only_refl t : streaks_only t t.
Proof. done. Qed.

Lemma streaks_only_trans t1 t2 t3 : streaks_only t1 t2 -> streaks_only t2 t3 -> streaks_only t1 t3.
Proof. intros [? ?] [? ?]. split; congruence. Qed.

Lemma streaks_only_update p f t :
  (forall r, jr_with_streak (f r) 0 None = jr_with_streak r 0 None) -> streaks_only t (update_where p f t).
Proof. intros Hf. split; [done|]. simpl. rewrite map_map. apply map_ext. intros r. by destruct (p r). Qed.

Lemma streakOf_effect e at_ s : exists j st s' t,
  streakOf e at_ s = (Ok (j, st), s') /\ st_db s' = on_jobs (fun _ => t) (st_db s) /\ streaks_only (db_jobs (st_db s)) t.
Proof.
  assert (Hid : st_db s = on_jobs (fun _ => db_jobs (st_db s)) (st_db s)) by (by destruct s as [[]]).
  unfold streakOf. destruct (EventJobID e <=? 0).
  { eexists _, _, s, _. split; [done|]. split; [exact Hid|done]. }
  destruct (String.eqb (ev_type e) EventRunFailed).
  - unfold bind, query, exec. simpl. destruct (row_streak _ _) as [j st].
    eexists j, st, _, _. split; [done|]. simpl. split; [reflexivity|]. apply streaks_only_update.
    intros r. unfold extend_streak. by destruct (afterSuccess e (st_db s)).
  - destruct (String.eqb (ev_type e) EventRunRecovered).
    + unfold query. destruct (row_streak _ _) as [j st]. eexists j, st, s, _. split; [done|]. split; [exact Hid|done].
    + eexists _, _, s, _. split; [done|]. split; [exact Hid|done].
Qed.

(** The event [e] as it is recorded: everything but its id, its time when it
    had none, and its detail is as it was given. *)
Definition recorded_as (e e' : Event) : Prop :=
  ev_org e' = ev_org e /\ ev_type e' = ev_type e /\ ev_source e' = ev_source e /\ ev_payload e' = ev_payload e /\
  ev_dedup_key e' = ev_dedup_key e /\ (IsZero (ev_created_at e) = false -> ev_created_at e' = ev_created_at e).

Lemma withStreak_recorded e s : recorded_as e (withStreak e s) /\ ev_created_at (withStreak e s) = ev_created_at e.
Proof. unfold withStreak. split_ifs; split_matches; done. Qed.

(** [recordEvent] never fails on its own: it changes streaks, appends the
    event, and queues a delivery on some of the matched channels, on all of
    them for an event the pacing does not hold back. *)
Lemma recordEvent_effect e s : exists e' t cs s',
  recordEvent e s = (Ok e', s') /\ recorded_as e e' /\ ev_id e' = next_id (db_events (st_db s)) /\
  streaks_only (db_jobs (st_db s)) t /\
  queues e' cs (on_events (append_rows [e']) (on_jobs (fun _ => t) (st_db s))) (st_db s') /\
  (exists jobID, cs `sublist_of` if Alertable (ev_type e) then map mc_id (matchedChannels e' (routed_job e' jobID) (st_db s)) else []) /\
  (String.eqb (ev_type e) EventRunFailed = false -> String.eqb (ev_type e) EventRunRecovered = false ->
   cs = if Alertable (ev_type e) then map mc_id (matchedChannels e' (EventJobID e') (st_db s)) else []).
Proof.
  unfold recordEvent.
  assert (Hat : exists a s1, (if IsZero (ev_created_at e) then now_ else ret (ev_created_at e)) s = (Ok a, s1) /\
    st_db s1 = st_db s /\ (IsZero (ev_created_at e) = false -> a = ev_created_at e)).
  { destruct (IsZero (ev_created_at e)); eexists _, _; (split; [done|]); split; done. }
  destruct Hat as (a & s1 & E1 & D1 & Ha). unfold bind at 1. rewrite E1.
  destruct (streakOf_effect (with_created e a) a s1) as (j & st & s2 & t & E2 & D2 & Ht). unfold bind at 1. rewrite E2.
  set (e1 := withStreak (with_created e a) st). unfold bind at 1, query at 1. unfold bind at 1, exec at 1.
  destruct (withStreak_recorded (with_created e a) st) as [Hr Hc]. fold e1 in Hr, Hc.
  set (e' := with_id e1 (next_id (db_events (st_db s2)))). set (s3 := mkSt _ _).
  destruct (enqueueDeliveries_effect e' j st s3) as (cs & s4 & E4 & Hq & Hsub & Hall).
  unfold bind at 1. rewrite E4. exists e', t, cs, s4. rewrite D1 in *.
  assert (D3 : st_db s3 = on_events (append_rows [e']) (on_jobs (fun _ => t) (st_db s))).
  { unfold s3. simpl. rewrite D2. unfold e', append_rows, insert_row, on_events, on_jobs. simpl. rewrite D2. done. }
  assert (Hm : forall jj, matchedChannels e' jj (st_db s3) = matchedChannels e' jj (st_db s)) by (intros; by rewrite D3).
  assert (Hty : ev_type e' = ev_type e) by apply Hr.
  split; [done|]. split.
  { destruct Hr as (? & ? & ? & ? & ? & ?). repeat split; try done. simpl. rewrite Hc. simpl. exact Ha. }
  split; [simpl; rewrite D2; done|]. split; [done|]. rewrite <- D3. split; [done|]. rewrite Hm, Hty in *. split; [by exists j|].
  intros Hf Hrec. specialize (Hall Hf Hrec). rewrite Hall.
  assert (j = 0) as ->.
  { clear -E2 Hf Hrec. unfold streakOf in E2. simpl in E2. rewrite Hf, Hrec in E2.
    destruct (EventJobID _ <=? 0); unfold ret in E2; by injection E2 as <-. }
  done.
Qed.

(** What recording an event [e] may do to the database. *)
Definition record_step (e : Event) (d d' : DB) : Prop := exists e' t cs,
  recorded_as e e' /\ ev_id e' = next_id (db_events d) /\ streaks_only (db_jobs d) t /\
  queues e' cs (on_events (append_rows [e']) (on_jobs (fun _ => t) d)) d'.

Lemma recordEvent_step e s : record_step e (st_db s) (st_db (snd (recordEvent e s))).
Proof.
  destruct (recordEvent_effect e s) as (e' & t & cs & s' & E & Hr & Hid & Ht & Hq & _). rewrite E.
  by exists e', t, cs.
Qed.

Lemma evolves_recordEvent R e : (forall d d', record_step e d d' -> R d d') -> evolves R (recordEvent e).
Proof. intros HR s. apply HR, recordEvent_step. Qed.

(** Tables recording an event leaves alone. *)
Lemma record_step_frame e d d' : record_step e d d' ->
  db_runs d' = db_runs d /\ db_heartbeats d' = db_heartbeats d /\ db_pings d' = db_pings d /\
  db_channels d' = db_channels d /\ db_rules d' = db_rules d /\ db_orgs d' = db_orgs d /\ db_users d' = db_users d /\
  db_memberships d' = db_memberships d /\ db_tokens d' = db_tokens d /\ db_secrets d' = db_secrets d.
Proof. intros (e' & t & cs & _ & _ & _ & m & news & -> & _). repeat split. Qed.

(** It is the newest of the events, and the only new one. *)
Lemma record_step_events e d d' : record_step e d d' -> exists e', recorded_as e e' /\ rows (db_events d') = rows (db_events d) ++ [e'].
Proof. intros (e' & t & cs & Hr & _ & _ & m & news & -> & _). by exists e'. Qed.

End Effects.
