(* ===== verification/Executor.v ===== *)
(** * The executor's attempts and their limit ([internal/jobs/executor.go])

    A run is a sequence of attempts with a backoff pause between them, each
    attempt bounded by the job's timeout and the grace a kill is given. What
    one attempt does (a shell command, a request, a probe) is a parameter:
    its result and how long it took. [maxRunDuration] is the limit the
    stale-run reaper holds a run to. *)
From S2P Require Import Prelude GoTime Domain.
Open Scope Z_scope.

Definition killGraceDelay : Duration := 5 * Second.
Definition DefaultTimeout : Duration := 30 * Minute.
Definition drillCleanupTimeout : Duration := Minute.
Definition maxOutputBytes : Z := 2 ^ 20.
Definition truncationMarker : bytes := nl :: bstr "... [output truncated at 1MiB]".

(** [forever] and [seconds]. *)
Definition forever : Duration := max_int64.
Definition seconds (n : Z) : Duration :=
  let limit := Z.quot forever Second in
  if limit <? n then forever else if n <? - limit then - forever else secs n.

Record RunResult := {
  rs_status : RunStatus; rs_exit_code : Z; rs_output : bytes; rs_truncated : bool; rs_attempt : Z;
  rs_started : Time; rs_ended : Time;
}.

Section Executor.

(** [Executor.Backoff]: [None] for the default. *)
Variable Backoff : option (Z -> Duration).

(** [Executor.backoff]. *)
Definition backoff (attempt : Z) : Duration :=
  match Backoff with
  | Some f => f attempt
  | None => wrap64 (wrap64 (attempt * attempt) * Second)
  end.

(** [maxAttempts], as [run] and [maxRunDuration] both compute it. *)
Definition max_attempts (j : Job) : Z :=
  let n := wrap64 (j_max_retries j + 1) in if n <? 1 then 1 else n.

(** The timeout of one attempt, as [runOnce] and [maxRunDuration] both compute it. *)
Definition attempt_timeout (j : Job) : Duration :=
  let timeout := seconds (j_timeout_seconds j) in
  if timeout <=? 0 then DefaultTimeout else timeout.

(** What an attempt may take past its timeout. *)
Definition grace (j : Job) : Duration :=
  if bool_decide (j_type j = Drill) then killGraceDelay + (drillCleanupTimeout + killGraceDelay) else killGraceDelay.

(** The loop of [maxRunDuration], with [n] attempts left to add. *)
Fixpoint limit_loop (perAttempt : Duration) (n : nat) (attempt : Z) (total : Duration) : Duration :=
  match n with
  | O => total
  | S n' =>
      let pause := if backoff attempt <? 0 then 0 else backoff attempt in
      if forever - pause - perAttempt <? total then forever
      else limit_loop perAttempt n' (attempt + 1) (total + (pause + perAttempt))
  end.

(** [maxRunDuration]. *)
Definition maxRunDuration (j : Job) : Duration :=
  if forever - grace j <? attempt_timeout j then forever
  else
    let perAttempt := attempt_timeout j + grace j in
    limit_loop perAttempt (Z.to_nat (max_attempts j - 1)) 1 perAttempt.

(** One attempt, started at a time, and when the context is cancelled, if it is. *)
Variable runOnce : Z -> Time -> RunResult.
Variable cancelled_at : option Time.

(** [ctx.Err() != nil] at time [t]. *)
Definition cancelled (t : Time) : bool := match cancelled_at with None => false | Some c => c <=? t end.

(** The loop of [Executor.run], with [n] attempts left after this one: the
    last attempt's result, and when the run was over. *)
Fixpoint run_from (n : nat) (attempt : Z) (now : Time) : RunResult * Time :=
  let last := runOnce attempt now in
  let t := rs_ended last in
  if bool_decide (rs_status last = StatusSucceeded) then (last, t)
  else
    match n with
    | O => (last, t)
    | S n' =>
        if cancelled t then (last, t)
        else
          let d := backoff attempt in
          if 0 <? d then
            if cancelled (TimeAdd t d) then (last, default t cancelled_at)
            else run_from n' (attempt + 1) (TimeAdd t d)
          else run_from n' (attempt + 1) t
    end.

(** [Executor.run]. *)
Definition run (j : Job) (now : Time) : RunResult * Time := run_from (Z.to_nat (max_attempts j - 1)) 1 now.

(** ** The limit *)

(** The pauses and attempts after the first, added up exactly. *)
Fixpoint exact_rest (perAttempt : Duration) (n : nat) (attempt : Z) : Z :=
  match n with
  | O => 0
  | S n' => Z.max 0 (backoff attempt) + perAttempt + exact_rest perAttempt n' (attempt + 1)
  end.

Lemma exact_rest_nonneg p n attempt : 0 <= p -> 0 <= exact_rest p n attempt.
Proof. intros. revert attempt. induction n as [|n IH]; intros attempt; simpl; [lia|]. specialize (IH (attempt + 1)). lia. Qed.

Lemma limit_loop_exact p n attempt total : 0 <= p -> total <= forever ->
  limit_loop p n attempt total = Z.min forever (total + exact_rest p n attempt).
Proof.
  intros Hp. revert attempt total. induction n as [|n IH]; intros attempt total Ht; simpl; [lia|].
  pose proof (exact_rest_nonneg p n (attempt + 1) Hp).
  destruct (Z.ltb_spec (backoff attempt) 0);
    (match goal with |- context [?a <? total] => destruct (Z.ltb_spec a total) end; [lia|rewrite IH; lia]).
Qed.

Lemma attempt_timeout_range j : 0 < attempt_timeout j <= forever.
Proof.
  unfold attempt_timeout, seconds, forever, DefaultTimeout. set (q := Z.quot max_int64 Second).
  assert (Hq : q = 9223372036) by reflexivity.
  destruct (Z.ltb_spec q (j_timeout_seconds j)); [vm_compute; split; congruence|].
  destruct (Z.ltb_spec (j_timeout_seconds j) (- q)); [vm_compute; split; congruence|].
  pose proof (secs_range (j_timeout_seconds j)) as [_ Hr].
  destruct (Z.leb_spec (secs (j_timeout_seconds j)) 0); [vm_compute; split; congruence|lia].
Qed.

Lemma grace_pos j : 0 < grace j <= 70 * Second.
Proof. unfold grace, killGraceDelay, drillCleanupTimeout, Minute, Second. case_bool_decide; lia. Qed.

Lemma maxRunDuration_sum (j : Job) :
  let perAttempt := attempt_timeout j + grace j in
  maxRunDuration j = Z.min forever (perAttempt + exact_rest perAttempt (Z.to_nat (max_attempts j - 1)) 1).
Proof.
  simpl. unfold maxRunDuration. pose proof (attempt_timeout_range j). pose proof (grace_pos j).
  pose proof (exact_rest_nonneg (attempt_timeout j + grace j) (Z.to_nat (max_attempts j - 1)) 1 ltac:(lia)).
  destruct (Z.ltb_spec (forever - grace j) (attempt_timeout j)); [lia|].
  apply limit_loop_exact; lia.
Qed.

(** the limit is the sum of every attempt's timeout and grace and every
    backoff pause, computed without overflow and capped at the longest
    duration there is, for any timeout and retry count. *)
Theorem maxRunDuration_exact (j : Job) :
  let perAttempt := attempt_timeout j + grace j in
  maxRunDuration j =
    Z.min forever (perAttempt + exact_rest perAttempt (Z.to_nat (max_attempts j - 1)) 1).
Proof. apply maxRunDuration_sum. Qed.

(** An attempt that respects its timeout and the grace a kill is given. *)
Definition attempt_bounded (j : Job) : Prop :=
  forall attempt t, t <= rs_ended (runOnce attempt t) <= t + (attempt_timeout j + grace j).

Lemma run_from_bounded j n attempt now : attempt_bounded j ->
  snd (run_from n attempt now) <= now + (attempt_timeout j + grace j) + exact_rest (attempt_timeout j + grace j) n attempt.
Proof.
  intros Hb. revert attempt now. induction n as [|n IH]; intros attempt now; simpl;
    pose proof (Hb attempt now) as Ha; set (r := runOnce attempt now) in *; set (p := attempt_timeout j + grace j) in *.
  { case_bool_decide; simpl; lia. }
  assert (0 <= p) by (pose proof (attempt_timeout_range j); pose proof (grace_pos j); lia).
  pose proof (exact_rest_nonneg p n (attempt + 1) ltac:(lia)).
  case_bool_decide; simpl; [lia|]. destruct (cancelled (rs_ended r)) eqn:Hc; simpl; [lia|].
  destruct (Z.ltb_spec 0 (backoff attempt)).
  - destruct (cancelled (TimeAdd (rs_ended r) (backoff attempt))) eqn:Hc'; simpl.
    + unfold cancelled, TimeAdd in *. destruct cancelled_at; simpl; lia.
    + specialize (IH (attempt + 1) (TimeAdd (rs_ended r) (backoff attempt))). unfold TimeAdd in *. lia.
  - specialize (IH (attempt + 1) (rs_ended r)). lia.
Qed.

Lemma run_bound (j : Job) (now : Time) :
  attempt_bounded j -> maxRunDuration j < forever -> snd (run j now) - now <= maxRunDuration j.
Proof.
  intros Hb Hlt. rewrite maxRunDuration_sum in *. pose proof (run_from_bounded j (Z.to_nat (max_attempts j - 1)) 1 now Hb).
  unfold run. lia.
Qed.

(** a run whose attempts respect their timeout is over within
    [maxRunDuration] of its start, whatever the attempts' outcomes and
    whenever the context is cancelled, unless that limit is saturated: the
    reaper and the retry loop agree on when a run is overdue. *)
Theorem run_within_limit (j : Job) (now : Time) :
  attempt_bounded j -> maxRunDuration j < forever -> snd (run j now) - now <= maxRunDuration j.
Proof. apply run_bound. Qed.

(** ** The retries *)

(** The attempts made: number [k] was the last, started at [t], and the
    ones before it did not succeed. *)
Inductive attempts_from (attempt : Z) (now : Time) : Z -> Time -> Prop :=
| attempts_last : attempts_from attempt now attempt now
| attempts_next t' k t : rs_status (runOnce attempt now) <> StatusSucceeded ->
    rs_ended (runOnce attempt now) <= t' -> cancelled (rs_ended (runOnce attempt now)) = false ->
    attempts_from (attempt + 1) t' k t -> attempts_from attempt now k t.

Lemma run_from_attempts n attempt now : exists k t,
  attempts_from attempt now k t /\ fst (run_from n attempt now) = runOnce k t /\
  attempt <= k <= attempt + Z.of_nat n /\
  (rs_status (runOnce k t) = StatusSucceeded \/ k = attempt + Z.of_nat n \/
   cancelled (snd (run_from n attempt now)) = true).
Proof.
  revert attempt now. induction n as [|n IH]; intros attempt now; simpl.
  { exists attempt, now. case_bool_decide; simpl; (split; [constructor|]); (split; [done|]); split; first [lia | tauto | right; left; lia]. }
  case_bool_decide as Hs; simpl.
  { exists attempt, now. split; [constructor|]. repeat split; first [lia | tauto]. }
  destruct (cancelled (rs_ended (runOnce attempt now))) eqn:Hc; simpl.
  { exists attempt, now. split; [constructor|]. repeat split; first [lia | tauto]. }
  destruct (Z.ltb_spec 0 (backoff attempt)).
  - destruct (cancelled (TimeAdd _ _)) eqn:Hc'; simpl.
    + exists attempt, now. split; [constructor|]. split; [done|]. split; [lia|]. right; right.
      unfold cancelled in *. destruct cancelled_at; simpl; [lia|done].
    + destruct (IH (attempt + 1) (TimeAdd (rs_ended (runOnce attempt now)) (backoff attempt))) as (k & t & Ha & He & Hk & Hr).
      exists k, t. split; [eapply attempts_next; eauto; unfold TimeAdd; lia|]. split; [done|]. split; [lia|].
      destruct Hr as [|[]]; [tauto|right; left; lia|tauto].
  - destruct (IH (attempt + 1) (rs_ended (runOnce attempt now))) as (k & t & Ha & He & Hk & Hr).
    exists k, t. split; [eapply attempts_next; eauto; lia|]. split; [done|]. split; [lia|].
    destruct Hr as [|[]]; [tauto|right; left; lia|tauto].
Qed.

(** a run returns the result of its last attempt, every attempt before it
    having failed; it makes at most one attempt more than the job's retries
    (one when they are negative), and stops short of that only on a success
    or on a cancelled context. *)
Theorem run_attempts (j : Job) (now : Time) : exists k t,
  attempts_from 1 now k t /\ fst (run j now) = runOnce k t /\ 1 <= k <= max_attempts j /\
  (rs_status (runOnce k t) = StatusSucceeded \/ k = max_attempts j \/ cancelled (snd (run j now)) = true).
Proof.
  assert (1 <= max_attempts j) by (unfold max_attempts; destruct (Z.ltb_spec (wrap64 (j_max_retries j + 1)) 1); lia).
  destruct (run_from_attempts (Z.to_nat (max_attempts j - 1)) 1 now) as (k & t & Ha & He & Hk & Hr).
  exists k, t. split; [done|]. split; [done|]. split; [lia|]. destruct Hr as [|[]]; [tauto|right; left; lia|tauto].
Qed.

End Executor.

(** A job of three attempts with a ten-second timeout, the first two of which time out. *)
Definition flaky_job : Job :=
  {| j_id := 1; j_org := 1; j_name := "backup"; j_type := Shell; j_command := "true"; j_http_url := "";
     j_http_method := ""; j_http_body := ""; j_cron := ""; j_interval_seconds := 60; j_run_at := zero_time;
     j_timeout_seconds := 10; j_max_retries := 2; j_enabled := true; j_env := ∅; j_spec := None;
     j_next_run_at := zero_time; j_created_at := zero_time; j_updated_at := zero_time |}.

Definition flaky_once (attempt : Z) (t : Time) : RunResult :=
  {| rs_status := if attempt <=? 2 then StatusTimedOut else StatusSucceeded; rs_exit_code := 0; rs_output := [];
     rs_truncated := false; rs_attempt := attempt; rs_started := t; rs_ended := t + 11 * Second |}.

Lemma run_within_limit_witness :
  snd (run None flaky_once None flaky_job Hour) - Hour <= maxRunDuration None flaky_job.
Proof.
  apply (run_within_limit None flaky_once None flaky_job Hour).
  - intros attempt t. unfold flaky_once. simpl. change (attempt_timeout flaky_job + grace flaky_job) with (15 * Second).
    unfold Second. lia.
  - reflexivity.
Defined.
