(* ===== verification/Failure.v ===== *)
(** * The detail of a failed run ([internal/jobs/failure.go])

    What a run.failed says beyond its payload: the verdict a probe's output
    opens with and the tail of the rest, computed from the stored output. *)
From S2P Require Import Prelude GoTime Domain Tail Executor.
Open Scope Z_scope.

(** [strings.HasPrefix] and [strings.TrimSuffix]. *)
Definition has_prefix (s p : bytes) : bool := bool_decide (take (List.length p) s = p).
Definition trim_suffix (s p : bytes) : bytes :=
  if bool_decide (lastn (List.length p) s = p) then take (List.length s - List.length p) s else s.

(** [strings.TrimLeft(s, "\n")]. *)
Definition trim_left_nl (s : bytes) : bytes := drop_while (fun c => Ascii.eqb c nl) s.

(** [strings.Cut(s, "\n\n")]: what comes before and after the first empty line. *)
Fixpoint cut_paragraph (s : bytes) : bytes * bytes :=
  match s with
  | [] => ([], [])
  | c :: r =>
      match r with
      | d :: r' =>
          if Ascii.eqb c nl && Ascii.eqb d nl then ([], r')
          else let '(a, b) := cut_paragraph r in (c :: a, b)
      | [] => ([c], [])
      end
  end.

(** [dropLastLine]. *)
Definition dropLastLine (s : bytes) : bytes :=
  match drop_while (fun c => negb (Ascii.eqb c nl)) (rev s) with
  | [] => []
  | _ :: r => rev r
  end.

Definition is_empty_failure (d : FailureDetail) : bool :=
  bool_decide (fd_verdict d = []) && bool_decide (fd_output d = []) && negb (fd_truncated d)
  && (fd_timeout_seconds d =? 0) && (fd_http_status d =? 0) && (FailedRuns (fd_streak d) =? 0)
  && IsZero (FailingSince (fd_streak d)).

(** [encodeFailure]. *)
Definition encodeFailure (typ : JobType) (timeout_seconds : Z) (status : RunStatus) (exitCode : Z) (out : bytes)
    (truncated verdictFirst : bool) : Detail :=
  let http := bool_decide (typ = HTTP) && has_prefix out (bstr "HTTP ") in
  let httpStatus := if http then exitCode else 0 in
  let out := if http then [] else out in
  let out := if truncated then dropLastLine (trim_suffix out truncationMarker) else out in
  let '(verdict, out) :=
    if verdictFirst then
      let '(verdict, rest) := cut_paragraph (trim_left_nl out) in (HeadLines verdict MaxOutputTailLines, rest)
    else ([], out) in
  let d := {| fd_verdict := verdict; fd_output := TailLines out MaxOutputTailLines; fd_truncated := truncated;
              fd_timeout_seconds :=
                if bool_decide (status = StatusTimedOut) then
                  let timeout := seconds timeout_seconds in
                  Z.quot (if timeout <=? 0 then DefaultTimeout else timeout) Second
                else 0;
              fd_http_status := httpStatus; fd_streak := no_streak |} in
  if is_empty_failure d then DtNone else DtFailure d.

(** [failureDetail]. *)
Definition failureDetail (job : Job) (status : RunStatus) (exitCode : Z) (out : bytes) (truncated : bool) : Detail :=
  encodeFailure (j_type job) (j_timeout_seconds job) status exitCode out truncated (givesVerdict (j_type job)).

(** [UnreadableFailureDetail]. *)
Definition UnreadableFailureDetail (output : bytes) : Detail :=
  encodeFailure (OtherType "") 0 StatusFailed (-1) output false true.

(** ** What an alert's detail can hold *)

Lemma length_back_to_start head cut : (back_to_start head cut <= cut)%nat.
Proof. induction cut as [|cut IH]; simpl; [lia|]. split_matches; lia. Qed.

Lemma length_cap_head h : (List.length (cap_head h) <= OutputTailBytes)%nat.
Proof.
  unfold cap_head. destruct (Nat.ltb_spec OutputTailBytes (List.length h)); [|done].
  rewrite length_take. pose proof (length_back_to_start h OutputTailBytes). lia.
Qed.

Lemma length_HeadLines s n : (List.length (HeadLines s n) <= OutputTailBytes)%nat.
Proof. unfold HeadLines. destruct (_ || _); [simpl; lia|]. apply length_cap_head. Qed.

(** the response an http job got is never in its alert: when the stored
    output opens with the response's status line, the detail has neither a
    verdict nor an output, and keeps the status. *)
Theorem failureDetail_http (job : Job) (status : RunStatus) (exitCode : Z) (body : bytes) (truncated : bool) d :
  j_type job = HTTP ->
  failureDetail job status exitCode (bstr "HTTP " ++ body) truncated = DtFailure d ->
  fd_verdict d = [] /\ fd_output d = [] /\ fd_http_status d = exitCode.
Proof.
  intros Ht. unfold failureDetail, encodeFailure. rewrite Ht. unfold has_prefix.
  rewrite (bool_decide_eq_true_2 (HTTP = HTTP)) by done. rewrite take_app_length.
  rewrite (bool_decide_eq_true_2 (bstr "HTTP " = bstr "HTTP ")) by done. simpl.
  assert (Hd : (if truncated then dropLastLine (trim_suffix [] truncationMarker) else []) = []) by by destruct truncated.
  rewrite Hd. split_ifs; intros [= <-]; simpl; done.
Qed.

Lemma failureDetail_size_detail job status exitCode out truncated d :
  failureDetail job status exitCode out truncated = DtFailure d ->
  (List.length (fd_verdict d) <= OutputTailBytes)%nat /\ (List.length (fd_output d) <= OutputTailBytes)%nat.
Proof.
  unfold failureDetail, encodeFailure. destruct (givesVerdict (j_type job)).
  - destruct (cut_paragraph _) as [v r]. destruct (is_empty_failure _); [done|]. intros [= <-]. simpl.
    split; [apply length_HeadLines|apply length_TailLines].
  - destruct (is_empty_failure _); [done|]. intros [= <-]. simpl. split; [unfold OutputTailBytes; lia|apply length_TailLines].
Qed.

(** The detail of a timed-out run names the timeout its attempts were given. *)
Lemma failureDetail_timeout job out truncated :
  failureDetail job StatusTimedOut 0 out truncated <> DtNone.
Proof.
  unfold failureDetail, encodeFailure. destruct (if givesVerdict (j_type job) then _ else _) as [v r].
  destruct (is_empty_failure _) eqn:E; [|done]. exfalso.
  unfold is_empty_failure in E. bsimpl.
  repeat match goal with H : _ /\ _ |- _ => destruct H end. simpl in *.
  pose proof (attempt_timeout_range job) as Hr. unfold attempt_timeout in Hr.
  match goal with H : Z.quot ?x Second = 0 |- _ => assert (Hq : Second <= x); [|pose proof (Z.quot_le_mono Second x Second ltac:(done) Hq) as Hm; rewrite H in Hm; vm_compute in Hm; congruence] end.
  destruct (Z.leb_spec (seconds (j_timeout_seconds job)) 0) as [|Hp]; [vm_compute; congruence|].
  unfold seconds in *. set (q := Z.quot forever Second) in *. assert (Hq : q = 9223372036) by reflexivity.
  destruct (Z.ltb_spec q (j_timeout_seconds job)); [vm_compute; congruence|].
  destruct (Z.ltb_spec (j_timeout_seconds job) (- q)); [vm_compute in Hp; congruence|].
  destruct (Z.le_gt_cases 0 (j_timeout_seconds job)).
  - rewrite secs_small in * by (change max_secs with 9223372036; lia). unfold Second in *. lia.
  - exfalso. unfold secs in Hp. rewrite wrap64_id in Hp; [unfold Second in Hp; lia|].
    unfold int64_range, min_int64, max_int64, Second. lia.
Qed.

(** An http job whose server answered 503 with a token in its body. *)
Definition http_job : Job :=
  {| j_id := 1; j_org := 1; j_name := "ping"; j_type := HTTP; j_command := ""; j_http_url := "https://x/?t=s3cret";
     j_http_method := ""; j_http_body := ""; j_cron := ""; j_interval_seconds := 60; j_run_at := zero_time;
     j_timeout_seconds := 10; j_max_retries := 0; j_enabled := true; j_env := ∅; j_spec := None;
     j_next_run_at := zero_time; j_created_at := zero_time; j_updated_at := zero_time |}.

Lemma failureDetail_http_witness :
  exists d, failureDetail http_job StatusFailed 503 (bstr "HTTP " ++ bstr "503 /?t=s3cret") false = DtFailure d /\
    (fd_verdict d = [] /\ fd_output d = [] /\ fd_http_status d = 503).
Proof.
  eexists. split; [vm_compute; reflexivity|].
  apply (failureDetail_http http_job StatusFailed 503 (bstr "503 /?t=s3cret") false); reflexivity.
Defined.
