(* ===== verification/Redact.v ===== *)
(** * Redaction of secrets ([redact] of [internal/jobs/runner.go])

    [redact] collects the spans of bytes the secrets cover, sorts them and
    rewrites the text in one pass. Its reference is [redact_mask], the obvious
    slow way: mark every byte any secret covers, then turn each run of marked
    bytes into three stars. *)
From stdpp Require Import sorting.
From S2P Require Import Prelude Executor Failure.
Open Scope nat_scope.

Abbreviation span := (nat * nat)%type.

Definition stars : bytes := bstr "***".

(** [strings.Index]. *)
Fixpoint Index (s v : bytes) : option nat :=
  if has_prefix s v then Some O else match s with [] => None | _ :: r => S <$> Index r v end.

(** A match joins the last span when it overlaps it or starts at its end.
    (Spans are kept latest first; the code appends.) *)
Definition add_span (spans : list span) (start stop : nat) : list span :=
  match spans with
  | (a, b) :: r => if (start <=? b) && (a <=? start) then (a, Nat.max b stop) :: r else (start, stop) :: spans
  | [] => [(start, stop)]
  end.

(** The inner loop: every occurrence of [v] at or after [i]. *)
Fixpoint find_spans (fuel : nat) (s v : bytes) (i : nat) (spans : list span) : list span :=
  match fuel with
  | O => spans
  | S f =>
      match Index (drop i s) v with
      | None => spans
      | Some j => find_spans f s v (i + j + 1) (add_span spans (i + j) (i + j + List.length v))
      end
  end.

Definition is_nil (v : bytes) : bool := match v with [] => true | _ => false end.

Definition secret_spans (s : bytes) (vs : list bytes) : list span :=
  fold_left (fun spans v => if is_nil v then spans else find_spans (S (List.length s)) s v 0 spans) vs [].

Definition span_le (a b : span) : Prop := fst a <= fst b.
#[export] Instance span_le_dec a b : Decision (span_le a b).
Proof. unfold span_le. apply _. Defined.

(** [s[i:j]]. *)
Definition slice (s : bytes) (i j : nat) : bytes := take (j - i) (drop i s).

(** The final loop, with [last] and [cur]. *)
Fixpoint write_spans (s : bytes) (last : nat) (cur : span) (l : list span) : bytes :=
  match l with
  | [] => slice s last (fst cur) ++ stars ++ drop (snd cur) s
  | sp :: l' =>
      if fst sp <=? snd cur then write_spans s last (fst cur, Nat.max (snd cur) (snd sp)) l'
      else slice s last (fst cur) ++ stars ++ write_spans s (snd cur) sp l'
  end.

(** [redact]. [slices.SortFunc] may put spans that start together in any
    order; [write_sorted] below shows that the order does not matter. *)
Definition redact (s : bytes) (vs : list bytes) : bytes :=
  match merge_sort span_le (rev (secret_spans s vs)) with
  | [] => s
  | cur :: l => write_spans s 0 cur l
  end.

(** ** The reference *)

(** Secret [v] is in [s] at position [i]. *)
Definition occurs_at (s v : bytes) (i : nat) : Prop := v <> [] /\ has_prefix (drop i s) v = true.

Definition covered (s : bytes) (vs : list bytes) (p : nat) : bool :=
  existsb (fun v => existsb (fun i =>
    negb (is_nil v) && has_prefix (drop i s) v && (i <=? p) && (p <? i + List.length v)) (seq 0 (List.length s))) vs.

Fixpoint mask_from (m : nat -> bool) (prev : bool) (p : nat) (s : bytes) : bytes :=
  match s with
  | [] => []
  | c :: r => if m p then (if prev then [] else stars) ++ mask_from m true (S p) r
              else c :: mask_from m false (S p) r
  end.

Definition redact_mask (s : bytes) (vs : list bytes) : bytes := mask_from (covered s vs) false 0 s.

(** ** Occurrences *)

Lemma has_prefix_spec s v : has_prefix s v = true <-> exists t, s = v ++ t.
Proof.
  unfold has_prefix. rewrite bool_decide_eq_true. split.
  - intros E. exists (drop (List.length v) s). rewrite <- E at 1. by rewrite take_drop.
  - intros [t ->]. by rewrite take_app_length.
Qed.

Lemma occurs_at_bound s v i : occurs_at s v i -> i + List.length v <= List.length s /\ 0 < List.length v.
Proof.
  intros [Hv [t E]%has_prefix_spec]. assert (0 < List.length v) by (destruct v; [done|simpl; lia]).
  apply (f_equal List.length) in E. rewrite length_drop, length_app in E. lia.
Qed.

Lemma covered_spec s vs p : covered s vs p = true <->
  exists v i, v ∈ vs /\ occurs_at s v i /\ i <= p < i + List.length v.
Proof.
  unfold covered. rewrite existsb_exists. split.
  - intros (v & Hv & (i & Hi & H)%existsb_exists). apply list_elem_of_In in Hv.
    apply andb_true_iff in H as [[[Hn Hp]%andb_true_iff H1]%andb_true_iff H2].
    apply Nat.leb_le in H1. apply Nat.ltb_lt in H2. exists v, i. split; [done|split; [split; [by destruct v|done]|lia]].
  - intros (v & i & Hv & Ho & Hp). exists v. split; [by apply list_elem_of_In|]. apply existsb_exists. exists i.
    pose proof (occurs_at_bound _ _ _ Ho) as [Hb Hl]. destruct Ho as [Hn Hx]. split; [apply in_seq; lia|].
    rewrite Hx. destruct (Nat.leb_spec i p); [|lia]. destruct (Nat.ltb_spec p (i + List.length v)); [|lia]. by destruct v.
Qed.

Lemma Index_Some s v j : Index s v = Some j ->
  has_prefix (drop j s) v = true /\ forall k, k < j -> has_prefix (drop k s) v = false.
Proof.
  revert j. induction s as [|c r IH]; intros j; cbn [Index]; destruct (has_prefix _ v) eqn:E.
  - intros [= <-]. split; [done|lia].
  - done.
  - intros [= <-]. split; [done|lia].
  - destruct (Index r v) as [j'|]; [|done]. intros [= <-]. destruct (IH _ eq_refl) as [H1 H2]. split; [done|].
    intros [|k] Hk; [done|]. apply H2. lia.
Qed.

Lemma Index_None s v k : v <> [] -> Index s v = None -> has_prefix (drop k s) v = false.
Proof.
  intros Hv. revert k. induction s as [|c r IH]; intros k; cbn [Index]; destruct (has_prefix _ v) eqn:E; try done.
  - intros _. rewrite drop_nil. done.
  - destruct (Index r v) eqn:Ei; [done|]. intros _. destruct k as [|k]; [done|]. by apply IH.
Qed.

(** ** Spans *)

Definition in_spans (l : list span) (p : nat) : Prop := exists a b, (a, b) ∈ l /\ a <= p < b.
Definition spans_wf (n : nat) (l : list span) : Prop := forall a b, (a, b) ∈ l -> a < b <= n.

Lemma in_spans_nil p : ~ in_spans [] p.
Proof. intros (a & b & H & _). by apply elem_of_nil in H. Qed.

Lemma in_spans_cons a b l p : in_spans ((a, b) :: l) p <-> a <= p < b \/ in_spans l p.
Proof.
  unfold in_spans. split.
  - intros (x & y & [[= -> ->]|H]%elem_of_cons & Hp); [by left|right]. by exists x, y.
  - intros [Hp|(x & y & H & Hp)]; [exists a, b; split; [left|done]|exists x, y; split; [by right|done]].
Qed.

Lemma spans_wf_cons n a b l : spans_wf n ((a, b) :: l) <-> a < b <= n /\ spans_wf n l.
Proof.
  unfold spans_wf. setoid_rewrite elem_of_cons. split.
  - intros H. split; [apply H; by left|]. intros x y Hx. apply H. by right.
  - intros [H1 H2] x y [[= -> ->]|Hx]; auto.
Qed.

Lemma spans_wf_nil n : spans_wf n [].
Proof. intros a b H. by apply elem_of_nil in H. Qed.

Lemma in_spans_equiv l l' p : l ≡ₚ l' -> in_spans l p <-> in_spans l' p.
Proof. intros H. unfold in_spans. by setoid_rewrite H. Qed.

Lemma add_span_spec n spans start stop : start < stop <= n -> spans_wf n spans ->
  spans_wf n (add_span spans start stop) /\
  forall p, in_spans (add_span spans start stop) p <-> start <= p < stop \/ in_spans spans p.
Proof.
  intros Hs Hw. unfold add_span. destruct spans as [|[a b] r].
  - rewrite spans_wf_cons. split; [done|]. intros p. apply in_spans_cons.
  - destruct (_ && _) eqn:E.
    + apply andb_true_iff in E as [E1%Nat.leb_le E2%Nat.leb_le]. rewrite spans_wf_cons in *. split; [split; [lia|tauto]|].
      intros p. rewrite !in_spans_cons. assert (a <= p < Nat.max b stop <-> start <= p < stop \/ a <= p < b) by lia. tauto.
    + split; [rewrite spans_wf_cons; done|]. intros p. apply in_spans_cons.
Qed.

Lemma find_spans_spec s v : v <> [] -> forall f i spans, List.length s < f + i -> spans_wf (List.length s) spans ->
  spans_wf (List.length s) (find_spans f s v i spans) /\
  forall p, in_spans (find_spans f s v i spans) p <->
    in_spans spans p \/ exists k, i <= k /\ occurs_at s v k /\ k <= p < k + List.length v.
Proof.
  intros Hv f. induction f as [|f IH]; intros i spans Hf Hw; cbn [find_spans].
  - split; [done|]. intros p. split; [tauto|]. intros [?|(k & Hk & Ho & _)]; [done|].
    apply occurs_at_bound in Ho. lia.
  - destruct (Index (drop i s) v) as [j|] eqn:E.
    + destruct (Index_Some _ _ _ E) as [Hj Hmin]. rewrite drop_drop in Hj.
      assert (Ho : occurs_at s v (i + j)) by done. pose proof (occurs_at_bound _ _ _ Ho) as [Hb Hl].
      destruct (add_span_spec (List.length s) spans (i + j) (i + j + List.length v) ltac:(lia) Hw) as [Hw' Hs].
      destruct (IH (i + j + 1) _ ltac:(lia) Hw') as [H1 H2]. split; [done|]. intros p. rewrite H2, Hs. split.
      * intros [[?|?]|(k & Hk & ?)]; [right; exists (i + j)|by left|right; exists k]; (split; [lia|done]).
      * intros [?|(k & Hk & Ho' & Hp)]; [tauto|]. destruct (Nat.lt_trichotomy k (i + j)) as [Hlt|[->|Hgt]]; [|tauto|].
        { exfalso. destruct Ho' as [_ Ho']. specialize (Hmin (k - i) ltac:(lia)). rewrite drop_drop in Hmin.
          replace (i + (k - i)) with k in Hmin by lia. congruence. }
        right. exists k. split; [lia|done].
    + split; [done|]. intros p. split; [tauto|]. intros [?|(k & Hk & [_ Ho] & _)]; [done|].
      apply (Index_None _ _ (k - i)) in E; [|done]. rewrite drop_drop in E.
      replace (i + (k - i)) with k in E by lia. congruence.
Qed.

(** The spans cover exactly the bytes of the secrets. *)
Lemma secret_spans_spec s vs : spans_wf (List.length s) (secret_spans s vs) /\
  forall p, in_spans (secret_spans s vs) p <-> covered s vs p = true.
Proof.
  setoid_rewrite covered_spec. unfold secret_spans.
  enough (H : forall spans, spans_wf (List.length s) spans ->
    let l := fold_left (fun spans v => if is_nil v then spans else find_spans (S (List.length s)) s v 0 spans) vs spans in
    spans_wf (List.length s) l /\
    forall p, in_spans l p <-> in_spans spans p \/ exists v i, v ∈ vs /\ occurs_at s v i /\ i <= p < i + List.length v).
  { destruct (H [] (spans_wf_nil _)) as [H1 H2]. split; [done|]. intros p. rewrite H2.
    split; [intros [?%in_spans_nil|]; done|tauto]. }
  induction vs as [|v vs IH]; intros spans Hw; cbn [fold_left].
  { split; [done|]. intros p. split; [tauto|]. intros [?|(v & i & Hv & _)]; [done|]. by apply elem_of_nil in Hv. }
  assert (Hstep : exists spans', (if is_nil v then spans else find_spans (S (List.length s)) s v 0 spans) = spans' /\
    spans_wf (List.length s) spans' /\
    forall p, in_spans spans' p <-> in_spans spans p \/ exists i, occurs_at s v i /\ i <= p < i + List.length v).
  { eexists. split; [done|]. destruct v as [|c v].
    - split; [done|]. intros p. split; [tauto|]. intros [?|(i & [? _] & _)]; done.
    - cbn [is_nil]. destruct (find_spans_spec s (c :: v) ltac:(done) (S (List.length s)) 0 spans ltac:(lia) Hw) as [H1 H2].
      split; [done|]. intros p. rewrite H2. split; (intros [?|(k & Hk)]; [by left|right; exists k]); intuition lia. }
  destruct Hstep as (spans' & -> & Hw' & Hs). destruct (IH _ Hw') as [H1 H2]. split; [done|]. intros p. rewrite H2, Hs. split.
  - intros [[?|(i & ?)]|(v' & i & ? & ?)]; [by left| |]; right; [exists v, i; split; [left|done]|].
    exists v', i. split; [by right|done].
  - intros [?|(v' & i & [->|Hv]%elem_of_cons & ?)]; [tauto| |].
    + left. right. by exists i.
    + right. by exists v', i.
Qed.

(** ** Masks *)

Lemma mask_app m prev p s t : s <> [] ->
  mask_from m prev p (s ++ t) = mask_from m prev p s ++ mask_from m (m (p + List.length s - 1)) (p + List.length s) t.
Proof.
  revert prev p. induction s as [|c s IH]; intros prev p; [done|]. intros _. cbn [mask_from app List.length].
  replace (p + S (List.length s)) with (S p + List.length s) by lia.
  destruct s as [|d s]; [|destruct (m p); rewrite IH by done; simpl; by rewrite ?app_assoc].
  simpl. replace (p + 0) with p by lia. replace (p - 0) with p by lia.
  destruct (m p); simpl; by rewrite ?app_nil_r.
Qed.

Lemma mask_clear m prev p s : (forall q, p <= q < p + List.length s -> m q = false) -> mask_from m prev p s = s.
Proof.
  revert prev p. induction s as [|c s IH]; intros prev p H; simpl in *; [done|]. rewrite H by lia.
  f_equal. apply IH. intros q Hq. apply H. lia.
Qed.

Lemma mask_covered_true m p s : (forall q, p <= q < p + List.length s -> m q = true) -> mask_from m true p s = [].
Proof.
  revert p. induction s as [|c s IH]; intros p H; simpl in *; [done|]. rewrite H by lia.
  apply IH. intros q Hq. apply H. lia.
Qed.

Lemma mask_covered m p s : s <> [] -> (forall q, p <= q < p + List.length s -> m q = true) ->
  mask_from m false p s = stars.
Proof.
  destruct s as [|c s]; [done|]. intros _ H. cbn [mask_from]. rewrite H by (simpl; lia).
  rewrite mask_covered_true; [by rewrite app_nil_r|]. intros q Hq. apply H. simpl. lia.
Qed.

(** Masking a covered stretch [a, b) that follows an uncovered one. *)
Lemma mask_step m prev last a b s : last <= a < b -> b <= List.length s -> (last = a -> prev = false) ->
  (forall q, last <= q < a -> m q = false) -> (forall q, a <= q < b -> m q = true) ->
  mask_from m prev last (drop last s) = slice s last a ++ stars ++ mask_from m true b (drop b s).
Proof.
  intros Ha Hb Hp Hc Hm. unfold slice.
  assert (E : drop last s = take (a - last) (drop last s) ++ take (b - a) (drop a s) ++ drop b s).
  { rewrite <- (take_drop (a - last) (drop last s)) at 1. f_equal. rewrite drop_drop.
    replace (last + (a - last)) with a by lia. rewrite <- (take_drop (b - a) (drop a s)) at 1. f_equal.
    rewrite drop_drop. f_equal. lia. }
  rewrite E at 1. set (u := take (a - last) (drop last s)). set (w := take (b - a) (drop a s)).
  assert (Hu : List.length u = a - last) by (unfold u; rewrite length_take, length_drop; lia).
  assert (Hw : List.length w = b - a) by (unfold w; rewrite length_take, length_drop; lia).
  assert (Hn : w <> []) by (intros ->; simpl in Hw; lia).
  assert (Hrest : mask_from m false a (w ++ drop b s) = stars ++ mask_from m true b (drop b s)).
  { rewrite mask_app, Hw by done. replace (a + (b - a)) with b by lia. rewrite (Hm (b - 1)) by lia.
    rewrite mask_covered; [done|done|]. intros q Hq. apply Hm. lia. }
  destruct (decide (last = a)) as [->|Hne].
  - rewrite Hp by done. replace (a - a) with 0 in Hu by lia. apply length_zero_iff_nil in Hu. rewrite Hu. done.
  - rewrite mask_app by (intros E'; rewrite E' in Hu; simpl in Hu; lia). rewrite Hu.
    replace (last + (a - last)) with a by lia. rewrite Hc by lia. rewrite Hrest.
    rewrite mask_clear; [done|]. intros q Hq. apply Hc. lia.
Qed.

(** The final loop, on any sorted list of spans, masks what they cover. *)
Lemma write_sorted s m l : forall last prev a b,
  StronglySorted span_le ((a, b) :: l) -> spans_wf (List.length s) ((a, b) :: l) -> last <= a -> (last = a -> prev = false) ->
  (forall p, last <= p -> m p = true <-> in_spans ((a, b) :: l) p) ->
  write_spans s last (a, b) l = mask_from m prev last (drop last s).
Proof.
  induction l as [|[a' b'] l IH]; intros last prev a b Hs Hw Hl Hp Hm; cbn [write_spans fst snd].
  - apply spans_wf_cons in Hw as [Hw _]. rewrite (mask_step m prev last a b); try lia; auto.
    + rewrite (mask_clear m true b); [done|]. intros q [Hq _]. apply not_true_iff_false. rewrite Hm by lia.
      rewrite in_spans_cons. intros [?|?%in_spans_nil]; [lia|done].
    + intros q Hq. apply not_true_iff_false. rewrite Hm by lia. rewrite in_spans_cons. intros [?|?%in_spans_nil]; [lia|done].
    + intros q Hq. apply Hm; [lia|]. rewrite in_spans_cons. lia.
  - apply StronglySorted_inv in Hs as [Hs Ha]. inversion Ha as [|? ? Hle Ha']; subst. unfold span_le in Hle. simpl in Hle.
    apply spans_wf_cons in Hw as [Hw1 Hw]. pose proof Hw as [Hw2 Hw3]%spans_wf_cons.
    destruct (Nat.leb_spec a' b).
    + apply IH; try done.
      * apply StronglySorted_inv in Hs as [Hs _]. by constructor.
      * rewrite spans_wf_cons. split; [lia|done].
      * intros p Hp'. rewrite Hm, !in_spans_cons by done.
        assert (a <= p < Nat.max b b' <-> a <= p < b \/ a' <= p < b') by lia. tauto.
    + assert (Hlt : forall x y, (x, y) ∈ (a', b') :: l -> b < x).
      { intros x y [[= -> ->]|Hx]%elem_of_cons; [done|]. apply StronglySorted_inv in Hs as [_ Hs].
        rewrite Forall_elem in Hs. specialize (Hs _ Hx). unfold span_le in Hs. simpl in Hs. lia. }
      rewrite (mask_step m prev last a b); try lia; auto.
      * do 2 f_equal. apply IH; [done|done|lia|lia|].
        intros p Hp'. rewrite Hm, in_spans_cons by lia. split; [intros [?|?]; [lia|done]|tauto].
      * intros q Hq. apply not_true_iff_false. rewrite Hm, in_spans_cons by lia. intros [?|(x & y & Hx & ?)]; [lia|].
        apply Hlt in Hx. lia.
      * intros q Hq. apply Hm; [lia|]. rewrite in_spans_cons. lia.
Qed.

#[export] Instance span_le_trans : Transitive span_le.
Proof. intros a b c. unfold span_le. lia. Qed.
#[export] Instance span_le_total : Total span_le.
Proof. intros a b. unfold span_le. lia. Qed.

(** C16: [redact] is the obvious slow way of redacting: every byte that any
    occurrence of a non-empty secret covers goes, and each run of such bytes,
    however many secrets overlap or touch in it, becomes one "***"; nothing
    else of the text changes. *)
Theorem redact_spec (s : bytes) (vs : list bytes) : redact s vs = redact_mask s vs.
Proof.
  unfold redact, redact_mask. destruct (secret_spans_spec s vs) as [Hw Hs].
  pose proof (merge_sort_Permutation span_le (rev (secret_spans s vs))) as Hp.
  pose proof (StronglySorted_merge_sort span_le (rev (secret_spans s vs))) as Hsort.
  assert (Hp' : merge_sort span_le (rev (secret_spans s vs)) ≡ₚ secret_spans s vs).
  { rewrite Hp. symmetry. apply Permutation_rev. }
  clear Hp. destruct (merge_sort _ _) as [|[a b] l].
  - rewrite mask_clear; [done|]. intros q _. apply not_true_iff_false. rewrite <- Hs.
    rewrite <- (in_spans_equiv _ _ _ Hp'). apply in_spans_nil.
  - rewrite <- (drop_0 s) at 3. apply write_sorted; [done| |lia|done|].
    + intros x y Hx. apply Hw. by rewrite <- Hp'.
    + intros p _. rewrite <- Hs. by rewrite (in_spans_equiv _ _ _ Hp').
Qed.

Lemma mask_ext m m' prev p s : (forall q, m q = m' q) -> mask_from m prev p s = mask_from m' prev p s.
Proof. intros H. revert prev p. induction s as [|c s IH]; intros prev p; simpl; [done|]. rewrite H, !IH. done. Qed.

(** So the order the secrets come in (a job's env is a map) does not matter. *)
Lemma redact_order s vs vs' : vs ≡ₚ vs' -> redact s vs = redact s vs'.
Proof.
  intros Hp. rewrite !redact_spec. apply mask_ext. intros p. apply eq_true_iff_eq. rewrite !covered_spec.
  by setoid_rewrite Hp.
Qed.
