(* ===== verification/Capture.v ===== *)
(** * Captured output ([internal/jobs]: [capture.go], the captures of
    [executor.go], [drill.go] and [probe.go], [storedOutput] of [runner.go])

    What a job prints is captured up to a size, its secrets are redacted, and
    the text that is stored is made valid UTF-8 within the size limit. A cut
    is made in the captured bytes, around any secret across it, before the
    secrets are redacted. *)
From stdpp Require Import pretty.
From S2P Require Import Prelude Tail Utf8 Executor Failure Redact.
Open Scope nat_scope.

(** ** Cuts ([capture.go]) *)

(** [trimPartialRune]: the loop from [i] on, with [n] rounds left. *)
Fixpoint trim_from (n i : nat) (b : bytes) : bytes :=
  match n with
  | O => b
  | S n' =>
      if i <=? List.length b then
        let start := List.length b - i in
        match drop start b with
        | c :: _ => if RuneStart c then (if FullRune (drop start b) then b else take start b) else trim_from n' (S i) b
        | [] => b
        end
      else b
  end.
Definition trimPartialRune (b : bytes) : bytes := trim_from 3 1 b.

(** The loop of [headOf] over one secret, from [i] on. *)
Fixpoint extend_head (fuel : nat) (b : bytes) (n : nat) (v : bytes) (hi i stop : nat) : nat :=
  match fuel with
  | O => stop
  | S f =>
      if i <? n then
        match Index (slice b i hi) v with
        | None => stop
        | Some a => if n <=? i + a then stop
                    else extend_head f b n v hi (i + a + 1) (Nat.max stop (i + a + List.length v))
        end
      else stop
  end.

Definition head_end (b : bytes) (n : nat) (secrets : list bytes) : nat :=
  fold_left (fun stop v =>
    if List.length v <? 2 then stop
    else extend_head (S n) b n v (Nat.min (List.length b) (n + List.length v - 1)) (n + 1 - List.length v) stop)
    secrets n.

(** [headOf]. *)
Definition headOf (b : bytes) (n : nat) (secrets : list bytes) (lost : bool) : bytes * bool :=
  if List.length b <=? n then (if lost then (trimPartialRune b, true) else (b, false))
  else
    let stop := head_end b n secrets in
    if stop =? n then (trimPartialRune (take stop b), true) else (take stop b, true).

(** The loop of [tailOf] over one secret. *)
Fixpoint extend_tail (fuel : nat) (b : bytes) (at_ : nat) (v : bytes) (hi i start : nat) : nat :=
  match fuel with
  | O => start
  | S f =>
      if i <? at_ then
        match Index (slice b i hi) v with
        | None => start
        | Some j => if at_ <=? i + j then start
                    else extend_tail f b at_ v hi (i + j + 1) (Nat.min start (i + j))
        end
      else start
  end.

Definition tail_start (b : bytes) (at_ : nat) (secrets : list bytes) : nat :=
  fold_left (fun start v =>
    if List.length v <? 2 then start
    else extend_tail (S at_) b at_ v (Nat.min (List.length b) (at_ + List.length v - 1)) (at_ + 1 - List.length v) start)
    secrets at_.

(** [tailOf]. *)
Definition tailOf (b : bytes) (n : nat) (secrets : list bytes) (lost : bool) : bytes * bool :=
  if List.length b <=? n then (if lost then (drop_cont b, true) else (b, false))
  else
    let at_ := List.length b - n in
    let start := tail_start b at_ secrets in
    if start =? at_ then (drop_cont (drop start b), true) else (drop start b, true).

(** [firstBytes] and [lastBytes]. *)
Definition firstBytes (s : bytes) (n : nat) : bytes := if List.length s <=? n then s else trimPartialRune (take n s).
Definition lastBytes (s : bytes) (n : nat) : bytes := if List.length s <=? n then s else drop_cont (lastn n s).

(** [secretMargin]. *)
Definition secretMargin (secrets : list bytes) : nat := fold_left (fun m v => Nat.max m (List.length v)) secrets 0.

(** [cutRedacted]. *)
Definition cutRedacted (b : bytes) (truncated : bool) (max : nat) (secrets : list bytes) (marker : bytes) : bytes :=
  let '(head, cut) := headOf b max secrets truncated in
  let s := redact head secrets in
  let '(s, cut) := if max <? List.length s then (firstBytes s max, true) else (s, cut) in
  if cut || truncated then s ++ marker else s.

(** ** The capture of a shell job ([executor.go]) *)

Definition nul : ascii := "000"%char.

(** [withoutNULs] and [dropNULs]. *)
Definition withoutNULs (p : bytes) : bytes := List.filter (fun c => negb (Ascii.eqb c nul)) p.
Definition dropNULs (s : bytes) : bytes := withoutNULs s.

Record cappedBuffer := { cb_buf : bytes; cb_max : nat; cb_truncated : bool }.
Definition new_capped (max : nat) : cappedBuffer := {| cb_buf := []; cb_max := max; cb_truncated := false |}.

(** [cappedBuffer.Write]. *)
Definition capped_write (c : cappedBuffer) (p : bytes) : cappedBuffer :=
  let p := withoutNULs p in
  let room := cb_max c - List.length (cb_buf c) in
  if 0 <? room then
    if room <? List.length p
    then {| cb_buf := cb_buf c ++ take room p; cb_max := cb_max c; cb_truncated := true |}
    else {| cb_buf := cb_buf c ++ p; cb_max := cb_max c; cb_truncated := cb_truncated c |}
  else {| cb_buf := cb_buf c; cb_max := cb_max c; cb_truncated := cb_truncated c || (0 <? List.length p) |}.

(** [cappedBuffer.String]. *)
Definition capped_String (c : cappedBuffer) : bytes :=
  if cb_truncated c then trimPartialRune (cb_buf c) ++ truncationMarker else cb_buf c.

(** [shellOutput]. *)
Definition shellOutput (c : cappedBuffer) (secrets : list bytes) : bytes :=
  if negb (cb_truncated c) then cb_buf c
  else fst (headOf (cb_buf c) (Z.to_nat maxOutputBytes) secrets true) ++ truncationMarker.

(** ** The capture of a drill step ([drill.go]) *)

(** [headTail]: [None] for the ring before it is made. *)
Record headTail := {
  ht_max : nat; ht_margin : nat; ht_head : bytes; ht_ring : option bytes; ht_pos : nat; ht_rest : nat;
}.
Definition new_headTail (max margin : nat) : headTail :=
  {| ht_max := max; ht_margin := margin; ht_head := []; ht_ring := None; ht_pos := 0; ht_rest := 0 |}.

Definition ht_keep (h : headTail) : nat := ht_max h + ht_margin h.

(** [copy(dst[i:], p)]: as many bytes as fit. *)
Definition copy_at (dst : bytes) (i : nat) (p : bytes) : bytes :=
  let k := Nat.min (List.length dst - i) (List.length p) in
  take i dst ++ take k p ++ drop (i + k) dst.

(** [headTail.Write]. *)
Definition ht_write (h : headTail) (p : bytes) : headTail :=
  let p := withoutNULs p in
  let keep := ht_keep h in
  let room := keep - List.length (ht_head h) in
  let k := if 0 <? room then Nat.min room (List.length p) else 0 in
  let head := ht_head h ++ take k p in
  let p := drop k p in
  if is_nil p then
    {| ht_max := ht_max h; ht_margin := ht_margin h; ht_head := head; ht_ring := ht_ring h;
       ht_pos := ht_pos h; ht_rest := ht_rest h |}
  else
    let ring := default (replicate keep nul) (ht_ring h) in
    let rest := ht_rest h + List.length p in
    if keep <=? List.length p then
      {| ht_max := ht_max h; ht_margin := ht_margin h; ht_head := head;
         ht_ring := Some (copy_at ring 0 (lastn keep p)); ht_pos := 0; ht_rest := rest |}
    else
      let k := Nat.min (List.length ring - ht_pos h) (List.length p) in
      {| ht_max := ht_max h; ht_margin := ht_margin h; ht_head := head;
         ht_ring := Some (copy_at (copy_at ring (ht_pos h) p) 0 (drop k p));
         ht_pos := (ht_pos h + List.length p) mod keep; ht_rest := rest |}.

(** [cutMiddle]. *)
Definition cutMiddle (head tail : bytes) (skipped : Z) : bytes :=
  trimPartialRune head ++ nl :: bstr "... [" ++ bstr (pretty skipped) ++ bstr " bytes skipped] ..." ++ nl :: drop_cont tail.

(** [headTail.text]. *)
Definition ht_text (h : headTail) (secrets : list bytes) : bytes :=
  let keep := ht_keep h in
  let ring := default [] (ht_ring h) in
  let tail := if ht_rest h <=? keep then take (ht_rest h) ring else drop (ht_pos h) ring ++ take (ht_pos h) ring in
  if ht_rest h <=? keep then
    let whole := redact (ht_head h ++ tail) secrets in
    if List.length whole <=? 2 * ht_max h then whole
    else cutMiddle (take (ht_max h) whole) (lastn (ht_max h) whole) (Z.of_nat (List.length whole - 2 * ht_max h))
  else
    let rawHead := fst (headOf (ht_head h) (ht_max h) secrets true) in
    let rawTail := fst (tailOf tail (ht_max h) secrets true) in
    let skipped := (Z.of_nat (ht_rest h) + Z.of_nat (List.length (ht_head h))
                    - Z.of_nat (List.length rawHead) - Z.of_nat (List.length rawTail))%Z in
    cutMiddle (firstBytes (redact rawHead secrets) (ht_max h)) (lastBytes (redact rawTail secrets) (ht_max h)) skipped.

(** ** The stored output ([runner.go]) *)

(** [cleanOutput]. *)
Definition cleanOutput (s : bytes) : bytes :=
  if ValidString s && negb (existsb (Ascii.eqb nul) s) then s else ToValidUTF8 (dropNULs s) FFFD.

(** [strings.Trim(c, "\uFFFD") != ""] of a valid [c]: it has another character than U+FFFD. *)
Definition says_something (c : bytes) : bool := existsb (fun r => negb (bool_decide (fst r = FFFD))) (chunks c).

(** The loop of [capOutput]. *)
Fixpoint back_to_rune (s : bytes) (cut : nat) : nat :=
  match cut with
  | O => O
  | S k => match drop cut s with c :: _ => if RuneStart c then cut else back_to_rune s k | [] => cut end
  end.

(** [capOutput]. *)
Definition capOutput (s : bytes) (truncated : bool) : bytes :=
  if (maxOutputBytes <? Z.of_nat (List.length s))%Z
  then take (back_to_rune s (Z.to_nat maxOutputBytes)) s ++ truncationMarker
  else if truncated then s ++ truncationMarker else s.

(** The secrets [storedOutput] matches byte for byte, and in their cleaned form. *)
Definition bytewise (secretValues : list bytes) : list bytes :=
  List.filter (fun b => negb (bool_decide (cleanOutput b = b))) (map dropNULs secretValues).
Definition cleaned (secretValues : list bytes) : list bytes :=
  List.filter says_something (map (fun v => cleanOutput (dropNULs v)) secretValues).

(** [storedOutput]. *)
Definition storedOutput (raw : bytes) (secretValues : list bytes) (truncated : bool) : bytes :=
  let raw := if truncated then trim_suffix raw truncationMarker else raw in
  capOutput (redact (cleanOutput (redact (dropNULs raw) (bytewise secretValues))) (cleaned secretValues)) truncated.

(** ** Captures do not depend on how the output was written *)

Lemma withoutNULs_app a b : withoutNULs (a ++ b) = withoutNULs a ++ withoutNULs b.
Proof. apply List.filter_app. Qed.

Lemma capped_writes ps : forall c S, cb_buf c = take (cb_max c) S -> cb_truncated c = (cb_max c <? List.length S) ->
  let c' := fold_left capped_write ps c in let S' := S ++ withoutNULs (mjoin ps) in
  cb_max c' = cb_max c /\ cb_buf c' = take (cb_max c) S' /\ cb_truncated c' = (cb_max c <? List.length S').
Proof.
  induction ps as [|p ps IH]; intros c S Hb Ht; cbn [fold_left mjoin list_join].
  { cbn. by rewrite app_nil_r. }
  assert (Hstep : cb_max (capped_write c p) = cb_max c /\
    cb_buf (capped_write c p) = take (cb_max c) (S ++ withoutNULs p) /\
    cb_truncated (capped_write c p) = (cb_max c <? List.length (S ++ withoutNULs p))).
  { unfold capped_write. set (q := withoutNULs p). rewrite Hb, length_take, length_app, take_app.
    destruct (Nat.ltb_spec 0 (cb_max c - Nat.min (cb_max c) (List.length S))) as [Hr|Hr]; simpl.
    - rewrite Nat.min_r by lia. rewrite (take_ge S) by lia.
      destruct (Nat.ltb_spec (cb_max c - List.length S) (List.length q)) as [Hq|Hq]; simpl.
      + split; [done|split; [done|]]. symmetry. apply Nat.ltb_lt. lia.
      + split; [done|split]; [by rewrite (take_ge q) by lia|]. rewrite Ht.
        destruct (Nat.ltb_spec (cb_max c) (List.length S)); [lia|]. symmetry. apply Nat.ltb_ge. lia.
    - rewrite Ht. replace (cb_max c - List.length S) with 0 by lia. rewrite take_0, app_nil_r. split; [done|split; [done|]].
      destruct (Nat.ltb_spec (cb_max c) (List.length S)), (Nat.ltb_spec 0 (List.length q)); simpl; symmetry;
        first [apply Nat.ltb_lt; lia|apply Nat.ltb_ge; lia]. }
  destruct Hstep as (H1 & H2 & H3). rewrite <- H1 in H2, H3. destruct (IH _ _ H2 H3) as (I1 & I2 & I3).
  rewrite withoutNULs_app, app_assoc. rewrite <- H1. done.
Qed.

(** What a capped buffer holds after any writes of an output. *)
Lemma capped_spec max ps : let c := fold_left capped_write ps (new_capped max) in let s := withoutNULs (mjoin ps) in
  cb_buf c = take max s /\ cb_truncated c = (max <? List.length s).
Proof.
  destruct (capped_writes ps (new_capped max) []) as (_ & H); cbn [new_capped cb_buf cb_max]; [by rewrite take_nil| |done].
  done.
Qed.

(** ** The ring of [headTail] *)

Lemma length_copy_at dst i p : List.length (copy_at dst i p) = List.length dst.
Proof. unfold copy_at. rewrite !length_app, !length_take, length_drop. lia. Qed.

Lemma copy_at_nil dst i : copy_at dst i [] = dst.
Proof. unfold copy_at. simpl. rewrite Nat.min_0_r, Nat.add_0_r. simpl. apply take_drop. Qed.

(** The ring read from its position on. *)
Definition unwound (ring : bytes) (pos : nat) : bytes := drop pos ring ++ take pos ring.

Lemma unwound_write ring pos p : pos < List.length ring -> List.length p < List.length ring ->
  let k := Nat.min (List.length ring - pos) (List.length p) in
  unwound (copy_at (copy_at ring pos p) 0 (drop k p)) ((pos + List.length p) mod List.length ring)
  = drop (List.length p) (unwound ring pos) ++ p.
Proof.
  intros Hp Hl k. destruct (Nat.lt_ge_cases (pos + List.length p) (List.length ring)) as [Hlt|Hge].
  - rewrite Nat.mod_small by lia. assert (Hk : k = List.length p) by lia. rewrite Hk, drop_ge by lia.
    rewrite copy_at_nil. unfold copy_at. fold k. rewrite Hk, (take_ge p) by lia.
    unfold unwound. rewrite drop_app_ge by (rewrite length_take; lia). rewrite length_take, Nat.min_l by lia.
    rewrite drop_app_ge by lia. rewrite drop_drop. replace (pos + List.length p - pos - List.length p) with 0 by lia.
    rewrite Nat.add_0_r, take_app_ge by (rewrite length_take; lia). rewrite length_take, Nat.min_l by lia.
    replace (pos + List.length p - pos) with (List.length p) by lia. rewrite take_app_length.
    rewrite (drop_app_le (drop pos ring)) by (rewrite length_drop; lia). rewrite drop_drop, app_assoc. done.
  - assert (Hm : (pos + List.length p) mod List.length ring = pos + List.length p - List.length ring).
    { symmetry. apply (Nat.mod_unique _ _ 1); lia. }
    rewrite Hm. assert (Hk : k = List.length ring - pos) by lia. set (m := pos + List.length p - List.length ring).
    assert (Hd : List.length (drop k p) = m) by (rewrite length_drop; lia).
    unfold copy_at at 1. rewrite length_copy_at, Nat.sub_0_r, take_0, Hd, Nat.min_r by lia. simpl.
    rewrite (take_ge (drop k p)) by lia.
    unfold copy_at. fold k. rewrite (drop_ge ring (pos + k)) by lia. rewrite app_nil_r.
    unfold unwound. rewrite drop_app_ge by lia. rewrite Hd, Nat.sub_diag, drop_0.
    rewrite (take_app_le (drop k p)), (take_ge (drop k p)) by lia.
    rewrite (drop_app_le (take pos ring)) by (rewrite length_take; lia).
    rewrite (drop_app_ge (drop pos ring)) by (rewrite length_drop; lia). rewrite length_drop.
    replace (List.length p - (List.length ring - pos)) with m by lia. rewrite <- app_assoc, take_drop. done.
Qed.

Lemma lastn_app_drop {A} n (a b : list A) : List.length b <= n -> List.length (lastn n a) = n ->
  lastn n (a ++ b) = drop (List.length b) (lastn n a) ++ b.
Proof.
  intros Hb Ha. unfold lastn in *. rewrite length_drop in Ha. rewrite length_app.
  rewrite drop_app_le by lia. rewrite drop_drop. do 2 f_equal. lia.
Qed.

(** The invariant of a capture of [s] so far. *)
Definition ht_inv (s : bytes) (h : headTail) : Prop :=
  let keep := ht_keep h in
  0 < keep /\ ht_head h = take keep s /\ ht_rest h = List.length s - keep /\
  match ht_ring h with
  | None => List.length s <= keep /\ ht_pos h = 0
  | Some ring => List.length ring = keep /\ ht_pos h < keep /\
                 unwound ring (ht_pos h) = lastn keep (replicate keep nul ++ drop keep s) /\
                 (ht_rest h <= keep -> ht_pos h = ht_rest h mod keep)
  end.

(** A prefix filled from the next piece: what of the piece fits ends it, the
    rest of the piece is beyond it. *)
Lemma take_fill (keep : nat) (s q : bytes) :
  take keep s ++ take (Nat.min (keep - List.length s) (List.length q)) q = take keep (s ++ q).
Proof.
  rewrite take_app. destruct (Nat.le_ge_cases (keep - List.length s) (List.length q)).
  - by rewrite Nat.min_l by lia.
  - rewrite Nat.min_r by lia. by rewrite !(take_ge q) by lia.
Qed.

Lemma drop_fill (keep : nat) (s q : bytes) :
  drop keep (s ++ q) = drop keep s ++ drop (Nat.min (keep - List.length s) (List.length q)) q.
Proof.
  rewrite drop_app. f_equal. destruct (Nat.le_ge_cases (keep - List.length s) (List.length q)).
  - by rewrite Nat.min_l by lia.
  - rewrite Nat.min_r by lia. by rewrite !(drop_ge q) by lia.
Qed.

Lemma ht_write_inv s h p : ht_inv s h -> ht_inv (s ++ withoutNULs p) (ht_write h p) /\
  ht_max (ht_write h p) = ht_max h /\ ht_margin (ht_write h p) = ht_margin h.
Proof.
  intros (Hk & Hh & Hr & Hi). unfold ht_write. set (q := withoutNULs p). set (keep := ht_keep h) in *.
  set (room := keep - List.length (ht_head h)).
  set (k := if 0 <? room then Nat.min room (List.length q) else 0).
  assert (Hkk : k = Nat.min (keep - List.length s) (List.length q)).
  { unfold k, room. rewrite Hh, length_take. destruct (Nat.ltb_spec 0 (keep - Nat.min keep (List.length s))); lia. }
  assert (Hhead : ht_head h ++ take k q = take keep (s ++ q)) by (rewrite Hh, Hkk; apply take_fill).
  assert (Htail : drop keep (s ++ q) = drop keep s ++ drop k q) by (rewrite Hkk; apply drop_fill).
  set (t := drop k q) in *.
  assert (Hlen : List.length (s ++ q) - keep = List.length s - keep + List.length t).
  { unfold t. rewrite length_drop, length_app. lia. }
  destruct (is_nil t) eqn:En.
  - destruct t; [|done]. split; [|done]. unfold ht_inv, ht_keep; simpl. fold (ht_keep h). fold keep.
    split; [done|split; [done|split; [rewrite Hlen; simpl; lia|]]]. rewrite Htail, app_nil_r.
    destruct (ht_ring h); [done|]. split; [|tauto]. simpl in Hlen. lia.
  - assert (Hring : exists ring, default (replicate keep nul) (ht_ring h) = ring /\ List.length ring = keep /\
      ht_pos h < keep /\ unwound ring (ht_pos h) = lastn keep (replicate keep nul ++ drop keep s) /\
      (ht_rest h <= keep -> ht_pos h = ht_rest h mod keep)).
    { destruct (ht_ring h) as [ring|]; simpl; eexists; (split; [done|]); [done|]. destruct Hi as [Hs Hpos].
      rewrite length_replicate, Hpos, (drop_ge s) by lia. split; [done|split; [done|]]. unfold unwound.
      rewrite drop_0, take_0, lastn_all by (rewrite app_nil_r, length_replicate; lia). split; [done|].
      intros _. rewrite Hr. replace (List.length s - keep) with 0 by lia. symmetry. apply Nat.Div0.mod_0_l. }
    destruct Hring as (ring & -> & Hl & Hp & Hu & Hpos). assert (Ht : 0 < List.length t) by (destruct t; [done|simpl; lia]).
    destruct (Nat.leb_spec keep (List.length t)) as [Hbig|Hsmall]; (split; [|done]);
      unfold ht_inv, ht_keep; simpl; fold (ht_keep h); fold keep;
      (split; [done|split; [done|split; [rewrite Hlen; lia|]]]); rewrite !length_copy_at; (split; [done|]); rewrite Htail, Hr.
    + split; [done|]. split.
      * unfold unwound, copy_at. rewrite drop_0, take_0, app_nil_r, Hl, Nat.sub_0_r, length_lastn. simpl.
        replace (keep `min` (keep `min` List.length t)) with keep by lia. rewrite (drop_ge ring) by lia.
        rewrite app_nil_r, take_ge by (rewrite length_lastn; lia).
        rewrite app_assoc. symmetry. apply lastn_app_le. lia.
      * intros Hle. replace (List.length s - keep + List.length t) with keep by lia. symmetry. apply Nat.Div0.mod_same.
    + split; [apply Nat.mod_upper_bound; lia|]. split.
      * pose proof (unwound_write ring (ht_pos h) t ltac:(lia) ltac:(lia)) as Hw. cbv zeta in Hw. rewrite Hl in Hw |- *.
        rewrite Hw, Hu, app_assoc. symmetry. apply lastn_app_drop; [lia|].
        rewrite length_lastn, length_app, length_replicate. lia.
      * intros Hle. rewrite Hpos by lia. rewrite Hr. rewrite Nat.Div0.add_mod_idemp_l. done.
Qed.

Lemma ht_writes_inv ps : forall s h, ht_inv s h ->
  let h' := fold_left ht_write ps h in
  ht_inv (s ++ withoutNULs (mjoin ps)) h' /\ ht_max h' = ht_max h /\ ht_margin h' = ht_margin h.
Proof.
  induction ps as [|p ps IH]; intros s h Hi; cbn [fold_left mjoin list_join].
  { cbn. by rewrite app_nil_r. }
  destruct (ht_write_inv s h p Hi) as (H1 & H2 & H3). destruct (IH _ _ H1) as (I1 & I2 & I3).
  rewrite withoutNULs_app, app_assoc. split; [done|]. split; congruence.
Qed.

(** The captured tail, read out of the ring. *)
Definition captured_tail (h : headTail) : bytes :=
  let ring := default [] (ht_ring h) in
  if ht_rest h <=? ht_keep h then take (ht_rest h) ring else unwound ring (ht_pos h).

Lemma captured_tail_spec s h : ht_inv s h -> captured_tail h = lastn (Nat.min (ht_keep h) (ht_rest h)) s.
Proof.
  unfold captured_tail. intros (Hk & Hh & Hr & Hi). set (keep := ht_keep h) in *.
  assert (HT : List.length (drop keep s) = ht_rest h) by (rewrite length_drop; lia).
  assert (Hlast : forall n, n <= ht_rest h -> lastn n (drop keep s) = lastn n s).
  { intros n Hn. rewrite <- (take_drop keep s) at 2. symmetry. apply lastn_app_le. lia. }
  destruct (Nat.leb_spec (ht_rest h) keep) as [Hle|Hgt].
  - rewrite Nat.min_r by lia. rewrite <- Hlast, lastn_all by lia.
    destruct (ht_ring h) as [ring|]; simpl.
    + destruct Hi as (Hl & Hp & Hu & Hpos). specialize (Hpos Hle).
      destruct (Nat.eq_dec (ht_rest h) keep) as [E|Hne].
      * rewrite E in Hpos. rewrite Nat.Div0.mod_same in Hpos. rewrite Hpos in Hu. unfold unwound in Hu.
        rewrite drop_0, take_0, app_nil_r in Hu. rewrite take_ge by lia. rewrite Hu.
        rewrite lastn_app_le by lia. apply lastn_all. lia.
      * rewrite Nat.mod_small in Hpos by lia. rewrite Hpos in Hu. unfold unwound in Hu.
        rewrite lastn_app_drop in Hu by (try lia; rewrite length_lastn, length_replicate; lia).
        apply app_inj_2 in Hu as [_ Hu]; [done|]. rewrite length_take, HT. lia.
    + destruct Hi as [Hs _]. assert (E : ht_rest h = 0) by lia. rewrite E in HT |- *. apply length_zero_iff_nil in HT.
      by rewrite HT.
  - rewrite Nat.min_l by lia. destruct (ht_ring h) as [ring|]; simpl; [|lia]. destruct Hi as (Hl & Hp & Hu & _).
    rewrite Hu, lastn_app_le by lia. apply Hlast. lia.
Qed.

(** ** The text of a capture *)

(** What a step's output [s], NULs dropped, is shown as. *)
Definition head_tail_text (max margin : nat) (s : bytes) (secrets : list bytes) : bytes :=
  let keep := max + margin in
  if List.length s <=? 2 * keep then
    let whole := redact s secrets in
    if List.length whole <=? 2 * max then whole
    else cutMiddle (take max whole) (lastn max whole) (Z.of_nat (List.length whole) - 2 * Z.of_nat max)
  else
    let rawHead := fst (headOf (take keep s) max secrets true) in
    let rawTail := fst (tailOf (lastn keep s) max secrets true) in
    cutMiddle (firstBytes (redact rawHead secrets) max) (lastBytes (redact rawTail secrets) max)
      (Z.of_nat (List.length s) - Z.of_nat (List.length rawHead) - Z.of_nat (List.length rawTail)).

(** The ring buffer of a drill step's capture is the obvious capture: in
    whatever pieces the step writes its output, what is shown is computed from
    the whole output, uncut when it fits twice the kept size, otherwise from
    its first and last kept bytes, with the exact number of bytes skipped. *)
Theorem headTail_text (max margin : nat) (ps : list bytes) (secrets : list bytes) : 0 < max ->
  ht_text (fold_left ht_write ps (new_headTail max margin)) secrets
  = head_tail_text max margin (dropNULs (mjoin ps)) secrets.
Proof.
  intros Hm. assert (Hi0 : ht_inv [] (new_headTail max margin)).
  { unfold ht_inv, ht_keep. simpl. rewrite take_nil. repeat split; lia. }
  destruct (ht_writes_inv ps _ _ Hi0) as (Hi & E1 & E2). simpl app in Hi. fold (dropNULs (mjoin ps)) in Hi.
  set (h := fold_left ht_write ps (new_headTail max margin)) in *. set (s := dropNULs (mjoin ps)) in *.
  pose proof (captured_tail_spec s h Hi) as Ht. destruct Hi as (Hk & Hh & Hr & _).
  unfold ht_text, head_tail_text. unfold captured_tail in Ht. fold (unwound (default [] (ht_ring h)) (ht_pos h)).
  rewrite Ht. simpl in E1, E2. assert (Ek : ht_keep h = max + margin) by (unfold ht_keep; lia).
  rewrite Ek in *. rewrite E1. rewrite Hh. clear Ht.
  destruct (Nat.leb_spec (ht_rest h) (max + margin)) as [Hle|Hgt].
  - rewrite Nat.min_r by lia. destruct (Nat.leb_spec (List.length s) (2 * (max + margin))); [|lia].
    assert (E : take (max + margin) s ++ lastn (ht_rest h) s = s).
    { rewrite Hr. unfold lastn. destruct (Nat.le_ge_cases (List.length s) (max + margin)).
      - rewrite take_ge, drop_ge by lia. apply app_nil_r.
      - replace (List.length s - (List.length s - (max + margin))) with (max + margin) by lia. apply take_drop. }
    rewrite E. destruct (Nat.leb_spec (List.length (redact s secrets)) (2 * max)); [done|].
    f_equal. lia.
  - rewrite Nat.min_l by lia. destruct (Nat.leb_spec (List.length s) (2 * (max + margin))); [lia|].
    f_equal. rewrite length_take. lia.
Qed.

Lemma headTail_text_witness : 0 < 4 /\
  ht_text (fold_left ht_write [bstr "ab"; bstr "cdefgh"; bstr "ijklmnopq"; bstr "rstuv"] (new_headTail 4 2)) [bstr "tu"]
  = bstr "abcd" ++ nl :: bstr "... [14 bytes skipped] ..." ++ nl :: bstr "***v".
Proof.
  split; [lia|]. rewrite (headTail_text 4 2 _ [bstr "tu"] ltac:(lia)). vm_compute. reflexivity.
Defined.

(** ** A cut leaves no piece of a secret *)

Lemma occurs_at_take s v k m : occurs_at (take m s) v k <-> occurs_at s v k /\ k + List.length v <= m.
Proof.
  split.
  - intros Ho. pose proof (occurs_at_bound _ _ _ Ho) as [Hb Hl]. rewrite length_take in Hb.
    destruct Ho as [Hv [t E]%has_prefix_spec]. split; [|lia]. split; [done|]. apply has_prefix_spec.
    exists (t ++ drop m s). rewrite app_assoc, <- E. rewrite <- drop_app_le by (rewrite length_take; lia).
    by rewrite take_drop.
  - intros [[Hv [t E]%has_prefix_spec] Hk]. split; [done|]. apply has_prefix_spec.
    rewrite skipn_firstn_comm, E. rewrite take_app_ge by lia. by eexists.
Qed.

Lemma occurs_at_drop s v k m : occurs_at (drop m s) v k <-> occurs_at s v (m + k).
Proof. unfold occurs_at. by rewrite drop_drop. Qed.

Lemma slice_take b i j : slice b i j = drop i (take j b).
Proof. unfold slice. symmetry. apply skipn_firstn_comm. Qed.

Lemma occurs_at_slice b v i j k : occurs_at (slice b i j) v k <-> occurs_at b v (i + k) /\ i + k + List.length v <= j.
Proof. rewrite slice_take, occurs_at_drop. apply occurs_at_take. Qed.

(** The first occurrence of [v] in [b[i:j]], if any. *)
Lemma Index_slice b v i j : v <> [] -> 
  match Index (slice b i j) v with
  | Some a => occurs_at b v (i + a) /\ i + a + List.length v <= j /\ forall k, i <= k < i + a -> ~ (occurs_at b v k /\ k + List.length v <= j)
  | None => forall k, i <= k -> ~ (occurs_at b v k /\ k + List.length v <= j)
  end.
Proof.
  intros Hv. assert (Hback : forall k, i <= k -> occurs_at b v k /\ k + List.length v <= j -> occurs_at (slice b i j) v (k - i)).
  { intros k Hk H. apply occurs_at_slice. by replace (i + (k - i)) with k by lia. }
  destruct (Index (slice b i j) v) as [a|] eqn:E.
  - destruct (Index_Some _ _ _ E) as [Ho Hmin]. assert (H : occurs_at (slice b i j) v a) by done.
    apply occurs_at_slice in H as [H1 H2]. split; [done|split; [done|]]. intros k Hk [_ Hx]%Hback; [|lia].
    rewrite Hmin in Hx; [done|lia].
  - intros k Hk [_ Hx]%Hback; [|done]. by rewrite (Index_None _ _ (k - i) Hv E) in Hx.
Qed.

Lemma extend_head_spec b n v hi : v <> [] -> forall f i stop, n < f + i ->
  let stop' := extend_head f b n v hi i stop in
  stop <= stop' /\ (forall k, i <= k < n -> occurs_at b v k -> k + List.length v <= hi -> k + List.length v <= stop') /\
  (stop' = stop \/ exists k, k < n /\ occurs_at b v k /\ stop' = k + List.length v).
Proof.
  intros Hv f. induction f as [|f IH]; intros i stop Hf; cbn [extend_head].
  { split; [lia|split; [intros; lia|by left]]. }
  destruct (Nat.ltb_spec i n); [|split; [lia|split; [intros; lia|by left]]].
  pose proof (Index_slice b v i hi Hv) as Hs. destruct (Index (slice b i hi) v) as [a|].
  - destruct Hs as (Ho & Ha & Hmin). destruct (Nat.leb_spec n (i + a)) as [Hb|Hlt].
    + split; [lia|split; [|by left]]. intros k Hk Hok Hkh. destruct (Hmin k); [lia|done].
    + destruct (IH (i + a + 1) (Nat.max stop (i + a + List.length v)) ltac:(lia)) as (H1 & H2 & H3).
      split; [lia|split].
      * intros k Hk Hok Hkh. destruct (Nat.lt_trichotomy k (i + a)) as [Hl|[->|Hg]]; [|lia|].
        { destruct (Hmin k); [lia|done]. }
        apply H2; [lia|done|done].
      * destruct H3 as [H3|H3]; [|by right].
        rewrite H3. destruct (Nat.max_spec stop (i + a + List.length v)) as [[_ ->]|[_ ->]]; [right|by left].
        exists (i + a). split; [lia|done].
  - split; [lia|split; [|by left]]. intros k Hk Hok Hkh. destruct (Hs k); [lia|done].
Qed.

(** Where [headOf] cuts. *)
Lemma head_end_spec b n secrets : let stop := head_end b n secrets in
  n <= stop /\ (forall v k, v ∈ secrets -> k < n -> occurs_at b v k -> k + List.length v <= stop) /\
  (stop = n \/ exists v k, v ∈ secrets /\ k < n /\ occurs_at b v k /\ stop = k + List.length v).
Proof.
  unfold head_end. set (step := fun stop v => _).
  enough (H : forall stop0, n <= stop0 -> let stop := fold_left step secrets stop0 in
    stop0 <= stop /\ (forall v k, v ∈ secrets -> k < n -> occurs_at b v k -> k + List.length v <= stop) /\
    (stop = stop0 \/ exists v k, v ∈ secrets /\ k < n /\ occurs_at b v k /\ stop = k + List.length v)).
  { destruct (H n ltac:(lia)) as (H1 & H2 & H3). done. }
  induction secrets as [|v secrets IH]; intros stop0 H0; cbn [fold_left].
  { split; [lia|split; [|by left]]. intros v k Hv. by apply elem_of_nil in Hv. }
  assert (Hs : stop0 <= step stop0 v /\ (forall k, k < n -> occurs_at b v k -> k + List.length v <= step stop0 v) /\
    (step stop0 v = stop0 \/ exists k, k < n /\ occurs_at b v k /\ step stop0 v = k + List.length v)).
  { unfold step. destruct (Nat.ltb_spec (List.length v) 2).
    - split; [lia|split; [|by left]]. intros k Hk Ho. lia.
    - assert (Hv : v <> []) by (intros ->; simpl in *; lia).
      destruct (extend_head_spec b n v (Nat.min (List.length b) (n + List.length v - 1)) Hv (S n) (n + 1 - List.length v) stop0
        ltac:(lia)) as (H1 & H2 & H3). split; [done|split; [|done]].
      intros k Hk Ho. pose proof (occurs_at_bound _ _ _ Ho) as [Hb _].
      destruct (Nat.lt_ge_cases k (n + 1 - List.length v)); [lia|]. apply H2; [lia|done|lia]. }
  destruct Hs as (S1 & S2 & S3). destruct (IH (step stop0 v) ltac:(lia)) as (H1 & H2 & H3). split; [lia|split].
  - intros w k [->|Hw]%elem_of_cons Hk Ho; [specialize (S2 k Hk Ho); lia|by apply H2].
  - destruct H3 as [E|(w & k & Hw & H)]; [|right; exists w, k; split; [by right|done]].
    rewrite E. destruct S3 as [|(k & H)]; [by left|]. right. exists v, k. split; [left|done].
Qed.

Lemma rune_len_full s n : rune_len s = Some n -> FullRune s = true.
Proof.
  destruct s as [|c r]; [done|]. simpl. destruct (first_byte c) as [[[m lo] hi]|]; [|done].
  destruct (_ <=? _); [done|]. by destruct (follows _ _ _ _).
Qed.

(** [trimPartialRune] removes at most an unfinished character at the end. *)
Lemma trimPartialRune_spec b : exists k, trimPartialRune b = take k b /\ k <= List.length b <= k + 3 /\
  (k = List.length b \/ exists c r, drop k b = c :: r /\ RuneStart c = true /\ FullRune (c :: r) = false).
Proof.
  unfold trimPartialRune. enough (H : forall n i, 1 <= i -> exists k, trim_from n i b = take k b /\
    k <= List.length b <= k + (i + n - 1) /\
    (k = List.length b \/ exists c r, drop k b = c :: r /\ RuneStart c = true /\ FullRune (c :: r) = false)).
  { destruct (H 3 1 ltac:(lia)) as (k & H1 & H2 & H3). exists k. split; [done|split; [lia|done]]. }
  assert (Hid : forall m, exists k, b = take k b /\ k <= List.length b <= k + m /\
    (k = List.length b \/ exists c r, drop k b = c :: r /\ RuneStart c = true /\ FullRune (c :: r) = false)).
  { intros m. exists (List.length b). rewrite take_ge by lia. split; [done|split; [lia|by left]]. }
  induction n as [|n IH]; intros i Hi; cbn [trim_from]; [apply Hid|].
  destruct (Nat.leb_spec i (List.length b)); [|apply Hid].
  destruct (drop (List.length b - i) b) as [|c r] eqn:E; [apply Hid|]. destruct (RuneStart c) eqn:Ec.
  - destruct (FullRune (c :: r)) eqn:Ef; [apply Hid|]. exists (List.length b - i). split; [done|split; [lia|]].
    right. by exists c, r.
  - destruct (IH (S i) ltac:(lia)) as (k & H1 & H2 & H3). exists k. split; [done|split; [lia|done]].
Qed.

(** It cuts no valid text in two. *)
Lemma trimPartialRune_whole b v k : ValidString v = true -> occurs_at b v k ->
  forall j, (j = List.length b \/ exists c r, drop j b = c :: r /\ RuneStart c = true /\ FullRune (c :: r) = false) ->
  j <= k \/ k + List.length v <= j.
Proof.
  intros Hv Ho j Hj. pose proof (occurs_at_bound _ _ _ Ho) as [Hb _]. destruct Ho as [Hn [t E]%has_prefix_spec].
  destruct Hj as [->|(c & r & Hd & Hs & Hf)]; [lia|].
  destruct (Nat.le_gt_cases j k); [by left|]. destruct (Nat.le_gt_cases (k + List.length v) j); [by right|]. exfalso.
  assert (Hd' : drop (j - k) v ++ t = c :: r).
  { rewrite <- drop_app_le by lia. rewrite <- E, drop_drop, <- Hd. f_equal. lia. }
  destruct (drop (j - k) v) as [|c' r'] eqn:Ev.
  { apply (f_equal List.length) in Ev. rewrite length_drop in Ev. simpl in Ev. lia. }
  simpl in Hd'. injection Hd' as -> <-.
  destruct (ValidString_split v (j - k) Hv) as [_ Hv']; [unfold boundary; by rewrite Ev|lia|].
  rewrite Ev, ValidString_cons in Hv'. destruct (rune_len (c :: r')) as [m|] eqn:Er; [|done].
  apply (rune_len_app _ t) in Er. apply rune_len_full in Er. simpl in Er, Hf. congruence.
Qed.

Lemma secretMargin_bound secrets v : v ∈ secrets -> List.length v <= secretMargin secrets.
Proof.
  unfold secretMargin. intros Hv. enough (H : forall m, m <= fold_left (fun m v => Nat.max m (List.length v)) secrets m /\
    List.length v <= fold_left (fun m v => Nat.max m (List.length v)) secrets m) by apply H.
  induction secrets as [|w secrets IH]; intros m; [by apply elem_of_nil in Hv|]. simpl.
  apply elem_of_cons in Hv as [->|Hv].
  - enough (forall m, m <= fold_left (fun m v => Nat.max m (List.length v)) secrets m) as H.
    { specialize (H (Nat.max m (List.length w))). lia. }
    clear. induction secrets as [|w secrets IH]; intros m; simpl; [lia|]. specialize (IH (Nat.max m (List.length w))). lia.
  - destruct (IH Hv (Nat.max m (List.length w))). lia.
Qed.

Lemma covered_sound s secrets p v k : v ∈ secrets -> occurs_at s v k -> k <= p < k + List.length v -> covered s secrets p = true.
Proof. intros. apply covered_spec. by exists v, k. Qed.

Lemma covered_take s secrets m p : covered (take m s) secrets p = true -> covered s secrets p = true.
Proof. rewrite !covered_spec. intros (v & k & Hv & [Ho _]%occurs_at_take & Hp). by exists v, k. Qed.

(** The kept head [take j s] of an output [s] hides every byte of it a secret covers. *)
Definition hides (s : bytes) (secrets : list bytes) (j : nat) : Prop :=
  forall p, p < j -> covered s secrets p = covered (take j s) secrets p.

Lemma hides_intro s secrets j :
  (forall v k p, v ∈ secrets -> occurs_at s v k -> k <= p < k + List.length v -> p < j -> covered (take j s) secrets p = true) ->
  hides s secrets j.
Proof.
  intros H p Hp. apply eq_true_iff_eq. split; [|apply covered_take].
  intros (v & k & Hv & Ho & Hk)%covered_spec. by apply (H v k).
Qed.

Lemma mask_ext_on m m' prev p s : (forall q, p <= q < p + List.length s -> m q = m' q) -> mask_from m prev p s = mask_from m' prev p s.
Proof.
  revert prev p. induction s as [|c s IH]; intros prev p H; simpl in *; [done|].
  rewrite (H p) by lia. rewrite !(IH _ (S p)) by (intros q Hq; apply H; lia). done.
Qed.

Lemma hides_redact s secrets j : hides s secrets j ->
  redact (take j s) secrets = mask_from (covered s secrets) false 0 (take j s).
Proof.
  intros H. rewrite redact_spec. unfold redact_mask. apply mask_ext_on. intros q [_ Hq]. rewrite length_take in Hq.
  symmetry. apply H. lia.
Qed.

Lemma headOf_hides s n secrets : Forall (fun v => ValidString v = true) secrets ->
  let keep := n + secretMargin secrets in
  exists j, fst (headOf (take keep s) n secrets (keep <? List.length s)) = take j s /\ hides s secrets j
    /\ j <= List.length s /\ Nat.min n (List.length s) <= j + 3.
Proof.
  intros Hval keep. set (b := take keep s). set (lost := keep <? List.length s). unfold headOf.
  assert (Hlen : List.length b = Nat.min keep (List.length s)) by apply length_take.
  destruct (Nat.leb_spec (List.length b) n) as [Hle|Hgt].
  - destruct lost eqn:El; unfold lost in El; [apply Nat.ltb_lt in El|apply Nat.ltb_ge in El].
    + assert (Hm : secretMargin secrets = 0) by lia. destruct (trimPartialRune_spec b) as (j & E & Hj & _).
      exists j. cbn [fst]. rewrite E. unfold b. rewrite take_take, Nat.min_l by lia. split; [done|split; [|lia]].
      apply hides_intro. intros v k p Hv Ho Hk. apply secretMargin_bound in Hv. lia.
    + exists (List.length s). cbn [fst]. unfold b. rewrite !take_ge by lia. split; [done|split; [|lia]].
      apply hides_intro. intros v k p Hv Ho Hk _. rewrite take_ge by lia. by eapply covered_sound.
  - destruct (head_end_spec b n secrets) as (H1 & H2 & H3). set (stop := head_end b n secrets) in *.
    assert (Hstop : stop <= List.length b).
    { destruct H3 as [->|(v & k & _ & _ & Ho & ->)]; [lia|]. apply occurs_at_bound in Ho. lia. }
    assert (Hinb : forall v k, v ∈ secrets -> k < n -> occurs_at s v k -> occurs_at b v k).
    { intros v k Hv Hk Ho. apply occurs_at_take. split; [done|]. apply secretMargin_bound in Hv. unfold keep. lia. }
    assert (Htake : forall j, j <= stop -> take j (take stop b) = take j s).
    { intros j Hj. unfold b. rewrite !take_take. f_equal. lia. }
    assert (Hh : hides s secrets stop).
    { apply hides_intro. intros v k p Hv Ho Hk Hp. destruct (Nat.lt_ge_cases k n) as [Hkn|Hkn].
      - pose proof (H2 v k Hv Hkn (Hinb _ _ Hv Hkn Ho)). apply (covered_sound _ _ _ v k); [done|by apply occurs_at_take|done].
      - destruct H3 as [E|(w & i & Hw & Hi & Ho' & E)]; [lia|]. apply occurs_at_take in Ho' as [Ho' _].
        apply (covered_sound _ _ _ w i); [done|apply occurs_at_take; split; [done|lia]|lia]. }
    destruct (Nat.eqb_spec stop n) as [En|Hne]; cbn [fst].
    + destruct (trimPartialRune_spec (take stop b)) as (j & E & Hj & Hcut). rewrite length_take, Nat.min_l in Hj, Hcut by lia.
      exists j. rewrite E, Htake by lia. split; [done|split; [|lia]]. apply hides_intro. intros v k p Hv Ho Hk Hp.
      assert (Hkn : k < n) by lia. pose proof (H2 v k Hv Hkn (Hinb _ _ Hv Hkn Ho)) as Hend.
      apply (covered_sound _ _ _ v k); [done|apply occurs_at_take; split; [done|]|done].
      destruct (Nat.le_gt_cases (k + List.length v) j); [done|exfalso].
      assert (Hob : occurs_at (take stop b) v k) by (apply occurs_at_take; split; [by apply Hinb|done]).
      rewrite Forall_elem in Hval. destruct (trimPartialRune_whole _ _ _ (Hval _ Hv) Hob j); [|lia|lia].
      by rewrite length_take, Nat.min_l by lia.
    + exists stop. rewrite <- (Htake stop) by lia. rewrite take_take, Nat.min_l by lia. split; [done|split; [done|]].
      unfold b in Hstop. rewrite length_take in Hstop. lia.
Qed.

(** A capture that keeps the first [n] bytes of an output (and the longest
    secret's length more, for the cut) hides every piece of a secret: whatever
    secrets are cut, overlap or touch at the end, redacting what is kept gives
    what redacting the whole output and keeping those bytes would. At most
    three bytes fewer than [n] are kept, where a character is unfinished. *)
Theorem headOf_redacted (s : bytes) (n : nat) (secrets : list bytes) :
  Forall (fun v => ValidString v = true) secrets ->
  let keep := n + secretMargin secrets in
  let head := fst (headOf (take keep s) n secrets (keep <? List.length s)) in
  head = take (List.length head) s /\ Nat.min n (List.length s) <= List.length head + 3 /\
  redact head secrets = mask_from (covered s secrets) false 0 head.
Proof.
  intros Hval keep head. destruct (headOf_hides s n secrets Hval) as (j & E & Hh & Hj & Hn). fold keep in E. fold head in E.
  assert (Hl : List.length head = j) by (rewrite E, length_take; lia). rewrite Hl.
  split; [done|split; [done|]]. rewrite E. by apply hides_redact.
Qed.

Lemma headOf_redacted_witness :
  Forall (fun v => ValidString v = true) [bstr "SECRET"; bstr "ETXY"] /\
  redact (fst (headOf (take 12 (bstr "key=SECRETXYZ, more of it")) 6 [bstr "SECRET"; bstr "ETXY"] true))
    [bstr "SECRET"; bstr "ETXY"] = bstr "key=***".
Proof.
  assert (H : Forall (fun v => ValidString v = true) [bstr "SECRET"; bstr "ETXY"]) by (repeat constructor).
  split; [exact H|]. destruct (headOf_redacted (bstr "key=SECRETXYZ, more of it") 6 _ H) as (_ & _ & E).
  refine (eq_trans E _). vm_compute. reflexivity.
Defined.

Definition binary_secret : bytes := bstr "pass" ++ ["226"%char].

(** Of a secret that is not valid UTF-8 and ends exactly at the cut, inside a
    character, the first bytes are kept and are not redacted. *)
Theorem headOf_keeps_piece :
  let s := binary_secret ++ bstr " and a long line after it" in
  let n := List.length binary_secret in
  covered s [binary_secret] 0 = true /\
  redact (fst (headOf (take (n + secretMargin [binary_secret]) s) n [binary_secret] true)) [binary_secret] = bstr "pass".
Proof. split; vm_compute; reflexivity. Qed.

(** ** The stored text is valid *)

Definition clean (s : bytes) : Prop := ValidString s = true /\ nul ∉ s.

Lemma nul_free s : existsb (Ascii.eqb nul) s = false <-> nul ∉ s.
Proof.
  split.
  - intros H Hn. apply not_true_iff_false in H. apply H. apply existsb_exists. exists nul.
    split; [by apply list_elem_of_In|apply Ascii.eqb_refl].
  - intros H. apply not_true_iff_false. intros (c & Hc & E)%existsb_exists. apply Ascii.eqb_eq in E as <-.
    apply H. by apply list_elem_of_In.
Qed.

Lemma dropNULs_free s : nul ∉ dropNULs s.
Proof. unfold dropNULs, withoutNULs. rewrite elem_of_filter_b. intros [_ H]. done. Qed.

Lemma cleanOutput_clean s : clean (cleanOutput s).
Proof.
  unfold cleanOutput. destruct (_ && _) eqn:E.
  - apply andb_true_iff in E as [E1 E2%negb_true_iff]. split; [done|by apply nul_free].
  - split; [by apply ToValidUTF8_valid|]. intros [H|H]%ToValidUTF8_bytes; [|by apply dropNULs_free in H].
    unfold FFFD in H. repeat (apply elem_of_cons in H as [H|H]; [done|]). by apply elem_of_nil in H.
Qed.

(** The covered bytes of a valid text are whole characters. *)
Definition char_aligned (m : nat -> bool) (p : nat) (s : bytes) : Prop :=
  forall i c, s !! S i = Some c -> RuneStart c = false -> m (S (p + i)) = m (p + i).

Lemma mask_uniform m prev p r s : (forall i, i < List.length r -> m (p + i) = m p) -> r <> [] ->
  mask_from m prev p (r ++ s) =
    (if m p then (if prev then [] else stars) ++ mask_from m true (p + List.length r) s
     else r ++ mask_from m false (p + List.length r) s).
Proof.
  intros Hu Hr. rewrite mask_app by done.
  assert (Hlast : m (p + List.length r - 1) = m p).
  { assert (0 < List.length r) by (destruct r; [done|simpl; lia]). rewrite <- (Hu (List.length r - 1)) by lia. f_equal. lia. }
  rewrite Hlast. destruct (m p) eqn:Em.
  - f_equal. destruct prev; [apply mask_covered_true|apply mask_covered; [done|]];
      intros q Hq; replace q with (p + (q - p)) by lia; by rewrite Hu by lia.
  - rewrite mask_clear; [done|]. intros q Hq. replace q with (p + (q - p)) by lia. by rewrite Hu by lia.
Qed.

Lemma rune_conts c r n : rune_len (c :: r) = Some n -> forall i x, S i < n -> (c :: r) !! S i = Some x -> RuneStart x = false.
Proof.
  intros E i x Hi Hx. pose proof (rune_len_tail _ _ _ E) as Hc. rewrite Forall_elem in Hc.
  assert (Hm : x ∈ take (n - 1) r). { apply list_elem_of_lookup. exists i. rewrite lookup_take_lt by lia. done. }
  apply Hc in Hm. unfold cont in Hm. by apply negb_true_iff in Hm.
Qed.

Lemma mask_valid s : ValidString s = true -> forall m prev p, char_aligned m p s -> ValidString (mask_from m prev p s) = true.
Proof.
  induction s as [|c r n E IH|c r E IH] using chunks_ind; [done| |]; rewrite ValidString_cons, E; [|done].
  intros Hv m prev p Ha. pose proof (rune_len_bounds _ _ E) as [Hb Hl].
  set (u := take n (c :: r)). assert (Hu : List.length u = n) by (unfold u; rewrite length_take; lia).
  assert (Hlk : forall i, i < n -> exists x, (c :: r) !! i = Some x).
  { intros i Hi. apply lookup_lt_is_Some. lia. }
  assert (Hun : forall i, i < List.length u -> m (p + i) = m p).
  { intros i. induction i as [|i IHi]; intros Hi; [by rewrite Nat.add_0_r|].
    destruct (Hlk (S i) ltac:(lia)) as [x Hx]. replace (p + S i) with (S (p + i)) by lia.
    rewrite (Ha i x Hx) by (eapply rune_conts; [done| |done]; lia). apply IHi. lia. }
  assert (Hn : u <> []) by (intros Eu; rewrite Eu in Hu; simpl in Hu; lia).
  rewrite <- (take_drop n (c :: r)). fold u. rewrite mask_uniform, Hu by done.
  assert (Ha' : char_aligned m (p + n) (drop n (c :: r))).
  { intros i x Hx Hc. rewrite lookup_drop in Hx. specialize (Ha (n + i) x). rewrite <- Nat.add_succ_r in Ha.
    rewrite Nat.add_assoc in Ha. by apply Ha. }
  assert (Huv : ValidString u = true).
  { destruct u as [|c' r'] eqn:Eu; [done|]. rewrite ValidString_cons, <- Eu. unfold u in Eu |- *.
    rewrite (rune_len_take _ _ E). rewrite drop_ge; [done|]. rewrite length_take. lia. }
  destruct (m p).
  - destruct prev; [apply IH; done|]. rewrite ValidString_app by done. by apply IH.
  - rewrite ValidString_app by done. by apply IH.
Qed.

(** An occurrence of a valid text in a valid text starts and ends between characters. *)
Lemma occurs_at_boundary s v k : ValidString s = true -> ValidString v = true -> occurs_at s v k ->
  boundary s k /\ boundary s (k + List.length v).
Proof.
  intros Hs Hv Ho. pose proof (occurs_at_bound _ _ _ Ho) as [Hb _]. destruct Ho as [Hn [t E]%has_prefix_spec].
  assert (Hk : boundary s k).
  { unfold boundary. rewrite E. destruct v; [done|]. simpl. by apply ValidString_start in Hv. }
  split; [done|]. destruct (ValidString_split s k Hs Hk) as [_ H]; [lia|]. rewrite E, ValidString_app in H by done.
  unfold boundary. rewrite <- drop_drop, E, drop_app_length. destruct t; [done|]. by apply ValidString_start in H.
Qed.

Lemma covered_aligned s vs : ValidString s = true -> (forall v, v ∈ vs -> ValidString v = true) ->
  char_aligned (covered s vs) 0 s.
Proof.
  intros Hs Hvs i c Hc Hr. simpl. assert (Hnb : ~ boundary s (S i)).
  { unfold boundary. rewrite (drop_S _ _ _ Hc). by rewrite Hr. }
  apply eq_true_iff_eq. rewrite !covered_spec.
  split; intros (v & k & Hv & Ho & Hk); exists v, k; (split; [done|split; [done|]]);
    destruct (occurs_at_boundary s v k Hs (Hvs _ Hv) Ho) as [B1 B2].
  - destruct (Nat.eq_dec k (S i)) as [->|]; [done|lia].
  - destruct (Nat.eq_dec (k + List.length v) (S i)) as [E|]; [by rewrite E in B2|lia].
Qed.

Lemma mask_bytes m prev p s x : x ∈ mask_from m prev p s -> x ∈ stars \/ x ∈ s.
Proof.
  revert prev p. induction s as [|c s IH]; intros prev p; simpl; [by intros ?%elem_of_nil|].
  rewrite elem_of_cons. destruct (m p).
  - rewrite elem_of_app. intros [H|H]; [destruct prev; [by apply elem_of_nil in H|by left]|]. apply IH in H. tauto.
  - rewrite elem_of_cons. intros [H|H]; [tauto|]. apply IH in H. tauto.
Qed.

Lemma redact_clean s vs : clean s -> (forall v, v ∈ vs -> ValidString v = true) -> clean (redact s vs).
Proof.
  intros [Hv Hn] Hvs. rewrite redact_spec. split.
  - apply mask_valid; [done|]. by apply covered_aligned.
  - intros [H|H]%mask_bytes; [|done]. vm_compute in H. repeat (apply elem_of_cons in H as [H|H]; [done|]). by apply elem_of_nil in H.
Qed.

Lemma back_to_rune_spec s cut : cut <= List.length s -> back_to_rune s cut <= cut /\ boundary s (back_to_rune s cut) \/ ~ boundary s 0.
Proof.
  induction cut as [|k IH]; intros Hc; cbn [back_to_rune].
  - destruct (drop 0 s) as [|c r] eqn:E; [left; unfold boundary; rewrite E; done|].
    destruct (RuneStart c) eqn:Er; [left|right]; unfold boundary; rewrite E; [done|]. by rewrite Er.
  - destruct (drop (S k) s) as [|c r] eqn:E; [left; unfold boundary; rewrite E; split; [lia|done]|].
    destruct (RuneStart c) eqn:Er; [left; unfold boundary; rewrite E; split; [lia|done]|].
    destruct (IH ltac:(lia)) as [[H1 H2]|]; [left; split; [lia|done]|by right].
Qed.

Lemma valid_boundary_0 s : ValidString s = true -> boundary s 0.
Proof. unfold boundary. destruct s; [done|]. apply ValidString_start. Qed.

Lemma capOutput_clean s truncated : clean s -> clean (capOutput s truncated) /\
  (List.length (capOutput s truncated) <= Z.to_nat maxOutputBytes + List.length truncationMarker).
Proof.
  intros [Hv Hn]. assert (Hm : clean truncationMarker).
  { split; [done|]. apply nul_free. reflexivity. }
  assert (Happ : forall t, ValidString t = true -> (forall x, x ∈ t -> x ∈ s) -> clean (t ++ truncationMarker)).
  { intros t Ht Hs. destruct Hm as [M1 M2]. split; [by rewrite ValidString_app|]. rewrite elem_of_app. intros [H|H]; [|done]. auto. }
  unfold capOutput. destruct (Z.ltb_spec maxOutputBytes (Z.of_nat (List.length s))).
  - assert (Hle : Z.to_nat maxOutputBytes <= List.length s) by lia.
    destruct (back_to_rune_spec s _ Hle) as [[H1 H2]|H1]; [|by destruct (H1 (valid_boundary_0 _ Hv))].
    split; [|rewrite length_app, length_take; lia]. apply Happ; [|intros x; apply subseteq_take].
    apply ValidString_split; [done|done|lia].
  - assert (List.length s <= Z.to_nat maxOutputBytes) by lia.
    destruct truncated; [split; [by apply Happ|rewrite length_app; lia]|split; [done|lia]].
Qed.

(** C17: Whatever bytes a job prints and whatever its secrets are, the output that
    is stored is valid UTF-8 without NUL bytes (a Postgres text column refuses
    both) and no longer than the size limit and the truncation marker. *)
Theorem storedOutput_clean (raw : bytes) (secretValues : list bytes) (truncated : bool) :
  ValidString (storedOutput raw secretValues truncated) = true /\
  (nul ∉ storedOutput raw secretValues truncated) /\
  List.length (storedOutput raw secretValues truncated) <= Z.to_nat maxOutputBytes + List.length truncationMarker.
Proof.
  unfold storedOutput. set (text := cleanOutput _).
  destruct (capOutput_clean (redact text (cleaned secretValues)) truncated) as [[H1 H2] H3]; [|done].
  apply redact_clean; [apply cleanOutput_clean|]. intros v. unfold cleaned.
  rewrite elem_of_filter_b, elem_of_map. intros [(w & _ & ->) _]. apply cleanOutput_clean.
Qed.
