(* ===== verification/GoStrings.v ===== *)
(** * Go's string functions ([strings], [strconv], [net/url])

    The functions the request paths, the ping bodies and the configuration
    file go through, on byte strings: splitting, trimming, replacing,
    [strconv.Atoi] and [url.PathUnescape]. What is too large to be spelled
    out here is the parameter of [GoText]. *)
From S2P Require Import Prelude GoTime Domain Heartbeat Failure Redact.
From stdpp Require Import pretty.
Open Scope Z_scope.

Definition str (b : bytes) : string := string_of_list_ascii b.

(** ** [strings] *)

(** [strings.Split] at a single byte: one part more than there are [sep]s. *)
Fixpoint Split (sep : ascii) (s : bytes) : list bytes :=
  match s with
  | [] => [[]]
  | c :: r =>
      if Ascii.eqb c sep then [] :: Split sep r
      else match Split sep r with p :: ps => (c :: p) :: ps | [] => [[c]] end
  end.

Fixpoint Join (sep : ascii) (ps : list bytes) : bytes :=
  match ps with
  | [] => []
  | [p] => p
  | p :: r => p ++ sep :: Join sep r
  end.

(** [strings.CutPrefix] and [strings.Contains]. *)
Definition CutPrefix (s p : bytes) : option bytes := if has_prefix s p then Some (drop (List.length p) s) else None.
Definition Contains (s v : bytes) : bool := match Index s v with Some _ => true | None => false end.

(** [strings.Trim] of a set of bytes. *)
Definition TrimSet (cut : ascii -> bool) (s : bytes) : bytes := rev (drop_while cut (rev (drop_while cut s))).

(** A scan from the left that writes [rep] for every match and goes on after
    it; [m] tests for a match, of [n] bytes, at the front. [skip] counts the
    bytes of the last match still to pass. *)
Fixpoint replace_matches (m : bytes -> bool) (n : nat) (rep : bytes) (skip : nat) (s : bytes) : bytes :=
  match s with
  | [] => []
  | c :: r =>
      match skip with
      | S k => replace_matches m n rep k r
      | O => if m s then rep ++ replace_matches m n rep (n - 1) r else c :: replace_matches m n rep O r
      end
  end.

(** [strings.ReplaceAll] of a non-empty [old]. *)
Definition ReplaceAll (s old new : bytes) : bytes := replace_matches (fun t => has_prefix t old) (List.length old) new O s.

(** [strings.ToLower] on ASCII, byte by byte ([to_lower] of [Heartbeat]). *)
Definition ToLowerASCII (s : bytes) : bytes := map to_lower s.

(** ** [strconv] *)

Definition is_digit (c : ascii) : bool := (48 <=? byte_val c) && (byte_val c <=? 57).

(** The value of a string of decimal digits. *)
Definition digits_value (s : bytes) : Z := fold_left (fun n c => 10 * n + (byte_val c - 48)) s 0.

(** [strconv.ParseInt(s, 10, 64)], and [strconv.Atoi] where an [int] has 64
    bits: an optional sign and digits, within range. *)
Definition ParseInt (s : bytes) : option Z :=
  let '(neg, ds) := match s with
                    | c :: r => if Ascii.eqb c "-" then (true, r) else if Ascii.eqb c "+" then (false, r) else (false, s)
                    | [] => (false, s)
                    end in
  if is_nil ds || negb (forallb is_digit ds) then None
  else
    let n := if neg : bool then - digits_value ds else digits_value ds in
    if (min_int64 <=? n) && (n <=? max_int64) then Some n else None.
Definition Atoi (s : bytes) : option Z := ParseInt s.

(** [strconv.Itoa]. *)
Definition Itoa (n : Z) : bytes := bstr (pretty n).

(** ** [net/url] *)

Definition hex_value (c : ascii) : Z :=
  let n := byte_val c in
  if (48 <=? n) && (n <=? 57) then n - 48
  else if (97 <=? n) && (n <=? 102) then n - 97 + 10
  else n - 65 + 10.

Definition percent : ascii := "%".

(** [url.PathUnescape]: [None] for a percent sign not followed by two
    hexadecimal digits. *)
Fixpoint PathUnescape (s : bytes) : option bytes :=
  match s with
  | [] => Some []
  | c :: r =>
      if Ascii.eqb c percent then
        match r with
        | a :: b :: t =>
            if is_hex a && is_hex b then cons (ascii_of_N (Z.to_N (16 * hex_value a + hex_value b))) <$> PathUnescape t else None
        | _ => None
        end
      else cons c <$> PathUnescape r
  end.

(** ** What is not spelled out

    [time.Parse] with the layouts the code uses, [time.ParseDuration],
    [strconv.Quote] (the verb [%q]) and the verb [%g]. *)
Inductive Layout := RFC3339 | DateTimeNoZone | DateOnly.
#[export] Instance Layout_eq_dec : EqDecision Layout.
Proof. solve_decision. Defined.
Class GoText := {
  time_Parse : Layout -> bytes -> option Time; time_ParseDuration : bytes -> option Duration;
  Quote : bytes -> bytes; FormatG : spec_float -> bytes }.

(** ** Facts *)

Lemma Split_nonempty sep s : Split sep s <> [].
Proof. destruct s as [|c r]; simpl; [done|]. destruct (Ascii.eqb c sep); [done|]. by destruct (Split sep r). Qed.

Lemma Join_Split sep s : Join sep (Split sep s) = s.
Proof.
  induction s as [|c r IH]; simpl; [done|]. pose proof (Split_nonempty sep r) as Hn.
  destruct (Ascii.eqb_spec c sep) as [->|].
  - destruct (Split sep r) as [|p ps] eqn:E; [done|]. change (Join sep ([] :: p :: ps)) with (sep :: Join sep (p :: ps)). by rewrite IH.
  - destruct (Split sep r) as [|p ps]; [done|]. destruct ps; simpl in *; by rewrite IH.
Qed.

Lemma Split_free sep s : sep ∉ s -> Split sep s = [s].
Proof.
  induction s as [|c r IH]; simpl; [done|]. intros [Hc Hr]%not_elem_of_cons. destruct (Ascii.eqb_spec c sep); [congruence|]. by rewrite IH.
Qed.

Lemma Split_app sep p s : sep ∉ p -> Split sep (p ++ sep :: s) = p :: Split sep s.
Proof.
  induction p as [|c r IH]; simpl; [by rewrite Ascii.eqb_refl|]. intros [Hc Hr]%not_elem_of_cons.
  destruct (Ascii.eqb_spec c sep); [congruence|]. by rewrite IH.
Qed.

Lemma Split_Join sep ps : ps <> [] -> Forall (fun p => sep ∉ p) ps -> Split sep (Join sep ps) = ps.
Proof.
  induction ps as [|p ps IH]; [done|]. intros _ Hf. inversion Hf as [|? ? Hp Hps]; subst. destruct ps as [|q ps].
  - simpl. by apply Split_free.
  - change (Join sep (p :: q :: ps)) with (p ++ sep :: Join sep (q :: ps)). rewrite Split_app by done. by rewrite IH.
Qed.

(** A suffix that does not end the last part of a text is not cut off it. *)
Lemma trim_suffix_free c p : c ∉ p -> forall q, p <> [] -> trim_suffix (q ++ p) [c] = q ++ p.
Proof.
  intros Hs q Hp. unfold trim_suffix. case_bool_decide as E; [|done]. exfalso. apply Hs.
  destruct (exists_last Hp) as (p' & d & ->). unfold lastn in E.
  rewrite app_assoc in E. rewrite length_app in E. simpl in E. rewrite Nat.add_sub in E. rewrite drop_app_length in E.
  injection E as ->. apply elem_of_app. right. left.
Qed.

Lemma Join_last sep ps p : exists q, Join sep (ps ++ [p]) = q ++ p.
Proof.
  induction ps as [|x ps [q IH]]; [by exists []|]. destruct ps as [|y ps].
  - exists (x ++ [sep]). simpl. by rewrite <- app_assoc.
  - exists (x ++ sep :: q). change (Join sep ((x :: y :: ps) ++ [p])) with (x ++ sep :: Join sep ((y :: ps) ++ [p])).
    rewrite IH. by rewrite <- app_assoc.
Qed.

Lemma byte_val_range c : 0 <= byte_val c < 256.
Proof. unfold byte_val. pose proof (N_ascii_bounded c). lia. Qed.

Lemma ascii_of_byte_val c : ascii_of_N (Z.to_N (byte_val c)) = c.
Proof. unfold byte_val. rewrite N2Z.id. apply ascii_N_embedding. Qed.

(** A character is escaped as a percent sign and two digits. *)
Definition hex_digit (n : Z) : ascii := ascii_of_N (Z.to_N (if n <? 10 then 48 + n else 55 + n)).
Definition escape (c : ascii) : bytes := [percent; hex_digit (byte_val c / 16); hex_digit (byte_val c mod 16)].

Lemma byte_val_of n : 0 <= n < 256 -> byte_val (ascii_of_N (Z.to_N n)) = n.
Proof. intros Hn. unfold byte_val. rewrite N_ascii_embedding by lia. lia. Qed.

Lemma hex_digit_value n : 0 <= n < 16 -> is_hex (hex_digit n) = true /\ hex_value (hex_digit n) = n.
Proof.
  intros Hn. unfold is_hex, hex_value, hex_digit. destruct (Z.ltb_spec n 10); rewrite byte_val_of by lia.
  - destruct (Z.leb_spec 48 (48 + n)), (Z.leb_spec (48 + n) 57); try lia. split; [done|]. simpl. lia.
  - destruct (Z.leb_spec 48 (55 + n)), (Z.leb_spec (55 + n) 57), (Z.leb_spec 97 (55 + n)), (Z.leb_spec 65 (55 + n)), (Z.leb_spec (55 + n) 70);
      try lia. split; [done|]. simpl. lia.
Qed.

(** Any byte string is reached by escaping: whatever is escaped, as long as the percent sign is. *)
Lemma PathUnescape_escape (keep : ascii -> bool) s : keep percent = false ->
  PathUnescape (mjoin (map (fun c => if keep c then [c] else escape c) s)) = Some s.
Proof.
  intros Hk. induction s as [|c r IH]; [done|]. cbn [map mjoin list_join]. destruct (keep c) eqn:E.
  - simpl. destruct (Ascii.eqb_spec c percent) as [->|]; [congruence|]. setoid_rewrite IH. done.
  - pose proof (byte_val_range c) as Hb.
    destruct (hex_digit_value (byte_val c / 16)) as [H1 V1]; [split; [apply Z.div_pos; lia|apply Z.div_lt_upper_bound; lia]|].
    destruct (hex_digit_value (byte_val c mod 16)) as [H2 V2]; [apply Z.mod_pos_bound; lia|].
    unfold escape. cbn [app PathUnescape]. rewrite Ascii.eqb_refl, H1, H2, V1, V2. cbn [andb]. setoid_rewrite IH. simpl. do 2 f_equal.
    rewrite <- Z.div_mod by lia. apply ascii_of_byte_val.
Qed.

Example Atoi_examples : map (fun s => Atoi (bstr s)) ["0"; "255"; "007"; "+5"; "-1"; ""; "-"; "1a"; "9223372036854775807"; "9223372036854775808"]%string
  = [Some 0; Some 255; Some 7; Some 5; Some (-1); None; None; None; Some max_int64; None].
Proof. vm_compute. reflexivity. Qed.
Example PathUnescape_examples : map (fun s => str <$> PathUnescape (bstr s)) ["a%2Fb"; "a%2fb+c"; "%"; "%g1"; "%4"]%string
  = [Some "a/b"; Some "a/b+c"; None; None; None]%string.
Proof. vm_compute. reflexivity. Qed.
