(* ===== verification/JobSpec.v ===== *)
(** * The settings of probes and drills ([internal/jobs/spec.go])

    What a job's settings must satisfy before they are stored, and again
    before a run: [ValidateSpec] with the checks of each type, and
    [NormalizeDomain]. An error is a value of [SpecError], one constructor per
    message. [url.Parse] is the parameter of [URLs]. *)
From S2P Require Import Prelude GoTime Domain Heartbeat Utf8 Failure Redact GoStrings Sql Schema.
Open Scope Z_scope.

Inductive SpecError :=
| SEWarnDays (n : Z) | SERestoreRequired | SECheckEmpty (i : nat) | SEScratchDir (s : string) | SEMaxDuration (n : Z)
| SEExpiryBoth | SEExpiryNone
| SEDomainRequired | SEDomainNotASCII (s : string) | SENotDomain (s : string) | SENoTLD (s : string) | SERDAPURL (s : string)
| SEHostRequired | SEHost (s : string) (e : HostError) | SEPort (n : Z) | SEServerName (s : string) (e : HostError) | SEStartTLS (s : string)
| SEFraction (f : spec_float) | SECAFile (s : string)
with HostError := HasScheme | HasPort | NotHostName.

(** [url.Parse]: the scheme and the host. *)
Class URLs := url_Parse : string -> option (string * string).

Definition DefaultTLSWarnDays : Z := 14.
Definition DefaultDomainWarnDays : Z := 30.
Definition DefaultExpiryWarnDays : Z := 14.
Definition MaxWarnDays : Z := 3650.

(** [float64] is [spec_float] at 53 bits of mantissa and 1024 of exponent. *)
Definition float_of (n : Z) : spec_float := binary_normalize 53 1024 n 0 false.
Definition fdiv : spec_float -> spec_float -> spec_float := SFdiv 53 1024.
Definition fmul : spec_float -> spec_float -> spec_float := SFmul 53 1024.
Definition DefaultRenewAfterFraction : spec_float := fdiv (float_of 2) (float_of 3).

(** [DefaultWarnDays]. *)
Definition DefaultWarnDays (t : JobType) : Z :=
  match t with TLS => DefaultTLSWarnDays | Domain => DefaultDomainWarnDays | Expiry => DefaultExpiryWarnDays | _ => 0 end.

Definition zero_spec : Spec :=
  {| sp_warn_days := 0; sp_host := ""; sp_port := 0; sp_server_name := ""; sp_starttls := ""; sp_insecure_skip_verify := false; sp_ca_file := "";
     sp_renew_after_fraction := S754_zero false; sp_domain := ""; sp_rdap_url := ""; sp_expires_at := zero_time; sp_expiry_command := "";
     sp_restore := ""; sp_checks := []; sp_cleanup := ""; sp_scratch_dir := ""; sp_max_duration_seconds := 0 |}.

Definition blank (s : string) : bool := is_nil (TrimSpace (bstr s)).

(** [filepath.IsAbs] on Unix. *)
Definition IsAbs (s : string) : bool := has_prefix (bstr s) (bstr "/").

(** [validateDrill]. *)
Fixpoint empty_check (i : nat) (checks : list string) : option SpecError :=
  match checks with
  | [] => None
  | c :: r => if blank c then Some (SECheckEmpty i) else empty_check (S i) r
  end.
Definition validateDrill (s : Spec) : option SpecError :=
  if blank (sp_restore s) then Some SERestoreRequired
  else match empty_check 1 (sp_checks s) with
  | Some e => Some e
  | None =>
      if negb (String.eqb (sp_scratch_dir s) "") && negb (IsAbs (sp_scratch_dir s)) then Some (SEScratchDir (sp_scratch_dir s))
      else if sp_max_duration_seconds s <? 0 then Some (SEMaxDuration (sp_max_duration_seconds s))
      else None
  end.

(** [validateExpiry]. *)
Definition validateExpiry (s : Spec) : option SpecError :=
  let hasDate := negb (IsZero (sp_expires_at s)) in
  let hasCommand := negb (blank (sp_expiry_command s)) in
  if hasDate && hasCommand then Some SEExpiryBoth
  else if negb hasDate && negb hasCommand then Some SEExpiryNone
  else None.

(** ** Domain names *)

(** [strings.ToLower], as far as ASCII is concerned: of the other runes U+0130
    and U+212A alone have a lower case in ASCII, and an invalid byte becomes
    U+FFFD. The lower case of the rest is not in ASCII, nor are they. *)
Definition lower_rune (r : bytes * bool) : bytes :=
  match r with
  | (_, false) => FFFD
  | ([c], true) => [to_lower c]
  | (r, true) => if bool_decide (r = ["196"; "176"]%char) then bstr "i" else if bool_decide (r = ["226"; "132"; "170"]%char) then bstr "k" else r
  end.
Definition ToLower (s : bytes) : bytes := mjoin (map lower_rune (chunks s)).

Definition is_lower (c : ascii) : bool := (97 <=? byte_val c) && (byte_val c <=? 122).

(** [validLabel]. *)
Definition ldh (c : ascii) : bool := is_lower c || is_digit c || Ascii.eqb c "-".
Definition validLabel (l : bytes) : bool :=
  match l with
  | [] => false
  | c :: _ =>
      if (63 <? List.length l)%nat || Ascii.eqb c "-" || Ascii.eqb (List.last l c) "-" then false
      else forallb ldh l
  end.

Definition dot : ascii := ".".

(** [NormalizeDomain]; a byte over 127 is part of a rune that is no ASCII. *)
Definition NormalizeDomain (domain : string) : bytes + SpecError :=
  let d := trim_suffix (ToLower (TrimSpace (bstr domain))) [dot] in
  if is_nil d then inr SEDomainRequired
  else if existsb (fun c => 127 <? byte_val c) d then inr (SEDomainNotASCII domain)
  else
    let labels := Split dot d in
    if (253 <? List.length d)%nat then inr (SENotDomain domain)
    else if negb (forallb validLabel labels) then inr (SENotDomain domain)
    else if (List.length labels <? 2)%nat then inr (SENoTLD domain)
    else inl d.

(** ** Addresses ([net.ParseIP]) *)

Definition digit_value (c : ascii) : Z := byte_val c - 48.

(** One field of an IPv4 address: one to three digits, no leading zero, at most 255. *)
Definition ipv4_field (f : bytes) : bool :=
  negb (is_nil f) && forallb is_digit f && (digits_value f <=? 255) &&
  match f with c :: _ :: _ => negb (Ascii.eqb c "0") | _ => true end.
Definition ParseIPv4 (s : bytes) : bool := let fs := Split dot s in (List.length fs =? 4)%nat && forallb ipv4_field fs.

(** The hexadecimal digits at the front. *)
Fixpoint hex_prefix (s : bytes) : bytes * bytes :=
  match s with
  | c :: r => if is_hex c then let '(h, t) := hex_prefix r in (c :: h, t) else ([], s)
  | [] => ([], [])
  end.

(** The loop of [netip.parseIPv6] over the groups: [i] groups have been read,
    [ellipsis] says whether a [::] has. It ends after eight groups at most. *)
Fixpoint ipv6_groups (fuel : nat) (i : nat) (ellipsis : bool) (s : bytes) : bool :=
  let finish i ellipsis s := is_nil s && (if (i <? 8)%nat then ellipsis else negb ellipsis) in
  match fuel with
  | O => finish i ellipsis s
  | S fuel =>
      let '(h, t) := hex_prefix s in
      if is_nil h || (4 <? List.length h)%nat then false
      else match t with
      | [] => finish (S i) ellipsis []
      | c :: r =>
          if Ascii.eqb c dot then
            if (negb ellipsis && negb (i =? 6)%nat) || (8 <? i + 2)%nat then false
            else ParseIPv4 s && finish (i + 2)%nat ellipsis []
          else if negb (Ascii.eqb c ":") then false
          else match r with
          | [] => false
          | d :: r' =>
              if Ascii.eqb d ":" then
                if ellipsis then false
                else if is_nil r' then finish (S i) true [] else ipv6_groups fuel (S i) true r'
              else ipv6_groups fuel (S i) ellipsis r
          end
      end
  end.
Definition ParseIPv6 (s : bytes) : bool :=
  match s with
  | a :: b :: r => if Ascii.eqb a ":" && Ascii.eqb b ":" then is_nil r || ipv6_groups 8 0 true r else ipv6_groups 8 0 false s
  | _ => ipv6_groups 8 0 false s
  end.

(** [net.ParseIP(s) != nil]: the first dot or colon decides; an address with a
    zone is none. *)
Fixpoint ip_kind (s : bytes) : option bool :=
  match s with
  | [] => None
  | c :: r => if Ascii.eqb c dot then Some false else if Ascii.eqb c ":" then Some true else if Ascii.eqb c percent then None else ip_kind r
  end.
Definition ParseIP (s : bytes) : bool :=
  match ip_kind s with
  | None => false
  | Some false => ParseIPv4 s
  | Some true => negb (existsb (Ascii.eqb percent) s) && ParseIPv6 s
  end.

(** [validHost]. *)
Definition validHost (h : string) : option HostError :=
  let b := bstr h in
  if ParseIP b then None
  else if Contains b (bstr "://") then Some HasScheme
  else if Contains b (bstr ":") then Some HasPort
  else if existsb (fun c => bool_decide (byte_val c ∈ [47; 32; 9; 13; 10])) b || (253 <? List.length b)%nat then Some NotHostName
  else None.

(** ** The checks *)

Section Validation.
Context `{URLs}.

(** [validateDomain]. *)
Definition validateDomain (s : Spec) : option SpecError :=
  match NormalizeDomain (sp_domain s) with
  | inr e => Some e
  | inl _ =>
      if String.eqb (sp_rdap_url s) "" then None
      else match url_Parse (sp_rdap_url s) with
      | Some (scheme, host) =>
          if (negb (String.eqb scheme "http") && negb (String.eqb scheme "https")) || String.eqb host "" then Some (SERDAPURL (sp_rdap_url s)) else None
      | None => Some (SERDAPURL (sp_rdap_url s))
      end
  end.

(** [validateTLS]. *)
Definition validateTLS (s : Spec) : option SpecError :=
  if String.eqb (sp_host s) "" then Some SEHostRequired
  else match validHost (sp_host s) with
  | Some e => Some (SEHost (sp_host s) e)
  | None =>
      if (sp_port s <? 0) || (65535 <? sp_port s) then Some (SEPort (sp_port s))
      else match (if String.eqb (sp_server_name s) "" then None else validHost (sp_server_name s)) with
      | Some e => Some (SEServerName (sp_server_name s) e)
      | None =>
          if negb (bool_decide (sp_starttls s ∈ [""; "smtp"; "imap"]%string)) then Some (SEStartTLS (sp_starttls s))
          else if SFltb (sp_renew_after_fraction s) (S754_zero false) || SFleb (float_of 1) (sp_renew_after_fraction s) then
            Some (SEFraction (sp_renew_after_fraction s))
          else if negb (String.eqb (sp_ca_file s) "") && negb (IsAbs (sp_ca_file s)) then Some (SECAFile (sp_ca_file s))
          else None
      end
  end.

(** [ValidateSpec]; [None] is a job without settings, which are then the zero
    ones. *)
Definition ValidateSpec (t : JobType) (s : option Spec) : option SpecError :=
  if negb (HasSpec t) then None
  else
    let s := default zero_spec s in
    if ((sp_warn_days s <? 0) || (MaxWarnDays <? sp_warn_days s)) && negb (bool_decide (t = Drill)) then Some (SEWarnDays (sp_warn_days s))
    else match t with
    | TLS => validateTLS s
    | Domain => validateDomain s
    | Expiry => validateExpiry s
    | Drill => validateDrill s
    | _ => None
    end.

End Validation.

(** ** The messages *)

Section Messages.
Context `{GoText}.

Definition quoted (s : string) : bytes := Quote (bstr s).

Definition host_error_text (e : HostError) : bytes :=
  match e with
  | HasScheme => bstr "give the host name alone, without a scheme"
  | HasPort => bstr "give the host name alone; the port has its own setting"
  | NotHostName => bstr "not a host name"
  end.

(** The texts of the errors. *)
Definition spec_error_text (e : SpecError) : bytes :=
  match e with
  | SEWarnDays n => bstr "warn_days must be from 0 to 3650, got " ++ Itoa n
  | SERestoreRequired => bstr "restore is required for drill jobs"
  | SECheckEmpty i => bstr "check " ++ Itoa (Z.of_nat i) ++ bstr " is empty"
  | SEScratchDir s => bstr "scratch_dir must be an absolute path, got " ++ quoted s
  | SEMaxDuration n => bstr "max_duration_seconds must be 0 (no limit) or positive, got " ++ Itoa n
  | SEExpiryBoth => bstr "set expires_at or expiry_command, not both"
  | SEExpiryNone => bstr "expires_at or expiry_command is required for expiry jobs"
  | SEDomainRequired => bstr "domain is required for domain jobs"
  | SEDomainNotASCII s => bstr "domain " ++ quoted s ++ bstr ": give an internationalized name in its ASCII form (xn--...)"
  | SENotDomain s => bstr "domain " ++ quoted s ++ bstr " is not a domain name"
  | SENoTLD s => bstr "domain " ++ quoted s ++ bstr " is not a registered domain (it has no TLD)"
  | SERDAPURL s => bstr "rdap_url must be an http:// or https:// URL, got " ++ quoted s
  | SEHostRequired => bstr "host is required for tls jobs"
  | SEHost s e => bstr "host " ++ quoted s ++ bstr ": " ++ host_error_text e
  | SEPort n => bstr "port must be between 1 and 65535 (0 for the default), got " ++ Itoa n
  | SEServerName s e => bstr "server_name " ++ quoted s ++ bstr ": " ++ host_error_text e
  | SEStartTLS s => bstr "starttls must be smtp or imap (or unset for TLS from the start), got " ++ quoted s
  | SEFraction f => bstr "renew_after_fraction must be at least 0 (off) and below 1, got " ++ FormatG f
  | SECAFile s => bstr "ca_file must be an absolute path, got " ++ quoted s
  end.

End Messages.

(** ** Facts *)

(** A registered domain name in ASCII, in its normal form. *)
Definition domain_name (d : bytes) : Prop :=
  (List.length d <= 253)%nat /\ Forall (fun l => validLabel l = true) (Split dot d) /\ (2 <= List.length (Split dot d))%nat.

Lemma validLabel_ldh l : validLabel l = true -> l <> [] /\ forallb ldh l = true.
Proof. destruct l as [|c l]; [done|]. cbn [validLabel]. destruct (_ || _); done. Qed.

Lemma Split_bytes sep s c : c ∈ s -> c = sep \/ exists p, p ∈ Split sep s /\ c ∈ p.
Proof.
  induction s as [|x s IH]; [by intros ?%elem_of_nil|]. intros [->|Hc]%elem_of_cons; simpl; destruct (Ascii.eqb_spec x sep) as [->|Hx]; [by left| | |].
  - right. pose proof (Split_nonempty sep s). destruct (Split sep s) as [|p ps]; [done|]. exists (x :: p). split; left.
  - destruct (IH Hc) as [->|(p & Hp & Hcp)]; [by left|right]. exists p. split; [by right|done].
  - destruct (IH Hc) as [->|(p & Hp & Hcp)]; [by left|right]. pose proof (Split_nonempty sep s). destruct (Split sep s) as [|q ps]; [done|].
    apply elem_of_cons in Hp as [->|Hp]; [exists (x :: q); split; [left|by right]|]. exists p. split; [by right|done].
Qed.

Definition domain_byte (c : ascii) : bool := ldh c || Ascii.eqb c dot.

Lemma domain_name_bytes d : domain_name d -> forallb domain_byte d = true.
Proof.
  intros (_ & Hf & _). apply forallb_forall. intros c Hc. apply list_elem_of_In, (Split_bytes dot) in Hc as [->|(p & Hp & Hc)]; [by vm_compute|].
  rewrite Forall_elem in Hf. apply Hf, validLabel_ldh in Hp as [_ Hp]. rewrite forallb_forall in Hp. unfold domain_byte. rewrite Hp; [done|by apply list_elem_of_In].
Qed.

(** A property of every byte value, by computation. *)
Lemma byte_forall (P : ascii -> bool) : forallb (fun n => P (ascii_of_N (N.of_nat n))) (seq 0 256) = true -> forall c, P c = true.
Proof.
  intros Hf c. rewrite forallb_forall in Hf. specialize (Hf (N.to_nat (N_of_ascii c))). rewrite N2Nat.id, ascii_N_embedding in Hf.
  apply Hf, in_seq. pose proof (N_ascii_bounded c). lia.
Qed.

Lemma domain_byte_facts c : domain_byte c = true ->
  first_byte c = Some (1%nat, 0, 0) /\ is_space ([c], true) = false /\ to_lower c = c /\ (127 <? byte_val c) = false.
Proof.
  intros Hc. assert (H : implb (domain_byte c) (bool_decide (first_byte c = Some (1%nat, 0, 0)) && negb (is_space ([c], true))
    && bool_decide (to_lower c = c) && negb (127 <? byte_val c)) = true).
  { revert c Hc. intros c _. revert c. apply byte_forall. vm_compute. reflexivity. }
  rewrite Hc in H. cbn [implb] in H. rewrite !andb_true_iff, !bool_decide_eq_true, !negb_true_iff in H. tauto.
Qed.

Lemma chunks_domain d : forallb domain_byte d = true -> chunks d = map (fun c => ([c], true)) d.
Proof.
  induction d as [|c d IH]; [done|]. cbn [forallb]. intros [Hc Hd]%andb_true_iff. destruct (domain_byte_facts c Hc) as [Ef _].
  rewrite chunks_cons. assert (Er : rune_len (c :: d) = Some 1%nat) by (unfold rune_len; rewrite Ef; done).
  rewrite Er. change (drop 1 (c :: d)) with d. by rewrite IH.
Qed.

Lemma TrimSpace_domain d : forallb domain_byte d = true -> TrimSpace d = d.
Proof.
  intros Hd. unfold TrimSpace. rewrite (chunks_domain d Hd).
  assert (Hdw : forall l : bytes, forallb domain_byte l = true -> drop_while is_space (map (fun c => ([c], true)) l) = map (fun c => ([c], true)) l).
  { intros [|c l]; [done|]. cbn [forallb map]. intros [Hc _]%andb_true_iff. destruct (domain_byte_facts c Hc) as (_ & Es & _). cbn [drop_while]. by rewrite Es. }
  rewrite Hdw by done. rewrite <- map_rev, Hdw.
  - rewrite <- map_rev, rev_involutive, map_map. clear. induction d as [|c d IH]; [done|]. simpl. by f_equal.
  - apply forallb_forall. intros c Hc. rewrite forallb_forall in Hd. apply Hd. by apply in_rev.
Qed.

Lemma ToLower_domain d : forallb domain_byte d = true -> ToLower d = d.
Proof.
  intros Hd. unfold ToLower. rewrite (chunks_domain d Hd), map_map. induction d as [|c d IH]; [done|].
  cbn [forallb] in Hd. apply andb_true_iff in Hd as [Hc Hd]. destruct (domain_byte_facts c Hc) as (_ & _ & El & _). simpl. rewrite El. f_equal. by apply IH.
Qed.

Lemma bstr_str d : bstr (str d) = d.
Proof. apply list_ascii_of_string_of_list_ascii. Qed.

Lemma NormalizeDomain_id d : domain_name d -> NormalizeDomain (str d) = inl d.
Proof.
  intros Hn. pose proof (domain_name_bytes d Hn) as Hb. destruct Hn as (Hl & Hf & H2).
  unfold NormalizeDomain. rewrite bstr_str, TrimSpace_domain, ToLower_domain by done.
  assert (Et : trim_suffix d [dot] = d /\ d <> []).
  { rewrite <- (Join_Split dot d). destruct (exists_last (Split_nonempty dot d)) as (ps & p & E). rewrite E in *. destruct (Join_last dot ps p) as [q ->].
    apply Forall_app in Hf as [_ Hp]. pose proof (Forall_inv Hp) as Hv. apply validLabel_ldh in Hv as [Hne Hv].
    split; [apply trim_suffix_free; [|done]|by destruct q]. intros Hin. rewrite forallb_forall in Hv. by specialize (Hv dot (proj1 (list_elem_of_In _ _) Hin)). }
  destruct Et as [-> Hne]. cbv zeta. replace (is_nil d) with false by by destruct d.
  assert (Ha : existsb (fun c => 127 <? byte_val c) d = false).
  { apply not_true_iff_false. intros (c & Hc & Hx)%existsb_exists. rewrite forallb_forall in Hb. apply Hb, domain_byte_facts in Hc as (_ & _ & _ & Ec). congruence. }
  rewrite Ha. destruct (Nat.ltb_spec 253 (List.length d)); [lia|].
  assert (Hall : forallb validLabel (Split dot d) = true) by (apply forallb_forall; intros l Hin; rewrite Forall_elem in Hf; by apply Hf, list_elem_of_In).
  rewrite Hall. cbn [negb]. destruct (Nat.ltb_spec (List.length (Split dot d)) 2); [lia|done].
Qed.

(** what [NormalizeDomain] returns is a registered domain name in ASCII in
    its normal form, and exactly those names it returns unchanged: normalizing
    is idempotent and reaches every name. *)
Theorem NormalizeDomain_type (d : bytes) :
  (domain_name d <-> NormalizeDomain (str d) = inl d) /\ ((exists s, NormalizeDomain s = inl d) <-> domain_name d).
Proof.
  assert (Hn : forall s, NormalizeDomain s = inl d -> domain_name d).
  { intros s. unfold NormalizeDomain. set (x := trim_suffix _ _). destruct (is_nil x); [done|]. destruct (existsb _ x); [done|]. cbv zeta.
    destruct (Nat.ltb_spec 253 (List.length x)); [done|]. destruct (forallb validLabel (Split dot x)) eqn:Ef; [|done].
    destruct (Nat.ltb_spec (List.length (Split dot x)) 2); [done|]. intros [= <-]. split; [lia|]. split; [|lia].
    rewrite Forall_elem. intros l Hl. rewrite forallb_forall in Ef. by apply Ef, list_elem_of_In. }
  split; split; [apply NormalizeDomain_id|apply Hn|intros [s Hs]; by eapply Hn|]. intros Hd. exists (str d). by apply NormalizeDomain_id.
Qed.

Example NormalizeDomain_examples : map NormalizeDomain [" Example.COM. "; "localhost"; "a..b"; "-a.com"; "8.8.8.8"; ""]%string
  = [inl (bstr "example.com"); inr (SENoTLD "localhost"); inr (SENotDomain "a..b"); inr (SENotDomain "-a.com"); inl (bstr "8.8.8.8"); inr SEDomainRequired]%string.
Proof. vm_compute. reflexivity. Qed.

(** A name written with the Kelvin sign is no ASCII, but its lower case is. *)
Definition kelvin_com : string := str (["226"; "132"; "170"]%char ++ bstr ".com").
Example NormalizeDomain_kelvin : NormalizeDomain kelvin_com = inl (bstr "k.com").
Proof. vm_compute. reflexivity. Qed.

Example validHost_examples : map validHost ["::1"; "fe80::1%eth0"; "1.2.3.4"; "https://x"; "x:443"; "a b"; "::ffff:1.2.3.4"; "1:2:3:4:5:6:7:8"; "1:2"]%string
  = [None; Some HasPort; None; Some HasScheme; Some HasPort; Some NotHostName; None; None; Some HasPort].
Proof. vm_compute. reflexivity. Qed.

(** settings that pass [ValidateSpec] can be stored, with one exception:
    a renewal fraction that is not a number passes both comparisons, and JSON
    cannot hold it. *)
Theorem ValidateSpec_storable `{URLs} (s : Spec) : ValidateSpec TLS (Some s) = None ->
  ((exists spec, encodeSpec (Some s) = Ok spec) <-> sp_renew_after_fraction s <> S754_nan) /\
  ValidateSpec TLS (Some (sp_with_fraction s S754_nan)) = None /\ encodeSpec (Some (sp_with_fraction s S754_nan)) = Error ErrMarshal.
Proof.
  unfold ValidateSpec, validateTLS. cbn [HasSpec negb default from_option]. unfold sp_with_fraction.
  cbn [sp_warn_days sp_host sp_port sp_server_name sp_starttls sp_renew_after_fraction sp_ca_file].
  destruct (_ && _); [done|]. destruct (String.eqb _ _); [done|]. destruct (validHost _); [done|]. destruct (_ || _); [done|].
  destruct (if String.eqb (sp_server_name s) "" then _ else _); [done|]. destruct (negb (bool_decide _)); [done|].
  intros Hv. split; [|split; [|done]].
  - unfold encodeSpec. revert Hv. unfold id.
    destruct (sp_renew_after_fraction s) as [b|[]| |b m e]; cbn [json_number]; intros Hv; try done; (split; [done|by eauto]) || (split; [by intros [? ?]|done]).
  - change (SFltb S754_nan (S754_zero false) || SFleb (float_of 1) S754_nan) with false. cbv iota. unfold id in *. destruct (_ || _) in Hv; [done|exact Hv].
Qed.

#[local] Instance no_urls : URLs := fun _ => None.
Definition a_tls_spec : Spec :=
  {| sp_warn_days := 14; sp_host := "example.com"; sp_port := 0; sp_server_name := ""; sp_starttls := ""; sp_insecure_skip_verify := false; sp_ca_file := "";
     sp_renew_after_fraction := DefaultRenewAfterFraction; sp_domain := ""; sp_rdap_url := ""; sp_expires_at := zero_time; sp_expiry_command := "";
     sp_restore := ""; sp_checks := []; sp_cleanup := ""; sp_scratch_dir := ""; sp_max_duration_seconds := 0 |}.

Lemma ValidateSpec_storable_witness : (exists spec, encodeSpec (Some a_tls_spec) = Ok spec) /\
  ValidateSpec TLS (Some (sp_with_fraction a_tls_spec S754_nan)) = None.
Proof.
  destruct (ValidateSpec_storable a_tls_spec eq_refl) as (Hs & Hn & _). split; [|exact Hn]. apply Hs. vm_compute. discriminate.
Defined.
