(* ===== verification/Probe.v ===== *)
(** * The verdicts of the probes ([internal/jobs/probe.go], [probe_expiry.go],
    [probe_domain.go], [probe_tls.go])

    How a probe judges what it found: a date, a registry's answer, a
    certificate. What was fetched is an argument; the fetching is in [StartTLS]
    and [Fetch]. Of [crypto/x509] a certificate is what the code reads of it,
    with the answers of its two checks. *)
From S2P Require Import Prelude GoTime Domain Heartbeat Utf8 Tail Executor Failure Redact Capture GoStrings Sql Schema JobSpec.
Open Scope Z_scope.

(** [day], and the exit codes. *)
Definition day : Duration := 24 * Hour.
Definition probeExitFailed : Z := 1.
Definition probeExitError : Z := -1.

(** ** Texts *)

(** The date of a day, counted from January 1 of year 1. *)
Definition leap (y : Z) : bool := (y mod 4 =? 0) && (negb (y mod 100 =? 0) || (y mod 400 =? 0)).
Fixpoint month_day (months : list Z) (m d : Z) : Z * Z :=
  match months with
  | [] => (m, d + 1)
  | n :: r => if d <? n then (m, d + 1) else month_day r (m + 1) (d - n)
  end.
Definition civil (days : Z) : Z * Z * Z :=
  let r := days mod 146097 in
  let n100 := Z.min 3 (r / 36524) in
  let r100 := r - n100 * 36524 in
  let r4 := r100 mod 1461 in
  let n1 := Z.min 3 (r4 / 365) in
  let y := days / 146097 * 400 + n100 * 100 + r100 / 1461 * 4 + n1 + 1 in
  let '(m, d) := month_day [31; if leap y then 29 else 28; 31; 30; 31; 30; 31; 31; 30; 31; 30] 1 (r4 - n1 * 365) in
  (y, m, d).

Definition padded (width : nat) (n : Z) : bytes :=
  let ds := Itoa (Z.abs n) in (if n <? 0 then bstr "-" else []) ++ replicate (width - List.length ds) "0"%char ++ ds.

(** [dateText]: RFC 3339 in UTC. *)
Definition dateText (t : Time) : bytes :=
  let '(y, m, d) := civil (t / day) in
  let s := t mod day / Second in
  padded 4 y ++ bstr "-" ++ padded 2 m ++ bstr "-" ++ padded 2 d ++ bstr "T"
  ++ padded 2 (s / 3600) ++ bstr ":" ++ padded 2 (s / 60 mod 60) ++ bstr ":" ++ padded 2 (s mod 60) ++ bstr "Z".

Example dateText_examples : map (fun t => str (dateText t)) [zero_time; 63935136000 * Second; 63745056000 * Second; 63745056000 * Second - 1]
  = ["0001-01-01T00:00:00Z"; "2027-01-10T00:00:00Z"; "2021-01-01T00:00:00Z"; "2020-12-31T23:59:59Z"]%string.
Proof. vm_compute. reflexivity. Qed.

(** [plural], [humanDays], [floorDays] and [warnText]. *)
Definition plural (n : Z) (unit : string) : bytes :=
  if n =? 1 then bstr "1 " ++ bstr unit else Itoa n ++ bstr " " ++ bstr unit ++ bstr "s".
Definition humanDays (d : Duration) : bytes :=
  let d := if d <? 0 then wrap64 (- d) else d in
  if 2 * day <=? d then Itoa (Z.quot d day) ++ bstr " days"
  else if Hour <=? d then plural (Z.quot d Hour) "hour"
  else plural (Z.quot d Minute) "minute".
Definition floorDays (d : Duration) : Z :=
  let n := Z.quot d day in if (d <? 0) && negb (Z.rem d day =? 0) then n - 1 else n.
Definition warnText (warnDays : Z) : bytes :=
  if warnDays =? 0 then bstr "warns once expired" else bstr "warns " ++ Itoa warnDays ++ bstr " days before".

(** [Duration.Round]. *)
Definition DurationRound (d m : Duration) : Duration :=
  let r := Z.rem d m in
  if d <? 0 then
    if - r + - r <? m then d + - r else if min_int64 <=? d - m + - r then d - m + - r else min_int64
  else if r + r <? m then d - r else if d + m - r <=? max_int64 then d + m - r else max_int64.

(** [durationText]. *)
Definition durationText (d : Duration) : bytes :=
  if d <? Minute then DurationString (DurationRound d Millisecond)
  else
    let out := DurationString (DurationRound d Second) in
    let out := if bool_decide (lastn 3 out = bstr "m0s") then trim_suffix out (bstr "0s") else out in
    if bool_decide (lastn 3 out = bstr "h0m") then trim_suffix out (bstr "0m") else out.

Example durationText_examples : map (fun d => str (durationText d)) [48 * Hour; 14 * Hour + 24 * Minute; 90 * Second; 1500 * Millisecond]
  = ["48h"; "14h24m"; "1m30s"; "1.5s"]%string.
Proof. vm_compute. reflexivity. Qed.

(** [strings.Join]. *)
Fixpoint JoinWith (sep : bytes) (ps : list bytes) : bytes :=
  match ps with [] => [] | [p] => p | p :: r => p ++ sep ++ JoinWith sep r end.

(** ** Reports *)

(** [probeReport]: the problems fail the run. *)
Record probeReport := { problems : list bytes; info : list bytes }.
Definition empty_report : probeReport := {| problems := []; info := [] |}.
Definition fail (r : probeReport) (p : bytes) : probeReport := {| problems := problems r ++ [p]; info := info r |}.

Definition pad_to (n : nat) (s : bytes) : bytes := s ++ replicate (n - List.length s) " "%char.
Definition info_line (key : string) (value : bytes) : bytes := pad_to 12 (bstr key ++ bstr ":") ++ bstr " " ++ value.
Definition add (r : probeReport) (key : string) (value : bytes) : probeReport :=
  {| problems := problems r; info := info r ++ [info_line key value] |}.

Definition trim_right_nl (s : bytes) : bytes := rev (drop_while (fun c => Ascii.eqb c nl) (rev s)).

(** The lines the output opens with. *)
Definition fail_lines (ps : list bytes) : bytes := mjoin (map (fun p => bstr "FAIL: " ++ p ++ [nl]) ps).

(** [probeReport.result]. *)
Definition result (r : probeReport) (attempt : Z) (started ended : Time) (okLine : bytes) : RunResult :=
  let failed := negb (bool_decide (problems r = [])) in
  let b := (if failed then fail_lines (problems r) else bstr "ok: " ++ okLine ++ [nl])
           ++ (if bool_decide (info r = []) then [] else nl :: Join nl (info r)) in
  {| rs_status := if failed then StatusFailed else StatusSucceeded; rs_exit_code := if failed then probeExitFailed else 0;
     rs_output := trim_right_nl b; rs_truncated := false; rs_attempt := attempt; rs_started := started; rs_ended := ended |}.

(** What stopped a context, if anything has. *)
Inductive CtxErr := Running | Canceled | DeadlineExceeded.
#[export] Instance CtxErr_eq_dec : EqDecision CtxErr.
Proof. solve_decision. Defined.

(** [probeErrorResult]. *)
Definition probeErrorResult (ctx : CtxErr) (attempt : Z) (started ended : Time) (err : bytes) : RunResult :=
  let late := bool_decide (ctx = DeadlineExceeded) in
  {| rs_status := if late then StatusTimedOut else StatusFailed; rs_exit_code := if late then 0 else probeExitError;
     rs_output := (if late then bstr "timed out: " else bstr "error: ") ++ err; rs_truncated := false;
     rs_attempt := attempt; rs_started := started; rs_ended := ended |}.

(** How a command ended: [CmdExit] is an [exec.ExitError]. *)
Inductive CmdErr := CmdOk | CmdExit (code : Z) | CmdOther.

(** [shellOutcome] ([executor.go]). *)
Definition shellOutcome (ctx : CtxErr) (err : CmdErr) : RunStatus * Z :=
  if bool_decide (ctx = DeadlineExceeded) then (StatusTimedOut, 0)
  else match err with CmdOk => (StatusSucceeded, 0) | CmdExit code => (StatusFailed, code) | CmdOther => (StatusFailed, -1) end.

(** [specOf]. *)
Definition specOf (j : Job) : Spec := default zero_spec (j_spec j).

(** ** Expiry dates *)

Section Probes.
Context `{GoText}.

(** [ParseExpiryDate]. *)
Definition ParseExpiryDate (s : bytes) : option Time :=
  match (match time_Parse RFC3339 s with Some t => Some t | None => time_Parse DateOnly s end) with
  | None => None
  | Some t => if IsZero t then None else Some t
  end.

Definition maxExpiryStdout : nat := Z.to_nat 4096.

(** [expiryFromStdout]: what was captured of the stdout, and whether more was printed. *)
Definition expiryFromStdout (stdout : bytes) (truncated : bool) : Time + bytes :=
  if truncated then inr (bstr "expiry_command printed more than 4096 bytes; it must print one date")
  else
    let out := TrimSpace stdout in
    if is_nil out then inr (bstr "expiry_command printed nothing; it must print one date")
    else if existsb (fun c => (byte_val c =? 13) || (byte_val c =? 10)) out then
      inr (bstr "expiry_command printed more than one line; it must print one date")
    else match ParseExpiryDate out with
    | Some t => inl t
    | None => inr (bstr "expiry_command printed " ++ ["034"%char] ++ out ++ ["034"%char]
                   ++ bstr ", which is not an RFC 3339 date (2027-01-31T00:00:00Z) or a date (2027-01-31)")
    end.

(** [judgeExpiry]; [now] and [ended] are its readings of the clock. *)
Definition expiry_report (now expires : Time) (source : bytes) (warnDays : Z) : probeReport :=
  let left := TimeSub expires now in
  let r := add (add empty_report "expires_at" (dateText expires ++ bstr " (" ++ source ++ bstr ")")) "days_left" (Itoa (floorDays left)) in
  if left <=? 0 then fail r (bstr "expired " ++ humanDays left ++ bstr " ago (" ++ dateText expires ++ bstr ")")
  else if left <=? wrap64 (warnDays * day) then
    fail r (bstr "expires in " ++ humanDays left ++ bstr " (" ++ dateText expires ++ bstr "), within warn_days " ++ Itoa warnDays)
  else r.
Definition judgeExpiry (now expires : Time) (source : bytes) (warnDays attempt : Z) (started ended : Time) : RunResult :=
  result (expiry_report now expires source warnDays) attempt started ended
    (bstr "expires in " ++ humanDays (TimeSub expires now) ++ bstr " (" ++ dateText expires ++ bstr "; " ++ warnText warnDays ++ bstr ")").

Definition maxExpiryStderr : nat := Z.to_nat (Z.shiftl 16 10).

Context `{URLs}.

(** What an [expiry_command] did: the context's error once it was over, what
    [cmd.Run] returned, and its writes. *)
Record CmdRun := { cr_ctx : CtxErr; cr_err : CmdErr; cr_stdout : list bytes; cr_stderr : list bytes }.

(** [runOnceExpiry]; [cmd] is what its [expiry_command] does. *)
Definition runOnceExpiry (ctx : CtxErr) (cmd : CmdRun) (j : Job) (secrets : list bytes) (now : Time) (attempt : Z) (started ended : Time) : RunResult :=
  let s := specOf j in
  match ValidateSpec Expiry (Some s) with
  | Some e => probeErrorResult ctx attempt started ended (spec_error_text e)
  | None =>
      if blank (sp_expiry_command s) then judgeExpiry now (sp_expires_at s) (bstr "as configured") (sp_warn_days s) attempt started ended
      else
        let stdout := fold_left capped_write (cr_stdout cmd) (new_capped maxExpiryStdout) in
        let stderr := fold_left capped_write (cr_stderr cmd) (new_capped (maxExpiryStderr + secretMargin secrets)) in
        let '(status, code) := shellOutcome (cr_ctx cmd) (cr_err cmd) in
        let res :=
          match status with
          | StatusTimedOut => probeErrorResult (cr_ctx cmd) attempt started ended (bstr "expiry_command did not finish")
          | StatusFailed =>
              let r := probeErrorResult (cr_ctx cmd) attempt started ended (bstr "expiry_command exited with status " ++ Itoa code) in
              {| rs_status := rs_status r; rs_exit_code := code; rs_output := rs_output r; rs_truncated := rs_truncated r;
                 rs_attempt := rs_attempt r; rs_started := rs_started r; rs_ended := rs_ended r |}
          | _ =>
              match expiryFromStdout (capped_String stdout) (cb_truncated stdout) with
              | inr err => probeErrorResult (cr_ctx cmd) attempt started ended err
              | inl t => judgeExpiry now t (bstr "printed by expiry_command") (sp_warn_days s) attempt started ended
              end
          end in
        let errText := TrimSpace (cutRedacted (cb_buf stderr) (cb_truncated stderr) maxExpiryStderr secrets (nl :: bstr "... [stderr truncated]")) in
        if is_nil errText then res
        else {| rs_status := rs_status res; rs_exit_code := rs_exit_code res; rs_output := rs_output res ++ [nl; nl] ++ bstr "stderr:" ++ [nl] ++ errText;
                rs_truncated := rs_truncated res; rs_attempt := rs_attempt res; rs_started := rs_started res; rs_ended := rs_ended res |}
  end.

(** ** Domains *)

(** [strings.EqualFold] with a text in ASCII: of the other runes, U+017F folds
    to an s and U+212A to a k. *)
Definition fold_rune (r : bytes * bool) : bytes :=
  match r with
  | ([c], true) => [to_lower c]
  | (r, true) => if bool_decide (r = ["197"; "191"]%char) then bstr "s" else if bool_decide (r = ["226"; "132"; "170"]%char) then bstr "k" else r
  | (r, false) => r
  end.
Definition EqualFold (s t : bytes) : bool := bool_decide (map fold_rune (chunks s) = map fold_rune (chunks t)).

(** [rdapDomainAnswer]: its statuses and its events, by action. *)
Record rdapDomainAnswer := { ra_class : string; ra_status : list bytes; ra_events : list (bytes * bytes) }.

Definition lapsedStatuses : list bytes := [bstr "redemption period"; bstr "pending delete"; bstr "pending restore"].

(** [rdapDomainAnswer.event]. *)
Definition event_date (a : rdapDomainAnswer) (action : string) : bytes :=
  match List.find (fun ev => EqualFold (fst ev) (bstr action)) (ra_events a) with Some ev => snd ev | None => [] end.

(** [parseRDAPDate]. *)
Fixpoint first_parse (ls : list Layout) (s : bytes) : option Time :=
  match ls with [] => None | l :: r => match time_Parse l s with Some t => Some t | None => first_parse r s end end.
Definition parseRDAPDate (s : bytes) : option Time := first_parse [RFC3339; DateTimeNoZone; DateOnly] s.

Definition lapsed (st : bytes) : bool := bool_decide (ToLower st ∈ lapsedStatuses).

(** The [switch] of [checkDomain] on the date it found. *)
Definition expiration_report (raw which : bytes) (now : Time) (warnDays : Z) : probeReport * Time :=
  if is_nil raw then
    (fail empty_report (bstr "the registry's RDAP answer has no expiration date; some registries leave it out (watch the date with an expiry job instead)"), zero_time)
  else match parseRDAPDate raw with
  | None => (fail empty_report (bstr "the expiration date " ++ Quote raw ++ bstr " is not a date"), zero_time)
  | Some exp =>
      let left := TimeSub exp now in
      let r := add (add empty_report "expiration" (dateText exp ++ which)) "days_left" (Itoa (floorDays left)) in
      let r :=
        if left <=? 0 then fail r (bstr "registration expired " ++ humanDays left ++ bstr " ago (" ++ dateText exp ++ bstr ")")
        else if left <=? wrap64 (warnDays * day) then
          fail r (bstr "registration expires in " ++ humanDays left ++ bstr " (" ++ dateText exp ++ bstr "), within warn_days " ++ Itoa warnDays)
        else r in
      (r, exp)
  end.

(** [checkDomain]. *)
Definition checkDomain (a : rdapDomainAnswer) (now : Time) (warnDays : Z) : probeReport * Time :=
  let reg := event_date a "expiration" in
  let '(raw, which) :=
    if is_nil reg then
      let raw := event_date a "registrar expiration" in
      (raw, if is_nil raw then [] else bstr " (the registrar's expiration; the registry gives none)")
    else (reg, []) in
  let '(r, exp) := expiration_report raw which now warnDays in
  let r := fold_left (fun r st => if lapsed st then
    fail r (bstr "the registry lists the domain as " ++ Quote st ++ bstr ": its registration has lapsed") else r) (ra_status a) r in
  let r := if bool_decide (ra_status a = []) then r else
    add r "status" (JoinWith (bstr ", ") (ra_status a)) in
  let r := match parseRDAPDate (event_date a "registration") with Some t => add r "registered" (dateText t) | None => r end in
  let r := match parseRDAPDate (event_date a "last changed") with Some t => add r "changed" (dateText t) | None => r end in
  (r, exp).

(** ** The RDAP bootstrap file *)

(** [rdapService] and [rdapBootstrap]. *)
Record rdapService := { sv_tlds : list bytes; sv_urls : list bytes }.
Record rdapBootstrap := { bt_fetched : Time; bt_services : list rdapService }.

(** [rdapBootstrap.service]: the suffixes of the domain from the longest on,
    without the domain itself. *)
Fixpoint service_of (svcs : list rdapService) (labels : list bytes) : option rdapService :=
  match labels with
  | [] => None
  | _ :: r =>
      match List.find (fun svc => existsb (fun tld => EqualFold tld (Join dot labels)) (sv_tlds svc)) svcs with
      | Some svc => Some svc
      | None => service_of svcs r
      end
  end.
Definition service (b : rdapBootstrap) (domain : bytes) : option rdapService := service_of (bt_services b) (tail (Split dot domain)).

(** [withSlash]. *)
Definition withSlash (u : bytes) : bytes := if bool_decide (lastn 1 u = bstr "/") then u else u ++ bstr "/".

(** [rdapBootstrap.lookup] and [listsPlainHTTP]. *)
Definition lookup_rdap (b : rdapBootstrap) (domain : bytes) : option bytes :=
  match service b domain with
  | None => None
  | Some svc => withSlash <$> List.find (fun u => has_prefix (ToLower u) (bstr "https://")) (sv_urls svc)
  end.
Definition listsPlainHTTP (b : rdapBootstrap) (domain : bytes) : bool :=
  match service b domain with Some svc => negb (bool_decide (sv_urls svc = [])) | None => false end.

Definition rdapBootstrapTTL : Duration := 24 * Hour.

(** The last label of a name, with its dot. *)
Definition tld_of (domain : bytes) : bytes := bstr "." ++ List.last (Split dot domain) [].

(** [rdapBase]: the copy held and what fetching the file gives, if it is
    fetched; the copy held afterwards, and the base URL with a note, or the
    error. *)
Definition rdapBase (held : option rdapBootstrap) (fetch : rdapBootstrap + bytes) (domain : bytes) (now : Time) : option rdapBootstrap * ((bytes * bytes) + bytes) :=
  let stale := match held with None => true | Some b => (rdapBootstrapTTL <=? TimeSub now (bt_fetched b)) || Before now (bt_fetched b) end in
  let '(held, found) :=
    if stale then
      match fetch, held with
      | inl fresh, _ => let b := {| bt_fetched := now; bt_services := bt_services fresh |} in (Some b, inl (b, []))
      | inr err, Some b => (held, inl (b, bstr "the copy fetched " ++ dateText (bt_fetched b) ++ bstr " was used; fetching it again failed: " ++ err))
      | inr err, None => (held, inr (bstr "RDAP bootstrap file: " ++ err))
      end
    else match held with Some b => (held, inl (b, [])) | None => (held, inr []) end in
  (held,
   match found with
   | inr err => inr err
   | inl (b, note) =>
       match lookup_rdap b domain with
       | Some base => inl (base, note)
       | None =>
           if listsPlainHTTP b domain then
             inr (bstr "the IANA bootstrap file lists only plain http RDAP servers for " ++ Quote (tld_of domain)
                  ++ bstr ", which are not used unless asked for: set rdap_url to one to use it anyway")
           else
             inr (bstr "no RDAP server for " ++ Quote (tld_of domain)
                  ++ bstr " in the IANA bootstrap file; some TLDs have none: set rdap_url if the registry runs one, or watch the date with an expiry job")
       end
   end).

(** What a request to a registry gives: [getRDAP]'s status and its error, or
    the body, decoded as far as the probe reads it. *)
Inductive rdapReply := ReplyErr (status : Z) (err : bytes) | ReplyBody (answer : rdapDomainAnswer + bytes).

(** [runOnceDomain]; [fetch] and [ask] are what the two requests give. *)
Definition runOnceDomain (ctx : CtxErr) (held : option rdapBootstrap) (fetch : rdapBootstrap + bytes) (ask : bytes -> rdapReply)
    (j : Job) (now : Time) (attempt : Z) (started ended : Time) : option rdapBootstrap * RunResult :=
  let s := specOf j in
  let stop held err := (held, probeErrorResult ctx attempt started ended err) in
  match ValidateSpec Domain (Some s) with
  | Some e => stop held (spec_error_text e)
  | None =>
      let domain := match NormalizeDomain (sp_domain s) with inl d => d | inr _ => [] end in
      let r := add empty_report "domain" domain in
      let '(held, base) :=
        if String.eqb (sp_rdap_url s) "" then rdapBase held fetch domain now else (held, inl (bstr (sp_rdap_url s), [])) in
      match base with
      | inr err => stop held err
      | inl (base, note) =>
          let url := withSlash base ++ bstr "domain/" ++ domain in
          let r := add r "rdap" url in
          let noted r := if is_nil note then r else add r "bootstrap" note in
          match ask url with
          | ReplyErr status err =>
              if status =? 404 then
                (held, result (noted (fail r (bstr "the registry has no record of " ++ domain
                  ++ bstr " (HTTP 404): it is not registered, or was deleted after it lapsed"))) attempt started ended [])
              else stop held err
          | ReplyBody (inr err) => stop held (bstr "not an RDAP answer from " ++ url ++ bstr ": " ++ err)
          | ReplyBody (inl answer) =>
              if negb (String.eqb (ra_class answer) "domain") then
                stop held (bstr "not an RDAP answer for a domain from " ++ url ++ bstr " (objectClassName " ++ Quote (bstr (ra_class answer)) ++ bstr ")")
              else
                let '(checked, exp) := checkDomain answer now (sp_warn_days s) in
                let r := noted {| problems := problems checked; info := info r ++ info checked |} in
                (held, result r attempt started ended (domain ++ bstr " expires in " ++ humanDays (TimeSub exp now) ++ bstr " (" ++ dateText exp
                  ++ bstr "; " ++ warnText (sp_warn_days s) ++ bstr ")"))
          end
      end
  end.

(** The redirect policy of [rdapClient]: the number of requests made, the
    first one's scheme and host, and the next one's. *)
Definition maxRDAPRedirects : nat := 5.
Inductive RedirectErr := TooManyRedirects | LeavesHTTPS | LeavesHost.
Definition CheckRedirect (via : nat) (first next : string * bytes) : option RedirectErr :=
  if (maxRDAPRedirects <=? via)%nat then Some TooManyRedirects
  else if String.eqb (fst first) "https" && negb (String.eqb (fst next) "https") then Some LeavesHTTPS
  else if negb (EqualFold (snd next) (snd first)) then Some LeavesHost
  else None.

(** ** Certificates *)

(** What the probe reads of an [x509.Certificate], and its two checks: that
    of a host name, and that of the chain at a time, each with its error; the
    chain's says whether it is an [UnknownAuthorityError]. *)
Record Certificate := {
  ct_subject : bytes; ct_issuer : bytes; ct_not_before : Time; ct_not_after : Time; ct_names : list bytes;
  ct_VerifyHostname : bytes -> option bytes; ct_Verify : Time -> option (bytes * bool) }.

Record certCheck := { cc_now : Time; cc_name : bytes; cc_warn_days : Z; cc_fraction : spec_float; cc_verify : bool }.

(** [sansOf]. *)
Definition sansOf (c : Certificate) : bytes := if bool_decide (ct_names c = []) then bstr "(none)" else JoinWith (bstr ", ") (ct_names c).

Definition renewalGraceMax : Duration := 48 * Hour.

(** A [float64] as an [int64], towards zero, and as [%.0f] prints it, to the
    nearest integer, an even one in a tie. *)
Definition int_of_float (f : spec_float) : Z :=
  match f with S754_finite s m e => let n := if 0 <=? e then Z.pos m * 2 ^ e else Z.pos m / 2 ^ (- e) in if s then - n else n | _ => 0 end.
Definition round_half_even (f : spec_float) : Z :=
  match f with
  | S754_finite s m e =>
      let n := if 0 <=? e then Z.pos m * 2 ^ e
               else let q := Z.pos m / 2 ^ (- e) in let r := 2 * (Z.pos m mod 2 ^ (- e)) in
                    if (r <? 2 ^ (- e)) || ((r =? 2 ^ (- e)) && Z.even q) then q else q + 1 in
      if s then - n else n
  | _ => 0
  end.

(** [Time.Round] to the second: half up. *)
Definition RoundSecond (t : Time) : Time := let r := t mod Second in if r + r <? Second then t - r else t + (Second - r).

(** [renewalDue]. *)
Definition renewalDue (notBefore notAfter : Time) (fraction : spec_float) : Time * Duration :=
  let lifetime := TimeSub notAfter notBefore in
  (RoundSecond (TimeAdd notBefore (int_of_float (fmul (float_of lifetime) fraction))), Z.min renewalGraceMax (Z.quot lifetime 10)).

(** The certificate's lifetime in days, and the share of it that has passed. *)
Definition lifetime_days (lifetime : Duration) : Z := Z.quot (wrap64 (lifetime + Z.quot day 2)) day.
Definition used_percent (now nb : Time) (lifetime : Duration) : Z :=
  if 0 <? lifetime then int_of_float (fmul (fdiv (float_of (TimeSub now nb)) (float_of lifetime)) (float_of 100)) else 0.

(** Whether the renewal of a certificate in force has been missed. *)
Definition renewal_missed (c : certCheck) (nb na : Time) : bool :=
  let '(due, grace) := renewalDue nb na (cc_fraction c) in
  (0 <? TimeSub na (cc_now c)) && negb (Before (cc_now c) nb) && After (cc_now c) (TimeAdd due grace).

(** The moment the chain is judged as of. *)
Definition verify_time (now nb na : Time) : Time :=
  let at_ := if After now na then na else now in if Before at_ nb then nb else at_.

(** The parts of [checkCertificate]: whether the leaf is in force, whether its
    renewal was missed, and its chain. *)
Definition check_validity (leaf : Certificate) (c : certCheck) (r : probeReport) : probeReport :=
  let nb := ct_not_before leaf in let na := ct_not_after leaf in
  let left := TimeSub na (cc_now c) in
  if Before (cc_now c) nb then fail r (bstr "certificate is not valid until " ++ dateText nb)
  else if left <=? 0 then fail r (bstr "certificate expired " ++ humanDays left ++ bstr " ago (" ++ dateText na ++ bstr ")")
  else if left <=? wrap64 (cc_warn_days c * day) then
    fail r (bstr "certificate expires in " ++ humanDays left ++ bstr " (" ++ dateText na ++ bstr "), within warn_days " ++ Itoa (cc_warn_days c))
  else r.
Definition check_renewal (leaf : Certificate) (c : certCheck) (r : probeReport) : probeReport :=
  let nb := ct_not_before leaf in let na := ct_not_after leaf in
  let lifetime := TimeSub na nb in
  if SFltb (S754_zero false) (cc_fraction c) && (0 <? lifetime) then
    let '(due, grace) := renewalDue nb na (cc_fraction c) in
    let r := add r "renewal_due" (dateText due ++ bstr " (after " ++ Itoa (round_half_even (fmul (cc_fraction c) (float_of 100)))
      ++ bstr "% of the lifetime; missed once " ++ durationText grace ++ bstr " past that)") in
    if renewal_missed c nb na then
      fail r (bstr "renewal missed: " ++ Itoa (used_percent (cc_now c) nb lifetime) ++ bstr "% of the " ++ Itoa (lifetime_days lifetime)
        ++ bstr "-day lifetime has passed and the certificate was due for renewal on " ++ dateText due ++ bstr "; is the ACME client still renewing it?")
    else r
  else r.
Definition check_chain (leaf : Certificate) (sent : Z) (c : certCheck) (r : probeReport) : probeReport :=
  if negb (cc_verify c) then add r "chain" (bstr "not checked (insecure_skip_verify)")
  else match ct_Verify leaf (verify_time (cc_now c) (ct_not_before leaf) (ct_not_after leaf)) with
  | Some (err, unknown) =>
      add (fail r (bstr "chain does not verify: " ++ err ++
        (if unknown : bool then bstr " (set ca_file for a private CA, or insecure_skip_verify for a self-signed certificate)" else [])))
        "chain" (bstr "does not verify (" ++ Itoa sent ++ bstr " sent)")
  | None => add r "chain" (bstr "verified (" ++ Itoa sent ++ bstr " sent)")
  end.

(** [checkCertificate]; [sent] is the number of certificates in the chain. *)
Definition checkCertificate (leaf : Certificate) (sent : Z) (c : certCheck) : probeReport :=
  let nb := ct_not_before leaf in let na := ct_not_after leaf in
  let lifetime := TimeSub na nb in
  let r := add (add (add (add (add empty_report "subject" (ct_subject leaf)) "issuer" (ct_issuer leaf)) "not_before" (dateText nb))
    "not_after" (dateText na)) "days_left" (Itoa (floorDays (TimeSub na (cc_now c)))) in
  let r := if 0 <? lifetime then
    add r "lifetime" (Itoa (lifetime_days lifetime) ++ bstr " days, " ++ Itoa (Z.max (used_percent (cc_now c) nb lifetime) 0) ++ bstr "% used") else r in
  let r := add (check_renewal leaf c (check_validity leaf c r)) "sans" (sansOf leaf) in
  let r := match ct_VerifyHostname leaf (cc_name c) with Some err => fail r (bstr "host name mismatch: " ++ err) | None => r end in
  check_chain leaf sent c r.

(** [TLSPort] and [tlsName]. *)
Definition TLSPort (s : Spec) : Z :=
  if 0 <? sp_port s then sp_port s else if String.eqb (sp_starttls s) "smtp" then 25 else if String.eqb (sp_starttls s) "imap" then 143 else 443.
Definition tlsName (s : Spec) : string := if String.eqb (sp_server_name s) "" then sp_host s else sp_server_name s.

(** [net.JoinHostPort]: a host with a colon in it is put in brackets. *)
Definition JoinHostPort (host port : bytes) : bytes :=
  if Contains host (bstr ":") then bstr "[" ++ host ++ bstr "]:" ++ port else host ++ bstr ":" ++ port.

(** [runOnceTLS]: [roots] is [loadRoots]'s error, and [fetch] is
    [fetchChain]'s, or the leaf, with the number of certificates sent. *)
Definition runOnceTLS (ctx : CtxErr) (roots : option bytes) (fetch : (Certificate * Z) + bytes) (j : Job) (now : Time) (attempt : Z) (started ended : Time) : RunResult :=
  let s := specOf j in
  let stop err := probeErrorResult ctx attempt started ended err in
  match ValidateSpec TLS (Some s) with
  | Some e => stop (spec_error_text e)
  | None =>
      let addr := JoinHostPort (bstr (sp_host s)) (Itoa (TLSPort s)) in
      let name := tlsName s in
      match (if String.eqb (sp_ca_file s) "" then None else roots) with
      | Some err => stop err
      | None =>
          match fetch with
          | inr err => stop (bstr "tls " ++ addr ++ bstr ": " ++ err)
          | inl (leaf, sent) =>
              let r := checkCertificate leaf sent {| cc_now := now; cc_name := bstr name; cc_warn_days := sp_warn_days s;
                cc_fraction := sp_renew_after_fraction s; cc_verify := negb (sp_insecure_skip_verify s) |} in
              let target := addr ++ (if String.eqb name (sp_host s) then [] else bstr " (server name " ++ bstr name ++ bstr ")")
                ++ (if String.eqb (sp_starttls s) "" then [] else bstr " via STARTTLS (" ++ bstr (sp_starttls s) ++ bstr ")") in
              let na := ct_not_after leaf in
              result {| problems := problems r; info := info_line "target" target :: info r |} attempt started ended
                (bstr "certificate for " ++ bstr name ++ bstr " expires in " ++ humanDays (TimeSub na now) ++ bstr " (" ++ dateText na
                 ++ bstr "; " ++ warnText (sp_warn_days s) ++ bstr ")")
          end
      end
  end.

End Probes.

(** ** What the verdicts mean *)

Section Verdicts.
Context `{GoText}.

(** Whether something that ends at [t] is in time [now], with the warning. *)
Definition in_time (t now : Time) (warnDays : Z) : Prop := warnDays * day < t - now /\ 0 < t - now.

(** With a warning of the length [ValidateSpec] allows nothing overflows, not
    even for a date out of reach of a [Duration]. *)
Lemma in_time_spec t now w : 0 <= w <= MaxWarnDays ->
  ((TimeSub t now <=? 0) = false /\ (TimeSub t now <=? wrap64 (w * day)) = false) <-> in_time t now w.
Proof.
  intros Hw. unfold in_time. assert (Hd : day = 86400000000000) by reflexivity.
  assert (Hb : 0 <= w * day <= 3650 * 86400000000000) by (rewrite Hd; unfold MaxWarnDays in Hw; nia).
  rewrite wrap64_id by (unfold int64_range, min_int64, max_int64; lia). unfold TimeSub, min_int64, max_int64. lia.
Qed.

Lemma problems_add r k v : problems (add r k v) = problems r.
Proof. done. Qed.
Lemma problems_fail r p : problems (fail r p) <> [].
Proof. simpl. by destruct (problems r). Qed.

Lemma result_status r attempt started ended ok : let res := result r attempt started ended ok in
  (rs_status res = StatusSucceeded <-> problems r = []) /\ (problems r <> [] -> rs_status res = StatusFailed /\ rs_exit_code res = probeExitFailed).
Proof. unfold result. cbv zeta. case_bool_decide as E; simpl; [done|]. split; [split; [done|by intros ?]|done]. Qed.

(** a probe of a date succeeds exactly when the date is further away than
    its warning, in time as it is and not as 64 bits hold it, for every
    warning [ValidateSpec] lets through; otherwise it fails with exit code 1.
    Nothing in between: it never errs or times out. *)
Theorem judgeExpiry_spec (now expires : Time) (source : bytes) (w attempt : Z) (started ended : Time) : 0 <= w <= MaxWarnDays ->
  let res := judgeExpiry now expires source w attempt started ended in
  (rs_status res = StatusSucceeded <-> in_time expires now w) /\
  (~ in_time expires now w -> rs_status res = StatusFailed /\ rs_exit_code res = probeExitFailed).
Proof.
  intros Hw. unfold judgeExpiry. cbv zeta. destruct (result_status (expiry_report now expires source w) attempt started ended
    (bstr "expires in " ++ humanDays (TimeSub expires now) ++ bstr " (" ++ dateText expires ++ bstr "; " ++ warnText w ++ bstr ")")) as [Hs Hf].
  assert (Hp : problems (expiry_report now expires source w) = [] <-> in_time expires now w).
  { rewrite <- (in_time_spec expires now w Hw). unfold expiry_report. cbv zeta.
    destruct (TimeSub expires now <=? 0); [split; [done|by intros []]|]. destruct (TimeSub expires now <=? _); (split; [done|by intros []]). }
  split; [by rewrite Hs, Hp|]. intros Hn. apply Hf. by rewrite Hp.
Qed.

(** The date a registry's answer gives: its own expiration, or the
    registrar's when it has none. *)
Definition registered_until (a : rdapDomainAnswer) : option Time :=
  let raw := if is_nil (event_date a "expiration") then event_date a "registrar expiration" else event_date a "expiration" in
  if is_nil raw then None else parseRDAPDate raw.

Lemma problems_lapsed l r : problems (fold_left (fun r st => if lapsed st then
    fail r (bstr "the registry lists the domain as " ++ Quote st ++ bstr ": its registration has lapsed") else r) l r) = [] <->
  problems r = [] /\ Forall (fun st => lapsed st = false) l.
Proof.
  revert r. induction l as [|st l IH]; intros r; simpl; [split; [by intros ->|by intros [-> _]]|]. rewrite IH, Forall_cons.
  destruct (lapsed st); [|tauto]. split; [by intros [?%problems_fail _]|by intros [_ [? _]]].
Qed.

Lemma expiration_report_spec raw which now w : 0 <= w <= MaxWarnDays ->
  problems (fst (expiration_report raw which now w)) = [] <->
  exists exp, (if is_nil raw then None else parseRDAPDate raw) = Some exp /\ snd (expiration_report raw which now w) = exp /\ in_time exp now w.
Proof.
  intros Hw. unfold expiration_report. destruct (is_nil raw); [by (split; [|intros (? & ? & _)])|]. destruct (parseRDAPDate raw) as [exp|]; [|by (split; [|intros (? & ? & _)])].
  pose proof (in_time_spec exp now w Hw) as Ht. cbv zeta. cbn [snd fst].
  destruct (TimeSub exp now <=? 0), (TimeSub exp now <=? wrap64 (w * day)); (split; [|intros (x & [= <-] & _ & Hx); by apply Ht in Hx as [? ?]]); try done.
  intros _. exists exp. split; [done|]. split; [done|]. by apply Ht.
Qed.

(** a registry's answer is found in order exactly when it gives an
    expiration date, the registry's own before the registrar's, that parses
    and is in time, and none of its statuses says that the registration has
    lapsed; then the date reported is that one. *)
Theorem checkDomain_spec (a : rdapDomainAnswer) (now : Time) (w : Z) : 0 <= w <= MaxWarnDays ->
  problems (fst (checkDomain a now w)) = [] <->
  (exists exp, registered_until a = Some exp /\ snd (checkDomain a now w) = exp /\ in_time exp now w) /\
  Forall (fun st => lapsed st = false) (ra_status a).
Proof.
  intros Hw. unfold checkDomain, registered_until. cbv zeta.
  destruct (if is_nil (event_date a "expiration") then _ else _) as [raw which] eqn:Er.
  replace (if is_nil (event_date a "expiration") then event_date a "registrar expiration" else event_date a "expiration") with raw
    by (destruct (is_nil _); by injection Er as <- _).
  pose proof (expiration_report_spec raw which now w Hw) as Hr. destruct (expiration_report raw which now w) as [r0 exp0].
  cbn [fst snd] in *. rewrite <- Hr, <- problems_lapsed.
  destruct (parseRDAPDate (event_date a "registration")), (parseRDAPDate (event_date a "last changed")); rewrite ?problems_add; destruct (bool_decide _); done.
Qed.

(** What is checked of a certificate, one by one. *)
Definition in_force (c : certCheck) (leaf : Certificate) : Prop :=
  ct_not_before leaf <= cc_now c /\ in_time (ct_not_after leaf) (cc_now c) (cc_warn_days c).
Definition renewed (c : certCheck) (leaf : Certificate) : Prop :=
  SFltb (S754_zero false) (cc_fraction c) = true -> 0 < ct_not_after leaf - ct_not_before leaf ->
  renewal_missed c (ct_not_before leaf) (ct_not_after leaf) = false.
Definition chain_ok (c : certCheck) (leaf : Certificate) : Prop :=
  cc_verify c = true -> ct_Verify leaf (verify_time (cc_now c) (ct_not_before leaf) (ct_not_after leaf)) = None.

Lemma verify_time_inside now nb na : nb <= na -> nb <= verify_time now nb na <= na.
Proof.
  intros Hn. unfold verify_time, After, Before. destruct (Z.ltb_spec na now); [destruct (Z.ltb_spec na nb); lia|destruct (Z.ltb_spec now nb); lia].
Qed.

Lemma check_validity_spec leaf c r : 0 <= cc_warn_days c <= MaxWarnDays ->
  problems (check_validity leaf c r) = [] <-> problems r = [] /\ in_force c leaf.
Proof.
  intros Hw. unfold check_validity, in_force. rewrite <- (in_time_spec _ _ _ Hw). cbv zeta.
  assert (Hb : Before (cc_now c) (ct_not_before leaf) = false <-> ct_not_before leaf <= cc_now c) by (unfold Before; lia).
  rewrite <- Hb. destruct (Before _ _); [|destruct (TimeSub _ _ <=? 0); [|destruct (TimeSub _ _ <=? wrap64 _); [|tauto]]];
    (split; [by intros ?%problems_fail|intros (_ & ? & ? & ?); done]).
Qed.

Lemma check_renewal_spec leaf c r : problems (check_renewal leaf c r) = [] <-> problems r = [] /\ renewed c leaf.
Proof.
  unfold check_renewal, renewed. cbv zeta.
  assert (Hl : (0 <? TimeSub (ct_not_after leaf) (ct_not_before leaf)) = true <-> 0 < ct_not_after leaf - ct_not_before leaf)
    by (unfold TimeSub, min_int64, max_int64; lia).
  rewrite <- Hl. destruct (SFltb _ _), (0 <? TimeSub _ _); cbn [andb]; try (split; [intros ?; split; [done|by intros]|by intros [? _]]).
  destruct (renewalDue _ _ _) as [due grace]. destruct (renewal_missed _ _ _).
  - split; [by intros ?%problems_fail|]. intros [_ Hr]. by specialize (Hr eq_refl eq_refl).
  - rewrite problems_add. split; [by intros ?; split|by intros [? _]].
Qed.

Lemma check_chain_spec leaf sent c r : problems (check_chain leaf sent c r) = [] <-> problems r = [] /\ chain_ok c leaf.
Proof.
  unfold check_chain, chain_ok. destruct (cc_verify c); cbn [negb].
  - destruct (ct_Verify _ _) as [[err u]|]; rewrite problems_add; [|tauto]. split; [by intros ?%problems_fail|]. intros [_ Hv]. by specialize (Hv eq_refl).
  - rewrite problems_add. split; [by intros ?; split|by intros [? _]].
Qed.

(** a certificate passes exactly when it is in force with the warning to
    spare, an ACME client has not missed its renewal (where that is checked),
    it is valid for the name, and, unless the check is off, its chain verifies
    as of a moment inside the certificate's own validity, whatever the time. *)
Theorem checkCertificate_spec (leaf : Certificate) (sent : Z) (c : certCheck) : 0 <= cc_warn_days c <= MaxWarnDays ->
  (problems (checkCertificate leaf sent c) = [] <->
   in_force c leaf /\ renewed c leaf /\ ct_VerifyHostname leaf (cc_name c) = None /\ chain_ok c leaf) /\
  (ct_not_before leaf <= ct_not_after leaf ->
   ct_not_before leaf <= verify_time (cc_now c) (ct_not_before leaf) (ct_not_after leaf) <= ct_not_after leaf).
Proof.
  intros Hw. split; [|apply verify_time_inside]. unfold checkCertificate. cbv zeta. rewrite check_chain_spec.
  assert (Hh : forall r, problems (match ct_VerifyHostname leaf (cc_name c) with Some err => fail r (bstr "host name mismatch: " ++ err) | None => r end) = []
    <-> problems r = [] /\ ct_VerifyHostname leaf (cc_name c) = None).
  { intros r. destruct (ct_VerifyHostname _ _); [|tauto]. split; [by intros ?%problems_fail|by intros [_ ?]]. }
  rewrite Hh, problems_add, check_renewal_spec, check_validity_spec by done. destruct (0 <? TimeSub _ _); rewrite !problems_add; simpl; tauto.
Qed.

(** The service lists the suffix. *)
Definition lists (svc : rdapService) (suffix : list bytes) : Prop := exists tld, tld ∈ sv_tlds svc /\ EqualFold tld (Join dot suffix) = true.

Lemma service_of_longest svcs labels svc : service_of svcs labels = Some svc -> exists pre suffix, labels = pre ++ suffix /\ suffix <> [] /\
  svc ∈ svcs /\ lists svc suffix /\ forall longer, longer <> [] -> (exists p q, p ++ longer = labels /\ longer = q ++ suffix /\ q <> []) ->
  forall svc', svc' ∈ svcs -> ~ lists svc' longer.
Proof.
  induction labels as [|l r IH]; [done|]. cbn [service_of]. destruct (List.find _ svcs) as [x|] eqn:E.
  - intros [= <-]. exists [], (l :: r). apply find_some in E as [Hx (tld & Ht & Hf)%existsb_exists].
    split; [done|]. split; [done|]. split; [by apply list_elem_of_In|]. split; [exists tld; split; [by apply list_elem_of_In|done]|].
    intros longer Hn (p & q & E1 & E2 & Hq). exfalso. apply (f_equal List.length) in E1, E2. rewrite length_app in E1, E2. destruct q; [done|]. simpl in *. lia.
  - intros Hs. destruct (IH Hs) as (pre & suffix & -> & Hne & Hin & Hl & Hlong). exists (l :: pre), suffix.
    split; [done|]. split; [done|]. split; [done|]. split; [done|]. intros longer Hn (p & q & E1 & E2 & Hq) svc' Hin' (tld & Ht & Hf). destruct p as [|y p].
    + simpl in E1. rewrite E1 in Hf. pose proof (find_none _ _ E svc' ltac:(by apply list_elem_of_In)) as Hnone. cbv beta in Hnone.
      rewrite <- not_true_iff_false in Hnone. apply Hnone, existsb_exists. exists tld. split; [by apply list_elem_of_In|done].
    + injection E1 as -> E1. apply (Hlong longer Hn) with svc'; [by exists p, q|done|by exists tld].
Qed.

(** [base] is an https URL the file lists for the longest suffix of the domain
    that it lists. *)
Definition serves (b : rdapBootstrap) (domain base : bytes) : Prop := exists svc url pre suffix,
  base = withSlash url /\ url ∈ sv_urls svc /\ has_prefix (ToLower url) (bstr "https://") = true /\
  tail (Split dot domain) = pre ++ suffix /\ svc ∈ bt_services b /\ lists svc suffix /\
  (forall longer, longer <> [] -> (exists p q, p ++ longer = tail (Split dot domain) /\ longer = q ++ suffix /\ q <> []) ->
   forall svc', svc' ∈ bt_services b -> ~ lists svc' longer).

Lemma lookup_serves b domain base : lookup_rdap b domain = Some base -> serves b domain base.
Proof.
  unfold lookup_rdap, service. destruct (service_of _ _) as [svc|] eqn:Es; [|done]. destruct (List.find _ _) as [url|] eqn:Ef; [|done].
  intros [= <-]. apply find_some in Ef as [Hu Hp]. destruct (service_of_longest _ _ _ Es) as (pre & suffix & E & _ & Hin & Hs & Hlong).
  exists svc, url, pre, suffix. split; [done|]. split; [by apply list_elem_of_In|]. done.
Qed.

(** whatever file is held and whatever fetching it again gives, the server
    asked about a domain is one that the file held afterwards lists for the
    longest suffix of the domain that it lists at all, reached over https; and
    a redirect that is followed stays on https and on the host. *)
Theorem rdapBase_answers (held : option rdapBootstrap) (fetch : rdapBootstrap + bytes) (domain : bytes) (now : Time) :
  match rdapBase held fetch domain now with
  | (Some b, inl (base, note)) => serves b domain base /\ (note = [] \/ held = Some b)
  | (None, inl _) => False
  | (_, inr _) => True
  end /\
  forall via first next, CheckRedirect via first next = None ->
    (via < maxRDAPRedirects)%nat /\ (fst first = "https"%string -> fst next = "https"%string) /\ EqualFold (snd next) (snd first) = true.
Proof.
  split.
  - unfold rdapBase. destruct held as [b|]; [destruct (_ || _); [destruct fetch as [fresh|err]|]|destruct fetch as [fresh|err]]; try done;
      (match goal with |- context [lookup_rdap ?b domain] => pose proof (lookup_serves b domain) as Hl; destruct (lookup_rdap b domain) as [base|] end);
      try (by destruct (listsPlainHTTP _ _)); auto.
  - intros via first next. unfold CheckRedirect. destruct (Nat.leb_spec maxRDAPRedirects via); [done|].
    destruct (String.eqb_spec (fst first) "https"), (String.eqb_spec (fst next) "https"); cbn [andb negb]; try done;
      destruct (EqualFold _ _); done.
Qed.

End Verdicts.

(** ** Concrete probes *)

#[local] Instance one_date : GoText := {|
  time_Parse l s := if bool_decide (l = RFC3339) && bool_decide (s = bstr "2027-01-10T00:00:00Z") then Some (63935136000 * Second) else None;
  time_ParseDuration _ := None; Quote s := ["034"%char] ++ s ++ ["034"%char]; FormatG _ := [] |}.

Definition before_date (d : Duration) : Time := 63935136000 * Second - d.

Lemma judgeExpiry_spec_witness : rs_status (judgeExpiry (before_date (14 * day)) (before_date 0) (bstr "as configured") 14 1 0 0) = StatusFailed.
Proof.
  destruct (judgeExpiry_spec (before_date (14 * day)) (before_date 0) (bstr "as configured") 14 1 0 0) as [_ Hf]; [vm_compute; split; discriminate|].
  apply Hf. intros [Hx _]. vm_compute in Hx. discriminate Hx.
Defined.

Definition registry_answer : rdapDomainAnswer :=
  {| ra_class := "domain"; ra_status := [bstr "active"];
     ra_events := [(bstr "registration", bstr "?"); (bstr "Expiration", bstr "2027-01-10T00:00:00Z")] |}.

Lemma checkDomain_spec_witness : problems (fst (checkDomain registry_answer (before_date (31 * day)) 30)) = [].
Proof.
  apply (checkDomain_spec registry_answer (before_date (31 * day)) 30); [vm_compute; split; discriminate|]. split.
  - exists (before_date 0). split; [vm_compute; reflexivity|]. split; [vm_compute; reflexivity|]. split; vm_compute; reflexivity.
  - repeat constructor.
Defined.

(** Ninety days, renewed after two thirds of them. *)
Definition a_certificate : Certificate :=
  {| ct_subject := bstr "CN=example.com"; ct_issuer := bstr "CN=R3"; ct_not_before := before_date (90 * day); ct_not_after := before_date 0;
     ct_names := [bstr "example.com"]; ct_VerifyHostname _ := None; ct_Verify _ := None |}.
Definition a_check (left : Duration) : certCheck :=
  {| cc_now := before_date left; cc_name := bstr "example.com"; cc_warn_days := 14; cc_fraction := DefaultRenewAfterFraction; cc_verify := true |}.

Lemma checkCertificate_spec_witness : problems (checkCertificate a_certificate 2 (a_check (29 * day))) = [] /\
  problems (checkCertificate a_certificate 2 (a_check (27 * day))) <> [].
Proof.
  split.
  - apply (checkCertificate_spec a_certificate 2 (a_check (29 * day))); [vm_compute; split; discriminate|].
    split; [split; [vm_compute; discriminate|split; vm_compute; reflexivity]|]. split; [intros _ _; vm_compute; reflexivity|]. split; [reflexivity|intros _; reflexivity].
  - intros Hp. apply (checkCertificate_spec a_certificate 2 (a_check (27 * day))) in Hp; [|vm_compute; split; discriminate].
    destruct Hp as (_ & Hr & _). assert (Hx : renewal_missed (a_check (27 * day)) (before_date (90 * day)) (before_date 0) = false).
    { apply Hr; vm_compute; reflexivity. }
    vm_compute in Hx. discriminate Hx.
Defined.

Example certificate_output : str (rs_output (result (checkCertificate a_certificate 2 (a_check (27 * day))) 1 0 0 [])) =
  ("FAIL: renewal missed: 70% of the 90-day lifetime has passed and the certificate was due for renewal on 2026-12-11T00:00:00Z; is the ACME client still renewing it?" +:+ str [nl; nl] +:+
   "subject:     CN=example.com" +:+ str [nl] +:+ "issuer:      CN=R3" +:+ str [nl] +:+ "not_before:  2026-10-12T00:00:00Z" +:+ str [nl] +:+
   "not_after:   2027-01-10T00:00:00Z" +:+ str [nl] +:+ "days_left:   27" +:+ str [nl] +:+ "lifetime:    90 days, 70% used" +:+ str [nl] +:+
   "renewal_due: 2026-12-11T00:00:00Z (after 67% of the lifetime; missed once 48h past that)" +:+ str [nl] +:+
   "sans:        example.com" +:+ str [nl] +:+ "chain:       verified (2 sent)")%string.
Proof. vm_compute. reflexivity. Qed.
