(* ===== verification/StartTLS.v ===== *)
(** * STARTTLS ([internal/jobs/probe_tls.go])

    How a TLS probe gets at a server's certificates: [fetchChain] with the
    SMTP and IMAP exchanges that come before the handshake, read through a
    buffered reader as [bufio] has it. The server, the connection and the
    handshake are a [Peer], which answers from what was exchanged so far. *)
From S2P Require Import Prelude GoTime Tail Utf8 Domain Heartbeat Executor Failure Redact Capture GoStrings JobSpec Probe.
Open Scope Z_scope.

(** ** The connection *)

(** What was exchanged on it, oldest first. *)
Inductive Io := Sent (b : bytes) | Got (b : bytes).

(** How a read ends that gives no data: [io.EOF], or an error's text (the
    deadline that the context's end sets, a reset). *)
Inductive ReadErr := EOF | ReadFailed (text : bytes).

(** The other side: what a read gives (at least one byte; of more than there
    is room for, what there is room for), a write's error, the outcome of a
    handshake for a server name. *)
Class Peer := {
  peer_dial : option bytes;
  peer_read : list Io -> (ascii * bytes) + ReadErr;
  peer_write : list Io -> bytes -> option bytes;
  peer_handshake : list Io -> bytes -> list Certificate + bytes }.

(** The connection with the buffer of its [bufio.Reader]. *)
Record Wire := { w_io : list Io; w_buf : bytes }.
Definition fresh_wire : Wire := {| w_io := []; w_buf := [] |}.

(** An exchange answers a value or an error's text. *)
Definition Talk (A : Type) : Type := Wire -> (A + bytes) * Wire.
Definition tret {A} (a : A) : Talk A := fun w => (inl a, w).
Definition tfail {A} (e : bytes) : Talk A := fun w => (inr e, w).
Definition tbind {A B} (m : Talk A) (k : A -> Talk B) : Talk B :=
  fun w => match m w with (inl a, w') => k a w' | (inr e, w') => (inr e, w') end.
(** [fmt.Errorf] of a prefix and an error. *)
Definition twrap {A} (prefix : string) (m : Talk A) : Talk A :=
  fun w => match m w with (inl a, w') => (inl a, w') | (inr e, w') => (inr (bstr prefix ++ bstr ": " ++ e), w') end.

Declare Scope talk_scope.
Notation "'do!' x := m 'in' k" := (tbind m (fun x => k)) (at level 10, x name, m at level 200, k at level 200) : talk_scope.
Open Scope talk_scope.

(** [bufio.NewReader]'s buffer. *)
Definition bufSize : nat := Z.to_nat 4096.

(** The first line of [s] with its line feed, and the rest. *)
Fixpoint cut_line (s : bytes) : option (bytes * bytes) :=
  match s with
  | [] => None
  | c :: r => if Ascii.eqb c nl then Some ([c], r) else match cut_line r with Some (l, t) => Some (c :: l, t) | None => None end
  end.

Inductive SliceErr := BufferFull | Ended (e : ReadErr).

Definition crlf : bytes := ["013"; "010"]%char.
Definition trim_eol (s : bytes) : bytes := rev (drop_while (fun c => bool_decide (c ∈ crlf)) (rev s)).

Section Exchange.
Context `{GoText} `{Peer}.

(** [bufio.Reader.ReadSlice] at a line feed. Every read brings a byte, so that
    [fuel] reads are enough once it is the room left ([ReadSlice_fuel]). *)
Fixpoint ReadSlice (fuel : nat) (w : Wire) : (bytes + SliceErr) * Wire :=
  match cut_line (w_buf w) with
  | Some (l, r) => (inl l, {| w_io := w_io w; w_buf := r |})
  | None =>
      let room := (bufSize - List.length (w_buf w))%nat in
      match room, fuel with
      | S n, S f =>
          match peer_read (w_io w) with
          | inl (c, r) => let got := c :: take n r in ReadSlice f {| w_io := w_io w ++ [Got got]; w_buf := w_buf w ++ got |}
          | inr e => (inr (Ended e), {| w_io := w_io w; w_buf := [] |})
          end
      | _, _ => (inr BufferFull, {| w_io := w_io w; w_buf := [] |})
      end
  end.

(** [readStartTLSLine]. *)
Definition readStartTLSLine : Talk bytes := fun w =>
  match ReadSlice bufSize w with
  | (inl l, w') => (inl (trim_eol l), w')
  | (inr BufferFull, w') => (inr (bstr "the server sent an overlong line"), w')
  | (inr (Ended EOF), w') => (inr (bstr "the server closed the connection"), w')
  | (inr (Ended (ReadFailed e)), w') => (inr e, w')
  end.

(** [io.WriteString] to the connection. *)
Definition WriteString (s : bytes) : Talk unit := fun w =>
  match peer_write (w_io w) s with
  | None => (inl tt, {| w_io := w_io w ++ [Sent s]; w_buf := w_buf w |})
  | Some e => (inr e, w)
  end.

Definition maxStartTLSLines : nat := 100.

(** A line of an SMTP reply: its code, its text, and whether it is the last. *)
Definition byte_at (s : bytes) (i : nat) : ascii := nth i s "000"%char.
Definition smtp_line (line : bytes) : option (Z * bytes * bool) :=
  let len := List.length line in
  if (len <? 3)%nat || ((3 <? len)%nat && negb (Ascii.eqb (byte_at line 3) " ") && negb (Ascii.eqb (byte_at line 3) "-")) then None
  else match Atoi (take 3 line) with
       | None => None
       | Some code => Some (code, TrimSpace (drop (Nat.min len 4) line), (len =? 3)%nat || Ascii.eqb (byte_at line 3) " ")
       end.

(** [readSMTPReply], its loop with the turns left. *)
Fixpoint read_reply (turns : nat) (want : Z) (lines : list bytes) : Talk (list bytes) :=
  match turns with
  | O => tfail (bstr "the server's reply does not end")
  | S n =>
      do! line := readStartTLSLine in
      match smtp_line line with
      | None => tfail (bstr "not an SMTP reply: " ++ Quote line)
      | Some (code, text, last) =>
          if last : bool then
            if negb (code =? want) then tfail (bstr "the server replied " ++ Quote line) else tret (lines ++ [text])
          else read_reply n want (lines ++ [text])
      end
  end.
Definition readSMTPReply (want : Z) : Talk (list bytes) := read_reply maxStartTLSLines want [].

(** [nothingBuffered]. *)
Definition nothingBuffered : Talk unit := fun w =>
  if is_nil (w_buf w) then (inl tt, w) else (inr (bstr "the server sent data before the handshake"), w).

(** The first of [strings.Fields], if there is one. *)
Definition first_field (s : bytes) : option bytes :=
  let fix word (l : list (bytes * bool)) := match l with [] => [] | r :: t => if is_space r then [] else fst r ++ word t end in
  match drop_while is_space (chunks s) with [] => None | l => Some (word l) end.
Definition offers_starttls (ext : list bytes) : bool :=
  existsb (fun e => match first_field e with Some f => EqualFold f (bstr "STARTTLS") | None => false end) ext.

Definition ehlo : bytes := bstr "EHLO localhost" ++ crlf.
Definition starttls : bytes := bstr "STARTTLS" ++ crlf.
Definition quit : bytes := bstr "QUIT" ++ crlf.

(** [startTLSSMTP]. *)
Definition startTLSSMTP : Talk unit :=
  do! _ := twrap "greeting" (readSMTPReply 220) in
  do! _ := WriteString ehlo in
  do! ext := twrap "EHLO" (readSMTPReply 250) in
  if negb (offers_starttls ext) then
    fun w => tfail (bstr "the server does not offer STARTTLS") (snd (WriteString quit w))
  else
    do! _ := WriteString starttls in
    do! _ := twrap "STARTTLS" (readSMTPReply 220) in
    nothingBuffered.

(** [strings.ToUpper], as far as ASCII is concerned: of the other runes U+0131
    and U+017F alone have an upper case in ASCII, and an invalid byte becomes
    U+FFFD. *)
Definition to_upper (c : ascii) : ascii := if is_lower c then ascii_of_N (N_of_ascii c - 32) else c.
Definition upper_rune (r : bytes * bool) : bytes :=
  match r with
  | (_, false) => FFFD
  | ([c], true) => [to_upper c]
  | (r, true) => if bool_decide (r = ["196"; "177"]%char) then bstr "I" else if bool_decide (r = ["197"; "191"]%char) then bstr "S" else r
  end.
Definition ToUpper (s : bytes) : bytes := mjoin (map upper_rune (chunks s)).

Definition tag : bytes := bstr "tend1".
Definition tag_starttls : bytes := tag ++ bstr " STARTTLS" ++ crlf.

(** What a line is to [startTLSIMAP] once it has asked: untagged data, the
    agreement, or anything else. *)
Definition untagged (line : bytes) : bool := has_prefix line (bstr "* ").
Definition agreed (line : bytes) : bool := has_prefix (ToUpper line) (ToUpper tag ++ bstr " OK").
Definition greets (line : bytes) : bool := has_prefix (ToUpper line) (bstr "* OK").

(** The loop of [startTLSIMAP], with the turns left. *)
Fixpoint imap_answer (turns : nat) : Talk unit :=
  match turns with
  | O => tfail (bstr "STARTTLS: the server's reply does not end")
  | S n =>
      do! line := twrap "STARTTLS" readStartTLSLine in
      if untagged line then imap_answer n
      else if agreed line then nothingBuffered
      else tfail (bstr "STARTTLS: the server replied " ++ Quote line)
  end.

(** [startTLSIMAP]. *)
Definition startTLSIMAP : Talk unit :=
  do! greeting := twrap "greeting" readStartTLSLine in
  if negb (greets greeting) then tfail (bstr "greeting: the server said " ++ Quote greeting)
  else
    do! _ := WriteString tag_starttls in
    imap_answer maxStartTLSLines.

(** What of [fetchChain] comes before the handshake; an unknown protocol
    name exchanges nothing. *)
Definition before_handshake (protocol : string) : Talk unit :=
  if String.eqb protocol "smtp" then startTLSSMTP
  else if String.eqb protocol "imap" then startTLSIMAP
  else tret tt.

(** [fetchChain]: the certificates with what was exchanged, or the error. *)
Definition fetchChain (name : bytes) (protocol : string) : (list Certificate + bytes) * Wire :=
  match peer_dial with
  | Some e => (inr e, fresh_wire)
  | None =>
      match before_handshake protocol fresh_wire with
      | (inr e, w) => (inr (bstr "starttls (" ++ bstr protocol ++ bstr "): " ++ e), w)
      | (inl _, w) =>
          (match peer_handshake (w_io w) name with
           | inr e => inr (bstr "handshake: " ++ e)
           | inl [] => inr (bstr "the server sent no certificate")
           | inl chain => inl chain
           end, w)
      end
  end.

End Exchange.

(** ** What is read and what is sent *)

Definition received (h : list Io) : bytes := mjoin (map (fun e => match e with Got b => b | Sent _ => [] end) h).
Definition sent (h : list Io) : list bytes := omap (fun e => match e with Sent b => Some b | Got _ => None end) h.

Lemma received_app h k : received (h ++ k) = received h ++ received k.
Proof. unfold received. rewrite map_app. apply join_app. Qed.

Lemma sent_app h k : sent (h ++ k) = sent h ++ sent k.
Proof. apply omap_app. Qed.

Lemma received_got h b : received (h ++ [Got b]) = received h ++ b.
Proof. rewrite received_app. unfold received at 2. simpl. by rewrite app_nil_r. Qed.
Lemma received_sent h b : received (h ++ [Sent b]) = received h.
Proof. rewrite received_app. unfold received at 2. simpl. by rewrite app_nil_r. Qed.
Lemma sent_got h b : sent (h ++ [Got b]) = sent h.
Proof. rewrite sent_app. simpl. by rewrite app_nil_r. Qed.
Lemma sent_sent h b : sent (h ++ [Sent b]) = sent h ++ [b].
Proof. by rewrite sent_app. Qed.
Create Rewrite HintDb talk.
#[export] Hint Rewrite received_got received_sent sent_got sent_sent : talk.

(** A line as it is sent: nothing but its end is a line feed, and it fits the
    buffer. *)
Definition wire_line (raw : bytes) : Prop := exists l, raw = l ++ [nl] /\ nl ∉ l /\ (List.length raw <= bufSize)%nat.

(** A reply of at most [n] lines, with its texts: every line is one of
    a reply, the last alone says so, and has the code [want]. *)
Inductive reply (want : Z) : nat -> bytes -> list bytes -> Prop :=
| reply_last n raw text : wire_line raw -> smtp_line (trim_eol raw) = Some (want, text, true) -> reply want (S n) raw [text]
| reply_more n raw code text more texts : wire_line raw -> smtp_line (trim_eol raw) = Some (code, text, false) ->
    reply want n more texts -> reply want (S n) (raw ++ more) (text :: texts).

(** What a server says that agrees to an IMAP STARTTLS: at most [n] lines, all
    but the last untagged. *)
Inductive agreement : nat -> bytes -> Prop :=
| agreement_last n raw : wire_line raw -> untagged (trim_eol raw) = false -> agreed (trim_eol raw) = true -> agreement (S n) raw
| agreement_more n raw more : wire_line raw -> untagged (trim_eol raw) = true -> agreement n more -> agreement (S n) (raw ++ more).

(** An exchange from [w] to [w'] that took [raw] off the connection and sent
    [says]: what was buffered and what was read since is [raw] and what is
    buffered now. *)
Definition took (w : Wire) (raw : bytes) (says : list bytes) (w' : Wire) : Prop :=
  (exists new, received (w_io w') = received (w_io w) ++ new /\ w_buf w ++ new = raw ++ w_buf w') /\ (sent (w_io w') = sent (w_io w) ++ says).

Lemma took_refl w : took w [] [] w.
Proof. split; [by exists []; rewrite !app_nil_r|by rewrite app_nil_r]. Qed.

Lemma took_trans w1 a x w2 b y w3 : took w1 a x w2 -> took w2 b y w3 -> took w1 (a ++ b) (x ++ y) w3.
Proof.
  intros [(n1 & R1 & B1) S1] [(n2 & R2 & B2) S2]. split.
  - exists (n1 ++ n2). rewrite R2, R1, !app_assoc. split; [done|]. by rewrite B1, <- !app_assoc, B2.
  - by rewrite S2, S1, app_assoc.
Qed.

Lemma cut_line_spec s l r : cut_line s = Some (l, r) -> exists t, l = t ++ [nl] /\ nl ∉ t /\ s = l ++ r.
Proof.
  revert l. induction s as [|c s IH]; simpl; [done|]. intros l. destruct (Ascii.eqb_spec c nl) as [->|Hc].
  - intros [= <- <-]. exists []. split; [done|]. split; [apply not_elem_of_nil|done].
  - destruct (cut_line s) as [[l' t]|] eqn:E; [|done]. intros [= <- <-]. destruct (IH _ eq_refl) as (t' & -> & Hn & ->).
    exists (c :: t'). split; [done|]. split; [|done]. apply not_elem_of_cons. split; [congruence|done].
Qed.

Lemma cut_line_first t r : nl ∉ t -> cut_line ((t ++ [nl]) ++ r) = Some (t ++ [nl], r).
Proof.
  induction t as [|c t IH]; simpl; [by rewrite ?Ascii.eqb_refl|]. intros [Hc Ht]%not_elem_of_cons.
  destruct (Ascii.eqb_spec c nl); [congruence|]. by rewrite IH.
Qed.

Lemma cut_line_none s : nl ∉ s -> cut_line s = None.
Proof.
  induction s as [|c s IH]; simpl; [done|]. intros [Hc Ht]%not_elem_of_cons. destruct (Ascii.eqb_spec c nl); [congruence|]. by rewrite IH.
Qed.

(** ** Reasoning about exchanges *)

Section Reading.
Context `{GoText} `{Peer}.

Definition fits (w : Wire) : Prop := (List.length (w_buf w) <= bufSize)%nat.

(** [m], where it succeeds, takes off the connection and sends what [P] says. *)
Definition yields {A} (m : Talk A) (P : A -> bytes -> list bytes -> Prop) : Prop :=
  forall w a w', fits w -> m w = (inl a, w') -> fits w' /\ exists raw says, took w raw says w' /\ P a raw says.

(** [m], however it ends, takes at most [k] buffers off the connection. *)
Definition costs {A} (m : Talk A) (k : nat) : Prop :=
  forall w, fits w -> let w' := snd (m w) in
  fits w' /\ (List.length (received (w_io w')) + List.length (w_buf w) <= List.length (received (w_io w)) + List.length (w_buf w') + k * bufSize)%nat.

Lemma yields_ret {A} (a : A) (P : A -> bytes -> list bytes -> Prop) : P a [] [] -> yields (tret a) P.
Proof. intros Hp w b w' Hw [= <- <-]. split; [done|]. exists [], []. split; [apply took_refl|done]. Qed.

Lemma yields_fail {A} e (P : A -> bytes -> list bytes -> Prop) : yields (tfail e) P.
Proof. by intros w a w' _ [=]. Qed.

Lemma yields_wrap {A} p (m : Talk A) P : yields m P -> yields (twrap p m) P.
Proof. intros Hm w a w' Hw. unfold twrap. destruct (m w) as [[b|e] w1] eqn:E; [|done]. intros [= <- <-]. by eapply Hm. Qed.

Lemma yields_bind {A B} (m : Talk A) (k : A -> Talk B) P (Q : B -> bytes -> list bytes -> Prop) :
  yields m P -> (forall a raw says, P a raw says -> yields (k a) (fun b raw' says' => Q b (raw ++ raw') (says ++ says'))) -> yields (tbind m k) Q.
Proof.
  intros Hm Hk w b w' Hw. unfold tbind. destruct (m w) as [[a|e] w1] eqn:E; [|done]. intros E2.
  destruct (Hm _ _ _ Hw E) as (Hf & raw & says & Ht & Hp). destruct (Hk _ _ _ Hp _ _ _ Hf E2) as (Hf' & raw' & says' & Ht' & Hq).
  split; [done|]. exists (raw ++ raw'), (says ++ says'). split; [by eapply took_trans|done].
Qed.

Lemma yields_mono {A} (m : Talk A) (P Q : A -> bytes -> list bytes -> Prop) : yields m P -> (forall a r s, P a r s -> Q a r s) -> yields m Q.
Proof. intros Hm Hi w a w' Hw E. destruct (Hm _ _ _ Hw E) as (Hf & r & s & Ht & Hp). split; [done|]. exists r, s. auto. Qed.

Lemma costs_ret {A} (r : A + bytes) : costs (fun w => (r, w)) 0.
Proof. intros w Hw. cbn. split; [done|lia]. Qed.

Lemma costs_wrap {A} p (m : Talk A) k : costs m k -> costs (twrap p m) k.
Proof. intros Hm w Hw. unfold twrap. specialize (Hm w Hw). by destruct (m w) as [[|] ?]. Qed.

Lemma costs_bind {A B} (m : Talk A) (k : A -> Talk B) i j : costs m i -> (forall a, costs (k a) j) -> costs (tbind m k) (i + j).
Proof.
  intros Hm Hk w Hw. unfold tbind. destruct (Hm w Hw) as [Hf Hl]. destruct (m w) as [[a|e] w1]; cbn in *.
  - destruct (Hk a w1 Hf) as [Hf' Hl']. split; [done|]. lia.
  - split; [done|]. lia.
Qed.

Lemma costs_mono {A} (m : Talk A) i j : costs m i -> (i <= j)%nat -> costs m j.
Proof.
  intros Hm Hij w Hw. destruct (Hm w Hw) as [Hf Hl]. split; [done|].
  assert (i * bufSize <= j * bufSize)%nat by (by apply Nat.mul_le_mono_r). lia.
Qed.

Lemma WriteString_yields s : yields (WriteString s) (fun _ raw says => raw = [] /\ says = [s]).
Proof.
  intros w a w' Hw. unfold WriteString. destruct (peer_write (w_io w) s); [done|]. intros [= <- <-]. split; [done|].
  exists [], [s]. split; [|done]. unfold took. cbn [w_io w_buf]. autorewrite with talk. split; [exists []; by rewrite !app_nil_r|done].
Qed.

Lemma WriteString_costs s : costs (WriteString s) 0.
Proof. intros w Hw. unfold WriteString. destruct (peer_write (w_io w) s); cbn [w_io w_buf snd]; autorewrite with talk; (split; [done|lia]). Qed.

(** One read fits the room there was. *)
Lemma fits_got w n c r io : (bufSize - List.length (w_buf w))%nat = S n -> fits {| w_io := io; w_buf := w_buf w ++ c :: take n r |}.
Proof. unfold fits. cbn. rewrite length_app. cbn. rewrite length_take. lia. Qed.

Lemma ReadSlice_yields fuel : yields (fun w => match ReadSlice fuel w with (inl l, w') => (inl l, w') | (inr _, w') => (inr [], w') end)
  (fun l raw says => l = raw /\ says = [] /\ wire_line raw).
Proof.
  induction fuel as [|f IH]; intros w a w' Hw; cbn [ReadSlice]; destruct (cut_line (w_buf w)) as [[l r]|] eqn:E.
  1, 3: intros [= <- <-]; destruct (cut_line_spec _ _ _ E) as (t & -> & Hn & Eb); split;
    [unfold fits in *; cbn; rewrite Eb, length_app in Hw; lia|]; exists (t ++ [nl]), []; split;
    [split; cbn; [exists []|]; by rewrite ?app_nil_r|split; [done|split; [done|]]; exists t; split; [done|split; [done|]];
     unfold fits in Hw; rewrite Eb, !length_app in Hw; rewrite length_app; lia].
  1: by destruct (bufSize - List.length (w_buf w))%nat.
  destruct (bufSize - List.length (w_buf w))%nat as [|n] eqn:En; [done|].
  destruct (peer_read (w_io w)) as [[c r]|e]; [|done]. intros E2. eapply IH in E2; [|by apply (fits_got _ n)].
  destruct E2 as (Hf & raw & says & [(new & R & B) S] & -> & -> & Hl). split; [done|]. exists raw, []. split; [|done]. split.
  - exists ((c :: take n r) ++ new). cbn [w_io w_buf] in *. autorewrite with talk in R. rewrite R, <- app_assoc. split; [done|].
    by rewrite app_assoc.
  - cbn in S. autorewrite with talk in S. done.
Qed.

Lemma ReadSlice_costs fuel : forall w, fits w -> let w' := snd (ReadSlice fuel w) in
  fits w' /\ (List.length (received (w_io w')) + List.length (w_buf w) <= List.length (received (w_io w)) + List.length (w_buf w') + bufSize)%nat.
Proof.
  induction fuel as [|f IH]; intros w Hw; cbn [ReadSlice]; destruct (cut_line (w_buf w)) as [[l r]|] eqn:E.
  1, 3: destruct (cut_line_spec _ _ _ E) as (t & -> & Hn & Eb); apply (f_equal List.length) in Eb; rewrite length_app in Eb; unfold fits in *; cbn [w_io w_buf snd]; (split; lia).
  1: unfold fits in *; destruct (bufSize - List.length (w_buf w))%nat; cbn [w_io w_buf snd List.length]; (split; lia).
  destruct (bufSize - List.length (w_buf w))%nat as [|n] eqn:En; [unfold fits in *; cbn [w_io w_buf snd List.length]; (split; lia)|].
  destruct (peer_read (w_io w)) as [[c r]|e]; [|unfold fits in *; cbn [w_io w_buf snd List.length]; (split; lia)].
  match goal with |- context [ReadSlice f ?v] => destruct (IH v (fits_got w n c r _ En)) as [Hf Hl] end. split; [done|].
  cbn [w_io w_buf] in *. autorewrite with talk in Hl. rewrite !length_app in Hl. lia.
Qed.

(** The room there is bounds the reads a line takes. *)
Lemma ReadSlice_fuel fuel : forall w more, (bufSize - List.length (w_buf w) <= fuel)%nat -> ReadSlice (fuel + more) w = ReadSlice fuel w.
Proof.
  induction fuel as [|f IH]; intros w more Hr.
  - replace (0 + more)%nat with more by lia. destruct more; [done|]. cbn [ReadSlice].
    destruct (cut_line (w_buf w)) as [[l r]|]; [done|]. destruct (bufSize - List.length (w_buf w))%nat; [done|lia].
  - replace (S f + more)%nat with (S (f + more)) by lia. cbn [ReadSlice]. destruct (cut_line (w_buf w)) as [[l r]|]; [done|].
    destruct (bufSize - List.length (w_buf w))%nat as [|n] eqn:En; [done|]. destruct (peer_read (w_io w)) as [[c r]|e]; [|done].
    apply IH. cbn. rewrite length_app. cbn. rewrite length_take. lia.
Qed.

Lemma readStartTLSLine_yields : yields readStartTLSLine (fun line raw says => line = trim_eol raw /\ says = [] /\ wire_line raw).
Proof.
  intros w a w' Hw. unfold readStartTLSLine. pose proof (ReadSlice_yields bufSize w) as Hy. cbv beta in Hy.
  destruct (ReadSlice bufSize w) as [[l|[|[|e]]] w1]; [|done..]. intros [= <- <-].
  destruct (Hy l w1 Hw eq_refl) as (Hf & raw & says & Ht & -> & -> & Hl). split; [done|]. exists raw, []. done.
Qed.

Lemma readStartTLSLine_costs : costs readStartTLSLine 1.
Proof.
  intros w Hw. pose proof (ReadSlice_costs bufSize w Hw) as Hc. unfold readStartTLSLine.
  destruct (ReadSlice bufSize w) as [[l|[|[|e]]] w1]; cbn in *; lia || (destruct Hc; split; [done|lia]).
Qed.

Lemma read_reply_yields n want : forall lines, yields (read_reply n want lines) (fun texts raw says => exists more, texts = lines ++ more /\ says = [] /\ reply want n raw more).
Proof.
  induction n as [|n IH]; intros lines; [apply yields_fail|]. cbn [read_reply]. eapply yields_bind; [apply readStartTLSLine_yields|].
  intros line raw says (-> & -> & Hl). destruct (smtp_line (trim_eol raw)) as [[[code text] [|]]|] eqn:E; [| |apply yields_fail].
  - destruct (Z.eqb_spec code want) as [->|]; cbn [negb]; [|apply yields_fail]. apply yields_ret. exists [text]. rewrite !app_nil_r. split; [done|].
    split; [done|]. by apply reply_last.
  - eapply yields_mono; [apply IH|]. intros texts raw' says' (more & -> & -> & Hr). exists (text :: more). rewrite <- app_assoc. split; [done|].
    split; [done|]. eapply reply_more; done.
Qed.

Lemma read_reply_costs n want : forall lines, costs (read_reply n want lines) n.
Proof.
  induction n as [|n IH]; intros lines; [apply costs_ret|]. cbn [read_reply]. apply (costs_bind _ _ 1 n); [apply readStartTLSLine_costs|].
  intros line. destruct (smtp_line line) as [[[code text] [|]]|]; [|apply IH|].
  - eapply costs_mono; [|apply Nat.le_0_l]. destruct (negb (code =? want)); apply costs_ret.
  - eapply costs_mono; [|apply Nat.le_0_l]. apply costs_ret.
Qed.

Lemma readSMTPReply_yields want : yields (readSMTPReply want) (fun texts raw says => says = [] /\ reply want maxStartTLSLines raw texts).
Proof. eapply yields_mono; [apply read_reply_yields|]. intros texts raw says (more & -> & -> & Hr). done. Qed.

(** Once nothing is buffered, what was taken is what was received. *)
Lemma nothingBuffered_spec w r w' : nothingBuffered w = (r, w') -> w' = w /\ (r = inl tt <-> w_buf w = []).
Proof. unfold nothingBuffered. destruct (w_buf w) eqn:E; simpl; intros [= <- <-]; (split; [done|]); split; done. Qed.

End Reading.

Section Contract.
Context `{GoText} `{Peer}.

(** What must have passed before the handshake of a protocol: all that was
    received, and all that was sent. *)
Definition smtp_talk (got : bytes) (said : list bytes) : Prop := exists greeting extensions go texts1 texts2 texts3,
  got = greeting ++ extensions ++ go /\ said = [ehlo; starttls] /\ reply 220 maxStartTLSLines greeting texts1 /\
  reply 250 maxStartTLSLines extensions texts2 /\ offers_starttls texts2 = true /\ reply 220 maxStartTLSLines go texts3.
Definition imap_talk (got : bytes) (said : list bytes) : Prop := exists greeting go,
  got = greeting ++ go /\ said = [tag_starttls] /\ wire_line greeting /\ greets (trim_eol greeting) = true /\ agreement maxStartTLSLines go.
Definition talked (protocol : string) (got : bytes) (said : list bytes) : Prop :=
  if String.eqb protocol "smtp" then smtp_talk got said
  else if String.eqb protocol "imap" then imap_talk got said
  else got = [] /\ said = [].

(** An exchange that ends with nothing buffered leaves what it took as all
    that was received. *)
Definition completes (m : Talk unit) (P : bytes -> list bytes -> Prop) : Prop :=
  forall w w', fits w -> m w = (inl tt, w') -> w_buf w' = [] /\ exists raw says, took w raw says w' /\ P raw says.

Lemma completes_bind {A} (m : Talk A) (k : A -> Talk unit) P (Q : bytes -> list bytes -> Prop) :
  yields m P -> (forall a raw says, P a raw says -> completes (k a) (fun raw' says' => Q (raw ++ raw') (says ++ says'))) -> completes (tbind m k) Q.
Proof.
  intros Hm Hk w w' Hw. unfold tbind. destruct (m w) as [[a|e] w1] eqn:E; [|done]. intros E2.
  destruct (Hm _ _ _ Hw E) as (Hf & raw & says & Ht & Hp). destruct (Hk _ _ _ Hp _ _ Hf E2) as (Hb & raw' & says' & Ht' & Hq).
  split; [done|]. exists (raw ++ raw'), (says ++ says'). split; [by eapply took_trans|done].
Qed.

Lemma completes_fail e P : completes (tfail e) P.
Proof. by intros w w' _ [=]. Qed.

Lemma completes_nothing (P : bytes -> list bytes -> Prop) : P [] [] -> completes nothingBuffered P.
Proof.
  intros Hp w w' Hw E. destruct (nothingBuffered_spec _ _ _ E) as [-> [Hb _]]. split; [by apply Hb|].
  exists [], []. split; [apply took_refl|done].
Qed.

Lemma startTLSSMTP_completes : completes startTLSSMTP smtp_talk.
Proof.
  unfold startTLSSMTP. eapply completes_bind; [apply yields_wrap, readSMTPReply_yields|]. intros t1 greeting says (-> & R1).
  eapply completes_bind; [apply WriteString_yields|]. intros _ raw says (-> & ->).
  eapply completes_bind; [apply yields_wrap, readSMTPReply_yields|]. intros t2 ext says (-> & R2).
  destruct (offers_starttls t2) eqn:Ho; cbn [negb]; [|by intros w w' _ [=]].
  eapply completes_bind; [apply WriteString_yields|]. intros _ raw says (-> & ->).
  eapply completes_bind; [apply yields_wrap, readSMTPReply_yields|]. intros t3 go says (-> & R3).
  apply completes_nothing. exists greeting, ext, go, t1, t2, t3. rewrite !app_nil_r. done.
Qed.

Lemma imap_answer_completes n : completes (imap_answer n) (fun raw says => says = [] /\ agreement n raw).
Proof.
  induction n as [|n IH]; [apply completes_fail|]. cbn [imap_answer]. eapply completes_bind; [apply yields_wrap, readStartTLSLine_yields|].
  intros line raw says (-> & -> & Hl). destruct (untagged (trim_eol raw)) eqn:Hu.
  - intros w w' Hw E. destruct (IH w w' Hw E) as (Hb & raw' & says' & Ht & -> & Ha). split; [done|]. exists raw', []. split; [done|]. split; [done|].
    by constructor.
  - destruct (agreed (trim_eol raw)) eqn:Ha; [|apply completes_fail]. apply completes_nothing. rewrite !app_nil_r. split; [done|]. by apply agreement_last.
Qed.

Lemma startTLSIMAP_completes : completes startTLSIMAP imap_talk.
Proof.
  unfold startTLSIMAP. eapply completes_bind; [apply yields_wrap, readStartTLSLine_yields|]. intros line greeting says (-> & -> & Hl).
  destruct (greets (trim_eol greeting)) eqn:Hg; cbn [negb]; [|apply completes_fail].
  eapply completes_bind; [apply WriteString_yields|]. intros _ raw says (-> & ->).
  intros w w' Hw E. destruct (imap_answer_completes _ w w' Hw E) as (Hb & go & says & Ht & -> & Ha). split; [done|].
  exists go, []. split; [done|]. exists greeting, go. done.
Qed.

Lemma before_handshake_talked protocol w : before_handshake protocol fresh_wire = (inl tt, w) ->
  w_buf w = [] /\ talked protocol (received (w_io w)) (sent (w_io w)).
Proof.
  assert (Hf : fits fresh_wire) by (unfold fits; cbn; lia). unfold before_handshake, talked. intros E.
  assert (Hd : forall P, completes (before_handshake protocol) P -> w_buf w = [] /\ P (received (w_io w)) (sent (w_io w))).
  { intros P Hc. destruct (Hc _ _ Hf E) as (Hb & raw & says & [(new & R & B) S] & Hp). split; [done|]. cbn in R, B, S.
    rewrite R, S. rewrite Hb, app_nil_r in B. by subst. }
  unfold before_handshake in Hd. destruct (String.eqb protocol "smtp"); [apply Hd, startTLSSMTP_completes|].
  destruct (String.eqb protocol "imap"); [apply Hd, startTLSIMAP_completes|]. injection E as <-. done.
Qed.

(** C27: the handshake starts where the server agreed to it. The chain a TLS
    probe judges came out of a handshake before which nothing passed but the
    exchange of its protocol: for SMTP a greeting, the EHLO, a reply
    that offers STARTTLS, the STARTTLS and a reply that accepts it, each reply
    whole and of the code it must have; for IMAP a greeting, the tagged
    STARTTLS and untagged lines ended by the tagged OK; for plain TLS
    nothing. No byte of the server's that was read with the agreement is left
    over, to be dropped or taken for part of what is encrypted, whatever the
    server does and however the network cuts what it sends. *)
Theorem handshake_starts_clean name protocol chain w : fetchChain name protocol = (inl chain, w) ->
  talked protocol (received (w_io w)) (sent (w_io w)) /\ w_buf w = [] /\ peer_handshake (w_io w) name = inl chain /\ chain <> [].
Proof.
  unfold fetchChain. destruct peer_dial; [done|]. destruct (before_handshake protocol fresh_wire) as [[[]|e] w1] eqn:E; [|done].
  destruct (peer_handshake (w_io w1) name) as [[|leaf more]|e] eqn:Eh; intros [=]; subst. destruct (before_handshake_talked _ _ E). done.
Qed.

Lemma fetchChain_talked name protocol chain w : fetchChain name protocol = (inl chain, w) -> talked protocol (received (w_io w)) (sent (w_io w)).
Proof.
  unfold fetchChain. destruct peer_dial; [done|]. destruct (before_handshake protocol fresh_wire) as [[[]|e] w1] eqn:E; [|done].
  intros [= _ <-]. apply (before_handshake_talked _ _ E).
Qed.

Lemma before_handshake_costs protocol : costs (before_handshake protocol) (3 * maxStartTLSLines).
Proof.
  assert (Hn : forall n, costs nothingBuffered n) by (intros n w Hw; unfold nothingBuffered; destruct (is_nil (w_buf w)); cbn [snd]; (split; [done|lia])).
  assert (Hr : forall want p, costs (twrap p (readSMTPReply want)) maxStartTLSLines) by (intros; apply costs_wrap, read_reply_costs).
  assert (Hi : forall n, costs (imap_answer n) n).
  { induction n as [|n IH]; [apply costs_ret|]. cbn [imap_answer]. apply (costs_bind _ _ 1 n); [apply costs_wrap, readStartTLSLine_costs|].
    intros line. destruct (untagged line); [done|]. destruct (agreed line); [apply Hn|]. eapply costs_mono; [apply costs_ret|lia]. }
  unfold before_handshake. destruct (String.eqb protocol "smtp"); [|destruct (String.eqb protocol "imap")].
  - unfold startTLSSMTP. change (3 * maxStartTLSLines)%nat with (maxStartTLSLines + (0 + (maxStartTLSLines + (0 + (maxStartTLSLines + 0)))))%nat.
    apply costs_bind; [apply Hr|]. intros _. apply costs_bind; [apply WriteString_costs|]. intros _. apply costs_bind; [apply Hr|]. intros ext.
    destruct (negb (offers_starttls ext)).
    + intros w Hw. destruct (WriteString_costs quit w Hw) as [Hf Hl]. split; [done|]. cbn [tfail snd] in *. lia.
    + apply costs_bind; [apply WriteString_costs|]. intros _. apply costs_bind; [apply Hr|]. intros _. apply Hn.
  - eapply (costs_mono _ (1 + (0 + maxStartTLSLines))); [|unfold maxStartTLSLines; lia]. unfold startTLSIMAP.
    apply costs_bind; [apply costs_wrap, readStartTLSLine_costs|]. intros line. destruct (negb (greets line)).
    + eapply costs_mono; [apply costs_ret|lia].
    + apply costs_bind; [apply WriteString_costs|]. intros _. apply Hi.
  - eapply costs_mono; [apply costs_ret|lia].
Qed.

(** a server cannot keep a probe reading: whatever it sends, at most three
    replies of a hundred lines, each of a buffer, and one buffer more are read
    from it before the handshake or the refusal. *)
Theorem starttls_reads_bounded name protocol : (List.length (received (w_io (snd (fetchChain name protocol)))) <= (3 * maxStartTLSLines + 1) * bufSize)%nat.
Proof.
  unfold fetchChain. destruct peer_dial; [cbn; lia|].
  destruct (before_handshake_costs protocol fresh_wire) as [Hf Hl]; [unfold fits; cbn; lia|].
  destruct (before_handshake protocol fresh_wire) as [[u|e] w]; cbn [snd] in *; unfold fits in Hf; cbn [w_io w_buf fresh_wire received map mjoin list_join List.length] in Hl;
    change (List.length (received [])) with 0%nat in Hl; lia.
Qed.

End Contract.

(** ** Servers that follow the protocol *)

(** A server that says [phases], each once the one before was answered; how
    what it says is cut into reads is up to the network. *)
Definition available (phases : list bytes) (h : list Io) : bytes :=
  drop (List.length (received h)) (mjoin (take (S (List.length (sent h))) phases)).
Class Speaks `{Peer} (phases : list bytes) : Prop := {
  speaks_dial : peer_dial = None;
  speaks_write h s : peer_write h s = None;
  speaks_read h : available phases h <> [] -> exists c r t, peer_read h = inl (c, r) /\ available phases h = c :: r ++ t }.

Section Compliant.
Context `{GoText} `{Peer} (phases : list bytes) `{!Speaks phases}.

(** After [k] requests, [raw] of what the server has said is still to be used. *)
Definition owes (w : Wire) (k : nat) (raw : bytes) : Prop := fits w /\ exists avail,
  List.length (sent (w_io w)) = k /\ mjoin (take (S k) phases) = received (w_io w) ++ avail /\ raw = w_buf w ++ avail.

Lemma owes_read w k avail : List.length (sent (w_io w)) = k -> mjoin (take (S k) phases) = received (w_io w) ++ avail -> avail <> [] ->
  exists c r t, peer_read (w_io w) = inl (c, r) /\ avail = c :: r ++ t.
Proof.
  intros Hk E Hn. assert (Ha : available phases (w_io w) = avail) by (unfold available; rewrite Hk, E; apply drop_app_length).
  destruct (speaks_read (w_io w)) as (c & r & t & Hr & Et); [by rewrite Ha|]. rewrite Ha in Et. by exists c, r, t.
Qed.

Lemma cut_line_first_eq l l' r r' : nl ∉ l -> nl ∉ l' -> l ++ nl :: r = l' ++ nl :: r' -> l = l' /\ r = r'.
Proof.
  intros Hl Hl' E. pose proof (cut_line_first l r Hl) as C. pose proof (cut_line_first l' r' Hl') as C'.
  rewrite <- !app_assoc in C, C'. cbn [app] in C, C'. rewrite E, C' in C. injection C as C ->. apply app_inj_tail in C as [-> _]. done.
Qed.

Lemma cut_line_none_free s : cut_line s = None -> nl ∉ s.
Proof.
  induction s as [|c s IH]; simpl; [intros _; apply not_elem_of_nil|]. destruct (Ascii.eqb_spec c nl); [done|].
  destruct (cut_line s) as [[]|]; [done|]. intros _. apply not_elem_of_cons. split; [congruence|by apply IH].
Qed.

Lemma ReadSlice_serves fuel k l rest : nl ∉ l -> (List.length (l ++ [nl]) <= bufSize)%nat -> forall w, (bufSize - List.length (w_buf w) <= fuel)%nat ->
  owes w k ((l ++ [nl]) ++ rest) -> exists w', ReadSlice fuel w = (inl (l ++ [nl]), w') /\ owes w' k rest.
Proof.
  intros Hl Hs. induction fuel as [|f IH]; intros w Hroom (Hf & avail & Hk & E & Er); cbn [ReadSlice]; destruct (cut_line (w_buf w)) as [[l' r]|] eqn:Ec.
  1, 3: destruct (cut_line_spec _ _ _ Ec) as (t & -> & Ht & Eb); rewrite Eb, <- !app_assoc in Er; cbn [app] in Er;
    destruct (cut_line_first_eq _ _ _ _ Hl Ht Er) as [-> ->]; eexists; split; [done|]; split;
    [unfold fits in *; cbn [w_buf]; rewrite Eb, length_app in Hf; lia|by exists avail].
  all: assert (Hlt : (List.length (w_buf w) < List.length (l ++ [nl]))%nat) by
    (destruct (Nat.lt_ge_cases (List.length (w_buf w)) (List.length (l ++ [nl]))) as [|Hge]; [done|]; destruct (cut_line_none_free _ Ec);
     apply (f_equal (take (List.length (w_buf w)))) in Er; rewrite take_app_length in Er; rewrite <- Er, take_app_ge by done; set_solver).
  1: lia.
  destruct (bufSize - List.length (w_buf w))%nat as [|n] eqn:En; [lia|].
  destruct (owes_read w k avail Hk E) as (c & r & t & -> & ->).
  { intros ->. rewrite app_nil_r in Er. apply (f_equal List.length) in Er. rewrite length_app in Er. lia. }
  apply IH; [cbn [w_buf]; rewrite length_app; cbn [List.length]; lia|]. split; [by apply (fits_got _ n)|]. exists (drop n r ++ t).
  cbn [w_io w_buf]. autorewrite with talk. split; [done|]. rewrite Er, E, <- !app_assoc. cbn [app].
  by rewrite (app_assoc (take n r)), take_drop.
Qed.

Lemma line_served k raw rest w : wire_line raw -> owes w k (raw ++ rest) -> exists w', readStartTLSLine w = (inl (trim_eol raw), w') /\ owes w' k rest.
Proof.
  intros (l & -> & Hl & Hs) Ho. destruct (ReadSlice_serves bufSize k l rest Hl Hs w) as (w' & E & Ho'); [lia|done|].
  exists w'. unfold readStartTLSLine. by rewrite E.
Qed.

Lemma reply_served k want n raw texts rest : reply want n raw texts -> forall lines w, owes w k (raw ++ rest) ->
  exists w', read_reply n want lines w = (inl (lines ++ texts), w') /\ owes w' k rest.
Proof.
  induction 1 as [n raw text Hl Es|n raw code text more texts Hl Es Hr IH]; intros lines w Ho; cbn [read_reply]; unfold tbind.
  - destruct (line_served k raw rest w Hl Ho) as (w' & -> & Ho'). rewrite Es, Z.eqb_refl. by exists w'.
  - rewrite <- app_assoc in Ho. destruct (line_served k raw (more ++ rest) w Hl Ho) as (w' & -> & Ho'). rewrite Es.
    destruct (IH (lines ++ [text]) w' Ho') as (w2 & -> & Ho2). exists w2. by rewrite <- app_assoc.
Qed.

Lemma reply_heard k want n raw texts w : reply want n raw texts -> owes w k raw -> exists w', read_reply n want [] w = (inl texts, w') /\ owes w' k [].
Proof. intros Hr Ho. rewrite <- (app_nil_r raw) in Ho. apply (reply_served k want n raw texts [] Hr [] w Ho). Qed.

Lemma agreement_served k n raw : agreement n raw -> forall w, owes w k raw -> exists w', imap_answer n w = (inl tt, w').
Proof.
  induction 1 as [n raw Hl Hu Ha|n raw more Hl Hu Hr IH]; intros w Ho; cbn [imap_answer]; unfold tbind, twrap.
  - rewrite <- (app_nil_r raw) in Ho. destruct (line_served k raw [] w Hl Ho) as (w' & -> & Hf & avail & _ & _ & Eb). rewrite Hu, Ha.
    symmetry in Eb. apply app_nil in Eb as [Eb _]. exists w'. unfold nothingBuffered. by rewrite Eb.
  - destruct (line_served k raw more w Hl Ho) as (w' & -> & Ho'). rewrite Hu. by apply IH.
Qed.

Lemma request_served k s w phase : phases !! S k = Some phase -> owes w k [] ->
  exists w', WriteString s w = (inl tt, w') /\ owes w' (S k) phase.
Proof.
  intros Hp (Hf & avail & Hk & E & Eb). symmetry in Eb. apply app_nil in Eb as [Eb ->]. unfold WriteString. rewrite speaks_write.
  eexists. split; [done|]. split; [done|]. exists phase. cbn [w_io w_buf]. autorewrite with talk. rewrite length_app, Hk. split; [cbn; lia|].
  rewrite Eb. split; [|done]. rewrite (take_S_r _ _ _ Hp). rewrite join_app, E, app_nil_r. cbn. by rewrite app_nil_r.
Qed.

End Compliant.

Section Accepted.
Context `{GoText} `{Peer}.

(** a server that follows its protocol is heard out. If it greets, offers
    STARTTLS and accepts it, each in its turn (a greeting and the tagged OK
    for IMAP), then however the network cuts its replies the exchange comes to
    the handshake, and the probe gets the chain of that handshake. *)
Theorem compliant_server_reached name protocol phases : Speaks phases ->
  (protocol = "smtp"%string /\ exists greeting extensions go texts1 texts2 texts3, phases = [greeting; extensions; go] /\
     reply 220 maxStartTLSLines greeting texts1 /\ reply 250 maxStartTLSLines extensions texts2 /\ offers_starttls texts2 = true /\
     reply 220 maxStartTLSLines go texts3) \/
  (protocol = "imap"%string /\ exists greeting go, phases = [greeting; go] /\ wire_line greeting /\ greets (trim_eol greeting) = true /\
     agreement maxStartTLSLines go) ->
  exists w, before_handshake protocol fresh_wire = (inl tt, w) /\
    forall leaf more, peer_handshake (w_io w) name = inl (leaf :: more) -> fetchChain name protocol = (inl (leaf :: more), w).
Proof.
  intros Hs Hp. enough (exists w, before_handshake protocol fresh_wire = (inl tt, w)) as (w & E).
  { exists w. split; [done|]. intros leaf more Eh. unfold fetchChain. by rewrite speaks_dial, E, Eh. }
  assert (Hf : fits fresh_wire) by (unfold fits; cbn; lia).
  destruct Hp as [[-> (g & e & s & t1 & t2 & t3 & -> & R1 & R2 & Ho & R3)]|[-> (g & a & -> & Hl & Hg & Ha)]];
    unfold before_handshake; cbn [String.eqb Ascii.eqb Bool.eqb].
  - assert (H1 : owes [g; e; s] fresh_wire 0 g) by (split; [done|]; exists g; cbn; rewrite !app_nil_r; done).
    unfold startTLSSMTP, readSMTPReply, twrap, tbind.
    destruct (reply_heard [g; e; s] 0 _ _ _ _ _ R1 H1) as (w1 & -> & H2). destruct (request_served [g; e; s] 0 ehlo w1 e eq_refl H2) as (w2 & -> & H3).
    destruct (reply_heard [g; e; s] 1 _ _ _ _ _ R2 H3) as (w3 & -> & H4). rewrite Ho. cbn [negb].
    destruct (request_served [g; e; s] 1 starttls w3 s eq_refl H4) as (w4 & -> & H5).
    destruct (reply_heard [g; e; s] 2 _ _ _ _ _ R3 H5) as (w5 & -> & _ & avail & _ & _ & Eb).
    symmetry in Eb. apply app_nil in Eb as [Eb _]. exists w5. unfold nothingBuffered. by rewrite Eb.
  - assert (H1 : owes [g; a] fresh_wire 0 (g ++ [])) by (split; [done|]; exists g; cbn; rewrite !app_nil_r; done).
    unfold startTLSIMAP, twrap, tbind. destruct (line_served [g; a] 0 g [] _ Hl H1) as (w1 & -> & H2). rewrite Hg. cbn [negb].
    destruct (request_served [g; a] 0 tag_starttls w1 a eq_refl H2) as (w2 & -> & H3). by eapply agreement_served.
Qed.

End Accepted.

(** ** The probe *)

(** [loadRoots]: what reading the file gives, and whether a PEM text has a
    certificate in it; its error. *)
Definition loadRoots (ReadFile : bytes + bytes) (AppendCertsFromPEM : bytes -> bool) (path : bytes) : option bytes :=
  match ReadFile with
  | inr e => Some (bstr "ca_file: " ++ e)
  | inl pem => if AppendCertsFromPEM pem then None else Some (bstr "ca_file " ++ path ++ bstr ": no PEM certificate in it")
  end.

Section Probing.
Context `{GoText} `{URLs} `{Peer}.

(** [runOnceTLS] with all it calls. *)
Definition probeTLS (ctx : CtxErr) (ReadFile : bytes -> bytes + bytes) (AppendCertsFromPEM : bytes -> bool) (j : Job) (now : Time)
    (attempt : Z) (started ended : Time) : RunResult :=
  let s := specOf j in
  let fetched := match fst (fetchChain (bstr (tlsName s)) (sp_starttls s)) with
                 | inl (leaf :: more) => inl (leaf, Z.of_nat (S (List.length more)))
                 | inl [] => inr []
                 | inr e => inr e
                 end in
  runOnceTLS ctx (loadRoots (ReadFile (bstr (sp_ca_file s))) AppendCertsFromPEM (bstr (sp_ca_file s))) fetched j now attempt started ended.

(** How the probe of [j] judges at [now]. *)
Definition judged_by (j : Job) (now : Time) : certCheck :=
  let s := specOf j in
  {| cc_now := now; cc_name := bstr (tlsName s); cc_warn_days := sp_warn_days s; cc_fraction := sp_renew_after_fraction s;
     cc_verify := negb (sp_insecure_skip_verify s) |}.

Lemma ValidateSpec_warn s : ValidateSpec TLS (Some s) = None -> 0 <= sp_warn_days s <= MaxWarnDays.
Proof.
  unfold ValidateSpec. change (negb (HasSpec TLS)) with false. cbv iota. cbn [default from_option id]. rewrite (bool_decide_eq_false_2 (TLS = Drill)) by done. rewrite andb_true_r. destruct ((sp_warn_days s <? 0) || (MaxWarnDays <? sp_warn_days s)) eqn:E; [done|].
  intros _. bsimpl. lia.
Qed.

(** C28: a TLS probe succeeds exactly when its settings are valid, the file of
    its private CA (if it names one) can be read, and the server, asked over a
    connection on which nothing but the exchange of the protocol was
    read before the handshake, presents a chain whose leaf is in force with
    the warning to spare, has not missed its renewal, is valid for the name,
    and verifies where that is asked for. *)
Theorem probeTLS_succeeds ctx ReadFile pem j now attempt started ended :
  rs_status (probeTLS ctx ReadFile pem j now attempt started ended) = StatusSucceeded <->
  let s := specOf j in let path := bstr (sp_ca_file s) in
  ValidateSpec TLS (Some s) = None /\ (sp_ca_file s <> ""%string -> loadRoots (ReadFile path) pem path = None) /\
  exists leaf more w, fetchChain (bstr (tlsName s)) (sp_starttls s) = (inl (leaf :: more), w) /\
    talked (sp_starttls s) (received (w_io w)) (sent (w_io w)) /\
    in_force (judged_by j now) leaf /\ renewed (judged_by j now) leaf /\ ct_VerifyHostname leaf (bstr (tlsName s)) = None /\
    chain_ok (judged_by j now) leaf.
Proof.
  assert (Hstop : forall e, rs_status (probeErrorResult ctx attempt started ended e) <> StatusSucceeded) by (intros e; unfold probeErrorResult; by destruct ctx).
  cbv zeta. unfold probeTLS, runOnceTLS. destruct (ValidateSpec TLS _) eqn:Ev; [by split; [intros ?%Hstop|intros []]|].
  destruct (if String.eqb (sp_ca_file (specOf j)) "" then None else _) eqn:Er.
  { split; [by intros ?%Hstop|]. intros (_ & Hr & _). destruct (String.eqb_spec (sp_ca_file (specOf j)) ""); [done|]. by rewrite Hr in Er. }
  assert (Hr : sp_ca_file (specOf j) <> ""%string -> loadRoots (ReadFile (bstr (sp_ca_file (specOf j)))) pem (bstr (sp_ca_file (specOf j))) = None)
    by (destruct (String.eqb_spec (sp_ca_file (specOf j)) ""); done).
  destruct (fetchChain (bstr (tlsName (specOf j))) (sp_starttls (specOf j))) as [[[|leaf more]|e] w] eqn:Ef; cbn [fst];
    try (split; [by intros ?%Hstop|intros (_ & _ & ? & ? & ? & [=] & _)]).
  match goal with |- rs_status (result ?r ?a ?b ?c ?d) = _ <-> _ => pose proof (proj1 (result_status r a b c d)) as Hs end.
  cbn zeta in Hs. rewrite Hs. cbn [problems]. pose proof (fetchChain_talked _ _ _ _ Ef) as Ht.
  pose proof (proj1 (checkCertificate_spec leaf (Z.of_nat (S (List.length more))) (judged_by j now) (ValidateSpec_warn _ Ev))) as Hc.
  rewrite Hc. split; [intros Hp|intros (_ & _ & l & m & w' & [= <- <- <-] & _ & Hp)]; [|done]. split; [done|]. split; [done|]. by exists leaf, more, w.
Qed.

End Probing.

(** ** Servers *)

(** A server that says its phases, [n + 1] bytes to a read. *)
Definition scripted (n : nat) (phases : list bytes) (chain : list Certificate) : Peer := {|
  peer_dial := None; peer_write _ _ := None; peer_handshake _ _ := inl chain;
  peer_read h := match available phases h with [] => inr EOF | c :: r => inl (c, take n r) end |}.

Lemma scripted_speaks n phases chain : @Speaks (scripted n phases chain) phases.
Proof.
  split; [done|done|]. intros h Ha. cbn. destruct (available phases h) as [|c r]; [done|]. exists c, (take n r), (drop n r). by rewrite take_drop.
Qed.

#[local] Instance tls_text : GoText := {| time_Parse _ _ := None; time_ParseDuration _ := None; Quote s := s; FormatG _ := [] |}.

Definition eol (s : string) : bytes := bstr s ++ crlf.
Definition mail_phases : list bytes :=
  [eol "220 mail.example ESMTP"; eol "250-mail.example" ++ eol "250-SIZE 1000" ++ eol "250 StartTLS"; eol "220 go ahead"].
Definition imap_phases : list bytes := [eol "* OK ready"; eol "* CAPABILITY IMAP4rev1" ++ eol "tend1 ok begin"].

Lemma eol_line s : nl ∉ bstr s -> (List.length (bstr s) <= 4000)%nat -> wire_line (eol s).
Proof.
  intros Hs Hl. exists (bstr s ++ ["013"%char]). split; [unfold eol, crlf; by rewrite <- app_assoc|]. split.
  - apply not_elem_of_app. split; [done|]. apply not_elem_of_cons. split; [done|apply not_elem_of_nil].
  - unfold eol, crlf. rewrite length_app. cbn [List.length]. unfold bufSize. lia.
Qed.

Ltac line := apply eol_line; [apply (bool_decide_unpack _); vm_compute; exact I|apply Nat.leb_le; vm_compute; reflexivity].

Lemma handshake_starts_clean_witness : let p := scripted 2 mail_phases [a_certificate] in
  exists w, @fetchChain _ p (bstr "mail.example") "smtp" = (inl [a_certificate], w) /\
  talked "smtp" (received (w_io w)) (sent (w_io w)).
Proof.
  intros p. assert (E : fst (@fetchChain _ p (bstr "mail.example") "smtp") = inl [a_certificate]) by (vm_compute; reflexivity).
  destruct (@fetchChain _ p (bstr "mail.example") "smtp") as [r w] eqn:Ef. cbn [fst] in E. subst r. exists w. split; [reflexivity|].
  apply (@handshake_starts_clean _ p (bstr "mail.example") "smtp" [a_certificate] w Ef).
Defined.

Lemma compliant_server_reached_witness : let p := scripted 0 imap_phases [a_certificate] in
  exists w, @before_handshake _ p "imap" fresh_wire = (inl tt, w).
Proof.
  intros p. destruct (@compliant_server_reached _ p (bstr "mail.example") "imap" imap_phases (scripted_speaks 0 imap_phases [a_certificate])) as (w & E & _).
  - right. split; [reflexivity|]. exists (eol "* OK ready"), (eol "* CAPABILITY IMAP4rev1" ++ eol "tend1 ok begin"). split; [reflexivity|].
    split; [line|]. split; [vm_compute; reflexivity|]. unfold maxStartTLSLines. apply agreement_more; [line|vm_compute; reflexivity|].
    apply agreement_last; [line|vm_compute; reflexivity|vm_compute; reflexivity].
  - exists w. exact E.
Defined.

(** A command slipped in behind the agreement is refused, and so are a server
    without STARTTLS, one that never ends its reply and one that never ends its line. *)
Definition refusal (phases : list bytes) : option string :=
  match fst (@fetchChain _ (scripted 5000 phases [a_certificate]) (bstr "mail.example") "smtp") with inl _ => None | inr e => Some (str e) end.

Example refusals :
  refusal [eol "220 hi"; eol "250 STARTTLS"; eol "220 go" ++ eol "250 injected"] = Some "starttls (smtp): the server sent data before the handshake"%string /\
  refusal [eol "220 hi"; eol "250-hi" ++ eol "250 SIZE 1000"] = Some "starttls (smtp): the server does not offer STARTTLS"%string /\
  refusal [eol "220 hi"; mjoin (replicate 200 (eol "250-again"))] = Some "starttls (smtp): EHLO: the server's reply does not end"%string /\
  refusal [replicate 5000 "x"%char] = Some "starttls (smtp): greeting: the server sent an overlong line"%string /\
  refusal [eol "220 hi"; eol "250 STARTTLS"; eol "454 not now"] = Some "starttls (smtp): STARTTLS: the server replied 454 not now"%string /\
  refusal [] = Some "starttls (smtp): greeting: the server closed the connection"%string.
Proof. vm_compute. repeat split. Qed.
