(* ===== verification/TimeText.v ===== *)
(** * Timestamps as text ([internal/store/sqlite.go])

    The store keeps a time as text of a fixed width and compares times by
    comparing the texts byte by byte. The rest of the development keeps them
    as numbers; here is the text, what is read back from it, and why the two
    agree: [formatTime] over [tsLayout], [parseTime] over [time.Parse], and
    [TEXT]'s [<]. *)
From S2P Require Import Prelude GoTime Redact GoStrings Schema Probe.
Open Scope Z_scope.

(** ** The calendar *)

(** The days before a year, and before a month of it. *)
Definition days_before (y : Z) : Z := 365 * (y - 1) + (y - 1) / 4 - (y - 1) / 100 + (y - 1) / 400.
Definition month_lengths (y : Z) : list Z := [31; if leap y then 29 else 28; 31; 30; 31; 30; 31; 31; 30; 31; 30; 31].
Definition days_in (y m : Z) : Z := nth (Z.to_nat (m - 1)) (month_lengths y) 0.
Definition month_start (y m : Z) : Z := fold_right Z.add 0 (take (Z.to_nat (m - 1)) (month_lengths y)).

(** The day [time.Date] counts for a date, from January 1 of year 1. *)
Definition days_of (y m d : Z) : Z := days_before y + month_start y m + (d - 1).
Definition valid_date (y m d : Z) : Prop := 1 <= m <= 12 /\ 1 <= d <= days_in y m.

Lemma month_cases m : 1 <= m <= 12 -> m ∈ [1;2;3;4;5;6;7;8;9;10;11;12].
Proof. intros H. rewrite !elem_of_cons, elem_of_nil. lia. Qed.

(** A year by its place in the 400-year cycle. *)
Lemma leap_spec q c a n : 0 <= c < 4 -> 0 <= a < 25 -> 0 <= n < 4 ->
  leap (400 * q + 100 * c + 4 * a + n + 1) = (n =? 3) && (negb (a =? 24) || (c =? 3)).
Proof.
  intros Hc Ha Hn. unfold leap. set (y := 400 * q + 100 * c + 4 * a + n + 1).
  assert (H4 : (y mod 4 =? 0) = (n =? 3)) by (apply eq_true_iff_eq; rewrite !Z.eqb_eq; subst y; Z.to_euclidean_division_equations; lia).
  assert (H100 : (y mod 100 =? 0) = (a =? 24) && (n =? 3)).
  { apply eq_true_iff_eq. rewrite andb_true_iff, !Z.eqb_eq. subst y. Z.to_euclidean_division_equations; lia. }
  assert (H400 : (y mod 400 =? 0) = (c =? 3) && (a =? 24) && (n =? 3)).
  { apply eq_true_iff_eq. rewrite !andb_true_iff, !Z.eqb_eq. subst y. Z.to_euclidean_division_equations; lia. }
  rewrite H4, H100, H400. destruct (n =? 3), (a =? 24), (c =? 3); done.
Qed.

Lemma days_before_spec q c a n : 0 <= c < 4 -> 0 <= a < 25 -> 0 <= n < 4 ->
  days_before (400 * q + 100 * c + 4 * a + n + 1) = 146097 * q + 36524 * c + 1461 * a + 365 * n.
Proof. intros Hc Ha Hn. unfold days_before. Z.to_euclidean_division_equations; lia. Qed.

(** The month and day of a day of the year. *)
Lemma month_day_spec y doy : 0 <= doy < (if leap y then 366 else 365) ->
  let '(m, d) := month_day [31; if leap y then 29 else 28; 31; 30; 31; 30; 31; 31; 30; 31; 30] 1 doy in
  valid_date y m d /\ month_start y m + (d - 1) = doy.
Proof.
  intros Hd. unfold valid_date, days_in, month_start, month_lengths.
  destruct (leap y); cbn [month_day]; repeat case_match; simplify_eq; simplify_eq/=; split; try (vm_compute; lia); lia.
Qed.

(** The last day of a leap year is not a year of its own. *)
Lemma year_of_four r4 : 0 <= r4 < 1461 -> let k := Z.min 3 (r4 / 365) in
  0 <= k < 4 /\ 0 <= r4 - k * 365 <= 365 /\ (r4 - k * 365 = 365 -> r4 = 1460).
Proof. intros Hr k. subst k. pose proof (Z.div_mod r4 365 ltac:(lia)). pose proof (Z.mod_pos_bound r4 365 ltac:(lia)). lia. Qed.

Lemma civil_spec n : let '(y, m, d) := civil n in valid_date y m d /\ days_of y m d = n.
Proof.
  unfold civil. set (r := n mod 146097). set (c := Z.min 3 (r / 36524)). set (r100 := r - c * 36524).
  set (a := r100 / 1461). set (r4 := r100 mod 1461). set (k := Z.min 3 (r4 / 365)).
  assert (Hn : n = 146097 * (n / 146097) + r) by (subst r; Z.to_euclidean_division_equations; lia).
  assert (Hr : 0 <= r < 146097) by (apply Z.mod_pos_bound; lia).
  assert (Hc : 0 <= c < 4 /\ 0 <= r100 < 36524 + (if c =? 3 then 1 else 0)).
  { subst r100 c. destruct (Z.eqb_spec (Z.min 3 (r / 36524)) 3); Z.to_euclidean_division_equations; lia. }
  assert (Ha : 0 <= a < 25 /\ r100 = 1461 * a + r4 /\ 0 <= r4 < 1461) by (subst a r4; destruct (c =? 3); Z.to_euclidean_division_equations; lia).
  assert (Hk : 0 <= k < 4 /\ 0 <= r4 - k * 365 <= 365 /\ (r4 - k * 365 = 365 -> r4 = 1460)) by (apply year_of_four; lia).
  assert (Hy : n / 146097 * 400 + c * 100 + a * 4 + k + 1 = 400 * (n / 146097) + 100 * c + 4 * a + k + 1) by lia. rewrite Hy.
  pose proof (leap_spec (n / 146097) c a k ltac:(lia) ltac:(lia) ltac:(lia)) as Hl.
  pose proof (days_before_spec (n / 146097) c a k ltac:(lia) ltac:(lia) ltac:(lia)) as Hb.
  set (y := 400 * (n / 146097) + 100 * c + 4 * a + k + 1) in *.
  pose proof (month_day_spec y (r4 - k * 365)) as Hm. destruct (month_day _ 1 _) as [m d]. destruct Hm as [Hv Hs].
  - rewrite Hl. destruct (Z.eqb_spec k 3), (Z.eqb_spec a 24), (Z.eqb_spec c 3); simpl; lia.
  - split; [done|]. unfold days_of. lia.
Qed.

Lemma year_length y : days_before (y + 1) = days_before y + (if leap y then 366 else 365).
Proof.
  pose proof (Z.div_mod (y - 1) 400 ltac:(lia)). pose proof (Z.mod_pos_bound (y - 1) 400 ltac:(lia)).
  set (q := (y - 1) / 400) in *. set (r := (y - 1) mod 400) in *. clearbody q r. unfold days_before, leap.
  replace (y + 1 - 1) with y by lia. replace y with (400 * q + r + 1) by lia. replace (400 * q + r + 1 - 1) with (400 * q + r) by lia.
  destruct (Z.eqb_spec ((400 * q + r + 1) mod 4) 0), (Z.eqb_spec ((400 * q + r + 1) mod 100) 0), (Z.eqb_spec ((400 * q + r + 1) mod 400) 0);
    simpl; Z.to_euclidean_division_equations; lia.
Qed.

Lemma days_before_mono y y' : y <= y' -> days_before y <= days_before y'.
Proof.
  intros Hy. replace y' with (y + Z.of_nat (Z.to_nat (y' - y))) by lia. induction (Z.to_nat (y' - y)) as [|k IH]; [by rewrite Z.add_0_r|].
  replace (y + Z.of_nat (S k)) with (y + Z.of_nat k + 1) by lia. rewrite year_length. destruct (leap _); lia.
Qed.

(** A date lies within its month, a month before the next. *)
Lemma month_within y m d : valid_date y m d ->
  0 <= month_start y m + (d - 1) < (if leap y then 366 else 365) /\
  forall m', m < m' <= 12 -> month_start y m + d <= month_start y m'.
Proof.
  intros [Hm Hd]. unfold days_in, month_start, month_lengths in *. destruct (leap y);
    (apply month_cases in Hm; repeat (apply elem_of_cons in Hm as [->|Hm]); [..|by apply not_elem_of_nil in Hm]);
    simpl in Hd |- *; (split; [lia|]); intros m' Hm';
    (assert (Hc : m' ∈ [1;2;3;4;5;6;7;8;9;10;11;12]) by (apply month_cases; lia));
    (repeat (apply elem_of_cons in Hc as [->|Hc]); [..|by apply not_elem_of_nil in Hc]); simpl; lia.
Qed.

(** ** Comparing *)

Fixpoint lex (a b : list Z) : comparison :=
  match a, b with
  | [], [] => Eq
  | [], _ => Lt
  | _, [] => Gt
  | x :: a, y :: b => match x ?= y with Eq => lex a b | c => c end
  end.

(** [<] on [TEXT] columns: byte by byte. *)
Definition text_cmp (a b : bytes) : comparison := lex (map byte_val a) (map byte_val b).

(** A quotient and a remainder compare as the number does. *)
Lemma lex_divide k t u : 0 < k -> (t ?= u) = match t / k ?= u / k with Eq => t mod k ?= u mod k | c => c end.
Proof.
  intros Hk. pose proof (Z.div_mod t k ltac:(lia)). pose proof (Z.mod_pos_bound t k Hk).
  pose proof (Z.div_mod u k ltac:(lia)). pose proof (Z.mod_pos_bound u k Hk).
  destruct (Z.compare_spec (t / k) (u / k)); [destruct (Z.compare_spec (t mod k) (u mod k))|..];
    destruct (Z.compare_spec t u); try done; nia.
Qed.

Lemma days_of_lex y m d y' m' d' : valid_date y m d -> valid_date y' m' d' ->
  (days_of y m d ?= days_of y' m' d') = lex [y; m; d] [y'; m'; d'].
Proof.
  intros Hv Hv'. destruct (month_within _ _ _ Hv) as [Hl Hm], (month_within _ _ _ Hv') as [Hl' Hm'].
  unfold days_of. cbn [lex]. destruct (Z.compare_spec y y') as [->|Hy|Hy].
  - destruct (Z.compare_spec m m') as [->|Hlt|Hlt].
    + destruct (Z.compare_spec d d') as [->|?|?]; [apply Z.compare_refl|apply Z.compare_lt_iff; lia|apply Z.compare_gt_iff; lia].
    + apply Z.compare_lt_iff. specialize (Hm m'). destruct Hv', Hv. lia.
    + apply Z.compare_gt_iff. specialize (Hm' m). destruct Hv', Hv. lia.
  - apply Z.compare_lt_iff. pose proof (year_length y). pose proof (days_before_mono (y + 1) y' ltac:(lia)). lia.
  - apply Z.compare_gt_iff. pose proof (year_length y'). pose proof (days_before_mono (y' + 1) y ltac:(lia)). lia.
Qed.

(** ** The layout *)

(** What [tsLayout] prints of a time, in UTC. *)
Definition fields (t : Time) : list Z :=
  let '(y, m, d) := civil (t / day) in
  let n := t mod day in
  let s := n / Second in
  [y; m; d; s / 3600; s mod 3600 / 60; s mod 60; n mod Second].

Lemma fields_lex t u : (t ?= u) = lex (fields t) (fields u).
Proof.
  rewrite (lex_divide day) by done. unfold fields. pose proof (civil_spec (t / day)) as Ht. pose proof (civil_spec (u / day)) as Hu.
  destruct (civil (t / day)) as [[y m] d], (civil (u / day)) as [[y' m'] d']. destruct Ht as [Hv <-], Hu as [Hv' <-].
  rewrite days_of_lex by done. rewrite (lex_divide Second) by done. rewrite (lex_divide 3600) by done. rewrite (lex_divide 60 (_ mod 3600)) by done.
  cbn [lex]. assert (Hm : forall x, (x mod 3600) mod 60 = x mod 60) by (intros; by rewrite Z.mod_mod_divide by (by exists 60)). rewrite !Hm.
  repeat case_match; done.
Qed.

(** [appendInt] of [time]: at least [w] digits. *)
Definition digit (n : Z) : ascii := ascii_of_N (Z.to_N (48 + n)).
Fixpoint fixed (w : nat) (n : Z) : bytes :=
  match w with O => [] | S w => digit (n / 10 ^ Z.of_nat w) :: fixed w (n mod 10 ^ Z.of_nat w) end.
Definition appendInt (w : nat) (n : Z) : bytes :=
  (if n <? 0 then bstr "-" else []) ++ if Z.abs n <? 10 ^ Z.of_nat w then fixed w (Z.abs n) else Itoa (Z.abs n).

(** [tsLayout]: the width of each field and what stands behind it. *)
Definition tsLayout : list (nat * bytes) :=
  [(4%nat, bstr "-"); (2%nat, bstr "-"); (2%nat, bstr "T"); (2%nat, bstr ":"); (2%nat, bstr ":"); (2%nat, bstr "."); (9%nat, bstr "Z")].
Fixpoint lay (l : list (nat * bytes)) (ns : list Z) : bytes :=
  match l, ns with (w, sep) :: l, n :: ns => appendInt w n ++ sep ++ lay l ns | _, _ => [] end.

(** [formatTime]. *)
Definition formatTime (t : Time) : bytes := lay tsLayout (fields t).

Example formatTime_examples : map (fun t => str (formatTime t)) [zero_time; 63935136000 * Second + 500 * Millisecond; -1; days_of 10000 1 1 * day]
  = ["0001-01-01T00:00:00.000000000Z"; "2027-01-10T00:00:00.500000000Z"; "0000-12-31T23:59:59.999999999Z"; "10000-01-01T00:00:00.000000000Z"]%string.
Proof. vm_compute. reflexivity. Qed.

(** ** [time.Parse] with the RFC 3339 layouts *)

(** [getnum]: two digits, or one where the layout does not ask for two. *)
Definition getnum (two : bool) (s : bytes) : option (Z * bytes) :=
  match s with
  | a :: r =>
      if negb (is_digit a) then None
      else match r with
           | b :: r' => if is_digit b then Some (digits_value [a; b], r') else if two then None else Some (digits_value [a], r)
           | [] => if two then None else Some (digits_value [a], r)
           end
  | [] => None
  end.
Definition ranged (lo hi : Z) (p : option (Z * bytes)) : option (Z * bytes) :=
  '(n, s) ← p; if (lo <=? n) && (n <=? hi) then Some (n, s) else None.
Definition lit (c : ascii) (s : bytes) : option bytes :=
  match s with x :: r => if Ascii.eqb x c then Some r else None | [] => None end.
Definition year4 (s : bytes) : option (Z * bytes) :=
  match s with
  | a :: b :: c :: d :: r => if forallb is_digit [a; b; c; d] then Some (digits_value [a; b; c; d], r) else None
  | _ => None
  end.

(** A fraction of any length behind the seconds; what is below a nanosecond
    is dropped ([parseNanoseconds]). *)
Fixpoint leading_digits (s : bytes) : bytes * bytes :=
  match s with
  | c :: r => if is_digit c then let '(ds, rest) := leading_digits r in (c :: ds, rest) else ([], s)
  | [] => ([], [])
  end.
Definition fraction_of (s : bytes) : Z * bytes :=
  match s with
  | p :: d :: r =>
      if (Ascii.eqb p "." || Ascii.eqb p ",") && is_digit d then
        let '(ds, rest) := leading_digits (d :: r) in
        let ds := take 9 ds in (digits_value ds * 10 ^ (9 - Z.of_nat (List.length ds)), rest)
      else (0, s)
  | _ => (0, s)
  end.

(** [Z], or an offset whose range test lets 24 hours and 60 minutes through. *)
Definition zone (s : bytes) : option (Z * bytes) :=
  match s with
  | c :: r =>
      if Ascii.eqb c "Z" then Some (0, r)
      else
        sign ← (if Ascii.eqb c "+" then Some 1 else if Ascii.eqb c "-" then Some (-1) else None);
        '(hh, r) ← ranged 0 24 (getnum true r);
        r ← lit ":" r;
        '(mm, r) ← ranged 0 60 (getnum true r);
        Some (sign * (hh * 3600 + mm * 60), r)
  | [] => None
  end.

Definition time_ParseRFC3339 (s : bytes) : option Time :=
  '(y, s) ← year4 s; s ← lit "-" s;
  '(mo, s) ← ranged 1 12 (getnum true s); s ← lit "-" s;
  '(d, s) ← getnum true s; s ← lit "T" s;
  '(h, s) ← ranged 0 23 (getnum false s); s ← lit ":" s;
  '(mi, s) ← ranged 0 59 (getnum true s); s ← lit ":" s;
  '(sec, s) ← ranged 0 59 (getnum true s);
  let '(ns, s) := fraction_of s in
  '(off, s) ← zone s;
  if is_nil s && (1 <=? d) && (d <=? days_in y mo)
  then Some (days_of y mo d * day + (h * 3600 + mi * 60 + sec - off) * Second + ns) else None.

(** [parseTime]: the second layout it falls back to accepts the same texts. *)
Definition parse_column (c : option bytes) : option Time :=
  match c with None => Some zero_time | Some s => if is_nil s then Some zero_time else time_ParseRFC3339 s end.

Example parse_examples : map (fun s => time_ParseRFC3339 (bstr s))
    ["2027-01-10T00:00:00Z"; "2027-01-10T1:00:00,5+01:00"; "2027-02-29T00:00:00Z"; "10000-01-01T00:00:00Z"; "2028-02-29T23:59:59.9999999999-24:60"]%string
  = [Some (63935136000 * Second); Some (63935136000 * Second + 500 * Millisecond); None; None;
     Some (days_of 2028 3 2 * day + 59 * Minute + 59 * Second + 999999999)].
Proof. vm_compute. reflexivity. Qed.

(** ** Digits *)

Lemma digit_val n : 0 <= n < 10 -> byte_val (digit n) = 48 + n.
Proof. intros Hn. unfold byte_val, digit. rewrite N_ascii_embedding; lia. Qed.

Lemma digit_is n : 0 <= n < 10 -> is_digit (digit n) = true.
Proof. intros Hn. unfold is_digit. rewrite digit_val by done. lia. Qed.

Lemma fixed_step w n : 0 <= n < 10 ^ Z.of_nat (S w) -> 0 <= n / 10 ^ Z.of_nat w < 10 /\ 0 <= n mod 10 ^ Z.of_nat w < 10 ^ Z.of_nat w.
Proof.
  intros Hn. rewrite Nat2Z.inj_succ, Z.pow_succ_r in Hn by lia. assert (0 < 10 ^ Z.of_nat w) by lia.
  split; [split; [apply Z.div_pos; lia|apply Z.div_lt_upper_bound; lia]|by apply Z.mod_pos_bound].
Qed.

Lemma fixed_length w n : List.length (fixed w n) = w.
Proof. revert n. induction w; intros n; simpl; auto. Qed.

Lemma fixed_digits w n : 0 <= n < 10 ^ Z.of_nat w -> forallb is_digit (fixed w n) = true.
Proof.
  revert n. induction w as [|w IH]; intros n Hn; [done|]. destruct (fixed_step w n Hn). simpl. by rewrite digit_is, IH.
Qed.

(** The digits of a number are its value. *)
Lemma fixed_value w n acc : 0 <= n < 10 ^ Z.of_nat w ->
  fold_left (fun n c => 10 * n + (byte_val c - 48)) (fixed w n) acc = acc * 10 ^ Z.of_nat w + n.
Proof.
  revert n acc. induction w as [|w IH]; intros n acc Hn; [simpl in *; lia|]. destruct (fixed_step w n Hn) as [Hd Hm].
  cbn [fixed fold_left]. rewrite digit_val, IH by done. rewrite Nat2Z.inj_succ, Z.pow_succ_r by lia.
  pose proof (Z.div_mod n (10 ^ Z.of_nat w) ltac:(lia)). nia.
Qed.

Lemma digits_value_fixed w n : 0 <= n < 10 ^ Z.of_nat w -> digits_value (fixed w n) = n.
Proof. intros Hn. unfold digits_value. by rewrite fixed_value. Qed.

Lemma appendInt_fixed w n : 0 <= n < 10 ^ Z.of_nat w -> appendInt w n = fixed w n.
Proof.
  intros Hn. unfold appendInt. rewrite (proj2 (Z.ltb_ge n 0)), Z.abs_eq by lia. by rewrite (proj2 (Z.ltb_lt _ _)) by lia.
Qed.

(** ** Order *)

Lemma text_cmp_app p a b : text_cmp (p ++ a) (p ++ b) = text_cmp a b.
Proof. induction p as [|c p IH]; [done|]. unfold text_cmp in *. cbn [app map lex]. by rewrite Z.compare_refl. Qed.

Lemma fixed_cmp w n m a b : 0 <= n < 10 ^ Z.of_nat w -> 0 <= m < 10 ^ Z.of_nat w ->
  text_cmp (fixed w n ++ a) (fixed w m ++ b) = match n ?= m with Eq => text_cmp a b | c => c end.
Proof.
  revert n m. induction w as [|w IH]; intros n m Hn Hm.
  - simpl in *. replace n with 0 by lia. by replace m with 0 by lia.
  - destruct (fixed_step w n Hn) as [Hd Hr], (fixed_step w m Hm) as [Hd' Hr']. rewrite (lex_divide (10 ^ Z.of_nat w)) by lia.
    unfold text_cmp. cbn [fixed app map lex]. rewrite !digit_val by done. rewrite Z.add_compare_mono_l.
    fold (text_cmp (fixed w (n mod 10 ^ Z.of_nat w) ++ a) (fixed w (m mod 10 ^ Z.of_nat w) ++ b)). rewrite IH by done. by case_match.
Qed.

(** Fields that fit their widths compare as their text does. *)
Definition fits (l : list (nat * bytes)) (ns : list Z) : Prop := Forall2 (fun f n => 0 <= n < 10 ^ Z.of_nat f.1) l ns.

Lemma lay_cmp l ns ms : fits l ns -> fits l ms -> text_cmp (lay l ns) (lay l ms) = lex ns ms.
Proof.
  intros Hn. revert ms. induction Hn as [|[w sep] n l ns Hw Hn IH]; intros ms Hm; inversion Hm as [|? m ? ms' Hw' Hm']; subst; [done|].
  cbn [lay lex]. simpl in Hw, Hw'. rewrite !appendInt_fixed, fixed_cmp by done. rewrite text_cmp_app, IH by done. by case_match.
Qed.

(** What RFC 3339 has four digits for. *)
Definition in_years (t : Time) : Prop := let '(y, _, _) := civil (t / day) in 0 <= y <= 9999.

Lemma valid_day y m d : valid_date y m d -> 1 <= d <= 31.
Proof.
  intros [Hm Hd]. unfold days_in, month_lengths in Hd. destruct (leap y); apply month_cases in Hm;
    repeat (apply elem_of_cons in Hm as [->|Hm]; [simpl in Hd; lia|]); by apply not_elem_of_nil in Hm.
Qed.

Lemma fields_fit t : in_years t -> fits tsLayout (fields t).
Proof.
  unfold in_years, fields. pose proof (civil_spec (t / day)) as Hc. destruct (civil (t / day)) as [[y m] d]. destruct Hc as [[Hm Hd] _]. intros Hy.
  pose proof (valid_day y m d (conj Hm Hd)).
  set (n := t mod day). assert (Hn : 0 <= n < 86400 * Second) by (apply Z.mod_pos_bound; done).
  unfold Second in *. repeat constructor; simpl; Z.to_euclidean_division_equations; lia.
Qed.

(** C25: [TEXT] columns order times as the clock does: the texts [formatTime]
    stores of two times of the years 0 to 9999 compare byte by byte as the
    times, down to the nanosecond. *)
Theorem formatTime_order t u : in_years t -> in_years u -> text_cmp (formatTime t) (formatTime u) = (t ?= u).
Proof. intros Ht Hu. unfold formatTime. rewrite lay_cmp by (by apply fields_fit). by rewrite <- fields_lex. Qed.

(** ** Reading back *)

Lemma getnum_fixed two n s : 0 <= n < 100 -> getnum two (fixed 2 n ++ s) = Some (n, s).
Proof.
  intros Hn. pose proof (fixed_digits 2 n Hn) as Hd. pose proof (digits_value_fixed 2 n Hn) as Hv.
  cbn [fixed app forallb] in *. apply andb_true_iff in Hd as [Ha [Hb _]%andb_true_iff]. cbn [getnum]. by rewrite Ha, Hb, Hv.
Qed.

Lemma ranged_fixed lo hi two n s : lo <= n <= hi -> 0 <= n < 100 -> ranged lo hi (getnum two (fixed 2 n ++ s)) = Some (n, s).
Proof. intros Hr Hn. rewrite getnum_fixed by done. cbn. by rewrite (proj2 (Z.leb_le lo n)), (proj2 (Z.leb_le n hi)) by lia. Qed.

Lemma year4_fixed n s : 0 <= n < 10000 -> year4 (fixed 4 n ++ s) = Some (n, s).
Proof.
  intros Hn. pose proof (fixed_digits 4 n Hn) as Hd. pose proof (digits_value_fixed 4 n Hn) as Hv.
  cbn [fixed app] in *. cbn [year4]. by rewrite Hd, Hv.
Qed.

Lemma leading_digits_app ds s : forallb is_digit ds = true -> (forall c, head s = Some c -> is_digit c = false) -> leading_digits (ds ++ s) = (ds, s).
Proof.
  intros Hd Hs. induction ds as [|c ds IH].
  - destruct s as [|c s]; [done|]. simpl. by rewrite (Hs c eq_refl).
  - simpl in *. apply andb_true_iff in Hd as [Hc Hd]. by rewrite Hc, IH.
Qed.

Lemma fraction_fixed n s : 0 <= n < Second -> (forall c, head s = Some c -> is_digit c = false) ->
  fraction_of (bstr "." ++ fixed 9 n ++ s) = (n, s).
Proof.
  intros Hn Hs. pose proof (fixed_digits 9 n Hn) as Hd. pose proof (digits_value_fixed 9 n Hn) as Hv. pose proof (fixed_length 9 n) as Hl.
  destruct (fixed 9 n) as [|c ds]; [done|]. cbn [app bstr list_ascii_of_string fraction_of].
  assert (Hc : is_digit c = true) by (simpl in Hd; by apply andb_true_iff in Hd as [? _]). rewrite Hc. cbn [Ascii.eqb Bool.eqb andb orb].
  change (c :: ds ++ s) with ((c :: ds) ++ s). rewrite leading_digits_app by done. rewrite take_ge by lia. rewrite Hl, Hv. f_equal. lia.
Qed.

Lemma lit_same c s : lit c (c :: s) = Some s.
Proof. cbn. by rewrite Ascii.eqb_refl. Qed.

Lemma parse_lay y m d h mi s ns : 0 <= y <= 9999 -> valid_date y m d -> d <= 31 -> 0 <= h < 24 -> 0 <= mi < 60 -> 0 <= s < 60 -> 0 <= ns < Second ->
  time_ParseRFC3339 (lay tsLayout [y; m; d; h; mi; s; ns]) = Some (days_of y m d * day + (h * 3600 + mi * 60 + s) * Second + ns).
Proof.
  intros Hy [Hm Hd] Hd31 Hh Hmi Hs Hns. cbn [lay tsLayout]. rewrite !appendInt_fixed by (cbn; unfold Second in *; lia).
  rewrite app_nil_r. unfold time_ParseRFC3339. rewrite year4_fixed by lia. cbn [mbind option_bind bstr list_ascii_of_string app].
  rewrite lit_same. cbn [mbind option_bind]. rewrite ranged_fixed by lia. cbn [mbind option_bind]. rewrite lit_same. cbn [mbind option_bind].
  rewrite getnum_fixed by lia. cbn [mbind option_bind]. rewrite lit_same. cbn [mbind option_bind].
  rewrite ranged_fixed by lia. cbn [mbind option_bind]. rewrite lit_same. cbn [mbind option_bind].
  rewrite ranged_fixed by lia. cbn [mbind option_bind]. rewrite lit_same. cbn [mbind option_bind].
  rewrite ranged_fixed by lia. cbn [mbind option_bind].
  pose proof (fraction_fixed ns ["Z"%char] Hns) as Hf. cbn [bstr list_ascii_of_string app] in Hf. rewrite Hf by (by intros c [= <-]).
  cbn -[days_in days_of Z.mul Z.add day Second]. rewrite (proj2 (Z.leb_le 1 d)), (proj2 (Z.leb_le d _)) by lia. cbn [andb]. do 2 f_equal. lia.
Qed.

(** Every time of the years 0 to 9999 is read back from its column as it
    was stored, to the nanosecond, the zero time from NULL. *)
Theorem formatTime_parse t : in_years t -> parse_column (formatTime <$> nullTime t) = Some t.
Proof.
  intros Hy. unfold nullTime, IsZero, zero_time. destruct (Z.eqb_spec t 0) as [->|_]; [done|]. cbn [fmap option_fmap option_map parse_column].
  assert (Hp : time_ParseRFC3339 (formatTime t) = Some t).
  { unfold formatTime, in_years in *. unfold fields. pose proof (civil_spec (t / day)) as Hc.
    destruct (civil (t / day)) as [[y m] d]. destruct Hc as [Hv Hd]. pose proof (valid_day y m d Hv).
    pose proof (Z.mod_pos_bound t day ltac:(done)). pose proof (Z.div_mod t day ltac:(done)).
    set (n := t mod day) in *. change day with (86400 * Second) in *. unfold Second in *.
    rewrite parse_lay by (done || (unfold Second; Z.to_euclidean_division_equations; lia)).
    rewrite Hd. change day with 86400000000000. unfold Second. f_equal. Z.to_euclidean_division_equations; lia. }
  rewrite Hp. by destruct (formatTime t).
Qed.

(** ** Past the year 9999 *)

(** A [run_at] of the last hour of 9999, west of Greenwich, parses to a time of
    the year 10000 in UTC. Its text has a digit more: it sorts before any
    time of today, so the job is due at once, and it does not parse, so the
    job cannot be read. *)
Definition now_2027 : Time := 63935136000 * Second.
Example run_at_10000 :
  match time_ParseRFC3339 (bstr "9999-12-31T23:59:59-01:00") with
  | Some t => After t now_2027 = true /\ text_cmp (formatTime t) (formatTime now_2027) = Lt /\ parse_column (formatTime <$> nullTime t) = None
  | None => False
  end.
Proof. vm_compute. done. Qed.

(** ** Witnesses *)

Lemma formatTime_order_witness : text_cmp (formatTime (now_2027 + 1)) (formatTime now_2027) = Gt.
Proof.
  assert (H1 : in_years (now_2027 + 1)) by (vm_compute; split; discriminate).
  assert (H2 : in_years now_2027) by (vm_compute; split; discriminate).
  rewrite (formatTime_order _ _ H1 H2). reflexivity.
Defined.

Lemma formatTime_parse_witness : parse_column (formatTime <$> nullTime (now_2027 + 1)) = Some (now_2027 + 1).
Proof. apply formatTime_parse. vm_compute. split; discriminate. Defined.
