(* ===== verification/Migrations.v ===== *)
(** * Schema migrations ([internal/store/migrations.go])

    The embedded SQL files of a dialect are run in the order of the versions
    in their names, each in a transaction that records its version, and those
    recorded are skipped. The SQL itself is a parameter: what running a text
    makes of the database, if it runs. *)
From S2P Require Import Prelude GoTime GoStrings Sql.
From stdpp Require Import sorting.
Open Scope Z_scope.

(** ** The files *)

(** An entry of the embedded directory, as [fs.ReadDir] lists it, with the
    contents [ReadFile] reads. *)
Record DirEntry := { de_name : string; de_is_dir : bool; de_text : bytes }.

Record migration := mkMigration { version : Z; name : string; sql : bytes }.

(** [parseVersion]: the number before the first underscore or dot. *)
Fixpoint before_any (stop : ascii -> bool) (s : bytes) : bytes :=
  match s with [] => [] | c :: r => if stop c then [] else c :: before_any stop r end.
Definition parseVersion (name : string) : option Z :=
  Atoi (before_any (fun c => Ascii.eqb c "_" || Ascii.eqb c ".") (bstr name)).

Definition version_le (a b : migration) : Prop := version a <= version b.
#[export] Instance version_le_dec a b : Decision (version_le a b).
Proof. unfold version_le. apply _. Defined.

(** [loadMigrations]: one name that does not parse fails them all. Versions
    are distinct, so that it does not matter that [sort.Slice] is not stable. *)
Definition read_migration (e : DirEntry) : option migration :=
  v ← parseVersion (de_name e); Some (mkMigration v (de_name e) (de_text e)).
Definition HasSuffix (s suffix : bytes) : bool :=
  Nat.leb (List.length suffix) (List.length s) && bool_decide (drop (List.length s - List.length suffix) s = suffix).
Definition sql_file (e : DirEntry) : bool := negb (de_is_dir e) && HasSuffix (bstr (de_name e)) (bstr ".sql").
Definition loadMigrations (es : list DirEntry) : option (list migration) :=
  merge_sort version_le <$> mapM read_migration (List.filter sql_file es).

(** ** Applying them *)

Section Migrating.
Context `{World} {Schema : Type} (run_sql : bytes -> Schema -> option Schema).

(** The database: everything but [schema_migrations], and that. *)
Record MDB := mkMDB { schema : Schema; schema_migrations : option (gmap Z Time) }.
Definition recorded (d : MDB) : gmap Z Time := default ∅ (schema_migrations d).

(** [tx.ExecContext(ctx, m.sql)], and the insert, whose key is primary. *)
Definition exec_sql (text : bytes) : M MDB unit := fun s =>
  match run_sql text (schema (st_db s)) with
  | Some sch => (Ok tt, mkSt (mkMDB sch (schema_migrations (st_db s))) (st_tick s))
  | None => (Error ErrDatabase, s)
  end.
Definition insert_version (v : Z) (at_ : Time) : M MDB unit := fun s =>
  match recorded (st_db s) !! v with
  | Some _ => (Error ErrConstraint, s)
  | None => (Ok tt, mkSt (mkMDB (schema (st_db s)) (Some (<[v := at_]> (recorded (st_db s))))) (st_tick s))
  end.

(** [applyMigration]. *)
Definition applyMigration (m : migration) : M MDB unit := tx (
  exec_sql (sql m) ;;;
  let* now := now_ in
  insert_version (version m) now ;;;
  ret (Commit tt)).

(** [appliedVersions]. *)
Definition appliedVersions : M MDB (gset Z) := autocommit (query (fun d => dom (recorded d))).

(** [runMigrations]. *)
Definition create_table (d : MDB) : MDB := mkMDB (schema d) (Some (recorded d)).
Definition runMigrations (es : list DirEntry) : M MDB unit :=
  autocommit (exec create_table) ;;;
  let* applied := appliedVersions in
  match loadMigrations es with
  | None => throw (ErrText (bstr "cannot parse version prefix"))
  | Some ms => for_each ms (fun m => if bool_decide (version m ∈ applied) then ret tt else applyMigration m)
  end.

(** ** What an attempt leaves *)

Fixpoint run_all (ms : list migration) (sch : Schema) : option Schema :=
  match ms with [] => Some sch | m :: r => sch' ← run_sql (sql m) sch; run_all r sch' end.

Lemma run_all_snoc ms m sch : run_all (ms ++ [m]) sch = (sch' ← run_all ms sch; run_sql (sql m) sch').
Proof.
  revert sch. induction ms as [|x ms IH]; intros sch; cbn; [by destruct (run_sql (sql m) sch)|]. destruct (run_sql (sql x) sch); [apply IH|done].
Qed.

(** The first migrations have been run, one after the other and once each,
    and they are what is recorded. *)
Definition migrated (init : Schema) (done_ : list migration) (d : MDB) : Prop :=
  run_all done_ init = Some (schema d) /\ dom (recorded d) = list_to_set (map version done_).

Lemma applyMigration_spec init done_ m s : migrated init done_ (st_db s) -> version m ∉ map version done_ ->
  let '(r, s') := applyMigration m s in
  (migrated init done_ (st_db s') /\ r <> Ok tt) \/ migrated init (done_ ++ [m]) (st_db s').
Proof.
  intros [Hs Hd] Hm. unfold applyMigration. match goal with |- context [tx ?b s] => pose proof (tx_outcome b s) as Ho; destruct (tx b s) as [r s'] end.
  assert (Hn : recorded (st_db s) !! version m = None) by (apply not_elem_of_dom; rewrite Hd; set_solver).
  destruct Ho as [[-> Hr]|(a & s1 & E & -> & _)].
  - left. split; [done|]. intros ->. destruct (Hr tt eq_refl) as [s1 E]. revert E.
    unfold bind, exec_sql, insert_version, now_, ret. simpl. destruct (run_sql (sql m) (schema (st_db s))); [|done]. simpl. unfold recorded in *; simpl. by rewrite Hn.
  - right. revert E. unfold bind, exec_sql, insert_version, now_, ret. simpl.
    destruct (run_sql (sql m) (schema (st_db s))) as [sch|] eqn:Er; [|done]. unfold recorded in *; simpl. rewrite Hn. intros [= _ <-]. split.
    + simpl. rewrite run_all_snoc, Hs. exact Er.
    + cbn. rewrite map_app, list_to_set_app_L, dom_insert_L, Hd. set_solver.
Qed.

Lemma in_versions m l : m ∈ l -> version m ∈ map version l.
Proof. intros Hm. by apply list_elem_of_In, in_map, list_elem_of_In. Qed.

(** The loop skips what is recorded. *)
Lemma skip_applied (applied : gset Z) l r s : (forall m, m ∈ l -> version m ∈ applied) ->
  for_each (l ++ r) (fun m => if bool_decide (version m ∈ applied) then ret tt else applyMigration m) s =
  for_each r (fun m => if bool_decide (version m ∈ applied) then ret tt else applyMigration m) s.
Proof.
  intros Hl. induction l as [|m l IH]; [done|]. cbn [app for_each]. unfold bind. rewrite bool_decide_true by (apply Hl; left).
  apply IH. intros x Hx. apply Hl. by right.
Qed.

Lemma apply_rest init (applied : gset Z) rest : forall done_ s,
  migrated init done_ (st_db s) -> NoDup (map version (done_ ++ rest)) -> (forall m, m ∈ rest -> version m ∉ applied) ->
  let '(r, s') := for_each rest (fun m => if bool_decide (version m ∈ applied) then ret tt else applyMigration m) s in
  exists k, migrated init (done_ ++ take k rest) (st_db s') /\ (r = Ok tt -> take k rest = rest).
Proof.
  induction rest as [|m rest IH]; intros done_ s Hm Hnd Hr; [exists 0%nat; by rewrite app_nil_r|].
  cbn [for_each]. unfold bind at 1. rewrite bool_decide_false by (apply Hr; left).
  assert (Hnew : version m ∉ map version done_).
  { rewrite map_app in Hnd. apply NoDup_app in Hnd as (_ & Hd & _). intros Hi. eapply Hd; [exact Hi|]. left. }
  pose proof (applyMigration_spec init done_ m s Hm Hnew) as Ha. destruct (applyMigration m s) as [[[]|e] s1].
  - destruct Ha as [[_ Ha]|Ha]; [done|]. specialize (IH (done_ ++ [m]) s1 Ha). rewrite <- app_assoc in IH. specialize (IH Hnd).
    destruct (for_each rest _ s1) as [r s']. destruct IH as (k & Hk & Hok); [intros x Hx; apply Hr; by right|].
    exists (S k). rewrite <- app_assoc in Hk. split; [exact Hk|]. intros E. cbn. by rewrite Hok.
  - destruct Ha as [[Ha _]|Ha]; [exists 0%nat; by rewrite app_nil_r|]. by exists 1%nat.
Qed.

Lemma create_table_spec init l s : migrated init l (st_db s) -> migrated init l (st_db (snd (autocommit (exec create_table) s))).
Proof.
  intros Hm. unfold autocommit, tx, bind, exec, ret. destruct (fault (st_tick s)); simpl; [|done|];
    (destruct (fault (S (st_tick s))); simpl; [exact Hm|done|exact Hm]).
Qed.

(** An attempt that does not end well still leaves a beginning of the list. *)
Lemma runMigrations_spec init es ms k s : loadMigrations es = Some ms -> NoDup (map version ms) -> migrated init (take k ms) (st_db s) ->
  let '(r, s') := runMigrations es s in
  exists k', migrated init (take k' ms) (st_db s') /\ (k <= k')%nat /\ (r = Ok tt -> take k' ms = ms).
Proof.
  intros Hl Hnd Hm. unfold runMigrations. pose proof (create_table_spec init _ s Hm) as Hm1. unfold bind.
  destruct (autocommit (exec create_table) s) as [[[]|e] s1]; [|exists k; split; [exact Hm1|split; [lia|done]]].
  pose proof (autocommit_query (fun d => dom (recorded d)) s1) as Hq. unfold appliedVersions.
  destruct (autocommit (query _) s1) as [r s2]. destruct Hq as (E2 & _ & Hr). simpl in Hm1. rewrite <- E2 in Hm1.
  destruct Hr as [->|[e ->]]; [|exists k; split; [exact Hm1|split; [lia|done]]]. rewrite Hl.
  assert (Hdom : dom (recorded (st_db s1)) = list_to_set (map version (take k ms))) by (rewrite <- E2; apply Hm1). rewrite Hdom.
  replace (for_each ms) with (for_each (DB := MDB) (take k ms ++ drop k ms)) by (by rewrite take_drop).
  rewrite skip_applied by (intros m Hi; by apply elem_of_list_to_set, in_versions).
  pose proof (apply_rest init (list_to_set (map version (take k ms))) (drop k ms) (take k ms) s2 Hm1) as Ha.
  destruct (for_each (drop k ms) _ s2) as [r s']. destruct Ha as (j & Hj & Hok).
  - by rewrite take_drop.
  - intros m Hi Hin. apply elem_of_list_to_set in Hin. rewrite <- (take_drop k ms), map_app in Hnd. apply NoDup_app in Hnd as (_ & Hd & _).
    by apply (Hd _ Hin), in_versions.
  - exists (k + j)%nat. rewrite <- take_take_drop. split; [done|]. split; [lia|]. intros E. by rewrite Hok, take_drop.
Qed.

(** With no fault, and SQL that runs, an attempt ends well. *)
Lemma run_all_app l r sch : run_all (l ++ r) sch = (sch' ← run_all l sch; run_all r sch').
Proof. revert sch. induction l as [|m l IH]; intros sch; [done|]. cbn. destruct (run_sql (sql m) sch); [apply IH|done]. Qed.

Lemma applyMigration_ok `{!Reliable} init done_ m s : migrated init done_ (st_db s) -> version m ∉ map version done_ ->
  is_Some (run_sql (sql m) (schema (st_db s))) -> fst (applyMigration m s) = Ok tt.
Proof.
  intros [Hs Hd] Hm [sch Hsql]. unfold applyMigration. rewrite tx_reliable. unfold bind, exec_sql, insert_version, now_, ret. simpl. rewrite Hsql. simpl.
  assert (Hn : recorded (st_db s) !! version m = None) by (apply not_elem_of_dom; rewrite Hd; set_solver).
  unfold recorded in *. simpl. by rewrite Hn.
Qed.

Lemma apply_rest_ok `{!Reliable} init (applied : gset Z) rest : forall done_ s,
  migrated init done_ (st_db s) -> NoDup (map version (done_ ++ rest)) -> is_Some (run_all (done_ ++ rest) init) ->
  fst (for_each rest (fun m => if bool_decide (version m ∈ applied) then ret tt else applyMigration m) s) = Ok tt \/
  exists m, m ∈ rest /\ version m ∈ applied.
Proof.
  induction rest as [|m rest IH]; intros done_ s Hm Hnd Hrun; [by left|]. cbn [for_each]. unfold bind at 1.
  destruct (decide (version m ∈ applied)) as [Hi|Hi]; [right; exists m; split; [left|done]|]. rewrite bool_decide_false by done.
  assert (Hnew : version m ∉ map version done_).
  { rewrite map_app in Hnd. apply NoDup_app in Hnd as (_ & Hd & _). intros Hx. eapply Hd; [exact Hx|]. left. }
  pose proof (applyMigration_spec init done_ m s Hm Hnew) as Ha.
  assert (Hok : fst (applyMigration m s) = Ok tt).
  { eapply applyMigration_ok; [done..|]. destruct Hrun as [sch Hrun]. rewrite run_all_app, (proj1 Hm) in Hrun. cbn in Hrun.
    destruct (run_sql (sql m) (schema (st_db s))); [by eexists|done]. }
  destruct (applyMigration m s) as [r s1]. simpl in Hok. subst r. destruct Ha as [[_ Ha]|Ha]; [done|].
  destruct (IH (done_ ++ [m]) s1 Ha) as [?|(x & Hx & Ex)]; [by rewrite <- app_assoc..|by left|]. right. exists x. split; [by right|done].
Qed.

Lemma runMigrations_ok `{!Reliable} init es ms k s : loadMigrations es = Some ms -> NoDup (map version ms) -> migrated init (take k ms) (st_db s) ->
  is_Some (run_all ms init) -> fst (runMigrations es s) = Ok tt.
Proof.
  intros Hl Hnd Hm Hrun. unfold runMigrations, appliedVersions, autocommit. unfold bind at 1. rewrite !tx_reliable. simpl.
  unfold bind at 1. rewrite tx_reliable. simpl. rewrite Hl.
  set (applied := dom (recorded (create_table (st_db s)))).
  assert (Ha : applied = list_to_set (map version (take k ms))) by exact (proj2 Hm). clearbody applied.
  replace (for_each ms) with (for_each (DB := MDB) (take k ms ++ drop k ms)) by (by rewrite take_drop).
  rewrite skip_applied by (intros m Hi; rewrite Ha; by apply elem_of_list_to_set, in_versions).
  match goal with |- fst (for_each _ _ ?s2) = _ => destruct (apply_rest_ok init applied (drop k ms) (take k ms) s2) as [?|(m & Hi & Hin)] end;
    [exact Hm|by rewrite take_drop..|done|].
  rewrite Ha in Hin. apply elem_of_list_to_set in Hin. rewrite <- (take_drop k ms), map_app in Hnd. apply NoDup_app in Hnd as (_ & Hd & _).
  exfalso. by apply (Hd _ Hin), in_versions.
Qed.

End Migrating.

(** [n] starts of the program, each answered or interrupted. *)
Fixpoint attempts `{World} {Schema} (run_sql : bytes -> Schema -> option Schema) (n : nat) (es : list DirEntry) (s : St MDB) : St MDB :=
  match n with O => s | S n => attempts run_sql n es (snd (runMigrations run_sql es s)) end.

Lemma attempts_spec `{World} {Schema} (run_sql : bytes -> Schema -> option Schema) init es ms n : forall k s,
  loadMigrations es = Some ms -> NoDup (map version ms) -> migrated run_sql init (take k ms) (st_db s) ->
  exists k', migrated run_sql init (take k' ms) (st_db (attempts run_sql n es s)) /\ (k <= k')%nat.
Proof.
  induction n as [|n IH]; intros k s Hl Hnd Hm; [by exists k|]. cbn [attempts].
  pose proof (runMigrations_spec run_sql init es ms k s Hl Hnd Hm) as Hs. destruct (runMigrations run_sql es s) as [r s'].
  destruct Hs as (k1 & Hk1 & Hle & _). destruct (IH k1 s' Hl Hnd Hk1) as (k2 & Hk2 & ?). exists k2. split; [done|lia].
Qed.

(** C26: However many starts were interrupted, by whatever faults and lost
    acknowledgements, and wherever the database stood before, what is in it
    is a beginning of the list of migrations, each run once, in order, and
    recorded; no start undoes one. The next start that meets no fault ends
    well and brings the database to what running all of them once gives. *)
Theorem migrations_converge {Schema} (run_sql : bytes -> Schema -> option Schema) (w w' : World) (Hw' : @Reliable w') es ms init sch k d n t t' :
  loadMigrations es = Some ms -> NoDup (map version ms) -> run_all run_sql ms init = Some sch -> migrated run_sql init (take k ms) d ->
  let d1 := st_db (@attempts w Schema run_sql n es (mkSt d t)) in
  (exists k', (k <= k')%nat /\ migrated run_sql init (take k' ms) d1) /\
  exists s2, @runMigrations w' Schema run_sql es (mkSt d1 t') = (Ok tt, s2) /\
    schema (st_db s2) = sch /\ dom (recorded (st_db s2)) = list_to_set (map version ms).
Proof.
  intros Hl Hnd Hrun Hm d1. destruct (@attempts_spec w _ run_sql init es ms n k (mkSt d t) Hl Hnd Hm) as (k' & Hk' & Hle).
  split; [by exists k'|]. fold d1 in Hk'. set (s1 := mkSt d1 t').
  pose proof (@runMigrations_spec w' _ run_sql init es ms k' s1 Hl Hnd Hk') as Hs.
  pose proof (@runMigrations_ok w' _ run_sql Hw' init es ms k' s1 Hl Hnd Hk' (ex_intro _ _ Hrun)) as Hok.
  destruct (runMigrations run_sql es s1) as [r s2]. simpl in Hok. subst r. destruct Hs as (j & [Hj Hd] & _ & Hall). rewrite (Hall eq_refl) in *.
  exists s2. split; [done|]. split; [congruence|done].
Qed.

(** ** The embedded files *)

Definition embedded_names : list string :=
  ["0001_init.sql"; "0002_notifications.sql"; "0003_deliveries.sql"; "0004_token_hash_unique.sql"; "0005_deliveries_per_channel.sql";
   "0006_orphaned_rules.sql"; "0007_delivery_first_attempt.sql"; "0008_event_detail.sql"; "0009_heartbeat_pings.sql";
   "0010_org_ping_key.sql"; "0011_ping_body_bytes.sql"; "0012_job_spec.sql"; "0013_probe_rollback_guard.sql"; "0014_job_streaks.sql";
   "0015_job_streaks_backfill.sql"; "0016_rule_repeat.sql"; "0017_failure_alerts.sql"].
Definition embedded (text : string -> bytes) : list DirEntry := map (fun n => {| de_name := n; de_is_dir := false; de_text := text n |}) embedded_names.
Definition embedded_migrations (text : string -> bytes) : list migration :=
  imap (fun i n => mkMigration (Z.of_nat (S i)) n (text n)) embedded_names.

(** Both dialects embed seventeen files, which load in the order of their
    names, numbered from 1. *)
Lemma embedded_load text : loadMigrations (embedded text) = Some (embedded_migrations text).
Proof. reflexivity. Qed.

Lemma parseVersion_examples : map parseVersion ["0001_init.sql"; "12.sql"; "_x.sql"; "1a_x.sql"]%string = [Some 1; Some 12; None; None].
Proof. reflexivity. Qed.

(** A database that keeps the texts it has run; the first start loses a
    commit's acknowledgement, the second meets a fault. *)
Definition keeps_texts (t : bytes) (l : list bytes) : option (list bytes) := Some (l ++ [t]).
Definition interrupted : World := {| clock _ := 0; fault n := if Nat.eqb n 6 then AckLost else if Nat.eqb n 17 then Fails else NoFault |}.

Lemma migrations_converge_witness :
  (exists k', migrated keeps_texts [] (take k' (embedded_migrations bstr)) (st_db (@attempts interrupted _ keeps_texts 2 (embedded bstr) (mkSt (mkMDB [] None) 0)))) /\
  exists s2, @runMigrations (steady 0) _ keeps_texts (embedded bstr) (mkSt (st_db (@attempts interrupted _ keeps_texts 2 (embedded bstr) (mkSt (mkMDB [] None) 0))) 0) = (Ok tt, s2) /\
    schema (st_db s2) = map bstr embedded_names.
Proof.
  assert (Hnd : NoDup (map version (embedded_migrations bstr))) by (apply (bool_decide_unpack _); vm_compute; exact I).
  destruct (migrations_converge keeps_texts interrupted (steady 0) (steady_reliable 0) (embedded bstr) (embedded_migrations bstr) []
    (map bstr embedded_names) 0 (mkMDB [] None) 2 0 0 (embedded_load bstr) Hnd eq_refl (conj eq_refl eq_refl)) as [(k & _ & Hk) (s2 & E & Hs & _)].
  split; [by exists k|]. exists s2. split; [exact E|exact Hs].
Defined.

Example interrupted_starts :
  map (fun n => List.length (schema (st_db (@attempts interrupted _ keeps_texts n (embedded bstr) (mkSt (mkMDB [] None) 0))))) [0; 1; 2; 3]%nat = [0; 1; 3; 17]%nat.
Proof. vm_compute. reflexivity. Qed.
