(* ===== verification/Drill.v ===== *)
(** * Restore drills ([internal/jobs/drill.go])

    The order of a drill's steps and its verdict ([runOnceDrill]). What the
    steps do is a parameter: how each ends, how long it takes and what it
    writes, what the restore does to the scratch directory, and when the job's
    context ends. The drill leaves a trace of what it did to the system. *)
From S2P Require Import Prelude GoTime Domain Utf8 Tail Executor Failure Redact Capture GoStrings Sql Schema JobSpec Probe.
Open Scope Z_scope.

(** [path/filepath]'s [Base] and [Dir]. *)
Class Paths := { Base : bytes -> bytes; Dir : bytes -> bytes }.

Definition drillStepOutput : nat := Z.to_nat (Z.shiftl 32 10).

(** [drillStep]. *)
Record drillStep := { ds_label : bytes; ds_command : bytes; ds_status : RunStatus; ds_code : Z; ds_took : Duration; ds_output : bytes }.

(** What a step's command does: the context's error once it is over, what
    [cmd.Run] returns, how long it took, and its writes. *)
Record StepRun := { sr_ctx : CtxErr; sr_err : CmdErr; sr_took : Duration; sr_writes : list bytes }.

(** What the drill does to the system, in order. *)
Inductive Action :=
| MakeScratch
| RunStep (label command : bytes) (env : gmap string string) (dir : bytes)
| RemoveScratch.

(** Everything a drill meets. [en_run] says what the [n]-th command run does,
    [en_ctx] what has stopped the job's context when the [i]-th check's turn
    comes, [en_intact] whether the scratch directory is still one after the
    restore. *)
Record DrillEnv := {
  en_mkdir : bytes + bytes; en_run : nat -> StepRun; en_ctx : nat -> CtxErr; en_intact : bool; en_remove : option bytes;
  en_start_ctx : CtxErr }.

Section Drill.
Context `{URLs} `{Paths} `{GoText} (env : gmap string string) (secrets : list bytes) (en : DrillEnv).

(** [runDrillStep]. *)
Definition runDrillStep (n : nat) (label command : bytes) : drillStep :=
  let run := en_run en n in
  let out := fold_left ht_write (sr_writes run) (new_headTail drillStepOutput (secretMargin secrets)) in
  let '(status, code) := shellOutcome (sr_ctx run) (sr_err run) in
  {| ds_label := label; ds_command := command; ds_status := status; ds_code := code; ds_took := sr_took run; ds_output := ht_text out secrets |}.

(** The variables of [runOnceDrill] that its steps change. *)
Record DrillState := { dr_report : probeReport; dr_status : RunStatus; dr_exit : Z; dr_steps : list drillStep; dr_passed : Z; dr_trace : list Action }.

Definition reported (d : DrillState) (r : probeReport) : DrillState :=
  {| dr_report := r; dr_status := dr_status d; dr_exit := dr_exit d; dr_steps := dr_steps d; dr_passed := dr_passed d; dr_trace := dr_trace d |}.
Definition dfail (d : DrillState) (p : bytes) : DrillState := reported d (fail (dr_report d) p).
Definition dadd (d : DrillState) (key : string) (value : bytes) : DrillState := reported d (add (dr_report d) key value).
Definition acted (d : DrillState) (a : Action) : DrillState :=
  {| dr_report := dr_report d; dr_status := dr_status d; dr_exit := dr_exit d; dr_steps := dr_steps d; dr_passed := dr_passed d; dr_trace := dr_trace d ++ [a] |}.

(** [failed]: the first failure decides. *)
Definition failed (d : DrillState) (st : RunStatus) (code : Z) : DrillState :=
  if bool_decide (dr_status d = StatusSucceeded) then
    {| dr_report := dr_report d; dr_status := st; dr_exit := code; dr_steps := dr_steps d; dr_passed := dr_passed d; dr_trace := dr_trace d |}
  else d.

Definition passed (d : DrillState) : DrillState :=
  {| dr_report := dr_report d; dr_status := dr_status d; dr_exit := dr_exit d; dr_steps := dr_steps d; dr_passed := dr_passed d + 1; dr_trace := dr_trace d |}.

(** The environment of the steps. *)
Definition stepEnv (scratch : bytes) : gmap string string :=
  <["TEND_DRILL_ID" := str (Base scratch)]> (<["TEND_SCRATCH" := str scratch]> env).

(** A step, added to [steps]. *)
Definition step (d : DrillState) (label command : bytes) (scratch dir : bytes) : drillStep * DrillState :=
  let c := runDrillStep (List.length (dr_steps d)) label command in
  (c, {| dr_report := dr_report d; dr_status := dr_status d; dr_exit := dr_exit d; dr_steps := dr_steps d ++ [c]; dr_passed := dr_passed d;
         dr_trace := dr_trace d ++ [RunStep label command (stepEnv scratch) dir] |}).

(** [firstLine]. *)
Definition firstLine (command : bytes) : bytes :=
  let '(line, more) := match Split nl (TrimSpace command) with [] => ([], false) | [l] => (l, false) | l :: _ => (l, true) end in
  let '(line, more) := if (80 <? List.length line)%nat then (take 80 line, true) else (line, more) in
  if more : bool then line ++ bstr " ..." else line.

(** The restore, and whether it replaced the scratch directory. *)
Definition restore_end (restore : drillStep) (d : DrillState) : DrillState :=
  let took := durationText (ds_took restore) in
  match ds_status restore with
  | StatusSucceeded => dadd d "restore" (bstr "ok, took " ++ took)
  | StatusTimedOut =>
       failed (dadd (dfail d (bstr "the restore did not finish within the job's timeout (" ++ took ++ bstr ")")) "restore" (bstr "timed out after " ++ took))
         StatusTimedOut 0
  | _ =>
       failed (dadd (dfail d (bstr "the restore failed (exit " ++ Itoa (ds_code restore) ++ bstr ")")) "restore"
         (bstr "failed (exit " ++ Itoa (ds_code restore) ++ bstr ") after " ++ took)) StatusFailed (ds_code restore)
  end.
Definition restore_step (s : Spec) (scratch : bytes) (d : DrillState) : drillStep * DrillState :=
  let '(restore, d) := step d (bstr "restore") (bstr (sp_restore s)) scratch scratch in (restore, restore_end restore d).
Definition replaced_of (restore : drillStep) : bool := bool_decide (ds_status restore = StatusSucceeded) && negb (en_intact en).
Definition replaced_step (restore : drillStep) (scratch : bytes) (d : DrillState) : DrillState :=
  if replaced_of restore then
    failed (dfail d (bstr "the restore removed or replaced the scratch directory " ++ scratch ++ bstr "; the checks were not run")) StatusFailed probeExitError
  else d.

(** One check, the [i]-th counting from 0. *)
Definition check_end (label : string) (command : bytes) (c : drillStep) (d : DrillState) : DrillState :=
  match ds_status c with
  | StatusSucceeded => dadd (passed d) label (bstr "ok")
  | StatusTimedOut =>
      failed (dadd (dfail d (bstr label ++ bstr " did not finish within the job's timeout: " ++ firstLine command)) label (bstr "timed out")) StatusTimedOut 0
  | _ =>
      failed (dadd (dfail d (bstr label ++ bstr " failed (exit " ++ Itoa (ds_code c) ++ bstr "): " ++ firstLine command)) label
        (bstr "failed (exit " ++ Itoa (ds_code c) ++ bstr ")")) StatusFailed (ds_code c)
  end.
Definition check_step (restore : drillStep) (scratch : bytes) (i : nat) (command : string) (d : DrillState) : DrillState :=
  let label := "check " +:+ str (Itoa (Z.of_nat i + 1)) in
  if negb (bool_decide (ds_status restore = StatusSucceeded)) then dadd d label (bstr "not run (the restore did not succeed)")
  else if replaced_of restore then dadd d label (bstr "not run (the scratch directory was replaced)")
  else if negb (bool_decide (en_ctx en i = Running)) then dadd d label (bstr "not run (the job's timeout was reached)")
  else let '(c, d) := step d (bstr label) (bstr command) scratch scratch in check_end label (bstr command) c d.
Fixpoint check_steps (restore : drillStep) (scratch : bytes) (i : nat) (commands : list string) (d : DrillState) : DrillState :=
  match commands with
  | [] => d
  | c :: r => check_steps restore scratch (S i) r (check_step restore scratch i c d)
  end.

(** Whether the restore took longer than [max_duration]. *)
Definition too_long (s : Spec) (restore : drillStep) : bool :=
  let limit := seconds (sp_max_duration_seconds s) in
  bool_decide (ds_status restore = StatusSucceeded) && negb (replaced_of restore) && (0 <? limit) && (limit <? ds_took restore).
Definition limit_step (s : Spec) (restore : drillStep) (d : DrillState) : DrillState :=
  if too_long s restore then
    failed (dfail d (bstr "the restore took " ++ durationText (ds_took restore) ++ bstr ", over max_duration "
      ++ durationText (seconds (sp_max_duration_seconds s)))) StatusFailed probeExitFailed
  else d.

(** The cleanup, beside the scratch directory, and the removal. *)
Definition cleanup_end (c : drillStep) (d : DrillState) : DrillState :=
  match ds_status c with
  | StatusSucceeded => dadd d "cleanup" (bstr "ok")
  | StatusTimedOut =>
      failed (dadd (dfail d (bstr "the cleanup did not finish within " ++ durationText drillCleanupTimeout)) "cleanup" (bstr "timed out")) StatusFailed probeExitError
  | _ =>
      failed (dadd (dfail d (bstr "the cleanup failed (exit " ++ Itoa (ds_code c) ++ bstr ")")) "cleanup" (bstr "failed (exit " ++ Itoa (ds_code c) ++ bstr ")"))
        StatusFailed (ds_code c)
  end.
Definition cleanup_step (s : Spec) (scratch : bytes) (d : DrillState) : DrillState :=
  if blank (sp_cleanup s) then d
  else let '(c, d) := step d (bstr "cleanup") (bstr (sp_cleanup s)) scratch (Dir scratch) in cleanup_end c d.
Definition remove_step (scratch : bytes) (d : DrillState) : DrillState :=
  let d := acted d RemoveScratch in
  match en_remove en with
  | Some err =>
      failed (dadd (dfail d (bstr "the scratch directory could not be removed: " ++ err)) "scratch" (scratch ++ bstr " (NOT removed)")) StatusFailed probeExitError
  | None => dadd d "scratch" (scratch ++ bstr " (removed)")
  end.

(** The steps of a drill in its scratch directory. *)
Definition drill_steps (s : Spec) (scratch : bytes) (d : DrillState) : drillStep * DrillState :=
  let '(restore, d) := restore_step s scratch d in
  (restore, remove_step scratch (cleanup_step s scratch (limit_step s restore
    (check_steps restore scratch 0 (sp_checks s) (replaced_step restore scratch d))))).

(** The output. *)
Definition drill_verdict (s : Spec) (restore : drillStep) (d : DrillState) : bytes :=
  let limit := seconds (sp_max_duration_seconds s) in
  if bool_decide (problems (dr_report d) = []) then
    bstr "ok: restored in " ++ durationText (ds_took restore)
    ++ match sp_checks s with [] => bstr ", no checks" | [_] => bstr ", 1 check passed" | _ => bstr ", " ++ Itoa (dr_passed d) ++ bstr " checks passed" end
    ++ (if 0 <? limit then bstr " (max_duration " ++ durationText limit ++ bstr ")" else []) ++ [nl]
  else fail_lines (problems (dr_report d)).
Definition step_text (st : drillStep) : bytes :=
  [nl] ++ bstr "--- " ++ ds_label st ++ bstr " (exit " ++ Itoa (ds_code st) ++ bstr ", " ++ durationText (ds_took st) ++ bstr ")" ++ [nl]
  ++ bstr "$ " ++ ds_command st ++ [nl]
  ++ (if bool_decide (ds_status st = StatusTimedOut) then bstr "(timed out)" ++ [nl] else [])
  ++ (let out := trim_right_nl (ds_output st) in if is_nil out then [] else out ++ [nl]).
Definition drill_output (s : Spec) (restore : drillStep) (d : DrillState) : bytes :=
  trim_right_nl (drill_verdict s restore d ++ [nl] ++ Join nl (info (dr_report d)) ++ [nl] ++ mjoin (map step_text (dr_steps d))).

(** [runOnceDrill], with its trace. *)
Definition runOnceDrill (j : Job) (attempt : Z) (started ended : Time) : RunResult * list Action :=
  let s := specOf j in
  match ValidateSpec Drill (Some s) with
  | Some e => (probeErrorResult (en_start_ctx en) attempt started ended (spec_error_text e), [])
  | None =>
      match en_mkdir en with
      | inr err => (probeErrorResult (en_start_ctx en) attempt started ended (bstr "make the scratch directory: " ++ err), [MakeScratch])
      | inl scratch =>
          let '(restore, d) := drill_steps s scratch
            {| dr_report := empty_report; dr_status := StatusSucceeded; dr_exit := 0; dr_steps := []; dr_passed := 0; dr_trace := [MakeScratch] |} in
          ({| rs_status := dr_status d; rs_exit_code := dr_exit d; rs_output := drill_output s restore d; rs_truncated := false;
              rs_attempt := attempt; rs_started := started; rs_ended := ended |}, dr_trace d)
      end
  end.

(** ** What a drill does, and its verdict *)

(** The failures of a drill, in order; the first decides. *)
Definition verdict_of (fs : list (RunStatus * Z)) : RunStatus * Z := default (StatusSucceeded, 0) (head fs).

Definition step_failure (st : drillStep) : list (RunStatus * Z) :=
  match ds_status st with StatusSucceeded => [] | StatusTimedOut => [(StatusTimedOut, 0)] | _ => [(StatusFailed, ds_code st)] end.
Definition cleanup_failure (st : drillStep) : list (RunStatus * Z) :=
  match ds_status st with StatusSucceeded => [] | StatusTimedOut => [(StatusFailed, probeExitError)] | _ => [(StatusFailed, ds_code st)] end.

Definition check_label (i : nat) : bytes := bstr ("check " +:+ str (Itoa (Z.of_nat i + 1))).

(** The checks that run, with their positions: none without a restore and its
    directory, and none whose turn comes once the context has ended. *)
Fixpoint checks_run (restored : bool) (i : nat) (commands : list string) : list (nat * string) :=
  match commands with
  | [] => []
  | c :: r => (if restored && bool_decide (en_ctx en i = Running) then [(i, c)] else []) ++ checks_run restored (S i) r
  end.

(** The steps that run them, the first being the [n]-th command of the drill. *)
Fixpoint check_results (n : nat) (ran : list (nat * string)) : list drillStep :=
  match ran with [] => [] | (i, c) :: r => runDrillStep n (check_label i) (bstr c) :: check_results (S n) r end.
Definition check_actions (scratch : bytes) (ran : list (nat * string)) : list Action :=
  map (fun '(i, c) => RunStep (check_label i) (bstr c) (stepEnv scratch) scratch) ran.

Definition cleanup_results (s : Spec) (n : nat) : list drillStep :=
  if blank (sp_cleanup s) then [] else [runDrillStep n (bstr "cleanup") (bstr (sp_cleanup s))].
Definition cleanup_actions (s : Spec) (scratch : bytes) : list Action :=
  if blank (sp_cleanup s) then [] else [RunStep (bstr "cleanup") (bstr (sp_cleanup s)) (stepEnv scratch) (Dir scratch)].

(** What has happened so far. *)
Definition happened (d : DrillState) (fs : list (RunStatus * Z)) (steps : list drillStep) (trace : list Action) : Prop :=
  (dr_status d, dr_exit d) = verdict_of fs /\ Forall (fun f => fst f <> StatusSucceeded) fs /\ dr_steps d = steps /\ dr_trace d = trace.

Lemma happened_failed d fs steps trace st code : st <> StatusSucceeded -> happened d fs steps trace ->
  happened (failed d st code) (fs ++ [(st, code)]) steps trace.
Proof.
  intros Hst (Hv & Hf & Hs & Ht). unfold happened, failed. assert (Hf' : Forall (fun f => fst f <> StatusSucceeded) (fs ++ [(st, code)])).
  { apply Forall_app. split; [done|]. by repeat constructor. }
  destruct fs as [|f fs]; simpl in *.
  - injection Hv as Es _. by rewrite bool_decide_eq_true_2.
  - apply Forall_cons in Hf as [Hf _]. unfold verdict_of in *. simpl in *. rewrite bool_decide_eq_false_2 by (destruct f; simpl in *; congruence). done.
Qed.

Lemma happened_report d fs steps trace r : happened d fs steps trace -> happened (reported d r) fs steps trace.
Proof. done. Qed.

Lemma happened_step d fs steps trace label command scratch dir : happened d fs steps trace ->
  let '(c, d') := step d label command scratch dir in
  c = runDrillStep (List.length steps) label command /\ happened d' fs (steps ++ [c]) (trace ++ [RunStep label command (stepEnv scratch) dir]).
Proof. intros (Hv & Hf & <- & <-). done. Qed.

#[local] Hint Resolve happened_report : tend.

Lemma shellOutcome_status n label command : ds_status (runDrillStep n label command) ∈ [StatusSucceeded; StatusFailed; StatusTimedOut].
Proof.
  unfold runDrillStep, shellOutcome. destruct (bool_decide _); simpl; [right; right; left|]. destruct (sr_err _); simpl; [left|right; left|right; left].
Qed.

(** How a step ends adds its failure, if it has one. *)
Ltac step_end Hc :=
  repeat (apply elem_of_cons in Hc as [Hc|Hc]); [..|by apply elem_of_nil in Hc]; rewrite Hc; cbv beta iota zeta; [by rewrite app_nil_r|by apply happened_failed|by apply happened_failed].

Lemma happened_restore_end n label command d fs steps trace : let c := runDrillStep n label command in
  happened d fs steps trace -> happened (restore_end c d) (fs ++ step_failure c) steps trace.
Proof. intros c Hd. pose proof (shellOutcome_status n label command) as Hc. fold c in Hc. unfold restore_end, step_failure. step_end Hc. Qed.

Lemma happened_check_end l cmd n label command d fs steps trace : let c := runDrillStep n label command in
  happened d fs steps trace -> happened (check_end l cmd c d) (fs ++ step_failure c) steps trace.
Proof. intros c Hd. pose proof (shellOutcome_status n label command) as Hc. fold c in Hc. unfold check_end, step_failure. step_end Hc. Qed.

Lemma happened_cleanup_end n label command d fs steps trace : let c := runDrillStep n label command in
  happened d fs steps trace -> happened (cleanup_end c d) (fs ++ cleanup_failure c) steps trace.
Proof. intros c Hd. pose proof (shellOutcome_status n label command) as Hc. fold c in Hc. unfold cleanup_end, cleanup_failure. step_end Hc. Qed.

Lemma happened_check restore scratch i command d fs steps trace : happened d fs steps trace ->
  let ran := bool_decide (ds_status restore = StatusSucceeded) && en_intact en && bool_decide (en_ctx en i = Running) in
  let c := runDrillStep (List.length steps) (check_label i) (bstr command) in
  happened (check_step restore scratch i command d)
    (fs ++ if ran then step_failure c else []) (steps ++ if ran then [c] else [])
    (trace ++ if ran then [RunStep (check_label i) (bstr command) (stepEnv scratch) scratch] else []).
Proof.
  intros Hd ran c. unfold check_step, replaced_of, ran. destruct (bool_decide (ds_status restore = StatusSucceeded)); cbn [negb andb]; [|by rewrite !app_nil_r].
  destruct (en_intact en); cbn [negb andb]; [|by rewrite !app_nil_r]. destruct (bool_decide (en_ctx en i = Running)); cbn [negb]; [|by rewrite !app_nil_r].
  apply (happened_step d fs steps trace (check_label i) (bstr command) scratch scratch) in Hd. fold (check_label i).
  destruct (step _ _ _ _ _) as [c' d']. destruct Hd as [-> Hd]. by apply happened_check_end.
Qed.

Lemma happened_checks restore scratch i commands d fs steps trace : happened d fs steps trace ->
  let ran := checks_run (bool_decide (ds_status restore = StatusSucceeded) && en_intact en) i commands in
  let cs := check_results (List.length steps) ran in
  happened (check_steps restore scratch i commands d) (fs ++ mjoin (map step_failure cs)) (steps ++ cs) (trace ++ check_actions scratch ran).
Proof.
  revert i d fs steps trace. induction commands as [|c commands IH]; intros i d fs steps trace Hd; cbv zeta; [by rewrite !app_nil_r|].
  cbn [check_steps checks_run]. apply (happened_check restore scratch i c) in Hd. cbv zeta in Hd.
  apply (IH (S i)) in Hd. cbv zeta in Hd.
  set (ran := bool_decide (ds_status restore = StatusSucceeded) && en_intact en && bool_decide (en_ctx en i = Running)) in *. destruct ran.
  - cbn [app check_results map mjoin list_join check_actions]. rewrite length_app, Nat.add_1_r, <- !app_assoc in Hd. exact Hd.
  - rewrite !app_nil_r in Hd. exact Hd.
Qed.

(** All failures of a drill, in the order they can decide it. *)
Definition drill_failures (s : Spec) (restore : drillStep) (checks cleanup : list drillStep) : list (RunStatus * Z) :=
  step_failure restore ++ (if replaced_of restore then [(StatusFailed, probeExitError)] else [])
  ++ mjoin (map step_failure checks) ++ (if too_long s restore then [(StatusFailed, probeExitFailed)] else [])
  ++ mjoin (map cleanup_failure cleanup) ++ (match en_remove en with Some _ => [(StatusFailed, probeExitError)] | None => [] end).

Lemma happened_limit s restore d fs steps trace : happened d fs steps trace ->
  happened (limit_step s restore d) (fs ++ if too_long s restore then [(StatusFailed, probeExitFailed)] else []) steps trace.
Proof. intros Hd. unfold limit_step. destruct (too_long s restore); [by apply happened_failed|by rewrite app_nil_r]. Qed.

Lemma happened_replaced restore scratch d fs steps trace : happened d fs steps trace ->
  happened (replaced_step restore scratch d) (fs ++ if replaced_of restore then [(StatusFailed, probeExitError)] else []) steps trace.
Proof. intros Hd. unfold replaced_step. destruct (replaced_of restore); [by apply happened_failed|by rewrite app_nil_r]. Qed.

Lemma happened_cleanup s scratch d fs steps trace : happened d fs steps trace -> let cs := cleanup_results s (List.length steps) in
  happened (cleanup_step s scratch d) (fs ++ mjoin (map cleanup_failure cs)) (steps ++ cs) (trace ++ cleanup_actions s scratch).
Proof.
  intros Hd. unfold cleanup_step, cleanup_results, cleanup_actions. destruct (blank _); [by rewrite !app_nil_r|].
  apply (happened_step d fs steps trace (bstr "cleanup") (bstr (sp_cleanup s)) scratch (Dir scratch)) in Hd.
  destruct (step _ _ _ _ _) as [c d']. destruct Hd as [-> Hd]. cbv zeta. cbn [map mjoin list_join]. rewrite app_nil_r. by apply happened_cleanup_end.
Qed.

Lemma happened_remove scratch d fs steps trace : happened d fs steps trace ->
  happened (remove_step scratch d) (fs ++ match en_remove en with Some _ => [(StatusFailed, probeExitError)] | None => [] end) steps (trace ++ [RemoveScratch]).
Proof.
  intros (Hv & Hf & Hs & Ht). unfold remove_step. assert (Ha : happened (acted d RemoveScratch) fs steps (trace ++ [RemoveScratch])) by (by rewrite <- Ht).
  destruct (en_remove en); [by apply happened_failed|by rewrite app_nil_r].
Qed.

(** The steps of a drill. *)
Definition the_restore (s : Spec) : drillStep := runDrillStep 0 (bstr "restore") (bstr (sp_restore s)).
Definition the_ran (s : Spec) : list (nat * string) :=
  checks_run (bool_decide (ds_status (the_restore s) = StatusSucceeded) && en_intact en) 0 (sp_checks s).
Definition the_checks (s : Spec) : list drillStep := check_results 1 (the_ran s).
Definition the_cleanup (s : Spec) : list drillStep := cleanup_results s (S (List.length (the_ran s))).

Lemma length_check_results n ran : List.length (check_results n ran) = List.length ran.
Proof. revert n. induction ran as [|[i c] ran IH]; intros n; [done|]. simpl. by rewrite IH. Qed.

Lemma drill_steps_happened s scratch d : happened d [] [] [MakeScratch] ->
  let '(restore, d') := drill_steps s scratch d in
  restore = the_restore s /\
  happened d' (drill_failures s (the_restore s) (the_checks s) (the_cleanup s)) (the_restore s :: the_checks s ++ the_cleanup s)
    (MakeScratch :: RunStep (bstr "restore") (bstr (sp_restore s)) (stepEnv scratch) scratch
     :: check_actions scratch (the_ran s) ++ cleanup_actions s scratch ++ [RemoveScratch]).
Proof.
  intros Hd. unfold drill_steps, restore_step. apply (happened_step d _ _ _ (bstr "restore") (bstr (sp_restore s)) scratch scratch) in Hd.
  destruct (step _ _ _ _ _) as [c d1]. destruct Hd as [-> Hd]. split; [done|]. fold (the_restore s) in *.
  change (runDrillStep (List.length ([] : list drillStep)) (bstr "restore") (bstr (sp_restore s))) with (the_restore s) in *.
  apply (happened_restore_end 0 (bstr "restore") (bstr (sp_restore s))) in Hd. fold (the_restore s) in Hd.
  apply (happened_replaced (the_restore s) scratch) in Hd. apply (happened_checks (the_restore s) scratch 0 (sp_checks s)) in Hd. cbv zeta in Hd.
  fold (the_ran s) in Hd. change (List.length (_ ++ _)) with 1%nat in Hd. fold (the_checks s) in Hd.
  apply (happened_limit s (the_restore s)) in Hd. apply (happened_cleanup s scratch) in Hd. cbv zeta in Hd.
  apply (happened_remove scratch) in Hd.
  assert (El : List.length ((([] ++ [the_restore s]) : list drillStep) ++ the_checks s) = S (List.length (the_ran s)))
    by (unfold the_checks; simpl; by rewrite length_check_results).
  rewrite El in Hd. fold (the_cleanup s) in Hd. unfold drill_failures. cbn [app] in Hd. rewrite <- !app_assoc in Hd. exact Hd.
Qed.

Lemma elem_of_checks_run s cs i0 i c :
  (i, c) ∈ checks_run (bool_decide (ds_status (the_restore s) = StatusSucceeded) && en_intact en) i0 cs
  <-> (i0 <= i)%nat /\ cs !! (i - i0)%nat = Some c /\ ds_status (the_restore s) = StatusSucceeded /\ en_intact en = true /\ en_ctx en i = Running.
Proof.
  revert i0. induction cs as [|x cs IH]; intros i0; cbn [checks_run].
  - split; [by intros ?%elem_of_nil|]. intros (_ & Hx & _). by rewrite lookup_nil in Hx.
  - rewrite elem_of_app, IH. split.
    + intros [Hx|(Hle & Hx)].
      * destruct (bool_decide (ds_status _ = _)) eqn:E1, (en_intact en) eqn:E2, (bool_decide (en_ctx en i0 = Running)) eqn:E3; cbn [andb] in Hx; try (by apply elem_of_nil in Hx).
        apply list_elem_of_singleton in Hx as [= -> ->]. rewrite Nat.sub_diag. bsimpl. split; [lia|done].
      * replace (i - i0)%nat with (S (i - S i0)) by lia. split; [lia|exact Hx].
    + intros (Hle & Hx & R1 & R2 & R3). destruct (Nat.eq_dec i i0) as [->|Hne].
      * left. rewrite Nat.sub_diag in Hx. injection Hx as ->. rewrite R1, R2, R3, !bool_decide_eq_true_2 by done. left.
      * right. replace (i - i0)%nat with (S (i - S i0)) in Hx by lia. split; [lia|done].
Qed.

(** C15: whatever its commands do and whenever the context ends, a drill whose
    settings are valid and whose scratch directory could be made does exactly
    this: it runs the restore there, then, once the restore has succeeded and
    has left the directory in place, each check whose turn comes before the
    context ends, in order; and then, however that went, it runs the cleanup
    outside the directory and removes the directory, last. The run's status
    and exit code are those of the first failure in this order, and it
    succeeds if there is none. *)
Theorem runOnceDrill_spec (j : Job) (attempt : Z) (started ended : Time) (scratch : bytes) :
  ValidateSpec Drill (Some (specOf j)) = None -> en_mkdir en = inl scratch ->
  let s := specOf j in
  let '(res, trace) := runOnceDrill j attempt started ended in
  trace = MakeScratch :: RunStep (bstr "restore") (bstr (sp_restore s)) (stepEnv scratch) scratch
          :: check_actions scratch (the_ran s) ++ cleanup_actions s scratch ++ [RemoveScratch] /\
  (forall i c, (i, c) ∈ the_ran s <-> sp_checks s !! i = Some c /\ ds_status (the_restore s) = StatusSucceeded /\ en_intact en = true /\ en_ctx en i = Running) /\
  (rs_status res, rs_exit_code res) = verdict_of (drill_failures s (the_restore s) (the_checks s) (the_cleanup s)) /\
  (rs_status res = StatusSucceeded <-> drill_failures s (the_restore s) (the_checks s) (the_cleanup s) = []).
Proof.
  intros Hv Hm s. unfold runOnceDrill. rewrite Hv, Hm. fold s.
  pose proof (drill_steps_happened s scratch {| dr_report := empty_report; dr_status := StatusSucceeded; dr_exit := 0; dr_steps := []; dr_passed := 0; dr_trace := [MakeScratch] |})
    as Hd. destruct (drill_steps s scratch _) as [restore d]. destruct Hd as [_ (Hvd & Hf & _ & Ht)]; [by split|]. cbn [rs_status rs_exit_code].
  split; [done|]. split; [|split; [done|]].
  - intros i c. unfold the_ran. rewrite elem_of_checks_run, Nat.sub_0_r. intuition lia.
  - destruct (drill_failures _ _ _ _) as [|f fs]; [by injection Hvd as ->|]. apply Forall_cons in Hf as [Hf _]. unfold verdict_of in Hvd. simpl in Hvd.
    destruct f as [st code]. injection Hvd as -> _. done.
Qed.

(** a drill that meets the end of its context between two steps leaves the
    remaining checks out and still succeeds: with a context that ended after
    the restore, a drill with any number of checks reports success without
    having run one. *)
Theorem runOnceDrill_unchecked (j : Job) (attempt : Z) (started ended : Time) (scratch : bytes) :
  ValidateSpec Drill (Some (specOf j)) = None -> en_mkdir en = inl scratch ->
  let s := specOf j in
  ds_status (the_restore s) = StatusSucceeded -> en_intact en = true -> (forall i, en_ctx en i <> Running) ->
  too_long s (the_restore s) = false -> blank (sp_cleanup s) = true -> en_remove en = None ->
  let '(res, trace) := runOnceDrill j attempt started ended in
  rs_status res = StatusSucceeded /\
  trace = [MakeScratch; RunStep (bstr "restore") (bstr (sp_restore s)) (stepEnv scratch) scratch; RemoveScratch].
Proof.
  intros Hv Hm s Hr Hi Hc Hl Hb He. unfold runOnceDrill. rewrite Hv, Hm. fold s.
  pose proof (drill_steps_happened s scratch {| dr_report := empty_report; dr_status := StatusSucceeded; dr_exit := 0; dr_steps := []; dr_passed := 0; dr_trace := [MakeScratch] |})
    as Hd. destruct (drill_steps s scratch _) as [restore d]. destruct Hd as [_ (Hvd & _ & _ & Ht)]; [by split|]. cbn [rs_status].
  assert (En : the_ran s = []).
  { destruct (the_ran s) as [|[i c] l] eqn:E; [done|]. assert (Hin : (i, c) ∈ the_ran s) by (rewrite E; left).
    unfold the_ran in Hin. apply elem_of_checks_run in Hin as (_ & _ & _ & _ & Hx). by destruct (Hc i). }
  assert (Ef : drill_failures s (the_restore s) (the_checks s) (the_cleanup s) = []).
  { unfold drill_failures, the_checks, the_cleanup, cleanup_results, step_failure, replaced_of. rewrite En, Hr, Hi, Hl, Hb, He.
    rewrite bool_decide_eq_true_2 by done. done. }
  rewrite Ef in Hvd. injection Hvd as -> _. split; [done|]. rewrite Ht, En. unfold cleanup_actions. by rewrite Hb.
Qed.

End Drill.

(** ** Concrete drills *)

#[local] Instance flat_paths : Paths := {| Base p := drop 5 p; Dir _ := bstr "/tmp" |}.
#[local] Instance no_urls : URLs := fun _ => None.
#[local] Instance no_text : GoText := {| time_Parse _ _ := None; time_ParseDuration _ := None; Quote s := s; FormatG _ := [] |}.

Definition drill_job (checks : list string) (cleanup : string) : Job :=
  {| j_id := 1; j_org := 1; j_name := "drill"; j_type := Drill; j_command := ""; j_http_url := ""; j_http_method := ""; j_http_body := ""; j_cron := "";
     j_interval_seconds := 86400; j_run_at := zero_time; j_timeout_seconds := 60; j_max_retries := 0; j_enabled := true; j_env := ∅;
     j_spec := Some {| sp_warn_days := 0; sp_host := ""; sp_port := 0; sp_server_name := ""; sp_starttls := ""; sp_insecure_skip_verify := false; sp_ca_file := "";
       sp_renew_after_fraction := S754_zero false; sp_domain := ""; sp_rdap_url := ""; sp_expires_at := zero_time; sp_expiry_command := "";
       sp_restore := "pg_restore"; sp_checks := checks; sp_cleanup := cleanup; sp_scratch_dir := ""; sp_max_duration_seconds := 0 |};
     j_next_run_at := zero_time; j_created_at := zero_time; j_updated_at := zero_time |}.

(** The second command fails with status 3, the others succeed. *)
Definition second_fails : DrillEnv :=
  {| en_mkdir := inl (bstr "/tmp/tend_drill_1");
     en_run n := {| sr_ctx := Running; sr_err := if (n =? 1)%nat then CmdExit 3 else CmdOk; sr_took := 90 * Second; sr_writes := [bstr "done"; [nl]] |};
     en_ctx _ := Running; en_intact := true; en_remove := None; en_start_ctx := Running |}.

Definition failed_drill := runOnceDrill ∅ [] second_fails (drill_job ["count"; "sum"]%string "dropdb") 1 0 0.

Lemma runOnceDrill_spec_witness : (rs_status (fst failed_drill), rs_exit_code (fst failed_drill)) = (StatusFailed, 3) /\
  List.last (snd failed_drill) MakeScratch = RemoveScratch.
Proof.
  pose proof (runOnceDrill_spec ∅ [] second_fails (drill_job ["count"; "sum"]%string "dropdb") 1 0 0 (bstr "/tmp/tend_drill_1") eq_refl eq_refl) as Hd.
  fold failed_drill in Hd. cbv zeta in Hd. destruct failed_drill as [res trace]. destruct Hd as (Ht & _ & Hv & _). cbn [fst snd]. rewrite Hv, Ht. split; vm_compute; reflexivity.
Defined.

(** The context ends right after the restore. *)
Definition ends_after_restore : DrillEnv :=
  {| en_mkdir := inl (bstr "/tmp/tend_drill_1");
     en_run n := {| sr_ctx := Running; sr_err := CmdOk; sr_took := 90 * Second; sr_writes := [] |};
     en_ctx _ := DeadlineExceeded; en_intact := true; en_remove := None; en_start_ctx := Running |}.

Definition unchecked_drill := runOnceDrill ∅ [] ends_after_restore (drill_job ["count"]%string "") 1 0 0.

Lemma runOnceDrill_unchecked_witness : rs_status (fst unchecked_drill) = StatusSucceeded.
Proof.
  pose proof (runOnceDrill_unchecked ∅ [] ends_after_restore (drill_job ["count"]%string "") 1 0 0 (bstr "/tmp/tend_drill_1") eq_refl eq_refl eq_refl eq_refl) as Hd.
  fold unchecked_drill in Hd. cbv zeta in Hd. destruct unchecked_drill as [res trace]. apply Hd; try reflexivity. intros i Hx. discriminate Hx.
Defined.

(** It even says that its check passed. *)
Example unchecked_output : str (rs_output (fst unchecked_drill)) =
  ("ok: restored in 1m30s, 1 check passed" +:+ str [nl; nl] +:+ "restore:     ok, took 1m30s" +:+ str [nl] +:+
   "check 1:     not run (the job's timeout was reached)" +:+ str [nl] +:+ "scratch:     /tmp/tend_drill_1 (removed)" +:+ str [nl; nl] +:+
   "--- restore (exit 0, 1m30s)" +:+ str [nl] +:+ "$ pg_restore")%string.
Proof. vm_compute. reflexivity. Qed.
