(* ===== verification/Attempt.v ===== *)
(** * One attempt of a job ([runOnce] of [internal/jobs/executor.go])

    The shell and HTTP branches and their dispatch: how a command is run, what
    is made of what it wrote or of what a server answered. What the process
    and the transport do is an argument. Then, together with the runner's
    [storedOutput], what is stored of a shell job's output. *)
From S2P Require Import Prelude GoTime Tail Utf8 Domain Heartbeat Executor Failure Redact Capture GoStrings JobSpec Probe Drill.
From stdpp Require Import sorting.
Open Scope Z_scope.

(** ** Shell jobs *)

(** Go's [<=] of strings: by bytes. *)
Fixpoint bytes_le (a b : bytes) : bool :=
  match a, b with
  | [], _ => true
  | _, [] => false
  | x :: a, y :: b => (byte_val x <? byte_val y) || ((byte_val x =? byte_val y) && bytes_le a b)
  end.
Definition key_le (a b : string * string) : Prop := bytes_le (bstr (fst a)) (bstr (fst b)) = true.
#[export] Instance key_le_dec a b : Decision (key_le a b).
Proof. unfold key_le. apply _. Defined.

(** [toEnvSlice]. *)
Definition toEnvSlice (m : gmap string string) : list string := map (fun kv => fst kv +:+ "=" +:+ snd kv) (merge_sort key_le (map_to_list m)).

(** [shellCommand]: the command line and the environment of the process. *)
Record Cmd := { cmd_args : list string; cmd_env : list string }.
Definition shellCommand (environ : list string) (command : string) (env : gmap string string) : Cmd :=
  {| cmd_args := ["sh"; "-c"; command]; cmd_env := environ ++ toEnvSlice env |}.

(** [runOnceShell]; standard output and standard error are one capture. *)
Definition runOnceShell (secrets : list bytes) (run : StepRun) (attempt : Z) (started ended : Time) : RunResult :=
  let buf := fold_left capped_write (sr_writes run) (new_capped (Z.to_nat maxOutputBytes + secretMargin secrets)) in
  let '(status, code) := shellOutcome (sr_ctx run) (sr_err run) in
  {| rs_status := status; rs_exit_code := code; rs_output := shellOutput buf secrets; rs_truncated := cb_truncated buf;
     rs_attempt := attempt; rs_started := started; rs_ended := ended |}.

(** ** HTTP jobs *)

(** The request [runOnceHTTP] makes. *)
Record HttpRequest := { hq_method : string; hq_url : string; hq_body : option string }.
Definition http_request (j : Job) : HttpRequest :=
  {| hq_method := if String.eqb (j_http_method j) "" then "GET" else j_http_method j; hq_url := j_http_url j;
     hq_body := if String.eqb (j_http_body j) "" then None else Some (j_http_body j) |}.

(** What comes of it: an error before or while it is sent, given as the text
    without its URL ([urlredact.Error]), or a response with the bytes its
    body yields and the error that ends them, if one does. *)
Inductive HttpReply := HttpNoRequest (err : bytes) | HttpNoReply (err : bytes) | HttpResponse (status : Z) (body : bytes) (read_err : option bytes).

(** [io.ReadAll] of a [io.LimitReader]. *)
Definition read_at_most (limit : nat) (body : bytes) (read_err : option bytes) : bytes * option bytes :=
  if (limit <=? List.length body)%nat then (take limit body, None) else (body, read_err).

(** [runOnceHTTP]. *)
Definition runOnceHTTP (ctx : CtxErr) (reply : HttpReply) (attempt : Z) (started ended : Time) : RunResult :=
  let result status code output truncated :=
    {| rs_status := status; rs_exit_code := code; rs_output := output; rs_truncated := truncated; rs_attempt := attempt; rs_started := started; rs_ended := ended |} in
  match reply with
  | HttpNoRequest err => result StatusFailed (-1) err false
  | HttpNoReply err =>
      if bool_decide (ctx = DeadlineExceeded) then result StatusTimedOut 0 [] false else result StatusFailed (-1) err false
  | HttpResponse status body read_err =>
      let '(body, err) := read_at_most (S (Z.to_nat maxOutputBytes)) body read_err in
      let body := match err with Some e => bstr "(error reading body: " ++ e ++ bstr ")" | None => body end in
      let truncated := (Z.to_nat maxOutputBytes <? List.length body)%nat in
      let body := if truncated then trimPartialRune (take (Z.to_nat maxOutputBytes) body) else body in
      result (if (200 <=? status) && (status <? 300) then StatusSucceeded else StatusFailed) status
        (bstr "HTTP " ++ Itoa status ++ [nl] ++ body ++ (if truncated then truncationMarker else [])) truncated
  end.

(** ** The dispatch *)

Section Dispatch.
Context `{URLs} `{Paths} `{GoText}.

(** Everything an attempt meets, by the branch that meets it. *)
Record AttemptEnv := {
  ae_ctx : CtxErr; ae_now : Time; ae_shell : StepRun; ae_reply : HttpReply;
  ae_roots : option bytes; ae_chain : (Certificate * Z) + bytes;
  ae_bootstrap : option rdapBootstrap; ae_fetch : rdapBootstrap + bytes; ae_ask : bytes -> rdapReply;
  ae_command : CmdRun; ae_drill : DrillEnv }.

(** [runOnce]: when the attempt's context ends, and the branch its type takes;
    an unknown type is a shell job's. *)
Definition runOnce_deadline (j : Job) (now : Time) : Time := TimeAdd now (attempt_timeout j).
Definition runOnce (ae : AttemptEnv) (j : Job) (env : gmap string string) (secrets : list bytes) (attempt : Z) (started ended : Time) : RunResult :=
  match j_type j with
  | HTTP => runOnceHTTP (ae_ctx ae) (ae_reply ae) attempt started ended
  | TLS => runOnceTLS (ae_ctx ae) (ae_roots ae) (ae_chain ae) j (ae_now ae) attempt started ended
  | Domain => snd (runOnceDomain (ae_ctx ae) (ae_bootstrap ae) (ae_fetch ae) (ae_ask ae) j (ae_now ae) attempt started ended)
  | Expiry => runOnceExpiry (ae_ctx ae) (ae_command ae) j secrets (ae_now ae) attempt started ended
  | Drill => fst (runOnceDrill env secrets (ae_drill ae) j attempt started ended)
  | Shell | OtherType _ => runOnceShell secrets (ae_shell ae) attempt started ended
  end.

End Dispatch.

Example attempt_examples :
  (let r := runOnceHTTP Running (HttpResponse 204 [] None) 1 0 5 in (rs_status r, rs_exit_code r, str (rs_output r))) = (StatusSucceeded, 204, "HTTP 204" +:+ str [nl]) /\
  (let r := runOnceHTTP Running (HttpResponse 200 (bstr "par") (Some (bstr "unexpected EOF"))) 1 0 5 in (rs_status r, str (rs_output r)))
    = (StatusSucceeded, "HTTP 200" +:+ str [nl] +:+ "(error reading body: unexpected EOF)") /\
  toEnvSlice {["PATH" := "/bin"; "A" := "1"; "B" := ""]} = ["A=1"; "B="; "PATH=/bin"]%string.
Proof. vm_compute. done. Qed.

(** ** A cut leaves whole characters *)

(** A place in a valid text is between characters, or inside one. *)
Lemma place_in_text s : ValidString s = true -> forall n, (n <= List.length s)%nat ->
  boundary s n \/ exists a u t, s = a ++ u ++ t /\ ValidString a = true /\ rune_len u = Some (List.length u) /\ (List.length a < n < List.length a + List.length u)%nat.
Proof.
  induction s as [|c r w E IH|c r E IH] using chunks_ind; intros Hv n Hn.
  - left. unfold boundary. by rewrite drop_nil.
  - rewrite ValidString_cons, E in Hv. pose proof (rune_len_bounds _ _ E) as [Hw Hl]. destruct (Nat.ltb_spec n w) as [Hlt|Hge].
    + destruct n as [|n]; [left; unfold boundary; simpl; eapply ValidString_start; by rewrite ValidString_cons, E|].
      right. exists [], (take w (c :: r)), (drop w (c :: r)). rewrite take_drop, length_take, Nat.min_l by done.
      split; [done|]. split; [done|]. split; [by rewrite (rune_len_take _ _ E)|simpl; lia].
    + destruct (IH Hv (n - w)%nat) as [Hb|(a & u & t & Es & Ha & Hu & Hp)]; [rewrite length_drop; lia| |].
      * left. unfold boundary in *. rewrite drop_drop in Hb. replace (w + (n - w))%nat with n in Hb by lia. done.
      * right. exists (take w (c :: r) ++ a), u, t. rewrite <- app_assoc, <- Es, take_drop. split; [done|].
        assert (Hw' : List.length (take w (c :: r)) = w) by (rewrite length_take; lia). split; [|split; [done|rewrite length_app, Hw'; lia]].
        apply ValidString_app_true; [|done]. assert (Ht : take w (c :: r) <> []) by (intros Et; rewrite Et in Hw'; simpl in Hw'; lia).
        destruct (take w (c :: r)) as [|c' r'] eqn:Et; [done|]. rewrite ValidString_cons, <- Et, (rune_len_take _ _ E), drop_ge; [done|]. rewrite Hw' || rewrite Et; lia.
  - by rewrite ValidString_cons, E in Hv.
Qed.

Lemma conts_take n r k : conts n r = true -> conts n (take k r) = true.
Proof.
  revert r k. induction n as [|n IH]; intros [|c r] [|k] Hc; try done. simpl in *. apply andb_true_iff in Hc as [-> Hc]. by apply IH.
Qed.
Lemma follows_take n lo hi r k : follows n lo hi r = true -> follows n lo hi (take k r) = true.
Proof. destruct n as [|n], r as [|c r], k as [|k]; try done. simpl. rewrite !andb_true_iff. intros [-> Hc]. split; [done|by apply conts_take]. Qed.

(** The bytes of a character but for its last ones are no full rune. *)
Lemma FullRune_take c r m : rune_len (c :: r) = Some (S (List.length r)) -> (m < List.length r)%nat -> FullRune (c :: take m r) = false.
Proof.
  unfold rune_len, FullRune. destruct (first_byte c) as [[[w lo] hi]|]; [|done]. destruct (_ && _) eqn:E; [|done]. intros [= Hw] Hm.
  apply andb_true_iff in E as [_ Hf]. rewrite (follows_take _ _ _ _ m Hf). simpl. rewrite orb_false_r. apply Nat.leb_gt. rewrite length_take. lia.
Qed.

(** Bytes inside a character, then its first one: the loop stops there. *)
Lemma trim_from_unfinished a c q : RuneStart c = true -> Forall (fun x => RuneStart x = false) q -> FullRune (c :: q) = false -> (List.length q <= 2)%nat ->
  trimPartialRune (a ++ c :: q) = a.
Proof.
  intros Hc Hq Hf Hl. assert (Ht : take (List.length a) (a ++ c :: q) = a) by apply take_app_length.
  assert (Hd : forall k, drop (List.length a + k) (a ++ c :: q) = drop k (c :: q)) by (intros k; apply drop_app_add).
  unfold trimPartialRune. cbn [trim_from]. rewrite length_app. cbn [List.length].
  destruct q as [|x [|y [|z q]]]; cbn [List.length] in *; [| | |lia].
  - replace (List.length a + 1 - 1)%nat with (List.length a + 0)%nat by lia. rewrite Hd. cbn [drop]. rewrite Hc, Hf, Nat.add_0_r, Ht.
    by rewrite (proj2 (Nat.leb_le _ _)) by lia.
  - apply Forall_cons in Hq as [Hx _].
    replace (List.length a + 2 - 1)%nat with (List.length a + 1)%nat by lia. replace (List.length a + 2 - 2)%nat with (List.length a + 0)%nat by lia.
    rewrite !Hd. cbn [drop]. rewrite Hx, Hc, Hf, Nat.add_0_r, Ht. by rewrite !(proj2 (Nat.leb_le _ _)) by lia.
  - apply Forall_cons in Hq as [Hx [Hy _]%Forall_cons].
    replace (List.length a + 3 - 1)%nat with (List.length a + 2)%nat by lia. replace (List.length a + 3 - 2)%nat with (List.length a + 1)%nat by lia.
    replace (List.length a + 3 - 3)%nat with (List.length a + 0)%nat by lia.
    rewrite !Hd. cbn [drop]. rewrite Hx, Hy, Hc, Hf, Nat.add_0_r, Ht. by rewrite !(proj2 (Nat.leb_le _ _)) by lia.
Qed.

(** Cutting a valid text anywhere and trimming leaves a valid text. *)
Lemma trim_take_valid s n : ValidString s = true -> (n <= List.length s)%nat -> ValidString (trimPartialRune (take n s)) = true.
Proof.
  intros Hv Hn. destruct (place_in_text s Hv n Hn) as [Hb|(a & u & t & -> & Ha & Hu & Hp)].
  - destruct (trimPartialRune_spec (take n s)) as (j & E & Hj & Hcut). rewrite E. rewrite length_take, Nat.min_l in Hj, Hcut by done.
    rewrite take_take, Nat.min_l by lia. apply (ValidString_split s j Hv); [|lia]. destruct Hcut as [->|(c & r & Hd & Hc & _)]; [done|].
    unfold boundary. rewrite <- (take_drop n s), drop_app_le by (rewrite length_take; lia). rewrite Hd. exact Hc.
  - rewrite app_assoc, take_app_le by (rewrite length_app; lia). rewrite take_app, take_ge by lia.
    destruct u as [|c r]; [done|]. pose proof (rune_len_bounds _ _ Hu) as [H4 _]. simpl in H4, Hp.
    destruct (n - List.length a)%nat as [|m] eqn:Em; [lia|]. cbn [take]. rewrite trim_from_unfinished; [done|by eapply rune_len_start| |apply FullRune_take; [done|lia]|rewrite length_take; lia].
    apply Forall_forall. intros x Hx. apply list_elem_of_lookup in Hx as [i Hi]. pose proof (lookup_lt_Some _ _ _ Hi) as Hlt. rewrite length_take in Hlt.
    rewrite lookup_take_lt in Hi by lia. eapply (rune_conts c r _ Hu i); [simpl; lia|done].
Qed.

(** What [headOf] keeps of a valid text is valid. *)
Lemma headOf_valid s n secrets : ValidString s = true -> Forall (fun v => ValidString v = true) secrets ->
  let keep := (n + secretMargin secrets)%nat in ValidString (fst (headOf (take keep s) n secrets (keep <? List.length s)%nat)) = true.
Proof.
  intros Hv Hs keep. unfold headOf. assert (Hlen : List.length (take keep s) = Nat.min keep (List.length s)) by apply length_take.
  destruct (Nat.leb_spec (List.length (take keep s)) n) as [Hle|Hgt].
  - destruct (Nat.ltb_spec keep (List.length s)); cbn [fst]; [apply trim_take_valid; [done|lia]|by rewrite take_ge by lia].
  - destruct (head_end_spec (take keep s) n secrets) as (H1 & _ & H3).
    assert (Hn : take n (take keep s) = take n s) by (rewrite take_take; f_equal; lia).
    destruct (Nat.eqb_spec (head_end (take keep s) n secrets) n) as [->|Hne]; cbn [fst]; [rewrite Hn; apply trim_take_valid; [done|lia]|].
    destruct H3 as [E|(v & k & Hv' & _ & Ho & ->)]; [done|]. rewrite Forall_elem in Hs. pose proof (Hs v Hv') as Hvv.
    apply occurs_at_take in Ho as [Ho Hk]. rewrite take_take, Nat.min_l by lia.
    apply ValidString_split; [done|by apply (occurs_at_boundary s v k)|]. by apply occurs_at_bound in Ho as [? _].
Qed.

(** ** What is stored of a shell job *)

Lemma trim_suffix_app a m : trim_suffix (a ++ m) m = a.
Proof.
  unfold trim_suffix, lastn. rewrite length_app. replace (List.length a + List.length m - List.length m)%nat with (List.length a) by lia.
  rewrite drop_app_length, take_app_length. by rewrite bool_decide_true by done.
Qed.

Lemma withoutNULs_clean s : nul ∉ s -> withoutNULs s = s.
Proof.
  intros Hn. unfold withoutNULs. induction s as [|c s IH]; [done|]. apply not_elem_of_cons in Hn as [Hc Hn]. simpl.
  destruct (Ascii.eqb_spec c nul) as [->|]; [done|]. simpl. by rewrite IH.
Qed.

Lemma cleanOutput_id s : clean s -> cleanOutput s = s.
Proof. intros [Hv Hn]. unfold cleanOutput. by rewrite Hv, (proj2 (nul_free s) Hn). Qed.

Lemma mask_from_none p s prev : mask_from (fun _ => false) prev p s = s.
Proof. revert p prev. induction s as [|c s IH]; intros p prev; [done|]. simpl. by rewrite IH. Qed.

(** A secret the runner matches as it is. *)
Definition plain_secret (v : bytes) : Prop := clean v /\ says_something v = true.

Lemma plain_secrets_as_they_are vs : Forall plain_secret vs -> bytewise vs = [] /\ cleaned vs = vs.
Proof.
  induction 1 as [|v vs [Hc Hs] _ [IH1 IH2]]; [done|]. unfold bytewise, cleaned, dropNULs in *. simpl.
  rewrite withoutNULs_clean by apply Hc. rewrite cleanOutput_id by done. rewrite bool_decide_true, Hs by done. simpl. by rewrite IH1, IH2.
Qed.

Lemma storedOutput_plain head secrets (truncated : bool) : clean head -> Forall plain_secret secrets ->
  storedOutput (if truncated then head ++ truncationMarker else head) secrets truncated = capOutput (redact head secrets) truncated.
Proof.
  intros Hh Hs. destruct (plain_secrets_as_they_are secrets Hs) as [Hb Hc]. unfold storedOutput. rewrite Hb, Hc.
  replace (if truncated then trim_suffix (if truncated then head ++ truncationMarker else head) truncationMarker else if truncated then head ++ truncationMarker else head)
    with head by (destruct truncated; [by rewrite trim_suffix_app|done]).
  unfold dropNULs. rewrite withoutNULs_clean by apply Hh. rewrite (redact_spec head []). unfold redact_mask.
  replace (mask_from (covered head []) false 0 head) with head by (symmetry; apply (mask_from_none 0 head false)). by rewrite cleanOutput_id.
Qed.

(** C20: What is stored of a shell job's output, from the process's writes to
    the database, where the output and the secrets are text (valid UTF-8
    without NUL bytes, a secret with a character other than U+FFFD): the
    output's beginning, as it was printed and in however
    many pieces, with every byte masked that any occurrence of a secret in
    the whole output covers, be it cut, and then held to the limit. Nothing
    is left out of an output that fits; of a longer one at most three bytes
    of the limit, where a character is unfinished. *)
Theorem shell_job_stored secrets run attempt started ended :
  let out := mjoin (sr_writes run) in
  let r := runOnceShell secrets run attempt started ended in
  clean out -> Forall plain_secret secrets ->
  exists j, (j <= List.length out)%nat /\ (rs_truncated r = false -> j = List.length out) /\ (Nat.min (Z.to_nat maxOutputBytes) (List.length out) <= j + 3)%nat /\
    storedOutput (rs_output r) secrets (rs_truncated r) = capOutput (mask_from (covered out secrets) false 0 (take j out)) (rs_truncated r).
Proof.
  intros out r [Hv Hn] Hs. set (n := Z.to_nat maxOutputBytes). pose proof (capped_spec (n + secretMargin secrets) (sr_writes run)) as Hcap. cbv zeta in Hcap.
  fold out in Hcap. rewrite withoutNULs_clean in Hcap by done. destruct Hcap as [Hb Ht].
  assert (Hvs : Forall (fun v => ValidString v = true) secrets) by (eapply Forall_impl; [exact Hs|]; by intros v [[? _] _]).
  assert (Hr : rs_truncated r = (n + secretMargin secrets <? List.length out)%nat /\
               rs_output r = shellOutput (fold_left capped_write (sr_writes run) (new_capped (n + secretMargin secrets))) secrets).
  { unfold r, runOnceShell. fold n. destruct (shellOutcome (sr_ctx run) (sr_err run)). by rewrite <- Ht. }
  destruct Hr as [-> ->]. unfold shellOutput. rewrite Hb, Ht. fold n.
  destruct (Nat.ltb_spec (n + secretMargin secrets) (List.length out)) as [Hlt|Hge].
  - destruct (headOf_hides out n secrets Hvs) as (j & E & Hh & Hj & Hm). rewrite (proj2 (Nat.ltb_lt _ _) Hlt) in E.
    pose proof (headOf_valid out n secrets Hv Hvs) as Hhv. cbv zeta in Hhv. rewrite (proj2 (Nat.ltb_lt _ _) Hlt), E in Hhv.
    exists j. split; [done|]. split; [done|]. split; [done|]. rewrite E. cbn [negb].
    rewrite (storedOutput_plain (take j out) secrets true); [by rewrite hides_redact| |done].
    split; [done|]. intros Hin. apply Hn. rewrite <- (take_drop j out). apply elem_of_app. by left.
  - exists (List.length out). rewrite !take_ge by lia. split; [done|]. split; [done|]. split; [lia|]. cbn [negb].
    rewrite (storedOutput_plain out secrets false); [|done..]. by rewrite redact_spec.
Qed.

(** ** HTTP attempts *)

(** An HTTP attempt succeeds exactly when a response with a 2xx status
    came, whatever its body did; it times out exactly when no response came
    before the deadline; its exit code is the status of the response. What it
    keeps of a body is a beginning of it, all of it up to the limit, and of a
    valid body a valid beginning. *)
Theorem runOnceHTTP_spec ctx reply attempt started ended :
  let r := runOnceHTTP ctx reply attempt started ended in
  (rs_status r = StatusSucceeded <-> exists status body err, reply = HttpResponse status body err /\ 200 <= status < 300) /\
  (rs_status r = StatusTimedOut <-> ctx = DeadlineExceeded /\ exists err, reply = HttpNoReply err) /\
  forall status body, reply = HttpResponse status body None ->
    rs_exit_code r = status /\ rs_truncated r = (Z.to_nat maxOutputBytes <? List.length body)%nat /\
    exists k, rs_output r = bstr "HTTP " ++ Itoa status ++ [nl] ++ take k body ++ (if rs_truncated r then truncationMarker else []) /\
      (k <= Z.to_nat maxOutputBytes \/ k = List.length body)%nat /\ (rs_truncated r = false -> take k body = body) /\
      (Nat.min (Z.to_nat maxOutputBytes) (List.length body) <= k + 3)%nat /\ (ValidString body = true -> ValidString (take k body) = true).
Proof.
  intros r. split; [|split].
  - subst r. destruct reply as [err|err|status body err]; simpl.
    + split; [done|by intros (? & ? & ? & [=] & _)].
    + split; [by case_bool_decide|by intros (? & ? & ? & [=] & _)].
    + destruct (read_at_most _ body err) as [b e]. simpl. split.
      * destruct (Z.leb_spec 200 status), (Z.ltb_spec status 300); try done. intros _. by exists status, body, err.
      * intros (? & ? & ? & [= <- <- <-] & Hr). by rewrite (proj2 (Z.leb_le _ _)), (proj2 (Z.ltb_lt _ _)) by lia.
  - subst r. destruct reply as [err|err|status body err]; simpl.
    + split; [done|by intros (_ & ? & [=])].
    + case_bool_decide; split; try done; [by eauto|by intros [? _]].
    + destruct (read_at_most _ body err) as [b e]. simpl. split; [by destruct (_ && _)|by intros (_ & ? & [=])].
  - intros status body ->. subst r. unfold runOnceHTTP, read_at_most. set (n := Z.to_nat maxOutputBytes).
    destruct (Nat.leb_spec (S n) (List.length body)) as [Hl|Hl]; cbn [rs_exit_code rs_truncated rs_output].
    + rewrite length_take, Nat.min_l by lia. rewrite !(proj2 (Nat.ltb_lt _ _)) by lia. split; [done|]. split; [done|].
      destruct (trimPartialRune_spec (take n (take (S n) body))) as (k & E & Hk & _). rewrite take_take, Nat.min_l in * by lia.
      rewrite length_take, Nat.min_l in Hk by lia. pose proof (trim_take_valid body n) as Hv. rewrite E in *.
      rewrite take_take, Nat.min_l in * by lia. exists k. split; [done|]. split; [left; lia|]. split; [done|]. split; [lia|]. intros Hb. by apply Hv; [|lia].
    + rewrite (proj2 (Nat.ltb_ge _ _)) by lia. split; [done|]. split; [done|]. exists (List.length body). rewrite take_ge by lia.
      split; [done|]. split; [by right|]. split; [done|]. split; [lia|done].
Qed.

(** ** Witness *)

Definition chatty : StepRun :=
  {| sr_ctx := Running; sr_err := CmdExit 1; sr_took := Second; sr_writes := [bstr "token=hun"; bstr "ter2 "; bstr "refused"] |}.

Lemma shell_job_stored_witness :
  storedOutput (rs_output (runOnceShell [bstr "hunter2"] chatty 1 0 Second)) [bstr "hunter2"] (rs_truncated (runOnceShell [bstr "hunter2"] chatty 1 0 Second))
  = bstr "token=*** refused".
Proof.
  assert (Hc : clean (mjoin (sr_writes chatty))) by (split; [by vm_compute|by apply nul_free; vm_compute]).
  assert (Hs : Forall plain_secret [bstr "hunter2"]).
  { constructor; [|constructor]. split; [split; [by vm_compute|by apply nul_free; vm_compute]|by vm_compute]. }
  destruct (shell_job_stored [bstr "hunter2"] chatty 1 0 Second Hc Hs) as (j & _ & Hj & _ & E).
  assert (Ht : rs_truncated (runOnceShell [bstr "hunter2"] chatty 1 0 Second) = false) by reflexivity.
  rewrite Ht in *. refine (eq_trans E _). rewrite (Hj eq_refl). reflexivity.
Defined.
