(* ===== verification/Chat.v ===== *)
(** * What an alert says ([internal/notify/message.go] and [chat.go])

    The subject and body of each event's alert, the marsad envelope of the
    webhook, and the fitting of the output an alert shows to what a channel
    keeps. The JSON text of a payload and the messages of the kit library
    (what Discord keeps, an envelope's validation) are parameters. *)
From S2P Require Import Prelude GoTime Tail Utf8 Domain Heartbeat GoStrings Probe.
Open Scope Z_scope.

(** ** Reading an event *)

(** The fields of a run event's payload. *)
Record RunFields := { rf_job_name : string; rf_status : bytes; rf_exit_code : Z }.

(** [encoding/json]: the fields found in a text, what could be read of them if
    it is no JSON; the text of a payload, and of an object with one member. *)
Class PayloadJSON := { text_fields : string -> RunFields; payload_json : Payload -> bytes; json_member : string -> bytes -> bytes }.

Definition status_text (s : RunStatus) : bytes :=
  bstr match s with
  | StatusPending => "pending" | StatusRunning => "running" | StatusSucceeded => "succeeded" | StatusFailed => "failed" | StatusTimedOut => "timed_out"
  end.

Definition reason_text (r : MissReason) : bytes := bstr match r with ReasonMissed => "missed" | ReasonFailed => "failed" | ReasonOverran => "overran" end.

(** [jobs.FailureDetail] as the part of it an alert uses, [runFailure], and
    [runStreak]; of a miss's detail only the output has a name they know. *)
Definition runFailure_of (d : Detail) : FailureDetail :=
  match d with
  | DtFailure f => f
  | DtStreak s => {| fd_verdict := []; fd_output := []; fd_truncated := false; fd_timeout_seconds := 0; fd_http_status := 0; fd_streak := s |}
  | DtMiss m => {| fd_verdict := []; fd_output := md_output m; fd_truncated := false; fd_timeout_seconds := 0; fd_http_status := 0; fd_streak := no_streak |}
  | DtNone | DtText _ | DtHeartbeat _ => empty_failure
  end.
Definition runStreak_of (d : Detail) : Streak := fd_streak (runFailure_of d).

(** ** Durations and moments *)

(** [span]: the largest unit and the one below it. *)
Definition span_units : list (Duration * string) := [(24 * Hour, "d"); (Hour, "h"); (Minute, "m"); (Second, "s")]%string.
Fixpoint span_from (units : list (Duration * string)) (d : Duration) : bytes :=
  match units with
  | [] => bstr "0s"
  | (size, name) :: r =>
      if d <? size then span_from r d
      else Itoa (d / size) ++ bstr name ++
        match r with
        | [] => []
        | (size', name') :: _ => let n := d mod size / size' in if 0 <? n then bstr " " ++ Itoa n ++ bstr name' else []
        end
  end.
Definition span (d : Duration) : bytes := span_from span_units d.

(** [chatTime]: to the minute, in UTC. *)
Definition chatTime (t : Time) : bytes :=
  let '(y, m, d) := civil (t / day) in
  let s := t mod day / Second in
  padded 4 y ++ bstr "-" ++ padded 2 m ++ bstr "-" ++ padded 2 d ++ bstr " " ++ padded 2 (s / 3600) ++ bstr ":" ++ padded 2 (s / 60 mod 60) ++ bstr " UTC".

(** [streakSpan]. *)
Definition streakSpan (s : Streak) (t : Time) : bytes :=
  if IsZero (FailingSince s) || negb (After t (FailingSince s)) then [] else bstr " (" ++ span (TimeSub t (FailingSince s)) ++ bstr ")".

Example span_examples : map (fun d => str (span d)) [25 * Hour; 5 * Minute; 90 * Second; 59 * Millisecond; 48 * Hour + 59 * Minute]
  = ["1d 1h"; "5m"; "1m 30s"; "0s"; "2d"]%string.
Proof. vm_compute. reflexivity. Qed.
Example chatTime_example : str (chatTime (63935136000 * Second + 13 * Hour + 5 * Minute)) = "2027-01-10 13:05 UTC"%string.
Proof. vm_compute. reflexivity. Qed.

(** ** [render] *)

Section Rendering.
Context `{JSONText} `{PayloadJSON}.

(** What [json.Unmarshal] finds of a run in the payload, and the payload as text. *)
Definition payload_fields (ev : Event) : RunFields :=
  match ev_payload ev with
  | PlText s => text_fields s
  | PlRun _ _ name st code => {| rf_job_name := name; rf_status := status_text st; rf_exit_code := code |}
  | PlJob _ name => {| rf_job_name := name; rf_status := []; rf_exit_code := 0 |}
  end.
Definition payload_text (ev : Event) : bytes := match ev_payload ev with PlText s => bstr s | p => payload_json p end.

(** A subject and the name it is about, if there is one. *)
Definition about (what : string) (name : string) : bytes := bstr what ++ (if String.eqb name "" then [] else bstr ": " ++ bstr name).
Definition or_else (s : bytes) (t : string) : bytes := match s with [] => bstr t | _ => s end.

(** [renderMissed]. *)
Definition renderMissed (ev : Event) : bytes * bytes :=
  let name := payload_text ev in
  let plain := (bstr "Heartbeat missed: " ++ name, name) in
  match ParseMissDetail (ev_detail ev) with
  | None => plain
  | Some d =>
      match md_reason d with
      | ReasonFailed =>
          let '(subject, body) := (bstr "Heartbeat failed: " ++ name, name ++ bstr " reported a failure") in
          let '(subject, body) := match md_exit_status d with
            | Some n => (subject ++ bstr " (exit " ++ Itoa n ++ bstr ")", body ++ bstr " (exit status " ++ Itoa n ++ bstr ")")
            | None => (subject, body) end in
          let tail := OutputTail (md_output d) in
          (subject, body ++ match tail with [] => [] | _ => nl :: nl :: bstr "Last output:" ++ nl :: tail end)
      | ReasonOverran =>
          (bstr "Heartbeat missed: " ++ name ++ bstr " (run did not finish)",
           name ++ bstr " started a run at " ++ dateText (md_started_at d) ++ bstr " that did not finish within " ++ DurationString (secs (md_grace_seconds d)))
      | ReasonMissed => plain
      end
  end.

(** [render], and [Render]. *)
Definition render (ev : Event) : bytes * bytes :=
  let p := payload_fields ev in
  let payload := payload_text ev in
  let run status := bstr "status=" ++ or_else (rf_status p) status ++ bstr " exit_code=" ++ Itoa (rf_exit_code p) in
  let t := ev_type ev in
  if String.eqb t EventRunFailed then (about "Job failed" (rf_job_name p), run "failed"%string)
  else if String.eqb t EventRunRecovered then (about "Job recovered" (rf_job_name p), run "succeeded"%string ++ bstr "; the previous run had not succeeded")
  else if String.eqb t EventMissed then renderMissed ev
  else if String.eqb t EventRecovered then (bstr "Heartbeat recovered: " ++ payload, payload)
  else if String.eqb t EventJobRemoved then (about "Job removed" (rf_job_name p), bstr "the job was deleted; it will not run or alert again")
  else if String.eqb t EventRemoved then (bstr "Heartbeat removed: " ++ payload, bstr "the heartbeat was deleted; it is no longer monitored")
  else if String.eqb t EventNotificationFailed then
    let '(subject, what) := match payload with
      | [] => (bstr "Alert delivery failed", bstr "a notification")
      | _ => (bstr "Alert delivery failed" ++ bstr ": " ++ payload, bstr "a " ++ payload ++ bstr " notification") end in
    (subject, what ++ bstr " could not be delivered and was given up after retrying; that alert was not received")
  else (bstr t, payload).

End Rendering.

(** ** The output an alert shows *)

(** [joinParts]: the parts that are not empty, with a blank line between them. *)
Definition blank_line : bytes := [nl; nl].
Definition joinParts (parts : list bytes) : bytes := JoinWith blank_line (List.filter (fun p => negb (bool_decide (p = []))) parts).

(** [alertOutput]. *)
Record alertOutput := { ao_verdict : bytes; ao_tail : bytes; ao_truncated : bool }.
Definition no_output : alertOutput := {| ao_verdict := []; ao_tail := []; ao_truncated := false |}.

Definition newlines (s : bytes) : Z := Z.of_nat (List.length (List.filter (fun c => Ascii.eqb c nl) s)).
Definition tail_label (o : alertOutput) : bytes := bstr (if ao_truncated o then "Last output before the 1 MiB cut:" else "Last output:").
(** The lines that are left for the tail after the verdict. *)
Definition lines_left (verdict : bytes) (lines : Z) : Z := if bool_decide (verdict = []) then lines else lines - (newlines verdict + 1).

(** [alertOutput.text]. *)
Definition output_text (o : alertOutput) (lines : Z) : bytes :=
  let verdict := HeadLines (ao_verdict o) lines in
  let tail := TailLines (ao_tail o) (lines_left verdict lines) in
  JoinWith blank_line ((if bool_decide (verdict = []) then [] else [verdict]) ++ (if bool_decide (tail = []) then [] else [tail_label o ++ nl :: tail])).

Definition ellipsis : bytes := ["226"; "128"; "166"]%char.

Section Fitting.
(** What a channel counts. *)
Variable length : bytes -> Z.

(** [length(string(r))] of a character, or of the U+FFFD a stray byte is read as. *)
Definition rune_cost (r : bytes * bool) : Z := length (if snd r then fst r else FFFD).

(** [cutStart]: the characters are taken from the end, the way
    [utf8.DecodeLastRuneInString] gives them. *)
Fixpoint take_back (rs : list (bytes * bool)) (used room : Z) : list (bytes * bool) :=
  match rs with
  | [] => []
  | r :: rest => let used := used + rune_cost r in if room <? used then [] else r :: take_back rest used room
  end.
Definition cutStart (s : bytes) (room : Z) : bytes := mjoin (map fst (rev (take_back (rev (chunks s)) 0 room))).

(** [cutEnd]. *)
Fixpoint cut_runes (rs : list (bytes * bool)) (used room : Z) : bytes :=
  match rs with
  | [] => []
  | r :: rest => let used := used + rune_cost r in if room <? used then ellipsis else fst r ++ cut_runes rest used room
  end.
Definition cutEnd (s : bytes) (budget : Z) : bytes := cut_runes (chunks s) 0 (budget - length ellipsis).

(** What the fitted output opens with before the cut tail. *)
Definition fit_head (o : alertOutput) (verdict : bytes) : bytes :=
  let head := tail_label o ++ nl :: ellipsis in if bool_decide (verdict = []) then head else verdict ++ blank_line ++ head.

(** [alertOutput.fit]. *)
Definition fit (o : alertOutput) (lines budget : Z) : bytes :=
  let full := output_text o lines in
  if length full <=? budget then full
  else
    let verdict := HeadLines (ao_verdict o) lines in
    if negb (bool_decide (verdict = [])) && (budget <=? length verdict) then cutEnd verdict budget
    else
      let head := fit_head o verdict in
      let room := budget - length head in
      let tail := TailLines (ao_tail o) (lines_left verdict lines) in
      if (room <=? 0) || bool_decide (tail = []) then verdict else head ++ cutStart tail room.

End Fitting.

(** [utf8.RuneCountInString]. *)
Definition RuneCount (s : bytes) : Z := Z.of_nat (List.length (chunks s)).

Definition sample_output : alertOutput := {| ao_verdict := bstr "FAIL: cert"; ao_tail := bstr "one" ++ nl :: bstr "two" ++ nl :: bstr "three"; ao_truncated := false |}.
Example sample_text : str (output_text sample_output 3) = str (bstr "FAIL: cert" ++ blank_line ++ bstr "Last output:" ++ nl :: bstr "two" ++ nl :: bstr "three").
Proof. vm_compute. reflexivity. Qed.
Example sample_fit : fit RuneCount sample_output 3 30 = bstr "FAIL: cert" ++ blank_line ++ bstr "Last output:" ++ nl :: ellipsis ++ bstr "hree".
Proof. vm_compute. reflexivity. Qed.

(** ** The chat text *)

Section ChatText.
Context `{JSONText} `{PayloadJSON}.

(** [ChatOptions]. *)
Record ChatOptions := { co_base_url : bytes; co_output_lines : Z }.

(** [link] and [runPage]. *)
Definition link (base path : bytes) : bytes := if bool_decide (base = []) || bool_decide (path = []) then [] else base ++ path.
Definition runPage (ev : Event) : bytes := if EventRunID ev <=? 0 then [] else bstr "/runs/" ++ Itoa (EventRunID ev).

(** How long a streak has lasted: its start, if it is known, and its span. *)
Definition since_text (s : Streak) (ev : Event) : bytes :=
  if IsZero (FailingSince s) then [] else bstr ", since " ++ chatTime (FailingSince s) ++ streakSpan s (ev_created_at ev).

(** [chatRunFailed]. *)
Definition chatRunFailed (ev : Event) : bytes * bytes * alertOutput :=
  let p := payload_fields ev in
  let d := runFailure_of (ev_detail ev) in
  let timed_out := bool_decide (rf_status p = bstr "timed_out") in
  let reminder := 1 <? FailedRuns (fd_streak d) in
  let what := if reminder then "Job still failing" else if timed_out then "Job timed out" else "Job failed" in
  let suffix :=
    if timed_out then (if reminder then bstr " (timed out)" else [])
    else if 0 <? fd_http_status d then bstr " (HTTP " ++ Itoa (fd_http_status d) ++ bstr ")"
    else if 0 <? rf_exit_code p then bstr " (exit " ++ Itoa (rf_exit_code p) ++ bstr ")"
    else [] in
  let says :=
    (if reminder then [Itoa (FailedRuns (fd_streak d)) ++ bstr " runs in a row have failed" ++ since_text (fd_streak d) ev ++ bstr "."] else []) ++
    (if timed_out && (0 <? fd_timeout_seconds d) then [bstr "It was stopped after its " ++ span (secs (fd_timeout_seconds d)) ++ bstr " timeout."] else []) in
  (about what (rf_job_name p) ++ suffix, JoinWith (bstr " ") says,
   {| ao_verdict := fd_verdict d; ao_tail := fd_output d; ao_truncated := fd_truncated d |}).

(** [chatRecovered]. *)
Definition chatRecovered (ev : Event) : bytes :=
  let s := runStreak_of (ev_detail ev) in
  if FailedRuns s <=? 1 then bstr "Its previous run had not succeeded."
  else bstr "It succeeded after " ++ Itoa (FailedRuns s) ++ bstr " failed runs in a row" ++ since_text s ev ++ bstr ".".

(** [chatMissed]. *)
Definition chatMissed (ev : Event) : bytes * alertOutput :=
  match ParseMissDetail (ev_detail ev) with
  | None => ([], no_output)
  | Some d =>
      match md_reason d with
      | ReasonFailed => ([], {| ao_verdict := []; ao_tail := md_output d; ao_truncated := false |})
      | ReasonOverran =>
          (bstr "A run started at " ++ chatTime (md_started_at d) ++ bstr " and did not finish within " ++ span (secs (md_grace_seconds d)) ++ bstr ".", no_output)
      | ReasonMissed =>
          let expected :=
            if 0 <? md_period_seconds d then
              let grace := if 0 <? md_grace_seconds d then span (secs (md_grace_seconds d)) ++ bstr " of grace" else bstr "no grace" in
              bstr "; one is expected every " ++ span (secs (md_period_seconds d)) ++ bstr ", with " ++ grace
            else [] in
          let seen := md_last_seen_at d in
          ((if IsZero seen then bstr "It has never pinged" ++ expected ++ bstr "."
            else if After (ev_created_at ev) seen then
              bstr "No ping for " ++ span (TimeSub (ev_created_at ev) seen) ++ bstr ", since " ++ chatTime seen ++ expected ++ bstr "."
            else bstr "No ping since " ++ chatTime seen ++ expected ++ bstr "."), no_output)
      end
  end.

(** [chatText]. *)
Definition chatText (ev : Event) (chat : ChatOptions) : bytes * bytes * alertOutput :=
  let '(subject, body) := render ev in
  let page_of_heartbeat := if 0 <? IDOf (ev_detail ev) then bstr "/heartbeats/" ++ Itoa (IDOf (ev_detail ev)) else [] in
  let text subject lead page out := (subject, joinParts [lead; link (co_base_url chat) page], out) in
  if String.eqb (ev_type ev) EventRunFailed then let '(subject, lead, out) := chatRunFailed ev in text subject lead (runPage ev) out
  else if String.eqb (ev_type ev) EventRunRecovered then text subject (chatRecovered ev) (runPage ev) no_output
  else if String.eqb (ev_type ev) EventMissed then let '(lead, out) := chatMissed ev in text subject lead page_of_heartbeat out
  else if String.eqb (ev_type ev) EventRecovered then text subject [] page_of_heartbeat no_output
  else (subject, body, no_output).

End ChatText.

(** ** Messages *)

(** [event.Subject], [event.V1] and [event.TendEvent] of the kit library, as
    [envelope] and [tendEvent] fill them in. *)
Inductive Severity := SeverityInfo | SeverityWarning | SeverityCritical.
Inductive EnvStatus := StatusFiring | StatusResolved.
Record EnvSubject := { es_type : string; es_id : bytes; es_name : bytes }.
Record V1 := {
  v1_id : bytes; v1_tool : string; v1_instance : string; v1_kind : string; v1_subject : EnvSubject; v1_severity : Severity; v1_status : EnvStatus;
  v1_dedup_key : bytes; v1_sequence : Z; v1_occurred_at : Time; v1_title : bytes; v1_body : bytes; v1_data : bytes }.
Record TendEvent := {
  te_id : Z; te_org : Z; te_type : string; te_source : string; te_payload : bytes; te_dedup_key : string; te_created_at : Time }.

(** [kitnotify.Message] with its [event.TendWebhook]. *)
Record TendWebhook := { tw_subject : bytes; tw_body : bytes; tw_event : TendEvent; tw_marsad : option V1 }.
Record Message := { msg_subject : bytes; msg_body : bytes; msg_output : bytes; msg_event : option V1; msg_webhook : TendWebhook }.

(** What the kit library says of an envelope and of what Discord keeps. *)
Class Kit := {
  ValidateV1 : V1 -> bool; SequenceAt : Time -> Z;
  DiscordOutputRoom : Message -> Z; DiscordOutputLength : bytes -> Z }.

Section Messages.
Context `{JSONText} `{PayloadJSON} `{Kit}.

(** [envelopeKinds]. *)
Inductive envelopeSubject := AboutJob | AboutHeartbeat | AboutNotifier.
Definition envelopeKind (t : string) : option (envelopeSubject * Severity * EnvStatus) :=
  if String.eqb t EventRunFailed then Some (AboutJob, SeverityCritical, StatusFiring)
  else if String.eqb t EventRunRecovered then Some (AboutJob, SeverityCritical, StatusResolved)
  else if String.eqb t EventMissed then Some (AboutHeartbeat, SeverityCritical, StatusFiring)
  else if String.eqb t EventRecovered then Some (AboutHeartbeat, SeverityCritical, StatusResolved)
  else if String.eqb t EventJobRemoved then Some (AboutJob, SeverityInfo, StatusResolved)
  else if String.eqb t EventRemoved then Some (AboutHeartbeat, SeverityInfo, StatusResolved)
  else if String.eqb t EventNotificationFailed then Some (AboutNotifier, SeverityWarning, StatusFiring)
  else None.

(** [Time.UnixNano]; January 1, 1970 is 62135596800 seconds into the calendar. *)
Definition UnixNano (t : Time) : Z := wrap64 (t - 62135596800 * Second).

(** [envelope]. *)
Definition envelope (ev : Event) (title body : bytes) (instance : string) : option V1 :=
  match envelopeKind (ev_type ev) with
  | None => None
  | Some (about, severity, status) =>
      let payload := payload_text ev in
      let subject := match about with
        | AboutJob =>
            if EventJobID ev <=? 0 then None
            else Some ({| es_type := "job"; es_id := Itoa (EventJobID ev); es_name := bstr (rf_job_name (payload_fields ev)) |}, payload)
        | AboutHeartbeat => Some ({| es_type := "heartbeat"; es_id := payload; es_name := payload |}, json_member "heartbeat" payload)
        | AboutNotifier => Some ({| es_type := "notifier"; es_id := bstr "notify"; es_name := bstr "notify" |}, json_member "undelivered" payload)
        end in
      match subject with
      | None => None
      | Some (subject, data) =>
          let base := if String.eqb (ev_dedup_key ev) "" then bstr (ev_type ev) ++ bstr ":" ++ payload else bstr (ev_dedup_key ev) in
          let env := {| v1_id := Itoa (ev_id ev); v1_tool := "tend"; v1_instance := instance; v1_kind := ev_type ev; v1_subject := subject;
            v1_severity := severity; v1_status := status; v1_dedup_key := base ++ bstr "@" ++ Itoa (UnixNano (ev_created_at ev));
            v1_sequence := SequenceAt (ev_created_at ev); v1_occurred_at := ev_created_at ev; v1_title := title; v1_body := body; v1_data := data |} in
          if ValidateV1 env then Some env else None
      end
  end.

(** [tendEvent]. *)
Definition tendEvent (ev : Event) : TendEvent :=
  {| te_id := ev_id ev; te_org := ev_org ev; te_type := ev_type ev; te_source := ev_source ev; te_payload := payload_text ev;
     te_dedup_key := ev_dedup_key ev; te_created_at := ev_created_at ev |}.

(** [compose]. *)
Definition compose (ev : Event) (instance : string) (chat : ChatOptions) : Message * alertOutput :=
  let '(subject, body) := render ev in
  let env := envelope ev subject body instance in
  let '(chatSubject, chatBody, out) := chatText ev chat in
  ({| msg_subject := chatSubject; msg_body := chatBody; msg_output := []; msg_event := env;
      msg_webhook := {| tw_subject := subject; tw_body := body; tw_event := tendEvent ev; tw_marsad := env |} |}, out).

Definition with_output (m : Message) (out : bytes) : Message :=
  {| msg_subject := msg_subject m; msg_body := msg_body m; msg_output := out; msg_event := msg_event m; msg_webhook := msg_webhook m |}.
Definition with_msg_body (m : Message) (body : bytes) : Message :=
  {| msg_subject := msg_subject m; msg_body := body; msg_output := msg_output m; msg_event := msg_event m; msg_webhook := msg_webhook m |}.

(** [messageFor]. *)
Definition messageFor (ev : Event) (instance : string) (chat : ChatOptions) : Message :=
  let '(m, out) := compose ev instance chat in with_output m (output_text out (co_output_lines chat)).

(** [channelMessage]. *)
Definition pushoverMaxMessage : Z := 1024.
Definition channelMessage (kind : ChannelType) (ev : Event) (instance : string) (chat : ChatOptions) : Message :=
  let '(m, out) := compose ev instance chat in
  let lines := co_output_lines chat in
  match kind with
  | Slack | Webhook => with_output m (output_text out lines)
  | Discord => with_output m (fit DiscordOutputLength out lines (DiscordOutputRoom m))
  | Pushover =>
      let room := pushoverMaxMessage - RuneCount (msg_body m) in
      let room := if bool_decide (msg_body m = []) then room else room - 2 in
      with_msg_body m (joinParts [msg_body m; fit RuneCount out lines room])
  | _ => with_msg_body m (joinParts [msg_body m; output_text out lines])
  end.

End Messages.

(** ** Fitting *)

(** What a measure of texts has to promise: it counts nothing for nothing, no
    more for a whole than for its parts, and no more for a stray byte than for
    the U+FFFD it is read as. *)
Class Measure (length : bytes -> Z) := {
  len_nil : length [] = 0;
  len_nonneg s : 0 <= length s;
  len_app s t : length (s ++ t) <= length s + length t;
  len_stray c : length [c] <= length FFFD }.

Lemma stray_chunk s r : (r, false) ∈ chunks s -> exists c, r = [c].
Proof.
  induction s as [|c s n E IH|c s E IH] using chunks_ind; [by intros ?%elem_of_nil| |]; rewrite chunks_cons, E.
  - intros [?|Hr]%elem_of_cons; [done|by apply IH].
  - intros [[= ->]|Hr]%elem_of_cons; [by exists c|by apply IH].
Qed.

(** Characters can be counted, the measure Pushover cuts by. *)
Lemma chunks_conts t k : Forall (fun x => cont x = true) (take k t) -> (List.length (chunks (drop k t)) <= List.length (chunks t))%nat.
Proof.
  revert t. induction k as [|k IH]; intros [|c t] Hc; [done..|]. cbn [take drop] in *. pose proof (Forall_inv Hc) as Hx. apply Forall_inv_tail in Hc.
  rewrite chunks_cons. destruct (rune_len (c :: t)) as [n|] eqn:E; [|cbn [List.length]; specialize (IH t Hc); lia].
  apply rune_len_start in E. unfold cont in Hx. by rewrite E in Hx.
Qed.

Lemma chunks_app_le s t : (List.length (chunks (s ++ t)) <= List.length (chunks s) + List.length (chunks t))%nat.
Proof.
  induction s as [|c r n E IH|c r E IH] using chunks_ind; [done| |]; pose proof (chunks_cons c (r ++ t)) as Ec;
    change (c :: r ++ t) with ((c :: r) ++ t) in Ec; rewrite Ec, (chunks_cons c r), E; clear Ec.
  - pose proof (rune_len_bounds _ _ E) as [_ Hl]. rewrite (rune_len_app _ t _ E), drop_app_le by lia. cbn [List.length]. lia.
  - destruct (rune_len ((c :: r) ++ t)) as [m|] eqn:Em; cbn [List.length]; [|lia].
    assert (Hm : (List.length (c :: r) < m)%nat).
    { apply Nat.nle_gt. intros Hle. pose proof (rune_len_take _ _ Em) as Ht. rewrite take_app_le in Ht by done.
      apply (rune_len_app _ (drop m (c :: r))) in Ht. rewrite take_drop in Ht. congruence. }
    rewrite drop_app_ge by lia. pose proof (rune_len_tail c (r ++ t) m Em) as Hc. rewrite take_app_ge in Hc by (simpl in Hm; lia). apply Forall_app in Hc as [_ Hc].
    pose proof (chunks_conts t (m - List.length (c :: r))) as Hk. replace (m - 1 - List.length r)%nat with (m - List.length (c :: r))%nat in Hc by (simpl; lia). specialize (Hk Hc). lia.
Qed.

#[export] Instance RuneCount_measure : Measure RuneCount.
Proof.
  split; unfold RuneCount; [done|lia|intros s t; pose proof (chunks_app_le s t); lia|].
  intros c. rewrite chunks_cons. destruct (rune_len [c]) as [n|] eqn:E; [|by vm_compute].
  apply rune_len_bounds in E as [H1 H2]. simpl in H2. replace n with 1%nat by lia. by vm_compute.
Qed.

Section Measured.
Context {length : bytes -> Z} {ML : Measure length}.

(** The cost of some characters, one by one. *)
Definition costs (rs : list (bytes * bool)) : Z := foldr (fun r n => rune_cost length r + n) 0 rs.

Lemma costs_app rs qs : costs (rs ++ qs) = costs rs + costs qs.
Proof. induction rs as [|r rs IH]; simpl; [done|]. rewrite IH. lia. Qed.

Lemma rune_cost_nonneg r : 0 <= rune_cost length r.
Proof. unfold rune_cost. apply len_nonneg. Qed.

Lemma costs_rev rs : costs (rev rs) = costs rs.
Proof. induction rs as [|r rs IH]; [done|]. simpl. rewrite costs_app, IH. simpl. lia. Qed.

(** The characters of a text cost at least what the text counts. *)
Lemma costs_bound s rs : (forall r, r ∈ rs -> r ∈ chunks s) -> length (mjoin (map fst rs)) <= costs rs.
Proof.
  induction rs as [|[r b] rs IH]; intros Hr; [by simpl; rewrite len_nil|]. cbn [map mjoin list_join foldr costs]. etrans; [apply len_app|].
  apply Z.add_le_mono; [|apply IH; intros x Hx; apply Hr; by right]. unfold rune_cost. simpl. destruct b; [done|].
  destruct (stray_chunk s r (Hr (r, false) ltac:(left))) as [c ->]. apply len_stray.
Qed.

Lemma take_back_spec rs used room : used <= room ->
  exists rest, rs = take_back length rs used room ++ rest /\ used + costs (take_back length rs used room) <= room /\
  match rest with [] => True | r :: _ => room < used + costs (take_back length rs used room) + rune_cost length r end.
Proof.
  revert used. induction rs as [|r rs IH]; intros used Hu; cbn [take_back]; [exists []; simpl; split_and!; [done|lia|done]|].
  destruct (Z.ltb_spec room (used + rune_cost length r)) as [Hlt|Hle]; [exists (r :: rs); simpl; split_and!; [done|lia|lia]|].
  destruct (IH (used + rune_cost length r) ltac:(lia)) as (rest & E & Hb & Hr). exists rest. cbn [app costs foldr]. fold (costs (take_back length rs (used + rune_cost length r) room)).
  split; [by f_equal|]. split; [lia|]. destruct rest; [done|]. lia.
Qed.

(** [cutStart] keeps as many whole characters from the end as there is room for. *)
Lemma cutStart_spec s room : 0 <= room -> exists cut kept, chunks s = cut ++ kept /\ cutStart length s room = mjoin (map fst kept) /\
  length (cutStart length s room) <= room /\ match list.last cut with None => True | Some r => room < costs (r :: kept) end.
Proof.
  intros Hr. destruct (take_back_spec (rev (chunks s)) 0 room Hr) as (rest & E & Hb & Hrest). unfold cutStart.
  set (back := take_back length (rev (chunks s)) 0 room) in *. exists (rev rest), (rev back).
  assert (Ec : chunks s = rev rest ++ rev back) by (rewrite <- rev_app_distr, <- E; by rewrite rev_involutive).
  split; [done|]. split; [done|]. split.
  - etrans; [apply (costs_bound s)|rewrite costs_rev; lia]. intros x Hx. rewrite Ec, elem_of_app. by right.
  - destruct rest as [|r rest]; [done|]. cbn [rev]. rewrite last_snoc. cbn [costs foldr]. fold (costs (rev back)). rewrite costs_rev. lia.
Qed.

Lemma cutEnd_fits s budget : length ellipsis <= budget -> length (cutEnd length s budget) <= budget.
Proof.
  intros He. unfold cutEnd. enough (Hc : forall rs used, (forall r, r ∈ rs -> r ∈ chunks s) -> used <= budget - length ellipsis ->
    used + length (cut_runes length rs used (budget - length ellipsis)) <= budget) by (specialize (Hc (chunks s) 0); lia || (rewrite <- (Z.add_0_l (length _)); apply Hc; [done|lia])).
  induction rs as [|[r b] rs IH]; intros used Hr Hu; cbn [cut_runes]; [rewrite len_nil; pose proof (len_nonneg ellipsis); lia|].
  destruct (Z.ltb_spec (budget - length ellipsis) (used + rune_cost length (r, b))) as [Hlt|Hle]; [lia|].
  specialize (IH (used + rune_cost length (r, b)) (fun x Hx => Hr x (list_elem_of_further _ _ _ Hx)) ltac:(lia)).
  pose proof (costs_bound s [(r, b)]) as Hc. cbn [map fst mjoin list_join costs foldr] in Hc. rewrite app_nil_r in Hc.
  assert (Hrb : forall x, x ∈ [(r, b)] -> x ∈ chunks s) by (intros x ->%list_elem_of_singleton; apply Hr; left). specialize (Hc Hrb).
  pose proof (len_app r (cut_runes length rs (used + rune_cost length (r, b)) (budget - length ellipsis))). cbn [fst]. lia.
Qed.

(** a fitted output is never longer than its budget, by whatever a channel
    measures it. What fits is left whole; of what does not, the verdict is kept
    if it leaves room, and of the tail as many whole characters from its end as
    there is room for, after an ellipsis. *)
Theorem fit_spec (o : alertOutput) (lines budget : Z) : length ellipsis <= budget ->
  let verdict := HeadLines (ao_verdict o) lines in
  let tail := TailLines (ao_tail o) (lines_left verdict lines) in
  let room := budget - length (fit_head o verdict) in
  length (fit length o lines budget) <= budget /\
  (length (output_text o lines) <= budget -> fit length o lines budget = output_text o lines) /\
  (budget < length (output_text o lines) -> verdict = [] \/ length verdict < budget ->
    if (room <=? 0) || bool_decide (tail = []) then fit length o lines budget = verdict
    else exists cut kept, chunks tail = cut ++ kept /\ fit length o lines budget = fit_head o verdict ++ mjoin (map fst kept) /\
      match list.last cut with None => True | Some r => room < costs (r :: kept) end).
Proof.
  intros He verdict tail room. unfold fit. fold verdict. fold tail. fold room. destruct (Z.leb_spec (length (output_text o lines)) budget) as [Hf|Hf]; [split; [done|]; split; [done|lia]|].
  destruct (negb (bool_decide (verdict = [])) && (budget <=? length verdict)) eqn:Ev.
  - split; [by apply cutEnd_fits|]. split; [lia|]. intros _ [Hv|Hv]; bsimpl; [done|lia].
  - assert (Hv : length verdict <= budget).
    { apply andb_false_iff in Ev as [Ev|Ev]; bsimpl; [rewrite Ev, len_nil; pose proof (len_nonneg ellipsis); lia|lia]. }
    destruct ((room <=? 0) || bool_decide (tail = [])) eqn:Er; [split; [done|]; split; [lia|done]|].
    apply orb_false_iff in Er as [Er _]. bsimpl. destruct (cutStart_spec tail room ltac:(lia)) as (cut & kept & Ec & Ek & Hk & Hl).
    split; [|split; [lia|]].
    + pose proof (len_app (fit_head o verdict) (cutStart length tail room)). lia.
    + intros _ _. exists cut, kept. by rewrite Ek.
Qed.

End Measured.

(** on Pushover, which keeps 1024 characters, an alert whose own text leaves
    a line for the output is never cut: its own text, with the link, arrives
    whole, and the output is fitted to what is left. *)
Theorem channelMessage_pushover `{JSONText} `{PayloadJSON} `{Kit} (ev : Event) (instance : string) (chat : ChatOptions) :
  let own := snd (fst (chatText ev chat)) in let m := channelMessage Pushover ev instance chat in
  RuneCount own <= 1021 ->
  RuneCount (msg_body m) <= pushoverMaxMessage /\ exists rest, msg_body m = own ++ rest.
Proof.
  intros own m. unfold m, own, channelMessage, compose. destruct (render ev) as [subject body]. destruct (chatText ev chat) as [[cs cb] out]. cbn [fst snd msg_body with_msg_body]. intros Hown.
  set (room := if bool_decide (cb = []) then _ else _). assert (He : RuneCount ellipsis <= room).
  { change (RuneCount ellipsis) with 1. unfold room, pushoverMaxMessage. case_bool_decide; lia. }
  destruct (fit_spec (ML := RuneCount_measure) out (co_output_lines chat) room He) as [Hfit _]. set (f := fit RuneCount out _ room) in *.
  assert (Hj : joinParts [cb; f] = if bool_decide (cb = []) then f else if bool_decide (f = []) then cb else cb ++ blank_line ++ f).
  { unfold joinParts. cbn [List.filter]. destruct (bool_decide_reflect (cb = [])) as [->|], (bool_decide_reflect (f = [])) as [Ef|]; cbn [negb JoinWith]; by rewrite ?Ef. }
  rewrite Hj. unfold room, pushoverMaxMessage in *. destruct (bool_decide_reflect (cb = [])) as [->|Hcb]; [split; [done|by exists f]|].
  destruct (bool_decide_reflect (f = [])) as [Ef|]; [split; [lia|exists []; by rewrite app_nil_r]|]. split; [|by eexists].
  pose proof (chunks_app_le cb (blank_line ++ f)) as Hc1. pose proof (chunks_app_le blank_line f) as Hc2. unfold RuneCount in *. change (List.length (chunks blank_line)) with 2%nat in Hc2. lia.
Qed.

(** ** Concrete alerts *)

Lemma fit_spec_witness : let o := sample_output in
  (RuneCount (fit RuneCount o 3 30) <= 30 /\
  (RuneCount (output_text o 3) <= 30 -> fit RuneCount o 3 30 = output_text o 3)) /\
  exists cut kept, chunks (TailLines (ao_tail o) 2) = cut ++ kept /\ fit RuneCount o 3 30 = fit_head o (bstr "FAIL: cert") ++ mjoin (map fst kept) /\
      match list.last cut with None => True | Some r => 4 < costs (length := RuneCount) (r :: kept) end.
Proof.
  intros o. destruct (fit_spec (ML := RuneCount_measure) o 3 30) as (H1 & H2 & H3); [vm_compute; congruence|]. split; [by split|].
  apply H3; [vm_compute; reflexivity|right; vm_compute; reflexivity].
Defined.

#[local] Instance no_fields : PayloadJSON := {| text_fields _ := {| rf_job_name := ""; rf_status := []; rf_exit_code := 0 |}; payload_json _ := []; json_member _ _ := [] |}.
#[local] Instance no_kit : Kit := {| ValidateV1 _ := true; SequenceAt _ := 0; DiscordOutputRoom _ := 2000; DiscordOutputLength := RuneCount |}.
#[local] Instance alert_text : JSONText := plain_text.

(** The third failure in a row of a job that printed a thousand characters, as
    it is sent to Pushover. *)
Definition a_failure : Event :=
  {| ev_id := 7; ev_org := 1; ev_type := EventRunFailed; ev_source := "jobs.runner"; ev_payload := PlRun 12 3 "backup" StatusFailed 2; ev_dedup_key := "";
     ev_created_at := 63935136000 * Second;
     ev_detail := DtFailure {| fd_verdict := []; fd_output := replicate 990 "x"%char; fd_truncated := false; fd_timeout_seconds := 0; fd_http_status := 0;
       fd_streak := {| FailedRuns := 3; FailingSince := 63935136000 * Second - 2 * Hour |} |} |}.
Definition a_chat : ChatOptions := {| co_base_url := bstr "https://tend"; co_output_lines := 10 |}.

Example a_failure_text : let '(subject, body, _) := chatText a_failure a_chat in
  (str subject, str body) = ("Job still failing: backup (exit 2)",
   "3 runs in a row have failed, since 2027-01-09 22:00 UTC (2h)." +:+ str blank_line +:+ "https://tend/runs/12")%string.
Proof. vm_compute. reflexivity. Qed.

Lemma channelMessage_pushover_witness : let m := channelMessage Pushover a_failure "here" a_chat in
  RuneCount (output_text {| ao_verdict := []; ao_tail := replicate 990 "x"%char; ao_truncated := false |} 10) = 1003 /\
  RuneCount (msg_body m) <= pushoverMaxMessage /\ exists rest, msg_body m = snd (fst (chatText a_failure a_chat)) ++ rest.
Proof.
  intros m. split; [vm_compute; reflexivity|]. apply (channelMessage_pushover a_failure "here" a_chat). vm_compute. congruence.
Defined.
