(* ===== verification/StoreRuns.v ===== *)
(** * Jobs and runs in the store ([internal/store/sqlite.go])

    The job operations ([CreateJob] to [FailUnreadableJob]) and the run queue
    ([EnqueueRun] to [RequeueOrphanedRuns]), one definition per method; each is
    one statement or one transaction, as the code writes it. *)
From S2P Require Import Prelude GoTime Domain Heartbeat Sql Schema StoreEvents Failure.
Open Scope Z_scope.

Section Runs.
Context `{World} `{JSONText}.

Definition defaultListLimit : Z := 50.
Definition list_limit (limit : Z) : Z := if limit <=? 0 then defaultListLimit else limit.

(** ** Jobs *)

(** A job of the org has the name: [UNIQUE(org_id, name)]. *)
Definition job_named (org : Z) (name : string) (r : JobRow) : bool := (jr_org r =? org) && String.eqb (jr_name r) name.

(** [CreateJob]. *)
Definition CreateJob (j : Job) : Store Z :=
  match encodeSpec (j_spec j) with
  | Error e => throw e
  | Ok _ => autocommit (
  let* now := now_ in
  let* taken := query (fun d => exists_row (job_named (j_org j) (j_name j)) (db_jobs d)) in
  if taken : bool then throw ErrConstraint
  else
    let* id := query (fun d => next_id (db_jobs d)) in
    exec (on_jobs (insert_row (fun i => job_row i j (Val now) now 0 None))) ;;;
    ret id)
  end.

(** [scanJob]'s row, or [ErrNotFound]. *)
Definition scan_one_job (r : option JobRow) : Store Job :=
  match r with
  | None => throw ErrNotFound
  | Some r => match scanJob r with Ok j => ret j | Error e => throw e end
  end.

(** [GetJob] and [GetJobByName]. *)
Definition GetJob (org id : Z) : Store Job :=
  let* r := autocommit (query (fun d => select1 (is_job org id) (db_jobs d))) in scan_one_job r.
Definition GetJobByName (org : Z) (name : string) : Store Job :=
  let* r := autocommit (query (fun d => select1 (job_named org name) (db_jobs d))) in scan_one_job r.

(** [ListJobs]: the jobs that can be read and those that cannot. *)
Definition ListJobs (org : Z) : Store (list Job * list Unreadable) :=
  autocommit (query (fun d => scanJobs (select (fun r => jr_org r =? org) (db_jobs d)))).

(** [UpdateJob]. *)
Definition UpdateJob (j : Job) : Store unit :=
  match encodeSpec (j_spec j) with
  | Error e => throw e
  | Ok _ => autocommit (
  let* now := now_ in
  let* taken := query (fun d => exists_row (is_job (j_org j) (j_id j)) (db_jobs d)
    && exists_row (fun r => job_named (j_org j) (j_name j) r && negb (jr_id r =? j_id j)) (db_jobs d)) in
  if taken : bool then throw ErrConstraint
  else
    let* n := query (fun d => count_where (is_job (j_org j) (j_id j)) (db_jobs d)) in
    exec (on_jobs (update_where (is_job (j_org j) (j_id j))
      (fun r => job_row (jr_id r) j (jr_created_at r) now (jr_failed_runs r) (jr_failing_since r)))) ;;;
    if n =? 0 then throw ErrNotFound else ret tt)
  end.

(** [DeleteJob]. *)
Definition DeleteJob (org id : Z) : Store unit := tx (
  let* r := query (fun d => select1 (is_job org id) (db_jobs d)) in
  match r with
  | None => throw ErrNotFound
  | Some r =>
      emitEvent (JobRemovedEvent org id (jr_name r)) ;;;
      exec (on_runs (delete_where (fun r => (rr_org r =? org) && (rr_job r =? id)))) ;;;
      exec (on_rules (delete_where (fun r => (rw_org r =? org) && (rw_job r =? id)))) ;;;
      exec (on_jobs (delete_where (is_job org id))) ;;;
      deleteAlertStates org snd id ;;;
      ret (Commit tt)
  end).

(** A pending or running run of the job: the no-overlap guard. *)
Definition live (s : RunStatus) : bool := negb (terminal s).
Definition has_live_run (jobID : Z) (d : DB) : bool :=
  exists_row (fun r => (rr_job r =? jobID) && live (rr_status r)) (db_runs d).

(** The [WHERE] of [DueJobs]. *)
Definition job_due (now : Time) (d : DB) (j : JobRow) : bool :=
  jr_enabled j && match jr_next_run j with None => false | Some t => t <=? now end && negb (has_live_run (jr_id j) d).

(** [DueJobs]. *)
Definition DueJobs (now : Time) : Store (list Job * list Unreadable) :=
  autocommit (query (fun d => scanJobs (select (job_due now d) (db_jobs d)))).

Definition workerName : string := "runner".

(** [FailUnreadableJob]. *)
Definition FailUnreadableJob (org jobID : Z) (name : string) (output : bytes) : Store Event := tx (
  let* now := now_ in
  let* runID := query (fun d => next_id (db_runs d)) in
  exec (on_runs (insert_row (fun i =>
    {| rr_id := i; rr_org := org; rr_job := jobID; rr_status := StatusFailed; rr_attempt := 1; rr_exit_code := -1;
       rr_output := output; rr_claimed_by := Some workerName; rr_started_at := Some now; rr_ended_at := Some now;
       rr_created_at := now |}))) ;;;
  let run := {| r_id := runID; r_org := org; r_job := jobID; r_status := StatusPending; r_attempt := 0; r_exit_code := 0;
                r_output := []; r_claimed_by := ""; r_started_at := zero_time; r_ended_at := zero_time;
                r_created_at := zero_time |} in
  let* ev := recordEvent (with_detail (RunEvent run name EventRunFailed StatusFailed (-1)) (UnreadableFailureDetail output)) in
  exec (on_jobs (update_where (is_job org jobID) (fun r => jr_with_next_run r None))) ;;;
  ret (Commit ev)).

(** ** The run queue *)

(** [EnqueueRun]. *)
Definition EnqueueRun (org jobID : Z) : Store Z := autocommit (
  let* now := now_ in
  let* id := query (fun d => next_id (db_runs d)) in
  exec (on_runs (insert_row (fun i =>
    {| rr_id := i; rr_org := org; rr_job := jobID; rr_status := StatusPending; rr_attempt := 1; rr_exit_code := 0;
       rr_output := []; rr_claimed_by := None; rr_started_at := None; rr_ended_at := None; rr_created_at := now |}))) ;;;
  ret id).

Definition has_status (s : RunStatus) (r : RunRow) : bool := bool_decide (rr_status r = s).
Definition is_run (runID : Z) (r : RunRow) : bool := rr_id r =? runID.

(** [ClaimRun]: one [UPDATE ... RETURNING] of the oldest pending run. *)
Definition ClaimRun (worker : string) : Store (option Run) := autocommit (
  let* now := now_ in
  let* oldest := query (fun d => select1 (has_status StatusPending) (db_runs d)) in
  match oldest with
  | None => ret None
  | Some r =>
      exec (on_runs (update_where (is_run (rr_id r)) (fun r => rr_claim r StatusRunning (Some worker) (Some now)))) ;;;
      ret (Some (scanRun (rr_claim r StatusRunning (Some worker) (Some now))))
  end).

(** The guard of [finishRunTx] and [ReapStaleRun]: the run is still running. *)
Definition running (runID : Z) (r : RunRow) : bool := is_run runID r && has_status StatusRunning r.

(** [finishRunTx]. *)
Definition finishRunTx (runID : Z) (status : RunStatus) (exitCode : Z) (output : bytes) : Store unit :=
  let* now := now_ in
  let* n := query (fun d => count_where (running runID) (db_runs d)) in
  exec (on_runs (update_where (running runID) (fun r => rr_finish r status exitCode output now))) ;;;
  if n =? 0 then
    let* found := query (fun d => exists_row (is_run runID) (db_runs d)) in
    if found : bool then throw ErrRunNotRunning else throw ErrRunGone
  else ret tt.

(** [FinishRun]. *)
Definition FinishRun (runID : Z) (status : RunStatus) (exitCode : Z) (output : bytes) : Store unit :=
  tx (finishRunTx runID status exitCode output ;;; ret (Commit tt)).

(** The recovery [FinishRunAndEmit] appends after a success, if any. *)
Definition emit_recovery (runID : Z) (ev : Event) : Store unit :=
  let* prev := query (previousRunStatus runID) in
  match prev with
  | Some p => if bool_decide (p = StatusSucceeded) then ret tt
              else emitEvent (RunRecoveredEvent ev runID) ;;; ret tt
  | None => ret tt
  end.

(** [FinishRunAndEmit]. *)
Definition FinishRunAndEmit (runID : Z) (status : RunStatus) (exitCode attempt : Z) (output : bytes) (ev : Event) : Store Z := tx (
  finishRunTx runID status exitCode output ;;;
  exec (on_runs (update_where (is_run runID) (fun r => rr_with_attempt r attempt))) ;;;
  let* id := emitEvent ev in
  (if bool_decide (status = StatusSucceeded) then emit_recovery runID ev ;;; endStreak runID else ret tt) ;;;
  ret (Commit id)).

(** [ListRunningRuns]. *)
Definition ListRunningRuns : Store (list Run) :=
  autocommit (query (fun d => map scanRun (select (has_status StatusRunning) (db_runs d)))).

(** [ReapStaleRun]. *)
Definition ReapStaleRun (runID : Z) (output : bytes) (ev : Event) : Store bool := tx (
  let* now := now_ in
  let* n := query (fun d => count_where (running runID) (db_runs d)) in
  exec (on_runs (update_where (running runID) (fun r => rr_finish r StatusFailed (-1) output now))) ;;;
  if n =? 0 then ret (Rollback false)
  else emitEvent ev ;;; ret (Commit true)).

Definition ManualClaimantPrefix : string := "run:".

(** SQL's [LIKE 'run:%']: a prefix test that ignores ASCII case. *)
Definition like_manual (s : string) : bool :=
  String.prefix ManualClaimantPrefix (string_of_list_ascii (map to_lower (list_ascii_of_string s))).

Definition orphaned (r : RunRow) : bool :=
  has_status StatusRunning r && match rr_claimed_by r with None => true | Some c => negb (like_manual c) end.

(** [RequeueOrphanedRuns]. *)
Definition RequeueOrphanedRuns : Store Z := autocommit (
  let* n := query (fun d => count_where orphaned (db_runs d)) in
  exec (on_runs (update_where orphaned (fun r => rr_claim r StatusPending None None))) ;;;
  ret n).

(** [GetRun] and [ListRuns]. *)
Definition GetRun (org runID : Z) : Store Run :=
  let* r := autocommit (query (fun d => select1 (fun r => (rr_org r =? org) && is_run runID r) (db_runs d))) in
  match r with None => throw ErrNotFound | Some r => ret (scanRun r) end.
Definition ListRuns (org jobID limit : Z) : Store (list Run) :=
  autocommit (query (fun d => map scanRun
    (select_desc (fun r => (rr_org r =? org) && (rr_job r =? jobID)) (list_limit limit) (db_runs d)))).

End Runs.
