(* ===== verification/StoreHeartbeats.v ===== *)
(** * Heartbeats and the ping log in the store ([internal/store/pings.go], [sqlite.go])

    [RecordHeartbeatPing] and the watcher's [MarkHeartbeatDownAndEmit], with
    the heartbeat operations around them. Each is one statement or one
    transaction, as the code writes it. *)
From S2P Require Import Prelude GoTime Domain Heartbeat Sql Schema StoreEvents StoreRuns.
Open Scope Z_scope.

Section Heartbeats.
Context `{World} `{JSONText}.

(** ** Creating and reading heartbeats *)

Definition hb_named (org : Z) (name : string) (r : HbRow) : bool := (hr_org r =? org) && String.eqb (hr_name r) name.
Definition is_hb (org id : Z) (r : HbRow) : bool := (hr_org r =? org) && (hr_id r =? id).
Definition has_token (token : string) (r : HbRow) : bool := bool_decide (hr_token r = Some token).

Definition new_hb (h : Heartbeat) (now : Time) (id : Z) : HbRow :=
  {| hr_id := id; hr_org := hb_org h; hr_name := hb_name h; hr_last_seen_at := None; hr_created_at := now;
     hr_token := Some (hb_token h); hr_period_seconds := hb_period_seconds h; hr_grace_seconds := hb_grace_seconds h;
     hr_status := HbNew; hr_started_at := None; hr_started_rid := "" |}.

(** [CreateHeartbeat]: an upsert by (org, name) that keeps the token it finds. *)
Definition CreateHeartbeat (h : Heartbeat) : Store (Z * string) := autocommit (
  let* now := now_ in
  let* old := query (fun d => select1 (hb_named (hb_org h) (hb_name h)) (db_heartbeats d)) in
  match old with
  | Some r =>
      exec (on_heartbeats draw) ;;;
      exec (on_heartbeats (update_where (is_hb (hb_org h) (hr_id r))
        (fun r => hr_with_settings r (hb_period_seconds h) (hb_grace_seconds h)))) ;;;
      ret (hr_id r, default ("" : string) (hr_token r))
  | None =>
      let* taken := query (fun d => exists_row (has_token (hb_token h)) (db_heartbeats d)) in
      if taken : bool then throw ErrConstraint
      else
        let* id := query (fun d => next_id (db_heartbeats d)) in
        exec (on_heartbeats (insert_row (new_hb h now))) ;;;
        ret (id, hb_token h)
  end).

(** The insert of [createHeartbeatIfAbsent], with [ON CONFLICT DO NOTHING]:
    the token if the row went in. *)
Definition insert_hb_if_absent (h : Heartbeat) : Store (option string) := autocommit (
  let* now := now_ in
  let* old := query (fun d => exists_row (hb_named (hb_org h) (hb_name h)) (db_heartbeats d)) in
  if old : bool then exec (on_heartbeats draw) ;;; ret None
  else
    let* taken := query (fun d => exists_row (has_token (hb_token h)) (db_heartbeats d)) in
    if taken : bool then throw ErrConstraint
    else exec (on_heartbeats (insert_row (new_hb h now))) ;;; ret (Some (hb_token h))).

(** [createHeartbeatIfAbsent]. *)
Definition CreateHeartbeatIfAbsent (h : Heartbeat) : Store (string * bool) :=
  let* token := insert_hb_if_absent h in
  match token with
  | Some token => ret (token, true)
  | None =>
      let* old := autocommit (query (fun d => select1 (hb_named (hb_org h) (hb_name h)) (db_heartbeats d))) in
      match old with
      | None => throw ErrDatabase
      | Some r => ret (default ("" : string) (hr_token r), false)
      end
  end.

(** [ListHeartbeats], [GetHeartbeatByName] and [GetHeartbeat]. *)
Definition ListHeartbeats (org : Z) : Store (list Heartbeat) :=
  autocommit (query (fun d => map scanHeartbeat (select (fun r => hr_org r =? org) (db_heartbeats d)))).
Definition get_hb (p : HbRow -> bool) : Store Heartbeat :=
  let* r := autocommit (query (fun d => select1 p (db_heartbeats d))) in
  match r with None => throw ErrNotFound | Some r => ret (scanHeartbeat r) end.
Definition GetHeartbeatByName (org : Z) (name : string) : Store Heartbeat := get_hb (hb_named org name).
Definition GetHeartbeat (org id : Z) : Store Heartbeat := get_hb (is_hb org id).

(** [DeleteHeartbeat]. *)
Definition DeleteHeartbeat (org id : Z) : Store unit := tx (
  let* r := query (fun d => select1 (is_hb org id) (db_heartbeats d)) in
  exec (on_heartbeats (delete_where (is_hb org id))) ;;;
  match r with
  | None => throw ErrNotFound
  | Some r =>
      exec (on_pings (delete_where (fun p => (p_org (pr_ping p) =? org) && (p_heartbeat (pr_ping p) =? id)))) ;;;
      emitEvent (RemovedEvent org (hr_name r)) ;;;
      ret (Commit tt)
  end).

(** ** Recording pings ([recordHeartbeatPing]) *)

Record PingResult := { pg_heartbeat : Z; pg_org : Z; pg_name : string; pg_event : option Event }.

(** The [SET] of a start, a success and a failure. *)
Definition set_started (now : Time) (rid : string) (r : HbRow) : HbRow :=
  hr_set r (hr_last_seen_at r) (hr_status r) (Some now) rid.
Definition set_up (now : Time) (rid : string) (r : HbRow) : HbRow :=
  let ends := String.eqb rid "" || String.eqb (hr_started_rid r) rid in
  hr_set r (Some now) HbUp (if ends then None else hr_started_at r) (if ends then "" else hr_started_rid r).
Definition set_down (now : Time) (r : HbRow) : HbRow := hr_set r (Some now) HbDown None "".

(** One [UPDATE heartbeats SET ... WHERE ... RETURNING id, org_id, name]. *)
Definition update_hb (p : HbRow -> bool) (f : HbRow -> HbRow) : Store (option HbRow) :=
  let* r := query (fun d => select1 p (db_heartbeats d)) in
  exec (on_heartbeats (update_where p f)) ;;;
  ret r.

(** The guarded update first and, when it matched no row, the unguarded one. *)
Definition guarded_update (token : string) (guard : HbRow -> bool) (f : HbRow -> HbRow) : Store (option (HbRow * bool)) :=
  let* r := update_hb (fun r => has_token token r && guard r) f in
  match r with
  | Some r => ret (Some (r, true))
  | None =>
      let* r := update_hb (has_token token) f in
      ret ((fun r => (r, false)) <$> r)
  end.

(** The heartbeat's new state and the event of the transition, if there was one. *)
Definition ping_state (token : string) (i : PingInput) (now : Time) : Store (option (HbRow * option Event)) :=
  match in_kind i with
  | PingLog =>
      let* r := query (fun d => select1 (has_token token) (db_heartbeats d)) in
      ret ((fun r => (r, None)) <$> r)
  | PingStart =>
      let* r := update_hb (has_token token) (set_started now (in_rid i)) in
      ret ((fun r => (r, None)) <$> r)
  | PingSuccess =>
      let* r := guarded_update token (fun r => bool_decide (hr_status r = HbDown)) (set_up now (in_rid i)) in
      ret ((fun '(r, recovered) =>
        (r, if recovered : bool then Some (RecoveredEvent (hr_org r) (hr_id r) (hr_name r)) else None)) <$> r)
  | PingFail =>
      let* r := guarded_update token (fun r => negb (bool_decide (hr_status r = HbDown))) (set_down now) in
      ret ((fun '(r, down) =>
        (r, if down : bool then Some (FailedEvent (hr_org r) (hr_id r) (hr_name r) (in_exit_status i) (in_body i))
            else None)) <$> r)
  | PingOther _ => ret None
  end.

(** The log entries [runDuration] looks at. *)
Definition pairs_with (heartbeatID : Z) (rid : string) (since : Time) (r : PingRow) : bool :=
  let p := pr_ping r in
  (p_heartbeat p =? heartbeatID) && String.eqb (p_rid p) rid
  && match p_kind p with PingStart | PingSuccess | PingFail => true | _ => false end
  && (since <=? p_created_at p).

(** [runDuration], in milliseconds. *)
Definition runDuration (heartbeatID : Z) (i : PingInput) (now : Time) (d : DB) : option Z :=
  match in_kind i with
  | PingSuccess | PingFail =>
      match select_desc (pairs_with heartbeatID (in_rid i) (TimeAdd now (- MaxRunDuration))) 1 (db_pings d) with
      | [] => None
      | r :: _ =>
          let p := pr_ping r in
          if negb (bool_decide (p_kind p = PingStart)) || Before now (p_created_at p) then None
          else Some (Z.quot (TimeSub now (p_created_at p)) Millisecond)
      end
  | _ => None
  end.

Definition maxPingsPerHeartbeat : Z := 1000.
Definition maxPingLogBytes : Z := 10000000.

Definition of_heartbeat (heartbeatID : Z) (r : PingRow) : bool := p_heartbeat (pr_ping r) =? heartbeatID.

(** The trim to [maxPingsPerHeartbeat] entries: the newest entry past them, and all older. *)
Definition trim_entries (heartbeatID : Z) (t : Table PingRow) : Table PingRow :=
  match rev (select (of_heartbeat heartbeatID) t) !! Z.to_nat maxPingsPerHeartbeat with
  | None => t
  | Some r0 => delete_where (fun r => of_heartbeat heartbeatID r && (pr_id r <=? pr_id r0)) t
  end.

(** [SUM(body_bytes) OVER (ORDER BY id DESC)] of entries given newest first. *)
Fixpoint running_sums (kept : Z) (l : list PingRow) : list (PingRow * Z) :=
  match l with
  | [] => []
  | r :: rest => (r, kept + pr_body_bytes r) :: running_sums (kept + pr_body_bytes r) rest
  end.

(** The trim to [maxPingLogBytes] of bodies: the newest entry whose running
    sum is past them, and all older. *)
Definition trim_bytes (heartbeatID : Z) (t : Table PingRow) : Table PingRow :=
  let over := List.filter (fun x => maxPingLogBytes <? snd x) (running_sums 0 (rev (select (of_heartbeat heartbeatID) t))) in
  match max_opt (map (fun x => pr_id (fst x)) over) with
  | None => t
  | Some m => delete_where (fun r => of_heartbeat heartbeatID r && (pr_id r <=? m)) t
  end.

(** The log entry of a ping. *)
Definition log_entry (org heartbeatID : Z) (i : PingInput) (duration : option Z) (now : Time) (id : Z) : PingRow :=
  {| pr_ping := {| p_id := id; p_org := org; p_heartbeat := heartbeatID; p_kind := in_kind i;
                   p_exit_status := in_exit_status i; p_rid := in_rid i; p_duration_ms := duration;
                   p_body := in_body i; p_created_at := now |};
     pr_body_bytes := Z.of_nat (List.length (in_body i)) |}.

(** [recordHeartbeatPing]. *)
Definition RecordHeartbeatPing (token : string) (i : PingInput) (now : Time) : Store PingResult :=
  if negb (ValidPingKind (in_kind i)) then throw ErrUnknownKind
  else tx (
    let* r := ping_state token i now in
    match r with
    | None => throw ErrNotFound
    | Some (r, event) =>
        let* duration := query (runDuration (hr_id r) i now) in
        exec (on_pings (insert_row (log_entry (hr_org r) (hr_id r) i duration now))) ;;;
        exec (on_pings (trim_entries (hr_id r))) ;;;
        exec (on_pings (trim_bytes (hr_id r))) ;;;
        (match event with None => ret tt | Some ev => emitEvent ev ;;; ret tt end) ;;;
        ret (Commit {| pg_heartbeat := hr_id r; pg_org := hr_org r; pg_name := hr_name r; pg_event := event |})
    end).

(** [RecordPing]. *)
Definition RecordPing (token : string) (now : Time) : Store (Z * string * bool) :=
  let* r := RecordHeartbeatPing token {| in_kind := PingSuccess; in_exit_status := None; in_rid := ""; in_body := [] |} now in
  ret (pg_org r, pg_name r, bool_decide (is_Some (pg_event r))).

(** [listHeartbeatPings]. *)
Definition ListHeartbeatPings (org heartbeatID limit : Z) : Store (list Ping) :=
  autocommit (query (fun d => map scanPing
    (select_desc (fun r => (p_org (pr_ping r) =? org) && of_heartbeat heartbeatID r) (list_limit limit) (db_pings d)))).

(** ** The watcher's side *)

(** [dueFromCandidates]. *)
Definition due_at (now : Time) (h : Heartbeat) : bool :=
  let '(deadline, _, watched) := Deadline h in watched && After now deadline.
Definition dueFromCandidates (candidates : list Heartbeat) (now : Time) : list Heartbeat := List.filter (due_at now) candidates.

(** The candidates of [DueHeartbeats]. *)
Definition watch_candidate (r : HbRow) : bool :=
  (bool_decide (hr_status r = HbUp) && bool_decide (is_Some (hr_last_seen_at r))) || bool_decide (hr_status r = HbNew).

(** [DueHeartbeats]. *)
Definition DueHeartbeats (now : Time) : Store (list Heartbeat) :=
  autocommit (query (fun d => dueFromCandidates (map scanHeartbeat (select watch_candidate (db_heartbeats d))) now)).

(** [SetHeartbeatStatus]. *)
Definition SetHeartbeatStatus (id : Z) (status : HbStatus) : Store unit :=
  autocommit (exec (on_heartbeats (update_where (fun r => hr_id r =? id) (fun r => hr_with_status r status)))).

(** [setHeartbeatStatusIf]: a zero [lastSeenAt] stands for NULL. *)
Definition status_guard (id : Z) (from : HbStatus) (lastSeenAt : Time) (r : HbRow) : bool :=
  (hr_id r =? id) && bool_decide (hr_status r = from) && bool_decide (hr_last_seen_at r = nullTime lastSeenAt).
Definition setHeartbeatStatusIf (id : Z) (from to : HbStatus) (lastSeenAt : Time) : Store bool :=
  let* n := query (fun d => count_where (status_guard id from lastSeenAt) (db_heartbeats d)) in
  exec (on_heartbeats (update_where (status_guard id from lastSeenAt) (fun r => hr_with_status r to))) ;;;
  ret (0 <? n).

(** [SetHeartbeatStatusIf] and [SetHeartbeatStatusIfAndEmit]. *)
Definition SetHeartbeatStatusIf (id : Z) (from to : HbStatus) (lastSeenAt : Time) : Store bool :=
  autocommit (setHeartbeatStatusIf id from to lastSeenAt).
Definition SetHeartbeatStatusIfAndEmit (id : Z) (from to : HbStatus) (lastSeenAt : Time) (ev : Event) : Store bool := tx (
  let* fired := setHeartbeatStatusIf id from to lastSeenAt in
  if negb fired then ret (Rollback false)
  else emitEvent ev ;;; ret (Commit true)).

(** The guard of [markHeartbeatDown]: the row is still as it was observed. *)
Definition observed_guard (o : Heartbeat) (r : HbRow) : bool :=
  (hr_id r =? hb_id o) && bool_decide (hr_status r = hb_status o)
  && bool_decide (hr_last_seen_at r = nullTime (hb_last_seen_at o))
  && bool_decide (hr_started_at r = nullTime (hb_started_at o)).

(** [markHeartbeatDown]. *)
Definition MarkHeartbeatDownAndEmit (o : Heartbeat) (ev : Event) : Store bool := tx (
  let* n := query (fun d => count_where (observed_guard o) (db_heartbeats d)) in
  exec (on_heartbeats (update_where (observed_guard o) (fun r => hr_set r (hr_last_seen_at r) HbDown None ""))) ;;;
  if n =? 0 then ret (Rollback false)
  else emitEvent ev ;;; ret (Commit true)).

(** [ListHeartbeatEvents]. *)
Definition heartbeat_event (org : Z) (name : string) (e : Event) : bool :=
  (ev_org e =? org) && String.eqb (ev_source e) heartbeat_source
  && match ev_payload e with PlText s => String.eqb s name | _ => false end.
Definition ListHeartbeatEvents (org : Z) (name : string) (limit : Z) : Store (list Event) :=
  autocommit (query (fun d => select_desc (heartbeat_event org name) (list_limit limit) (db_events d))).

End Heartbeats.
