(* ===== verification/StoreDeliveries.v ===== *)
(** * Deliveries and retention in the store ([internal/store/sqlite.go])

    The delivery worker's side of the queue ([ClaimDueDeliveries] to
    [FailDeliveryAndEmit]), the event listing, and the retention sweep's
    prunes. *)
From S2P Require Import Prelude GoTime Domain Sql Schema StoreEvents StoreRuns.
Open Scope Z_scope.

Section Deliveries.
Context `{World} `{JSONText}.

(** ** The queue *)

Definition pending (r : DeliveryRow) : bool := bool_decide (dl_state r = DeliveryPending).
Definition is_delivery (id : Z) (r : DeliveryRow) : bool := dl_id r =? id.

(** [o] holds [r] back: an older pending delivery on its channel, not yet
    attempted or first attempted within the hold. *)
Definition holds (now : Time) (hold : Duration) (r o : DeliveryRow) : bool :=
  (dl_channel o =? dl_channel r) && pending o && (dl_id o <? dl_id r)
  && match dl_first_attempt_at o with None => true | Some t => TimeAdd now (- hold) <? t end.

Definition delivery_due (now : Time) (r : DeliveryRow) : bool := pending r && (dl_next_attempt_at r <=? now).

(** The inner [SELECT] of the claim. *)
Definition claimable (now : Time) (hold : Duration) (d : DB) (r : DeliveryRow) : bool :=
  delivery_due now r && ((hold <=? 0) || negb (exists_row (holds now hold r) (db_deliveries d))).
Definition claimable_rows (now : Time) (hold : Duration) (limit : Z) (d : DB) : list DeliveryRow :=
  take (Z.to_nat (list_limit limit)) (select (claimable now hold d) (db_deliveries d)).

(** Its [SET]. *)
Definition claim_delivery (now : Time) (lease : Duration) (r : DeliveryRow) : DeliveryRow :=
  dl_schedule r (dl_attempts r + 1) (TimeAdd now lease) (Some (default now (dl_first_attempt_at r))).

Definition with_event (x : Delivery) (e : Event) : Delivery :=
  {| d_id := d_id x; d_org := d_org x; d_event_id := d_event_id x; d_channel := d_channel x;
     d_attempts := d_attempts x; d_state := d_state x; d_next_attempt_at := d_next_attempt_at x;
     d_created_at := d_created_at x; d_event := Some e |}.

(** The loop that joins each claimed delivery with its event. *)
Fixpoint join_events (l : list DeliveryRow) : Store (list Delivery) :=
  match l with
  | [] => ret []
  | r :: rest =>
      let* e := query (fun d => select1 (fun e => ev_id e =? dl_event r) (db_events d)) in
      match e with
      | None => throw ErrNotFound
      | Some e => let* out := join_events rest in ret (with_event (scanDelivery r) e :: out)
      end
  end.

(** [ClaimDueDeliveries]. [UPDATE ... RETURNING] has no order that SQLite
    promises; here the rows come in the order of their ids. *)
Definition ClaimDueDeliveries (now : Time) (lease hold : Duration) (limit : Z) : Store (list Delivery) := tx (
  let* claimed := query (claimable_rows now hold limit) in
  exec (on_deliveries (update_where (fun r => existsb (fun c => dl_id c =? dl_id r) claimed) (claim_delivery now lease))) ;;;
  let* out := join_events (map (claim_delivery now lease) claimed) in
  ret (Commit out)).

(** [MarkDeliveryDelivered]. *)
Definition MarkDeliveryDelivered (id : Z) : Store unit :=
  autocommit (exec (on_deliveries (update_where (is_delivery id) (fun r => dl_with_state r DeliveryDelivered)))).

(** [RescheduleDelivery]. *)
Definition RescheduleDelivery (id : Z) (nextAttemptAt : Time) : Store unit :=
  autocommit (exec (on_deliveries (update_where (fun r => is_delivery id r && pending r)
    (fun r => dl_schedule r (dl_attempts r) nextAttemptAt (dl_first_attempt_at r))))).

(** [FailDelivery]. *)
Definition FailDelivery (id : Z) : Store unit :=
  autocommit (exec (on_deliveries (update_where (is_delivery id) (fun r => dl_with_state r DeliveryFailed)))).

(** [FailDeliveryAndEmit]. *)
Definition FailDeliveryAndEmit (id : Z) (ev : Event) : Store unit := tx (
  let* n := query (fun d => count_where (fun r => is_delivery id r && pending r) (db_deliveries d)) in
  exec (on_deliveries (update_where (fun r => is_delivery id r && pending r) (fun r => dl_with_state r DeliveryFailed))) ;;;
  if n =? 0 then ret (Rollback tt)
  else emitEvent ev ;;; ret (Commit tt)).

(** ** Events and retention *)

(** [ListEvents]. *)
Definition ListEvents (org limit : Z) : Store (list Event) :=
  autocommit (query (fun d => select_desc (fun e => ev_org e =? org) (list_limit limit) (db_events d))).

(** The events [PruneEvents] keeps whatever their age. *)
Definition event_needed (d : DB) (e : Event) : bool :=
  exists_row (fun r => pending r && (dl_event r =? ev_id e)) (db_deliveries d)
  || existsb (fun '(_, r) => bool_decide (fa_held r = Some (ev_id e))) (map_to_list (db_alerts d)).

(** [PruneEvents]. *)
Definition prunable_event (before : Time) (d : DB) (e : Event) : bool :=
  (ev_created_at e <? before) && negb (event_needed d e).
Definition PruneEvents (before : Time) : Store Z := autocommit (
  let* n := query (fun d => count_where (prunable_event before d) (db_events d)) in
  exec (fun d => on_events (delete_where (prunable_event before d)) d) ;;;
  ret n).

(** [PruneJobRuns]. *)
Definition prunable_run (before : Time) (r : RunRow) : bool := (rr_created_at r <? before) && terminal (rr_status r).
Definition PruneJobRuns (before : Time) : Store Z := autocommit (
  let* n := query (fun d => count_where (prunable_run before) (db_runs d)) in
  exec (on_runs (delete_where (prunable_run before))) ;;;
  ret n).

(** [PruneDeliveries]. *)
Definition prunable_delivery (before : Time) (r : DeliveryRow) : bool := (dl_created_at r <? before) && negb (pending r).
Definition PruneDeliveries (before : Time) : Store Z := autocommit (
  let* n := query (fun d => count_where (prunable_delivery before) (db_deliveries d)) in
  exec (on_deliveries (delete_where (prunable_delivery before))) ;;;
  ret n).

(** [pruneHeartbeatPings]. *)
Definition prunable_ping (before : Time) (r : PingRow) : bool := p_created_at (pr_ping r) <? before.
Definition PruneHeartbeatPings (before : Time) : Store Z := autocommit (
  let* n := query (fun d => count_where (prunable_ping before) (db_pings d)) in
  exec (on_pings (delete_where (prunable_ping before))) ;;;
  ret n).

End Deliveries.
