(* ===== verification/StoreConfig.v ===== *)
(** * Channels, rules, secrets and identities in the store ([internal/store/sqlite.go], [pings.go])

    The rows an operator configures: notification channels and rules, secrets,
    users, memberships, API tokens, the default org and the orgs' ping keys. *)
From S2P Require Import Prelude GoTime Domain Sql Schema StoreEvents StoreRuns.
From stdpp Require Import sorting.
Open Scope Z_scope.

Section Config.
Context `{World} `{JSONText}.

(** ** Channels and rules *)

Definition is_channel (org id : Z) (r : ChannelRow) : bool := (ch_org (cr_channel r) =? org) && (cr_id r =? id).
Definition channel_named (org : Z) (name : string) (r : ChannelRow) : bool :=
  (ch_org (cr_channel r) =? org) && String.eqb (ch_name (cr_channel r)) name.

(** [nullIfEmpty]. *)
Definition nullIfEmpty (s : string) : option string := if String.eqb s "" then None else Some s.

Definition new_channel (c : Channel) (config : string) (id : Z) (created : Time) : ChannelRow :=
  {| cr_channel := {| ch_id := id; ch_org := ch_org c; ch_name := ch_name c; ch_kind := ch_kind c; ch_created_at := created |};
     cr_config := nullIfEmpty config |}.

(** [CreateChannel]: an upsert by (org, name). *)
Definition CreateChannel (c : Channel) (config : string) : Store Z := autocommit (
  let* now := now_ in
  let* old := query (fun d => select1 (channel_named (ch_org c) (ch_name c)) (db_channels d)) in
  match old with
  | Some r =>
      exec (on_channels draw) ;;;
      exec (on_channels (update_where (is_channel (ch_org c) (cr_id r))
        (fun r => new_channel c config (cr_id r) (ch_created_at (cr_channel r))))) ;;;
      ret (cr_id r)
  | None =>
      let* id := query (fun d => next_id (db_channels d)) in
      exec (on_channels (insert_row (fun i => new_channel c config i now))) ;;;
      ret id
  end).

(** [GetChannel] and [ListChannels]. *)
Definition GetChannel (org id : Z) : Store (Channel * string) :=
  let* r := autocommit (query (fun d => select1 (is_channel org id) (db_channels d))) in
  match r with None => throw ErrNotFound | Some r => ret (cr_channel r, default ("" : string) (cr_config r)) end.
Definition ListChannels (org : Z) : Store (list Channel) :=
  autocommit (query (fun d => map cr_channel (select (fun r => ch_org (cr_channel r) =? org) (db_channels d)))).

(** [DeleteChannel]. *)
Definition DeleteChannel (org id : Z) : Store unit := tx (
  exec (on_rules (delete_where (fun r => (rw_org r =? org) && (rw_channel r =? id)))) ;;;
  deleteAlertStates org fst id ;;;
  exec (on_deliveries (update_where
    (fun r => (dl_org r =? org) && (dl_channel r =? id) && bool_decide (dl_state r = DeliveryPending))
    (fun r => dl_with_state r DeliveryFailed))) ;;;
  exec (on_channels (delete_where (is_channel org id))) ;;;
  ret (Commit tt)).

Definition same_rule (r : Rule) (x : RuleRow) : bool :=
  (rw_org x =? ru_org r) && (rw_channel x =? ru_channel r) && String.eqb (rw_event_type x) (ru_event_type r)
  && (rw_job x =? ru_job r).

(** [CreateRule]: an upsert by (org, channel, event type, job). *)
Definition CreateRule (r : Rule) : Store Z := autocommit (
  let* now := now_ in
  let row i created := {| rw_id := i; rw_org := ru_org r; rw_channel := ru_channel r; rw_event_type := ru_event_type r;
                          rw_enabled := ru_enabled r; rw_created_at := created; rw_job := ru_job r;
                          rw_repeat_seconds := repeatSeconds (ru_repeat r) |} in
  let* old := query (fun d => select1 (same_rule r) (db_rules d)) in
  match old with
  | Some x => exec (on_rules draw) ;;; exec (on_rules (update_where (same_rule r) (fun x => row (rw_id x) (rw_created_at x)))) ;;; ret (rw_id x)
  | None =>
      let* id := query (fun d => next_id (db_rules d)) in
      exec (on_rules (insert_row (fun i => row i now))) ;;;
      ret id
  end).

(** [ListRules], [DeleteRule] and [MatchingRules]. *)
Definition ListRules (org : Z) : Store (list Rule) :=
  autocommit (query (fun d => map scanRule (select (fun r => rw_org r =? org) (db_rules d)))).
Definition DeleteRule (org id : Z) : Store unit :=
  autocommit (exec (on_rules (delete_where (fun r => (rw_org r =? org) && (rw_id r =? id))))).
Definition MatchingRules (org : Z) (typ : string) (jobID : Z) : Store (list Rule) :=
  autocommit (query (fun d => map scanRule (select (routes org typ jobID) (db_rules d)))).

(** ** Secrets *)

Definition secret_named (org : Z) (name : string) (r : SecretRow) : bool := (se_org r =? org) && String.eqb (se_name r) name.

(** [PutSecret]: an upsert by (org, name). *)
Definition PutSecret (org : Z) (name ciphertext : string) : Store unit := autocommit (
  let* now := now_ in
  let row i created := {| se_id := i; se_org := org; se_name := name; se_ciphertext := ciphertext;
                          se_created_at := created; se_updated_at := now |} in
  let* old := query (fun d => exists_row (secret_named org name) (db_secrets d)) in
  if old : bool then exec (on_secrets draw) ;;; exec (on_secrets (update_where (secret_named org name) (fun r => row (se_id r) (se_created_at r))))
  else exec (on_secrets (insert_row (fun i => row i now)))).

(** [GetSecret]. *)
Definition GetSecret (org : Z) (name : string) : Store string :=
  let* r := autocommit (query (fun d => select1 (secret_named org name) (db_secrets d))) in
  match r with None => throw ErrNotFound | Some r => ret (se_ciphertext r) end.

Record SecretMeta := { sm_name : string; sm_created_at : Time }.
Definition secret_le (a b : SecretRow) : Prop := is_Some (if String.leb (se_name a) (se_name b) then Some tt else None).
#[export] Instance secret_le_dec a b : Decision (secret_le a b).
Proof. unfold secret_le. destruct (String.leb _ _); [left|right]; [by eexists|by intros []]. Defined.

(** [scanSecretMeta] and [ListSecrets]: names and creation times, never the ciphertext. *)
Definition scanSecretMeta (r : SecretRow) : SecretMeta := {| sm_name := se_name r; sm_created_at := se_created_at r |}.
Definition ListSecrets (org : Z) : Store (list SecretMeta) :=
  autocommit (query (fun d => map scanSecretMeta
    (merge_sort secret_le (select (fun r => se_org r =? org) (db_secrets d))))).

(** ** Identities *)

(** [CreateUser], [GetUserByEmail] and [GetUserByID]. *)
Definition user_with_email (org : Z) (email : string) (u : User) : bool := (u_org u =? org) && String.eqb (u_email u) email.
Definition CreateUser (u : User) : Store Z := autocommit (
  let* now := now_ in
  let* taken := query (fun d => exists_row (user_with_email (u_org u) (u_email u)) (db_users d)) in
  if taken : bool then throw ErrConstraint
  else
    let* id := query (fun d => next_id (db_users d)) in
    exec (on_users (insert_row (fun i => {| u_id := i; u_org := u_org u; u_email := u_email u;
                                             u_password_hash := u_password_hash u; u_created_at := now |}))) ;;;
    ret id).
Definition get_user (p : User -> bool) : Store User :=
  let* r := autocommit (query (fun d => select1 p (db_users d))) in
  match r with None => throw ErrNotFound | Some u => ret u end.
Definition GetUserByEmail (org : Z) (email : string) : Store User := get_user (user_with_email org email).
Definition GetUserByID (org id : Z) : Store User := get_user (fun u => (u_org u =? org) && (u_id u =? id)).

(** [CreateMembership] and [GetMembership]. *)
Definition membership_of (org user : Z) (m : Membership) : bool := (m_org m =? org) && (m_user m =? user).
Definition CreateMembership (m : Membership) : Store Z := autocommit (
  let* now := now_ in
  let* taken := query (fun d => exists_row (membership_of (m_org m) (m_user m)) (db_memberships d)) in
  if taken : bool then throw ErrConstraint
  else
    let* id := query (fun d => next_id (db_memberships d)) in
    exec (on_memberships (insert_row (fun i => {| m_id := i; m_org := m_org m; m_user := m_user m; m_role := m_role m;
                                                   m_created_at := now |}))) ;;;
    ret id).
Definition GetMembership (org user : Z) : Store Membership :=
  let* r := autocommit (query (fun d => select1 (membership_of org user) (db_memberships d))) in
  match r with None => throw ErrNotFound | Some m => ret m end.

(** [CreateToken]: the hash is unique over all orgs. *)
Definition CreateToken (t : APIToken) : Store Z := autocommit (
  let* now := now_ in
  let* taken := query (fun d => exists_row (fun x => String.eqb (tk_hash x) (tk_hash t)) (db_tokens d)) in
  if taken : bool then throw ErrConstraint
  else
    let* id := query (fun d => next_id (db_tokens d)) in
    exec (on_tokens (insert_row (fun i => {| tk_id := i; tk_org := tk_org t; tk_name := tk_name t; tk_hash := tk_hash t;
                                              tk_created_at := now |}))) ;;;
    ret id).

(** [AuthenticateToken]. *)
Definition AuthenticateToken (hash : string) : Store (Z * string) :=
  let* r := autocommit (query (fun d => select1 (fun t => String.eqb (tk_hash t) hash) (db_tokens d))) in
  match r with None => throw ErrNotFound | Some t => ret (tk_org t, tk_name t) end.

(** [scanTokenMeta] and [ListTokens]: the hash is not read. *)
Definition scanTokenMeta (t : APIToken) : APIToken :=
  {| tk_id := tk_id t; tk_org := tk_org t; tk_name := tk_name t; tk_hash := ""; tk_created_at := tk_created_at t |}.
Definition ListTokens (org : Z) : Store (list APIToken) :=
  autocommit (query (fun d => map scanTokenMeta (select (fun t => tk_org t =? org) (db_tokens d)))).

(** [DeleteToken]. *)
Definition DeleteToken (org id : Z) : Store unit :=
  autocommit (exec (on_tokens (delete_where (fun t => (tk_org t =? org) && (tk_id t =? id))))).

(** ** Orgs *)

(** [BootstrapDefaultOrg]: an insert that does nothing when the org is there, then a read. *)
Definition default_org (r : OrgRow) : bool := String.eqb (o_name (or_org r)) "default".
Definition BootstrapDefaultOrg : Store Org :=
  autocommit (
    let* now := now_ in
    let* old := query (fun d => exists_row default_org (db_orgs d)) in
    if old : bool then exec (on_orgs draw)
    else exec (on_orgs (insert_row (fun i =>
      {| or_org := {| o_id := i; o_name := "default"; o_created_at := now |}; or_ping_key := None |})))) ;;;
  let* r := autocommit (query (fun d => select1 default_org (db_orgs d))) in
  match r with None => throw ErrDatabase | Some r => ret (or_org r) end.

(** [setOrgPingKey], [getOrgPingKey] and [orgByPingKey]. A key another org
    holds violates the unique index. *)
Definition is_org (id : Z) (r : OrgRow) : bool := or_id r =? id.
Definition SetOrgPingKey (org : Z) (key : string) : Store unit := autocommit (
  let* taken := query (fun d => negb (String.eqb key "") && exists_row (is_org org) (db_orgs d)
    && exists_row (fun r => bool_decide (or_ping_key r = Some key) && negb (is_org org r)) (db_orgs d)) in
  if taken : bool then throw ErrConstraint
  else
    let* n := query (fun d => count_where (is_org org) (db_orgs d)) in
    exec (on_orgs (update_where (is_org org) (fun r => {| or_org := or_org r; or_ping_key := nullIfEmpty key |}))) ;;;
    if n =? 0 then throw ErrNotFound else ret tt).
Definition GetOrgPingKey (org : Z) : Store string :=
  let* r := autocommit (query (fun d => select1 (is_org org) (db_orgs d))) in
  match r with None => throw ErrNotFound | Some r => ret (default ("" : string) (or_ping_key r)) end.
Definition OrgByPingKey (key : string) : Store Z :=
  if String.eqb key "" then throw ErrNotFound
  else
    let* r := autocommit (query (fun d => select1 (fun r => bool_decide (or_ping_key r = Some key)) (db_orgs d))) in
    match r with None => throw ErrNotFound | Some r => ret (or_id r) end.

End Config.
