(* ===== verification/StoreInterface.v ===== *)
(** * The store as its callers see it ([internal/store/store.go])

    The [Store] interface, by its sections, and the SQLite store as an
    instance of it; [OpenStore] has PostgreSQL's. [Migrate] is [Migrations]',
    [ReclaimSpace] is [Reclaim]'s; [Close] releases the handle. *)
From S2P Require Import Prelude GoTime Domain Heartbeat Sql Schema StoreEvents StoreRuns StoreHeartbeats StoreDeliveries StoreConfig.
Open Scope Z_scope.

(** ** The sections of the interface *)

Class TenancyStore := {
  s_BootstrapDefaultOrg : Store Org;
  s_SetOrgPingKey : Z -> string -> Store unit;
  s_GetOrgPingKey : Z -> Store string;
  s_OrgByPingKey : string -> Store Z }.

Class JobStore := {
  s_CreateJob : Job -> Store Z;
  s_GetJob : Z -> Z -> Store Job;
  s_GetJobByName : Z -> string -> Store Job;
  s_ListJobs : Z -> Store (list Job * list Unreadable);
  s_UpdateJob : Job -> Store unit;
  s_DeleteJob : Z -> Z -> Store unit;
  s_DueJobs : Time -> Store (list Job * list Unreadable);
  s_FailUnreadableJob : Z -> Z -> string -> bytes -> Store Event }.

Class RunStore := {
  s_EnqueueRun : Z -> Z -> Store Z;
  s_ClaimRun : string -> Store (option Run);
  s_FinishRun : Z -> RunStatus -> Z -> bytes -> Store unit;
  s_FinishRunAndEmit : Z -> RunStatus -> Z -> Z -> bytes -> Event -> Store Z;
  s_GetRun : Z -> Z -> Store Run;
  s_ListRuns : Z -> Z -> Z -> Store (list Run);
  s_RequeueOrphanedRuns : Store Z;
  s_ListRunningRuns : Store (list Run);
  s_ReapStaleRun : Z -> bytes -> Event -> Store bool }.

Class SecretStore := {
  s_PutSecret : Z -> string -> string -> Store unit;
  s_GetSecret : Z -> string -> Store string;
  s_ListSecrets : Z -> Store (list SecretMeta) }.

Class AuthStore := {
  s_CreateUser : User -> Store Z;
  s_GetUserByEmail : Z -> string -> Store User;
  s_GetUserByID : Z -> Z -> Store User;
  s_CreateMembership : Membership -> Store Z;
  s_GetMembership : Z -> Z -> Store Membership;
  s_CreateToken : APIToken -> Store Z;
  s_AuthenticateToken : string -> Store (Z * string);
  s_ListTokens : Z -> Store (list APIToken);
  s_DeleteToken : Z -> Z -> Store unit }.

Class EventStore := {
  s_EmitEvent : Event -> Store Z;
  s_ListEvents : Z -> Z -> Store (list Event);
  s_PruneEvents : Time -> Store Z;
  s_PruneJobRuns : Time -> Store Z;
  s_PruneDeliveries : Time -> Store Z;
  s_PruneHeartbeatPings : Time -> Store Z }.

Class DeliveryStore := {
  s_ClaimDueDeliveries : Time -> Duration -> Duration -> Z -> Store (list Delivery);
  s_ReleaseHeldAlerts : Time -> Store (Z * list Err);
  s_MarkDeliveryDelivered : Z -> Store unit;
  s_RescheduleDelivery : Z -> Time -> Store unit;
  s_FailDelivery : Z -> Store unit;
  s_FailDeliveryAndEmit : Z -> Event -> Store unit }.

Class ChannelStore := {
  s_CreateChannel : Channel -> string -> Store Z;
  s_GetChannel : Z -> Z -> Store (Channel * string);
  s_ListChannels : Z -> Store (list Channel);
  s_DeleteChannel : Z -> Z -> Store unit;
  s_CreateRule : Rule -> Store Z;
  s_ListRules : Z -> Store (list Rule);
  s_DeleteRule : Z -> Z -> Store unit;
  s_MatchingRules : Z -> string -> Z -> Store (list Rule) }.

Class HeartbeatStore := {
  s_CreateHeartbeat : Heartbeat -> Store (Z * string);
  s_CreateHeartbeatIfAbsent : Heartbeat -> Store (string * bool);
  s_ListHeartbeats : Z -> Store (list Heartbeat);
  s_GetHeartbeatByName : Z -> string -> Store Heartbeat;
  s_GetHeartbeat : Z -> Z -> Store Heartbeat;
  s_ListHeartbeatEvents : Z -> string -> Z -> Store (list Event);
  s_DeleteHeartbeat : Z -> Z -> Store unit;
  s_RecordPing : string -> Time -> Store (Z * string * bool);
  s_RecordHeartbeatPing : string -> PingInput -> Time -> Store PingResult;
  s_ListHeartbeatPings : Z -> Z -> Z -> Store (list Ping);
  s_DueHeartbeats : Time -> Store (list Heartbeat);
  s_SetHeartbeatStatus : Z -> HbStatus -> Store unit;
  s_SetHeartbeatStatusIf : Z -> HbStatus -> HbStatus -> Time -> Store bool;
  s_SetHeartbeatStatusIfAndEmit : Z -> HbStatus -> HbStatus -> Time -> Event -> Store bool;
  s_MarkHeartbeatDownAndEmit : Heartbeat -> Event -> Store bool }.

Class Storage := {
  storage_tenancy :: TenancyStore; storage_jobs :: JobStore; storage_runs :: RunStore; storage_secrets :: SecretStore;
  storage_auth :: AuthStore; storage_events :: EventStore; storage_deliveries :: DeliveryStore; storage_channels :: ChannelStore;
  storage_heartbeats :: HeartbeatStore }.

(** ** SQLite *)

Section SQLite.
Context `{World} `{JSONText}.

Definition sqlite_tenancy : TenancyStore := {|
  s_BootstrapDefaultOrg := BootstrapDefaultOrg; s_SetOrgPingKey := SetOrgPingKey; s_GetOrgPingKey := GetOrgPingKey; s_OrgByPingKey := OrgByPingKey |}.
Definition sqlite_jobs : JobStore := {|
  s_CreateJob := CreateJob; s_GetJob := GetJob; s_GetJobByName := GetJobByName; s_ListJobs := ListJobs; s_UpdateJob := UpdateJob;
  s_DeleteJob := DeleteJob; s_DueJobs := DueJobs; s_FailUnreadableJob := FailUnreadableJob |}.
Definition sqlite_runs : RunStore := {|
  s_EnqueueRun := EnqueueRun; s_ClaimRun := ClaimRun; s_FinishRun := FinishRun; s_FinishRunAndEmit := FinishRunAndEmit; s_GetRun := GetRun;
  s_ListRuns := ListRuns; s_RequeueOrphanedRuns := RequeueOrphanedRuns; s_ListRunningRuns := ListRunningRuns; s_ReapStaleRun := ReapStaleRun |}.
Definition sqlite_secrets : SecretStore := {| s_PutSecret := PutSecret; s_GetSecret := GetSecret; s_ListSecrets := ListSecrets |}.
Definition sqlite_auth : AuthStore := {|
  s_CreateUser := CreateUser; s_GetUserByEmail := GetUserByEmail; s_GetUserByID := GetUserByID; s_CreateMembership := CreateMembership;
  s_GetMembership := GetMembership; s_CreateToken := CreateToken; s_AuthenticateToken := AuthenticateToken; s_ListTokens := ListTokens;
  s_DeleteToken := DeleteToken |}.
Definition sqlite_events : EventStore := {|
  s_EmitEvent := EmitEvent; s_ListEvents := ListEvents; s_PruneEvents := PruneEvents; s_PruneJobRuns := PruneJobRuns;
  s_PruneDeliveries := PruneDeliveries; s_PruneHeartbeatPings := PruneHeartbeatPings |}.
Definition sqlite_deliveries : DeliveryStore := {|
  s_ClaimDueDeliveries := ClaimDueDeliveries; s_ReleaseHeldAlerts := releaseHeld; s_MarkDeliveryDelivered := MarkDeliveryDelivered;
  s_RescheduleDelivery := RescheduleDelivery; s_FailDelivery := FailDelivery; s_FailDeliveryAndEmit := FailDeliveryAndEmit |}.
Definition sqlite_channels : ChannelStore := {|
  s_CreateChannel := CreateChannel; s_GetChannel := GetChannel; s_ListChannels := ListChannels; s_DeleteChannel := DeleteChannel;
  s_CreateRule := CreateRule; s_ListRules := ListRules; s_DeleteRule := DeleteRule; s_MatchingRules := MatchingRules |}.
Definition sqlite_heartbeats : HeartbeatStore := {|
  s_CreateHeartbeat := CreateHeartbeat; s_CreateHeartbeatIfAbsent := CreateHeartbeatIfAbsent; s_ListHeartbeats := ListHeartbeats;
  s_GetHeartbeatByName := GetHeartbeatByName; s_GetHeartbeat := GetHeartbeat; s_ListHeartbeatEvents := ListHeartbeatEvents;
  s_DeleteHeartbeat := DeleteHeartbeat; s_RecordPing := RecordPing; s_RecordHeartbeatPing := RecordHeartbeatPing;
  s_ListHeartbeatPings := ListHeartbeatPings; s_DueHeartbeats := DueHeartbeats; s_SetHeartbeatStatus := SetHeartbeatStatus;
  s_SetHeartbeatStatusIf := SetHeartbeatStatusIf; s_SetHeartbeatStatusIfAndEmit := SetHeartbeatStatusIfAndEmit;
  s_MarkHeartbeatDownAndEmit := MarkHeartbeatDownAndEmit |}.

(** The assertion that [SQLiteStore] is a [Store]. *)
#[export] Instance sqlite_storage : Storage := {|
  storage_tenancy := sqlite_tenancy; storage_jobs := sqlite_jobs; storage_runs := sqlite_runs; storage_secrets := sqlite_secrets;
  storage_auth := sqlite_auth; storage_events := sqlite_events; storage_deliveries := sqlite_deliveries; storage_channels := sqlite_channels;
  storage_heartbeats := sqlite_heartbeats |}.

End SQLite.
