(* ===== verification/PingApi.v ===== *)
(** * The ping API ([internal/httpserver/ping.go])

    What a ping URL asks for ([parsePing]), what of its body is logged
    ([readPingBody]), and the handler that records it ([handlePing],
    [resolveSlug]) with its rate limits. *)
From S2P Require Import Prelude GoTime Domain Heartbeat Tail Utf8 Failure Redact Capture GoStrings Sql Schema StoreEvents StoreHeartbeats StoreConfig.
Open Scope Z_scope.

(** ** The URL *)

Definition DefaultPingBodyLimit : Z := 10000.
Definition MaxPingBodyLimit : Z := 100000.
Definition PingBodyTruncated : bytes := nl :: bstr "... [ping body truncated]".

(** [pingRequest]: by token, or by the org's ping key and the heartbeat's name. *)
Record pingRequest := { rq_token : bytes; rq_key : bytes; rq_slug : bytes; rq_create : bool; rq_in : PingInput }.

Inductive pingError := errPingURL | errPingRID | errPingNotFound.

Definition plain_input (k : PingKind) (exit : option Z) : PingInput :=
  {| in_kind := k; in_exit_status := exit; in_rid := ""; in_body := [] |}.

(** [normalizeToken]. *)
Definition normalizeToken (token : bytes) : bytes := default token (CanonicalUUID token).

(** [pingAction]: the ping, no ping, or an exit status out of range. *)
Definition pingAction (seg : bytes) : option PingInput + pingError :=
  if bool_decide (seg = bstr "start") then inl (Some (plain_input PingStart None))
  else if bool_decide (seg = bstr "fail") then inl (Some (plain_input PingFail None))
  else if bool_decide (seg = bstr "log") then inl (Some (plain_input PingLog None))
  else if is_nil seg || negb (is_nil (TrimSet is_digit seg)) then inl None
  else
    match Atoi seg with
    | None => inr errPingURL
    | Some n =>
        if 255 <? n then inr errPingURL
        else inl (Some (plain_input (if n =? 0 then PingSuccess else PingFail) (Some n)))
    end.

Definition slash : ascii := "/".

(** The loop that unescapes the segments: none may be empty or malformed. *)
Fixpoint unescape_all (segs : list bytes) : option (list bytes) :=
  match segs with
  | [] => Some []
  | seg :: r =>
      match PathUnescape seg with
      | Some (c :: u) => cons (c :: u) <$> unescape_all r
      | _ => None
      end
  end.

Definition by_token (token : bytes) (i : PingInput) : pingRequest :=
  {| rq_token := normalizeToken token; rq_key := []; rq_slug := []; rq_create := false; rq_in := i |}.
Definition by_slug (key slug : bytes) (i : PingInput) : pingRequest :=
  {| rq_token := []; rq_key := key; rq_slug := slug; rq_create := false; rq_in := i |}.

(** The [switch] on the number of segments. *)
Definition ping_of_segments (segs : list bytes) : pingRequest + pingError :=
  let success := plain_input PingSuccess None in
  match segs with
  | [a] => inl (by_token a success)
  | [a; b] =>
      match pingAction b with
      | inr e => inr e
      | inl (Some i) => inl (by_token a i)
      | inl None => inl (by_slug a b success)
      end
  | [a; b; c] =>
      match pingAction c with
      | inr e => inr e
      | inl None => inr errPingNotFound
      | inl (Some i) => inl (by_slug a b i)
      end
  | _ => inr errPingNotFound
  end.

Definition with_rid (i : PingInput) (rid : string) : PingInput :=
  {| in_kind := in_kind i; in_exit_status := in_exit_status i; in_rid := rid; in_body := in_body i |}.
Definition with_body (i : PingInput) (body : bytes) : PingInput :=
  {| in_kind := in_kind i; in_exit_status := in_exit_status i; in_rid := in_rid i; in_body := body |}.

(** The first value of a query parameter. A parsed query has at least one
    value for each name it has. *)
Definition first_value (query : gmap string (list bytes)) (name : string) : option bytes := query !! name ≫= head.

(** [parsePing]. *)
Definition parsePing (escapedPath : bytes) (query : gmap string (list bytes)) : pingRequest + pingError :=
  let path := trim_suffix escapedPath [slash] in
  let segs := Split slash path in
  if is_nil path || (3 <? List.length segs)%nat then inr errPingNotFound
  else
    match unescape_all segs with
    | None => inr errPingNotFound
    | Some segs =>
        match ping_of_segments segs with
        | inr e => inr e
        | inl req =>
            let create := negb (is_nil (rq_key req)) && bool_decide (first_value query "create" = Some (bstr "1")) in
            match first_value query "rid" with
            | None => inl {| rq_token := rq_token req; rq_key := rq_key req; rq_slug := rq_slug req;
                             rq_create := create; rq_in := rq_in req |}
            | Some rid =>
                match CanonicalUUID rid with
                | None => inr errPingRID
                | Some rid => inl {| rq_token := rq_token req; rq_key := rq_key req; rq_slug := rq_slug req;
                                     rq_create := create; rq_in := with_rid (rq_in req) (str rid) |}
                end
            end
        end
    end.

(** [validSlug]. *)
Definition slug_char (c : ascii) : bool :=
  let n := byte_val c in
  ((97 <=? n) && (n <=? 122)) || is_digit c || Ascii.eqb c "-" || Ascii.eqb c "_".
Definition validSlug (s : bytes) : bool := negb (is_nil s || (100 <? List.length s)%nat) && forallb slug_char s.

(** ** The body *)

Section Body.
Local Open Scope nat_scope.

(** [asciiEqualFold], of texts of equal length. *)
Definition asciiEqualFold (a b : bytes) : bool := bool_decide (map to_lower a = map to_lower b).

(** [redactCredential]. *)
Definition redactCredential (s cred : bytes) : bytes :=
  if is_nil cred then s
  else match CanonicalUUID cred with
       | None => ReplaceAll s cred stars
       | Some _ =>
           replace_matches (fun t => (List.length cred <=? List.length t) && asciiEqualFold (take (List.length cred) t) cred)
             (List.length cred) stars O s
       end.

(** The inner loop of [dropCredentialPrefix]. *)
Fixpoint drop_prefix_of (s c : bytes) (n : nat) : bytes :=
  match n with
  | O => s
  | S k => if asciiEqualFold (drop (List.length s - n) s) (take n c) then take (List.length s - n) s else drop_prefix_of s c k
  end.

(** [dropCredentialPrefix]. *)
Definition dropCredentialPrefix (s : bytes) (creds : list bytes) : bytes :=
  fold_left (fun s c => drop_prefix_of s c (Nat.min (List.length c - 1) (List.length s))) creds s.

(** A request body: its bytes, and whether reading past them fails. *)
Record Body := { bd_content : bytes; bd_fails : bool }.

(** [io.ReadAll] of [io.LimitReader]. *)
Definition read_limited (b : Body) (n : nat) : option bytes :=
  if (List.length (bd_content b) <? n) && bd_fails b then None else Some (take n (bd_content b)).

Definition UTFMax : nat := 4.

Definition body_slack (creds : list bytes) : nat := fold_left (fun m c => Nat.max m (List.length c + UTFMax)) creds UTFMax.

(** What [readPingBody] reads of a body, as plain text, and whether it was cut. *)
Definition body_text (b : Body) (limit : nat) (creds : list bytes) : option (bytes * bool) :=
  let slack := body_slack creds in
  match read_limited b (limit + slack + 1) with
  | None => None
  | Some raw =>
      let cutRaw := limit + slack <? List.length raw in
      Some (cleanOutput (if cutRaw then trimPartialRune (take (limit + slack) raw) else raw), cutRaw)
  end.

(** [readPingBody]; [None] when reading the body fails. *)
Definition readPingBody (b : option Body) (post : bool) (limit : nat) (creds : list bytes) : option bytes :=
  match b with
  | None => Some []
  | Some b =>
      if negb post || (limit =? 0) then Some []
      else
        match body_text b limit creds with
        | None => None
        | Some (s, cutRaw) =>
            let s := if cutRaw then dropCredentialPrefix s creds else s in
            let s := fold_left redactCredential creds s in
            let '(s, truncated) :=
              if limit <? List.length s then (dropCredentialPrefix (take (back_to_rune s limit) s) creds, true) else (s, cutRaw) in
            Some (if truncated then s ++ PingBodyTruncated else s)
        end
  end.

End Body.

(** ** What a logged body shows *)

Section Shows.
Local Open Scope nat_scope.

(** How a credential is compared: in either letter case when it is a UUID. *)
Definition cred_fold (c : bytes) : ascii -> ascii := match CanonicalUUID c with None => id | Some _ => to_lower end.

(** Credential [c] at the front of [t]. *)
Definition cred_at (c t : bytes) : bool :=
  (List.length c <=? List.length t) && bool_decide (map (cred_fold c) (take (List.length c) t) = map (cred_fold c) c).

(** [s] shows the credential somewhere. *)
Definition shows (c s : bytes) : Prop := exists i, cred_at c (drop i s) = true.

(** A credential that has no [x] in it. *)
Definition cred_free (x : ascii) (c : bytes) : Prop := (x ∉ map (cred_fold c) c) /\ cred_fold c x = x.

Lemma cred_at_spec c t : cred_at c t = true <->
  List.length c <= List.length t /\ map (cred_fold c) (take (List.length c) t) = map (cred_fold c) c.
Proof. unfold cred_at. rewrite andb_true_iff, Nat.leb_le, bool_decide_eq_true. done. Qed.

Lemma redactCredential_eq s c : c <> [] -> redactCredential s c = replace_matches (cred_at c) (List.length c) stars 0 s.
Proof.
  intros Hc. assert (E : forall m m', (forall t, m t = m' t) -> forall n rep k t, replace_matches m n rep k t = replace_matches m' n rep k t).
  { intros m m' Hm n rep k t. revert k. induction t as [|x t IH]; intros k; simpl; [done|]. rewrite Hm. destruct k; [|apply IH].
    destruct (m' _); by rewrite IH. }
  unfold redactCredential. destruct c as [|x c]; [done|]. cbn [is_nil]. unfold cred_at, cred_fold.
  destruct (CanonicalUUID (x :: c)).
  - apply E. intros t. unfold asciiEqualFold. done.
  - apply E. intros t. unfold has_prefix. apply eq_true_iff_eq. rewrite andb_true_iff, Nat.leb_le, !bool_decide_eq_true, !map_id.
    split; [|tauto]. intros Et. split; [|done]. apply (f_equal List.length) in Et. rewrite length_take in Et. lia.
Qed.

(** A stretch of the output without stars is a stretch of the input. *)
Lemma replace_prefix m n s : forall j, (forall x, x ∈ take j (replace_matches m n stars 0 s) -> x <> "*"%char) ->
  j <= List.length (replace_matches m n stars 0 s) ->
  take j (replace_matches m n stars 0 s) = take j s /\ j <= List.length s.
Proof.
  induction s as [|y s IH]; intros [|j] Hf Hl; simpl in *; try (split; [done|lia]).
  destruct (m (y :: s)).
  - exfalso. apply (Hf "*"%char); [simpl; left|done].
  - simpl in *. destruct (IH j) as [E Hj]; [intros x Hx; apply Hf; by right|lia|]. rewrite E. split; [done|lia].
Qed.

Lemma cred_at_head c x t : c <> [] -> cred_free "*" c -> cred_at c (x :: t) = true -> x <> "*"%char.
Proof.
  intros Hc [Hs Hf] [Hl E]%cred_at_spec Ex. subst x. destruct c as [|y c]; [done|]. simpl in E. injection E as E _. apply Hs. rewrite Hf in E. simpl. rewrite <- E. left.
Qed.

(** Replacing matches leaves no credential that was not shown before, nor one
    that is matched. *)
Lemma replace_hides c m n s : c <> [] -> cred_free "*" c ->
  (forall i, m (drop i s) = false -> cred_at c (drop i s) = false) ->
  forall k, ~ shows c (replace_matches m n stars k s).
Proof.
  intros Hc Hs. induction s as [|y s IH]; intros Hm k; [intros [i Hi]; simpl in Hi; rewrite drop_nil in Hi; apply cred_at_spec in Hi as [Hl _]; destruct c; [done|simpl in Hl; lia]|].
  assert (IH' : forall k, ~ shows c (replace_matches m n stars k s)) by (apply IH; intros i; apply (Hm (S i))). clear IH.
  simpl. destruct k as [|k]; [|apply IH']. destruct (m (y :: s)) eqn:Em.
  - intros [i Hi]. destruct i as [|[|[|i]]]; simpl in Hi; try (apply cred_at_head in Hi; done). apply (IH' (n - 1)). by exists i.
  - intros [[|i] Hi]; [|apply (IH' 0); by exists i]. simpl in Hi.
    assert (cred_at c (y :: s) = true) as Hx; [|specialize (Hm 0 Em); simpl in Hm; congruence].
    apply cred_at_spec in Hi as [Hl E]. destruct c as [|z c]; [done|]. simpl in Hl, E. injection E as E0 E.
    destruct (replace_prefix m n s (List.length c)) as [Et Hj]; [|lia|].
    + intros x Hx ->. destruct Hs as [Hs Hf]. apply Hs. simpl. right. rewrite <- E. apply elem_of_map. exists "*"%char. by rewrite Hf.
    + apply cred_at_spec. simpl. split; [lia|]. rewrite <- Et, E0, E. done.
Qed.

Lemma shows_take c s k : shows c (take k s) -> shows c s.
Proof.
  intros [i Hi]. exists i. apply cred_at_spec in Hi as [Hl E]. rewrite length_drop, length_take in Hl. apply cred_at_spec.
  rewrite length_drop. split; [lia|]. rewrite <- E. rewrite skipn_firstn_comm, take_take. do 2 f_equal. lia.
Qed.

Lemma shows_app c s t : c <> [] -> cred_free nl c -> shows c (s ++ nl :: t) -> shows c s \/ shows c (nl :: t).
Proof.
  intros Hc [Hn Hf] [i Hi]. destruct (Nat.le_gt_cases (List.length s) i) as [Hle|Hlt].
  { right. exists (i - List.length s). by rewrite drop_app_ge in Hi. }
  apply cred_at_spec in Hi as [Hl E]. rewrite drop_app_le in Hl, E by lia. rewrite length_app, length_drop in Hl. simpl in Hl.
  destruct (Nat.le_gt_cases (i + List.length c) (List.length s)) as [Hin|Hout].
  - left. exists i. apply cred_at_spec. rewrite length_drop. split; [lia|]. rewrite <- E, take_app_le; [done|rewrite length_drop; lia].
  - exfalso. apply Hn. rewrite <- E. apply elem_of_map. exists nl. split; [|done]. rewrite take_app_ge by (rewrite length_drop; lia).
    apply elem_of_app. right. rewrite length_drop. destruct (List.length c - (List.length s - i)) eqn:En; [lia|]. simpl. left.
Qed.

Lemma dropCredentialPrefix_take s creds : exists k, dropCredentialPrefix s creds = take k s.
Proof.
  unfold dropCredentialPrefix. revert s. induction creds as [|c creds IH]; intros s; simpl; [exists (List.length s); by rewrite firstn_all|].
  assert (Hd : forall n, exists k, drop_prefix_of s c n = take k s).
  { induction n as [|n [k Hk]]; cbn [drop_prefix_of]; [exists (List.length s); by rewrite firstn_all|]. case_match; [by eexists|by exists k]. }
  destruct (Hd (Nat.min (List.length c - 1) (List.length s))) as [k ->]. destruct (IH (take k s)) as [k' ->]. rewrite take_take. by eexists.
Qed.

Lemma redactCredential_hides c d s : c <> [] -> cred_free "*" c -> c = d \/ ~ shows c s -> ~ shows c (redactCredential s d).
Proof.
  intros Hc Hs Hd. destruct d as [|x d].
  - destruct Hd as [->|Hd]; [done|]. exact Hd.
  - rewrite redactCredential_eq by done. apply replace_hides; [done|done|]. intros i Hi. destruct Hd as [->|Hd]; [done|].
    destruct (cred_at c (drop i s)) eqn:E; [|done]. exfalso. apply Hd. by exists i.
Qed.

Lemma redact_all_hides c creds s : c <> [] -> cred_free "*" c -> c ∈ creds \/ ~ shows c s -> ~ shows c (fold_left redactCredential creds s).
Proof.
  intros Hc Hs. revert s. induction creds as [|d creds IH]; intros s Hin; simpl; [destruct Hin as [Hin%elem_of_nil|]; done|].
  apply IH. destruct Hin as [[->|Hin]%elem_of_cons|Hn]; [right; apply redactCredential_hides; auto|by left|right; apply redactCredential_hides; auto].
Qed.

Lemma not_shows_nil c : c <> [] -> ~ shows c [].
Proof. intros Hc [i Hi]. rewrite drop_nil in Hi. apply cred_at_spec in Hi as [Hl _]. destruct c; [done|simpl in Hl; lia]. Qed.

Lemma back_to_rune_le s cut : back_to_rune s cut <= cut.
Proof. induction cut as [|k IH]; cbn [back_to_rune]; [done|]. destruct (drop (S k) s); [done|]. destruct (RuneStart a); lia. Qed.

Lemma readPingBody_safe (b : option Body) (post : bool) (limit : nat) (creds : list bytes) (s : bytes) :
  readPingBody b post limit creds = Some s ->
  List.length s <= limit + List.length PingBodyTruncated /\
  (forall c, c ∈ creds -> c <> [] -> cred_free "*" c -> cred_free nl c -> ~ shows c PingBodyTruncated -> ~ shows c s).
Proof.
  unfold readPingBody. assert (Hnil : forall c, c ∈ creds -> c <> [] -> cred_free "*" c -> cred_free nl c -> ~ shows c PingBodyTruncated -> ~ shows c []).
  { intros. by apply not_shows_nil. }
  destruct b as [b|]; [|intros [= <-]; split; [simpl; lia|done]].
  destruct (_ || _); [intros [= <-]; split; [simpl; lia|done]|]. destruct (body_text _ _ _) as [[text cutRaw]|]; [|done]. cbv zeta.
  set (s1 := if cutRaw then dropCredentialPrefix _ _ else _).
  set (s2 := fold_left redactCredential creds s1).
  assert (H2 : forall c, c ∈ creds -> c <> [] -> cred_free "*" c -> ~ shows c s2) by (intros; apply redact_all_hides; auto).
  assert (Hend : forall t (truncated : bool), List.length t <= limit -> (forall c, shows c t -> shows c s2) ->
    let r := if truncated then t ++ PingBodyTruncated else t in List.length r <= limit + List.length PingBodyTruncated /\
    (forall c, c ∈ creds -> c <> [] -> cred_free "*" c -> cred_free nl c -> ~ shows c PingBodyTruncated -> ~ shows c r)).
  { intros t tr Ht Hsh. cbv zeta. destruct tr; [rewrite length_app|]; (split; [lia|]); intros c Hin Hc Hs Hn Hm Hr.
    - apply shows_app in Hr as [Hr|Hr]; [|done|done|done]. apply (H2 c Hin Hc Hs), Hsh, Hr.
    - apply (H2 c Hin Hc Hs), Hsh, Hr. }
  destruct (Nat.ltb_spec limit (List.length s2)) as [Hlt|Hge]; intros [= <-]; [apply (Hend _ true)|by apply (Hend s2 cutRaw)].
  - destruct (dropCredentialPrefix_take (take (back_to_rune s2 limit) s2) creds) as [k ->]. rewrite !length_take.
    pose proof (back_to_rune_le s2 limit). lia.
  - intros c. destruct (dropCredentialPrefix_take (take (back_to_rune s2 limit) s2) creds) as [k ->].
    intros Hc. by apply shows_take, shows_take in Hc.
Qed.

(** [v] is the start of [c], not all of it, in either letter case. *)
Definition starts_cred (c v : bytes) : bool := (List.length v <? List.length c) && asciiEqualFold v (take (List.length v) c).

(** [kept] ends before every start of a credential that [whole] ends in. *)
Definition ends_before (creds : list bytes) (whole kept : bytes) : Prop :=
  forall c i, c ∈ creds -> i < List.length whole -> starts_cred c (drop i whole) = true -> List.length kept <= i.

Lemma drop_prefix_of_shorter s c m n : 0 < m <= n -> m <= List.length s -> asciiEqualFold (drop (List.length s - m) s) (take m c) = true ->
  List.length (drop_prefix_of s c n) <= List.length s - m.
Proof.
  intros Hm Hl Ha. induction n as [|n IH]; [lia|]. cbn [drop_prefix_of]. case_match eqn:E; [rewrite length_take; lia|].
  apply IH. destruct (decide (m = S n)) as [->|]; [congruence|lia].
Qed.

Lemma drop_prefix_of_take s c n : exists k, drop_prefix_of s c n = take k s.
Proof. induction n as [|n [k Hk]]; cbn [drop_prefix_of]; [exists (List.length s); by rewrite firstn_all|]. case_match; [by eexists|by exists k]. Qed.

Lemma starts_cred_take c v n : 0 < n -> starts_cred c v = true -> starts_cred c (take n v) = true.
Proof.
  unfold starts_cred, asciiEqualFold. rewrite !andb_true_iff, !Nat.ltb_lt, !bool_decide_eq_true. intros Hn [Hl E]. rewrite length_take. split; [lia|].
  replace (take (Nat.min n (List.length v)) c) with (take n (take (List.length v) c)) by (by rewrite take_take).
  by rewrite <- (firstn_map _ n v), <- (firstn_map _ n (take (List.length v) c)), E.
Qed.

Lemma dropCredentialPrefix_ends s creds : ends_before creds s (dropCredentialPrefix s creds).
Proof.
  assert (Hx : forall creds j s0, s0 = take j s -> j <= List.length s -> ends_before creds s (dropCredentialPrefix s0 creds) /\ List.length (dropCredentialPrefix s0 creds) <= j).
  { clear creds. unfold dropCredentialPrefix. induction creds as [|c creds IH]; intros j s0 -> Hj; simpl.
    { split; [by intros c i Hc%elem_of_nil|]. rewrite length_take. lia. }
    set (n := Nat.min (List.length c - 1) (List.length (take j s))). destruct (drop_prefix_of_take (take j s) c n) as [k Hk].
    destruct (IH (Nat.min k j) (drop_prefix_of (take j s) c n)) as [H1 H2]; [by rewrite Hk, take_take|lia|]. split; [|lia].
    intros d i Hd Hi Hst. apply elem_of_cons in Hd as [->|Hd]; [|by apply (H1 d)]. etrans; [exact H2|].
    destruct (Nat.le_gt_cases j i) as [|Hlt]; [lia|]. assert (Hs : starts_cred c (drop i (take j s)) = true).
    { rewrite skipn_firstn_comm. apply starts_cred_take; [lia|done]. }
    unfold starts_cred in Hs. rewrite length_drop, length_take, Nat.min_l in Hs by lia. apply andb_true_iff in Hs as [Hlc Ha]. apply Nat.ltb_lt in Hlc.
    pose proof (drop_prefix_of_shorter (take j s) c (j - i) n) as Hsh. rewrite Hk, !length_take, (Nat.min_l j) in Hsh by lia.
    specialize (Hsh ltac:(unfold n; rewrite length_take; lia) ltac:(lia)). replace (j - (j - i)) with i in Hsh by lia. specialize (Hsh Ha). lia. }
  intros c i Hc Hi Hst. apply (proj1 (Hx creds (List.length s) s ltac:(by rewrite firstn_all) ltac:(lia)) c); done.
Qed.

(** C18: what is logged of a ping's body is at most the limit and the mark of a
    cut, and shows none of the ping's credentials (a credential without a star
    or a line break, and not one that the mark itself shows), however long the
    body, wherever the cut falls and whatever bytes it is made of. Where what
    was read of the body was cut, what is redacted ends before any start of a
    credential that the cut left at the end, so that nothing is shown of a
    credential the cut fell into; and where the redacted text is cut to the
    limit, what is kept ends before any that this cut leaves. *)
Theorem readPingBody_hides (b : option Body) (post : bool) (limit : nat) (creds : list bytes) (s : bytes) :
  readPingBody b post limit creds = Some s ->
  List.length s <= limit + List.length PingBodyTruncated /\
  (forall c, c ∈ creds -> c <> [] -> cred_free "*" c -> cred_free nl c -> ~ shows c PingBodyTruncated -> ~ shows c s) /\
  (forall body, b = Some body -> post = true -> limit <> 0 -> exists text cut j k,
     body_text body limit creds = Some (text, cut) /\
     let red := fold_left redactCredential creds (take j text) in
     (if cut then ends_before creds text (take j text) else j = List.length text) /\
     s = (if limit <? List.length red then take k red ++ PingBodyTruncated else if cut then red ++ PingBodyTruncated else red) /\
     (limit < List.length red -> ends_before creds (take (back_to_rune red limit) red) (take k red))).
Proof.
  intros E. destruct (readPingBody_safe _ _ _ _ _ E) as [Hl Hs]. split; [done|]. split; [done|]. intros body -> -> Hlim. revert E. clear Hl Hs.
  unfold readPingBody. cbn [negb orb]. destruct (Nat.eqb_spec limit 0); [done|]. destruct (body_text body limit creds) as [[text cut]|]; [|done]. cbv zeta.
  assert (Hj : exists j, (if cut then dropCredentialPrefix text creds else text) = take j text /\
    if cut then ends_before creds text (take j text) else j = List.length text).
  { destruct cut; [|exists (List.length text); by rewrite firstn_all]. destruct (dropCredentialPrefix_take text creds) as [j Ej]. exists j.
    split; [done|]. rewrite <- Ej. apply dropCredentialPrefix_ends. }
  destruct Hj as (j & -> & Hj). set (red := fold_left redactCredential creds (take j text)). exists text, cut, j.
  destruct (dropCredentialPrefix_take (take (back_to_rune red limit) red) creds) as [k Ek]. exists (Nat.min k (back_to_rune red limit)).
  rewrite take_take in Ek. split; [done|]. split; [done|]. fold red. split.
  - revert E. destruct (Nat.ltb_spec limit (List.length red)); intros [= <-]; [by rewrite Ek|done].
  - intros _. rewrite <- Ek. apply dropCredentialPrefix_ends.
Qed.

(** A UUID in either letter case, in a text that is cut in the middle of its
    second occurrence. *)
Definition leaky_uuid : bytes := bstr "0a1b2c3d-0000-4000-8000-00000000beef".
Definition leaky_body : Body :=
  {| bd_content := bstr "curl https://tend/ping/0A1B2C3D-0000-4000-8000-00000000BEEF ok 0a1b2c3d-0000-4000-8000-00000000beef"; bd_fails := false |}.

Lemma readPingBody_hides_witness : exists s,
  readPingBody (Some leaky_body) true 40 [leaky_uuid; []] = Some s /\ List.length s <= 66 /\ ~ shows leaky_uuid s.
Proof.
  destruct (readPingBody (Some leaky_body) true 40 [leaky_uuid; []]) as [s|] eqn:E; [|vm_compute in E; discriminate E].
  destruct (readPingBody_hides (Some leaky_body) true 40 [leaky_uuid; []] s E) as (Hl & Hs & _).
  exists s. split; [reflexivity|]. split; [exact Hl|]. apply Hs; [left|discriminate| | |].
  - split; [vm_compute; intros Hx; repeat (apply elem_of_cons in Hx as [[=]|Hx]); by apply elem_of_nil in Hx|vm_compute; reflexivity].
  - split; [vm_compute; intros Hx; repeat (apply elem_of_cons in Hx as [[=]|Hx]); by apply elem_of_nil in Hx|vm_compute; reflexivity].
  - intros [i Hi]. apply cred_at_spec in Hi as [Hi _]. rewrite length_drop in Hi. change (36 <= 26 - i) in Hi. lia.
Defined.

Example leaky_logged : str <$> readPingBody (Some leaky_body) true 40 [leaky_uuid; []]
  = Some ("curl https://tend/ping/*** ok " +:+ str PingBodyTruncated)%string.
Proof. vm_compute. reflexivity. Qed.

End Shows.

(** ** The documented URLs *)

Inductive Action := ASuccess | AStart | AFail | ALog | AExit (n : Z).
#[export] Instance Action_eq_dec : EqDecision Action.
Proof. solve_decision. Defined.
Inductive Dest := ToToken (token : bytes) | ToSlug (key slug : bytes).

Definition unreserved (c : ascii) : bool :=
  let n := byte_val c in
  is_digit c || ((65 <=? n) && (n <=? 90)) || ((97 <=? n) && (n <=? 122)) || Ascii.eqb c "-" || Ascii.eqb c "_" || Ascii.eqb c "." || Ascii.eqb c "~".
Definition escape_segment (s : bytes) : bytes := mjoin (map (fun c => if unreserved c then [c] else escape c) s).

Definition action_segment (a : Action) : list bytes :=
  match a with
  | ASuccess => [] | AStart => [bstr "start"] | AFail => [bstr "fail"] | ALog => [bstr "log"] | AExit n => [Itoa n]
  end.
Definition dest_segments (d : Dest) : list bytes := match d with ToToken t => [t] | ToSlug k s => [k; s] end.

(** The path below [/ping/] a client asks for. *)
Definition ping_path (d : Dest) (a : Action) : bytes := Join slash (map escape_segment (dest_segments d ++ action_segment a)).

Definition action_input (a : Action) : PingInput :=
  match a with
  | ASuccess => plain_input PingSuccess None | AStart => plain_input PingStart None | AFail => plain_input PingFail None
  | ALog => plain_input PingLog None
  | AExit n => plain_input (if n =? 0 then PingSuccess else PingFail) (Some n)
  end.

Definition action_ok (a : Action) : Prop := match a with AExit n => 0 <= n <= 255 | _ => True end.

(** A heartbeat named like an action can only be reached with an action. *)
Definition dest_ok (d : Dest) (a : Action) : Prop :=
  match d with
  | ToToken t => t <> []
  | ToSlug k s => k <> [] /\ s <> [] /\ (a = ASuccess -> pingAction s = inl None)
  end.

(** What it means. *)
Definition asked (d : Dest) (i : PingInput) (create : bool) : pingRequest :=
  match d with
  | ToToken t => {| rq_token := normalizeToken t; rq_key := []; rq_slug := []; rq_create := false; rq_in := i |}
  | ToSlug k s => {| rq_token := []; rq_key := k; rq_slug := s; rq_create := create; rq_in := i |}
  end.

Lemma escape_segment_free s : slash ∉ escape_segment s.
Proof.
  unfold escape_segment. induction s as [|c s IH]; [by intros ?%elem_of_nil|]. cbn [map mjoin list_join].
  rewrite not_elem_of_app. split; [|exact IH]. destruct (unreserved c) eqn:E.
  - intros Hs%list_elem_of_singleton. rewrite <- Hs in E. by vm_compute in E.
  - pose proof (byte_val_range c) as Hb. unfold escape.
    assert (Hd : forall n, 0 <= n < 16 -> hex_digit n <> slash).
    { intros n Hn En. destruct (hex_digit_value n Hn) as [H1 _]. rewrite En in H1. by vm_compute in H1. }
    rewrite !not_elem_of_cons. repeat split; [done| | |by intros ?%elem_of_nil]; intros Hs; symmetry in Hs; revert Hs; apply Hd.
    + split; [apply Z.div_pos; lia|apply Z.div_lt_upper_bound; lia].
    + apply Z.mod_pos_bound. lia.
Qed.

Lemma escape_segment_unescape s : PathUnescape (escape_segment s) = Some s.
Proof. apply (PathUnescape_escape unreserved). vm_compute. reflexivity. Qed.

Lemma escape_segment_nonempty s : s <> [] -> escape_segment s <> [].
Proof. destruct s as [|c s]; [done|]. intros _. unfold escape_segment. cbn [map mjoin list_join]. by destruct (unreserved c). Qed.

Lemma Atoi_Itoa_status n : 0 <= n <= 255 -> let s := Itoa n in
  Atoi s = Some n /\ is_nil s = false /\ TrimSet is_digit s = [] /\ s <> bstr "start" /\ s <> bstr "fail" /\ s <> bstr "log".
Proof.
  intros Hn s.
  assert (Hall : forallb (fun k => let s := Itoa (Z.of_nat k) in bool_decide (Atoi s = Some (Z.of_nat k)) && negb (is_nil s) && is_nil (TrimSet is_digit s)
    && negb (bool_decide (s = bstr "start")) && negb (bool_decide (s = bstr "fail")) && negb (bool_decide (s = bstr "log"))) (seq 0 256) = true)
    by (vm_compute; reflexivity).
  rewrite forallb_forall in Hall. specialize (Hall (Z.to_nat n)). rewrite Z2Nat.id in Hall by lia. fold s in Hall.
  specialize (Hall ltac:(apply in_seq; lia)). cbv zeta in Hall. bsimpl. split; [done|]. split; [done|]. split; [by destruct (TrimSet is_digit s)|done].
Qed.

Lemma pingAction_segment a : a <> ASuccess -> action_ok a -> exists seg, action_segment a = [seg] /\ seg <> [] /\ pingAction seg = inl (Some (action_input a)).
Proof.
  intros Hs Ha. destruct a as [| | | |n]; try done; try (eexists; split; [done|]; split; [done|]; vm_compute; reflexivity).
  simpl in Ha. destruct (Atoi_Itoa_status n Ha) as (H1 & H2 & H3 & H4 & H5 & H6). exists (Itoa n). split; [done|]. split; [by destruct (Itoa n)|].
  unfold pingAction. rewrite !bool_decide_eq_false_2 by done. rewrite H2, H3, H1. simpl. destruct (Z.ltb_spec 255 n); [lia|done].
Qed.

Lemma unescape_all_escaped segs : Forall (fun s => s <> []) segs -> unescape_all (map escape_segment segs) = Some segs.
Proof.
  induction 1 as [|s segs Hs Hf IH]; [done|]. simpl. rewrite escape_segment_unescape, IH. by destruct s.
Qed.

Lemma dest_segments_ok d a : dest_ok d a -> action_ok a ->
  Forall (fun s => s <> []) (dest_segments d ++ action_segment a) /\ (List.length (dest_segments d ++ action_segment a) <= 3)%nat /\
  exists ps p, dest_segments d ++ action_segment a = ps ++ [p].
Proof.
  intros Hd Ha. assert (Hseg : action_segment a = [] \/ exists seg, action_segment a = [seg] /\ seg <> []).
  { destruct (decide (a = ASuccess)) as [->|Hn]; [by left|]. right. destruct (pingAction_segment a Hn Ha) as (seg & -> & Hs & _). by eexists. }
  assert (Hlast : forall l : list bytes, l <> [] -> exists ps p, l = ps ++ [p]) by (intros l Hl; destruct (exists_last Hl) as (ps & p & ->); eauto).
  destruct d as [t|k s]; simpl in Hd; destruct Hseg as [->|(seg & -> & Hs)]; simpl; (split; [|split; [lia|by apply Hlast]]); repeat constructor; tauto.
Qed.

Lemma ping_of_asked d a : dest_ok d a -> action_ok a ->
  ping_of_segments (dest_segments d ++ action_segment a) = inl (asked d (action_input a) false).
Proof.
  intros Hd Ha. destruct (decide (a = ASuccess)) as [->|Hn].
  - destruct d as [t|k s]; simpl; [done|]. destruct Hd as (_ & _ & Hs). by rewrite Hs.
  - destruct (pingAction_segment a Hn Ha) as (seg & -> & _ & Hp). destruct d as [t|k s]; simpl; by rewrite Hp.
Qed.

Lemma ping_path_trims d a tail : dest_ok d a -> action_ok a -> tail ∈ [[]; [slash]] ->
  trim_suffix (ping_path d a ++ tail) [slash] = ping_path d a /\ ping_path d a <> [].
Proof.
  intros Hd Ha Ht. destruct (dest_segments_ok d a Hd Ha) as (Hne & _ & ps & p & E). unfold ping_path. rewrite E in *. rewrite map_app. simpl.
  destruct (Join_last slash (map escape_segment ps) (escape_segment p)) as [q Eq]. rewrite Eq.
  apply Forall_app in Hne as [_ Hp]. pose proof (escape_segment_nonempty p (Forall_inv Hp)) as Hn. split; [|by destruct q].
  apply elem_of_cons in Ht as [->|Ht]; [|apply list_elem_of_singleton in Ht as ->].
  - rewrite app_nil_r. by apply trim_suffix_free; [apply escape_segment_free|].
  - unfold trim_suffix, lastn. rewrite length_app. simpl. rewrite Nat.add_sub, drop_app_length, bool_decide_eq_true_2 by done. apply take_app_length.
Qed.

(** C19: every URL of the ping API, whatever the token, the key and the name
    are made of, is read back as the ping it stands for: the destination, the
    action and the exit status, the run id in its canonical form, and the
    wish to create, which only a slug has. A run id that is no UUID is
    refused. *)
Theorem parsePing_url (d : Dest) (a : Action) (tail : bytes) (query : gmap string (list bytes)) :
  dest_ok d a -> action_ok a -> tail ∈ [[]; [slash]] ->
  let create := bool_decide (first_value query "create" = Some (bstr "1")) in
  parsePing (ping_path d a ++ tail) query =
    match first_value query "rid" with
    | None => inl (asked d (action_input a) create)
    | Some rid => match CanonicalUUID rid with
                  | Some u => inl (asked d (with_rid (action_input a) (str u)) create)
                  | None => inr errPingRID
                  end
    end.
Proof.
  intros Hd Ha Ht create. destruct (ping_path_trims d a tail Hd Ha Ht) as [Etrim Hne]. destruct (dest_segments_ok d a Hd Ha) as (Hs & Hlen & ps & p & E).
  unfold parsePing. rewrite Etrim. cbv zeta. unfold ping_path. rewrite Split_Join.
  - fold (ping_path d a). rewrite length_map. destruct (Nat.ltb_spec 3 (List.length (dest_segments d ++ action_segment a))); [lia|].
    rewrite orb_false_r. destruct (ping_path d a) eqn:Ep; [done|]. cbn [is_nil]. rewrite unescape_all_escaped, ping_of_asked by done.
    assert (Hk : negb (is_nil (rq_key (asked d (action_input a) false))) && create = rq_create (asked d (action_input a) create)).
    { destruct d as [t|k sl]; [done|]. simpl. simpl in Hd. by destruct k; [destruct Hd|]. }
    fold create. rewrite Hk. destruct (first_value query "rid") as [rid|]; [destruct (CanonicalUUID rid)|]; by destruct d.
  - rewrite E, map_app. by destruct (map escape_segment ps).
  - apply Forall_forall. intros x Hx. apply list_elem_of_In, in_map_iff in Hx as (y & <- & _). apply escape_segment_free.
Qed.

Lemma parsePing_url_witness :
  parsePing (bstr "the%20key/a%2Fb/3/") {[ "rid" := [bstr "0A1B2C3D-0000-4000-8000-00000000BEEF"] ]} =
    inl (asked (ToSlug (bstr "the key") (bstr "a/b")) (with_rid (action_input (AExit 3)) "0a1b2c3d-0000-4000-8000-00000000beef") false).
Proof.
  refine (eq_trans (parsePing_url (ToSlug (bstr "the key") (bstr "a/b")) (AExit 3) [slash] _ _ _ _) _).
  - split; [discriminate|]. split; discriminate.
  - split; discriminate.
  - right. left.
  - vm_compute. reflexivity.
Defined.
