(* ===== verification/StoreInv.v ===== *)
(** * Every operation of the store

    The store's write operations as one type, with what holds whatever
    sequence of them runs, and whatever faults the database has: ids are
    never given out twice, a finished run, a recorded event and a logged ping
    are never rewritten, a finalized delivery is never pending again, and the
    event of a pending or held alert is always there. *)
From S2P Require Import Prelude GoTime Domain Heartbeat Sql Schema StoreEvents Failure StoreRuns StoreHeartbeats StoreDeliveries StoreConfig.
From stdpp Require Import relations.
Open Scope Z_scope.

Inductive Op :=
| OpCreateJob (j : Job) | OpUpdateJob (j : Job) | OpDeleteJob (org id : Z)
| OpFailUnreadableJob (org job : Z) (name : string) (output : bytes)
| OpEnqueueRun (org job : Z) | OpClaimRun (worker : string)
| OpFinishRun (run : Z) (status : RunStatus) (exitCode : Z) (output : bytes)
| OpFinishRunAndEmit (run : Z) (status : RunStatus) (exitCode attempt : Z) (output : bytes) (ev : Event)
| OpReapStaleRun (run : Z) (output : bytes) (ev : Event) | OpRequeueOrphanedRuns
| OpEmitEvent (ev : Event) | OpReleaseHeldAlerts (now : Time)
| OpCreateHeartbeat (h : Heartbeat) | OpCreateHeartbeatIfAbsent (h : Heartbeat) | OpDeleteHeartbeat (org id : Z)
| OpRecordHeartbeatPing (token : string) (i : PingInput) (now : Time)
| OpSetHeartbeatStatus (id : Z) (status : HbStatus)
| OpSetHeartbeatStatusIf (id : Z) (from to : HbStatus) (seen : Time)
| OpSetHeartbeatStatusIfAndEmit (id : Z) (from to : HbStatus) (seen : Time) (ev : Event)
| OpMarkHeartbeatDownAndEmit (observed : Heartbeat) (ev : Event)
| OpClaimDueDeliveries (now : Time) (lease hold : Duration) (limit : Z)
| OpMarkDeliveryDelivered (id : Z) | OpRescheduleDelivery (id : Z) (at_ : Time) | OpFailDelivery (id : Z)
| OpFailDeliveryAndEmit (id : Z) (ev : Event)
| OpPruneEvents (before : Time) | OpPruneJobRuns (before : Time) | OpPruneDeliveries (before : Time)
| OpPruneHeartbeatPings (before : Time)
| OpCreateChannel (c : Channel) (config : string) | OpDeleteChannel (org id : Z)
| OpCreateRule (r : Rule) | OpDeleteRule (org id : Z)
| OpPutSecret (org : Z) (name ciphertext : string)
| OpCreateUser (u : User) | OpCreateMembership (m : Membership) | OpCreateToken (t : APIToken) | OpDeleteToken (org id : Z)
| OpBootstrapDefaultOrg | OpSetOrgPingKey (org : Z) (key : string).

(** Unfolds the operations down to their statements. *)
Ltac unfold_ops :=
  unfold CreateJob, UpdateJob, DeleteJob, FailUnreadableJob, EnqueueRun, ClaimRun, FinishRun,
    ReapStaleRun, RequeueOrphanedRuns, EmitEvent, releaseHeld, CreateHeartbeat, CreateHeartbeatIfAbsent, insert_hb_if_absent,
    DeleteHeartbeat, SetHeartbeatStatus, SetHeartbeatStatusIf,
    SetHeartbeatStatusIfAndEmit, setHeartbeatStatusIf, MarkHeartbeatDownAndEmit, ClaimDueDeliveries, MarkDeliveryDelivered,
    RescheduleDelivery, FailDelivery, FailDeliveryAndEmit, PruneEvents, PruneJobRuns, PruneDeliveries, PruneHeartbeatPings,
    CreateChannel, DeleteChannel, CreateRule, DeleteRule, PutSecret, CreateUser, CreateMembership, CreateToken, DeleteToken,
    BootstrapDefaultOrg, SetOrgPingKey, emit_recovery, deleteAlertStates, autocommit, finishRunTx.

(** The same, for effects that need no argument about them. *)
Ltac unfold_all_ops :=
  unfold_ops; unfold FinishRunAndEmit, endStreak, dropHeld, emit_recovery, RecordHeartbeatPing, ping_state, guarded_update,
    update_hb, autocommit, finishRunTx.

(** The conditions of the statements that delete. *)
Lemma prunable_run_true before r : prunable_run before r = true -> rr_created_at r < before /\ terminal (rr_status r) = true.
Proof. unfold prunable_run. rewrite andb_true_iff, Z.ltb_lt. done. Qed.
Lemma prunable_delivery_true before r : prunable_delivery before r = true -> dl_created_at r < before /\ dl_state r <> DeliveryPending.
Proof. unfold prunable_delivery, pending. rewrite andb_true_iff, Z.ltb_lt, negb_true_iff, bool_decide_eq_false. done. Qed.
Lemma prunable_ping_true before r : prunable_ping before r = true -> p_created_at (pr_ping r) < before.
Proof. unfold prunable_ping. by rewrite Z.ltb_lt. Qed.
Lemma two_ids_true a b x y : (a =? x) && (b =? y) = true -> a = x /\ b = y.
Proof. by rewrite andb_true_iff, !Z.eqb_eq. Qed.
Create HintDb drops.
#[export] Hint Resolve prunable_run_true prunable_delivery_true prunable_ping_true two_ids_true : drops.

Section Ops.
Context `{World} `{JSONText}.

Definition ignore {A} (m : Store A) : Store unit := m ;;; ret tt.

Definition run_op (o : Op) : Store unit :=
  match o with
  | OpCreateJob j => ignore (CreateJob j)
  | OpUpdateJob j => UpdateJob j
  | OpDeleteJob org id => DeleteJob org id
  | OpFailUnreadableJob org job name output => ignore (FailUnreadableJob org job name output)
  | OpEnqueueRun org job => ignore (EnqueueRun org job)
  | OpClaimRun w => ignore (ClaimRun w)
  | OpFinishRun r st ec out => FinishRun r st ec out
  | OpFinishRunAndEmit r st ec att out ev => ignore (FinishRunAndEmit r st ec att out ev)
  | OpReapStaleRun r out ev => ignore (ReapStaleRun r out ev)
  | OpRequeueOrphanedRuns => ignore RequeueOrphanedRuns
  | OpEmitEvent ev => ignore (EmitEvent ev)
  | OpReleaseHeldAlerts now => ignore (releaseHeld now)
  | OpCreateHeartbeat h => ignore (CreateHeartbeat h)
  | OpCreateHeartbeatIfAbsent h => ignore (CreateHeartbeatIfAbsent h)
  | OpDeleteHeartbeat org id => DeleteHeartbeat org id
  | OpRecordHeartbeatPing token i now => ignore (RecordHeartbeatPing token i now)
  | OpSetHeartbeatStatus id st => SetHeartbeatStatus id st
  | OpSetHeartbeatStatusIf id from to seen => ignore (SetHeartbeatStatusIf id from to seen)
  | OpSetHeartbeatStatusIfAndEmit id from to seen ev => ignore (SetHeartbeatStatusIfAndEmit id from to seen ev)
  | OpMarkHeartbeatDownAndEmit o ev => ignore (MarkHeartbeatDownAndEmit o ev)
  | OpClaimDueDeliveries now lease hold limit => ignore (ClaimDueDeliveries now lease hold limit)
  | OpMarkDeliveryDelivered id => MarkDeliveryDelivered id
  | OpRescheduleDelivery id at_ => RescheduleDelivery id at_
  | OpFailDelivery id => FailDelivery id
  | OpFailDeliveryAndEmit id ev => FailDeliveryAndEmit id ev
  | OpPruneEvents t => ignore (PruneEvents t)
  | OpPruneJobRuns t => ignore (PruneJobRuns t)
  | OpPruneDeliveries t => ignore (PruneDeliveries t)
  | OpPruneHeartbeatPings t => ignore (PruneHeartbeatPings t)
  | OpCreateChannel c config => ignore (CreateChannel c config)
  | OpDeleteChannel org id => DeleteChannel org id
  | OpCreateRule r => ignore (CreateRule r)
  | OpDeleteRule org id => DeleteRule org id
  | OpPutSecret org name ct => PutSecret org name ct
  | OpCreateUser u => ignore (CreateUser u)
  | OpCreateMembership m => ignore (CreateMembership m)
  | OpCreateToken t => ignore (CreateToken t)
  | OpDeleteToken org id => DeleteToken org id
  | OpBootstrapDefaultOrg => ignore BootstrapDefaultOrg
  | OpSetOrgPingKey org key => SetOrgPingKey org key
  end.

(** Some operations one after the other, errors ignored. *)
Fixpoint run_ops (l : list Op) (s : St DB) : St DB :=
  match l with
  | [] => s
  | o :: r => run_ops r (snd (run_op o s))
  end.

Lemma run_ops_rel R `{!Reflexive R, !Transitive R} l s :
  (forall o, evolves R (run_op o)) -> R (st_db s) (st_db (run_ops l s)).
Proof.
  intros Hr. revert s. induction l as [|o l IH]; intros s; simpl; [done|].
  etrans; [apply (Hr o s)|]. apply IH.
Qed.

Lemma run_ops_inv I l s : (forall o, preserves I (run_op o)) -> I (st_db s) -> I (st_db (run_ops l s)).
Proof. intros Hp. revert s. induction l as [|o l IH]; intros s Hs; simpl; [done|]. apply IH. by apply Hp. Qed.

(** ** Elementary steps

    What any operation does to the database, one statement at a time. *)

(** A rewrite of a table that keeps its ids in order and its counter. *)
Definition keeps_ids {R} (key : R -> Z) (t t' : Table R) : Prop :=
  (table_wf key t -> table_wf key t') /\ next_id t <= next_id t'.

Definition same_run (r r' : RunRow) : Prop :=
  rr_id r' = rr_id r /\ rr_org r' = rr_org r /\ rr_job r' = rr_job r /\ rr_created_at r' = rr_created_at r.

Definition same_delivery (r r' : DeliveryRow) : Prop :=
  dl_id r' = dl_id r /\ dl_org r' = dl_org r /\ dl_event r' = dl_event r /\ dl_channel r' = dl_channel r /\
  dl_created_at r' = dl_created_at r.

(** What a step may want leave for: recording an event, or deleting a row of
    the history. A ping is deleted from a log that has the others as well. *)
Inductive Change :=
| Records (e : Event)
| DropsRun (r : RunRow) | DropsPing (log : Table PingRow) (r : PingRow) | DropsDelivery (r : DeliveryRow) | DropsEvent (e : Event).

(** A heartbeat's log, and what its bodies weigh. *)
Definition log_of (h : Z) (t : Table PingRow) : list PingRow := select (of_heartbeat h) t.
Definition log_bytes (l : list PingRow) : Z := foldr (fun r n => pr_body_bytes r + n) 0 l.

(** Its heartbeat's log has no more room for the ping: counted from the newest
    entry, one it is no newer than is beyond the entries or the bytes there are
    kept. *)
Definition crowded (log : Table PingRow) (r : PingRow) : Prop :=
  r ∈ rows log /\ let newest := rev (log_of (p_heartbeat (pr_ping r)) log) in
  exists i x, newest !! i = Some x /\ pr_id r <= pr_id x /\
    (maxPingsPerHeartbeat <= Z.of_nat i \/ maxPingLogBytes < log_bytes (take (S i) newest)).

(** What an operation may delete of the history: a prune what is older than its
    time and no more needed, the deletion of a job its runs, the deletion of a
    heartbeat its pings, and the recording of a ping what its log has no more
    room for. *)
Definition drops (o : Op) (c : Change) : Prop :=
  match o, c with
  | OpDeleteJob org id, DropsRun r => rr_org r = org /\ rr_job r = id
  | OpPruneJobRuns before, DropsRun r => rr_created_at r < before /\ terminal (rr_status r) = true
  | OpPruneDeliveries before, DropsDelivery r => dl_created_at r < before /\ dl_state r <> DeliveryPending
  | OpPruneEvents before, DropsEvent e => ev_created_at e < before
  | OpPruneHeartbeatPings before, DropsPing _ r => p_created_at (pr_ping r) < before
  | OpDeleteHeartbeat org id, DropsPing _ r => p_org (pr_ping r) = org /\ p_heartbeat (pr_ping r) = id
  | OpRecordHeartbeatPing _ _ _, DropsPing log r => crowded log r
  | _, _ => False
  end.

Lemma running_sums_lookup kept l i r : l !! i = Some r ->
  running_sums kept l !! i = Some (r, kept + log_bytes (take (S i) l)).
Proof.
  revert kept i. induction l as [|x l IH]; intros kept i Hi; [by rewrite lookup_nil in Hi|]. destruct i as [|i]; simpl in *.
  - injection Hi as <-. do 2 f_equal. lia.
  - rewrite (IH _ _ Hi). do 2 f_equal. destruct l; simpl; lia.
Qed.

Lemma length_running_sums k l : List.length (running_sums k l) = List.length l.
Proof. revert k. induction l as [|x l IH]; intros k; simpl; [done|by rewrite IH]. Qed.

Lemma max_opt_from l : forall m0, exists m, fold_left (fun m x => Some (match m with None => x | Some y => Z.max y x end)) l (Some m0) = Some m /\
  m0 <= m /\ (m = m0 \/ m ∈ l) /\ forall x, x ∈ l -> x <= m.
Proof.
  induction l as [|x l IH]; intros m0; simpl.
  - exists m0. split; [done|]. split; [lia|]. split; [by left|]. intros x Hx. by apply elem_of_nil in Hx.
  - destruct (IH (Z.max m0 x)) as (m & E & H1 & H2 & H3). exists m. split; [done|]. split; [lia|]. split.
    + destruct H2 as [->|H2]; [|right; by right]. destruct (Z.max_spec m0 x) as [[_ ->]|[_ ->]]; [right; left|by left].
    + intros y [->|Hy]%elem_of_cons; [lia|by apply H3].
Qed.

Lemma max_opt_spec l : match max_opt l with Some m => m ∈ l /\ forall x, x ∈ l -> x <= m | None => l = [] end.
Proof.
  unfold max_opt. destruct l as [|x l]; [done|]. simpl. destruct (max_opt_from l x) as (m & -> & H1 & H2 & H3). split.
  - destruct H2 as [->|]; [left|by right].
  - intros y [->|Hy]%elem_of_cons; [lia|by apply H3].
Qed.

Section Micro.
(** What is recorded and what is deleted is among [P]. *)
Variable P : Change -> Prop.

Inductive micro : DB -> DB -> Prop :=
| mi_record e d d' : P (Records e) -> record_step e d d' -> micro d d'
| mi_run_new d mk : (forall i, rr_id (mk i) = i) -> micro d (on_runs (insert_row mk) d)
| mi_run_update d p f : (forall r, p r = true -> terminal (rr_status r) = false) -> (forall r, same_run r (f r)) ->
    micro d (on_runs (update_where p f) d)
| mi_run_delete d p : (forall r, p r = true -> P (DropsRun r)) -> micro d (on_runs (delete_where p) d)
| mi_ping_new d mk : (forall i, pr_id (mk i) = i) -> micro d (on_pings (insert_row mk) d)
| mi_ping_delete d p : (forall r, r ∈ rows (db_pings d) -> p r = true -> P (DropsPing (db_pings d) r)) -> micro d (on_pings (delete_where p) d)
| mi_delivery_new d mk : (forall i, dl_id (mk i) = i /\ exists e, e ∈ rows (db_events d) /\ ev_id e = dl_event (mk i)) ->
    micro d (on_deliveries (insert_row mk) d)
| mi_delivery_update d p f :
    (forall r, same_delivery r (f r) /\ (dl_state (f r) = dl_state r \/ dl_state (f r) <> DeliveryPending)) ->
    micro d (on_deliveries (update_where p f) d)
| mi_delivery_delete d p : (forall r, p r = true -> P (DropsDelivery r)) -> micro d (on_deliveries (delete_where p) d)
| mi_event_delete d p : (forall e, p e = true -> event_needed d e = false /\ P (DropsEvent e)) -> micro d (on_events (delete_where p) d)
| mi_alerts d f : held_from None (db_alerts d) (f (db_alerts d)) -> micro d (on_alerts f d)
| mi_jobs d f : keeps_ids jr_id (db_jobs d) (f (db_jobs d)) -> micro d (on_jobs f d)
| mi_heartbeats d f : keeps_ids hr_id (db_heartbeats d) (f (db_heartbeats d)) -> micro d (on_heartbeats f d)
| mi_channels d f : keeps_ids cr_id (db_channels d) (f (db_channels d)) -> micro d (on_channels f d)
| mi_rules d f : keeps_ids rw_id (db_rules d) (f (db_rules d)) -> micro d (on_rules f d)
| mi_secrets d f : keeps_ids se_id (db_secrets d) (f (db_secrets d)) -> micro d (on_secrets f d)
| mi_users d f : keeps_ids u_id (db_users d) (f (db_users d)) -> micro d (on_users f d)
| mi_memberships d f : keeps_ids m_id (db_memberships d) (f (db_memberships d)) -> micro d (on_memberships f d)
| mi_tokens d f : keeps_ids tk_id (db_tokens d) (f (db_tokens d)) -> micro d (on_tokens f d)
| mi_orgs d f : keeps_ids or_id (db_orgs d) (f (db_orgs d)) -> micro d (on_orgs f d).

Definition msteps : DB -> DB -> Prop := rtc micro.

#[export] Instance msteps_refl : Reflexive msteps.
Proof. intros d. apply rtc_refl. Qed.
#[export] Instance msteps_trans : Transitive msteps.
Proof. intros d1 d2 d3. apply rtc_trans. Qed.

Lemma keeps_update {R} (key : R -> Z) p f t : (forall r, key (f r) = key r) -> keeps_ids key t (update_where p f t).
Proof. intros Hk. split; [intros; by apply table_wf_update|simpl; lia]. Qed.
Lemma keeps_delete {R} (key : R -> Z) p t : keeps_ids key t (delete_where p t).
Proof. split; [intros; by apply table_wf_delete|simpl; lia]. Qed.
Lemma keeps_insert {R} (key : R -> Z) mk t : (forall i, key (mk i) = i) -> keeps_ids key t (insert_row mk t).
Proof. intros Hk. split; [intros; by apply table_wf_insert|simpl; lia]. Qed.
Lemma keeps_draw {R} (key : R -> Z) t : keeps_ids key t (draw t).
Proof. split; [intros; by apply table_wf_draw|simpl; lia]. Qed.
Lemma keeps_none {R} (key : R -> Z) t : keeps_ids key t t.
Proof. split; [done|lia]. Qed.

(** No alert becomes held by a statement that clears or deletes rows. *)
Lemma held_from_imap (f : Z * Z -> AlertRow -> option AlertRow) m :
  (forall k r r' y, f k r = Some r' -> fa_held r' = Some y -> fa_held r = Some y) -> held_from None m (map_imap f m).
Proof.
  intros Hf k r' y H1 H2. right. rewrite map_lookup_imap in H1. destruct (m !! k) as [r|] eqn:E; simpl in H1; [|done].
  exists r. split; [done|]. by eapply Hf.
Qed.

(** A row is deleted for what the operation deletes. *)
Ltac dropping := let r := fresh "r" in
  intros r; intros; match goal with Hd : forall c, _ -> P c |- _ => apply Hd end; simpl; auto with drops; fail.

Ltac micro1 :=
  intros; apply rtc_once;
  first
    [ apply mi_run_new; intros; reflexivity
    | apply mi_run_delete; dropping
    | apply mi_ping_new; intros; reflexivity
    | apply mi_ping_delete; dropping
    | apply mi_delivery_delete; dropping
    | apply mi_alerts, held_from_imap; intros k r r' y Hf Hh; simpl in *; repeat case_match; simplify_eq; done
    | apply mi_jobs; first [apply keeps_insert; intros; reflexivity | apply keeps_update; intros; reflexivity | apply keeps_delete | apply keeps_draw]
    | apply mi_heartbeats; first [apply keeps_insert; intros; reflexivity | apply keeps_update; intros; reflexivity | apply keeps_delete | apply keeps_draw]
    | apply mi_channels; first [apply keeps_insert; intros; reflexivity | apply keeps_update; intros; reflexivity | apply keeps_delete | apply keeps_draw]
    | apply mi_rules; first [apply keeps_insert; intros; reflexivity | apply keeps_update; intros; reflexivity | apply keeps_delete | apply keeps_draw]
    | apply mi_secrets; first [apply keeps_insert; intros; reflexivity | apply keeps_update; intros; reflexivity | apply keeps_delete | apply keeps_draw]
    | apply mi_users; first [apply keeps_insert; intros; reflexivity | apply keeps_update; intros; reflexivity | apply keeps_delete | apply keeps_draw]
    | apply mi_memberships; first [apply keeps_insert; intros; reflexivity | apply keeps_update; intros; reflexivity | apply keeps_delete | apply keeps_draw]
    | apply mi_tokens; first [apply keeps_insert; intros; reflexivity | apply keeps_update; intros; reflexivity | apply keeps_delete | apply keeps_draw]
    | apply mi_orgs; first [apply keeps_insert; intros; reflexivity | apply keeps_update; intros; reflexivity | apply keeps_delete | apply keeps_draw] ].

Lemma evolves_record e : P (Records e) -> evolves msteps (recordEvent e).
Proof. intros He. apply evolves_recordEvent. intros d d' Hs. apply rtc_once. by eapply mi_record. Qed.

Lemma evolves_emit e : P (Records e) -> evolves msteps (emitEvent e).
Proof. intros He. unfold emitEvent. apply evolves_bind; [apply _|by apply evolves_record|]. intros a. apply evolves_ret; apply _. Qed.

#[local] Hint Resolve evolves_record evolves_emit : evolves.

Lemma evolves_join_events l : evolves msteps (join_events l).
Proof. induction l as [|r l IH]; simpl; evolve. Qed.
#[local] Hint Resolve evolves_join_events : evolves.

Lemma has_status_true st r : has_status st r = true <-> rr_status r = st.
Proof. apply bool_decide_eq_true. Qed.

Lemma running_true run r : running run r = true <-> rr_id r = run /\ rr_status r = StatusRunning.
Proof. unfold running. by rewrite andb_true_iff, has_status_true, <- Z.eqb_eq. Qed.

Lemma running_not_terminal run r : running run r = true -> terminal (rr_status r) = false.
Proof. intros [_ E]%running_true. by rewrite E. Qed.

(** ** Well-formedness *)

Lemma append_wf {R} (key : R -> Z) l t : 0 < next_id t ->
  map key l = map (fun k => next_id t + Z.of_nat k) (seq 0 (List.length l)) ->
  table_wf key t -> table_wf key (append_rows l t).
Proof.
  revert t. induction l as [|r l IH] using rev_ind; intros t Hp Hk Hw; [by rewrite append_nil|].
  rewrite length_app, seq_app, !map_app in Hk. simpl in Hk. apply app_inj_tail in Hk as [Hk Hr].
  specialize (IH t Hp Hk Hw).
  replace (append_rows (l ++ [r]) t) with (insert_row (fun i => r) (append_rows l t)).
  - destruct IH as (Hs & Hb & Hn). simpl in *. split; [|split]; simpl.
    + rewrite map_app. simpl. apply StronglySorted_snoc; [done|]. rewrite Forall_map. eapply Forall_mono; [|exact Hb]. simpl. lia.
    + apply Forall_app. split; [eapply Forall_mono; [|exact Hb]; simpl; lia|]. repeat constructor; lia.
    + lia.
  - unfold insert_row, append_rows. simpl. rewrite length_app, app_assoc. f_equal. simpl. lia.
Qed.

(** A job's streak rewritten. *)
Lemma streaks_keep t t' : streaks_only t t' -> keeps_ids jr_id t t'.
Proof.
  intros [Hn Hm]. assert (E : map jr_id (rows t') = map jr_id (rows t)) by (apply (f_equal (map jr_id)) in Hm; by rewrite !map_map in Hm).
  split; [|lia]. intros (Hs & Hb & Hp). split; [by rewrite E|]. split; [|by rewrite Hn].
  rewrite Hn. rewrite <- (Forall_map jr_id (fun i => 0 < i < next_id t)), E. by rewrite Forall_map.
Qed.

Lemma record_step_wf e d d' : record_step e d d' -> db_wf d -> db_wf d'.
Proof.
  intros (e' & t & cs & _ & Hid & [Hn Hmap] & m & news & -> & _ & _ & Hids) Hw.
  unfold db_wf in *. simpl in *. decompose [and] Hw. repeat (split; [done|]).
  split; [by apply (streaks_keep _ _ (conj Hn Hmap))|].
  repeat (split; [done|]). split; [|repeat (split; [done|])].
  - apply append_wf; [by match goal with He : table_wf ev_id _ |- _ => apply He end| |done]. simpl. f_equal. lia.
  - apply append_wf; [by match goal with He : table_wf dl_id _ |- _ => apply He end|done|done].
Qed.

Lemma micro_wf d d' : micro d d' -> db_wf d -> db_wf d'.
Proof.
  intros Hm Hw. destruct Hm; try (by eapply record_step_wf);
    unfold db_wf in *; simpl; decompose [and] Hw; clear Hw;
    repeat match goal with Hk : keeps_ids _ _ _ |- _ => destruct Hk as [Hk _] end;
    repeat split_and; auto using table_wf_delete;
    try (apply table_wf_insert; [intros; match goal with Hf : forall i, _ |- _ => apply Hf end|done]);
    try (apply table_wf_update; [intros r; match goal with Hf : forall i, _ /\ _ |- _ => apply Hf | Hf : forall r, same_run _ _ |- _ => apply Hf end|done]).
Qed.

Lemma msteps_wf d d' : msteps d d' -> db_wf d -> db_wf d'.
Proof. intros Hs. induction Hs; intros Hw; [done|]. apply IHHs. by eapply micro_wf. Qed.

(** Steps from a well-formed database. *)
Definition wsteps (d d' : DB) : Prop := db_wf d -> msteps d d'.

#[export] Instance wsteps_refl : Reflexive wsteps.
Proof. intros d _. reflexivity. Qed.
#[export] Instance wsteps_trans : Transitive wsteps.
Proof. intros d1 d2 d3 H1 H2 Hw. etrans; [by apply H1|]. apply H2. eapply msteps_wf; [by apply H1|done]. Qed.

Lemma evolves_wsteps {A} (m : Store A) : evolves msteps m -> evolves wsteps m.
Proof. intros Hm s _. apply Hm. Qed.

(** ** Every operation is a sequence of elementary steps *)

Lemma evolves_finishRunTx run st ec out : evolves msteps (finishRunTx run st ec out).
Proof.
  unfold finishRunTx. evolve. apply rtc_once, mi_run_update; [apply running_not_terminal|done].
Qed.

Lemma evolves_FinishRun run st ec out : evolves msteps (FinishRun run st ec out).
Proof.
  unfold FinishRun. apply evolves_tx; [apply _|]. apply evolves_bind; [apply _|apply evolves_finishRunTx|].
  intros u. apply evolves_ret; apply _.
Qed.

Lemma evolves_ReapStaleRun run out ev : P (Records ev) -> evolves msteps (ReapStaleRun run out ev).
Proof.
  intros Hev. unfold ReapStaleRun. evolve.
  apply rtc_once, mi_run_update; [apply running_not_terminal|done].
Qed.

Lemma evolves_Requeue : evolves msteps RequeueOrphanedRuns.
Proof.
  unfold RequeueOrphanedRuns, autocommit. evolve. apply rtc_once, mi_run_update; [|done].
  intros r Hr. apply andb_true_iff in Hr as [Hr%has_status_true _]. by rewrite Hr.
Qed.

(** The row of a run, the only one with its id. *)
Lemma update_is_run d r p f : db_wf d -> r ∈ rows (db_runs d) -> p r = true ->
  (forall x, p x = true -> is_run (rr_id r) x = true) ->
  update_where (is_run (rr_id r)) f (db_runs d) = update_where p f (db_runs d).
Proof.
  intros Hw Hr Hp Hi. unfold update_where. f_equal. apply map_ext_in. intros x Hx. rewrite <- list_elem_of_In in Hx.
  destruct (is_run (rr_id r) x) eqn:E, (p x) eqn:Px; try done.
  - unfold is_run in E. bsimpl. assert (x = r) as ->; [|congruence].
    eapply (table_key_inj rr_id); [apply Hw|done|done|done].
  - rewrite (Hi x Px) in E. done.
Qed.

Lemma evolves_ClaimRun w : evolves wsteps (ClaimRun w).
Proof.
  unfold ClaimRun, autocommit. apply evolves_tx; [apply _|]. intros s Hw.
  unfold bind at 1 2, now_ at 1, query at 1, bind at 1. simpl.
  destruct (select1 (has_status StatusPending) (db_runs (st_db s))) as [r|] eqn:E; simpl; [|reflexivity].
  apply select1_Some in E as [Hr Hp]. unfold on_runs. 
  rewrite (update_is_run _ r (fun x => is_run (rr_id r) x && has_status StatusPending x)); [|done|done| |].
  - apply rtc_once.
    apply (mi_run_update (st_db s) (fun x => is_run (rr_id r) x && has_status StatusPending x)
             (fun r => rr_claim r StatusRunning (Some w) (Some (clock (st_tick s))))); [|done].
    intros x Hx. apply andb_true_iff in Hx as [_ Hx%has_status_true]. by rewrite Hx.
  - unfold is_run. by rewrite Z.eqb_refl.
  - intros x Hx. by bsimpl.
Qed.

Lemma evolves_endStreak run : evolves msteps (endStreak run).
Proof.
  unfold endStreak, dropHeld. evolve; apply rtc_once.
  - apply mi_jobs, keeps_update. reflexivity.
  - apply mi_alerts, held_from_imap. intros k r r' y Hf Hh. injection Hf as <-. by case_match.
Qed.

Lemma evolves_emit_recovery run ev : P (Records (RunRecoveredEvent ev run)) -> evolves msteps (emit_recovery run ev).
Proof. intros Hev. unfold emit_recovery. evolve. Qed.

#[local] Hint Resolve evolves_finishRunTx evolves_endStreak evolves_emit_recovery : evolves.

(** The end of a run and its attempt count are one step, since the row is
    running when the transaction gets to it. *)
Lemma evolves_finish_attempt run st ec out att :
  evolves wsteps (finishRunTx run st ec out ;;; exec (on_runs (update_where (is_run run) (fun r => rr_with_attempt r att)))).
Proof.
  intros s Hw. unfold finishRunTx, bind, now_, query, exec. simpl.
  destruct (Z.eqb_spec (count_where (running run) (db_runs (st_db s))) 0) as [E|E]; simpl.
  - assert (Hd : forall f, on_runs (update_where (running run) f) (st_db s) = st_db s).
    { intros f. unfold on_runs. rewrite (update_where_none _ _ _ E). by destruct (st_db s). }
    rewrite Hd. by destruct (exists_row _ _).
  - assert (Hex : exists r, r ∈ rows (db_runs (st_db s)) /\ running run r = true).
    { apply exists_row_true. apply not_false_iff_true. intros F. apply E. apply count_where_0. by apply exists_row_false. }
    destruct Hex as (r & Hr & Hp). pose proof Hp as [Hid _]%running_true.
    set (fin := fun r => rr_finish r st ec out (clock (st_tick s))).
    replace (on_runs (update_where (is_run run) (fun r => rr_with_attempt r att)) (on_runs (update_where (running run) fin) (st_db s)))
      with (on_runs (update_where (running run) (fun r => rr_with_attempt (fin r) att)) (st_db s)).
    + apply rtc_once, mi_run_update; [apply running_not_terminal|done].
    + unfold on_runs, update_where. simpl. f_equal. f_equal. rewrite map_map. apply map_ext_in. intros x Hx.
      rewrite <- list_elem_of_In in Hx. destruct (running run x) eqn:Ex; simpl.
      * apply running_true in Ex as [Ex _]. unfold is_run. simpl. by rewrite Ex, Z.eqb_refl.
      * destruct (is_run run x) eqn:Ei; [|done]. apply Z.eqb_eq in Ei.
        assert (x = r) as ->; [|congruence]. eapply (table_key_inj rr_id); [apply Hw|done|done|congruence].
Qed.

Lemma bind_assoc {A B C} (m : Store A) (k : A -> Store B) (k' : B -> Store C) s :
  bind m (fun a => bind (k a) k') s = bind (bind m k) k' s.
Proof. unfold bind. by destruct (m s) as [[a|e] s']. Qed.

Lemma evolves_FinishRunAndEmit run st ec att out ev : P (Records ev) -> P (Records (RunRecoveredEvent ev run)) ->
  evolves wsteps (FinishRunAndEmit run st ec att out ev).
Proof.
  intros Hev Hrec. unfold FinishRunAndEmit. apply evolves_tx; [apply _|]. intros s.
  rewrite (bind_assoc (finishRunTx run st ec out)
             (fun _ => exec (on_runs (update_where (is_run run) (fun r => rr_with_attempt r att))))). revert s.
  change (evolves wsteps (let* u := (finishRunTx run st ec out ;;; exec (on_runs (update_where (is_run run) (fun r => rr_with_attempt r att)))) in
    (let* id := emitEvent ev in
     (if bool_decide (st = StatusSucceeded) then emit_recovery run ev ;;; endStreak run else ret tt) ;;; ret (Commit id)))).
  apply evolves_bind; [apply _|apply evolves_finish_attempt|]. intros u. apply evolves_wsteps. evolve.
Qed.

Lemma evolves_drop_one c : evolves msteps (drop_one c).
Proof.
  unfold drop_one. evolve. apply rtc_once, mi_alerts.
  destruct (db_alerts d !! (hc_channel c, hc_job c)) as [r|]; [|apply held_from_refl].
  case_bool_decide; [|apply held_from_refl]. apply held_from_insert. by left.
Qed.

Lemma evolves_releaseOne c now : evolves msteps (releaseOne c now).
Proof.
  unfold releaseOne. apply evolves_tx; [apply _|].
  apply evolves_bind; [apply _|evolve|]. intros [st held]. case_match; [evolve|].
  apply evolves_bind; [apply _|evolve|]. intros [repeat routed]. case_match; [apply evolves_drop_one|].
  case_match; [evolve|]. apply evolves_bind; [apply _|evolve|]. intros job.
  destruct (match job with None => true | Some j => jr_failed_runs j <=? 0 end); [apply evolves_drop_one|].
  apply evolves_bind; [apply _|evolve|]. intros last. case_match; [apply evolves_drop_one|].
  apply evolves_bind; [apply _|evolve|]. intros [st' held']. case_match; [evolve|].
  intros s. unfold bind at 1, query at 1.
  destruct (exists_row (fun e => ev_id e =? hc_event c) (db_events (st_db s))) eqn:E; simpl; [|apply evolves_drop_one].
  apply exists_row_true in E as (e & He & Hid). apply Z.eqb_eq in Hid.
  etrans; [|apply rtc_once; apply (mi_delivery_new (on_alerts _ (st_db s))
    (new_delivery (hc_org c) (hc_event c) (hc_channel c) (clock (st_tick s))))].
  - apply rtc_once, mi_alerts, held_from_insert. by left.
  - intros i. split; [done|]. by exists e.
Qed.

Lemma evolves_release_all cs now : evolves msteps (release_all cs now).
Proof.
  induction cs as [|c cs IH]; simpl; [evolve|].
  apply evolves_bind; [apply _|apply evolves_try, evolves_releaseOne|]. intros r. evolve.
Qed.

#[local] Hint Resolve evolves_release_all evolves_FinishRun evolves_ReapStaleRun evolves_Requeue : evolves.

(** A trim deletes rows of the heartbeat. *)
Lemma trim_none {R} (t : Table R) : t = delete_where (fun _ => false) t.
Proof. unfold delete_where. destruct t as [l n]. simpl. f_equal. induction l as [|x l IH]; simpl; congruence. Qed.

(** A row that [p] takes has an id no greater than that of an entry beyond those kept. *)
Definition beyond (h : Z) (t : Table PingRow) (p : PingRow -> bool) : Prop := forall r, p r = true -> p_heartbeat (pr_ping r) = h /\
  exists i x, rev (log_of h t) !! i = Some x /\ pr_id r <= pr_id x /\
    (maxPingsPerHeartbeat <= Z.of_nat i \/ maxPingLogBytes < log_bytes (take (S i) (rev (log_of h t)))).

Lemma trim_entries_delete h t : exists p, trim_entries h t = delete_where p t /\ beyond h t p.
Proof.
  unfold trim_entries. fold (log_of h t). destruct (rev (log_of h t) !! Z.to_nat maxPingsPerHeartbeat) as [r0|] eqn:E; eexists; (split; [first [apply trim_none | reflexivity]|]); [|done].
  intros r [Hr%Z.eqb_eq Hid%Z.leb_le]%andb_true_iff. split; [done|]. exists (Z.to_nat maxPingsPerHeartbeat), r0. split; [done|]. split; [done|]. left.
  unfold maxPingsPerHeartbeat. lia.
Qed.

Lemma trim_bytes_delete h t : exists p, trim_bytes h t = delete_where p t /\ beyond h t p.
Proof.
  unfold trim_bytes. fold (log_of h t). set (L := rev (log_of h t)). set (over := List.filter _ (running_sums 0 L)).
  pose proof (max_opt_spec (map (fun x => pr_id (fst x)) over)) as Hm.
  destruct (max_opt _) as [m|]; eexists; (split; [first [apply trim_none | reflexivity]|]); [|done].
  destruct Hm as [([x n] & [Hx Hgt]%elem_of_filter_b & ->)%elem_of_map _]. simpl in *. apply list_elem_of_lookup in Hx as [i Hi].
  intros r [Hr%Z.eqb_eq Hid%Z.leb_le]%andb_true_iff. split; [done|]. assert (Hl : is_Some (L !! i)).
  { apply lookup_lt_is_Some. rewrite <- (length_running_sums 0 L). by eapply lookup_lt_Some. }
  destruct Hl as [y Hy]. rewrite (running_sums_lookup _ _ _ _ Hy) in Hi. injection Hi as -> <-. exists i, x. split; [done|]. split; [done|]. right. fold L. lia.
Qed.

Lemma trims_step h f d : (forall log r, crowded log r -> P (DropsPing log r)) -> f = trim_entries h \/ f = trim_bytes h -> msteps d (on_pings f d).
Proof.
  intros HP Hf. assert (Hp : exists p, f (db_pings d) = delete_where p (db_pings d) /\ beyond h (db_pings d) p).
  { destruct Hf as [-> | ->]; [apply trim_entries_delete|apply trim_bytes_delete]. }
  destruct Hp as (p & E & Hb). apply rtc_once. unfold on_pings. rewrite E. apply mi_ping_delete. intros r Hr Hp. apply HP. split; [done|].
  destruct (Hb r Hp) as [-> Hx]. exact Hx.
Qed.

(** The event of a transition is one of the heartbeat's. *)
Lemma ping_state_event token i now s r ev s' :
  ping_state token i now s = (Ok (Some (r, Some ev)), s') ->
  ev = RecoveredEvent (hr_org r) (hr_id r) (hr_name r) \/
  ev = FailedEvent (hr_org r) (hr_id r) (hr_name r) (in_exit_status i) (in_body i).
Proof.
  unfold ping_state, guarded_update, update_hb, bind, query, exec, ret. destruct (in_kind i); simpl; intros E.
  - destruct (select1 _ _) as [x|]; simpl in E; [injection E as <- <- _; by left|].
    destruct (select1 _ _) as [x|]; simpl in E; [by injection E|done].
  - destruct (select1 _ _) as [x|]; simpl in E; by injection E.
  - destruct (select1 _ _) as [x|]; simpl in E; [injection E as <- <- _; by right|].
    destruct (select1 _ _) as [x|]; simpl in E; [by injection E|done].
  - destruct (select1 _ _) as [x|]; simpl in E; by injection E.
  - done.
Qed.

Lemma evolves_ping_state token i now : evolves msteps (ping_state token i now).
Proof. unfold ping_state, guarded_update, update_hb. evolve; micro1. Qed.

Lemma evolves_RecordHeartbeatPing token i now :
  (forall log r, crowded log r -> P (DropsPing log r)) ->
  (forall org id name, P (Records (RecoveredEvent org id name))) ->
  (forall org id name, P (Records (FailedEvent org id name (in_exit_status i) (in_body i)))) ->
  evolves msteps (RecordHeartbeatPing token i now).
Proof.
  intros H3 H1 H2. unfold RecordHeartbeatPing. case_match; [evolve|]. apply evolves_tx; [apply _|]. intros s.
  pose proof (evolves_ping_state token i now s) as Hs. unfold bind at 1.
  destruct (ping_state token i now s) as [[[[r ev]|]|e] s'] eqn:E; simpl in *; [|done|done].
  etrans; [exact Hs|]. match goal with |- msteps _ (st_db (snd (?m s'))) => cut (evolves msteps m); [intros Hm; apply Hm|] end.
  destruct ev as [ev|].
  - assert (Hev : P (Records ev)) by (apply ping_state_event in E as [-> | ->]; auto).
    evolve; [micro1| |]; (eapply trims_step; [done|]); auto.
  - evolve; [micro1| |]; (eapply trims_step; [done|]); auto.
Qed.

(** The events operation [o] may record are among [P]. *)
Definition emits (o : Op) : Prop :=
  match o with
  | OpDeleteJob org id => forall name, P (Records (JobRemovedEvent org id name))
  | OpFailUnreadableJob org job name output => forall run, r_org run = org -> r_job run = job ->
      P (Records (with_detail (RunEvent run name EventRunFailed StatusFailed (-1)) (UnreadableFailureDetail output)))
  | OpFinishRunAndEmit run _ _ _ _ ev => P (Records ev) /\ P (Records (RunRecoveredEvent ev run))
  | OpReapStaleRun _ _ ev | OpEmitEvent ev | OpSetHeartbeatStatusIfAndEmit _ _ _ _ ev
  | OpMarkHeartbeatDownAndEmit _ ev | OpFailDeliveryAndEmit _ ev => P (Records ev)
  | OpDeleteHeartbeat org _ => forall name, P (Records (RemovedEvent org name))
  | OpRecordHeartbeatPing _ i _ => (forall org id name, P (Records (RecoveredEvent org id name))) /\
      (forall org id name, P (Records (FailedEvent org id name (in_exit_status i) (in_body i))))
  | _ => True
  end.

(** Each operation is a sequence of elementary steps of a well-formed database. *)
Lemma run_op_steps o : emits o -> (forall c, drops o c -> P c) -> evolves wsteps (run_op o).
Proof.
  destruct o; simpl; intros He Hdrop; try match goal with Hc : _ /\ _ |- _ => destruct Hc end;
    try (apply evolves_bind; [apply _|first [apply evolves_ClaimRun | by apply evolves_FinishRunAndEmit]|];
         intros a; apply evolves_ret; apply _);
    apply evolves_wsteps;
    try (apply evolves_bind; [apply _|by apply evolves_RecordHeartbeatPing; [intros log r; apply (Hdrop (DropsPing log r))|..]|]; intros a; apply evolves_ret; apply _);
    unfold ignore; unfold_ops; evolve; try micro1;
    apply rtc_once.
  all: try (apply mi_delivery_update; intros r; split; [done|]; simpl; by auto).
  all: try (apply mi_run_update; [apply running_not_terminal|done]).
  all: try (apply mi_event_delete; intros e Hp; unfold prunable_event in Hp; bsimpl; split; [done|]; apply Hdrop; simpl; lia).
Qed.

End Micro.

(** ** The clock *)

Section Clock.

Lemma advances_recordEvent e : advances (recordEvent e).
Proof.
  unfold recordEvent, streakOf, enqueueDeliveries, enqueue_one, paced, saveAlertState, insertDelivery. advance.
Qed.

#[local] Hint Resolve advances_recordEvent : evolves.

Lemma advances_join_events l : advances (join_events l).
Proof. induction l as [|r l IH]; simpl; advance. Qed.

Lemma advances_releaseOne c now : advances (releaseOne c now).
Proof. unfold releaseOne, drop_one, saveAlertState, insertDelivery. advance. Qed.

#[local] Hint Resolve advances_join_events advances_releaseOne : evolves.

Lemma advances_release_all cs now : advances (release_all cs now).
Proof. induction cs as [|c cs IH]; simpl; advance. Qed.

#[local] Hint Resolve advances_release_all : evolves.

(** No operation turns the clock back. *)
Lemma advances_op o : advances (run_op o).
Proof. destruct o; simpl; unfold ignore; unfold_all_ops; unfold emitEvent; advance. Qed.

End Clock.

End Ops.
