(* ===== verification/Watch.v ===== *)
(** * The heartbeat watcher and the alternation of its alarms
      ([Watcher.Check] of [internal/heartbeat/heartbeat.go])

    [Check] reads the overdue heartbeats in one statement and marks each down
    in a transaction of its own, so pings, other checks and deletions run in
    between. [watch_step] is every such interleaving. *)
From S2P Require Import Prelude GoTime Domain Heartbeat Sql Schema StoreEvents StoreRuns StoreHeartbeats StoreDeliveries StoreConfig StoreInv.
From stdpp Require Import relations.
Open Scope Z_scope.

(** ** [Check] *)

(** The event of a heartbeat found overdue. *)
Definition miss_event (h : Heartbeat) : Event :=
  let '(_, overran, _) := Deadline h in if overran : bool then OverranEvent h else OverdueEvent h.

Section Check.
Context `{World} `{JSONText}.

(** The loop of [Check]: the events it dispatches. An error is logged, and the loop goes on. *)
Fixpoint check_all (due : list Heartbeat) : Store (list Event) :=
  match due with
  | [] => ret []
  | h :: r =>
      let* fired := try (MarkHeartbeatDownAndEmit h (miss_event h)) in
      let* evs := check_all r in
      ret (match fired with Ok true => miss_event h :: evs | _ => evs end)
  end.

(** [Check] at [now]. *)
Definition Check (now : Time) : Store (list Event) :=
  let* due := DueHeartbeats now in check_all due.

End Check.

(** ** A heartbeat's life in the events *)

Inductive Life := LMissed | LRecovered | LRemoved.
#[export] Instance Life_eq_dec : EqDecision Life.
Proof. solve_decision. Defined.

(** What an event says of heartbeat [name] of [org]. *)
Definition life_of (org : Z) (name : string) (e : Event) : option Life :=
  if heartbeat_event org name e then
    if String.eqb (ev_type e) EventMissed then Some LMissed
    else if String.eqb (ev_type e) EventRecovered then Some LRecovered
    else if String.eqb (ev_type e) EventRemoved then Some LRemoved else None
  else None.
Definition lives (org : Z) (name : string) (d : DB) : list Life := omap (life_of org name) (rows (db_events d)).

(** A miss follows no open miss, a recovery follows one; [down] says whether one is open. *)
Fixpoint alternates (down : bool) (l : list Life) : bool :=
  match l with
  | [] => true
  | LMissed :: r => negb down && alternates true r
  | LRecovered :: r => down && alternates false r
  | LRemoved :: r => alternates false r
  end.
Definition after_life (down : bool) (k : Life) : bool := match k with LMissed => true | _ => false end.
Definition alarm (l : list Life) : bool := fold_left after_life l false.

Definition silent (e : Event) : Prop := forall org name, life_of org name e = None.

Lemma alternates_snoc l k : forall b, alternates b (l ++ [k]) =
  alternates b l && match k with LMissed => negb (fold_left after_life l b) | LRecovered => fold_left after_life l b | LRemoved => true end.
Proof. induction l as [|[] l IH]; intros b; simpl; rewrite ?IH; destruct b, k; simpl; try done; by rewrite ?andb_true_r. Qed.

Lemma alarm_snoc l k : alarm (l ++ [k]) = after_life false k.
Proof. unfold alarm. rewrite fold_left_app. by destruct k. Qed.

(** ** What the operations do to it *)

Section Frame.
Context `{World} `{JSONText}.

(** The heartbeats and their lives are left alone. *)
Definition hb_frame (d d' : DB) : Prop := db_heartbeats d' = db_heartbeats d /\ forall org name, lives org name d' = lives org name d.

#[local] Instance hb_frame_refl : Reflexive hb_frame.
Proof. by intros d. Qed.
#[local] Instance hb_frame_trans : Transitive hb_frame.
Proof. intros d1 d2 d3 [H1 H2] [H3 H4]. split; [congruence|]. intros org name. by rewrite H4, H2. Qed.

(** Recording an event adds what it says. *)
Lemma lives_record e d d' org name : record_step e d d' ->
  lives org name d' = lives org name d ++ match life_of org name e with None => [] | Some k => [k] end.
Proof.
  intros (e' & t & cs & (Ho & Ht & Hs & Hp & _) & _ & _ & m & news & -> & _). unfold lives. simpl.
  rewrite omap_app. simpl. f_equal.
  assert (E : life_of org name e' = life_of org name e) by (unfold life_of, heartbeat_event; by rewrite Ho, Ht, Hs, Hp).
  rewrite E. by destruct (life_of org name e).
Qed.

Lemma frame_record e : silent e -> evolves hb_frame (recordEvent e).
Proof.
  intros Hs. apply evolves_recordEvent. intros d d' Hr. split; [by destruct (record_step_frame _ _ _ Hr) as (_ & ? & _)|].
  intros org name. rewrite (lives_record _ _ _ _ _ Hr), Hs. apply app_nil_r.
Qed.

Lemma frame_emit e : silent e -> evolves hb_frame (emitEvent e).
Proof. intros Hs. unfold emitEvent. apply evolves_bind; [apply _|by apply frame_record|]. intros a. apply evolves_ret; apply _. Qed.

#[local] Hint Resolve frame_record frame_emit : evolves.

(** The operations that are not about heartbeats, with the events the program
    records through them; retention sweeps of the events are left out, since
    what they delete has no life any more. *)
Definition elsewhere (o : Op) : Prop :=
  match o with
  | OpFinishRunAndEmit run _ _ _ _ ev => silent ev /\ silent (RunRecoveredEvent ev run)
  | OpReapStaleRun _ _ ev | OpEmitEvent ev | OpFailDeliveryAndEmit _ ev => silent ev
  | OpCreateHeartbeat _ | OpCreateHeartbeatIfAbsent _ | OpDeleteHeartbeat _ _ | OpRecordHeartbeatPing _ _ _
  | OpSetHeartbeatStatus _ _ | OpSetHeartbeatStatusIf _ _ _ _ | OpSetHeartbeatStatusIfAndEmit _ _ _ _ _
  | OpMarkHeartbeatDownAndEmit _ _ | OpPruneEvents _ => False
  | _ => True
  end.

Lemma silent_source e : String.eqb (ev_source e) heartbeat_source = false -> silent e.
Proof. intros E org name. unfold life_of, heartbeat_event. by rewrite E, andb_false_r. Qed.

#[local] Hint Resolve silent_source : evolves.

Lemma frame_join_events l : evolves hb_frame (join_events l).
Proof. induction l as [|r l IH]; simpl; evolve. Qed.

Lemma frame_releaseOne c now : evolves hb_frame (releaseOne c now).
Proof. unfold releaseOne, drop_one, saveAlertState, insertDelivery. evolve; done. Qed.

#[local] Hint Resolve frame_join_events frame_releaseOne : evolves.

Lemma frame_release_all cs now : evolves hb_frame (release_all cs now).
Proof. induction cs as [|c cs IH]; simpl; evolve. Qed.

#[local] Hint Resolve frame_release_all : evolves.

Lemma frame_op o : elsewhere o -> evolves hb_frame (run_op o).
Proof.
  destruct o; simpl; intros Ho; try done; try (destruct Ho);
    unfold ignore; unfold_all_ops;
    evolve; try done.
  all: try (apply frame_record, silent_source; reflexivity).
  all: try (apply frame_emit, silent_source; reflexivity).
Qed.

End Frame.

(** ** The invariant *)

Section Invariant.
Context `{World} `{JSONText}.

Definition named (org : Z) (name : string) (r : HbRow) : Prop := hr_org r = org /\ hr_name r = name.
Definition is_down (org : Z) (name : string) (d : DB) : Prop :=
  exists r, r ∈ rows (db_heartbeats d) /\ named org name r /\ hr_status r = HbDown.

(** Ids, names and tokens are unique. *)
Definition hb_unique (t : Table HbRow) : Prop :=
  table_wf hr_id t /\
  (forall r1 r2, r1 ∈ rows t -> r2 ∈ rows t -> hr_org r1 = hr_org r2 -> hr_name r1 = hr_name r2 -> r1 = r2) /\
  (forall r1 r2 token, r1 ∈ rows t -> r2 ∈ rows t -> hr_token r1 = Some token -> hr_token r2 = Some token -> r1 = r2).

(** The life still to be recorded of a transition made earlier in the transaction. *)
Abbreviation Due := (option (Z * string * Life)).
Definition due_for (x : Due) (org : Z) (name : string) : list Life :=
  match x with Some (o, n, k) => if bool_decide (o = org /\ n = name) then [k] else [] | None => [] end.

(** With [x] recorded, each heartbeat's misses and recoveries alternate, and
    its alarm is open exactly when it is down. *)
Definition winv (x : Due) (d : DB) : Prop :=
  hb_unique (db_heartbeats d) /\
  forall org name, let l := lives org name d ++ due_for x org name in
    alternates false l = true /\ (alarm l = true <-> is_down org name d).

Lemma winv_frame x d d' : hb_frame d d' -> winv x d -> winv x d'.
Proof.
  intros [Eh El] [Hu Hw]. split; [by rewrite Eh|]. intros org name. rewrite El. unfold is_down. rewrite Eh. apply Hw.
Qed.

Lemma hoare_frame x {A} (m : Store A) : evolves hb_frame m -> hoare (winv x) m (fun _ => winv x).
Proof. intros Hm s Hs. specialize (Hm s). destruct (m s) as [[a|e] s']; [|done]. by eapply winv_frame. Qed.

(** Recording the event of the transition. *)
Definition says (x : Due) (e : Event) : Prop := forall org name,
  (match life_of org name e with None => [] | Some k => [k] end) = due_for x org name.

Lemma winv_record x e d d' : says x e -> record_step e d d' -> winv x d -> winv None d'.
Proof.
  intros Hs Hr [Hu Hw]. destruct (record_step_frame _ _ _ Hr) as (_ & Eh & _). split; [by rewrite Eh|].
  intros org name. rewrite (lives_record _ _ _ _ _ Hr), Hs, app_nil_r. unfold is_down. rewrite Eh. apply Hw.
Qed.

Lemma hoare_emit x e : says x e -> hoare (winv x) (emitEvent e) (fun _ => winv None).
Proof.
  intros Hs s Hw. unfold emitEvent, bind. pose proof (recordEvent_step e s) as Hr.
  destruct (recordEvent e s) as [[e'|e'] s']; [|done]. simpl in *. by eapply winv_record.
Qed.

(** The transition of a row. *)
Definition change (r r' : HbRow) : Due :=
  match bool_decide (hr_status r = HbDown), bool_decide (hr_status r' = HbDown) with
  | true, false => Some (hr_org r, hr_name r, LRecovered)
  | false, true => Some (hr_org r, hr_name r, LMissed)
  | _, _ => None
  end.

Definition same_hb (r r' : HbRow) : Prop :=
  hr_id r' = hr_id r /\ hr_org r' = hr_org r /\ hr_name r' = hr_name r /\ hr_token r' = hr_token r.

Lemma hb_unique_update p f t : (forall r, same_hb r (f r)) -> hb_unique t -> hb_unique (update_where p f t).
Proof.
  intros Hf (H1 & H2 & H3).
  assert (Hs : forall x, same_hb x (if p x then f x else x)) by (intros x; destruct (p x); [apply Hf|done]).
  split; [apply table_wf_update; [apply Hf|done]|split].
  - intros r1 r2 (x1 & Hx1 & ->)%elem_of_update (x2 & Hx2 & ->)%elem_of_update.
    destruct (Hs x1) as (_ & -> & -> & _), (Hs x2) as (_ & -> & -> & _). intros E1 E2. by rewrite (H2 x1 x2).
  - intros r1 r2 tok (x1 & Hx1 & ->)%elem_of_update (x2 & Hx2 & ->)%elem_of_update.
    destruct (Hs x1) as (_ & _ & _ & ->), (Hs x2) as (_ & _ & _ & ->). intros E1 E2. by rewrite (H3 x1 x2 tok).
Qed.

(** One row is updated. *)
Lemma winv_update p f r d : winv None d -> (forall x, same_hb x (f x)) -> r ∈ rows (db_heartbeats d) -> p r = true ->
  (forall x, x ∈ rows (db_heartbeats d) -> p x = true -> x = r) ->
  winv (change r (f r)) (on_heartbeats (update_where p f) d).
Proof.
  intros [Hu Hw] Hf Hr Hp Hone. split; [by apply hb_unique_update|]. intros org name.
  specialize (Hw org name). cbn [due_for] in Hw. rewrite app_nil_r in Hw. destruct Hw as [Ha Hd].
  change (lives org name (on_heartbeats (update_where p f) d)) with (lives org name d).
  assert (Hdown : is_down org name (on_heartbeats (update_where p f) d) <->
    if bool_decide (named org name r) then hr_status (f r) = HbDown else is_down org name d).
  { unfold is_down. destruct Hu as (_ & Hname & _). simpl. split.
    - intros (x' & (x & Hx & ->)%elem_of_update & Hn & Hs). destruct (p x) eqn:Px.
      + rewrite (Hone x Hx Px) in *. destruct (Hf r) as (_ & E1 & E2 & _). unfold named in *. rewrite E1, E2 in Hn.
        by rewrite bool_decide_eq_true_2.
      + case_bool_decide as Hb; [|by exists x]. destruct Hn, Hb.
        assert (x = r) as -> by (apply Hname; congruence). congruence.
    - case_bool_decide as Hb.
      + intros Hs. exists (f r). split; [|split; [|done]].
        * apply elem_of_update. exists r. by rewrite Hp.
        * destruct (Hf r) as (_ & E1 & E2 & _). unfold named in *. by rewrite E1, E2.
      + intros (x & Hx & Hn & Hs). exists x. split; [|done]. apply elem_of_update. exists x. split; [done|].
        destruct (p x) eqn:Px; [|done]. rewrite (Hone x Hx Px) in Hn. done. }
  assert (Hr_down : named org name r -> (alarm (lives org name d) = true <-> hr_status r = HbDown)).
  { intros Hn. rewrite Hd. destruct Hu as (_ & Hname & _). split; [|by intros; exists r].
    intros (x & Hx & Hnx & Hs). assert (x = r) as <-; [|done]. apply Hname; unfold named in *; intuition congruence. }
  cbv zeta. rewrite Hdown. clear Hdown. unfold change.
  destruct (bool_decide (hr_status r = HbDown)) eqn:B1; [apply bool_decide_eq_true in B1|apply bool_decide_eq_false in B1];
    (destruct (bool_decide (hr_status (f r) = HbDown)) eqn:B2; [apply bool_decide_eq_true in B2|apply bool_decide_eq_false in B2]);
    cbn [due_for]; fold (named org name r); destruct (decide (named org name r)) as [Hn|Hn];
    (rewrite ?(bool_decide_eq_true_2 (named org name r)) by done); (rewrite ?(bool_decide_eq_false_2 (named org name r)) by done);
    rewrite ?app_nil_r, ?alternates_snoc, ?alarm_snoc, ?Ha; try (specialize (Hr_down Hn)); fold (alarm (lives org name d)); simpl;
    try (split; [done|tauto]); try (split; [done|]; intuition congruence).
  - assert (E : alarm (lives org name d) = true) by tauto. rewrite E. split; [done|intuition congruence].
  - destruct (alarm (lives org name d)) eqn:E; [tauto|]. split; [done|intuition congruence].
Qed.

(** No row is updated. *)
Lemma winv_update_none x p f d : winv x d -> (forall r, r ∈ rows (db_heartbeats d) -> p r = false) ->
  winv x (on_heartbeats (update_where p f) d).
Proof.
  intros Hw Hn. replace (on_heartbeats (update_where p f) d) with d; [done|].
  unfold on_heartbeats. rewrite update_where_none; [by destruct d|]. by apply count_where_0.
Qed.

(** An id taken for nothing changes nothing either. *)
Lemma hb_unique_draw t : hb_unique t -> hb_unique (draw t).
Proof. intros (Hw & Hn & Ht). split; [by apply table_wf_draw|done]. Qed.

Lemma winv_draw d : winv None d -> winv None (on_heartbeats draw d).
Proof. intros [Hu Hw]. split; [by apply hb_unique_draw|exact Hw]. Qed.

(** Settings change nothing. *)
Lemma winv_settings p f d : winv None d -> (forall x, same_hb x (f x) /\ hr_status (f x) = hr_status x) ->
  winv None (on_heartbeats (update_where p f) d).
Proof.
  intros [Hu Hw] Hf. split; [apply hb_unique_update; [apply Hf|done]|]. intros org name. specialize (Hw org name).
  change (lives org name (on_heartbeats (update_where p f) d)) with (lives org name d). destruct Hw as [Ha Hd].
  split; [done|]. rewrite Hd. unfold is_down, named. split.
  - intros (x & Hx & [E1 E2] & Hs). exists (if p x then f x else x). split; [apply elem_of_update; by exists x|].
    destruct (p x); [|done]. destruct (Hf x) as [(_ & -> & -> & _) ->]. done.
  - intros (x' & (x & Hx & ->)%elem_of_update & [E1 E2] & Hs). exists x. split; [done|].
    destruct (p x); [|done]. destruct (Hf x) as [(_ & F1 & F2 & _) F3]. rewrite F1 in E1. rewrite F2 in E2. rewrite F3 in Hs. done.
Qed.

(** A heartbeat is created. *)
Lemma winv_insert h now d : winv None d -> exists_row (hb_named (hb_org h) (hb_name h)) (db_heartbeats d) = false ->
  exists_row (has_token (hb_token h)) (db_heartbeats d) = false ->
  winv None (on_heartbeats (insert_row (new_hb h now)) d).
Proof.
  rewrite !exists_row_false. intros [(H1 & H2 & H3) Hw] Hn Ht. split; [split; [|split]|].
  - by apply table_wf_insert.
  - assert (Hnew : forall r, r ∈ rows (db_heartbeats d) -> hr_org r = hb_org h -> hr_name r = hb_name h -> False).
    { intros r Hr E1 E2. specialize (Hn r Hr). unfold hb_named in Hn. rewrite E1, E2, Z.eqb_refl, String.eqb_refl in Hn. done. }
    intros r1 r2 [Hr1| ->]%elem_of_insert [Hr2| ->]%elem_of_insert E1 E2; [by apply H2| | |done]; exfalso; simpl in *; by eapply Hnew.
  - assert (Hnew : forall r, r ∈ rows (db_heartbeats d) -> hr_token r = Some (hb_token h) -> False).
    { intros r Hr E. specialize (Ht r Hr). unfold has_token in Ht. by rewrite bool_decide_eq_true_2 in Ht. }
    intros r1 r2 tok [Hr1| ->]%elem_of_insert [Hr2| ->]%elem_of_insert E1 E2; [by eapply H3| | |done]; exfalso; simpl in *;
      eapply Hnew; [done|congruence|done|congruence].
  - intros org name. specialize (Hw org name).
    change (lives org name (on_heartbeats (insert_row (new_hb h now)) d)) with (lives org name d). destruct Hw as [Ha Hd].
    split; [done|]. rewrite Hd. unfold is_down. split.
    + intros (r & Hr & H'). exists r. split; [apply elem_of_insert; by left|done].
    + intros (r & [Hr| ->]%elem_of_insert & Hnm & Hs); [by exists r|done].
Qed.

(** A heartbeat is deleted. *)
Lemma winv_delete r org id d : winv None d -> r ∈ rows (db_heartbeats d) -> is_hb org id r = true ->
  winv (Some (hr_org r, hr_name r, LRemoved)) (on_heartbeats (delete_where (is_hb org id)) d).
Proof.
  intros [(H1 & H2 & H3) Hw] Hr Hp. split; [split; [|split]|].
  - by apply table_wf_delete.
  - intros r1 r2 [? _]%elem_of_delete [? _]%elem_of_delete. by apply H2.
  - intros r1 r2 tok [? _]%elem_of_delete [? _]%elem_of_delete. by apply H3.
  - intros org' name. specialize (Hw org' name). cbn [due_for] in *. rewrite app_nil_r in Hw. destruct Hw as [Ha Hd].
    change (lives org' name (on_heartbeats (delete_where (is_hb org id)) d)) with (lives org' name d).
    assert (Hone : forall x, x ∈ rows (db_heartbeats d) -> is_hb org id x = true -> x = r).
    { intros x Hx Hpx. unfold is_hb in *. bsimpl. eapply (table_key_inj hr_id); [done|done|done|congruence]. }
    case_bool_decide as Hn.
    + rewrite alternates_snoc, alarm_snoc, Ha. split; [done|]. split; [done|].
      intros (x & [Hx Hpx]%elem_of_delete & [E1 E2] & Hs). destruct Hn as [<- <-]. assert (x = r) as -> by by apply H2.
      congruence.
    + rewrite app_nil_r. split; [done|]. rewrite Hd. unfold is_down. split.
      * intros (x & Hx & Hnx & Hs). exists x. split; [|done]. apply elem_of_delete. split; [done|].
        destruct (is_hb org id x) eqn:Px; [|done]. by rewrite (Hone x Hx Px) in Hnx.
      * intros (x & [Hx _]%elem_of_delete & H'). by exists x.
Qed.

(** ** The operations keep it *)

Lemma winv_hb_token d token r1 r2 : winv None d -> r1 ∈ rows (db_heartbeats d) -> r2 ∈ rows (db_heartbeats d) ->
  has_token token r1 = true -> has_token token r2 = true -> r1 = r2.
Proof. intros [(_ & _ & Ht) _] H1 H2 E1 E2. unfold has_token in *. bsimpl. by eapply Ht. Qed.

(** One guarded update of the row with a token. *)
Lemma hoare_update_hb token guard f : (forall x, same_hb x (f x)) ->
  hoare (winv None) (update_hb (fun r => has_token token r && guard r) f)
    (fun o d => match o with
                | Some r => guard r = true /\ winv (change r (f r)) d
                | None => winv None d /\ forall r, r ∈ rows (db_heartbeats d) -> has_token token r && guard r = false
                end).
Proof.
  intros Hf s Hw. unfold update_hb, bind, query, exec, ret. simpl.
  destruct (select1 _ (db_heartbeats (st_db s))) as [r|] eqn:E; simpl.
  - apply select1_Some in E as [Hr Hp]. pose proof Hp as [Ht Hg]%andb_true_iff. split; [done|].
    apply winv_update; try done. intros x Hx [Hxt _]%andb_true_iff. by eapply winv_hb_token.
  - rewrite select1_None in E. split; [by apply winv_update_none|]. intros r (x & Hx & ->)%elem_of_update.
    rewrite (E x Hx). by apply E.
Qed.

Lemma hoare_update_hb_any token f : (forall x, same_hb x (f x)) ->
  hoare (winv None) (update_hb (has_token token) f)
    (fun o d => match o with Some r => winv (change r (f r)) d | None => winv None d end).
Proof.
  intros Hf s Hw. pose proof (hoare_update_hb token (fun _ => true) f Hf s Hw) as H'.
  assert (E : update_hb (fun r => has_token token r && true) f s = update_hb (has_token token) f s).
  { unfold update_hb, bind, query, exec, ret. simpl.
    assert (Ep : forall r, has_token token r && true = has_token token r) by (intros; apply andb_true_r).
    unfold select1, update_where, on_heartbeats. simpl. rewrite (map_ext _ (fun r => if has_token token r then f r else r)) by (intros; by rewrite Ep).
    f_equal. f_equal. clear -Ep. induction (rows (db_heartbeats (st_db s))) as [|x l IH]; simpl; [done|]. by rewrite Ep, IH. }
  rewrite <- E. destruct (update_hb _ f s) as [[[r|]|e] s']; [tauto|tauto|done].
Qed.

Lemma says_life org name k e : (forall o n, life_of o n e = if bool_decide (org = o /\ name = n) then Some k else None) ->
  says (Some (org, name, k)) e.
Proof. intros He o n. rewrite He. simpl. by case_bool_decide. Qed.

Lemma heartbeat_event_spec org name o n typ d : 
  heartbeat_event o n (with_detail (new_event org typ heartbeat_source (PlText name) "" DtNone) d) = bool_decide (org = o /\ name = n).
Proof.
  unfold heartbeat_event. simpl. rewrite andb_true_r. destruct (Z.eqb_spec org o), (String.eqb_spec name n); simpl;
    symmetry; first [apply bool_decide_eq_true_2; done|apply bool_decide_eq_false_2; tauto].
Qed.

Lemma says_recovered org id name : says (Some (org, name, LRecovered)) (RecoveredEvent org id name).
Proof.
  apply says_life. intros o n. unfold life_of. pose proof (heartbeat_event_spec org name o n EventRecovered
    (if 0 <? id then DtHeartbeat id else DtNone)) as E. unfold RecoveredEvent, with_detail, new_event in *. simpl in *. by rewrite E.
Qed.

Lemma says_missed org name d : says (Some (org, name, LMissed)) (with_detail (MissedEvent org name) d).
Proof.
  apply says_life. intros o n. unfold life_of, MissedEvent. rewrite heartbeat_event_spec. done.
Qed.

Lemma says_removed org name : says (Some (org, name, LRemoved)) (RemovedEvent org name).
Proof.
  apply says_life. intros o n. unfold life_of. pose proof (heartbeat_event_spec org name o n EventRemoved DtNone) as E.
  unfold RemovedEvent, with_detail, new_event in *. simpl in *. by rewrite E.
Qed.

Lemma hoare_ping_state token i now : hoare (winv None) (ping_state token i now)
  (fun o d => match o with
              | Some (_, Some ev) => exists x, winv x d /\ says x ev
              | Some (_, None) => winv None d
              | None => True
              end).
Proof.
  unfold ping_state, guarded_update. destruct (in_kind i).
  - eapply hoare_bind with (Q := fun (o : option (HbRow * bool)) d => match o with
      | Some (r, true) => winv (Some (hr_org r, hr_name r, LRecovered)) d | Some (_, false) => winv None d | None => True end).
    + eapply hoare_bind; [by apply hoare_update_hb|]. intros [r|].
      * apply hoare_ret. intros d [Hg Hw]. apply bool_decide_eq_true in Hg. unfold change in Hw.
        rewrite (bool_decide_eq_true_2 _ Hg) in Hw. exact Hw.
      * intros s [Hw Hn]. unfold bind. pose proof (hoare_update_hb_any token (set_up now (in_rid i)) ltac:(done) s Hw) as H'.
        unfold update_hb, bind, query, exec, ret in *. simpl in *. destruct (select1 _ _) as [r|] eqn:E; simpl in *; [|done].
        apply select1_Some in E as [Hr Ht]. specialize (Hn r Hr). rewrite Ht in Hn. simpl in Hn. unfold change in H'.
        rewrite Hn in H'. simpl in H'. exact H'.
    + intros [[r [|]]|]; simpl; apply hoare_ret; simpl; [|done|done]. intros d Hw.
      eexists. split; [exact Hw|]. apply says_recovered.
  - eapply hoare_bind; [by apply hoare_update_hb_any|]. intros [r|]; apply hoare_ret; simpl; [|done].
    intros d Hw. unfold change in Hw. simpl in Hw. by destruct (bool_decide _).
  - eapply hoare_bind with (Q := fun (o : option (HbRow * bool)) d => match o with
      | Some (r, true) => winv (Some (hr_org r, hr_name r, LMissed)) d | Some (_, false) => winv None d | None => True end).
    + eapply hoare_bind; [by apply hoare_update_hb|]. intros [r|].
      * apply hoare_ret. intros d [Hg Hw]. apply negb_true_iff in Hg. unfold change in Hw. rewrite Hg in Hw. exact Hw.
      * intros s [Hw Hn]. unfold bind. pose proof (hoare_update_hb_any token (set_down now) ltac:(done) s Hw) as H'.
        unfold update_hb, bind, query, exec, ret in *. simpl in *. destruct (select1 _ _) as [r|] eqn:E; simpl in *; [|done].
        apply select1_Some in E as [Hr Ht]. specialize (Hn r Hr). rewrite Ht in Hn. simpl in Hn. apply negb_false_iff in Hn.
        unfold change in H'. rewrite Hn in H'. exact H'.
    + intros [[r [|]]|]; simpl; apply hoare_ret; simpl; [|done|done]. intros d Hw.
      eexists. split; [exact Hw|]. apply says_missed.
  - eapply hoare_bind with (Q := fun _ => winv None); [by apply hoare_query|]. intros [r|]; by apply hoare_ret.
  - by apply hoare_ret.
Qed.

Lemma winv_RecordHeartbeatPing token i now : preserves (winv None) (RecordHeartbeatPing token i now).
Proof.
  unfold RecordHeartbeatPing. case_match; [apply preserves_throw|]. apply preserves_tx.
  eapply hoare_bind; [apply hoare_ping_state|]. intros [[r [ev|]]|]; [| |apply hoare_throw].
  - intros s (x & Hw & Hs). revert s Hw.
    match goal with |- forall s, _ -> match ?m s with _ => _ end => change (hoare (winv x) m
      (fun o d => match o with Commit _ => winv None d | Rollback _ => True end)) end.
    eapply hoare_bind with (Q := fun _ => winv x); [by apply hoare_query|]. intros dur.
    eapply hoare_bind with (Q := fun _ => winv x); [by apply hoare_exec|]. intros u1.
    eapply hoare_bind with (Q := fun _ => winv x); [by apply hoare_exec|]. intros u2.
    eapply hoare_bind with (Q := fun _ => winv x); [by apply hoare_exec|]. intros u3.
    eapply hoare_bind with (Q := fun _ => winv None); [|intros u4; by apply hoare_ret].
    eapply hoare_bind with (Q := fun _ => winv None); [by apply hoare_emit|]. intros id. by apply hoare_ret.
  - do 4 (eapply hoare_bind with (Q := fun _ => winv None); [first [by apply hoare_query|by apply hoare_exec]|]; intros ?).
    eapply hoare_bind with (Q := fun _ => winv None); [by apply hoare_ret|]. intros u. by apply hoare_ret.
Qed.

Lemma winv_CreateHeartbeat h : preserves (winv None) (CreateHeartbeat h).
Proof.
  apply preserves_autocommit. intros s Hw. unfold bind, now_, query, exec, ret, throw. simpl.
  destruct (select1 _ _) as [r|] eqn:E; simpl; [apply (winv_settings _ _ (on_heartbeats draw (st_db s))); [by apply winv_draw|done]|].
  destruct (exists_row (has_token _) _) eqn:Et; simpl; [done|]. apply winv_insert; [done| |done].
  apply exists_row_false. by rewrite select1_None in E.
Qed.

Lemma winv_CreateHeartbeatIfAbsent h : preserves (winv None) (CreateHeartbeatIfAbsent h).
Proof.
  unfold CreateHeartbeatIfAbsent. apply preserves_bind.
  - apply preserves_autocommit. intros s Hw. unfold bind, now_, query, exec, ret, throw. simpl.
    destruct (exists_row (hb_named _ _) _) eqn:En; simpl; [by apply winv_draw|].
    destruct (exists_row (has_token _) _) eqn:Et; simpl; [done|]. by apply winv_insert.
  - intros [tok|]; [apply preserves_ret|]. apply preserves_bind; [apply preserves_autocommit; by apply hoare_query|].
    intros [r|]; [apply preserves_ret|apply preserves_throw].
Qed.

Lemma winv_DeleteHeartbeat org id : preserves (winv None) (DeleteHeartbeat org id).
Proof.
  apply preserves_tx. intros s Hw. unfold bind at 1 2, query, exec at 1. simpl.
  destruct (select1 (is_hb org id) (db_heartbeats (st_db s))) as [r|] eqn:E; [|done]. apply select1_Some in E as [Hr Hp].
  match goal with |- match ?m ?x with _ => _ end => assert (Hm : hoare (winv (Some (hr_org r, hr_name r, LRemoved))) m
    (fun o d => match o with Commit _ => winv None d | Rollback _ => True end)) end.
  { eapply hoare_bind with (Q := fun _ => winv (Some (hr_org r, hr_name r, LRemoved))); [by apply hoare_exec|]. intros u.
    eapply hoare_bind with (Q := fun _ => winv None); [|intros id'; by apply hoare_ret].
    apply hoare_emit. unfold is_hb in Hp. bsimpl. match goal with E : hr_org r = org |- _ => rewrite E end. apply says_removed. }
  apply Hm. by apply winv_delete.
Qed.

(** A heartbeat as [DueHeartbeats] observed it: it was not down, and its row, if
    it is still there, has its org and name. *)
Definition seen (h : Heartbeat) (d : DB) : Prop :=
  hb_status h <> HbDown /\ hb_id h < next_id (db_heartbeats d) /\
  forall r, r ∈ rows (db_heartbeats d) -> hr_id r = hb_id h -> named (hb_org h) (hb_name h) r.

Lemma says_miss_event h : says (Some (hb_org h, hb_name h, LMissed)) (miss_event h).
Proof. unfold miss_event. destruct (Deadline h) as [[t [|]] w]; apply says_missed. Qed.

Lemma winv_Mark h s : winv None (st_db s) -> seen h (st_db s) ->
  winv None (st_db (snd (MarkHeartbeatDownAndEmit h (miss_event h) s))).
Proof.
  intros Hw (Hs & _ & Hn). cut (preserves (fun d => winv None d /\ forall r, r ∈ rows (db_heartbeats d) -> hr_id r = hb_id h ->
    named (hb_org h) (hb_name h) r) (MarkHeartbeatDownAndEmit h (miss_event h))).
  { intros Hp. by apply (Hp s). }
  apply preserves_tx. clear s Hw Hn. intros s [Hw Hn]. unfold bind at 1 2, query, exec. simpl.
  destruct (Z.eqb_spec (count_where (observed_guard h) (db_heartbeats (st_db s))) 0) as [E|E]; [done|].
  assert (Hex : exists r, r ∈ rows (db_heartbeats (st_db s)) /\ observed_guard h r = true).
  { apply exists_row_true. apply not_false_iff_true. intros F. apply E. apply count_where_0. by apply exists_row_false. }
  destruct Hex as (r & Hr & Hg). set (f := fun r => hr_set r (hr_last_seen_at r) HbDown None "").
  assert (Hid : hr_id r = hb_id h /\ hr_status r = hb_status h) by (unfold observed_guard in Hg; by bsimpl).
  assert (Hw' : winv (Some (hb_org h, hb_name h, LMissed)) (on_heartbeats (update_where (observed_guard h) f) (st_db s))).
  { destruct (Hn r Hr (proj1 Hid)) as [<- <-]. pose proof (winv_update (observed_guard h) f r (st_db s) Hw ltac:(done) Hr Hg) as Hu.
    unfold change in Hu. rewrite bool_decide_eq_false_2 in Hu by (destruct Hid; congruence). apply Hu.
    intros x Hx Hgx. destruct Hw as [(Hwf & _) _]. eapply (table_key_inj hr_id); [done|done|done|].
    unfold observed_guard in Hgx. bsimpl. destruct Hid. congruence. }
  assert (Hn' : forall r, r ∈ rows (db_heartbeats (on_heartbeats (update_where (observed_guard h) f) (st_db s))) ->
    hr_id r = hb_id h -> named (hb_org h) (hb_name h) r).
  { intros x' (x & Hx & ->)%elem_of_update. destruct (observed_guard h x); simpl; by apply (Hn x). }
  pose proof (recordEvent_step (miss_event h) (mkSt (on_heartbeats (update_where (observed_guard h) f) (st_db s)) (st_tick s))) as Hrec.
  unfold emitEvent, bind. fold f. destruct (recordEvent _ _) as [[e'|e'] s']; [|done]. simpl in *.
  split; [by eapply winv_record; [apply says_miss_event| |]|]. destruct (record_step_frame _ _ _ Hrec) as (_ & -> & _). exact Hn'.
Qed.

(** Rows keep their org and name, and ids are not given out again. *)
Definition hb_grows (d d' : DB) : Prop :=
  next_id (db_heartbeats d) <= next_id (db_heartbeats d') /\
  forall r', r' ∈ rows (db_heartbeats d') -> next_id (db_heartbeats d) <= hr_id r' \/
    exists r, r ∈ rows (db_heartbeats d) /\ hr_id r = hr_id r' /\ hr_org r = hr_org r' /\ hr_name r = hr_name r'.

#[local] Instance hb_grows_refl : Reflexive hb_grows.
Proof. intros d. split; [lia|]. intros r Hr. right. by exists r. Qed.
#[local] Instance hb_grows_trans : Transitive hb_grows.
Proof.
  intros d1 d2 d3 [N1 H1] [N2 H2]. split; [lia|]. intros r3 Hr. destruct (H2 r3 Hr) as [|(r2 & Hr2 & E2 & E3 & E4)]; [left; lia|].
  destruct (H1 r2 Hr2) as [|(r1 & Hr1 & F2 & F3 & F4)]; [left; lia|]. right. exists r1. split; [done|]. split_and!; congruence.
Qed.

Lemma hb_grows_eq d d' : db_heartbeats d' = db_heartbeats d -> hb_grows d d'.
Proof. intros E. split; [by rewrite E|]. intros r Hr. rewrite E in Hr. right. by exists r. Qed.

Lemma hb_grows_update p f d : (forall x, same_hb x (f x)) -> hb_grows d (on_heartbeats (update_where p f) d).
Proof.
  intros Hf. split; [simpl; lia|]. intros r' (r & Hr & ->)%elem_of_update. right. exists r. split; [done|].
  destruct (p r); [|done]. destruct (Hf r) as (-> & -> & -> & _). done.
Qed.

Lemma hb_grows_insert h now d : hb_grows d (on_heartbeats (insert_row (new_hb h now)) d).
Proof. split; [simpl; lia|]. intros r [Hr| ->]%elem_of_insert; [right; by exists r|left; simpl; lia]. Qed.

Lemma hb_grows_delete p d : hb_grows d (on_heartbeats (delete_where p) d).
Proof. split; [simpl; lia|]. intros r [Hr _]%elem_of_delete. right. by exists r. Qed.

Lemma hb_grows_emit e : evolves hb_grows (emitEvent e).
Proof.
  unfold emitEvent. apply evolves_bind; [apply _| |intros a; apply evolves_ret; apply _].
  apply evolves_recordEvent. intros d d' Hr. apply hb_grows_eq. by destruct (record_step_frame _ _ _ Hr) as (_ & ? & _).
Qed.

#[local] Hint Resolve hb_grows_emit : evolves.

(** The operations on heartbeats. *)
Definition on_hb (o : Op) : Prop :=
  match o with
  | OpCreateHeartbeat _ | OpCreateHeartbeatIfAbsent _ | OpDeleteHeartbeat _ _ | OpRecordHeartbeatPing _ _ _ => True
  | _ => False
  end.

Lemma hb_grows_draw d : hb_grows d (on_heartbeats draw d).
Proof. split; [simpl; lia|]. intros r' Hr'. right. by exists r'. Qed.

Ltac grow := first [apply hb_grows_draw | by apply hb_grows_update | apply hb_grows_insert | apply hb_grows_delete | by apply hb_grows_eq].

Lemma grows_hb_op o : on_hb o -> evolves hb_grows (run_op o).
Proof.
  destruct o; simpl; intros Ho; try done;
    unfold ignore, CreateHeartbeat, CreateHeartbeatIfAbsent, insert_hb_if_absent, DeleteHeartbeat, RecordHeartbeatPing,
      ping_state, guarded_update, update_hb, autocommit; evolve; grow.
Qed.

Lemma grows_Mark h ev : evolves hb_grows (MarkHeartbeatDownAndEmit h ev).
Proof. unfold MarkHeartbeatDownAndEmit. evolve; grow. Qed.

Lemma seen_grows h d d' : hb_grows d d' -> seen h d -> seen h d'.
Proof.
  intros [Hn Hg] (H1 & H2 & H3). split; [done|split; [lia|]]. intros r' Hr' Hid.
  destruct (Hg r' Hr') as [|(r & Hr & E1 & E2 & E3)]; [lia|]. destruct (H3 r Hr ltac:(congruence)). unfold named. split; congruence.
Qed.

Lemma winv_hb_op o : on_hb o -> preserves (winv None) (run_op o).
Proof.
  destruct o; simpl; intros Ho; try done; unfold ignore;
    try (apply preserves_bind; [|intros a; apply preserves_ret]);
    auto using winv_CreateHeartbeat, winv_CreateHeartbeatIfAbsent, winv_DeleteHeartbeat, winv_RecordHeartbeatPing.
Qed.

(** A heartbeat that is due has been seen. *)
Lemma due_seen d now h : table_wf hr_id (db_heartbeats d) ->
  h ∈ dueFromCandidates (map scanHeartbeat (select watch_candidate (db_heartbeats d))) now -> seen h d.
Proof.
  intros Hwf. unfold dueFromCandidates. rewrite elem_of_filter_b, elem_of_map. intros [(r & [Hr Hc]%elem_of_select & ->) _].
  split; [|split; [simpl; apply (table_wf_lt hr_id) in Hr; [lia|done]|]].
  - simpl. unfold watch_candidate in Hc. intros E. rewrite E in Hc. done.
  - intros x Hx E. simpl in *. by assert (x = r) as -> by (eapply (table_key_inj hr_id); done).
Qed.

(** ** Every interleaving *)

(** The store, and what the watchers have read and not forgotten. *)
Abbreviation WState := (St DB * list Heartbeat)%type.

Inductive watch_step : WState -> WState -> Prop :=
| ws_read s obs now due s' : DueHeartbeats now s = (Ok due, s') -> watch_step (s, obs) (s', due ++ obs)
| ws_mark s obs h : h ∈ obs -> watch_step (s, obs) (snd (MarkHeartbeatDownAndEmit h (miss_event h) s), obs)
| ws_heartbeat s obs o : on_hb o -> watch_step (s, obs) (snd (run_op o s), obs)
| ws_elsewhere s obs o : elsewhere o -> watch_step (s, obs) (snd (run_op o s), obs).

Definition watch_inv (w : WState) : Prop := winv None (st_db (fst w)) /\ forall h, h ∈ snd w -> seen h (st_db (fst w)).

Lemma watch_inv_step w w' : watch_step w w' -> watch_inv w -> watch_inv w'.
Proof.
  intros Hs [Hw Hobs]. destruct Hs as [s obs now due s' E|s obs h Hh|s obs o Ho|s obs o Ho]; unfold watch_inv; simpl in *.
  - unfold DueHeartbeats, autocommit in E.
    assert (Hd : st_db s' = st_db s /\ due = dueFromCandidates (map scanHeartbeat (select watch_candidate (db_heartbeats (st_db s)))) now).
    { unfold tx, bind, query, ret in E. simpl in E. destruct (fault _); try done; destruct (fault _); try done; by injection E as <- <-. }
    destruct Hd as [-> ->]. split; [done|]. intros h [Hh|Hh]%elem_of_app; [|by apply Hobs].
    eapply due_seen; [|done]. apply Hw.
  - split; [apply winv_Mark; [done|by apply Hobs]|]. intros x Hx. eapply seen_grows; [apply grows_Mark|by apply Hobs].
  - split; [by apply (winv_hb_op o Ho)|]. intros x Hx. eapply seen_grows; [by apply (grows_hb_op o Ho)|by apply Hobs].
  - pose proof (frame_op o Ho s) as Hf. split; [by eapply winv_frame|]. intros x Hx.
    eapply seen_grows; [|by apply Hobs]. apply hb_grows_eq, Hf.
Qed.

Lemma watch_inv_start : watch_inv (mkSt empty_db 0, []).
Proof.
  split; [|intros h Hh; by apply elem_of_nil in Hh]. split.
  - split; [apply table_wf_empty|]. split; intros r1 r2; intros; by match goal with Hr : r1 ∈ rows _ |- _ => apply elem_of_nil in Hr end.
  - intros org name. split; [done|]. split; [done|]. intros (r & Hr & _). by apply elem_of_nil in Hr.
Qed.

Lemma watch_inv_reach w : rtc watch_step (mkSt empty_db 0, []) w -> watch_inv w.
Proof.
  intros Hr. assert (Hs : watch_inv (mkSt empty_db 0, [])) by apply watch_inv_start. revert Hs. induction Hr; [done|].
  intros Hi. apply IHHr. by eapply watch_inv_step.
Qed.

(** C9: However pings, checks, creations and deletions of heartbeats interleave
    (a check's reads and writes with anything in between), and whatever faults
    the database has, a heartbeat's alarms alternate: no miss is recorded
    while one is open, no recovery without one, and a miss is open exactly
    when the heartbeat is down. *)
Theorem alarms_alternate (s : St DB) (obs : list Heartbeat) (org : Z) (name : string) :
  rtc watch_step (mkSt empty_db 0, []) (s, obs) ->
  alternates false (lives org name (st_db s)) = true /\
  (alarm (lives org name (st_db s)) = true <-> is_down org name (st_db s)).
Proof.
  intros Hr. destruct (watch_inv_reach _ Hr) as [[_ Hw] _]. specialize (Hw org name). simpl in Hw.
  by rewrite app_nil_r in Hw.
Qed.

End Invariant.

(** A heartbeat that misses its deadline and pings again. *)
Definition hourly : Heartbeat :=
  {| hb_id := 0; hb_org := 1; hb_name := "backup"; hb_token := "t"; hb_last_seen_at := zero_time; hb_period_seconds := 3600;
     hb_grace_seconds := 60; hb_status := HbNew; hb_created_at := zero_time; hb_started_at := zero_time; hb_started_rid := "" |}.

Definition missed_once : St DB :=
  snd (@run_op (steady Hour) plain_text (OpCreateHeartbeat hourly) (mkSt empty_db 0)).
Definition seen_late : St DB * list Heartbeat :=
  match @DueHeartbeats (steady Hour) (4 * Hour) missed_once with
  | (Ok due, s) => (s, due) | (Error _, s) => (s, [])
  end.
Definition marked_down : St DB := snd (@MarkHeartbeatDownAndEmit (steady Hour) plain_text (hd hourly (snd seen_late))
  (miss_event (hd hourly (snd seen_late))) (fst seen_late)).
Definition a_success : PingInput := {| in_kind := PingSuccess; in_exit_status := None; in_rid := ""; in_body := [] |}.
Definition back_up : St DB := snd (@run_op (steady Hour) plain_text (OpRecordHeartbeatPing "t" a_success (5 * Hour)) marked_down).

Lemma alarms_alternate_witness :
  lives 1 "backup" (st_db back_up) = [LMissed; LRecovered] /\ ~ is_down 1 "backup" (st_db back_up).
Proof.
  assert (Hr : rtc (@watch_step (steady Hour) plain_text) (mkSt empty_db 0, []) (back_up, snd seen_late ++ [])).
  { apply (rtc_l _ _ (missed_once, [])).
    { exact (@ws_heartbeat (steady Hour) plain_text (mkSt empty_db 0) [] (OpCreateHeartbeat hourly) I). }
    apply (rtc_l _ _ (fst seen_late, snd seen_late ++ [])).
    { apply (@ws_read (steady Hour) plain_text missed_once [] (4 * Hour)). vm_compute. reflexivity. }
    apply (rtc_l _ _ (marked_down, snd seen_late ++ [])).
    { apply (@ws_mark (steady Hour) plain_text). vm_compute. left. }
    apply rtc_once.
    exact (@ws_heartbeat (steady Hour) plain_text marked_down _ (OpRecordHeartbeatPing "t" a_success (5 * Hour)) I). }
  split; [vm_compute; reflexivity|].
  rewrite <- (proj2 (@alarms_alternate (steady Hour) plain_text back_up _ 1 "backup" Hr)). vm_compute. congruence.
Defined.

(** ** What a check does *)

Section Checked.
Context `{World} `{JSONText} `{!Reliable}.

(** The times of a row are not Go's zero time (which stands for none). *)
Definition times_ok (r : HbRow) : Prop := hr_last_seen_at r <> Some zero_time /\ hr_started_at r <> Some zero_time.

Lemma nullTime_parse c : c <> Some zero_time -> nullTime (parseTime c) = c.
Proof. destruct c as [t|]; [|done]. unfold nullTime, parseTime, IsZero, zero_time. simpl. destruct (Z.eqb_spec t 0); [by subst|done]. Qed.

Definition went_down (r : HbRow) : HbRow := hr_set r (hr_last_seen_at r) HbDown None "".

Lemma Mark_fires r s : table_wf hr_id (db_heartbeats (st_db s)) -> r ∈ rows (db_heartbeats (st_db s)) -> times_ok r -> exists s',
  MarkHeartbeatDownAndEmit (scanHeartbeat r) (miss_event (scanHeartbeat r)) s = (Ok true, s') /\
  db_heartbeats (st_db s') = update_where (fun x => hr_id x =? hr_id r) went_down (db_heartbeats (st_db s)).
Proof.
  intros Hwf Hr [Ho1 Ho2]. unfold MarkHeartbeatDownAndEmit. rewrite tx_reliable. unfold bind at 1 2, query, exec. simpl.
  assert (Hg : forall x, x ∈ rows (db_heartbeats (st_db s)) ->
    observed_guard (scanHeartbeat r) x = (hr_id x =? hr_id r)).
  { intros x Hx. unfold observed_guard. simpl. rewrite !nullTime_parse by done. destruct (Z.eqb_spec (hr_id x) (hr_id r)) as [E|]; [|done].
    assert (x = r) as -> by (eapply (table_key_inj hr_id); done). by rewrite !bool_decide_eq_true_2. }
  destruct (Z.eqb_spec (count_where (observed_guard (scanHeartbeat r)) (db_heartbeats (st_db s))) 0) as [E|_].
  { rewrite count_where_0 in E. specialize (E r Hr). rewrite Hg, Z.eqb_refl in E by done. done. }
  set (d1 := on_heartbeats _ (st_db s)). set (s1 := mkSt d1 _).
  destruct (recordEvent_effect (miss_event (scanHeartbeat r)) s1) as (e' & t & cs & s2 & E2 & Hrec & Hid & Ht & Hq & _).
  unfold emitEvent, bind. rewrite E2. simpl. eexists. split; [done|]. simpl.
  assert (Hs : record_step (miss_event (scanHeartbeat r)) (st_db s1) (st_db s2)) by (exists e', t, cs; done).
  destruct (record_step_frame _ _ _ Hs) as (_ & -> & _). unfold s1, d1, update_where. simpl. f_equal.
  apply map_ext_in. intros x Hx. rewrite Hg by (by apply list_elem_of_In). done.
Qed.

Lemma check_all_spec rs : forall s, table_wf hr_id (db_heartbeats (st_db s)) -> NoDup (map hr_id rs) ->
  (forall r, r ∈ rs -> r ∈ rows (db_heartbeats (st_db s)) /\ times_ok r) -> exists s',
  check_all (map scanHeartbeat rs) s = (Ok (map (fun r => miss_event (scanHeartbeat r)) rs), s') /\
  db_heartbeats (st_db s') = update_where (fun x => bool_decide (hr_id x ∈ map hr_id rs)) went_down (db_heartbeats (st_db s)).
Proof.
  induction rs as [|r rs IH]; intros s Hwf Hnd Hrs; simpl.
  { exists s. split; [done|]. symmetry. apply update_where_none. apply count_where_0. intros x _.
    reflexivity. }
  apply NoDup_cons in Hnd as [Hni Hnd]. destruct (Hrs r) as [Hr Hok]; [left|].
  destruct (Mark_fires r s Hwf Hr Hok) as (s1 & E1 & D1). unfold bind at 1, try. rewrite E1.
  destruct (IH s1) as (s2 & E2 & D2).
  - rewrite D1. by apply table_wf_update.
  - done.
  - intros x Hx. destruct (Hrs x) as [Hxr Hxo]; [by right|]. split; [|done]. rewrite D1. apply elem_of_update. exists x.
    split; [done|]. destruct (Z.eqb_spec (hr_id x) (hr_id r)) as [E|]; [|done]. exfalso. apply Hni. rewrite <- E.
    apply elem_of_map. by exists x.
  - unfold bind. rewrite E2. eexists. split; [done|]. rewrite D2, D1. unfold update_where. simpl. f_equal.
    rewrite map_map. apply map_ext. intros x. destruct (Z.eqb_spec (hr_id x) (hr_id r)) as [E|Hne]; simpl.
    + rewrite (bool_decide_eq_true_2 (hr_id x ∈ hr_id r :: _)) by (rewrite E; left). by case_bool_decide.
    + assert (Ei : bool_decide (hr_id x ∈ hr_id r :: map hr_id rs) = bool_decide (hr_id x ∈ map hr_id rs)).
      { apply bool_decide_ext. rewrite elem_of_cons. split; [intros [?|?]; done|tauto]. }
      by rewrite Ei.
Qed.

(** The rows a check at [now] finds overdue. *)
Definition overdue (now : Time) (r : HbRow) : bool := watch_candidate r && due_at now (scanHeartbeat r).

Lemma filter_map_comm {A B} (f : A -> B) (p : B -> bool) l : List.filter p (map f l) = map f (List.filter (fun x => p (f x)) l).
Proof. induction l as [|x l IH]; simpl; [done|]. destruct (p (f x)); simpl; by rewrite IH. Qed.

Lemma filter_filter {A} (p q : A -> bool) l : List.filter p (List.filter q l) = List.filter (fun x => q x && p x) l.
Proof. induction l as [|x l IH]; simpl; [done|]. destruct (q x); simpl; [|done]. destruct (p x); by rewrite IH. Qed.

Lemma due_rows now d : dueFromCandidates (map scanHeartbeat (select watch_candidate (db_heartbeats d))) now
  = map scanHeartbeat (select (overdue now) (db_heartbeats d)).
Proof. unfold dueFromCandidates, select. by rewrite filter_map_comm, filter_filter. Qed.

Lemma Check_effect now s : table_wf hr_id (db_heartbeats (st_db s)) ->
  Forall times_ok (rows (db_heartbeats (st_db s))) -> exists s',
  Check now s = (Ok (map (fun r => miss_event (scanHeartbeat r)) (select (overdue now) (db_heartbeats (st_db s)))), s') /\
  db_heartbeats (st_db s') = update_where (overdue now) went_down (db_heartbeats (st_db s)).
Proof.
  intros Hwf Hok. unfold Check, bind at 1, DueHeartbeats, autocommit. rewrite tx_reliable. unfold bind at 1, query, ret. cbn [st_db st_tick].
  rewrite due_rows. set (rs := select (overdue now) (db_heartbeats (st_db s))). set (s1 := mkSt (st_db s) _).
  destruct (check_all_spec rs s1) as (s' & E & D).
  - done.
  - apply NoDup_sorted. apply StronglySorted_filter, Hwf.
  - intros r Hr. apply elem_of_select in Hr as [Hr _]. split; [done|]. rewrite Forall_elem in Hok. by apply Hok.
  - exists s'. split; [done|]. rewrite D. apply update_where_ext. intros r Hr. destruct (overdue now r) eqn:Eo.
    + apply bool_decide_eq_true_2. apply elem_of_map. exists r. split; [|done]. by apply elem_of_select.
    + apply bool_decide_eq_false_2. intros (x & [Hx Ex]%elem_of_select & Ei)%elem_of_map.
      assert (r = x) as -> by (eapply (table_key_inj hr_id); done). congruence.
Qed.

(** A check at [now] dispatches exactly one event for each heartbeat that is
    past its deadline, in order, marks those and no others down and ends
    their runs, and the same check again finds nothing to do. *)
Theorem Check_once (now : Time) (s : St DB) : table_wf hr_id (db_heartbeats (st_db s)) ->
  Forall times_ok (rows (db_heartbeats (st_db s))) ->
  exists s', Check now s = (Ok (map (fun r => miss_event (scanHeartbeat r)) (select (overdue now) (db_heartbeats (st_db s)))), s') /\
    db_heartbeats (st_db s') = update_where (overdue now) went_down (db_heartbeats (st_db s)) /\
    exists s'', Check now s' = (Ok [], s'') /\ st_db s'' = st_db s'.
Proof.
  intros Hwf Hok. destruct (Check_effect now s Hwf Hok) as (s' & E & D). exists s'. split; [done|split; [done|]].
  assert (Hnone : select (overdue now) (db_heartbeats (st_db s')) = []).
  { apply filter_none. rewrite D. intros x' (x & Hx & ->)%elem_of_update. destruct (overdue now x) eqn:Eo; [|done].
    unfold overdue, watch_candidate, went_down. simpl. done. }
  unfold Check, bind at 1, DueHeartbeats, autocommit. rewrite tx_reliable. unfold bind at 1, query, ret. cbn [st_db st_tick].
  rewrite due_rows, Hnone. simpl. by eexists.
Qed.

End Checked.

Lemma Check_once_witness :
  exists s', @Check (steady Hour) plain_text (4 * Hour) missed_once = (Ok [OverdueEvent (scanHeartbeat (hd (new_hb hourly 0 0) (rows (db_heartbeats (st_db missed_once)))))], s')
    /\ (exists s'', @Check (steady Hour) plain_text (4 * Hour) s' = (Ok [], s'')).
Proof.
  destruct (@Check_once (steady Hour) plain_text (steady_reliable Hour) (4 * Hour) missed_once) as (s' & E & _ & s'' & E2 & _).
  - split; [repeat constructor|split; [repeat constructor|]]; vm_compute; congruence.
  - repeat constructor; vm_compute; congruence.
  - exists s'. split; [rewrite E; vm_compute; reflexivity|]. by exists s''.
Defined.
