(* ===== verification/PingLog.v ===== *)
(** * The ping log ([internal/store/pings.go])

    Every ping is logged, and each heartbeat's log is trimmed in the same
    transaction to its newest entries: at most [maxPingsPerHeartbeat] of them
    and at most [maxPingLogBytes] of bodies. *)
From S2P Require Import Prelude GoTime Domain Heartbeat Sql Schema StoreEvents StoreRuns StoreHeartbeats StoreDeliveries StoreConfig StoreInv.
Open Scope Z_scope.

(** ** One heartbeat's log *)

(** Rows given newest first: ids go down, and bodies have a size. *)
Definition newest_first (l : list PingRow) : Prop :=
  StronglySorted (fun a b => pr_id b < pr_id a) l /\ Forall (fun r => 0 <= pr_body_bytes r) l.

Lemma newest_first_cons r l : newest_first (r :: l) <->
  (forall x, x ∈ l -> pr_id x < pr_id r) /\ 0 <= pr_body_bytes r /\ newest_first l.
Proof.
  unfold newest_first. rewrite Forall_cons. split.
  - intros [Hs [Hb Hf]]. apply StronglySorted_inv in Hs as [Hs Ha]. rewrite Forall_elem in Ha. done.
  - intros (Ha & Hb & Hs & Hf). split; [|done]. constructor; [done|]. by rewrite Forall_elem.
Qed.

Lemma newest_lt l i j a b : newest_first l -> l !! i = Some a -> l !! j = Some b -> (i < j)%nat -> pr_id b < pr_id a.
Proof.
  intros [Hs _]. revert i j. induction l as [|y l IH]; intros i j Ha Hb Hij; [done|].
  apply StronglySorted_inv in Hs as [Hs Hf]. destruct j as [|j]; [lia|]. simpl in Hb. destruct i as [|i]; simpl in Ha.
  - injection Ha as ->. rewrite Forall_elem in Hf. apply Hf. by eapply list_elem_of_lookup_2.
  - eapply IH; [done|done|done|lia].
Qed.

(** The entries newer than an id are the first ones. *)
Lemma newer_prefix m l : newest_first l -> exists k, List.filter (fun r => negb (pr_id r <=? m)) l = take k l /\
  forall i r, l !! i = Some r -> (m < pr_id r <-> (i < k)%nat).
Proof.
  induction l as [|r l IH]; intros Hn; simpl; [exists 0%nat; split; [done|]; intros i r Hi; by rewrite lookup_nil in Hi|].
  apply newest_first_cons in Hn as (Ha & Hb & Hn). destruct (Z.leb_spec (pr_id r) m) as [Hle|Hgt]; simpl.
  - exists 0%nat. split.
    + apply filter_none. intros x Hx. specialize (Ha x Hx). destruct (Z.leb_spec (pr_id x) m); [done|lia].
    + intros [|i] x Hx; simpl in Hx; [injection Hx as <-; lia|]. apply list_elem_of_lookup_2 in Hx. specialize (Ha x Hx). lia.
  - destruct (IH Hn) as (k & E & Hk). exists (S k). split; [simpl; by f_equal|]. intros [|i] x Hx; simpl in Hx.
    + injection Hx as <-. lia.
    + rewrite (Hk i x Hx). lia.
Qed.

Lemma log_newest_first h t : table_wf pr_id t -> Forall (fun r => 0 <= pr_body_bytes r) (rows t) ->
  newest_first (rev (log_of h t)).
Proof.
  intros (Hs & _) Hb. split.
  - apply (StronglySorted_filter pr_id (of_heartbeat h)) in Hs. unfold log_of, select.
    induction (List.filter (of_heartbeat h) (rows t)) as [|r l IH]; simpl; [constructor|].
    simpl in Hs. apply StronglySorted_inv in Hs as [Hs Ha]. specialize (IH Hs). rewrite Forall_map, Forall_elem in Ha.
    clear -IH Ha. assert (Hr : forall x, x ∈ rev l -> pr_id r < pr_id x) by (intros x Hx; apply Ha; by apply elem_of_rev).
    clear Ha. induction (rev l) as [|y l' IHl]; simpl; [repeat constructor|].
    apply StronglySorted_inv in IH as [I1 I2]. constructor.
    + apply IHl; [done|]. intros x Hx. apply Hr. by right.
    + apply Forall_app. split; [done|]. repeat constructor. apply Hr. left.
  - rewrite Forall_elem in *. intros r Hr. apply Hb. apply (elem_of_rev (log_of h t)) in Hr. by apply elem_of_select in Hr as [? _].
Qed.

(** Deleting a heartbeat's entries up to an id. *)
Lemma log_delete h m t : log_of h (delete_where (fun r => of_heartbeat h r && (pr_id r <=? m)) t)
  = List.filter (fun r => negb (pr_id r <=? m)) (log_of h t).
Proof.
  unfold log_of, select. simpl. induction (rows t) as [|r l IH]; simpl; [done|].
  destruct (of_heartbeat h r) eqn:E; simpl; [|rewrite E; done]. destruct (pr_id r <=? m); simpl; [done|]. rewrite E. by f_equal.
Qed.

Lemma others_delete h m t r : of_heartbeat h r = false ->
  r ∈ rows (delete_where (fun r => of_heartbeat h r && (pr_id r <=? m)) t) <-> r ∈ rows t.
Proof. intros E. rewrite elem_of_delete, E. simpl. tauto. Qed.

Lemma rev_filter {A} (p : A -> bool) l : rev (List.filter p l) = List.filter p (rev l).
Proof. symmetry. apply List.filter_rev. Qed.

Lemma trim_entries_spec h t : newest_first (rev (log_of h t)) -> exists k,
  rev (log_of h (trim_entries h t)) = take k (rev (log_of h t)) /\ (k <= Z.to_nat maxPingsPerHeartbeat)%nat /\
  (k = List.length (log_of h t) \/ k = Z.to_nat maxPingsPerHeartbeat) /\
  forall r, of_heartbeat h r = false -> r ∈ rows (trim_entries h t) <-> r ∈ rows t.
Proof.
  intros Hn. unfold trim_entries. fold (log_of h t). destruct (rev (log_of h t) !! Z.to_nat maxPingsPerHeartbeat) as [r0|] eqn:E.
  - exists (Z.to_nat maxPingsPerHeartbeat). split; [|split; [lia|split; [by right|intros; by apply others_delete]]].
    rewrite log_delete, rev_filter. destruct (newer_prefix (pr_id r0) _ Hn) as (k & -> & Hk). f_equal.
    pose proof (lookup_lt_Some _ _ _ E) as Hlt. specialize (Hk _ _ E) as Hk0.
    destruct (Nat.lt_trichotomy k (Z.to_nat maxPingsPerHeartbeat)) as [Hl|[->|Hg]]; [|done|lia].
    destruct (lookup_lt_is_Some_2 (rev (log_of h t)) k) as [x Hx]; [lia|]. exfalso.
    specialize (Hk _ _ Hx). pose proof (newest_lt _ _ _ _ _ Hn Hx E Hl). lia.
  - exists (List.length (log_of h t)). apply lookup_ge_None_1 in E. rewrite length_rev in E.
    rewrite take_ge by (rewrite length_rev; lia). split; [done|split; [lia|split; [by left|done]]].
Qed.

Lemma take_log_bytes_mono l i j : Forall (fun r => 0 <= pr_body_bytes r) l -> (i <= j)%nat -> log_bytes (take i l) <= log_bytes (take j l).
Proof.
  revert i j. induction l as [|r l IH]; intros i j Hf Hij; [by rewrite !take_nil|]. inversion Hf; subst.
  destruct i as [|i], j as [|j]; simpl; try lia.
  - assert (0 <= log_bytes (take j l)) by (specialize (IH 0%nat j ltac:(done) ltac:(lia)); rewrite take_0 in IH; simpl in IH; lia). lia.
  - specialize (IH i j ltac:(done) ltac:(lia)). lia.
Qed.

Lemma trim_bytes_spec h t : newest_first (rev (log_of h t)) -> exists k,
  rev (log_of h (trim_bytes h t)) = take k (rev (log_of h t)) /\ log_bytes (take k (rev (log_of h t))) <= maxPingLogBytes /\
  (k = List.length (log_of h t) \/ maxPingLogBytes < log_bytes (take (S k) (rev (log_of h t)))) /\
  forall r, of_heartbeat h r = false -> r ∈ rows (trim_bytes h t) <-> r ∈ rows t.
Proof.
  intros Hn. unfold trim_bytes. fold (log_of h t). set (L := rev (log_of h t)) in *.
  set (over := List.filter (fun x => maxPingLogBytes <? snd x) (running_sums 0 L)).
  assert (Hover : forall i r, L !! i = Some r -> maxPingLogBytes < log_bytes (take (S i) L) -> (r, log_bytes (take (S i) L)) ∈ over).
  { intros i r Hi Hgt. apply elem_of_filter_b. split; [|simpl; lia]. apply (list_elem_of_lookup_2 _ i). by rewrite (running_sums_lookup 0 L i r Hi). }
  assert (Hov : forall x, x ∈ over -> exists i, L !! i = Some (fst x) /\ maxPingLogBytes < log_bytes (take (S i) L)).
  { intros [r n] [Hx Hgt]%elem_of_filter_b. simpl in *. apply list_elem_of_lookup in Hx as [i Hi]. exists i.
    assert (Hl : is_Some (L !! i)).
    { apply lookup_lt_is_Some. apply lookup_lt_Some in Hi. assert (E : forall k, List.length (running_sums k L) = List.length L)
        by (clear; induction L as [|y l IH]; intros k; simpl; [done|by rewrite IH]). by rewrite E in Hi. }
    destruct Hl as [r' Hr']. rewrite (running_sums_lookup _ _ _ _ Hr') in Hi. injection Hi as -> <-. split; [done|lia]. }
  assert (Hup : forall k, (forall i r, L !! i = Some r -> (i < k)%nat -> ~ maxPingLogBytes < log_bytes (take (S i) L)) ->
    log_bytes (take k L) <= maxPingLogBytes).
  { intros k Hk. destruct k as [|k]; [rewrite take_0; simpl; unfold maxPingLogBytes; lia|].
    destruct (L !! Nat.min k (List.length L - 1)) as [r|] eqn:E.
    - specialize (Hk _ _ E ltac:(lia)). destruct (Nat.le_gt_cases (List.length L) k).
      + rewrite take_ge by lia. rewrite take_ge in Hk by lia. lia.
      + replace (Nat.min k (List.length L - 1)) with k in Hk by lia. lia.
    - apply lookup_ge_None_1 in E. assert (L = []) as -> by (apply length_zero_iff_nil; lia). rewrite take_nil. simpl. unfold maxPingLogBytes. lia. }
  pose proof (max_opt_spec (map (fun x => pr_id (fst x)) over)) as Hm. destruct (max_opt _) as [m|].
  - destruct Hm as [(x & Hx & ->)%elem_of_map Hmax]. destruct (Hov x Hx) as (i0 & Hi0 & Hgt0).
    destruct (newer_prefix (pr_id (fst x)) L Hn) as (k & E & Hk). exists k.
    assert (Hki : (k <= i0)%nat) by (specialize (Hk _ _ Hi0); lia).
    split; [rewrite log_delete, rev_filter; exact E|]. split.
    + apply Hup. intros i r Hi Hlt Hgt. assert (Hin : pr_id r ∈ map (fun x => pr_id (fst x)) over).
      { apply elem_of_map. exists (r, log_bytes (take (S i) L)). split; [by apply Hover|done]. }
      apply Hmax in Hin. specialize (Hk _ _ Hi). lia.
    + split; [|intros; by apply others_delete]. right.
      destruct (lookup_lt_is_Some_2 L k) as [r Hr]; [apply lookup_lt_Some in Hi0; lia|].
      assert (pr_id r <= pr_id (fst x)) by (specialize (Hk _ _ Hr); lia).
      destruct (Nat.eq_dec k i0) as [->|Hne]; [done|exfalso].
      pose proof (newest_lt _ _ _ _ _ Hn Hr Hi0 ltac:(lia)). lia.
  - exists (List.length (log_of h t)). apply map_eq_nil in Hm.
    assert (Hl : List.length L = List.length (log_of h t)) by apply length_rev. rewrite <- Hl, take_ge by lia.
    split; [done|]. split; [|split; [by left|done]].
    rewrite <- (take_ge L (List.length L)) by lia. apply Hup. intros i r Hi _ Hgt.
    pose proof (Hover _ _ Hi Hgt) as Hin. rewrite Hm in Hin. by apply elem_of_nil in Hin.
Qed.

(** The two trims of a ping, one after the other. *)
Definition trim (h : Z) (t : Table PingRow) : Table PingRow := trim_bytes h (trim_entries h t).

Lemma trim_spec h t : table_wf pr_id t -> Forall (fun r => 0 <= pr_body_bytes r) (rows t) -> exists k,
  rev (log_of h (trim h t)) = take k (rev (log_of h t)) /\ (k <= Z.to_nat maxPingsPerHeartbeat)%nat /\
  log_bytes (take k (rev (log_of h t))) <= maxPingLogBytes /\
  (k = List.length (log_of h t) \/ k = Z.to_nat maxPingsPerHeartbeat \/ maxPingLogBytes < log_bytes (take (S k) (rev (log_of h t)))) /\
  forall r, of_heartbeat h r = false -> r ∈ rows (trim h t) <-> r ∈ rows t.
Proof.
  intros Hw Hb. pose proof (log_newest_first h t Hw Hb) as Hn.
  destruct (trim_entries_spec h t Hn) as (k1 & E1 & K1 & M1 & O1).
  destruct (trim_bytes_spec h (trim_entries h t)) as (k2 & E2 & B2 & M2 & O2).
  { rewrite E1. destruct Hn as [Hs Hf]. split; [|by apply Forall_take]. clear -Hs. revert k1.
    induction (rev (log_of h t)) as [|r l IH]; intros [|k]; simpl; try constructor; apply StronglySorted_inv in Hs as [Hs Ha]; [by apply IH|by apply Forall_take]. }
  assert (Hl : List.length (log_of h (trim_entries h t)) = Nat.min k1 (List.length (log_of h t))).
  { rewrite <- (length_rev (log_of h (trim_entries h t))), E1, length_take, length_rev. done. }
  rewrite E1, take_take in *. exists (Nat.min k2 k1). split; [exact E2|]. split; [lia|]. split; [done|]. split.
  - destruct M2 as [->|M2].
    + rewrite Hl. destruct M1 as [->| ->]; [left; lia|]. destruct (Nat.le_gt_cases (List.length (log_of h t)) (Z.to_nat maxPingsPerHeartbeat)); [left|right; left]; lia.
    + destruct (Nat.le_gt_cases k1 k2) as [Hle|Hgt].
      * destruct M1 as [->| ->]; [left; lia|right; left; lia].
      * right. right. replace (S (Nat.min k2 k1)) with (Nat.min (S k2) k1) by lia. done.
  - intros r Hr. unfold trim. rewrite O2, O1 by done. done.
Qed.

(** ** Every heartbeat's log, in every history *)

Section Logs.
Context `{World} `{JSONText}.

Definition logs_bounded (d : DB) : Prop := forall h,
  Z.of_nat (List.length (log_of h (db_pings d))) <= maxPingsPerHeartbeat /\
  log_bytes (log_of h (db_pings d)) <= maxPingLogBytes.

Definition logs_inv (d : DB) : Prop :=
  table_wf pr_id (db_pings d) /\ Forall (fun r => 0 <= pr_body_bytes r) (rows (db_pings d)) /\ logs_bounded d.

(** Entries are only deleted. *)
Definition shrinks (d d' : DB) : Prop := rows (db_pings d') `sublist_of` rows (db_pings d) /\ next_id (db_pings d') = next_id (db_pings d).

#[local] Instance shrinks_refl : Reflexive shrinks.
Proof. by intros d. Qed.
#[local] Instance shrinks_trans : Transitive shrinks.
Proof. intros d1 d2 d3 [S1 N1] [S2 N2]. split; [by etrans|congruence]. Qed.

Lemma sublist_filter_list {A} (p : A -> bool) l : List.filter p l `sublist_of` l.
Proof. induction l as [|x l IH]; simpl; [constructor|]. destruct (p x); by constructor. Qed.

Lemma sublist_filter_mono {A} (p : A -> bool) l l' : l `sublist_of` l' -> List.filter p l `sublist_of` List.filter p l'.
Proof. induction 1 as [|x l l' Hs IH|x l l' Hs IH]; simpl; [constructor| |]; destruct (p x); try done; by constructor. Qed.

Lemma sublist_log_bytes l l' : l `sublist_of` l' -> Forall (fun r => 0 <= pr_body_bytes r) l' -> log_bytes l <= log_bytes l'.
Proof.
  induction 1 as [|x l l' Hs IH|x l l' Hs IH]; intros Hf; simpl; [lia| |]; inversion Hf; subst; specialize (IH ltac:(done)); lia.
Qed.

Lemma sublist_sorted l l' : l `sublist_of` l' -> StronglySorted Z.lt (map pr_id l') -> StronglySorted Z.lt (map pr_id l).
Proof.
  induction 1 as [|x l l' Hs IH|x l l' Hs IH]; simpl; intros Hst; [done| |]; apply StronglySorted_inv in Hst as [Hst Ha]; [|by apply IH].
  constructor; [by apply IH|]. rewrite Forall_map, Forall_elem in *. intros y Hy. apply Ha. by eapply elem_of_submseteq; [|apply sublist_submseteq].
Qed.

Lemma logs_inv_shrinks d d' : shrinks d d' -> logs_inv d -> logs_inv d'.
Proof.
  intros [Hs Hn] ((Hst & Hb & Hp) & Hz & Hl).
  assert (Hf : forall P, Forall P (rows (db_pings d)) -> Forall P (rows (db_pings d'))).
  { intros P HP. rewrite Forall_elem in *. intros r Hr. apply HP. by eapply elem_of_submseteq; [|apply sublist_submseteq]. }
  split; [split; [by eapply sublist_sorted|split; [rewrite Hn; by apply Hf|by rewrite Hn]]|]. split; [by apply Hf|].
  intros h. specialize (Hl h) as [H1 H2].
  assert (Hsl : log_of h (db_pings d') `sublist_of` log_of h (db_pings d)) by (by apply sublist_filter_mono).
  split; [apply sublist_length in Hsl; lia|]. transitivity (log_bytes (log_of h (db_pings d))); [|done].
  apply sublist_log_bytes; [done|]. rewrite Forall_elem in *. intros r [Hr _]%elem_of_select. by apply Hz.
Qed.

Lemma shrinks_record e : evolves shrinks (recordEvent e).
Proof.
  apply evolves_recordEvent. intros d d' Hr. destruct (record_step_frame _ _ _ Hr) as (_ & _ & E & _). split; by rewrite E.
Qed.
Lemma shrinks_emit e : evolves shrinks (emitEvent e).
Proof. unfold emitEvent. apply evolves_bind; [apply _|apply shrinks_record|]. intros a. apply evolves_ret; apply _. Qed.
#[local] Hint Resolve shrinks_record shrinks_emit : evolves.

Lemma shrinks_join_events l : evolves shrinks (join_events l).
Proof. induction l as [|r l IH]; simpl; evolve. Qed.
Lemma shrinks_releaseOne c now : evolves shrinks (releaseOne c now).
Proof. unfold releaseOne, drop_one, saveAlertState, insertDelivery. evolve; done. Qed.
#[local] Hint Resolve shrinks_join_events shrinks_releaseOne : evolves.
Lemma shrinks_release_all cs now : evolves shrinks (release_all cs now).
Proof. induction cs as [|c cs IH]; simpl; evolve. Qed.
#[local] Hint Resolve shrinks_release_all : evolves.

Lemma shrinks_op o : (forall token i now, o <> OpRecordHeartbeatPing token i now) -> evolves shrinks (run_op o).
Proof.
  destruct o; simpl; intros Ho; try (by exfalso; eapply Ho); unfold ignore; unfold_all_ops; evolve; try done;
    (split; [apply sublist_filter_list|done]).
Qed.

(** A ping's entry and the trims that follow it. *)
Lemma logs_inv_log d org h i dur now : logs_inv d ->
  logs_inv (on_pings (trim_bytes h) (on_pings (trim_entries h) (on_pings (insert_row (log_entry org h i dur now)) d))).
Proof.
  intros (Hw & Hz & Hl). set (t1 := insert_row (log_entry org h i dur now) (db_pings d)).
  assert (Hw1 : table_wf pr_id t1) by (by apply table_wf_insert).
  assert (Hz1 : Forall (fun r => 0 <= pr_body_bytes r) (rows t1)).
  { apply Forall_app. split; [done|]. repeat constructor. simpl. lia. }
  destruct (trim_spec h t1 Hw1 Hz1) as (k & E & Hk & Hbytes & _ & Ho).
  assert (Hsub : rows (trim h t1) `sublist_of` rows t1 /\ next_id (trim h t1) = next_id t1).
  { unfold trim. destruct (trim_entries_delete h t1) as (p1 & -> & _). destruct (trim_bytes_delete h (delete_where p1 t1)) as (p2 & -> & _).
    split; [|done]. simpl. etrans; apply sublist_filter_list. }
  change (logs_inv (on_pings (fun _ => trim h t1) d)). destruct Hsub as [Hs Hn].
  assert (Hf : forall P, Forall P (rows t1) -> Forall P (rows (trim h t1))).
  { intros P HP. rewrite Forall_elem in *. intros r Hr. apply HP. by eapply elem_of_submseteq; [|apply sublist_submseteq]. }
  destruct Hw1 as (W1 & W2 & W3).
  split; [split; [by eapply sublist_sorted|simpl; split; [rewrite Hn; by apply Hf|by rewrite Hn]]|]. split; [by apply Hf|].
  intros h'. simpl. destruct (decide (h' = h)) as [->|Hne].
  - assert (El : log_of h (trim h t1) = rev (take k (rev (log_of h t1)))) by (rewrite <- E; by rewrite rev_involutive).
    split.
    + rewrite El, length_rev, length_take. unfold maxPingsPerHeartbeat in *. lia.
    + assert (Hrev : forall l, log_bytes (rev l) = log_bytes l).
      { intros l. induction l as [|r l IH]; [done|]. simpl. rewrite <- IH.
        clear. induction (rev l) as [|x l' IH]; simpl; [lia|]. rewrite IH. lia. }
      rewrite El, Hrev. done.
  - assert (Hsl : log_of h' (trim h t1) `sublist_of` log_of h' t1) by (by apply sublist_filter_mono).
    assert (E1 : log_of h' t1 = log_of h' (db_pings d)).
    { unfold log_of, select, t1. simpl. rewrite List.filter_app. simpl. unfold of_heartbeat at 2. simpl.
      destruct (Z.eqb_spec h h'); [congruence|]. apply app_nil_r. }
    rewrite E1 in Hsl. destruct (Hl h') as [L1 L2]. split; [apply sublist_length in Hsl; lia|].
    transitivity (log_bytes (log_of h' (db_pings d))); [|done]. apply sublist_log_bytes; [done|].
    rewrite Forall_elem in *. intros r [Hr _]%elem_of_select. by apply Hz.
Qed.

Lemma hoare_shrinks {A} (m : Store A) : evolves shrinks m -> hoare logs_inv m (fun _ => logs_inv).
Proof. intros Hm s Hs. specialize (Hm s). destruct (m s) as [[a|e] s']; [|done]. by eapply logs_inv_shrinks. Qed.

Lemma logs_inv_ping token i now : preserves logs_inv (RecordHeartbeatPing token i now).
Proof.
  unfold RecordHeartbeatPing. case_match; [apply preserves_throw|]. apply preserves_tx.
  eapply hoare_bind with (Q := fun _ => logs_inv).
  { apply hoare_shrinks. unfold ping_state, guarded_update, update_hb. evolve; done. }
  intros [[r ev]|]; [|apply hoare_throw].
  eapply hoare_bind with (Q := fun _ => logs_inv); [by apply hoare_query|]. intros dur s Hs.
  unfold bind at 1 2 3, exec. cbn [st_db st_tick].
  match goal with |- match ?m ?x with _ => _ end =>
    assert (Hm : hoare logs_inv m (fun o d => match o with Commit _ => logs_inv d | Rollback _ => True end)) end.
  { eapply hoare_bind with (Q := fun _ => logs_inv); [|intros u; by apply hoare_ret].
    apply hoare_shrinks. destruct ev; evolve. }
  apply Hm. by apply logs_inv_log.
Qed.

Lemma logs_inv_ops l s : logs_inv (st_db s) -> logs_inv (st_db (run_ops l s)).
Proof.
  apply (run_ops_inv logs_inv). intros o. destruct o; try (intros x Hx; eapply logs_inv_shrinks; [|exact Hx]; by apply shrinks_op).
  simpl. unfold ignore. apply preserves_bind; [apply logs_inv_ping|]. intros a. apply preserves_ret.
Qed.

(** C23: Whatever operations run, and whatever faults the database has, no
    heartbeat's ping log ever holds more than its bound of entries, nor more
    than its bound of body bytes. *)
Theorem ping_logs_bounded (l : list Op) : logs_bounded (st_db (run_ops l (mkSt empty_db 0))).
Proof.
  apply logs_inv_ops. split; [apply table_wf_empty|]. split; [constructor|]. intros h. simpl. unfold maxPingsPerHeartbeat, maxPingLogBytes. lia.
Qed.

(** ** What a recorded ping leaves *)

Definition same_pings (d d' : DB) : Prop := db_pings d' = db_pings d.
#[local] Instance same_pings_refl : Reflexive same_pings.
Proof. by intros d. Qed.
#[local] Instance same_pings_trans : Transitive same_pings.
Proof. intros d1 d2 d3. unfold same_pings. congruence. Qed.

Lemma same_pings_emit e : evolves same_pings (emitEvent e).
Proof.
  unfold emitEvent. apply evolves_bind; [apply _| |intros a; apply evolves_ret; apply _].
  apply evolves_recordEvent. intros d d' Hr. by destruct (record_step_frame _ _ _ Hr) as (_ & _ & E & _).
Qed.

(** The state update names a heartbeat with the token. *)
Lemma ping_state_found token i now s r ev s' : ping_state token i now s = (Ok (Some (r, ev)), s') ->
  r ∈ rows (db_heartbeats (st_db s)) /\ hr_token r = Some token /\ same_pings (st_db s) (st_db s').
Proof.
  assert (Hsel : forall p t (r : HbRow), select1 (fun r => has_token token r && p r) t = Some r -> r ∈ rows t /\ hr_token r = Some token).
  { intros p t x [Hx Hp]%select1_Some. apply andb_true_iff in Hp as [Hp _]. by apply bool_decide_eq_true in Hp. }
  assert (Hsel' : forall t (r : HbRow), select1 (has_token token) t = Some r -> r ∈ rows t /\ hr_token r = Some token).
  { intros t x [Hx Hp]%select1_Some. by apply bool_decide_eq_true in Hp. }
  assert (Hup : forall g f x s1, guarded_update token g f s = (Ok (Some x), s1) ->
    fst x ∈ rows (db_heartbeats (st_db s)) /\ hr_token (fst x) = Some token /\ same_pings (st_db s) (st_db s1)).
  { intros g f [x b] s1. unfold guarded_update, update_hb, bind, query, exec, ret. simpl.
    destruct (select1 (fun r => has_token token r && g r) _) as [y|] eqn:E; simpl; [intros [= <- <- <-]|].
    - split; [by eapply Hsel|]. split; [by eapply Hsel|done].
    - rewrite (update_where_none _ f (db_heartbeats (st_db s))).
      2: { apply count_where_0. by apply select1_None. }
      destruct (select1 (has_token token) _) as [y|] eqn:E'; simpl; [intros [= <- <- <-]|done]. split; [by eapply Hsel'|]. split; [by eapply Hsel'|done]. }
  unfold ping_state. destruct (in_kind i).
  - unfold bind at 1. destruct (guarded_update _ _ _ s) as [[[[y b]|]|] s1] eqn:E; simpl; try done. intros [= <- _ <-]. by apply Hup in E.
  - unfold update_hb, bind, query, exec, ret. simpl. destruct (select1 _ _) as [y|] eqn:E; simpl; [|done]. intros [= <- _ <-]. split; [by eapply Hsel'|]. split; [by eapply Hsel'|done].
  - unfold bind at 1. destruct (guarded_update _ _ _ s) as [[[[y b]|]|] s1] eqn:E; simpl; try done. intros [= <- _ <-]. by apply Hup in E.
  - unfold bind, query, ret. simpl. destruct (select1 _ _) as [y|] eqn:E; simpl; [|done]. intros [= <- _ <-]. split; [by eapply Hsel'|]. split; [by eapply Hsel'|done].
  - done.
Qed.

(** The event of the transition a ping makes of a heartbeat, if it makes one. *)
Definition transition_event (r : HbRow) (i : PingInput) : option Event :=
  match in_kind i with
  | PingSuccess => if bool_decide (hr_status r = HbDown) then Some (RecoveredEvent (hr_org r) (hr_id r) (hr_name r)) else None
  | PingFail => if bool_decide (hr_status r = HbDown) then None
                else Some (FailedEvent (hr_org r) (hr_id r) (hr_name r) (in_exit_status i) (in_body i))
  | _ => None
  end.

Lemma guarded_update_spec token g f s r b s' : guarded_update token g f s = (Ok (Some (r, b)), s') -> b = g r.
Proof.
  unfold guarded_update, update_hb, bind, query, exec, ret. simpl.
  destruct (select1 (fun r => has_token token r && g r) _) as [y|] eqn:E; simpl.
  - intros [= <- <- <-]. apply select1_Some in E as [_ E]. by apply andb_true_iff in E as [_ ->].
  - rewrite (update_where_none _ f (db_heartbeats (st_db s))) by (apply count_where_0; by apply select1_None).
    destruct (select1 (has_token token) _) as [y|] eqn:E'; simpl; [|done]. intros [= <- <- _].
    apply select1_Some in E' as [Hy Ht]. rewrite select1_None in E. specialize (E y Hy). by rewrite Ht in E.
Qed.

Lemma ping_state_transition token i now s r ev s' : ping_state token i now s = (Ok (Some (r, ev)), s') -> ev = transition_event r i.
Proof.
  unfold ping_state, transition_event, bind. destruct (in_kind i).
  - destruct (guarded_update _ _ _ s) as [[[[y b]|]|] s1] eqn:E; simpl; try done. intros [= <- <- _]. apply guarded_update_spec in E as ->. by case_bool_decide.
  - unfold update_hb, bind, query, exec, ret. simpl. destruct (select1 _ _); simpl; [by intros [=]|done].
  - destruct (guarded_update _ _ _ s) as [[[[y b]|]|] s1] eqn:E; simpl; try done. intros [= <- <- _]. apply guarded_update_spec in E as ->. by case_bool_decide.
  - unfold query, ret. simpl. destruct (select1 _ _); simpl; [by intros [=]|done].
  - done.
Qed.

Definition same_events (d d' : DB) : Prop := db_events d' = db_events d.
#[local] Instance same_events_refl : Reflexive same_events.
Proof. by intros d. Qed.
#[local] Instance same_events_trans : Transitive same_events.
Proof. intros d1 d2 d3. unfold same_events. congruence. Qed.

Lemma ping_state_events token i now : evolves same_events (ping_state token i now).
Proof. unfold ping_state, guarded_update, update_hb. evolve; done. Qed.

(** What an event of a transition adds to the events, or none does. *)
Definition event_added (ev : option Event) (d d' : DB) : Prop :=
  match ev with
  | None => rows (db_events d') = rows (db_events d)
  | Some e => exists e', recorded_as e e' /\ rows (db_events d') = rows (db_events d) ++ [e']
  end.

(** The newest entry survives the trims when its own body fits. *)
Lemma trim_keeps_entry h e t : table_wf pr_id t -> Forall (fun r => 0 <= pr_body_bytes r) (rows t) ->
  of_heartbeat h (e (next_id t)) = true -> (forall i, pr_id (e i) = i) -> 0 <= pr_body_bytes (e (next_id t)) <= maxPingLogBytes ->
  last (log_of h (trim h (insert_row e t))) = Some (e (next_id t)).
Proof.
  intros Hw Hz Ho Hi Hb.
  destruct (trim_spec h (insert_row e t)) as (k & E & _ & _ & Hk & _); [by apply table_wf_insert| |].
  { apply Forall_app. split; [done|]. constructor; [lia|constructor]. }
  assert (El : log_of h (insert_row e t) = log_of h t ++ [e (next_id t)]).
  { unfold log_of, select. simpl. rewrite List.filter_app. simpl. by rewrite Ho. }
  rewrite El, rev_app_distr in *. simpl in *. destruct k as [|k].
  - exfalso. rewrite length_app in Hk. simpl in Hk. unfold maxPingsPerHeartbeat, maxPingLogBytes in *.
    destruct Hk as [Hk|[Hk|Hk]]; [lia|lia|]. simpl in Hk. lia.
  - simpl in E. rewrite <- (rev_involutive (log_of h (trim h _))), E. simpl. by rewrite last_snoc.
Qed.

(** A ping that was recorded is the newest entry of its heartbeat's log; what
    it answers is the event of the transition, which is recorded with it. *)
Lemma RecordHeartbeatPing_logged token i now s res s' : logs_inv (st_db s) -> Z.of_nat (List.length (in_body i)) <= maxPingLogBytes ->
  RecordHeartbeatPing token i now s = (Ok res, s') -> exists r dur,
  r ∈ rows (db_heartbeats (st_db s)) /\ hr_token r = Some token /\
  last (log_of (hr_id r) (db_pings (st_db s'))) = Some (log_entry (hr_org r) (hr_id r) i dur now (next_id (db_pings (st_db s)))) /\
  pg_event res = transition_event r i /\ event_added (transition_event r i) (st_db s) (st_db s').
Proof.
  intros (Hw & Hz & _) Hb. unfold RecordHeartbeatPing. destruct (negb _); [done|].
  match goal with |- tx ?b _ = _ -> _ => pose proof (tx_outcome b s) as Hc; destruct (tx b s) as [r1 s1]; intros [= -> ->]; set (body := b) in * end.
  cbv zeta in Hc. set (s0 := mkSt (st_db s) (S (st_tick s))) in *.
  assert (Hst : forall o s2, body s0 = (Ok o, s2) -> exists r ev s1 dur, ping_state token i now s0 = (Ok (Some (r, ev)), s1) /\
    o = Commit {| pg_heartbeat := hr_id r; pg_org := hr_org r; pg_name := hr_name r; pg_event := ev |} /\
    db_pings (st_db s2) = trim (hr_id r) (insert_row (log_entry (hr_org r) (hr_id r) i dur now) (db_pings (st_db s1))) /\
    event_added ev (st_db s1) (st_db s2)).
  { intros o s2. unfold body, bind at 1. destruct (ping_state token i now s0) as [[[[r ev]|]|] s1]; [|done|done].
    intros E. exists r, ev, s1, (runDuration (hr_id r) i now (st_db s1)). split; [done|]. revert E.
    unfold bind, query, exec, ret. cbn [st_db st_tick]. destruct ev as [ev|].
    - unfold emitEvent, bind, ret. match goal with |- context [recordEvent ev ?x] => pose proof (same_pings_emit ev x) as Hp; pose proof (recordEvent_step ev x) as Hev;
        unfold emitEvent, bind, ret in *; destruct (recordEvent ev x) as [[|] s3] end; [|done].
      intros [= <- <-]. split; [done|]. split; [exact Hp|]. by apply record_step_events in Hev.
    - by intros [= <- <-]. }
  destruct Hc as [(_ & Hr)|(a & s2 & E & Ed & _ & [[= <-]|[=]])].
  - destruct (Hr res eq_refl) as [s2 E]. by apply Hst in E as (? & ? & ? & ? & _ & [=] & _).
  - apply Hst in E as (r & ev & s1 & dur & E & Ea & Ep & Hev). pose proof (ping_state_transition _ _ _ _ _ _ _ E) as Htr.
    pose proof (ping_state_events token i now s0) as Hse. rewrite E in Hse. unfold same_events in Hse. simpl in Hse.
    apply ping_state_found in E as (Hr & Ht & Hs). unfold same_pings in Hs. simpl in Hr, Hs.
    exists r, dur. split; [done|]. split; [done|]. split.
    2: { split; [by injection Ea as -> |]. subst ev. unfold event_added in *. by rewrite Ed, <- Hse. }
    rewrite Ed, Ep, Hs. apply (trim_keeps_entry (hr_id r) (log_entry (hr_org r) (hr_id r) i dur now)); try done.
    + apply Z.eqb_refl.
    + simpl. lia.
Qed.

End Logs.

(** What a trim keeps of a heartbeat's log are its newest entries, as many as
    the two bounds allow, and it leaves every other heartbeat's log alone. *)
Theorem trim_keeps_newest (h : Z) (t : Table PingRow) :
  table_wf pr_id t -> Forall (fun r => 0 <= pr_body_bytes r) (rows t) -> exists k,
  rev (log_of h (trim h t)) = take k (rev (log_of h t)) /\ (k <= Z.to_nat maxPingsPerHeartbeat)%nat /\
  log_bytes (take k (rev (log_of h t))) <= maxPingLogBytes /\
  (k = List.length (log_of h t) \/ k = Z.to_nat maxPingsPerHeartbeat \/ maxPingLogBytes < log_bytes (take (S k) (rev (log_of h t)))) /\
  forall r, of_heartbeat h r = false -> r ∈ rows (trim h t) <-> r ∈ rows t.
Proof. apply trim_spec. Qed.

(** A heartbeat's log of two entries, next to another heartbeat's. *)
Definition two_entries : Table PingRow :=
  let e h := log_entry 1 h {| in_kind := PingLog; in_exit_status := None; in_rid := ""; in_body := bstr "ok" |} None Hour in
  insert_row (e 1) (insert_row (e 2) (insert_row (e 1) empty_table)).

Lemma trim_keeps_newest_witness : exists k, rev (log_of 1 (trim 1 two_entries)) = take k (rev (log_of 1 two_entries)) /\
  log_bytes (take k (rev (log_of 1 two_entries))) <= maxPingLogBytes.
Proof.
  assert (Hw : table_wf pr_id two_entries) by (repeat apply table_wf_insert; try (intros i; reflexivity); apply table_wf_empty).
  assert (Hb : Forall (fun r => 0 <= pr_body_bytes r) (rows two_entries)) by (repeat constructor; vm_compute; congruence).
  destruct (trim_keeps_newest 1 two_entries Hw Hb) as (k & E & _ & B & _). exists k. split; [exact E|exact B].
Defined.
