(* ===== verification/PingHandler.v ===== *)
(** * The ping handler ([handlePing], [resolveSlug] of [internal/httpserver/ping.go])

    A request is answered by a computation over the server: the rate limiters,
    the store, and the notifier's queue. The limiters are the [httpx] package's;
    what the handler relies on of them is [RateLimiter]. A request whose caller
    goes away is still recorded; the write's own deadline is one of the
    database's faults. *)
From S2P Require Import Prelude GoTime Domain Heartbeat Tail Failure Redact Capture GoStrings Sql Schema StoreEvents StoreHeartbeats StoreDeliveries StoreConfig StoreInterface StoreInv PingApi PingLog.
Open Scope Z_scope.

Record Reply := { rp_code : Z; rp_headers : list (string * bytes); rp_body : bytes }.

Definition StatusOK : Z := 200.
Definition StatusCreated : Z := 201.
Definition StatusBadRequest : Z := 400.
Definition StatusNotFound : Z := 404.
Definition StatusMethodNotAllowed : Z := 405.
Definition StatusTooManyRequests : Z := 429.
Definition StatusInternalServerError : Z := 500.

Definition text_plain : bytes := bstr "text/plain; charset=utf-8".

(** [http.Error] and [http.NotFound]. *)
Definition http_Error (headers : list (string * bytes)) (code : Z) (msg : bytes) : Reply :=
  {| rp_code := code; rp_headers := headers ++ [("Content-Type"%string, text_plain); ("X-Content-Type-Options"%string, bstr "nosniff")];
     rp_body := msg ++ [nl] |}.

(** [pingOK] and [pingError]. *)
Definition pingOK (code bodyLimit : Z) (body : bytes) : Reply :=
  {| rp_code := code; rp_headers := [("Content-Type"%string, text_plain); ("Ping-Body-Limit"%string, Itoa bodyLimit)]; rp_body := body |}.
Definition pingErrorReply (headers : list (string * bytes)) (code : Z) (msg : bytes) : Reply :=
  if code =? StatusNotFound then http_Error headers StatusNotFound (bstr "404 page not found") else http_Error headers code msg.

(** [httpx.RateLimiter]: token buckets by key. [Has] only looks, [Allow] takes
    a unit if there is one, and [TooManyRequests] is the reply to a request
    that is over its budget. *)
Class RateLimiter (L : Type) := {
  Has : L -> string -> Time -> bool;
  Allow : L -> string -> Time -> bool * L;
  TooManyRequests : L -> Reply;
  TooManyRequests_code l : rp_code (TooManyRequests l) = StatusTooManyRequests }.

(** [tokenHint]. *)
Definition tokenHint (token : bytes) : bytes := if (List.length token <=? 8)%nat then bstr "********" else take 8 token ++ bstr "...".

(** [SetPingBodyLimit]. *)
Definition SetPingBodyLimit (n : Z) : Z := Z.min (Z.max n 0) MaxPingBodyLimit.

(** [strings.TrimPrefix]. *)
Definition drop_prefix (p s : bytes) : bytes := default s (CutPrefix s p).

Section Handler.
Context `{Storage} {L : Type} `{!RateLimiter L}.

(** What the handler reads and changes of the [Server]: [sv_dispatched] is
    what the dispatch function was called with, if there is one. *)
Record Server := { sv_miss : L; sv_token : L; sv_create : L; sv_bodyLimit : Z; sv_dispatched : option (list Event); sv_st : St DB }.

Record HttpRequest := { hq_method : string; hq_path : bytes; hq_query : gmap string (list bytes); hq_body : option Body; hq_ip : string }.

(** A computation of the server that returns early with an [E]. *)
Definition Handler (E A : Type) := Server -> (E + A) * Server.

Definition hret {E A} (a : A) : Handler E A := fun s => (inr a, s).
Definition hreturn {E A} (e : E) : Handler E A := fun s => (inl e, s).
Definition hbind {E A B} (m : Handler E A) (k : A -> Handler E B) : Handler E B := fun s =>
  match m s with (inr a, s') => k a s' | (inl e, s') => (inl e, s') end.
(** A call whose early return is a value to the caller. *)
Definition hcall {E E' A} (m : Handler E' A) : Handler E (E' + A) := fun s => let '(r, s') := m s in (inr r, s').

Definition with_miss (s : Server) (l : L) : Server :=
  {| sv_miss := l; sv_token := sv_token s; sv_create := sv_create s; sv_bodyLimit := sv_bodyLimit s; sv_dispatched := sv_dispatched s; sv_st := sv_st s |}.
Definition with_token (s : Server) (l : L) : Server :=
  {| sv_miss := sv_miss s; sv_token := l; sv_create := sv_create s; sv_bodyLimit := sv_bodyLimit s; sv_dispatched := sv_dispatched s; sv_st := sv_st s |}.
Definition with_create (s : Server) (l : L) : Server :=
  {| sv_miss := sv_miss s; sv_token := sv_token s; sv_create := l; sv_bodyLimit := sv_bodyLimit s; sv_dispatched := sv_dispatched s; sv_st := sv_st s |}.
Definition with_st (s : Server) (st : St DB) : Server :=
  {| sv_miss := sv_miss s; sv_token := sv_token s; sv_create := sv_create s; sv_bodyLimit := sv_bodyLimit s; sv_dispatched := sv_dispatched s; sv_st := st |}.
Definition dispatch (s : Server) (ev : Event) : Server :=
  {| sv_miss := sv_miss s; sv_token := sv_token s; sv_create := sv_create s; sv_bodyLimit := sv_bodyLimit s;
     sv_dispatched := (fun l => l ++ [ev]) <$> sv_dispatched s; sv_st := sv_st s |}.

(** A call of the store. *)
Definition store {E A} (m : Store A) : Handler E (res A) := fun s => let '(r, st) := m (sv_st s) in (inr r, with_st s st).

Definition AllowMiss {E} (key : string) (now : Time) : Handler E unit := fun s => (inr tt, with_miss s (snd (Allow (sv_miss s) key now))).
Definition AllowToken {E} (key : string) (now : Time) : Handler E unit := fun s => (inr tt, with_token s (snd (Allow (sv_token s) key now))).
Definition AllowCreate {E} (key : string) (now : Time) : Handler E bool := fun s =>
  let '(ok, l) := Allow (sv_create s) key now in (inr ok, with_create s l).
Definition hget {E} : Handler E Server := fun s => (inr s, s).

#[local] Notation "'do' x <- m ; k" := (hbind m (fun x => k)) (at level 10, x binder, m at level 200, k at level 200).

Definition autoCreatePeriod : Z := 86400.
Definition autoCreateGrace : Z := 3600.

(** The heartbeat a slug ping creates. *)
Definition slug_heartbeat (orgID : Z) (slug fresh : bytes) : Heartbeat :=
  {| hb_id := 0; hb_org := orgID; hb_name := str slug; hb_token := str fresh; hb_period_seconds := autoCreatePeriod;
     hb_grace_seconds := autoCreateGrace; hb_last_seen_at := zero_time; hb_status := HbNew; hb_created_at := zero_time;
     hb_started_at := zero_time; hb_started_rid := "" |}.

(** [resolveSlug]; [fresh] is what [heartbeat.NewToken] returns. An early
    return is the status to answer with, and the message. *)
Definition resolveSlug (fresh : option bytes) (req : pingRequest) (now : Time) : Handler (Z * bytes) (bytes * bool) :=
  do org <- store (s_OrgByPingKey (str (rq_key req)));
  match org with
  | Error e => if is_not_found e then hreturn (StatusNotFound, bstr "not found") else hreturn (StatusInternalServerError, bstr "internal error")
  | Ok orgID =>
      do hb <- store (s_GetHeartbeatByName orgID (str (rq_slug req)));
      match hb with
      | Ok hb => hret (bstr (hb_token hb), false)
      | Error e =>
          if negb (is_not_found e) then hreturn (StatusInternalServerError, bstr "internal error")
          else if negb (rq_create req) then hreturn (StatusNotFound, bstr "not found")
          else if negb (validSlug (rq_slug req)) then hreturn (StatusBadRequest, bstr "invalid url format")
          else
            do ok <- AllowCreate ("ping-create|" +:+ str (Itoa orgID)) now;
            if negb ok then hreturn (StatusTooManyRequests, [])
            else
              match fresh with
              | None => hreturn (StatusInternalServerError, bstr "internal error")
              | Some fresh =>
                  do r <- store (s_CreateHeartbeatIfAbsent (slug_heartbeat orgID (rq_slug req) fresh));
                  match r with
                  | Error _ => hreturn (StatusInternalServerError, bstr "internal error")
                  | Ok (token, created) => hret (bstr token, created)
                  end
              end
      end
  end.

Definition accepted_method (m : string) : bool := bool_decide (m ∈ ["HEAD"; "GET"; "POST"]%string).

(** The limiters' keys. *)
Definition missKey (r : HttpRequest) : string := hq_ip r +:+ "|ping-miss".
Definition tokenKey (token : bytes) : string := "ping-token|" +:+ str token.

(** The end of [handlePing], once the heartbeat's token is known. *)
Definition record_ping (r : HttpRequest) (req : pingRequest) (now : Time) (token : bytes) (created : bool) : Handler Reply Reply :=
  do s <- hget;
  if negb (Has (sv_token s) (tokenKey token) now) then hret (TooManyRequests (sv_token s))
  else
    match readPingBody (hq_body r) (String.eqb (hq_method r) "POST") (Z.to_nat (sv_bodyLimit s)) [token; rq_key req] with
    | None => hret (pingErrorReply [] StatusBadRequest (bstr "could not read the request body"))
    | Some body =>
        do res <- store (s_RecordHeartbeatPing (str token) (with_body (rq_in req) body) now);
        match res with
        | Error e =>
            if is_not_found e then
              do _ <- AllowMiss (missKey r) now;
              hret (pingErrorReply [] StatusNotFound [])
            else hret (pingErrorReply [] StatusInternalServerError (bstr "internal error"))
        | Ok res =>
            do _ <- AllowToken (tokenKey token) now;
            do _ <- (match pg_event res with Some ev => fun s => (inr tt, dispatch s ev) | None => hret tt end);
            hret (if created then pingOK StatusCreated (sv_bodyLimit s) (bstr "Created") else pingOK StatusOK (sv_bodyLimit s) (bstr "ok"))
        end
    end.

(** The answer to a slug that was not resolved. *)
Definition slug_refused (r : HttpRequest) (now : Time) (code : Z) (msg : bytes) : Handler Reply Reply :=
  do _ <- (if code =? StatusNotFound then AllowMiss (missKey r) now else hret tt);
  do s <- hget;
  hret (if code =? StatusTooManyRequests then TooManyRequests (sv_create s) else pingErrorReply [] code msg).

(** What follows the parsing of the request. *)
Definition handle_parsed (fresh : option bytes) (r : HttpRequest) (req : pingRequest) (now : Time) : Handler Reply Reply :=
  do s <- hget;
  if negb (Has (sv_miss s) (missKey r) now) then hret (TooManyRequests (sv_miss s))
  else if is_nil (rq_key req) then record_ping r req now (rq_token req) false
  else
    do slug <- hcall (resolveSlug fresh req now);
    match slug with
    | inl (code, msg) => slug_refused r now code msg
    | inr (token, created) => record_ping r req now token created
    end.

(** [handlePing]; [now] is what the server's clock reads. *)
Definition handlePing (fresh : option bytes) (now : Time) (r : HttpRequest) : Server -> Reply * Server := fun s =>
  if negb (accepted_method (hq_method r)) then
    (pingErrorReply [("Allow"%string, bstr "HEAD, GET, POST")] StatusMethodNotAllowed (bstr "method not allowed"), s)
  else
    match parsePing (drop_prefix (bstr "/ping/") (hq_path r)) (hq_query r) with
    | inr errPingURL => (pingErrorReply [] StatusBadRequest (bstr "invalid url format"), s)
    | inr errPingRID => (pingErrorReply [] StatusBadRequest (bstr "invalid uuid format"), s)
    | inr errPingNotFound => (pingErrorReply [] StatusNotFound [], s)
    | inl req => let '(reply, s') := handle_parsed fresh r req now s in (match reply with inl x | inr x => x end, s')
    end.

End Handler.

(** Membership of an explicit list. *)
#[local] Ltac listed := solve [repeat (left || right)].

(** ** What a request changes

    On the SQLite store; [OpenStore] has what is different on PostgreSQL. *)
Section Effects.
Context `{World} `{JSONText} {L : Type} `{!RateLimiter L}.
#[local] Abbreviation Server := (@Server L).


(** The methods of the instance, by their definitions. *)
#[local] Ltac on_sqlite :=
  change (s_OrgByPingKey) with OrgByPingKey in *; change (s_GetHeartbeatByName) with GetHeartbeatByName in *;
  change (s_CreateHeartbeatIfAbsent) with CreateHeartbeatIfAbsent in *; change (s_RecordHeartbeatPing) with RecordHeartbeatPing in *.

(** The database with at most one heartbeat more: the one the request names,
    of which there was none. *)
Definition slug_created (req : pingRequest) (d d' : DB) : Prop :=
  exists org fresh now, (forall r, r ∈ rows (db_heartbeats d) -> hb_named org (str (rq_slug req)) r = false) /\
    validSlug (rq_slug req) = true /\ rq_create req = true /\
    d' = on_heartbeats (insert_row (new_hb (slug_heartbeat org (rq_slug req) fresh) now)) d.

Lemma store_query {E A B} (f : DB -> A) (k : A -> Store B) (s : Server) :
  (forall a st, st_db (snd (k a st)) = st_db st) ->
  let '(_, s') := store (E := E) (let* a := autocommit (query f) in k a) s in
  exists st, st_db st = st_db (sv_st s) /\ s' = with_st s st.
Proof.
  intros Hk. unfold store, bind. pose proof (autocommit_query f (sv_st s)) as Hq. destruct (autocommit (query f) (sv_st s)) as [[a|e] st].
  - destruct Hq as (Hd & _ & _). specialize (Hk a st). destruct (k a st) as [r st']. exists st'. simpl in Hk. split; [congruence|done].
  - destruct Hq as (Hd & _ & _). by exists st.
Qed.

Lemma OrgByPingKey_reads {E} key (s : Server) : let '(_, s') := store (E := E) (OrgByPingKey key) s in
  exists st, st_db st = st_db (sv_st s) /\ s' = with_st s st.
Proof.
  unfold OrgByPingKey. destruct (String.eqb key ""); [by exists (sv_st s)|]. apply store_query. by intros [r|] st.
Qed.
Lemma GetHeartbeatByName_reads {E} org name (s : Server) : let '(_, s') := store (E := E) (GetHeartbeatByName org name) s in
  exists st, st_db st = st_db (sv_st s) /\ s' = with_st s st.
Proof. unfold GetHeartbeatByName, get_hb. apply store_query. by intros [r|] st. Qed.

(** A name is not found where no row has it. *)
Lemma GetHeartbeatByName_absent org name s e s' : GetHeartbeatByName org name s = (Error e, s') -> is_not_found e = true ->
  exists_row (hb_named org name) (db_heartbeats (st_db s)) = false.
Proof.
  unfold GetHeartbeatByName, get_hb, bind.
  match goal with |- context [autocommit (query ?f) s] => pose proof (autocommit_query f s) as Hq; pose proof (read_error f s) as He; destruct (autocommit (query f) s) as [[[r|]|e'] s1] end; [done| |].
  - destruct Hq as (_ & _ & [[= E]|[? [=]]]). intros _ _. apply exists_row_false. by apply select1_None.
  - intros [= <- <-] Hn. by rewrite (He _ _ eq_refl) in Hn.
Qed.

Lemma CreateHeartbeatIfAbsent_effect h s : exists_row (hb_named (hb_org h) (hb_name h)) (db_heartbeats (st_db s)) = false -> let '(r, s') := CreateHeartbeatIfAbsent h s in
  (st_db s' = st_db s /\ forall t, r <> Ok (t, true)) \/
  exists now, (forall x, x ∈ rows (db_heartbeats (st_db s)) -> hb_named (hb_org h) (hb_name h) x = false) /\
    st_db s' = on_heartbeats (insert_row (new_hb h now)) (st_db s) /\ forall a, r = Ok a -> a = (hb_token h, true).
Proof.
  intros Hnone. assert (Hi : let '(r, s') := insert_hb_if_absent h s in (st_db s' = st_db s /\ forall t, r <> Ok (Some t)) \/
    exists now, (forall x, x ∈ rows (db_heartbeats (st_db s)) -> hb_named (hb_org h) (hb_name h) x = false) /\
      st_db s' = on_heartbeats (insert_row (new_hb h now)) (st_db s) /\ forall t, r = Ok t -> t = Some (hb_token h)).
  { unfold insert_hb_if_absent, autocommit. match goal with |- context [tx ?b s] => pose proof (tx_outcome b s) as Hc; destruct (tx b s) as [r s'] end.
    cbv zeta in Hc. unfold bind, now_, query, exec, ret in Hc. cbn [st_db st_tick] in Hc.
    rewrite Hnone in Hc. pose proof Hnone as En. rewrite exists_row_false in En. destruct (exists_row (has_token _) _).
    - left. destruct Hc as [[E Hr]|(a & s1 & [=] & _)]. split; [done|]. intros t ->. by destruct (Hr _ eq_refl) as [s1 [=]].
    - destruct Hc as [[E Hr]|(a & s1 & E & Ed & _ & Hr)].
      + left. split; [done|]. intros t ->. by destruct (Hr _ eq_refl) as [s1 [=]].
      + injection E as <- <-. right. eexists. split; [done|]. split; [exact Ed|]. intros t. destruct Hr as [-> | ->]; by intros [= <-]. }
  unfold CreateHeartbeatIfAbsent, bind. destruct (insert_hb_if_absent h s) as [[[t|]|e] s'].
  - destruct Hi as [[E Hr]|(now & Hn & E & Ht)]; [by destruct (Hr t)|]. right. exists now. split; [done|]. split; [done|].
    intros a [= <-]. by specialize (Ht _ eq_refl) as [= ->].
  - assert (E : st_db s' = st_db s) by (destruct Hi as [[E _]|(now & _ & _ & Ht)]; [done|by specialize (Ht None eq_refl)]).
    match goal with |- context [autocommit (query ?f) s'] => pose proof (autocommit_query f s') as Hq; destruct (autocommit (query f) s') as [[[x|]|e] s''] end;
      destruct Hq as [Hd _]; left; (split; [simpl; congruence|done]).
  - destruct Hi as [[E _]|(now & Hn & E & _)]; [by left|]. right. by exists now.
Qed.

(** [s'] is [s] with the database and the creating limiter changed only. *)
Definition only_store (s s' : Server) : Prop :=
  sv_miss s' = sv_miss s /\ sv_token s' = sv_token s /\ sv_bodyLimit s' = sv_bodyLimit s /\ sv_dispatched s' = sv_dispatched s.

Lemma resolveSlug_effect fresh req now s : let '(r, s') := resolveSlug fresh req now s in
  only_store s s' /\
  match r with
  | inr (token, created) =>
      if created : bool then slug_created req (st_db (sv_st s)) (st_db (sv_st s')) else st_db (sv_st s') = st_db (sv_st s)
  | inl (code, _) =>
      code ∈ [StatusBadRequest; StatusNotFound; StatusTooManyRequests; StatusInternalServerError] /\
      (st_db (sv_st s') = st_db (sv_st s) \/ code = StatusInternalServerError /\ slug_created req (st_db (sv_st s)) (st_db (sv_st s')))
  end.
Proof.
  unfold resolveSlug. on_sqlite. unfold hbind at 1.
  pose proof (OrgByPingKey_reads (E := Z * bytes) (str (rq_key req)) s) as H1. unfold store at 1 in H1. unfold store at 1.
  destruct (OrgByPingKey _ (sv_st s)) as [[org|e] st1]; destruct H1 as (st1' & E1 & [= <-]).
  2: { destruct (is_not_found e); simpl; (split; [done|split; [listed|by left]]). }
  unfold hbind at 1. pose proof (GetHeartbeatByName_reads (E := Z * bytes) org (str (rq_slug req)) (with_st s st1)) as H2. unfold store at 1 in H2. unfold store at 1.
  pose proof (GetHeartbeatByName_absent org (str (rq_slug req)) st1) as Habs.
  destruct (GetHeartbeatByName _ _ _) as [[hb|e] st2]; destruct H2 as (st2' & E2 & [= <-]); simpl in E2; [by repeat split; simpl; congruence|].
  assert (Hsame : st_db st2 = st_db (sv_st s)) by congruence.
  destruct (is_not_found e) eqn:Enf; simpl; [|(split; [done|split; [listed|by left]])].
  specialize (Habs _ _ eq_refl Enf). rewrite <- E2 in Habs.
  destruct (rq_create req) eqn:Ec; simpl; [|(split; [done|split; [listed|by left]])].
  destruct (validSlug (rq_slug req)) eqn:Ev; simpl; [|(split; [done|split; [listed|by left]])].
  unfold hbind at 1, AllowCreate. destruct (Allow _ _ _) as [ok l]. destruct ok; simpl; [|(split; [done|split; [listed|by left]])].
  destruct fresh as [fresh|]; [|(split; [done|split; [listed|by left]])].
  unfold hbind, store. simpl. pose proof (CreateHeartbeatIfAbsent_effect (slug_heartbeat org (rq_slug req) fresh) st2 Habs) as H3.
  destruct (CreateHeartbeatIfAbsent _ st2) as [[[token created]|e'] st3]; rewrite Hsame in H3.
  - destruct H3 as [[E Hr]|(t & Hn & E & Ht)]; repeat split.
    + destruct created; [by destruct (Hr token)|]. simpl. congruence.
    + specialize (Ht _ eq_refl) as [= -> ->]. exists org, fresh, t. done.
  - split; [done|]. split; [listed|]. destruct H3 as [[E Hr]|(t & Hn & E & Ht)]; simpl; [by left|right]. split; [done|]. by exists org, fresh, t.
Qed.

Definition dispatched_with (l : option (list Event)) (ev : option Event) : option (list Event) :=
  match ev with Some ev => (fun l => l ++ [ev]) <$> l | None => l end.

(** The ping was recorded, and the reply says so. *)
Definition recorded (r : HttpRequest) (req : pingRequest) (now : Time) (token : bytes) (s s' : Server) : Prop :=
  exists body res,
  readPingBody (hq_body r) (String.eqb (hq_method r) "POST") (Z.to_nat (sv_bodyLimit s)) [token; rq_key req] = Some body /\
  RecordHeartbeatPing (str token) (with_body (rq_in req) body) now (sv_st s) = (Ok res, sv_st s') /\
  sv_miss s' = sv_miss s /\ sv_token s' = snd (Allow (sv_token s) (tokenKey token) now) /\
  sv_dispatched s' = dispatched_with (sv_dispatched s) (pg_event res).

Definition refused (r : HttpRequest) (now : Time) (code : Z) (s s' : Server) : Prop :=
  code ∈ [StatusBadRequest; StatusNotFound; StatusTooManyRequests; StatusInternalServerError] /\
  sv_token s' = sv_token s /\ sv_dispatched s' = sv_dispatched s /\
  sv_miss s' = if code =? StatusNotFound then snd (Allow (sv_miss s) (missKey r) now) else sv_miss s.

Lemma record_ping_effect r req now token created s : exists reply s', record_ping r req now token created s = (inr reply, s') /\
  (rp_code reply = (if created then StatusCreated else StatusOK) /\ recorded r req now token s s' \/
   refused r now (rp_code reply) s s' /\
     (sv_st s' = sv_st s \/ exists i e, RecordHeartbeatPing (str token) i now (sv_st s) = (Error e, sv_st s'))).
Proof.
  unfold record_ping. on_sqlite. unfold hbind at 1, hget. destruct (Has (sv_token s) _ _); cbn [negb].
  2: { exists (TooManyRequests (sv_token s)), s. split; [done|]. right. unfold refused. rewrite TooManyRequests_code. split; [|by left]. by split; [listed|]. }
  destruct (readPingBody _ _ _ _) as [body|] eqn:Eb.
  2: { eexists _, s. split; [done|]. right. split; [|by left]. by split; [listed|]. }
  unfold hbind at 1, store. destruct (RecordHeartbeatPing _ _ _ _) as [[res|e] st] eqn:Er; cbn [fst snd].
  - destruct (pg_event res) as [ev|] eqn:Ev; eexists _, _; (split; [reflexivity|]); left; (split; [by destruct created|]);
      exists body, res; repeat split; try done; by rewrite Ev.
  - destruct (is_not_found e); eexists _, _; (split; [reflexivity|]); right; (split; [|right; by eexists _, _]); by split; [listed|].
Qed.

(** What became of a well-formed ping. *)
Lemma handle_parsed_effect fresh r req now s : exists x s', handle_parsed fresh r req now s = (inr x, s') /\
  (Has (sv_miss s) (missKey r) now = false /\ rp_code x = StatusTooManyRequests /\ s' = s \/
   Has (sv_miss s) (missKey r) now = true /\ exists s1, only_store s s1 /\
    ((exists token created, rp_code x = (if created : bool then StatusCreated else StatusOK) /\ recorded r req now token s1 s' /\
        (if created then slug_created req (st_db (sv_st s)) (st_db (sv_st s1)) else st_db (sv_st s1) = st_db (sv_st s)) /\
        (rq_key req = [] -> token = rq_token req)) \/
     (refused r now (rp_code x) s1 s' /\
      (st_db (sv_st s1) = st_db (sv_st s) \/ slug_created req (st_db (sv_st s)) (st_db (sv_st s1))) /\
      (sv_st s' = sv_st s1 \/ exists token i e, RecordHeartbeatPing token i now (sv_st s1) = (Error e, sv_st s'))))).
Proof.
  unfold handle_parsed. unfold hbind at 1, hget. destruct (Has (sv_miss s) _ _); cbn [negb].
  2: { eexists _, s. split; [done|]. left. rewrite TooManyRequests_code. done. }
  destruct (is_nil (rq_key req)) eqn:Ek.
  - destruct (record_ping_effect r req now (rq_token req) false s) as (x & s' & E & Hx). exists x, s'. split; [done|]. right. split; [done|]. exists s.
    split; [done|]. destruct Hx as [[Hc Hr]|[Hr Hst]]; [left|right].
    + by exists (rq_token req), false.
    + split; [done|]. split; [by left|]. destruct Hst as [|(i & e & Hst)]; [by left|right]. by eexists _, _, _.
  - unfold hbind at 1, hcall. pose proof (resolveSlug_effect fresh req now s) as Hs. destruct (resolveSlug fresh req now s) as [[[code msg]|[token created]] s1].
    + destruct Hs as (Ho & Hcode & Hdb).
      assert (E : exists x s', slug_refused r now code msg s1 = (inr x, s') /\ refused r now (rp_code x) s1 s' /\ sv_st s' = sv_st s1).
      { unfold slug_refused, pingErrorReply. repeat (apply elem_of_cons in Hcode as [->|Hcode]); [..|by apply elem_of_nil in Hcode];
          eexists _, _; (split; [reflexivity|]); (split; [|done]); simpl; rewrite ?TooManyRequests_code; by split; [listed|]. }
      destruct E as (x & s' & E & Hr & Hst). exists x, s'. split; [exact E|]. right. split; [done|]. exists s1. split; [done|]. right.
      split; [done|]. split; [|by left]. destruct Hdb as [|[_ Hdb]]; [by left|by right].
    + destruct Hs as (Ho & Hdb). destruct (record_ping_effect r req now token created s1) as (x & s' & E & Hx). exists x, s'. split; [exact E|].
      right. split; [done|]. exists s1. split; [done|]. destruct Hx as [[Hc Hr]|[Hr Hst]]; [left|right].
      * exists token, created. split; [done|]. split; [done|]. split; [done|]. by destruct (rq_key req).
      * split; [done|]. split; [destruct created; [by right|by left]|]. destruct Hst as [|(i & e & Hst)]; [by left|right]. by eexists _, _, _.
Qed.

(** The URL's ping. *)
Definition asks (r : HttpRequest) (req : pingRequest) : Prop :=
  accepted_method (hq_method r) = true /\ parsePing (drop_prefix (bstr "/ping/") (hq_path r)) (hq_query r) = inl req.

Lemma handlePing_cases fresh now r s :
  (exists req, asks r req /\ exists x s', handlePing fresh now r s = (x, s') /\ handle_parsed fresh r req now s = (inr x, s')) \/
  (forall req, ~ asks r req) /\
  exists x, handlePing fresh now r s = (x, s) /\ rp_code x ∈ [StatusBadRequest; StatusNotFound; StatusMethodNotAllowed].
Proof.
  unfold handlePing, asks. destruct (accepted_method _); cbn [negb]; [|right; split; [by intros req []|]; eexists; split; [done|]; listed].
  destruct (parsePing _ _) as [req|[]]; [|right; (split; [by intros req []|]); eexists; (split; [done|]); listed..].
  left. exists req. split; [done|]. destruct (handle_parsed_effect fresh r req now s) as (x & s' & E & _). rewrite E. by eexists _, _.
Qed.

(** What is shown of the credentials in a logged body. *)
Definition hides (creds : list bytes) (body : bytes) : Prop := forall c, c ∈ creds -> c <> [] -> cred_free "*" c -> cred_free nl c ->
  ~ shows c PingBodyTruncated -> ~ shows c body.

(** C13: on the SQLite store, a ping that is answered with a success has been
    recorded, whatever the faults of the database: it is the newest entry of the
    log of the heartbeat that has the token, which is the URL's own for a token
    URL, with the kind, the exit status and the run id of the URL and with a
    body within the limit that shows neither the token nor the ping key. If the
    ping made the heartbeat recover or miss, the event of that, and no other,
    was recorded with it and handed to the dispatch function, if there is one;
    if it made no such transition, nothing was. The ping has cost one unit of
    the token's budget and nothing of the address's budget of misses. The answer
    is 201 exactly when this request created the heartbeat. *)
Theorem handlePing_acknowledges (fresh : option bytes) (now : Time) (r : HttpRequest) (s : Server) (x : Reply) (s' : Server) (n : Z) :
  logs_inv (st_db (sv_st s)) -> sv_bodyLimit s = SetPingBodyLimit n ->
  handlePing fresh now r s = (x, s') -> rp_code x = StatusOK \/ rp_code x = StatusCreated ->
  exists req token d hb body duration id, asks r req /\
    (rp_code x = StatusOK /\ d = st_db (sv_st s) \/ rp_code x = StatusCreated /\ slug_created req (st_db (sv_st s)) d) /\
    hb ∈ rows (db_heartbeats d) /\ hr_token hb = Some (str token) /\ (rq_key req = [] -> token = rq_token req) /\
    last (log_of (hr_id hb) (db_pings (st_db (sv_st s')))) = Some (log_entry (hr_org hb) (hr_id hb) (with_body (rq_in req) body) duration now id) /\
    Z.of_nat (List.length body) <= sv_bodyLimit s + Z.of_nat (List.length PingBodyTruncated) /\ hides [token; rq_key req] body /\
    (let ev := transition_event hb (with_body (rq_in req) body) in
     event_added ev (st_db (sv_st s)) (st_db (sv_st s')) /\ sv_dispatched s' = dispatched_with (sv_dispatched s) ev) /\
    sv_token s' = snd (Allow (sv_token s) (tokenKey token) now) /\ sv_miss s' = sv_miss s.
Proof.
  intros Hl Hn E Hx. destruct (handlePing_cases fresh now r s) as [(req & Ha & x0 & s0 & E0 & E1)|(_ & x0 & E0 & Hc)];
    rewrite E in E0; injection E0 as <- <-.
  2: { exfalso. destruct Hx as [Hx|Hx]; rewrite Hx in Hc; repeat (apply elem_of_cons in Hc as [[=]|Hc]); by apply elem_of_nil in Hc. }
  destruct (handle_parsed_effect fresh r req now s) as (x1 & s1 & E2 & Hcase). rewrite E1 in E2. injection E2 as <- <-.
  destruct Hcase as [(_ & Hc & _)|(_ & s1 & Ho & Hcase)]; [by destruct Hx as [Hx|Hx]; rewrite Hx in Hc|].
  destruct Hcase as [(token & created & Hc & Hr & Hd & Hk)|[[Hc _] _]].
  2: { exfalso. destruct Hx as [Hx|Hx]; rewrite Hx in Hc; repeat (apply elem_of_cons in Hc as [[=]|Hc]); by apply elem_of_nil in Hc. }
  destruct Hr as (body & res & Hb & Hr & Hmiss & Htok & Hdis). pose proof (readPingBody_safe _ _ _ _ _ Hb) as [Hlen Hhide].
  assert (Hl1 : logs_inv (st_db (sv_st s1))).
  { destruct created; [|by rewrite Hd]. destruct Hd as (org & tok & t & _ & _ & _ & ->). exact Hl. }
  destruct Ho as (Om & Ot & Hlim & Od). rewrite Hlim in Hlen. pose proof (eq_refl : List.length PingBodyTruncated = 26%nat) as E26.
  assert (Hpos : 0 <= sv_bodyLimit s <= MaxPingBodyLimit) by (rewrite Hn; unfold SetPingBodyLimit, MaxPingBodyLimit; lia).
  apply RecordHeartbeatPing_logged in Hr as (hb & dur & Hin & Ht & Hlast & Hev & Hadd); [|done|simpl; unfold maxPingLogBytes, MaxPingBodyLimit in *; lia].
  exists req, token, (st_db (sv_st s1)), hb, body, dur, (next_id (db_pings (st_db (sv_st s1)))).
  split; [done|]. split; [destruct created; [by right|by left]|]. do 4 (split; [done|]). split; [lia|].
  split; [done|]. split; [|split; congruence]. cbv zeta. split; [|by rewrite <- Hev, Hdis, Od].
  assert (Ee : rows (db_events (st_db (sv_st s1))) = rows (db_events (st_db (sv_st s))))
    by (destruct created; [by destruct Hd as (org & tok & t & _ & _ & _ & ->)|by rewrite Hd]).
  unfold event_added in *. by rewrite <- Ee.
Qed.

(** Every ping of a URL is of a kind the store knows. *)
Lemma parsePing_kind path q req : parsePing path q = inl req -> ValidPingKind (in_kind (rq_in req)) = true.
Proof.
  assert (Ha : forall seg i, pingAction seg = inl (Some i) -> ValidPingKind (in_kind i) = true).
  { intros seg i. unfold pingAction. repeat case_match; intros [= <-]; simpl; by repeat case_match. }
  assert (Hs : forall segs req, ping_of_segments segs = inl req -> ValidPingKind (in_kind (rq_in req)) = true).
  { intros segs x. unfold ping_of_segments. repeat case_match; intros [= <-]; simpl; try done; by eapply Ha. }
  unfold parsePing. repeat case_match; intros [= <-]; simpl; by eapply Hs.
Qed.

Lemma RecordHeartbeatPing_unknown `{!Reliable} token i now s : ValidPingKind (in_kind i) = true ->
  (forall hb, hb ∈ rows (db_heartbeats (st_db s)) -> hr_token hb <> Some token) -> fst (RecordHeartbeatPing token i now s) = Error ErrNotFound.
Proof.
  intros Hk Hn. unfold RecordHeartbeatPing. rewrite Hk. cbn [negb]. rewrite tx_reliable. unfold bind at 1.
  set (s0 := mkSt (st_db s) (S (st_tick s))). assert (Ho : exists o s1, ping_state token i now s0 = (Ok o, s1)).
  { unfold ping_state, guarded_update, update_hb, bind, query, exec, ret. repeat case_match; simplify_eq; by eexists _, _. }
  destruct Ho as (o & s1 & E). rewrite E. destruct o as [[r ev]|]; [|done].
  apply ping_state_found in E as (Hr & Ht & _). by destruct (Hn r Hr).
Qed.

(** C14: on the SQLite store, when the database meets no fault, a request that
    is not answered with a success has recorded nothing and notified nobody: the
    database is as it was, but for a heartbeat the request created before the
    ping failed. It has cost no token anything. A well-formed ping that is
    answered with 404 has cost its address one unit of its budget of misses, and
    any other request that is refused has cost it nothing; and a ping of a token
    no heartbeat has is never answered with anything but that 404, unless its
    address or the token is over its budget (429) or its body cannot be read
    (400). *)
Theorem handlePing_refuses `{!Reliable} (fresh : option bytes) (now : Time) (r : HttpRequest) (s : Server) :
  let '(x, s') := handlePing fresh now r s in
  (rp_code x = StatusOK \/ rp_code x = StatusCreated \/
   sv_token s' = sv_token s /\ sv_dispatched s' = sv_dispatched s /\
   (forall req, asks r req -> sv_miss s' = if rp_code x =? StatusNotFound then snd (Allow (sv_miss s) (missKey r) now) else sv_miss s) /\
   ((forall req, ~ asks r req) -> sv_miss s' = sv_miss s) /\
   (st_db (sv_st s') = st_db (sv_st s) \/ exists req, asks r req /\ slug_created req (st_db (sv_st s)) (st_db (sv_st s')))) /\
  (forall req, asks r req -> rq_key req = [] -> (forall hb, hb ∈ rows (db_heartbeats (st_db (sv_st s))) -> hr_token hb <> Some (str (rq_token req))) ->
   rp_code x ∈ [StatusNotFound; StatusTooManyRequests; StatusBadRequest]).
Proof.
  destruct (handlePing_cases fresh now r s) as [(req & Ha & x & s' & -> & E)|(Hna & x & E & _)].
  2: { rewrite E. split; [|intros req Hr; by destruct (Hna req)]. right; right. repeat split; try (by left). intros req Hr. by destruct (Hna req). }
  split.
  - destruct (handle_parsed_effect fresh r req now s) as (x1 & s1 & E1 & Hcase). rewrite E in E1. injection E1 as <- <-.
    destruct Hcase as [(_ & Hc & ->)|(_ & s1 & (Om & Ot & _ & Od) & Hcase)].
    { right; right. repeat split; try (by left). intros _ _. by rewrite Hc. }
    destruct Hcase as [(? & [] & Hc & _)|[(Hc & Ht & Hd & Hmiss) [Hdb Hst]]]; [by right; left|by left|]. right; right.
    rewrite Ht, Hd, Hmiss, Om. split; [done|]. split; [done|]. split; [done|]. split; [intros Hna; by destruct (Hna req)|].
    assert (Es : st_db (sv_st s') = st_db (sv_st s1)).
    { destruct Hst as [->|(token & i & e & Hst)]; [done|]. unfold RecordHeartbeatPing in Hst. destruct (negb _); [by injection Hst as _ <-|].
      by apply tx_reliable_error in Hst. }
    rewrite Es. destruct Hdb as [|Hdb]; [by left|]. right. by exists req.
  - intros req' [Hm Hp'] Hk Hno. destruct Ha as [_ Hp]. rewrite Hp in Hp'. injection Hp' as <-. revert E. unfold handle_parsed, record_ping. on_sqlite.
    unfold hbind at 1, hget. destruct (Has (sv_miss s) _ _); cbn [negb]; [|intros [= <- <-]; rewrite TooManyRequests_code; listed].
    rewrite Hk. cbn [is_nil]. unfold hbind at 1. destruct (Has (sv_token s) _ _); cbn [negb]; [|intros [= <- <-]; rewrite TooManyRequests_code; listed].
    destruct (readPingBody _ _ _ _) as [body|]; [|intros [= <- <-]; listed].
    pose proof (RecordHeartbeatPing_unknown (str (rq_token req)) (with_body (rq_in req) body) now (sv_st s) (parsePing_kind _ _ _ Hp) Hno) as Hr.
    unfold hbind at 1, store. destruct (RecordHeartbeatPing _ _ _ _) as [res st]. cbn [fst] in Hr. subst res. cbn [is_not_found]. intros [= <- <-]. listed.
Qed.

(** an address that has used up its budget of misses is shut out: none of
    its requests, whatever it asks for, is a success or changes anything of
    the server, the database above all. *)
Theorem handlePing_shuts_out (fresh : option bytes) (now : Time) (r : HttpRequest) (s : Server) :
  Has (sv_miss s) (missKey r) now = false ->
  let '(x, s') := handlePing fresh now r s in s' = s /\ 400 <= rp_code x.
Proof.
  intros Hh. destruct (handlePing_cases fresh now r s) as [(req & Ha & x & s' & -> & E)|(_ & x & -> & Hc)].
  - destruct (handle_parsed_effect fresh r req now s) as (x1 & s1 & E1 & Hcase). rewrite E in E1. injection E1 as <- <-.
    destruct Hcase as [(_ & -> & ->)|[Hh' _]]; [done|congruence].
  - split; [done|]. repeat (apply elem_of_cons in Hc as [->|Hc]; [done|]). by apply elem_of_nil in Hc.
Qed.
End Effects.

(** ** A concrete server *)

(** Budgets of two requests for each key, never refilled. *)
Definition budget_reply : Reply := {| rp_code := StatusTooManyRequests; rp_headers := []; rp_body := [] |}.
#[local] Instance two_each : RateLimiter (list string) := {|
  Has l key _ := bool_decide (List.length (List.filter (String.eqb key) l) < 2)%nat;
  Allow l key _ := (bool_decide (List.length (List.filter (String.eqb key) l) < 2)%nat, key :: l);
  TooManyRequests _ := budget_reply;
  TooManyRequests_code _ := eq_refl |}.

#[local] Instance noon : World := steady Hour.
#[local] Instance noon_text : JSONText := plain_text.

Definition one_heartbeat : list Op := [OpCreateHeartbeat
  {| hb_id := 0; hb_org := 1; hb_name := "backup"; hb_token := "tok"; hb_last_seen_at := zero_time; hb_period_seconds := 60; hb_grace_seconds := 60;
     hb_status := HbNew; hb_created_at := zero_time; hb_started_at := zero_time; hb_started_rid := "" |}].
Definition a_server (misses : list string) : Server := {| sv_miss := misses; sv_token := []; sv_create := []; sv_bodyLimit := DefaultPingBodyLimit;
  sv_dispatched := Some []; sv_st := run_ops one_heartbeat (mkSt empty_db 0) |}.
Definition a_request (path : string) : HttpRequest :=
  {| hq_method := "POST"; hq_path := bstr path; hq_query := ∅; hq_body := Some {| bd_content := bstr "disk full; see /ping/tok"; bd_fails := false |}; hq_ip := "10.0.0.1" |}.

Definition acked : Reply * Server := handlePing None (2 * Hour) (a_request "/ping/tok/3") (a_server []).

Lemma handlePing_acknowledges_witness : exists hb i duration id,
  last (log_of (hr_id hb) (db_pings (st_db (sv_st (snd acked))))) = Some (log_entry (hr_org hb) (hr_id hb) i duration (2 * Hour) id) /\
  in_exit_status i = Some 3.
Proof.
  destruct (handlePing_acknowledges None (2 * Hour) (a_request "/ping/tok/3") (a_server []) (fst acked) (snd acked) DefaultPingBodyLimit)
    as (req & token & d & hb & body & dur & id & [_ Ha] & _ & _ & _ & _ & Hl & _).
  - apply (logs_inv_ops one_heartbeat). split; [apply table_wf_empty|]. split; [constructor|]. intros h. split; vm_compute; discriminate.
  - reflexivity.
  - apply surjective_pairing.
  - left. vm_compute. reflexivity.
  - exists hb, (with_body (rq_in req) body), dur, id. split; [exact Hl|]. vm_compute in Ha. injection Ha as <-. reflexivity.
Defined.

(** A token that does not exist: the address pays. *)
Lemma handlePing_refuses_witness : let '(x, s') := handlePing None Hour (a_request "/ping/guess") (a_server []) in
  rp_code x ∈ [StatusNotFound; StatusTooManyRequests; StatusBadRequest] /\ sv_miss s' = ["10.0.0.1|ping-miss"%string].
Proof.
  pose proof (@handlePing_refuses noon noon_text (list string) two_each (steady_reliable Hour) None Hour (a_request "/ping/guess") (a_server [])) as Hr.
  destruct (handlePing None Hour (a_request "/ping/guess") (a_server [])) as [x s'] eqn:E.
  assert (Hx : rp_code x = StatusNotFound) by (apply (f_equal (fun p => rp_code (fst p))) in E; vm_compute in E; symmetry; exact E).
  assert (Ha : asks (a_request "/ping/guess") (by_token (bstr "guess") (plain_input PingSuccess None))) by (split; vm_compute; reflexivity).
  destruct Hr as [[Hr|[Hr|(_ & _ & Hm & _)]] Hun]; [rewrite Hx in Hr; discriminate Hr|rewrite Hx in Hr; discriminate Hr|].
  split.
  - apply (Hun _ Ha eq_refl). apply Forall_elem. repeat constructor. vm_compute. discriminate.
  - specialize (Hm _ Ha). rewrite Hx in Hm. exact Hm.
Defined.

Lemma handlePing_shuts_out_witness :
  snd (handlePing None Hour (a_request "/ping/tok") (a_server ["10.0.0.1|ping-miss"; "10.0.0.1|ping-miss"]%string))
  = a_server ["10.0.0.1|ping-miss"; "10.0.0.1|ping-miss"]%string.
Proof.
  pose proof (handlePing_shuts_out None Hour (a_request "/ping/tok") (a_server ["10.0.0.1|ping-miss"; "10.0.0.1|ping-miss"]%string) eq_refl) as Hs.
  destruct (handlePing _ _ _ _) as [x s']. exact (proj1 Hs).
Defined.

Example acked_body : (fun e => str (p_body (pr_ping e))) <$> last (log_of 1 (db_pings (st_db (sv_st (snd acked))))) = Some "disk full; see /ping/***"%string.
Proof. vm_compute. reflexivity. Qed.
Example acked_event : (map ev_type) <$> sv_dispatched (snd acked) = Some ["heartbeat.missed"%string].
Proof. vm_compute. reflexivity. Qed.
