(* ===== verification/History.v ===== *)
(** * What holds of every history of the store

    For any sequence of operations from an empty database, with any faults:
    what was finished stays finished, what was recorded stays as recorded, an
    alert is never without its event, and a run has at most one outcome. *)
From S2P Require Import Prelude GoTime Domain Heartbeat Sql Schema StoreEvents Executor Failure StoreRuns StoreHeartbeats StoreDeliveries StoreConfig StoreInv.
From stdpp Require Import relations.
Open Scope Z_scope.

Section History.
Context `{World} `{JSONText}.

Definition any (c : Change) : Prop := True.

(** Where any event may be recorded. *)
Lemma emits_all (P : Change -> Prop) o : (forall e, P (Records e)) -> emits P o.
Proof. intros HP. destruct o; simpl; auto. Qed.

(** A fresh installation. *)
Definition start : St DB := mkSt empty_db 0.

Lemma empty_db_wf : db_wf empty_db.
Proof. unfold db_wf. simpl. repeat split_and; apply table_wf_empty. Qed.

Lemma run_ops_steps l s : db_wf (st_db s) -> msteps any (st_db s) (st_db (run_ops l s)).
Proof.
  intros Hw. assert (Hr : wsteps any (st_db s) (st_db (run_ops l s))); [|by apply Hr].
  apply run_ops_rel; [apply _|apply _|]. intros o. by apply run_op_steps; [apply emits_all|].
Qed.

Lemma run_ops_wf l s : db_wf (st_db s) -> db_wf (st_db (run_ops l s)).
Proof. intros Hw. eapply msteps_wf; [by apply run_ops_steps|done]. Qed.

(** whatever the operations and the faults, every table keeps its rows in
    strictly increasing id order and below the next id to give out: no id is
    ever used twice, which claims, deliveries and dedup keys rely on. *)
Theorem ids_unique (l : list Op) : db_wf (st_db (run_ops l start)).
Proof. apply run_ops_wf, empty_db_wf. Qed.

(** A preorder that elementary steps respect holds between any two points of a history. *)
Lemma history_rel (R : DB -> DB -> Prop) l1 l2 : Reflexive R -> Transitive R ->
  (forall d d', db_wf d -> micro any d d' -> R d d') ->
  R (st_db (run_ops l1 start)) (st_db (run_ops l2 (run_ops l1 start))).
Proof.
  intros Hrefl Htrans HR. pose proof (run_ops_wf l1 start empty_db_wf) as Hw. pose proof (run_ops_steps l2 _ Hw) as Hs. revert Hw.
  induction Hs as [|d1 d2 d3 Hm Hs IH]; intros Hw; [done|].
  etrans; [by apply HR|]. apply IH. by eapply micro_wf.
Qed.

(** ** What is final stays final *)

(** Of the rows of [t], each one still in [t'] is related to what it was by [rel]. *)
Definition survives {R} (key : R -> Z) (rel : R -> R -> Prop) (t t' : Table R) : Prop :=
  next_id t <= next_id t' /\
  forall r', r' ∈ rows t' -> key r' < next_id t -> exists r, r ∈ rows t /\ key r = key r' /\ rel r r'.

Lemma survives_refl {R} (key : R -> Z) (rel : R -> R -> Prop) `{!Reflexive rel} (t : Table R) : survives key rel t t.
Proof. split; [lia|]. intros r Hr _. by exists r. Qed.

Lemma survives_trans {R} (key : R -> Z) (rel : R -> R -> Prop) `{!Transitive rel} (t1 t2 t3 : Table R) :
  survives key rel t1 t2 -> survives key rel t2 t3 -> survives key rel t1 t3.
Proof.
  intros [N1 S1] [N2 S2]. split; [lia|]. intros r3 H3 Hk.
  destruct (S2 r3 H3 ltac:(lia)) as (r2 & H2 & K2 & R2). destruct (S1 r2 H2 ltac:(lia)) as (r1 & H1 & K1 & R1).
  exists r1. split; [done|]. split; [congruence|]. by etrans.
Qed.

Lemma survives_append {R} (key : R -> Z) (rel : R -> R -> Prop) `{!Reflexive rel} (l : list R) t :
  Forall (fun r => next_id t <= key r) l -> survives key rel t (append_rows l t).
Proof.
  intros Hl. split; [simpl; lia|]. simpl. intros r [Hr|Hr]%elem_of_app Hk; [by exists r|].
  rewrite Forall_elem in Hl. specialize (Hl r Hr). lia.
Qed.

Lemma survives_insert {R} (key : R -> Z) (rel : R -> R -> Prop) `{!Reflexive rel} (mk : Z -> R) (t : Table R) :
  (forall i, key (mk i) = i) -> survives key rel t (insert_row mk t).
Proof. intros Hk. apply (survives_append key rel [mk (next_id t)] t). constructor; [rewrite Hk; lia|constructor]. Qed.

Lemma survives_update {R} (key : R -> Z) (rel : R -> R -> Prop) (p : R -> bool) (f : R -> R) (t : Table R) :
  (forall r, key (f r) = key r) -> (forall r, rel r (if p r then f r else r)) -> survives key rel t (update_where p f t).
Proof.
  intros Hk Hr. split; [simpl; lia|]. intros r' (r & Hin & ->)%elem_of_update _. exists r. split; [done|].
  split; [|apply Hr]. by destruct (p r); rewrite ?Hk.
Qed.

Lemma survives_delete {R} (key : R -> Z) (rel : R -> R -> Prop) `{!Reflexive rel} (p : R -> bool) (t : Table R) : survives key rel t (delete_where p t).
Proof. split; [simpl; lia|]. intros r [Hr _]%elem_of_delete _. by exists r. Qed.

Lemma ids_from n l k : map dl_id l = map (fun k => n + Z.of_nat k) (seq k (List.length l)) ->
  Forall (fun r => n <= dl_id r) l.
Proof.
  revert k. induction l as [|r l IH]; intros k; simpl; [constructor|]. intros [= E1 E2].
  constructor; [lia|]. by apply (IH (S k)).
Qed.

(** How a run may change: not at all once it has its outcome. *)
Definition run_final (r r' : RunRow) : Prop := same_run r r' /\ (terminal (rr_status r) = true -> r' = r).

#[export] Instance run_final_refl : Reflexive run_final.
Proof. intros r. by split. Qed.
#[export] Instance run_final_trans : Transitive run_final.
Proof.
  intros r1 r2 r3 [S1 F1] [S2 F2]. split; [unfold same_run in *; intuition congruence|].
  intros Ht. specialize (F1 Ht) as ->. by apply F2.
Qed.

Lemma run_final_micro P d d' : micro P d d' -> survives rr_id run_final (db_runs d) (db_runs d').
Proof.
  intros Hm. destruct Hm; simpl; try (apply survives_refl; apply _).
  - destruct (record_step_frame _ _ _ H2) as [-> _]. apply survives_refl; apply _.
  - by apply survives_insert; [apply _|].
  - apply survives_update; [intros r; apply H2|]. intros r. destruct (p r) eqn:E; [|reflexivity].
    split; [apply H2|]. rewrite H1 by done. done.
  - apply survives_delete; apply _.
Qed.

(** a run that has reached its outcome keeps it: whatever operations
    follow (late finishes, reaps, requeues, claims, prunes), with whatever
    faults, its row is exactly the same or gone. *)
Theorem finished_run_final (l1 l2 : list Op) :
  survives rr_id run_final (db_runs (st_db (run_ops l1 start))) (db_runs (st_db (run_ops l2 (run_ops l1 start)))).
Proof.
  apply (history_rel (fun d d' => survives rr_id run_final (db_runs d) (db_runs d'))).
  - intros d. apply survives_refl; apply _.
  - intros d1 d2 d3. apply survives_trans; apply _.
  - intros d d' _. by apply run_final_micro.
Qed.

(** How a delivery may change: once finalized, never back to pending. *)
Definition delivery_final (r r' : DeliveryRow) : Prop :=
  same_delivery r r' /\ (dl_state r <> DeliveryPending -> dl_state r' <> DeliveryPending).

#[export] Instance delivery_final_refl : Reflexive delivery_final.
Proof. intros r. by split. Qed.
#[export] Instance delivery_final_trans : Transitive delivery_final.
Proof.
  intros r1 r2 r3 [S1 F1] [S2 F2]. split; [unfold same_delivery in *; intuition congruence|]. auto.
Qed.

Lemma delivery_final_micro P d d' : micro P d d' -> survives dl_id delivery_final (db_deliveries d) (db_deliveries d').
Proof.
  intros Hm. destruct Hm; simpl; try (apply survives_refl; apply _).
  - destruct H2 as (e' & t & cs & _ & _ & _ & m & news & -> & _ & _ & Hids). simpl.
    apply survives_append; [apply _|]. by apply (ids_from _ _ 0).
  - apply survives_insert; [apply _|]. intros i. apply H1.
  - apply survives_update; [intros r; apply H1|]. intros r. destruct (p r); [|reflexivity].
    destruct (H1 r) as [Hs Hst]. split; [done|]. destruct Hst as [-> |]; done.
  - apply survives_delete; apply _.
Qed.

(** a delivery keeps its event, channel and creation time, and once it is
    delivered or given up it is never pending again, so never claimed again. *)
Theorem finalized_delivery_final (l1 l2 : list Op) :
  survives dl_id delivery_final (db_deliveries (st_db (run_ops l1 start)))
    (db_deliveries (st_db (run_ops l2 (run_ops l1 start)))).
Proof.
  apply (history_rel (fun d d' => survives dl_id delivery_final (db_deliveries d) (db_deliveries d'))).
  - intros d. apply survives_refl; apply _.
  - intros d1 d2 d3. apply survives_trans; apply _.
  - intros d d' _. by apply delivery_final_micro.
Qed.

Lemma records_micro P d d' : micro P d d' ->
  survives ev_id eq (db_events d) (db_events d') /\ survives pr_id eq (db_pings d) (db_pings d').
Proof.
  intros Hm. destruct Hm; simpl; try (split; apply survives_refl; apply _).
  - pose proof (record_step_frame _ _ _ H2) as F. destruct F as (_ & _ & -> & _).
      destruct H2 as (e' & t & cs & _ & Hid & _ & m & news & -> & _). simpl.
    split; [apply survives_append; [apply _|]; repeat constructor; lia|apply survives_refl; apply _].
  - split; [apply survives_refl; apply _|by apply survives_insert; [apply _|]].
  - split; [apply survives_refl; apply _|apply survives_delete; apply _].
  - split; [apply survives_delete; apply _|apply survives_refl; apply _].
Qed.

(** the events and the ping log are append-only: an event or a log entry
    is never rewritten once it is recorded, only pruned. *)
Theorem records_append_only (l1 l2 : list Op) :
  let d1 := st_db (run_ops l1 start) in
  let d2 := st_db (run_ops l2 (run_ops l1 start)) in
  survives ev_id eq (db_events d1) (db_events d2) /\ survives pr_id eq (db_pings d1) (db_pings d2).
Proof.
  simpl. apply (history_rel (fun d d' => survives ev_id eq (db_events d) (db_events d') /\ survives pr_id eq (db_pings d) (db_pings d'))).
  - intros d. split; apply survives_refl; apply _.
  - intros d1 d2 d3 [A1 A2] [B1 B2]. split; eapply survives_trans; try done; apply _.
  - intros d d' _. by apply records_micro.
Qed.

(** ** What becomes of a row

    Of the rows of [t], each is still in [t'], related to what it was by [rel],
    or it was so related when it was deleted, for one of the reasons [why]. *)
Definition accounted {R} (key : R -> Z) (rel : R -> R -> Prop) (why : R -> Prop) (t t' : Table R) : Prop :=
  forall r, r ∈ rows t -> exists r', key r' = key r /\ rel r r' /\ (r' ∈ rows t' \/ why r').

Section Accounted.
Context {R : Type} (key : R -> Z) (rel : R -> R -> Prop) (why : R -> Prop).

#[export] Instance accounted_refl `{!Reflexive rel} : Reflexive (accounted key rel why).
Proof. intros t r Hr. exists r. auto. Qed.
#[export] Instance accounted_trans `{!Transitive rel} : Transitive (accounted key rel why).
Proof.
  intros t1 t2 t3 H12 H23 r Hr. destruct (H12 r Hr) as (r2 & K2 & R2 & [H2|Hw]); [|exists r2; auto].
  destruct (H23 r2 H2) as (r3 & K3 & R3 & H3). exists r3. split; [congruence|]. split; [by etrans|done].
Qed.

Lemma accounted_append `{!Reflexive rel} (l : list R) t : accounted key rel why t (append_rows l t).
Proof. intros r Hr. exists r. split; [done|]. split; [done|]. left. simpl. apply elem_of_app. by left. Qed.
Lemma accounted_insert `{!Reflexive rel} (mk : Z -> R) t : accounted key rel why t (insert_row mk t).
Proof. apply (accounted_append [mk (next_id t)] t). Qed.
Lemma accounted_update (p : R -> bool) (f : R -> R) t : (forall r, key (f r) = key r) -> (forall r, rel r (if p r then f r else r)) ->
  accounted key rel why t (update_where p f t).
Proof.
  intros Hk Hr r Hin. exists (if p r then f r else r). split; [by destruct (p r)|]. split; [apply Hr|]. left. apply elem_of_update. by exists r.
Qed.
Lemma accounted_delete `{!Reflexive rel} (p : R -> bool) t : (forall r, r ∈ rows t -> p r = true -> why r) -> accounted key rel why t (delete_where p t).
Proof.
  intros Hp r Hr. exists r. split; [done|]. split; [done|]. destruct (p r) eqn:E; [right; by apply Hp|left; by apply elem_of_delete].
Qed.
End Accounted.

(** The rows of the history are accounted for by what [P] lets be deleted. *)
Definition all_accounted (P : Change -> Prop) (d d' : DB) : Prop :=
  accounted rr_id run_final (fun r => P (DropsRun r)) (db_runs d) (db_runs d') /\
  accounted dl_id delivery_final (fun r => P (DropsDelivery r)) (db_deliveries d) (db_deliveries d') /\
  accounted ev_id eq (fun e => P (DropsEvent e)) (db_events d) (db_events d') /\
  accounted pr_id eq (fun r => exists log, P (DropsPing log r)) (db_pings d) (db_pings d').

#[export] Instance all_accounted_refl P : Reflexive (all_accounted P).
Proof. intros d. unfold all_accounted. repeat split_and; reflexivity. Qed.
#[export] Instance all_accounted_trans P : Transitive (all_accounted P).
Proof. intros d1 d2 d3 (A1 & A2 & A3 & A4) (B1 & B2 & B3 & B4). unfold all_accounted in *. repeat split_and; by etrans. Qed.

Lemma all_accounted_micro P d d' : micro P d d' -> all_accounted P d d'.
Proof.
  intros Hm. destruct Hm; unfold all_accounted; simpl; try (repeat split_and; reflexivity);
    try (repeat split_and; try reflexivity; apply accounted_delete; [apply _|]; intros x Hx Hp; first [by apply H1|by eexists; apply H1]).
  - pose proof (record_step_frame _ _ _ H2) as F. destruct F as (-> & _ & -> & _).
    destruct H2 as (e' & t & cs & _ & Hid & _ & m & news & -> & _). simpl. repeat split_and; try reflexivity; apply accounted_append; apply _.
  - repeat split_and; try reflexivity. apply accounted_insert, _.
  - repeat split_and; try reflexivity. apply accounted_update; [intros r; apply H2|]. intros r. destruct (p r) eqn:E; [|reflexivity].
    split; [apply H2|]. rewrite H1 by done. done.
  - repeat split_and; try reflexivity. apply accounted_insert, _.
  - repeat split_and; try reflexivity. apply accounted_insert, _.
  - repeat split_and; try reflexivity. apply accounted_update; [intros r; apply H1|]. intros r. destruct (p r); [|reflexivity].
    destruct (H1 r) as [Hs Hst]. split; [done|]. destruct Hst as [-> |]; done.
Qed.

(** ** No alert without its event *)

Definition has_event (d : DB) (i : Z) : Prop := exists e, e ∈ rows (db_events d) /\ ev_id e = i.

(** The event of every pending delivery and of every held alert is there. *)
Definition alerts_have_events (d : DB) : Prop :=
  (forall r, r ∈ rows (db_deliveries d) -> dl_state r = DeliveryPending -> has_event d (dl_event r)) /\
  (forall k r i, db_alerts d !! k = Some r -> fa_held r = Some i -> has_event d i).

Lemma Forall2_elem {A B} (R : A -> B -> Prop) l k y : Forall2 R l k -> y ∈ k -> exists x, x ∈ l /\ R x y.
Proof.
  intros F. induction F as [|a b l k Hab F IH]; intros Hy; [by apply elem_of_nil in Hy|].
  apply elem_of_cons in Hy as [->|Hy]; [exists a; split; [left|done]|].
  destruct (IH Hy) as (x & Hx & Hr). exists x. split; [by right|done].
Qed.

Lemma event_needed_delivery d e r : r ∈ rows (db_deliveries d) -> dl_state r = DeliveryPending -> dl_event r = ev_id e ->
  event_needed d e = true.
Proof.
  intros Hr Hp He. unfold event_needed. apply orb_true_iff. left. apply exists_row_true. exists r.
  split; [done|]. unfold pending. rewrite (bool_decide_eq_true_2 _ Hp). by apply Z.eqb_eq.
Qed.

Lemma event_needed_held d e k r : db_alerts d !! k = Some r -> fa_held r = Some (ev_id e) -> event_needed d e = true.
Proof.
  intros Hk Hh. unfold event_needed. apply orb_true_iff. right. apply existsb_exists. exists (k, r). split.
  - apply list_elem_of_In. by apply elem_of_map_to_list.
  - by apply bool_decide_eq_true.
Qed.

Lemma alerts_have_events_micro P d d' : micro P d d' -> alerts_have_events d -> alerts_have_events d'.
Proof.
  intros Hm [Hd Ha]. unfold alerts_have_events, has_event in *. destruct Hm; simpl; try (split; [exact Hd|exact Ha]).
  - destruct H2 as (e' & t & cs & _ & Hid & _ & m & news & -> & Hheld & Hnew & _). simpl. split.
    + intros r Hr Hp. apply elem_of_app in Hr as [Hr|Hr].
      * destruct (Hd r Hr Hp) as (x & Hx & E). exists x. split; [apply elem_of_app; by left|done].
      * destruct (Forall2_elem _ _ _ _ Hnew Hr) as (ch & _ & (_ & E & _)). exists e'.
        split; [apply elem_of_app; right; by apply list_elem_of_singleton|done].
    + intros k r i Hk Hi. destruct (Hheld k r i Hk Hi) as [[= <-]|(r0 & Hr0 & E0)].
      * exists e'. split; [apply elem_of_app; right; by apply list_elem_of_singleton|done].
      * destruct (Ha k r0 i Hr0 E0) as (x & Hx & E). exists x. split; [apply elem_of_app; by left|done].
  - split; [|exact Ha]. intros r [Hr|Hr]%elem_of_insert Hp; [by apply Hd|]. subst r. apply H1.
  - split; [|exact Ha]. intros r' (r & Hr & ->)%elem_of_update Hp. destruct (p r); [|by apply Hd].
    destruct (H1 r) as [(_ & _ & -> & _) [E|E]]; [|done]. apply Hd; [done|congruence].
  - split; [|exact Ha]. intros r [Hr _]%elem_of_delete Hp. by apply Hd.
  - assert (Hkeep : forall e, e ∈ rows (db_events d) -> event_needed d e = true -> e ∈ rows (delete_where p (db_events d))).
    { intros e He Hn. apply elem_of_delete. split; [done|]. apply not_true_iff_false. intros Hpe. destruct (H1 e Hpe) as [Hx _]. congruence. }
    split.
    + intros r Hr Hp. destruct (Hd r Hr Hp) as (x & Hx & E). exists x. split; [|done].
      apply Hkeep; [done|]. by eapply event_needed_delivery.
    + intros k r i Hk Hi. destruct (Ha k r i Hk Hi) as (x & Hx & E). exists x. split; [|done].
      apply Hkeep; [done|]. eapply event_needed_held; [done|congruence].
  - split; [exact Hd|]. intros k r i Hk Hi. destruct (H1 k r i Hk Hi) as [|(r0 & Hr0 & E0)]; [done|]. by eapply Ha.
Qed.

Lemma alerts_have_events_ops l : alerts_have_events (st_db (run_ops l start)).
Proof.
  pose proof (run_ops_steps l start empty_db_wf) as Hs.
  assert (H0' : alerts_have_events (st_db start)) by (split; [by intros r Hr%elem_of_nil|by intros k r i Hk]).
  revert H0'. induction Hs; intros Hi; [done|]. apply IHHs. by eapply alerts_have_events_micro.
Qed.

(** C5: the queue never refers to an event that is gone: however pings, runs,
    releases, channel deletions and retention sweeps interleave, the event of
    every pending delivery and of every held failure alert is there. *)
Theorem pending_alerts_have_events (l : list Op) : alerts_have_events (st_db (run_ops l start)).
Proof. apply alerts_have_events_ops. Qed.

(** ** One outcome per run *)

Definition is_verdict (e : Event) : bool :=
  String.eqb (ev_type e) EventRunSucceeded || String.eqb (ev_type e) EventRunFailed.
Definition quiet (e : Event) : Prop := is_verdict e = false.
Definition quietly (c : Change) : Prop := match c with Records e => quiet e | _ => True end.

(** The run.succeeded and run.failed events about a run. *)
Definition about (run : Z) (e : Event) : bool := is_verdict e && (EventRunID e =? run).
Definition verdicts (run : Z) (d : DB) : list Event := select (about run) (db_events d).

(** The calls of the runner and of the others: an outcome is recorded by the
    operation that finishes the run it is about, and by no other. *)
Definition verdict_ok (o : Op) : Prop :=
  match o with
  | OpFinishRunAndEmit run st _ _ _ ev => EventRunID ev = run /\ terminal st = true
  | OpReapStaleRun run _ ev => EventRunID ev = run
  | OpEmitEvent ev | OpSetHeartbeatStatusIfAndEmit _ _ _ _ ev | OpMarkHeartbeatDownAndEmit _ ev
  | OpFailDeliveryAndEmit _ ev => quiet ev
  | _ => True
  end.

Definition settled (run : Z) (d : DB) : Prop :=
  run < next_id (db_runs d) /\ forall r, r ∈ rows (db_runs d) -> rr_id r = run -> terminal (rr_status r) = true.

(** At most one outcome is recorded for a run, and only once it has it. *)
Definition one_verdict (d : DB) : Prop :=
  db_wf d /\ forall run, (List.length (verdicts run d) <= 1)%nat /\ (verdicts run d <> [] -> settled run d).

(** The run has its outcome, not recorded yet. *)
Definition ready (run : Z) (d : DB) : Prop := one_verdict d /\ verdicts run d = [] /\ settled run d.

Lemma select_app {R} (p : R -> bool) l t : select p (append_rows l t) = select p t ++ List.filter p l.
Proof. apply List.filter_app. Qed.

Lemma verdicts_record e d d' run : record_step e d d' ->
  exists e', verdicts run d' = verdicts run d ++ (if about run e then [e'] else []).
Proof.
  intros (e' & t & cs & (Ho & Hty & Hs & Hp & _) & Hid & _ & m & news & -> & _). exists e'.
  unfold verdicts. simpl. rewrite select_app. simpl.
  assert (E : about run e' = about run e) by (unfold about, is_verdict, EventRunID; by rewrite Hty, Hp).
  rewrite E. by destruct (about run e).
Qed.

Lemma settled_record e d d' run : record_step e d d' -> settled run d -> settled run d'.
Proof. intros Hr. unfold settled. by destruct (record_step_frame _ _ _ Hr) as [-> _]. Qed.

Lemma record_quiet e d d' : record_step e d d' -> quiet e -> one_verdict d -> one_verdict d'.
Proof.
  intros Hr Hq [Hw Hv]. split; [by eapply record_step_wf|]. intros run.
  assert (E : verdicts run d' = verdicts run d).
  { assert (Ha : about run e = false) by (unfold about; by rewrite Hq).
    destruct (verdicts_record e d d' run Hr) as [e' E]; rewrite Ha, app_nil_r in E; done. }
  rewrite E. split; [apply Hv|]. intros Hne. eapply settled_record; [done|]. by apply Hv.
Qed.

Lemma record_ready e d d' run : record_step e d d' -> EventRunID e = run -> ready run d -> one_verdict d'.
Proof.
  intros Hr He ((Hw & Hv) & Hnone & Hset). split; [by eapply record_step_wf|]. intros r.
  destruct (decide (r = run)) as [->|Hne].
  - split; [|intros _; by eapply settled_record].
    destruct (verdicts_record e d d' run Hr) as [e' E]; rewrite E, Hnone; destruct (about run e); simpl; lia.
  - assert (E : verdicts r d' = verdicts r d).
    { assert (Ha : about r e = false) by (unfold about; destruct (Z.eqb_spec (EventRunID e) r); [congruence|apply andb_false_r]).
      destruct (verdicts_record e d d' r Hr) as [e' E]; rewrite Ha, app_nil_r in E; done. }
    rewrite E. split; [apply Hv|]. intros Hn. eapply settled_record; [done|]. by apply Hv.
Qed.

Lemma filter_delete_length {A} (p q : A -> bool) l :
  (List.length (List.filter p (List.filter q l)) <= List.length (List.filter p l))%nat.
Proof. induction l as [|x l IH]; simpl; [lia|]. destruct (q x); simpl; destruct (p x); simpl; lia. Qed.

Lemma one_verdict_micro d d' : micro quietly d d' -> one_verdict d -> one_verdict d'.
Proof.
  intros Hm Hv. assert (Hw' : db_wf d') by (eapply micro_wf; [done|apply Hv]).
  destruct Hm; try (split; [exact Hw'|exact (proj2 Hv)]).
  - by eapply record_quiet.
  - destruct Hv as [Hw Hv]. split; [done|]. intros run. specialize (Hv run) as [Hl Hs]. split; [done|].
    intros Hne. destruct (Hs Hne) as [Hlt Ht]. split; [simpl; lia|]. intros r [Hr|Hr]%elem_of_insert E; [by apply Ht|].
    subst r. rewrite H1 in E. lia.
  - destruct Hv as [Hw Hv]. split; [done|]. intros run. specialize (Hv run) as [Hl Hs]. split; [done|].
    intros Hne. destruct (Hs Hne) as [Hlt Ht]. split; [done|]. intros r' (r & Hr & ->)%elem_of_update E.
    destruct (p r) eqn:Hp; [|by apply Ht]. exfalso. destruct (H2 r) as [Hid _].
    specialize (Ht r Hr ltac:(congruence)). specialize (H1 r Hp). congruence.
  - destruct Hv as [Hw Hv]. split; [done|]. intros run. specialize (Hv run) as [Hl Hs]. split; [done|].
    intros Hne. destruct (Hs Hne) as [Hlt Ht]. split; [done|]. intros r [Hr _]%elem_of_delete E. by apply Ht.
  - destruct Hv as [Hw Hv]. split; [done|]. intros run. specialize (Hv run) as [Hl Hs].
    pose proof (filter_delete_length (about run) (fun r => negb (p r)) (rows (db_events d))) as Hle.
    split; [unfold verdicts, select in *; simpl; lia|]. intros Hne. apply Hs. intros E. apply Hne.
    unfold verdicts, select in *. simpl. rewrite E in Hle. simpl in Hle.
    destruct (List.filter (about run) (List.filter _ _)); [done|simpl in Hle; lia].
Qed.

Lemma one_verdict_steps d d' : msteps quietly d d' -> one_verdict d -> one_verdict d'.
Proof. intros Hs. induction Hs; intros Hv; [done|]. apply IHHs. by eapply one_verdict_micro. Qed.

Lemma hoare_quiet {A} (m : Store A) : evolves (msteps quietly) m -> hoare one_verdict m (fun _ => one_verdict).
Proof.
  intros Hm s Hs. specialize (Hm s). destruct (m s) as [[a|e] s']; [|done]. by eapply one_verdict_steps.
Qed.

Lemma preserves_quiet {A} (m : Store A) : evolves (wsteps quietly) m -> preserves one_verdict m.
Proof. intros Hm s Hs. eapply one_verdict_steps; [|done]. apply Hm, Hs. Qed.

Lemma hoare_emit_ready run ev : EventRunID ev = run -> hoare (ready run) (emitEvent ev) (fun _ => one_verdict).
Proof.
  intros He s Hs. unfold emitEvent, bind. pose proof (recordEvent_step ev s) as Hr.
  destruct (recordEvent ev s) as [[e'|e] s']; [|done]. simpl in *. by eapply record_ready.
Qed.

(** The guarded end of a running run: it is ready for its verdict. *)
Lemma finish_ready run d f : one_verdict d -> count_where (running run) (db_runs d) <> 0 ->
  (forall r, same_run r (f r) /\ terminal (rr_status (f r)) = true) ->
  ready run (on_runs (update_where (running run) f) d).
Proof.
  intros Hv Hn Hf.
  assert (Hex : exists r, r ∈ rows (db_runs d) /\ running run r = true).
  { apply exists_row_true. apply not_false_iff_true. intros F. apply Hn. apply count_where_0. by apply exists_row_false. }
  destruct Hex as (r & Hr & Hp). pose proof Hp as [Hid Hst]%running_true.
  assert (Hnone : verdicts run d = []).
  { destruct (verdicts run d) eqn:E; [done|]. destruct (proj2 (proj2 Hv run)) as [_ Ht]; [by rewrite E|].
    specialize (Ht r Hr Hid). rewrite Hst in Ht. done. }
  assert (Hv' : one_verdict (on_runs (update_where (running run) f) d)).
  { eapply one_verdict_micro; [|done]. apply mi_run_update; [apply running_not_terminal|]. intros x. apply Hf. }
  split; [done|]. split; [done|]. destruct Hv as [Hw _]. split.
  - change (run < next_id (db_runs d)). rewrite <- Hid. apply (table_wf_lt rr_id); [apply Hw|done].
  - intros x (y & Hy & ->)%elem_of_update E.
    assert (Hy' : rr_id y = run) by (destruct (running run y); [destruct (Hf y) as [[Hs _] _]; congruence|done]).
    assert (y = r) as -> by (eapply (table_key_inj rr_id); [apply Hw|done|done|congruence]).
    rewrite Hp. apply Hf.
Qed.

Lemma hoare_finishRunTx run st ec out : terminal st = true ->
  hoare one_verdict (finishRunTx run st ec out) (fun _ => ready run).
Proof.
  intros Ht s Hv. unfold finishRunTx, bind, now_, query, exec. simpl.
  destruct (Z.eqb_spec (count_where (running run) (db_runs (st_db s))) 0) as [E|E]; simpl.
  - by destruct (exists_row _ _).
  - apply finish_ready; [done|done|]. intros r. by split.
Qed.

Lemma ready_attempt run att d : ready run d ->
  ready run (on_runs (update_where (is_run run) (fun r => rr_with_attempt r att)) d).
Proof.
  intros ((Hw & Hv) & Hnone & Hlt & Ht).
  assert (Hset : forall i, settled i d -> settled i (on_runs (update_where (is_run run) (fun r => rr_with_attempt r att)) d)).
  { intros i [Hl Hs]. split; [done|]. intros r (x & Hx & ->)%elem_of_update E. destruct (is_run run x); by apply (Hs x). }
  split; [split|]; [| |split; [done|by apply Hset]].
  - unfold db_wf in *. simpl. decompose [and] Hw. repeat split_and; try done. apply table_wf_update; done.
  - intros i. specialize (Hv i) as [Hl Hs]. split; [done|]. intros Hne. by apply Hset, Hs.
Qed.

Lemma preserves_FinishRunAndEmit run st ec att out ev : EventRunID ev = run -> terminal st = true ->
  preserves one_verdict (FinishRunAndEmit run st ec att out ev).
Proof.
  intros He Ht. unfold FinishRunAndEmit. apply preserves_tx.
  eapply hoare_bind; [by apply hoare_finishRunTx|]. intros u0. simpl.
  eapply hoare_bind with (Q := fun _ => ready run); [apply hoare_exec; intros d Hd; by apply ready_attempt|]. intros u.
  eapply hoare_bind with (Q := fun _ => one_verdict); [by apply hoare_emit_ready|]. intros id.
  eapply hoare_bind with (Q := fun _ => one_verdict); [|intros u'; by apply hoare_ret].
  case_bool_decide; [|by apply hoare_ret].
  eapply hoare_bind with (Q := fun _ => one_verdict); [by apply hoare_quiet, evolves_emit_recovery|]. intros u'.
  apply hoare_quiet, evolves_endStreak.
Qed.

Lemma preserves_ReapStaleRun run out ev : EventRunID ev = run -> preserves one_verdict (ReapStaleRun run out ev).
Proof.
  intros He. unfold ReapStaleRun. apply preserves_tx. intros s Hv. unfold bind at 1 2 3, now_, query, exec. simpl.
  destruct (Z.eqb_spec (count_where (running run) (db_runs (st_db s))) 0) as [E|E]; [done|].
  match goal with |- match ?m ?x with _ => _ end =>
    assert (Hm : hoare (ready run) m (fun o d => match o with Commit _ => one_verdict d | Rollback _ => True end)) end.
  { eapply hoare_bind with (Q := fun _ => one_verdict); [by apply hoare_emit_ready|]. intros id. by apply hoare_ret. }
  apply Hm. simpl. apply finish_ready; [done|done|]. intros r. by split.
Qed.

Lemma preserves_FailUnreadableJob org job name out : preserves one_verdict (FailUnreadableJob org job name out).
Proof.
  unfold FailUnreadableJob. apply preserves_tx. intros s Hv. unfold bind at 1 2 3, now_, query, exec at 1. simpl.
  set (run := next_id (db_runs (st_db s))).
  match goal with |- match ?m ?x with _ => _ end =>
    assert (Hm : hoare (ready run) m (fun o d => match o with Commit _ => one_verdict d | Rollback _ => True end)) end.
  { eapply hoare_bind with (Q := fun _ => one_verdict).
    - intros s0 Hs0. match goal with |- context [recordEvent ?e s0] => pose proof (recordEvent_step e s0) as Hr;
        destruct (recordEvent e s0) as [[e'|e'] s1]; [|done] end.
      simpl in *. by eapply record_ready.
    - intros ev. eapply hoare_bind with (Q := fun _ => one_verdict); [|intros u; by apply hoare_ret].
      apply hoare_quiet. evolve. apply rtc_once, mi_jobs, keeps_update. done. }
  apply Hm. simpl.
  set (d' := on_runs _ (st_db s)).
  assert (Hv' : one_verdict d') by (eapply one_verdict_micro; [apply mi_run_new; intros i; reflexivity|done]).
  assert (Hnone : verdicts run (st_db s) = []).
  { destruct (verdicts run (st_db s)) eqn:E; [done|]. destruct (proj2 (proj2 Hv run)) as [Hlt _]; [by rewrite E|]. unfold run in Hlt. lia. }
  split; [done|]. split; [done|]. split; [unfold d', run; simpl; lia|].
  intros r [Hr|Hr]%elem_of_insert E; [|by rewrite Hr].
  destruct Hv as [Hw _]. assert (rr_id r < run) by (apply (table_wf_lt rr_id); [apply Hw|done]). lia.
Qed.

Lemma preserves_op o : verdict_ok o -> preserves one_verdict (run_op o).
Proof.
  intros Ho. assert (Hq : emits quietly o -> preserves one_verdict (run_op o)).
  { intros He. apply preserves_quiet, run_op_steps; [done|]. intros []; try done. by destruct o. }
  destruct o; try (apply Hq; simpl in *; done);
    try (apply preserves_bind; [|intros a; apply preserves_ret]).
  - apply preserves_FailUnreadableJob.
  - destruct Ho. by apply preserves_FinishRunAndEmit.
  - by apply preserves_ReapStaleRun.
Qed.

Lemma one_verdict_ops (l : list Op) s : one_verdict (st_db s) -> Forall verdict_ok l -> one_verdict (st_db (run_ops l s)).
Proof.
  revert s. induction l as [|o l IH]; intros s Hs Hl; simpl; [done|]. inversion Hl; subst. apply IH; [|done].
  by apply preserves_op.
Qed.

Lemma one_verdict_start : one_verdict (st_db start).
Proof. split; [apply empty_db_wf|]. intros run. split; [simpl; lia|done]. Qed.

(** C1: a run has at most one outcome on record, as long as the callers of the
    store keep to [verdict_ok]: a finish and a reap carry the event of the run
    they end, a finish a terminal status, and nothing else is asked to record a
    run.succeeded or a run.failed. Then however finishes, retries of a finish
    whose acknowledgement was lost, reaps, requeues and all other operations
    interleave, and whatever faults the database has, there is at most one
    run.succeeded or run.failed about a run, and none before the run has
    reached its outcome. *)
Theorem one_outcome_per_run (l : list Op) : Forall verdict_ok l -> one_verdict (st_db (run_ops l start)).
Proof. apply one_verdict_ops, one_verdict_start. Qed.

End History.

(** A job, a run of it claimed and reaped, and its worker's late finish. *)
Definition late_finish : list Op :=
  let ev typ st := RunEvent {| r_id := 1; r_org := 1; r_job := 1; r_status := StatusRunning; r_attempt := 1; r_exit_code := 0;
    r_output := []; r_claimed_by := "runner"; r_started_at := zero_time; r_ended_at := zero_time;
    r_created_at := zero_time |} "backup" typ st 0 in
  [OpCreateJob flaky_job; OpEnqueueRun 1 1; OpClaimRun "runner";
   OpReapStaleRun 1 [] (ev EventRunFailed StatusFailed);
   OpFinishRunAndEmit 1 StatusSucceeded 0 1 [] (ev EventRunSucceeded StatusSucceeded)].

Lemma one_outcome_per_run_witness :
  @one_verdict plain_text (st_db (@run_ops (steady Hour) plain_text late_finish start)) /\
  List.length (@verdicts plain_text 1 (st_db (@run_ops (steady Hour) plain_text late_finish start))) = 1%nat.
Proof.
  split; [|vm_compute; reflexivity].
  apply (@one_outcome_per_run (steady Hour) plain_text late_finish). repeat constructor.
Defined.
