(* ===== verification/StorePacing.v ===== *)
(** * The store paces alerts by the rules of [Pacing]

    What the store tells one channel about one job, over any sequence of its
    operations, is a trace of [Pacing]: the failures and recoveries recorded
    and the polls for held alerts are the trace's steps, and the deliveries
    queued are what the trace sends. *)
From S2P Require Import Prelude GoTime Domain Pacing Sql Schema StoreEvents Failure StoreRuns StoreHeartbeats StoreDeliveries StoreConfig StoreInv.
From stdpp Require Import relations.
Open Scope Z_scope.

Section Channels.
Context `{World} `{JSONText}.

(** ** The interval of a release is that of the pacing *)

(** The loop of [failedRepeat] finds the least interval. *)
Lemma least_interval {A} (f : A -> Duration) l : forall m, exists n,
  fold_left (fun '(repeat, routed) r => (if negb routed || (f r <? repeat) then f r else repeat, true)) l (m, true) = (n, true) /\
  n <= m /\ (forall r, r ∈ l -> n <= f r) /\ (n = m \/ exists r, r ∈ l /\ n = f r).
Proof.
  induction l as [|x l IH]; intros m; simpl.
  { exists m. repeat split; [lia|by intros r Hr%elem_of_nil|by left]. }
  destruct (IH (if f x <? m then f x else m)) as (n & -> & Hn & Hall & Hex). exists n. split; [done|].
  destruct (Z.ltb_spec (f x) m); (split; [lia|]); split.
  - intros r [->|Hr]%elem_of_cons; [lia|by apply Hall].
  - right. destruct Hex as [->|(r & Hr & ->)]; [exists x; split; [left|done]|exists r; split; [by right|done]].
  - intros r [->|Hr]%elem_of_cons; [lia|by apply Hall].
  - destruct Hex as [->|(r & Hr & ->)]; [by left|right; exists r; split; [by right|done]].
Qed.

Lemma failedRepeat_least org chID jobID kind d :
  let rule r := r ∈ rows (db_rules d) /\ routes org EventRunFailed jobID r = true /\ rw_channel r = chID in
  let interval r := EffectiveRepeat kind (repeatOf (rw_repeat_seconds r)) in
  forall r0, rule r0 -> exists n, failedRepeat org chID jobID kind d = (n, true) /\
  (forall r, rule r -> n <= interval r) /\ exists r, rule r /\ n = interval r.
Proof.
  intros rule interval r0 Hr0. unfold failedRepeat.
  set (l := select _ (db_rules d)).
  assert (Hl : forall r, r ∈ l <-> rule r).
  { intros r. unfold l, rule. rewrite elem_of_select, andb_true_iff, Z.eqb_eq. tauto. }
  destruct l as [|x l'] eqn:El; [by apply Hl, elem_of_nil in Hr0|]. simpl.
  destruct (least_interval interval l' (interval x)) as (n & E & Hn & Hall & Hex). unfold interval in *. rewrite E.
  exists n. split; [done|]. split.
  - intros r [->|Hr]%Hl%elem_of_cons; [done|by apply Hall].
  - destruct Hex as [->|(r & Hr & ->)]; [exists x; split; [apply Hl; left|done]|exists r; split; [apply Hl; by right|done]].
Qed.

(** A failed run's alert and the release of one that was held are paced by the
    same interval. *)
Lemma failedRepeat_matched e jobID d m : ev_type e = EventRunFailed -> m ∈ matchedChannels e jobID d ->
  failedRepeat (ev_org e) (mc_id m) jobID (mc_kind m) d = (mc_repeat m, true).
Proof.
  intros Ht Hm. destruct (matchedChannels_facts e jobID d) as (_ & _ & Hspec).
  destruct (Hspec m Hm) as (_ & Hle & r0 & [Hr0 Hp0] & Hc0 & E0). rewrite Ht in *.
  destruct (failedRepeat_least (ev_org e) (mc_id m) jobID (mc_kind m) d r0 (conj Hr0 (conj Hp0 Hc0))) as (n & -> & Hall & r & (Hr & Hp & Hc) & ->).
  f_equal. specialize (Hall r0 (conj Hr0 (conj Hp0 Hc0))). specialize (Hle r (conj Hr Hp) Hc). lia.
Qed.

(** ** One channel's turn in [enqueueDeliveries] *)

(** What a row of [failure_alerts] says. *)
Definition told_of (r : AlertRow) : AlertState :=
  {| LastSentAt := parseTime (fa_last_sent_at r); Held := bool_decide (is_Some (fa_held r)) |}.

Lemma alertState_told chID jobID d : exists held,
  alertState chID jobID d = (default no_alert (told_of <$> db_alerts d !! (chID, jobID)),
                             bool_decide (is_Some (db_alerts d !! (chID, jobID))), held).
Proof. unfold alertState. destruct (db_alerts d !! (chID, jobID)); by eexists. Qed.

(** [paced] as a function of the channel's row: whether [e] goes out, and the row after. *)
Definition paces (e : Event) (jobID : Z) (streak : Streak) (repeat : Duration) (routed : bool) (a : option AlertRow)
    : bool * option AlertRow :=
  let st := default no_alert (told_of <$> a) in
  let known := bool_decide (is_Some a) in
  if jobID <=? 0 then (true, a)
  else if String.eqb (ev_type e) EventRunFailed then
    if FailedRuns streak <=? 0 then (true, a)
    else
      let '(send, next) := PaceFailure st known (ev_created_at e) (FailingSince streak) repeat in
      (send, Some {| fa_org := default (ev_org e) (fa_org <$> a); fa_last_sent_at := nullTime (LastSentAt next);
                     fa_held := if Held next then Some (ev_id e) else None |})
  else if String.eqb (ev_type e) EventRunRecovered then
    (if routed then PaceRecovery st known (FailingSince streak) else true, a)
  else (true, a).

Lemma on_alerts_id f d : f (db_alerts d) = db_alerts d -> on_alerts f d = d.
Proof. intros E. destruct d. unfold on_alerts. simpl in *. by rewrite E. Qed.

Lemma paced_paces e jobID streak c s :
  let routed := snd (failedRepeat (ev_org e) (mc_id c) jobID (mc_kind c) (st_db s)) in
  let f := paces e jobID streak (mc_repeat c) routed in
  paced e jobID streak c s = (Ok (fst (f (db_alerts (st_db s) !! (mc_id c, jobID)))),
    mkSt (on_alerts (partial_alter (fun a => snd (f a)) (mc_id c, jobID)) (st_db s)) (st_tick s)).
Proof.
  intros routed f. unfold paced.
  assert (Hsame : forall b, (forall a, snd (f a) = a) -> fst (f (db_alerts (st_db s) !! (mc_id c, jobID))) = b ->
    (Ok b, s) = (Ok (fst (f (db_alerts (st_db s) !! (mc_id c, jobID)))),
      mkSt (on_alerts (partial_alter (fun a => snd (f a)) (mc_id c, jobID)) (st_db s)) (st_tick s))).
  { intros b Hid ->. f_equal. destruct s as [d n]. simpl. f_equal. symmetry. apply on_alerts_id.
    rewrite (partial_alter_ext _ (fun _ => db_alerts d !! (mc_id c, jobID))); [apply partial_alter_self|].
    intros a Ha. by rewrite Hid, Ha. }
  destruct (jobID <=? 0) eqn:Ej; [unfold ret; apply Hsame; intros; unfold f, paces; by rewrite Ej|].
  destruct (alertState_told (mc_id c) jobID (st_db s)) as [held Ea].
  destruct (String.eqb (ev_type e) EventRunFailed) eqn:Ef.
  - destruct (FailedRuns streak <=? 0) eqn:En.
    { unfold ret. apply Hsame; intros; unfold f, paces; by rewrite Ej, Ef, En. }
    unfold bind, query. rewrite Ea. unfold f, paces. rewrite Ej, Ef, En. simpl.
    destruct (PaceFailure _ _ _ _ _) as [send next] eqn:Ep. simpl. f_equal. unfold saveAlertState, exec. simpl.
    f_equal. unfold on_alerts. f_equal. unfold insert, map_insert. apply partial_alter_ext.
    intros a <-. by rewrite Ep.
  - destruct (String.eqb (ev_type e) EventRunRecovered) eqn:Er.
    2: { unfold ret. apply Hsame; intros; unfold f, paces; by rewrite Ej, Ef, Er. }
    unfold bind, query. destruct (failedRepeat _ _ _ _ _) as [rep b] eqn:Eb. unfold routed in *. simpl in *.
    destruct b; simpl.
    + rewrite Ea. unfold ret. apply Hsame; intros; unfold f, paces; by rewrite Ej, Ef, Er.
    + unfold ret. apply Hsame; intros; unfold f, paces; by rewrite Ej, Ef, Er.
Qed.

(** The deliveries of a list to a channel. *)
Definition to_channel (chID : Z) (l : list DeliveryRow) : list DeliveryRow := List.filter (fun r => dl_channel r =? chID) l.

Lemma to_channel_app chID l l' : to_channel chID (l ++ l') = to_channel chID l ++ to_channel chID l'.
Proof. apply List.filter_app. Qed.

(** The effect of a loop over [chs] on the deliveries and the alert states,
    channel by channel; [f] says what becomes of one. *)
Definition each_channel (e : Event) (jobID : Z) (chs : list matchedChannel)
    (f : matchedChannel -> option AlertRow -> bool * option AlertRow) (d d' : DB) : Prop := exists m news,
  d' = on_alerts (fun _ => m) (on_deliveries (append_rows news) d) /\
  (forall r, r ∈ news -> dl_event r = ev_id e) /\
  (forall k, (forall c, c ∈ chs -> k <> (mc_id c, jobID)) -> m !! k = db_alerts d !! k) /\
  (forall ch, ch ∉ map mc_id chs -> to_channel ch news = []) /\
  forall c, c ∈ chs -> m !! (mc_id c, jobID) = snd (f c (db_alerts d !! (mc_id c, jobID))) /\
    List.length (to_channel (mc_id c) news) = if fst (f c (db_alerts d !! (mc_id c, jobID))) then 1%nat else 0%nat.

Lemma each_channel_nil e jobID f d : each_channel e jobID [] f d d.
Proof.
  exists (db_alerts d), []. split; [unfold on_deliveries; rewrite append_nil; by destruct d|].
  split; [by intros r Hr%elem_of_nil|]. split; [done|]. split; [done|]. by intros c Hc%elem_of_nil.
Qed.

Lemma each_channel_cons e jobID c chs f d d1 d2 : mc_id c ∉ map mc_id chs ->
  each_channel e jobID [c] f d d1 -> each_channel e jobID chs f d1 d2 -> each_channel e jobID (c :: chs) f d d2.
Proof.
  intros Hc (m1 & n1 & -> & He1 & Hm1 & Hn1 & Hf1) (m2 & n2 & -> & He2 & Hm2 & Hn2 & Hf2).
  exists m2, (n1 ++ n2). simpl in *.
  assert (Hkeep : forall c', c' ∈ chs -> m1 !! (mc_id c', jobID) = db_alerts d !! (mc_id c', jobID)).
  { intros c' Hc'. apply Hm1. intros x ->%list_elem_of_singleton [= E]. apply Hc. apply elem_of_map. exists c'. by rewrite E. }
  split; [|split; [|split; [|split]]].
  - unfold on_alerts, on_deliveries, append_rows. simpl. f_equal. rewrite length_app. f_equal; [by rewrite app_assoc|lia].
  - intros r [Hr|Hr]%elem_of_app; auto.
  - intros k Hk. rewrite Hm2 by (intros x Hx; apply Hk; by right). simpl. apply Hm1. intros x ->%list_elem_of_singleton. apply Hk. left.
  - intros ch Hch. rewrite to_channel_app, Hn1, Hn2; [done| |].
    + intros Hin. apply Hch. by right.
    + intros ->%list_elem_of_singleton. apply Hch. left.
  - intros x [->|Hx]%elem_of_cons.
    + destruct (Hf1 c ltac:(left)) as [E1 E2]. rewrite to_channel_app, length_app, E2, Hn2 by done. simpl. rewrite Nat.add_0_r.
      split; [|done]. rewrite Hm2; [done|]. intros y Hy [= E]. apply Hc. apply elem_of_map. exists y. by rewrite E.
    + destruct (Hf2 x Hx) as [E1 E2]. simpl in E1, E2. rewrite Hkeep in E1, E2 by done. split; [done|].
      rewrite to_channel_app, length_app, E2, Hn1; [done|]. intros Ec%list_elem_of_singleton. apply Hc. apply elem_of_map. by exists x.
Qed.

(** The pacing of channel [c] by the rules of [d]. *)
Definition paces_in (e : Event) (jobID : Z) (streak : Streak) (d : DB) (c : matchedChannel) : option AlertRow -> bool * option AlertRow :=
  paces e jobID streak (mc_repeat c) (snd (failedRepeat (ev_org e) (mc_id c) jobID (mc_kind c) d)).

Lemma enqueue_one_each e jobID streak c s : exists s', enqueue_one e jobID streak c s = (Ok tt, s') /\
  (st_tick s <= st_tick s')%nat /\ each_channel e jobID [c] (paces_in e jobID streak (st_db s)) (st_db s) (st_db s').
Proof.
  unfold enqueue_one, bind at 1. rewrite paced_paces. fold (paces_in e jobID streak (st_db s) c).
  set (f := paces_in e jobID streak (st_db s) c). set (a := db_alerts (st_db s) !! (mc_id c, jobID)).
  assert (Hrest : forall news, (forall r, r ∈ news -> dl_event r = ev_id e /\ dl_channel r = mc_id c) ->
    List.length news = (if fst (f a) then 1%nat else 0%nat) ->
    each_channel e jobID [c] (paces_in e jobID streak (st_db s)) (st_db s)
      (on_deliveries (append_rows news) (on_alerts (partial_alter (fun a => snd (f a)) (mc_id c, jobID)) (st_db s)))).
  { intros news Hnews Hlen. exists (partial_alter (fun a => snd (f a)) (mc_id c, jobID) (db_alerts (st_db s))), news.
    split; [by destruct s as [[] ?]|]. split; [intros r Hr; by apply Hnews|]. split; [|split].
    - intros k Hk. rewrite lookup_partial_alter_ne; [done|]. intros <-. by apply (Hk c); [left|].
    - intros ch Hch. apply filter_none. intros r Hr. destruct (Hnews r Hr) as [_ ->]. apply Z.eqb_neq. intros <-. apply Hch. left.
    - intros x ->%list_elem_of_singleton. rewrite lookup_partial_alter_eq. fold f. fold a. split; [done|]. rewrite <- Hlen. f_equal.
      unfold to_channel. clear Hlen. induction news as [|r news IH]; simpl; [done|].
      destruct (Hnews r ltac:(left)) as [_ ->]. rewrite Z.eqb_refl. f_equal. apply IH. intros y Hy. apply Hnews. by right. }
  destruct (fst (f a)) eqn:Ef; simpl.
  - eexists. split; [done|]. simpl. split; [lia|].
    replace (on_deliveries _ _) with (on_deliveries (append_rows [new_delivery (ev_org e) (ev_id e) (mc_id c) (clock (st_tick s)) (next_id (db_deliveries (st_db s)))])
      (on_alerts (partial_alter (fun a => snd (f a)) (mc_id c, jobID)) (st_db s))) by done.
    apply Hrest; [|done]. by intros r ->%list_elem_of_singleton.
  - eexists. split; [done|]. simpl. split; [lia|]. specialize (Hrest []). unfold on_deliveries in Hrest. rewrite append_nil in Hrest.
    apply Hrest; [by intros r Hr%elem_of_nil|done].
Qed.

Lemma paces_in_rules e jobID streak d d' c : db_rules d' = db_rules d -> paces_in e jobID streak d' c = paces_in e jobID streak d c.
Proof. intros E. unfold paces_in, failedRepeat. by rewrite E. Qed.

Lemma each_channel_ext e jobID chs f g d d' : (forall c, f c = g c) -> each_channel e jobID chs f d d' -> each_channel e jobID chs g d d'.
Proof. intros E (m & n & H1 & H2 & H3 & H4 & H5). exists m, n. repeat split; try done; destruct (H5 c ltac:(done)); by rewrite <- E. Qed.

Lemma enqueue_all_each e jobID streak chs : NoDup (map mc_id chs) -> forall s, exists s',
  for_each chs (enqueue_one e jobID streak) s = (Ok tt, s') /\ (st_tick s <= st_tick s')%nat /\
  each_channel e jobID chs (paces_in e jobID streak (st_db s)) (st_db s) (st_db s').
Proof.
  induction chs as [|c chs IH]; simpl; intros Hn s; [exists s; split; [done|split; [done|apply each_channel_nil]]|].
  apply NoDup_cons in Hn as [Hc Hn]. destruct (enqueue_one_each e jobID streak c s) as (s1 & E1 & T1 & F1).
  destruct (IH Hn s1) as (s2 & E2 & T2 & F2). unfold bind. rewrite E1, E2. exists s2. split; [done|]. split; [lia|].
  eapply each_channel_cons; [done|exact F1|]. eapply each_channel_ext; [|exact F2].
  intros x. apply paces_in_rules. destruct F1 as (m & n & -> & _). done.
Qed.

(** The channels [e] is queued for or paced on. *)
Definition alert_channels (e : Event) (d : DB) : list matchedChannel :=
  if Alertable (ev_type e) then matchedChannels e (EventJobID e) d else [].

Lemma enqueueDeliveries_each e j streak s : j = 0 \/ j = EventJobID e -> exists s',
  enqueueDeliveries e j streak s = (Ok tt, s') /\ (st_tick s <= st_tick s')%nat /\
  each_channel e (EventJobID e) (alert_channels e (st_db s)) (paces_in e (EventJobID e) streak (st_db s)) (st_db s) (st_db s').
Proof.
  intros Hj. unfold enqueueDeliveries, alert_channels. destruct (Alertable (ev_type e)); simpl.
  - assert (E : (if j <=? 0 then EventJobID e else j) = EventJobID e).
    { destruct Hj as [->| ->]; [done|]. by destruct (_ <=? 0). }
    rewrite E. unfold bind, query. apply enqueue_all_each, NoDup_sorted.
    destruct (matchedChannels_facts e (EventJobID e) (st_db s)) as [Hs _]. exact Hs.
  - exists s. split; [done|]. split; [done|apply each_channel_nil].
Qed.

(** ** Recording an event *)

(** The jobs and the streak after an event recorded at [at_]. *)
Definition jobs_after (e : Event) (at_ : Time) (d : DB) : Table JobRow :=
  if (0 <? EventJobID e) && String.eqb (ev_type e) EventRunFailed
  then update_where (is_job (ev_org e) (EventJobID e)) (extend_streak (afterSuccess e d) at_) (db_jobs d)
  else db_jobs d.

Definition streak_after (e : Event) (at_ : Time) (d : DB) : Streak :=
  if (0 <? EventJobID e) && (String.eqb (ev_type e) EventRunFailed || String.eqb (ev_type e) EventRunRecovered)
  then snd (row_streak (EventJobID e) (select1 (is_job (ev_org e) (EventJobID e)) (jobs_after e at_ d)))
  else no_streak.

Lemma streakOf_after e at_ s : exists j,
  streakOf e at_ s = (Ok (j, streak_after e at_ (st_db s)), mkSt (on_jobs (fun _ => jobs_after e at_ (st_db s)) (st_db s)) (st_tick s)) /\
  (j = 0 \/ j = EventJobID e).
Proof.
  assert (Hid : s = mkSt (on_jobs (fun _ => db_jobs (st_db s)) (st_db s)) (st_tick s)) by (by destruct s as [[] ?]).
  assert (Hrow : forall t, exists j, row_streak (EventJobID e) (select1 (is_job (ev_org e) (EventJobID e)) t)
    = (j, snd (row_streak (EventJobID e) (select1 (is_job (ev_org e) (EventJobID e)) t))) /\ (j = 0 \/ j = EventJobID e)).
  { intros t. unfold row_streak. destruct (select1 _ t); simpl; eexists; split; auto. }
  unfold streakOf, streak_after, jobs_after. rewrite (Z.leb_antisym 0 (EventJobID e)).
  destruct (0 <? EventJobID e); simpl; [|exists 0; split; [unfold ret; f_equal; exact Hid|by left]].
  destruct (String.eqb (ev_type e) EventRunFailed); simpl.
  - unfold bind, query, exec. simpl. destruct (Hrow (update_where (is_job (ev_org e) (EventJobID e)) (extend_streak (afterSuccess e (st_db s)) at_) (db_jobs (st_db s)))) as (j & E & Hj).
    exists j. rewrite E. by split.
  - destruct (String.eqb (ev_type e) EventRunRecovered); [|exists 0; split; [unfold ret; f_equal; exact Hid|by left]].
    unfold query. destruct (Hrow (db_jobs (st_db s))) as (j & E & Hj). exists j. rewrite E. split; [by f_equal|done].
Qed.

Definition record_time (e : Event) (s : St DB) : Time := if IsZero (ev_created_at e) then clock (st_tick s) else ev_created_at e.

(** Everything recording an event does. *)
Lemma recordEvent_all e s : let at_ := record_time e s in let d := st_db s in exists e' s',
  recordEvent e s = (Ok e', s') /\ recorded_as e e' /\ ev_id e' = next_id (db_events d) /\ ev_created_at e' = at_ /\
  (st_tick s <= st_tick s')%nat /\ (IsZero (ev_created_at e) = true -> (st_tick s < st_tick s')%nat) /\
  each_channel e' (EventJobID e) (alert_channels e' d) (paces_in e' (EventJobID e) (streak_after e at_ d) d)
    (on_events (append_rows [e']) (on_jobs (fun _ => jobs_after e at_ d) d)) (st_db s').
Proof.
  intros at_ d. unfold recordEvent.
  assert (Hat : exists s1, (if IsZero (ev_created_at e) then now_ else ret (ev_created_at e)) s = (Ok at_, s1) /\ st_db s1 = d /\
    (st_tick s <= st_tick s1)%nat /\ (IsZero (ev_created_at e) = true -> (st_tick s < st_tick s1)%nat)).
  { unfold at_, record_time. destruct (IsZero (ev_created_at e)); eexists; (split; [done|]); simpl; (split; [done|]); (split; [lia|done || lia]). }
  destruct Hat as (s1 & E1 & D1 & T1 & T1'). unfold bind at 1. rewrite E1.
  destruct (streakOf_after (with_created e at_) at_ s1) as (j & E2 & Hj). unfold bind at 1. rewrite E2, D1.
  change (streak_after (with_created e at_) at_ d) with (streak_after e at_ d).
  change (jobs_after (with_created e at_) at_ d) with (jobs_after e at_ d).
  set (e1 := withStreak (with_created e at_) (streak_after e at_ d)).
  destruct (withStreak_recorded (with_created e at_) (streak_after e at_ d)) as [Hr Hc]. fold e1 in Hr, Hc.
  unfold bind at 1, query at 1. unfold bind at 1, exec at 1. cbn [st_db st_tick].
  set (e' := with_id e1 (next_id (db_events (on_jobs (fun _ => jobs_after e at_ d) d)))). set (s3 := mkSt _ _).
  assert (HJ : EventJobID e' = EventJobID e).
  { destruct Hr as (_ & _ & _ & Hp & _). unfold EventJobID. unfold e'. simpl. rewrite Hp. done. }
  destruct (enqueueDeliveries_each e' j (streak_after e at_ d) s3) as (s4 & E4 & T4 & F4).
  { destruct Hj as [->|Hj]; [by left|right]. rewrite HJ. exact Hj. }
  unfold bind at 1. rewrite E4. exists e', s4. rewrite HJ in F4.
  assert (D3 : st_db s3 = on_events (append_rows [e']) (on_jobs (fun _ => jobs_after e at_ d) d)).
  { unfold s3. simpl. unfold append_rows, insert_row, on_events, on_jobs. simpl. done. }
  split; [done|]. split.
  { destruct Hr as (? & ? & ? & ? & ? & ?). repeat split; try done. simpl. rewrite Hc. simpl. unfold at_, record_time.
    intros E. by rewrite E. }
  split; [done|]. split; [done|]. unfold s3 in T4. simpl in T4. split; [lia|]. split; [intros Hz; specialize (T1' Hz); lia|].
  rewrite D3 in F4. unfold alert_channels in F4 |- *. rewrite HJ in *. exact F4.
Qed.

End Channels.

(** ** One channel and one job *)

Section Story.
Context `{World} `{JSONText}.
Variables (org ch job : Z) (kind : ChannelType) (repeat : Duration).
Hypothesis job_pos : 0 < job.

(** The channel gets the job's failures, with a reminder interval of
    [repeat], and its recoveries. *)
Definition routed (d : DB) : Prop :=
  channel_kind org ch d = Some kind /\ failedRepeat org ch job kind d = (repeat, true) /\
  exists r, r ∈ rows (db_rules d) /\ routes org EventRunRecovered job r = true /\ rw_channel r = ch.

Definition job_row_of (d : DB) : option JobRow := select1 (is_job org job) (db_jobs d).

(** The state of [Pacing]: what the channel was told, and since when the job fails. *)
Definition since_of (r : JobRow) : option Time := if jr_failed_runs r <=? 0 then None else Some (parseTime (jr_failing_since r)).
Definition view (d : DB) : PState :=
  {| ps_alert := told_of <$> db_alerts d !! (ch, job); ps_since := r ← job_row_of d; since_of r |}.

(** A delivery to the channel about a failure ([true]) or a recovery ([false]) of the job. *)
Definition kind_of_event (e : Event) : option bool :=
  if EventJobID e =? job then
    if String.eqb (ev_type e) EventRunFailed then Some true
    else if String.eqb (ev_type e) EventRunRecovered then Some false else None
  else None.
Definition alert_of (d : DB) (a : Z * Z) : option bool :=
  if fst a =? ch then e ← select1 (fun e => ev_id e =? snd a) (db_events d); kind_of_event e else None.

(** The channel and the event of every delivery, in the order they were queued. *)
Definition address (r : DeliveryRow) : Z * Z := (dl_channel r, dl_event r).
Definition addressed (d : DB) : list (Z * Z) := map address (rows (db_deliveries d)).

(** From [d] to [d'] the channel was queued the alerts [told] about the job. *)
Definition tells (d d' : DB) (told : list bool) : Prop := exists news,
  addressed d' = addressed d ++ news /\
  (exists recorded, rows (db_events d') = rows (db_events d) ++ recorded) /\
  (forall a, a ∈ news -> exists e, select1 (fun e => ev_id e =? snd a) (db_events d') = Some e) /\
  omap (alert_of d') news = told.

Lemma matched_routed e d : ev_org e = org -> ev_type e = EventRunFailed \/ ev_type e = EventRunRecovered -> routed d ->
  exists m, m ∈ matchedChannels e job d /\ mc_id m = ch /\ mc_kind m = kind /\
    (ev_type e = EventRunFailed -> mc_repeat m = repeat).
Proof.
  intros Ho Ht (Hk & Hf & r & Hr & Hp & Hc). destruct (matchedChannels_facts e job d) as (_ & Hin & Hspec).
  assert (Hm : ch ∈ map mc_id (matchedChannels e job d)).
  { apply Hin. destruct Ht as [Ht|Ht]; rewrite Ho, Ht.
    - unfold failedRepeat in Hf. destruct (select (fun r => routes org EventRunFailed job r && (rw_channel r =? ch)) (db_rules d)) as [|x l] eqn:E; [done|].
      assert (Hx : x ∈ select (fun r => routes org EventRunFailed job r && (rw_channel r =? ch)) (db_rules d)) by (rewrite E; left).
      apply elem_of_select in Hx as [Hx Hpx]. apply andb_true_iff in Hpx as [Hpx Hcx]. apply Z.eqb_eq in Hcx.
      exists x. rewrite Hk. repeat split; [done|done|done|by eexists].
    - exists r. rewrite Hk. repeat split; [done|done|done|by eexists]. }
  apply elem_of_map in Hm as (m & Hm & ->). exists m. destruct (Hspec m Hm) as (Hkm & _). rewrite Ho in Hkm.
  assert (Hkind : mc_kind m = kind) by congruence. split; [done|]. split; [done|]. split; [done|].
  intros Hfail. pose proof (failedRepeat_matched e job d m Hfail Hm) as E. rewrite Ho, Hkind in E. congruence.
Qed.

Lemma select1_update {R} (p : R -> bool) f (t : Table R) : (forall r, p (f r) = p r) -> select1 p (update_where p f t) = f <$> select1 p t.
Proof.
  intros Hp. unfold select1, update_where. simpl. induction (rows t) as [|r l IH]; simpl; [done|].
  destruct (p r) eqn:E; simpl; [by rewrite Hp, E|by rewrite E].
Qed.

Lemma select1_app {R} (p : R -> bool) (t t' : Table R) l x : rows t' = rows t ++ l -> select1 p t = Some x -> select1 p t' = Some x.
Proof.
  unfold select1. intros ->. induction (rows t) as [|y k IH]; simpl; [done|]. destruct (p y); [done|exact IH].
Qed.

Lemma tells_none d d' : addressed d' = addressed d -> rows (db_events d') = rows (db_events d) -> tells d d' [].
Proof.
  intros E1 E2. exists []. rewrite app_nil_r. split; [done|]. split; [exists []; by rewrite app_nil_r|]. split; [by intros r Hr%elem_of_nil|done].
Qed.

Lemma tells_trans d1 d2 d3 l1 l2 : tells d1 d2 l1 -> tells d2 d3 l2 -> tells d1 d3 (l1 ++ l2).
Proof.
  intros (n1 & D1 & (e1 & V1) & F1 & <-) (n2 & D2 & (e2 & V2) & F2 & <-). exists (n1 ++ n2).
  split; [by rewrite D2, D1, app_assoc|]. split; [exists (e1 ++ e2); by rewrite V2, V1, app_assoc|]. split.
  - intros r [Hr|Hr]%elem_of_app; [|by apply F2]. destruct (F1 r Hr) as [e He]. exists e. by eapply select1_app.
  - rewrite omap_app. f_equal. clear D1 D2. induction n1 as [|r n1 IH]; simpl; [done|].
    assert (E : alert_of d3 r = alert_of d2 r).
    { unfold alert_of. destruct (fst r =? ch); [|done]. destruct (F1 r ltac:(left)) as [e He].
      rewrite He. by rewrite (select1_app _ _ _ _ e V2 He). }
    rewrite E. specialize (IH ltac:(intros x Hx; apply F1; by right)). destruct (alert_of d2 r); [f_equal; exact IH|exact IH].
Qed.

(** Deliveries of one event, just recorded. *)
Lemma tells_new d d' e news : rows (db_deliveries d') = rows (db_deliveries d) ++ news -> rows (db_events d') = rows (db_events d) ++ [e] ->
  (forall r, r ∈ news -> dl_event r = ev_id e) -> select1 (fun x => ev_id x =? ev_id e) (db_events d') = Some e ->
  tells d d' match kind_of_event e with Some k => replicate (List.length (to_channel ch news)) k | None => [] end.
Proof.
  intros Hd Hv Hn He. exists (map address news). split; [unfold addressed; by rewrite Hd, map_app|]. split; [by exists [e]|].
  split; [intros a (r & Hr & ->)%elem_of_map; exists e; simpl; by rewrite (Hn r Hr)|]. unfold to_channel.
  assert (Ha : forall r, r ∈ news -> alert_of d' (address r) = if dl_channel r =? ch then kind_of_event e else None).
  { intros r Hr. unfold alert_of. simpl. rewrite (Hn r Hr), He. done. }
  clear Hn Hd. induction news as [|r news IH]; simpl; [by destruct (kind_of_event e)|].
  rewrite (Ha r) by left. specialize (IH ltac:(intros x Hx; apply Ha; by right)).
  destruct (dl_channel r =? ch); [|exact IH]. destruct (kind_of_event e); simpl; [f_equal; exact IH|exact IH].
Qed.

(** ** Recording a failure and a recovery *)

Definition streak_ok (r : JobRow) : Prop := 0 <= jr_failed_runs r /\ (jr_failed_runs r = 0 <-> jr_failing_since r = None).

Lemma extend_streak_since fresh at_ r : streak_ok r -> (fresh = true -> jr_failed_runs r = 0) ->
  let r' := extend_streak fresh at_ r in
  streak_ok r' /\ 0 < jr_failed_runs r' /\ parseTime (jr_failing_since r') = default at_ (since_of r).
Proof.
  intros [Hn Hs] Hf. unfold extend_streak, since_of, streak_ok. destruct fresh; simpl.
  - specialize (Hf eq_refl). rewrite Hf. simpl. split; [split; [lia|split; [lia|done]]|done].
  - destruct (Z.leb_spec (jr_failed_runs r) 0); simpl.
    + assert (E : jr_failing_since r = None) by (apply Hs; lia). rewrite E. simpl. split; [split; [lia|split; [lia|done]]|]. split; [lia|done].
    + destruct (jr_failing_since r) as [t|]; simpl; [split; [split; [lia|split; [lia|done]]|]; split; [lia|done]|].
      destruct Hs as [_ Hs]. specialize (Hs eq_refl). lia.
Qed.

Lemma is_job_extend fresh at_ r : is_job org job (extend_streak fresh at_ r) = is_job org job r.
Proof. by destruct fresh. Qed.

Lemma told_of_next o next x : told_of {| fa_org := o; fa_last_sent_at := nullTime (LastSentAt next);
  fa_held := if Held next then Some x else None |} = next.
Proof. destruct next as [t h]. unfold told_of. simpl. rewrite parseTime_nullTime. by destruct h. Qed.

Lemma known_told (a : option AlertRow) : bool_decide (is_Some (told_of <$> a)) = bool_decide (is_Some a).
Proof. by destruct a. Qed.

(** The event just appended is found by its id. *)
Lemma select1_event (e : Event) (t : Table Event) : (forall x, x ∈ rows t -> ev_id x < next_id t) -> ev_id e = next_id t ->
  select1 (fun x => ev_id x =? ev_id e) (append_rows [e] t) = Some e.
Proof.
  intros Hlt He. unfold select1, append_rows. simpl. induction (rows t) as [|x l IH]; simpl; [by rewrite Z.eqb_refl|].
  pose proof (Hlt x ltac:(left)). destruct (Z.eqb_spec (ev_id x) (ev_id e)); [lia|]. apply IH. intros y Hy. apply Hlt. by right.
Qed.

Lemma recorded_job e e' : recorded_as e e' -> EventJobID e' = EventJobID e.
Proof. intros (_ & _ & _ & E & _). unfold EventJobID. by rewrite E. Qed.

Lemma kind_of_paced e : EventJobID e = job -> kind_of_event e =
  if String.eqb (ev_type e) EventRunFailed then Some true else if String.eqb (ev_type e) EventRunRecovered then Some false else None.
Proof. intros E. unfold kind_of_event. by rewrite E, Z.eqb_refl. Qed.

(** A run.failed of the job is [PFail], and leaves a failing job. *)
Lemma record_failed e s r : let d := st_db s in
  ev_org e = org -> ev_type e = EventRunFailed -> EventJobID e = job -> IsZero (ev_created_at e) = true ->
  routed d -> (forall x, x ∈ rows (db_events d) -> ev_id x < next_id (db_events d)) ->
  job_row_of d = Some r -> streak_ok r -> (afterSuccess e d = true -> jr_failed_runs r = 0) ->
  exists e' s', let d' := st_db s' in let at_ := clock (st_tick s) in recordEvent e s = (Ok e', s') /\ (st_tick s < st_tick s')%nat /\
    view d' = fst (pstep repeat (view d) (PFail at_)) /\ tells d d' (map is_failure (snd (pstep repeat (view d) (PFail at_)))) /\
    (exists r', job_row_of d' = Some r' /\ streak_ok r' /\ 0 < jr_failed_runs r').
Proof.
  intros d Ho Ht Hj Hz Hroute Hev Hr Hok Hfresh. set (at_ := clock (st_tick s)).
  destruct (recordEvent_all e s) as (e' & s' & E & Hrec & Hid & Hcr & _ & Htick & F). fold d in Hid, F.
  assert (Hat : record_time e s = at_) by (unfold record_time; by rewrite Hz). rewrite Hat in *.
  assert (Ht' : ev_type e' = EventRunFailed) by (destruct Hrec as (_ & -> & _); done).
  assert (Ho' : ev_org e' = org) by (destruct Hrec as (-> & _); done).
  exists e', s'. split; [done|]. split; [by apply Htick|].
  destruct (extend_streak_since (afterSuccess e d) at_ r Hok Hfresh) as (Hok' & Hpos & Hsince).
  set (r' := extend_streak (afterSuccess e d) at_ r) in *.
  assert (Hjobs : select1 (is_job org job) (jobs_after e at_ d) = Some r').
  { unfold jobs_after. rewrite Hj, Ht, Ho, (proj2 (Z.ltb_lt 0 job) job_pos). simpl.
    rewrite select1_update by (intros; apply is_job_extend). unfold job_row_of in Hr. by rewrite Hr. }
  assert (Hstreak : streak_after e at_ d = {| FailedRuns := jr_failed_runs r'; FailingSince := default at_ (since_of r) |}).
  { unfold streak_after. rewrite Hj, Ht, Ho, (proj2 (Z.ltb_lt 0 job) job_pos). simpl. rewrite Hjobs. simpl.
    destruct (Z.leb_spec (jr_failed_runs r') 0); [lia|]. by rewrite Hsince. }
  destruct (matched_routed e' d Ho' (or_introl Ht') Hroute) as (c & Hc & Hcid & Hck & Hcr').
  destruct F as (m & news & Hd & Hnews & _ & _ & Hf). rewrite Hj in Hf.
  destruct (Hf c) as [Hm Hlen]; [unfold alert_channels; rewrite Ht'; simpl; rewrite (recorded_job _ _ Hrec), Hj; done|].
  rewrite Hcid in Hm, Hlen. clear Hf. unfold paces_in, paces in Hm, Hlen. cbn [db_alerts on_events on_jobs] in Hm, Hlen.
  rewrite Ht', Hstreak, (Hcr' Ht'), Hcr in Hm, Hlen. destruct (Z.leb_spec job 0); [lia|]. cbn [FailedRuns FailingSince] in Hm, Hlen.
  destruct (Z.leb_spec (jr_failed_runs r') 0); [lia|].
  assert (Hsv : ps_since (view d) = since_of r) by (unfold view; simpl; rewrite Hr; done).
  assert (Hjr : job_row_of (st_db s') = Some r') by (rewrite Hd; exact Hjobs).
  split; [|split; [|by exists r']].
  - unfold pstep. rewrite Hsv. cbn [ps_alert view]. rewrite known_told.
    change (String.eqb EventRunFailed EventRunFailed) with true in Hm. cbn iota in Hm.
    destruct (PaceFailure _ _ _ _ _) as [send next]. simpl in Hm |- *. unfold view. rewrite Hjr, Hd. simpl. rewrite Hm. simpl.
    rewrite told_of_next. unfold since_of at 1. destruct (Z.leb_spec (jr_failed_runs r') 0); [lia|]. by rewrite Hsince.
  - pose proof (tells_new d (st_db s') e' news ltac:(by rewrite Hd) ltac:(by rewrite Hd) Hnews
      ltac:(rewrite Hd; simpl; by apply select1_event)) as Htell. revert Htell.
    rewrite kind_of_paced by (by rewrite (recorded_job _ _ Hrec)). rewrite Ht'.
    change (String.eqb EventRunFailed EventRunFailed) with true in Hlen |- *. cbn iota in Hlen |- *. rewrite Hlen.
    unfold pstep. rewrite Hsv. cbn [ps_alert view]. rewrite known_told.
    destruct (PaceFailure _ _ _ _ _) as [[|] next]; done.
Qed.

(** A run.recovered of the job changes nothing and goes out as [PaceRecovery] says. *)
Lemma record_recovered e s r : let d := st_db s in
  ev_org e = org -> ev_type e = EventRunRecovered -> EventJobID e = job -> routed d ->
  (forall x, x ∈ rows (db_events d) -> ev_id x < next_id (db_events d)) ->
  job_row_of d = Some r -> 0 < jr_failed_runs r ->
  exists e' s', let d' := st_db s' in recordEvent e s = (Ok e', s') /\
    view d' = view d /\ job_row_of d' = job_row_of d /\
    tells d d' (if PaceRecovery (default no_alert (ps_alert (view d))) (bool_decide (is_Some (ps_alert (view d)))) (parseTime (jr_failing_since r))
                then [false] else []).
Proof.
  intros d Ho Ht Hj Hroute Hev Hr Hpos.
  destruct (recordEvent_all e s) as (e' & s' & E & Hrec & Hid & _ & _ & _ & F). fold d in Hid, F.
  assert (Ht' : ev_type e' = EventRunRecovered) by (destruct Hrec as (_ & -> & _); done).
  assert (Ho' : ev_org e' = org) by (destruct Hrec as (-> & _); done).
  exists e', s'. split; [done|].
  assert (Hjobs : jobs_after e (record_time e s) d = db_jobs d) by (unfold jobs_after; rewrite Ht; by rewrite andb_false_r).
  assert (Hstreak : FailingSince (streak_after e (record_time e s) d) = parseTime (jr_failing_since r)).
  { unfold streak_after. rewrite Hj, Ht, (proj2 (Z.ltb_lt 0 job) job_pos), Hjobs, Ho. simpl. unfold job_row_of in Hr. rewrite Hr. simpl.
    by destruct (Z.leb_spec (jr_failed_runs r) 0); [lia|]. }
  destruct (matched_routed e' d Ho' (or_intror Ht') Hroute) as (c & Hc & Hcid & Hck & _).
  destruct F as (m & news & Hd & Hnews & _ & _ & Hf). rewrite Hj in Hf.
  destruct (Hf c) as [Hm Hlen]; [unfold alert_channels; rewrite Ht'; simpl; rewrite (recorded_job _ _ Hrec), Hj; done|].
  clear Hf. unfold paces_in in Hm, Hlen. rewrite Hcid, Hck, Ho' in Hm, Hlen. cbn [db_alerts on_events on_jobs] in Hm, Hlen.
  destruct Hroute as (_ & Hroute & _). rewrite Hroute in Hm, Hlen. unfold paces in Hm, Hlen. rewrite Ht', Hstreak in Hm, Hlen.
  destruct (Z.leb_spec job 0); [lia|]. simpl in Hm, Hlen.
  assert (Hjr : job_row_of (st_db s') = job_row_of d) by (rewrite Hd; unfold job_row_of; simpl; by rewrite Hjobs).
  split; [|split; [done|]].
  - unfold view. rewrite Hjr, Hd. simpl. by rewrite Hm.
  - pose proof (tells_new d (st_db s') e' news ltac:(by rewrite Hd) ltac:(by rewrite Hd) Hnews
      ltac:(rewrite Hd; simpl; by apply select1_event)) as Htell. revert Htell.
    rewrite kind_of_paced by (by rewrite (recorded_job _ _ Hrec)). rewrite Ht'. simpl. rewrite Hlen, known_told. by destruct (PaceRecovery _ _ _).
Qed.

(** [e] is not a failure or a recovery of the job. *)
Definition beside (e : Event) : Prop :=
  EventJobID e <> job \/ (String.eqb (ev_type e) EventRunFailed = false /\ String.eqb (ev_type e) EventRunRecovered = false).

Lemma select1_update_other {R} (p q : R -> bool) f (t : Table R) :
  (forall r, p (f r) = p r) -> (forall r, p r = true -> q r = false) -> select1 p (update_where q f t) = select1 p t.
Proof.
  intros Hp Hq. unfold select1, update_where. simpl. induction (rows t) as [|r l IH]; simpl; [done|].
  destruct (p r) eqn:E; [rewrite (Hq r E); by rewrite E|]. destruct (q r); [by rewrite Hp, E|by rewrite E].
Qed.

Lemma record_beside e s : let d := st_db s in beside e ->
  (forall x, x ∈ rows (db_events d) -> ev_id x < next_id (db_events d)) ->
  let d' := st_db (snd (recordEvent e s)) in view d' = view d /\ job_row_of d' = job_row_of d /\ tells d d' [].
Proof.
  intros d He Hev. destruct (recordEvent_all e s) as (e' & s' & E & Hrec & Hid & _ & _ & _ & F). fold d in Hid, F. rewrite E. simpl.
  pose proof (recorded_job _ _ Hrec) as HJ. assert (Ht : ev_type e' = ev_type e) by (by destruct Hrec as (_ & -> & _)).
  destruct F as (m & news & Hd & Hnews & Hother & _ & Hf).
  assert (Hm : m !! (ch, job) = db_alerts d !! (ch, job)).
  { destruct He as [He|[H1 H2]]; [apply Hother; intros c _ [= _ ?]; congruence|].
    destruct (decide (ch ∈ map mc_id (alert_channels e' d) /\ EventJobID e = job)) as [[Hin Ej]|Hn].
    - apply elem_of_map in Hin as (c & Hc & ->). destruct (Hf c Hc) as [Hm _]. rewrite Ej in Hm. rewrite Hm. unfold paces_in, paces.
      rewrite Ht, H1, H2. by destruct (job <=? 0).
    - apply Hother. intros c Hc [= -> ->]. apply Hn. split; [apply elem_of_map; by exists c|done]. }
  assert (Hj : select1 (is_job org job) (jobs_after e (record_time e s) d) = select1 (is_job org job) (db_jobs d)).
  { unfold jobs_after. destruct He as [He|[H1 H2]]; [|by rewrite H1, andb_false_r]. destruct (_ && _); [|done].
    apply select1_update_other; [intros; apply is_job_extend|]. intros x Hx. unfold is_job in *. bsimpl. apply andb_false_iff. right. apply Z.eqb_neq. lia. }
  assert (Hjr : job_row_of (st_db s') = job_row_of d) by (rewrite Hd; exact Hj).
  split; [|split; [done|]].
  - unfold view. rewrite Hjr, Hd. simpl. by rewrite Hm.
  - pose proof (tells_new d (st_db s') e' news ltac:(by rewrite Hd) ltac:(by rewrite Hd) Hnews
      ltac:(rewrite Hd; simpl; by apply select1_event)) as Htell. revert Htell.
    unfold kind_of_event. rewrite HJ, Ht. destruct He as [He|[-> ->]]; [|by destruct (_ =? _)]. by destruct (Z.eqb_spec (EventJobID e) job).
Qed.

(** ** What every operation keeps *)

(** A held failure is a run.failed of its job, and is there. *)
Definition held_ok (d : DB) : Prop := forall k a x, db_alerts d !! k = Some a -> fa_held a = Some x ->
  exists e, e ∈ rows (db_events d) /\ ev_id e = x /\ ev_type e = EventRunFailed /\ EventJobID e = snd k.

Definition sound (d : DB) : Prop :=
  table_wf rr_id (db_runs d) /\ table_wf ev_id (db_events d) /\ routed d /\ held_ok d /\
  forall a, db_alerts d !! (ch, job) = Some a -> fa_org a = org.

Lemma sound_events d : sound d -> forall x, x ∈ rows (db_events d) -> ev_id x < next_id (db_events d).
Proof. intros (_ & Hw & _) x Hx. by apply (table_wf_lt ev_id) in Hx as [_ ?]. Qed.

Lemma paces_row e j st rep rt a a' : snd (paces e j st rep rt a) = Some a' ->
  fa_org a' = default (ev_org e) (fa_org <$> a) /\
  forall x, fa_held a' = Some x -> (x = ev_id e /\ ev_type e = EventRunFailed) \/ exists a0, a = Some a0 /\ fa_held a0 = Some x.
Proof.
  assert (Hsame : a = Some a' -> fa_org a' = default (ev_org e) (fa_org <$> a) /\
    forall x, fa_held a' = Some x -> (x = ev_id e /\ ev_type e = EventRunFailed) \/ exists a0, a = Some a0 /\ fa_held a0 = Some x).
  { intros ->. split; [done|]. intros x Hx. right. by exists a'. }
  unfold paces. destruct (j <=? 0); simpl; [exact Hsame|]. destruct (String.eqb (ev_type e) EventRunFailed) eqn:Ef.
  - destruct (FailedRuns st <=? 0); simpl; [exact Hsame|]. destruct (PaceFailure _ _ _ _ _) as [send next]. simpl. intros [= <-]. simpl.
    split; [done|]. intros x. destruct (Held next); [|done]. intros [= <-]. left. split; [done|by apply String.eqb_eq].
  - destruct (String.eqb (ev_type e) EventRunRecovered); simpl; exact Hsame.
Qed.

Lemma record_sound e s : (EventJobID e = job -> ev_org e = org \/ beside e) -> sound (st_db s) ->
  sound (st_db (snd (recordEvent e s))) /\ db_runs (st_db (snd (recordEvent e s))) = db_runs (st_db s).
Proof.
  intros He (Hw & Hwe & Hroute & Hheld & Horg).
  destruct (recordEvent_all e s) as (e' & s' & E & Hrec & Hid & _ & _ & _ & m & news & Hd & _ & Hother & _ & Hf). rewrite E. simpl.
  pose proof (recorded_job _ _ Hrec) as HJ. destruct Hrec as (Ho & Ht & _). rewrite Hd. simpl. split; [|done].
  assert (Hrow : forall k a, m !! k = Some a -> db_alerts (st_db s) !! k = Some a \/
    (snd k = EventJobID e /\ exists st rep rt, snd (paces e' (EventJobID e) st rep rt (db_alerts (st_db s) !! k)) = Some a)).
  { intros k a Ha. destruct (decide (k ∈ map (fun c => (mc_id c, EventJobID e)) (alert_channels e' (st_db s)))) as [Hin|Hn].
    - apply elem_of_map in Hin as (c & Hc & ->). destruct (Hf c Hc) as [Hm _]. rewrite Hm in Ha. right. split; [done|]. eauto.
    - rewrite Hother in Ha; [by left|]. intros c Hc ->. apply Hn. apply elem_of_map. by exists c. }
  split; [done|]. split; [|split; [done|split]].
  - change (table_wf ev_id (append_rows [e'] (db_events (st_db s)))).
    replace (append_rows [e'] (db_events (st_db s))) with (insert_row (with_id e') (db_events (st_db s))); [by apply table_wf_insert|].
    unfold insert_row, append_rows. simpl. rewrite <- Hid. by destruct e'.
  - intros k a x Ha Hx. simpl.
    assert (Hold : forall a0, db_alerts (st_db s) !! k = Some a0 -> fa_held a0 = Some x ->
      exists e0, e0 ∈ rows (db_events (st_db s)) ++ [e'] /\ ev_id e0 = x /\ ev_type e0 = EventRunFailed /\ EventJobID e0 = snd k).
    { intros a0 Ha0 Hx0. destruct (Hheld k a0 x Ha0 Hx0) as (e0 & He0 & ?). exists e0. split; [apply elem_of_app; by left|done]. }
    destruct (Hrow k a Ha) as [Ha'|(Hk & st & rep & rt & Hp)]; [by eapply Hold|].
    destruct (paces_row _ _ _ _ _ _ _ Hp) as [_ Hp']. destruct (Hp' x Hx) as [[-> Hfail]|(a0 & Ha0 & Hx0)]; [|by eapply Hold].
    exists e'. split; [apply elem_of_app; right; by left|]. split; [done|]. split; [done|]. by rewrite HJ, Hk.
  - intros a Ha. destruct (Hrow _ a Ha) as [Ha'|(Hk & st & rep & rt & Hp)]; [by apply Horg|]. simpl in Hk.
    pose proof (paces_row _ _ _ _ _ _ _ Hp) as [-> _]. destruct (db_alerts (st_db s) !! (ch, job)) as [a0|] eqn:E0; simpl; [by apply Horg|].
    destruct (He (eq_sym Hk)) as [Heo|[Hb|[H1 H2]]]; [congruence|congruence|]. unfold paces in Hp. rewrite Ht, H1, H2 in Hp. by destruct (_ <=? 0).
Qed.

(** ** The job's outcomes *)

Definition mine (p : RunRow) : bool := (rr_org p =? org) && (rr_job p =? job).
Definition outcomes (d : DB) : list RunRow := select (fun p => mine p && has_outcome p) (db_runs d).

Lemma last_run_outcomes d : last_run_status org job d = rr_status <$> last_ended (outcomes d).
Proof. done. Qed.

(** The latest of some runs, if it is strictly the latest. *)
Lemma last_ended_max x l : x ∈ l ->
  (forall y, y ∈ l -> y = x \/ parseTime (rr_ended_at y) < parseTime (rr_ended_at x)) -> last_ended l = Some x.
Proof.
  intros Hx Hl. unfold last_ended.
  assert (G : forall b, (x ∈ l \/ b = Some x) -> (forall y, b = Some y -> y = x \/ parseTime (rr_ended_at y) < parseTime (rr_ended_at x)) ->
    fold_left (fun best p => match best with None => Some p | Some b => if ended_after p b then Some p else best end) l b = Some x).
  2: { apply G; [by left|done]. }
  clear Hx. induction l as [|p l IH]; intros b Hb Hbl; simpl.
  { destruct Hb as [Hb|Hb]; [by apply elem_of_nil in Hb|done]. }
  pose proof (Hl p ltac:(left)) as Hp. apply IH.
  - intros y Hy. apply Hl. by right.
  - destruct Hb as [[<-|Hb]%elem_of_cons| ->]; [right|by left|right].
    + destruct b as [y|]; [|done]. destruct (Hbl y eq_refl) as [->|Hlt]; [by destruct (ended_after x x)|].
      unfold ended_after. destruct (Z.ltb_spec (parseTime (rr_ended_at y)) (parseTime (rr_ended_at x))); [done|lia].
    + unfold ended_after. destruct Hp as [->|Hlt]; [by destruct (_ || _)|].
      destruct (Z.ltb_spec (parseTime (rr_ended_at x)) (parseTime (rr_ended_at p))); [lia|].
      by destruct (Z.eqb_spec (parseTime (rr_ended_at p)) (parseTime (rr_ended_at x))); [lia|].
  - intros y. destruct b as [z|]; [|intros [= <-]; exact Hp]. destruct (ended_after p z); intros [= <-]; [exact Hp|by apply Hbl].
Qed.

(** [d'] is [d] but for run [run] of the job, running in [d], which has ended
    with [st] at [now] in [d']. *)
Definition finishes (run : Z) (st : RunStatus) (now : Time) (d d' : DB) : Prop := exists f r0,
  d' = on_runs (update_where (is_run run) f) d /\
  r0 ∈ rows (db_runs d) /\ rr_id r0 = run /\ rr_status r0 = StatusRunning /\ rr_org r0 = org /\ rr_job r0 = job /\
  (forall r, same_run r (f r)) /\ rr_status (f r0) = st /\ rr_ended_at (f r0) = Some now.

Lemma finishes_frame run st now d d' : finishes run st now d d' ->
  db_jobs d' = db_jobs d /\ db_events d' = db_events d /\ db_deliveries d' = db_deliveries d /\ db_alerts d' = db_alerts d /\
  db_rules d' = db_rules d /\ db_channels d' = db_channels d.
Proof. intros (f & r0 & -> & _). done. Qed.

Lemma finishes_sound run st now d d' : finishes run st now d d' -> sound d -> sound d'.
Proof.
  intros (f & r0 & -> & _ & _ & _ & _ & _ & Hs & _) (Hw & Hrest). split; [|exact Hrest].
  simpl. apply table_wf_update; [|done]. intros r. by destruct (Hs r).
Qed.

Lemma finishes_row run st now d d' : table_wf rr_id (db_runs d) -> finishes run st now d d' ->
  exists r1, select1 (fun r => rr_id r =? run) (db_runs d') = Some r1 /\ rr_org r1 = org /\ rr_job r1 = job /\ rr_status r1 = st /\
    rr_ended_at r1 = Some now /\ rr_id r1 = run.
Proof.
  intros Hw (f & r0 & -> & Hr & Hid & Hrun & Ho & Hj & Hs & Hst & Hend). exists (f r0). simpl.
  rewrite select1_update by (intros r; destruct (Hs r) as (-> & _); done). rewrite <- Hid, (select1_key rr_id) by done. simpl.
  destruct (Hs r0) as (E1 & E2 & E3 & _). repeat split; congruence.
Qed.

Section Finished.
Variables (run : Z) (st : RunStatus) (now : Time) (d d' : DB).
Hypothesis Hw : table_wf rr_id (db_runs d).
Hypothesis Hf : finishes run st now d d'.
Hypothesis Hst : terminal st = true.

(** The other outcomes of the job are what they were. *)
Lemma finishes_others : select (fun p => mine p && negb (rr_id p =? run) && has_outcome p) (db_runs d') = outcomes d.
Proof.
  destruct Hf as (f & r0 & -> & Hr & Hid & Hrun & Ho & Hj & Hs & _).
  assert (Hrow : forall r, r ∈ rows (db_runs d) -> rr_id r = run -> has_outcome r = false).
  { intros r Hin E. assert (r = r0) as -> by (by eapply (table_key_inj rr_id); [exact Hw|..]; try done; congruence).
    unfold has_outcome. by rewrite Hrun. }
  unfold outcomes, select. simpl. clear Hr. induction (rows (db_runs d)) as [|r l IH]; simpl; [done|].
  specialize (IH ltac:(intros x Hx; apply Hrow; by right)). pose proof (Hrow r ltac:(left)) as Hr.
  destruct (is_run run r) eqn:E; unfold is_run in E; [apply Z.eqb_eq in E|].
  - destruct (Hs r) as (E1 & _). rewrite E1, E, Z.eqb_refl, (Hr E), andb_false_r. simpl. rewrite andb_false_r. exact IH.
  - rewrite E. simpl. rewrite andb_true_r. destruct (mine r && has_outcome r); [f_equal|]; exact IH.
Qed.

Lemma finishes_previous : previousRunStatus run d' = last_run_status org job d.
Proof.
  destruct (finishes_row run st now d d' Hw Hf) as (r1 & E & Ho & Hj & _ & _ & Hid). unfold previousRunStatus. rewrite E, last_run_outcomes, <- finishes_others.
  rewrite Ho, Hj, Hid. done.
Qed.

Lemma finishes_outcomes p : p ∈ outcomes d' -> (p ∈ outcomes d /\ rr_id p <> run) \/ (rr_ended_at p = Some now /\ rr_id p = run).
Proof.
  intros Hp. destruct (Z.eqb_spec (rr_id p) run) as [E|E].
  - right. destruct (finishes_row run st now d d' Hw Hf) as (r1 & E1 & _ & _ & _ & Hend & Hid). split; [|done].
    apply select1_Some in E1 as [Hr1 _]. unfold outcomes in Hp. rewrite elem_of_select in Hp. destruct Hp as [Hp _].
    assert (Hw' : table_wf rr_id (db_runs d')).
    { destruct Hf as (f & r0 & -> & _ & _ & _ & _ & _ & Hs & _). apply table_wf_update; [|done]. intros r. by destruct (Hs r). }
    assert (p = r1) as -> by (eapply (table_key_inj rr_id); [exact Hw'|done|done|congruence]). done.
  - left. split; [|done]. rewrite <- finishes_others. unfold outcomes in Hp. rewrite elem_of_select in *. destruct Hp as [Hp Hb].
    split; [done|]. rewrite (proj2 (Z.eqb_neq _ _) E). simpl. by rewrite andb_true_r.
Qed.

Lemma finishes_last : (forall p, p ∈ outcomes d -> parseTime (rr_ended_at p) < now) -> last_run_status org job d' = Some st.
Proof.
  intros Hlt. destruct (finishes_row run st now d d' Hw Hf) as (r1 & E1 & Ho & Hj & Hs1 & Hend & Hid).
  apply select1_Some in E1 as [Hr1 _]. rewrite last_run_outcomes, (last_ended_max r1); [simpl; by rewrite Hs1| |].
  - unfold outcomes. rewrite elem_of_select. split; [done|]. unfold mine, has_outcome. rewrite Ho, Hj, Hs1, Hst, Hend, !Z.eqb_refl. done.
  - intros y Hy. destruct (finishes_outcomes y Hy) as [[Hy' _]|[He Hyid]]; [right; rewrite Hend; simpl; by apply Hlt|]. left.
    assert (Hw' : table_wf rr_id (db_runs d')).
    { destruct Hf as (f & r0 & -> & _ & _ & _ & _ & _ & Hs & _). apply table_wf_update; [|done]. intros r. by destruct (Hs r). }
    unfold outcomes in Hy. rewrite elem_of_select in Hy. eapply (table_key_inj rr_id); [exact Hw'|by destruct Hy|done|congruence].
Qed.

End Finished.

(** ** The streak and the outcomes agree *)

(** At time [now], the job's row says that it fails exactly when its last
    outcome was not a success, and nothing is held of a job that does not. *)
Definition truthful (d : DB) (now : Time) : Prop := exists r,
  job_row_of d = Some r /\ streak_ok r /\
  (forall p, p ∈ outcomes d -> parseTime (rr_ended_at p) < now) /\
  (jr_failed_runs r = 0 -> (last_run_status org job d = None \/ last_run_status org job d = Some StatusSucceeded) /\
     forall a, db_alerts d !! (ch, job) = Some a -> fa_held a = None) /\
  (0 < jr_failed_runs r -> exists st, last_run_status org job d = Some st /\ st <> StatusSucceeded).

Lemma truthful_later d now now' : now <= now' -> truthful d now -> truthful d now'.
Proof.
  intros Hle (r & H1 & H2 & H3 & H4). exists r. split; [done|]. split; [done|]. split; [|done]. intros p Hp. specialize (H3 p Hp). lia.
Qed.

Hypothesis clock_runs : forall n, clock n < clock (S n).

Lemma clock_lt n m : (n < m)%nat -> clock n < clock m.
Proof. induction 1 as [|m Hm IH]; [apply clock_runs|]. pose proof (clock_runs m). lia. Qed.

Lemma clock_le n m : (n <= m)%nat -> clock n <= clock m.
Proof. intros Hle. destruct (decide (n = m)) as [->|]; [lia|]. pose proof (clock_lt n m). lia. Qed.

Lemma finishes_view run st now d d' : finishes run st now d d' -> view d' = view d /\ job_row_of d' = job_row_of d /\ tells d d' [].
Proof.
  intros Hf. destruct (finishes_frame _ _ _ _ _ Hf) as (E1 & E2 & E3 & E4 & _). unfold view, job_row_of. rewrite E1, E4.
  split; [done|]. split; [done|]. apply tells_none; [unfold addressed|]; congruence.
Qed.

(** What a step of the job's story leaves behind: a sound and truthful
    database, what the channel was told as [Pacing] says, and the same alerts
    queued. *)
Definition told_by (s s' : St DB) (e : option PStep) (d : DB) : Prop :=
  sound (st_db s') /\ truthful (st_db s') (clock (st_tick s')) /\
  match e with
  | Some e => view (st_db s') = fst (pstep repeat (view d) e) /\ tells d (st_db s') (map is_failure (snd (pstep repeat (view d) e))) /\
      clock (st_tick s) <= step_time e < clock (st_tick s')
  | None => view (st_db s') = view d /\ tells d (st_db s') []
  end.

Lemma record_outcome_failed run st now d e s :
  sound d -> truthful d now -> finishes run st now d (st_db s) -> now < clock (st_tick s) ->
  terminal st = true -> st <> StatusSucceeded ->
  ev_org e = org -> ev_type e = EventRunFailed -> EventJobID e = job -> EventRunID e = run -> IsZero (ev_created_at e) = true ->
  exists e' s', recordEvent e s = (Ok e', s') /\ told_by s s' (Some (PFail (clock (st_tick s)))) d.
Proof.
  intros Hs (r & Hr & Hok & Hend & Hzero & Hpos) Hf Hnow Hterm Hst Ho Ht Hj Hrun Hz.
  pose proof (proj1 Hs) as Hw. pose proof (finishes_sound _ _ _ _ _ Hf Hs) as Hs1.
  destruct (finishes_view _ _ _ _ _ Hf) as (Hv & Hjr & Htell).
  destruct (record_failed e s r) as (e' & s' & E & Htick & Hview & Htell' & r' & Hr' & Hok' & Hpos'); try done.
  { by destruct Hs1 as (_ & _ & ? & _). }
  { by apply sound_events. }
  { by rewrite Hjr. }
  { intros Ha. unfold afterSuccess in Ha. destruct (_ <=? 0); [done|]. rewrite Hrun in Ha. bsimpl.
    rewrite (finishes_previous run st now d _ Hw Hf) in Ha. destruct (decide (jr_failed_runs r = 0)) as [|Hne]; [done|].
    destruct Hpos as (st' & E1 & E2); [destruct Hok; lia|]. congruence. }
  exists e', s'. split; [done|].
  destruct (record_sound e s (fun _ => or_introl Ho) Hs1) as [Hs2 Hruns]. rewrite E in Hs2, Hruns. simpl in Hs2, Hruns.
  assert (Hlast : last_run_status org job (st_db s') = Some st).
  { transitivity (last_run_status org job (st_db s)); [unfold last_run_status; by rewrite Hruns|]. by eapply finishes_last. }
  split; [done|]. split; [|split; [by rewrite Hview, Hv|split]].
  - exists r'. split; [done|]. split; [done|]. split; [|split; [lia|intros _; by exists st]].
    intros p Hp. assert (Hp' : p ∈ outcomes (st_db s)) by (unfold outcomes in *; by rewrite Hruns in Hp).
    pose proof (clock_lt _ _ Htick). destruct (finishes_outcomes run st now d _ Hw Hf p Hp') as [[Hpd _]|[He _]].
    + specialize (Hend p Hpd).
      destruct Hf as (f & r0 & Hd & Hr0 & Hid & Hrun0 & _). lia.
    + rewrite He. simpl. lia.
  - rewrite Hv in Htell'. change (map is_failure _) with ([] ++ map is_failure (snd (pstep repeat (view d) (PFail (clock (st_tick s)))))).
    eapply tells_trans; [exact Htell|exact Htell'].
  - simpl. split; [lia|]. by apply clock_lt.
Qed.

Lemma select1_update_any {R} (p q : R -> bool) f (t : Table R) : (forall r, p (f r) = p r) ->
  select1 p (update_where q f t) = (fun r => if q r then f r else r) <$> select1 p t.
Proof.
  intros Hp. unfold select1, update_where. simpl. induction (rows t) as [|r l IH]; simpl; [done|].
  destruct (p r) eqn:E; destruct (q r) eqn:Eq; simpl; rewrite ?Hp, E; simpl; rewrite ?Eq; done.
Qed.

(** A channel's state once nothing is held for it. *)
Definition let_go (a : AlertState) : AlertState := {| LastSentAt := LastSentAt a; Held := false |}.

Lemma endStreak_ends run s r : let d := st_db s in
  job_of_run run d = Some job -> sound d -> job_row_of d = Some r -> streak_ok r ->
  exists s', let d' := st_db s' in endStreak run s = (Ok tt, s') /\ st_tick s' = st_tick s /\ sound d' /\ db_runs d' = db_runs d /\
    view d' = {| ps_alert := let_go <$> ps_alert (view d); ps_since := None |} /\ tells d d' [] /\
    (exists r', job_row_of d' = Some r' /\ streak_ok r' /\ jr_failed_runs r' = 0) /\
    forall a, db_alerts d' !! (ch, job) = Some a -> fa_held a = None.
Proof.
  intros d Hrun Hs Hr Hok.
  set (q := fun j => bool_decide (job_of_run run d = Some (jr_id j)) && negb (jr_failed_runs j =? 0)).
  set (g := fun key : Z * Z => bool_decide (job_of_run run d = Some (snd key))).
  exists (mkSt (on_alerts (drop_held g) (on_jobs (update_where q (fun j => jr_with_streak j 0 None)) d)) (st_tick s)).
  cbn [st_db st_tick]. split; [done|]. split; [done|].
  assert (Hlook : forall k, drop_held g (db_alerts d) !! k =
    (fun r => if g k then {| fa_org := fa_org r; fa_last_sent_at := fa_last_sent_at r; fa_held := None |} else r) <$> db_alerts d !! k).
  { intros k. unfold drop_held. rewrite map_lookup_imap. destruct (db_alerts d !! k); simpl; [|done]. by destruct (g k). }
  assert (Hg : g (ch, job) = true) by (unfold g; simpl; by rewrite bool_decide_eq_true).
  assert (Hjr : select1 (is_job org job) (update_where q (fun j => jr_with_streak j 0 None) (db_jobs d)) =
    Some (if q r then jr_with_streak r 0 None else r)).
  { rewrite select1_update_any by done. unfold job_row_of in Hr. by rewrite Hr. }
  assert (Hjid : jr_id r = job).
  { unfold job_row_of in Hr. apply select1_Some in Hr as [_ Hb]. unfold is_job in Hb. by bsimpl. }
  assert (Hrow : let r' := if q r then jr_with_streak r 0 None else r in streak_ok r' /\ jr_failed_runs r' = 0).
  { unfold q. rewrite Hjid, Hrun, bool_decide_eq_true_2 by done. simpl. destruct (Z.eqb_spec (jr_failed_runs r) 0); simpl; [done|].
    split; [split; [done|done]|done]. }
  split; [|split; [done|split; [|split; [|split]]]].
  - destruct Hs as (Hw & Hwe & Hroute & Hheld & Horg). split; [done|]. split; [done|]. split; [done|]. split.
    + intros k a x Ha Hx. simpl in Ha. rewrite Hlook in Ha. destruct (db_alerts d !! k) as [a0|] eqn:E; [|done]. simpl in Ha.
      destruct (g k); injection Ha as <-; [done|]. by eapply Hheld.
    + intros a Ha. simpl in Ha. rewrite Hlook in Ha. destruct (db_alerts d !! (ch, job)) as [a0|] eqn:E; [|done]. simpl in Ha.
      rewrite Hg in Ha. injection Ha as <-. simpl. by apply Horg.
  - unfold view, job_row_of. simpl. rewrite Hjr, Hlook, Hg. simpl. f_equal.
    + by destruct (db_alerts d !! (ch, job)).
    + unfold since_of. by rewrite (proj2 Hrow).
  - by apply tells_none.
  - eexists. split; [exact Hjr|exact Hrow].
  - intros a. simpl. rewrite Hlook, Hg. destruct (db_alerts d !! (ch, job)); simpl; [by intros [= <-]|done].
Qed.

(** What follows the outcome of a success: a recovery if the job was failing,
    and the end of the streak. *)
Lemma after_success run now d s r ev :
  sound (st_db s) -> job_row_of (st_db s) = Some r -> streak_ok r -> table_wf rr_id (db_runs d) ->
  job_of_run run (st_db s) = Some job -> previousRunStatus run (st_db s) = last_run_status org job d ->
  (jr_failed_runs r = 0 -> (last_run_status org job d = None \/ last_run_status org job d = Some StatusSucceeded) /\
     forall a, db_alerts (st_db s) !! (ch, job) = Some a -> fa_held a = None) ->
  (0 < jr_failed_runs r -> exists st, last_run_status org job d = Some st /\ st <> StatusSucceeded) ->
  ev_org ev = org -> EventJobID ev = job ->
  exists s', let d' := st_db s' in (emit_recovery run ev ;;; endStreak run) s = (Ok tt, s') /\ (st_tick s <= st_tick s')%nat /\
    sound d' /\ db_runs d' = db_runs (st_db s) /\
    view d' = fst (pstep repeat (view (st_db s)) (PSuccess now)) /\
    tells (st_db s) d' (map is_failure (snd (pstep repeat (view (st_db s)) (PSuccess now)))) /\
    (exists r', job_row_of d' = Some r' /\ streak_ok r' /\ jr_failed_runs r' = 0) /\
    forall a, db_alerts d' !! (ch, job) = Some a -> fa_held a = None.
Proof.
  intros Hs Hr Hok Hw Hjob Hprev Hzero Hpos Ho Hj. unfold bind at 1. unfold emit_recovery, bind at 1, query at 1. rewrite Hprev.
  assert (Hsince : ps_since (view (st_db s)) = since_of r) by (unfold view; simpl; by rewrite Hr).
  unfold pstep. rewrite Hsince. unfold since_of. destruct (Z.leb_spec (jr_failed_runs r) 0) as [Hle|Hgt].
  - destruct Hzero as [Hlast Hheld]; [destruct Hok; lia|].
    assert (Hskip : forall k : St DB -> res unit * St DB, match last_run_status org job d with
      | Some p => if bool_decide (p = StatusSucceeded) then ret tt else emitEvent (RunRecoveredEvent ev run) ;;; ret tt
      | None => ret tt end s = (Ok tt, s)) by (intros _; by destruct Hlast as [-> | ->]).
    rewrite (Hskip (fun s => (Ok tt, s))). destruct (endStreak_ends run s r Hjob Hs Hr Hok) as (s' & E & T & H1 & H2 & H3 & H4 & H5 & H6).
    rewrite E. exists s'. split; [done|]. split; [lia|]. split; [done|]. split; [done|]. split; [|by split].
    rewrite H3. simpl. unfold view. rewrite Hr. simpl. unfold since_of. destruct (Z.leb_spec (jr_failed_runs r) 0); [|lia]. f_equal.
    destruct (db_alerts (st_db s) !! (ch, job)) as [a|] eqn:Ea; [|done]. simpl. f_equal. unfold let_go, told_of. simpl. by rewrite (Hheld a eq_refl).
  - destruct Hpos as (st & Hlast & Hne); [lia|]. rewrite Hlast, bool_decide_eq_false_2 by done.
    destruct (record_recovered (RunRecoveredEvent ev run) s r) as (e' & s1 & E1 & V1 & J1 & T1); try done;
      [by destruct Hs as (_ & _ & ? & _)|by apply sound_events|].
    destruct (record_sound (RunRecoveredEvent ev run) s (fun _ => or_introl Ho) Hs) as [Hs1 Hruns]. rewrite E1 in Hs1, Hruns. simpl in Hs1, Hruns.
    unfold emitEvent, bind. rewrite E1. unfold ret at 1 2.
    destruct (endStreak_ends run s1 r) as (s' & E & T & G1 & G2 & G3 & G4 & G5 & G6); try done.
    { unfold job_of_run in *. by rewrite Hruns. }
    { by rewrite J1. }
    rewrite E. exists s'. split; [done|].
    pose proof (advances_recordEvent (RunRecoveredEvent ev run) s) as Hadv. rewrite E1 in Hadv. simpl in Hadv.
    split; [lia|]. split; [done|]. split; [congruence|]. split; [by rewrite G3, V1|]. split; [|by split].
    replace (map is_failure _) with (map is_failure (snd (pstep repeat (view (st_db s)) (PSuccess now))) ++ []) by (rewrite app_nil_r; unfold pstep; rewrite Hsince; unfold since_of; destruct (Z.leb_spec (jr_failed_runs r) 0); [lia|done]).
    eapply tells_trans; [|exact G4]. unfold pstep. rewrite Hsince. unfold since_of. destruct (Z.leb_spec (jr_failed_runs r) 0); [lia|].
    simpl. by destruct (PaceRecovery _ _ _).
Qed.

(** ** The operations of the story *)

Lemma told_by_weaken s s0 s1 s' e d : told_by s0 s1 e d -> (st_tick s <= st_tick s0)%nat -> st_db s' = st_db s1 ->
  (st_tick s1 <= st_tick s')%nat -> told_by s s' e d.
Proof.
  intros (Hs & Ht & He) T0 Hd T1. pose proof (clock_le _ _ T0). pose proof (clock_le _ _ T1). unfold told_by. rewrite Hd.
  split; [done|]. split; [by eapply truthful_later|]. destruct e as [e|]; [|done]. destruct He as (Hv & Htell & Htime).
  split; [done|]. split; [done|lia].
Qed.

Lemma told_by_same s s' : sound (st_db s) -> truthful (st_db s) (clock (st_tick s)) -> st_db s' = st_db s ->
  (st_tick s <= st_tick s')%nat -> told_by s s' None (st_db s).
Proof.
  intros Hs Ht Hd T. pose proof (clock_le _ _ T). unfold told_by. rewrite Hd. split; [done|].
  split; [by eapply truthful_later|]. split; [done|by apply tells_none].
Qed.

(** Every run with the id is the job's. *)
Definition ours (run : Z) (d : DB) : Prop := forall r, r ∈ rows (db_runs d) -> rr_id r = run -> rr_org r = org /\ rr_job r = job.

Lemma running_row run d : ours run d -> count_where (running run) (db_runs d) <> 0 -> exists r0,
  r0 ∈ rows (db_runs d) /\ rr_id r0 = run /\ rr_status r0 = StatusRunning /\ rr_org r0 = org /\ rr_job r0 = job.
Proof.
  intros Ho Hn. destruct (exists_row (running run) (db_runs d)) eqn:E.
  - apply exists_row_true in E as (r0 & Hr & Hp). unfold running, is_run, has_status in Hp. bsimpl. exists r0.
    destruct (Ho r0 Hr) as [? ?]; [done|]. done.
  - exfalso. apply Hn. apply count_where_0. by apply exists_row_false.
Qed.

Lemma finishes_reap run st ec out now d : table_wf rr_id (db_runs d) -> ours run d -> count_where (running run) (db_runs d) <> 0 ->
  finishes run st now d (on_runs (update_where (running run) (fun r => rr_finish r st ec out now)) d).
Proof.
  intros Hw Ho Hn. destruct (running_row run d Ho Hn) as (r0 & Hr & Hid & Hrun & H1 & H2).
  exists (fun r => rr_finish r st ec out now), r0. split; [|by repeat split]. destruct d. unfold on_runs. simpl in *. f_equal.
  unfold update_where. f_equal. apply map_ext_in. intros r Hin%list_elem_of_In. unfold running.
  destruct (is_run run r) eqn:E; [|done]. unfold is_run in E. apply Z.eqb_eq in E.
  assert (r = r0) as -> by (eapply (table_key_inj rr_id); [exact Hw|done|done|congruence]). unfold has_status. by rewrite Hrun.
Qed.

Lemma finishes_finish run st ec out att now d : table_wf rr_id (db_runs d) -> ours run d -> count_where (running run) (db_runs d) <> 0 ->
  finishes run st now d (on_runs (update_where (is_run run) (fun r => rr_with_attempt r att))
    (on_runs (update_where (running run) (fun r => rr_finish r st ec out now)) d)).
Proof.
  intros Hw Ho Hn. destruct (finishes_reap run st ec out now d Hw Ho Hn) as (f & r0 & Hd & Hr & Hid & Hrun & H1 & H2 & Hs & Hst & He).
  exists (fun r => rr_with_attempt (f r) att), r0. split; [|split; [done|]].
  - rewrite Hd. destruct d. unfold on_runs. simpl. f_equal. unfold update_where. simpl. f_equal. rewrite map_map. apply map_ext.
    intros r. unfold is_run. destruct (Z.eqb_spec (rr_id r) run) as [E|E].
    + destruct (Hs r) as (-> & _). by rewrite E, Z.eqb_refl.
    + by rewrite (proj2 (Z.eqb_neq _ _) E).
  - split; [done|]. split; [done|]. split; [done|]. split; [done|]. split; [|done]. intros r. destruct (Hs r) as (? & ? & ? & ?). done.
Qed.

Lemma finishRunTx_runs run st ec out s : count_where (running run) (db_runs (st_db s)) <> 0 ->
  finishRunTx run st ec out s = (Ok tt, mkSt (on_runs (update_where (running run) (fun r => rr_finish r st ec out (clock (st_tick s)))) (st_db s)) (S (st_tick s))).
Proof.
  intros Hn. unfold finishRunTx, bind, now_, query, exec. simpl. by destruct (Z.eqb_spec (count_where (running run) (db_runs (st_db s))) 0).
Qed.

Lemma finishRunTx_gone run st ec out s : count_where (running run) (db_runs (st_db s)) = 0 ->
  exists e s', finishRunTx run st ec out s = (Error e, s').
Proof.
  intros Hn. unfold finishRunTx, bind, now_, query, exec. simpl. rewrite Hn. simpl.
  match goal with |- context [exists_row ?p ?t] => destruct (exists_row p t) end; by eexists _, _.
Qed.

(** The terminal event of a run, as the runner and the reaper build it. *)
Definition outcome_event (run : Run) (name : string) (st : RunStatus) (exitCode : Z) (det : Detail) : Event :=
  with_detail (RunEvent run name (if bool_decide (st = StatusSucceeded) then EventRunSucceeded else EventRunFailed) st exitCode) det.

Section Outcome.
Variables (run : Run) (name : string) (det : Detail).
Hypothesis run_org : r_org run = org.
Hypothesis run_job : r_job run = job.

(** A success recorded and its recovery, after the run has ended. *)
Lemma record_outcome_succeeded now d ec s :
  sound d -> truthful d now -> finishes (r_id run) StatusSucceeded now d (st_db s) -> now < clock (st_tick s) ->
  let ev := outcome_event run name StatusSucceeded ec det in
  exists id s', (let* id := emitEvent ev in (emit_recovery (r_id run) ev ;;; endStreak (r_id run)) ;;; ret (Commit id)) s = (Ok (Commit id), s') /\
    told_by s s' (Some (PSuccess (clock (st_tick s)))) d.
Proof.
  intros Hs (r & Hr & Hok & Hend & Hzero & Hpos) Hf Hnow ev.
  pose proof (proj1 Hs) as Hw. pose proof (finishes_sound _ _ _ _ _ Hf Hs) as Hs1.
  destruct (finishes_view _ _ _ _ _ Hf) as (Hv & Hjr & Htell). destruct (finishes_frame _ _ _ _ _ Hf) as (_ & _ & _ & Hal & _).
  assert (Hb : beside ev) by (right; split; reflexivity).
  destruct (record_beside ev s Hb (sound_events _ Hs1)) as (V1 & J1 & T1).
  destruct (record_sound ev s (fun _ => or_introl run_org) Hs1) as [Hs2 Hruns].
  destruct (recordEvent_all ev s) as (e' & s1 & E1 & _ & _ & _ & _ & Htick & m & news & Hd1 & _ & _ & _). rewrite E1 in V1, J1, T1, Hs2, Hruns. simpl in V1, J1, T1, Hs2, Hruns.
  specialize (Htick eq_refl).
  destruct (finishes_row (r_id run) StatusSucceeded now d (st_db s) Hw Hf) as (r1 & Er1 & Ho1 & Hj1 & _).
  destruct (after_success (r_id run) (clock (st_tick s)) d s1 r ev) as (s2 & E2 & T2 & Hs3 & Hruns3 & Hview & Htell3 & Hrow & Hheld); try done.
  { by rewrite J1, Hjr. }
  { unfold job_of_run. rewrite Hruns, Er1. simpl. by rewrite Hj1. }
  { transitivity (previousRunStatus (r_id run) (st_db s)); [unfold previousRunStatus; by rewrite Hruns|].
    by eapply finishes_previous. }
  { intros Hz. destruct (Hzero Hz) as [Hl Hh]. split; [done|]. intros a Ha.
    assert (Hpa : ps_alert (view (st_db s1)) = ps_alert (view d)) by (by rewrite V1, Hv). simpl in Hpa. rewrite Ha in Hpa. simpl in Hpa.
    destruct (db_alerts d !! (ch, job)) as [a0|] eqn:E0; [|done]. simpl in Hpa. injection Hpa as _ Hheld'. rewrite (Hh a0 eq_refl) in Hheld'.
    destruct (fa_held a); [done|done]. }
  all: try exact run_job.
  exists (ev_id e'), s2. split.
  { unfold emitEvent, bind in *. rewrite E1. unfold ret at 1. rewrite E2. done. }
  split; [done|]. split; [|split; [by rewrite Hview, V1, Hv|split]].
  - destruct Hrow as (r' & Hr' & Hok' & Hz'). exists r'. split; [done|]. split; [done|]. split; [|split; [intros _|lia]].
    + intros p Hp. assert (Hp' : p ∈ outcomes (st_db s)) by (unfold outcomes in *; rewrite Hruns3, Hruns in Hp; exact Hp).
      assert (clock (st_tick s) <= clock (st_tick s2)) by (apply clock_le; lia).
      destruct (finishes_outcomes _ _ now d _ Hw Hf p Hp') as [[Hpd _]|[He _]]; [specialize (Hend p Hpd)|rewrite He; simpl; lia].
      assert (parseTime (rr_ended_at p) < clock (st_tick s2)); lia.
    + split; [right|exact Hheld]. transitivity (last_run_status org job (st_db s)); [unfold last_run_status; by rewrite Hruns3, Hruns|].
      by eapply finishes_last.
  - rewrite V1, Hv in Htell3. change (map is_failure _) with ([] ++ map is_failure (snd (pstep repeat (view d) (PSuccess (clock (st_tick s)))))).
    eapply tells_trans; [|exact Htell3]. change [] with ([] ++ [] : list bool). by eapply tells_trans.
  - simpl. split; [lia|]. apply clock_lt. lia.
Qed.

(** An operation of the story: it is told by a step of [Pacing], always by
    [sure] if it reports success, or it has done nothing. *)
Definition told_step {A} (m : Store A) (done_ : A -> Prop) (sure : PStep -> Prop) (s : St DB) : Prop :=
  let '(r, s') := m s in
  (told_by s s' None (st_db s) /\ forall a, r = Ok a -> ~ done_ a) \/ exists e, sure e /\ told_by s s' (Some e) (st_db s).

Lemma told_tx {A} (body : Store (Outcome A)) done_ sure s :
  sound (st_db s) -> truthful (st_db s) (clock (st_tick s)) -> advances body ->
  (forall a s1, body (mkSt (st_db s) (S (st_tick s))) = (Ok (Rollback a), s1) -> ~ done_ a) ->
  (forall a s1, body (mkSt (st_db s) (S (st_tick s))) = (Ok (Commit a), s1) ->
     exists e, sure e /\ told_by (mkSt (st_db s) (S (st_tick s))) s1 (Some e) (st_db s)) ->
  told_step (tx body) done_ sure s.
Proof.
  intros Hs Ht Hadv Hroll Hcommit. unfold told_step. pose proof (tx_commits body s) as Hc. pose proof (advances_tx body Hadv s) as T.
  destruct (tx body s) as [r s']. simpl in T. destruct Hc as [[Hd Hr]|(a & s1 & E & Hd & T1)].
  - left. split; [by apply told_by_same|]. intros a Ha. destruct (Hr a Ha) as (s1 & E). by eapply Hroll.
  - right. destruct (Hcommit a s1 E) as (e & He & Htold). exists e. split; [done|]. eapply told_by_weaken; [exact Htold|simpl; lia|done|done].
Qed.

Lemma advances_outcome {A} (m : Store A) st rid ev : advances m ->
  advances (m ;;; (let* id := emitEvent ev in (if bool_decide (st = StatusSucceeded) then emit_recovery rid ev ;;; endStreak rid else ret tt) ;;; ret (Commit id))).
Proof. intros Hm. unfold emit_recovery, endStreak, dropHeld, emitEvent. pose proof advances_recordEvent. advance; auto. Qed.

Lemma step_finish st ec att out s : sound (st_db s) -> truthful (st_db s) (clock (st_tick s)) -> ours (r_id run) (st_db s) -> terminal st = true ->
  told_step (FinishRunAndEmit (r_id run) st ec att out (outcome_event run name st ec det)) (fun _ => True)
    (fun e => exists t, e = if bool_decide (st = StatusSucceeded) then PSuccess t else PFail t) s.
Proof.
  intros Hs Ht Ho Hterm. unfold FinishRunAndEmit. set (s0 := mkSt (st_db s) (S (st_tick s))).
  assert (Hlater : forall now d2, now = clock (st_tick s0) -> finishes (r_id run) st now (st_db s) d2 -> 
    exists id s1 e, (let* id := emitEvent (outcome_event run name st ec det) in
      (if bool_decide (st = StatusSucceeded) then emit_recovery (r_id run) (outcome_event run name st ec det) ;;; endStreak (r_id run) else ret tt) ;;; ret (Commit id))
      (mkSt d2 (S (st_tick s0))) = (Ok (Commit id), s1) /\ (exists t, e = if bool_decide (st = StatusSucceeded) then PSuccess t else PFail t) /\
      told_by s0 s1 (Some e) (st_db s)).
  { intros now d2 -> Hf. set (s2 := mkSt d2 _).
    assert (Hnow : clock (st_tick s0) < clock (st_tick s2)) by apply clock_runs.
    assert (Htr : truthful (st_db s) (clock (st_tick s0))) by (eapply truthful_later; [|exact Ht]; apply clock_le; simpl; lia).
    case_bool_decide as Hst.
    - subst st. destruct (record_outcome_succeeded _ (st_db s) ec s2 Hs Htr Hf Hnow) as (id & s3 & E3 & Htold).
      exists id, s3, (PSuccess (clock (st_tick s2))). split; [exact E3|]. split; [by eexists|]. eapply told_by_weaken; [exact Htold|simpl; lia|done|done].
    - destruct (record_outcome_failed (r_id run) st _ (st_db s) (outcome_event run name st ec det) s2 Hs Htr Hf Hnow) as (e' & s3 & E3 & Htold); try done.
      { unfold outcome_event. by rewrite bool_decide_eq_false_2. }
      exists (ev_id e'), s3, (PFail (clock (st_tick s2))). split; [unfold emitEvent, bind; by rewrite E3|]. split; [by eexists|].
      eapply told_by_weaken; [exact Htold|simpl; lia|done|done]. }
  assert (Hbody : forall r s1, (finishRunTx (r_id run) st ec out ;;; exec (on_runs (update_where (is_run (r_id run)) (fun r => rr_with_attempt r att))) ;;;
      (let* id := emitEvent (outcome_event run name st ec det) in
      (if bool_decide (st = StatusSucceeded) then emit_recovery (r_id run) (outcome_event run name st ec det) ;;; endStreak (r_id run) else ret tt) ;;; ret (Commit id))) s0 = (Ok r, s1) ->
    exists id e, r = Commit id /\ (exists t, e = if bool_decide (st = StatusSucceeded) then PSuccess t else PFail t) /\ told_by s0 s1 (Some e) (st_db s)).
  { intros r s1 E. unfold bind at 1 in E.
    destruct (decide (count_where (running (r_id run)) (db_runs (st_db s0)) = 0)) as [Hn|Hn].
    { destruct (finishRunTx_gone (r_id run) st ec out s0 Hn) as (e & s2 & E2). by rewrite E2 in E. }
    rewrite finishRunTx_runs in E by done. unfold bind at 1, exec in E. cbn [st_db st_tick] in E.
    destruct (Hlater _ _ eq_refl (finishes_finish (r_id run) st ec out att (clock (st_tick s0)) (st_db s) (proj1 Hs) Ho Hn)) as (id & s3 & e & E3 & He & Htold).
    pose proof (eq_trans (eq_sym E3) E) as [= <- <-]. by exists id, e. }
  apply told_tx; [done|done| | |].
  - apply advances_bind; [unfold finishRunTx; advance|]. intros u. by apply advances_outcome, advances_exec.
  - intros a s1 E. destruct (Hbody _ _ E) as (id & e & [=] & _).
  - intros a s1 E. destruct (Hbody _ _ E) as (id & e & _ & He & Htold). by exists e.
Qed.

Lemma step_reap out s : sound (st_db s) -> truthful (st_db s) (clock (st_tick s)) -> ours (r_id run) (st_db s) ->
  told_step (ReapStaleRun (r_id run) out (outcome_event run name StatusFailed (-1) det)) (fun reaped => reaped = true)
    (fun e => exists t, e = PFail t) s.
Proof.
  intros Hs Ht Ho. unfold ReapStaleRun. apply told_tx; [done|done| | |].
  - unfold emitEvent. pose proof advances_recordEvent. advance; auto.
  - intros a s1 E. unfold bind at 1 2 3, now_, query, exec in E. cbn [st_db st_tick] in E.
    destruct (_ =? 0) in E; [by injection E as <- <-|]. unfold emitEvent, bind in E. destruct (recordEvent _ _) as [[?|?] ?]; done.
  - intros a s1 E. unfold bind at 1 2 3, now_, query, exec in E. cbn [st_db st_tick] in E.
    destruct (Z.eqb_spec (count_where (running (r_id run)) (db_runs (st_db s))) 0) as [Hn|Hn]; [done|].
    set (now := clock (S (st_tick s))) in E. set (s2 := mkSt _ _) in E.
    assert (Hf : finishes (r_id run) StatusFailed now (st_db s) (st_db s2)) by (apply finishes_reap; [apply Hs|done|done]).
    destruct (record_outcome_failed (r_id run) StatusFailed now (st_db s) (outcome_event run name StatusFailed (-1) det) s2) as (e' & s3 & E3 & Htold); try done.
    { eapply truthful_later; [|exact Ht]. apply clock_le. simpl. lia. }
    { apply clock_runs. }
    unfold emitEvent, bind in E. rewrite E3 in E. unfold ret in E. injection E as <- <-.
    eexists. split; [by eexists|]. eapply told_by_weaken; [exact Htold|simpl; lia|done|done].
Qed.

End Outcome.

End Story.
