(* ===== verification/StoreStory.v ===== *)
(** * What a channel is told about a job

    Over any sequence of the store's operations, interleaved with those of
    other jobs, of the heartbeats and of the delivery queue: the polls for held
    failures, the operations that leave the story of the channel and the job
    alone, and the refinement of the whole to [Pacing]. *)
From S2P Require Import Prelude GoTime Domain Pacing Sql Schema StoreEvents Failure StoreRuns StoreHeartbeats StoreDeliveries StoreConfig StoreInv Executor History StorePacing.
From stdpp Require Import relations sorting.
Open Scope Z_scope.

Section Story.
Context `{World} `{JSONText}.
Variables (org ch job : Z) (kind : ChannelType) (repeat : Duration).
Hypothesis job_pos : 0 < job.
Hypothesis clock_runs : forall n, clock n < clock (S n).

#[local] Abbreviation sound := (sound org ch job kind repeat).
#[local] Abbreviation truthful := (truthful org ch job).
#[local] Abbreviation told_by := (told_by org ch job kind repeat).
#[local] Abbreviation view := (view org ch job).
#[local] Abbreviation tells := (tells ch job).
#[local] Abbreviation routed := (routed org ch job kind repeat).
#[local] Abbreviation outcomes := (outcomes org job).
#[local] Abbreviation job_row_of := (job_row_of org job).

(** ** Effects apart from the story *)

Definition same_streak (r r' : JobRow) : Prop := jr_failed_runs r' = jr_failed_runs r /\ jr_failing_since r' = jr_failing_since r.

(** From [d] to [d'] nothing about the channel and the job has changed. *)
Record apart (d d' : DB) : Prop := {
  ap_runs : table_wf rr_id (db_runs d) -> table_wf rr_id (db_runs d');
  ap_outcomes : outcomes d' = outcomes d;
  ap_job : forall r, job_row_of d = Some r -> exists r', job_row_of d' = Some r' /\ same_streak r r';
  ap_events : db_events d' = db_events d;
  ap_routed : routed d -> routed d';
  ap_alert : db_alerts d' !! (ch, job) = db_alerts d !! (ch, job);
  ap_held : held_ok d -> held_ok d';
  ap_deliveries : addressed d' = addressed d;
}.

Lemma apart_truthful d d' now : apart d d' -> truthful d now -> truthful d' now.
Proof.
  intros A (r & Hr & Hok & Hend & Hz & Hp). destruct (ap_job _ _ A r Hr) as (r' & Hr' & E1 & E2). exists r'.
  unfold streak_ok in *. rewrite last_run_outcomes in *. rewrite E1, E2, (ap_outcomes _ _ A), (ap_alert _ _ A). done.
Qed.

Lemma apart_view d d' : apart d d' -> is_Some (job_row_of d) -> view d' = view d.
Proof.
  intros A [r Hr]. destruct (ap_job _ _ A r Hr) as (r' & Hr' & E1 & E2). unfold StorePacing.view.
  rewrite Hr, Hr', (ap_alert _ _ A). simpl. unfold since_of. by rewrite E1, E2.
Qed.

Lemma apart_sound d d' : apart d d' -> sound d -> sound d'.
Proof.
  intros A (Hw & He & Hr & Hh & Ha). split; [by apply A|]. split; [by rewrite (ap_events _ _ A)|]. split; [by apply A|].
  split; [by apply A|]. rewrite (ap_alert _ _ A). exact Ha.
Qed.

(** [m] keeps [J] and adds nothing to the story. *)
Definition quiet {A} (J : DB -> Prop) (m : Store A) : Prop := forall s, J (st_db s) -> sound (st_db s) ->
  truthful (st_db s) (clock (st_tick s)) ->
  let s' := snd (m s) in told_by s s' None (st_db s) /\ (st_tick s <= st_tick s')%nat /\ J (st_db s').

Lemma told_none_trans s1 s2 s3 : told_by s1 s2 None (st_db s1) -> told_by s2 s3 None (st_db s2) -> told_by s1 s3 None (st_db s1).
Proof.
  intros (_ & _ & V1 & T1) (S2 & R2 & V2 & T2). split; [done|]. split; [done|]. split; [congruence|].
  change (@nil bool) with ([] ++ [] : list bool). by eapply tells_trans.
Qed.

Lemma told_none_same s s' : sound (st_db s) -> truthful (st_db s) (clock (st_tick s)) -> st_db s' = st_db s ->
  (st_tick s <= st_tick s')%nat -> told_by s s' None (st_db s).
Proof. apply told_by_same, clock_runs. Qed.

Create HintDb quiet.

Section Quiet.
Variable J : DB -> Prop.

Lemma quiet_same {A} (m : Store A) : (forall s, st_db (snd (m s)) = st_db s) -> advances m -> quiet J m.
Proof. intros E T s HJ Hs Ht. cbn zeta. rewrite E. split; [apply told_none_same|split]; auto. Qed.

Lemma apart_told s s' : sound (st_db s) -> truthful (st_db s) (clock (st_tick s)) -> apart (st_db s) (st_db s') ->
  (st_tick s <= st_tick s')%nat -> told_by s s' None (st_db s).
Proof.
  intros Hs Ht A T. split; [by eapply apart_sound|]. split.
  { eapply truthful_later; [by apply clock_le, T|]. by eapply apart_truthful. }
  split; [apply apart_view; [done|]; destruct Ht as (r & -> & _); by eexists|].
  apply tells_none; [apply A|f_equal; apply A].
Qed.

Lemma quiet_exec f : (forall d, J d -> sound d -> apart d (f d) /\ J (f d)) -> quiet J (exec f).
Proof.
  intros Hf s HJ Hs Ht. destruct (Hf _ HJ Hs) as [A HJ']. split; [by apply apart_told|by split].
Qed.

Lemma quiet_bind {A B} (m : Store A) (k : A -> Store B) : quiet J m -> (forall a, quiet J (k a)) -> quiet J (bind m k).
Proof.
  intros Hm Hk s HJ Hs Ht. destruct (Hm s HJ Hs Ht) as (H1 & T1 & J1). unfold bind. destruct (m s) as [[a|e] s1]; [|done]. simpl in *.
  destruct (Hk a s1 J1 (proj1 H1) (proj1 (proj2 H1))) as (H2 & T2 & J2). split; [by eapply told_none_trans|]. split; [lia|done].
Qed.

(** The same when what [m] returns matters to what follows. *)
Lemma quiet_bind_hoare {A B} (m : Store A) (k : A -> Store B) (P : A -> Prop) : quiet J m ->
  hoare (fun _ => True) m (fun a _ => P a) -> (forall a, P a -> quiet J (k a)) -> quiet J (bind m k).
Proof.
  intros Hm Hp Hk s HJ Hs Ht. destruct (Hm s HJ Hs Ht) as (H1 & T1 & J1). specialize (Hp s I). unfold bind.
  destruct (m s) as [[a|e] s1]; [|done]. simpl in *.
  destruct (Hk a Hp s1 J1 (proj1 H1) (proj1 (proj2 H1))) as (H2 & T2 & J2). split; [by eapply told_none_trans|]. split; [lia|done].
Qed.

Lemma quiet_try {A} (m : Store A) : quiet J m -> quiet J (try m).
Proof. intros Hm s HJ Hs Ht. specialize (Hm s HJ Hs Ht). unfold try. by destruct (m s). Qed.

Lemma quiet_tx {A} (body : Store (Outcome A)) : quiet J body -> quiet J (tx body).
Proof.
  intros Hb s HJ Hs Ht. set (s0 := mkSt (st_db s) (S (st_tick s))).
  assert (Ht0 : truthful (st_db s0) (clock (st_tick s0))) by (eapply truthful_later; [|exact Ht]; simpl; pose proof (clock_runs (st_tick s)); lia).
  specialize (Hb s0 HJ Hs Ht0). assert (Hadv : (st_tick s <= st_tick (snd (tx body s)))%nat).
  { unfold tx. fold s0. destruct Hb as (_ & T & _). destruct (fault (st_tick s)); simpl; [|lia|];
      (destruct (body s0) as [[[a|a]|e] s'] eqn:E; simpl in *; [destruct (fault (st_tick s')); simpl; lia|lia|lia]). }
  split; [|split; [done|]].
  all: pose proof (tx_commits body s) as Hc; fold s0 in Hc; destruct (tx body s) as [r s'] eqn:Etx; simpl in *;
    destruct Hc as [[Hd _]|(a & s1 & E & Hd & T1)]; try rewrite E in Hb; simpl in Hb.
  - by apply told_none_same.
  - destruct Hb as (Htold & T & _). change (st_db s) with (st_db s0). eapply told_by_weaken; [done|exact Htold|simpl; lia|done|done].
  - by rewrite Hd.
  - rewrite Hd. apply Hb.
Qed.

Lemma quiet_for_each {A} (l : list A) (f : A -> Store unit) : (forall x, quiet J (f x)) -> quiet J (for_each l f).
Proof.
  intros Hf. induction l as [|x l IH]; simpl; [apply quiet_same; [done|apply advances_ret]|]. by apply quiet_bind.
Qed.

(** An event beside the story. *)
Lemma quiet_record e : (forall d d', db_runs d' = db_runs d -> J d -> J d') -> beside job e -> quiet J (recordEvent e).
Proof.
  intros HJ He s HJs Hs (r & Hr & Hok & Hend & Hz & Hp).
  destruct (record_beside org ch job job_pos e s He (sound_events _ _ _ _ _ _ Hs)) as (V & Er & T).
  destruct (record_sound org ch job kind repeat e s (fun _ => or_intror He) Hs) as [Hs' Eruns].
  pose proof (advances_recordEvent e s) as Tick. split; [|split; [done|by eapply HJ]].
  split; [done|]. split; [|done]. pose proof (clock_le clock_runs _ _ Tick) as Hc.
  exists r. rewrite Er. split; [done|]. split; [done|]. unfold StorePacing.outcomes, last_run_status in *. rewrite Eruns. split; [|split; [|done]].
  - intros p Hpp. specialize (Hend p Hpp). lia.
  - intros H1. destruct (Hz H1) as [Hl Ha]. split; [done|]. intros a Ea. assert (E : told_of <$> db_alerts (st_db (snd (recordEvent e s))) !! (ch, job) = told_of <$> db_alerts (st_db s) !! (ch, job)) by (by injection V).
    rewrite Ea in E. destruct (db_alerts (st_db s) !! (ch, job)) as [a0|] eqn:E0; [|done]. injection E as _ E.
    rewrite (Ha a0 eq_refl) in E. by destruct (fa_held a).
Qed.

End Quiet.

(** ** Statements apart from the story *)

Lemma same_streak_refl r : same_streak r r.
Proof. done. Qed.

(** Another table. *)
Ltac apart_frame := split; [constructor; try done; intros ? Hr; eexists; split; [exact Hr|done]|done].

Lemma select_update_none {R} (p q : R -> bool) f (t : Table R) : (forall r, r ∈ rows t -> q r = true -> p r = false /\ p (f r) = false) ->
  select p (update_where q f t) = select p t.
Proof.
  unfold select, update_where. simpl. induction (rows t) as [|r l IH]; intros Hf; simpl; [done|].
  specialize (IH ltac:(intros x Hx; apply Hf; by right)). destruct (q r) eqn:E; [|destruct (p r); [f_equal|]; exact IH].
  destruct (Hf r ltac:(left) E) as [-> ->]. exact IH.
Qed.

Lemma select_insert_none {R} (p : R -> bool) mk (t : Table R) : p (mk (next_id t)) = false -> select p (insert_row mk t) = select p t.
Proof. intros E. unfold select, insert_row. simpl. rewrite List.filter_app. simpl. by rewrite E, app_nil_r. Qed.

(** The runs, but for the job's outcomes. *)
Lemma apart_runs (f : Table RunRow -> Table RunRow) d : (table_wf rr_id (db_runs d) -> table_wf rr_id (f (db_runs d))) ->
  select (fun p => mine org job p && has_outcome p) (f (db_runs d)) = outcomes d -> apart d (on_runs f d).
Proof. intros Hw Ho. constructor; try done. intros r Hr. by exists r. Qed.

(** The state of deliveries. *)
Lemma apart_deliveries (p : DeliveryRow -> bool) f d : (forall r, address (f r) = address r) -> apart d (on_deliveries (update_where p f) d).
Proof.
  intros Hf. constructor; try done; [intros r Hr; by exists r|]. unfold addressed. simpl. rewrite map_map. apply map_ext.
  intros r. by destruct (p r).
Qed.

Lemma apart_jobs f d : (forall r, job_row_of d = Some r -> exists r', select1 (is_job org job) (f (db_jobs d)) = Some r' /\ same_streak r r') ->
  apart d (on_jobs f d).
Proof. intros Hf. constructor; done. Qed.

(** An update of the jobs that keeps their keys and, of this job, the streak. *)
Lemma apart_update_jobs (q : JobRow -> bool) f d :
  (forall r, r ∈ rows (db_jobs d) -> q r = true -> is_job org job (f r) = is_job org job r /\ (is_job org job r = true -> same_streak r (f r))) ->
  apart d (on_jobs (update_where q f) d).
Proof.
  intros Hf. apply apart_jobs. unfold StorePacing.job_row_of, select1, update_where. simpl. induction (rows (db_jobs d)) as [|x l IH]; simpl; [done|].
  intros r. specialize (IH ltac:(intros y Hy; apply Hf; by right)). destruct (q x) eqn:E.
  - destruct (Hf x ltac:(left) E) as [-> Hs]. destruct (is_job org job x); [intros [= <-]; eexists; split; [done|by apply Hs]|apply IH].
  - destruct (is_job org job x); [intros [= <-]; by exists x|apply IH].
Qed.

(** The alerts of other channels and jobs. *)
Lemma apart_alerts f d : f (db_alerts d) !! (ch, job) = db_alerts d !! (ch, job) ->
  (forall k a x, f (db_alerts d) !! k = Some a -> fa_held a = Some x -> exists a0, db_alerts d !! k = Some a0 /\ fa_held a0 = Some x) ->
  apart d (on_alerts f d).
Proof.
  intros Hk Hf. constructor; try done; [intros r Hr; by exists r|]. intros Hh k a x Ha Hx. destruct (Hf k a x Ha Hx) as (a0 & Ha0 & Hx0).
  by eapply Hh.
Qed.

(** Events of other kinds. *)
Ltac other_kind := solve [assumption | right; split; reflexivity].

(** [quieten] splits a computation into its statements; what is left is each
    [exec]'s effect and the events recorded. *)
Ltac quieten :=
  repeat first
    [ progress intros
    | apply quiet_record; [done|other_kind]
    | apply quiet_bind; [|intros ?]
    | apply quiet_same; [done|solve [first [apply advances_ret|apply advances_throw|apply advances_query|apply advances_now]]]
    | apply quiet_tx | apply quiet_try | apply quiet_for_each; intros ?
    | match goal with
      | |- quiet _ (if ?b then _ else _) => destruct b eqn:?
      | |- quiet _ (match ?x with _ => _ end) => destruct x eqn:?
      end
    | apply quiet_exec; intros ?; first [split; [apply apart_deliveries; done|done] | apart_frame | idtac] ].

Lemma outcome_live r : terminal (rr_status r) = false -> mine org job r && has_outcome r = false.
Proof. intros E. unfold has_outcome. by rewrite E, andb_false_r. Qed.

Lemma quiet_join J l : quiet J (join_events l).
Proof. induction l as [|r l IH]; simpl; quieten; done. Qed.

(** The operations that say nothing about the job. *)
Definition other_op (o : Op) : Prop :=
  match o with
  | OpCreateJob _ | OpUpdateJob _ | OpEnqueueRun _ _ | OpClaimRun _ | OpRequeueOrphanedRuns
  | OpCreateHeartbeat _ | OpCreateHeartbeatIfAbsent _ | OpDeleteHeartbeat _ _ | OpRecordHeartbeatPing _ _ _
  | OpSetHeartbeatStatus _ _ | OpSetHeartbeatStatusIf _ _ _ _
  | OpClaimDueDeliveries _ _ _ _ | OpMarkDeliveryDelivered _ | OpRescheduleDelivery _ _ | OpFailDelivery _
  | OpPruneHeartbeatPings _ | OpPutSecret _ _ _ | OpCreateUser _ | OpCreateMembership _ | OpCreateToken _ | OpDeleteToken _ _
  | OpBootstrapDefaultOrg | OpSetOrgPingKey _ _ => True
  | OpEmitEvent ev | OpSetHeartbeatStatusIfAndEmit _ _ _ _ ev | OpMarkHeartbeatDownAndEmit _ ev | OpFailDeliveryAndEmit _ ev => beside job ev
  | _ => False
  end.

Lemma quiet_CreateJob j : quiet (fun _ => True) (CreateJob j).
Proof.
  unfold CreateJob, autocommit. quieten. split; [|done]. apply apart_jobs. intros r Hr. exists r. split; [|done].
  by eapply select1_app.
Qed.

Lemma quiet_UpdateJob j : quiet (fun _ => True) (UpdateJob j).
Proof.
  unfold UpdateJob, autocommit. quieten. split; [|done]. apply apart_update_jobs. intros r _ Hr. split; [|done].
  unfold is_job in *. bsimpl. simpl. congruence.
Qed.

Lemma quiet_EnqueueRun o j : quiet (fun _ => True) (EnqueueRun o j).
Proof.
  unfold EnqueueRun, autocommit. quieten. split; [|done]. apply apart_runs; [by apply table_wf_insert|].
  apply select_insert_none. by apply outcome_live.
Qed.

Lemma quiet_RequeueOrphanedRuns : quiet (fun _ => True) RequeueOrphanedRuns.
Proof.
  unfold RequeueOrphanedRuns, autocommit. quieten. split; [|done]. apply apart_runs; [by apply table_wf_update|].
  apply select_update_none. intros r _ Hr. unfold orphaned, has_status in Hr. bsimpl. split; apply outcome_live; [|done].
  match goal with E : rr_status r = _ |- _ => by rewrite E end.
Qed.

Lemma quiet_ClaimRun w : quiet (fun _ => True) (ClaimRun w).
Proof.
  unfold ClaimRun. apply quiet_tx, quiet_bind; [apply quiet_bind; [quieten|intros now]|quieten].
  intros s _ Hs Ht. cbn zeta. unfold bind, query, exec, ret.
  destruct (select1 (has_status StatusPending) (db_runs (st_db s))) as [r|] eqn:E; simpl; [|split; [apply told_none_same; auto|auto]].
  split; [|auto]. apply apart_told; [done|done| |auto]. apply apart_runs; [by apply table_wf_update|].
  apply select1_Some in E as [Hr Hp]. unfold has_status in Hp. bsimpl. apply select_update_none. intros x Hx Ex.
  unfold is_run in Ex. apply Z.eqb_eq in Ex.
  assert (x = r) as -> by (eapply (table_key_inj rr_id); [apply Hs|done..]). split; apply outcome_live; [|done].
  match goal with E : rr_status r = _ |- _ => by rewrite E end.
Qed.

Lemma ping_state_beside token i now : hoare (fun _ => True) (ping_state token i now)
  (fun r _ => match r with Some (_, Some e) => beside job e | _ => True end).
Proof.
  intros s _. unfold ping_state, guarded_update, update_hb, bind, query, exec, ret. destruct (in_kind i); simpl; try done.
  all: try (destruct (select1 _ _); simpl; done).
  all: destruct (select1 _ _); simpl; [right; by split|]; destruct (select1 _ _); done.
Qed.

Lemma quiet_RecordHeartbeatPing token i now : quiet (fun _ => True) (RecordHeartbeatPing token i now).
Proof.
  unfold RecordHeartbeatPing. destruct (negb _); [quieten|]. apply quiet_tx.
  eapply quiet_bind_hoare; [unfold ping_state, guarded_update, update_hb; quieten|apply ping_state_beside|].
  intros [[r [e|]]|] He; unfold emitEvent; quieten.
Qed.

#[local] Hint Resolve quiet_RecordHeartbeatPing quiet_CreateJob quiet_UpdateJob quiet_EnqueueRun quiet_RequeueOrphanedRuns quiet_ClaimRun quiet_join : quiet.

Lemma quiet_other o : other_op o -> quiet (fun _ => True) (run_op o).
Proof.
  intros Ho. destruct o; simpl in Ho; try done; unfold run_op, ignore;
    try solve [eauto with quiet | apply quiet_bind; [eauto with quiet|quieten]].
  all: unfold_all_ops; unfold emitEvent; quieten; try solve [eauto with quiet].
Qed.

(** ** Runs of other jobs *)

(** No run with the id is the job's. *)
Definition theirs (run : Z) (d : DB) : Prop := forall r, r ∈ rows (db_runs d) -> rr_id r = run -> rr_job r <> job.

Lemma theirs_update run (p : RunRow -> bool) f d : (forall r, rr_id (f r) = rr_id r /\ rr_job (f r) = rr_job r) -> theirs run d ->
  theirs run (on_runs (update_where p f) d).
Proof.
  intros Hf Ht r Hr Hid. simpl in Hr. apply elem_of_map in Hr as (x & Hx & ->). destruct (Hf x) as [E1 E2].
  destruct (p x); rewrite ?E1, ?E2 in *; by apply Ht.
Qed.

Lemma apart_theirs run p f d : (forall r, rr_id (f r) = rr_id r /\ rr_job (f r) = rr_job r) -> (forall r, p r = true -> rr_id r = run) ->
  theirs run d -> apart d (on_runs (update_where p f) d) /\ theirs run (on_runs (update_where p f) d).
Proof.
  intros Hf Hp Ht. split; [|by apply theirs_update]. apply apart_runs; [apply table_wf_update; intros r; apply Hf|].
  apply select_update_none. intros r Hr E. pose proof (Ht r Hr (Hp r E)) as Hj. unfold mine. destruct (Hf r) as [_ ->].
  by rewrite (proj2 (Z.eqb_neq _ _) Hj), !andb_false_r.
Qed.

Lemma running_id run r : running run r = true -> rr_id r = run.
Proof. unfold running, is_run. intros. by bsimpl. Qed.

Lemma quiet_finishRunTx run st ec out : quiet (theirs run) (finishRunTx run st ec out).
Proof. unfold finishRunTx. quieten. apply apart_theirs; [by intros r; split|apply running_id|done]. Qed.

(** The job of a run of another job is another job. *)
Lemma theirs_job run d : theirs run d -> job_of_run run d <> Some job.
Proof.
  intros Ht E. unfold job_of_run in E. destruct (select1 _ _) as [r|] eqn:Er; [|done]. injection E as E.
  apply select1_Some in Er as [Hr Hid]. apply Z.eqb_eq in Hid. by apply (Ht r).
Qed.

Lemma quiet_endStreak run : quiet (theirs run) (endStreak run).
Proof.
  unfold endStreak, dropHeld. quieten; (split; [|done]); pose proof (theirs_job run d ltac:(done)) as Hj.
  - apply apart_update_jobs. intros r _ Hq. split; [done|]. unfold is_job. intros Hr. bsimpl. congruence.
  - assert (Hlook : forall k, drop_held (fun key => bool_decide (job_of_run run d = Some (snd key))) (db_alerts d) !! k =
      (fun r => if bool_decide (job_of_run run d = Some (snd k)) then {| fa_org := fa_org r; fa_last_sent_at := fa_last_sent_at r; fa_held := None |} else r) <$> db_alerts d !! k).
    { intros k. unfold drop_held. rewrite map_lookup_imap. by destruct (db_alerts d !! k). }
    apply apart_alerts.
    + rewrite Hlook. simpl. rewrite bool_decide_eq_false_2 by done. by destruct (db_alerts d !! (ch, job)).
    + intros k row x. rewrite Hlook. destruct (db_alerts d !! k) as [a0|]; [|done]. simpl. intros [= <-]. case_bool_decide; simpl; [done|].
      intros Hx. by exists a0.
Qed.

Lemma beside_job ev : EventJobID ev <> job -> beside job ev.
Proof. by left. Qed.

Lemma theirs_runs run d d' : db_runs d' = db_runs d -> theirs run d -> theirs run d'.
Proof. unfold theirs. by intros ->. Qed.

Lemma quiet_emit run ev : EventJobID ev <> job -> quiet (theirs run) (emitEvent ev).
Proof.
  intros He. unfold emitEvent. apply quiet_bind; [|quieten]. apply quiet_record; [apply theirs_runs|by apply beside_job].
Qed.

#[local] Hint Resolve quiet_finishRunTx quiet_endStreak quiet_emit : quiet.

Lemma quiet_FinishRun run st ec out : quiet (theirs run) (FinishRun run st ec out).
Proof. unfold FinishRun. apply quiet_tx, quiet_bind; [auto with quiet|quieten]. Qed.

Lemma quiet_FinishRunAndEmit run st ec att out ev : EventJobID ev <> job -> quiet (theirs run) (FinishRunAndEmit run st ec att out ev).
Proof.
  intros He. unfold FinishRunAndEmit. apply quiet_tx, quiet_bind; [auto with quiet|intros _]. apply quiet_bind.
  { quieten. apply apart_theirs; [by intros r; split|intros r; apply Z.eqb_eq|done]. }
  intros _. apply quiet_bind; [auto with quiet|intros id]. apply quiet_bind; [|quieten].
  case_bool_decide; [|quieten]. apply quiet_bind; [|auto with quiet]. unfold emit_recovery. apply quiet_bind; [quieten|].
  intros [p|]; [|quieten]. case_bool_decide; [quieten|]. apply quiet_bind; [by apply quiet_emit|quieten].
Qed.

Lemma quiet_ReapStaleRun run out ev : EventJobID ev <> job -> quiet (theirs run) (ReapStaleRun run out ev).
Proof.
  intros He. unfold ReapStaleRun. apply quiet_tx. apply quiet_bind; [quieten|intros now]. apply quiet_bind; [quieten|intros n].
  apply quiet_bind; [quieten; apply apart_theirs; [by intros r; split|apply running_id|done]|intros _].
  destruct (n =? 0); [quieten|]. apply quiet_bind; [auto with quiet|quieten].
Qed.

(** ** Polls for held failures *)

Definition key_of (c : heldCandidate) : Z * Z := (hc_channel c, hc_job c).

(** Why a held failure is forgotten. *)
Definition forgotten (c : heldCandidate) (d : DB) : Prop :=
  snd (failedRepeat (hc_org c) (hc_channel c) (hc_job c) (hc_kind c) d) = false \/
  (match select1 (is_job (hc_org c) (hc_job c)) (db_jobs d) with None => true | Some j => jr_failed_runs j <=? 0 end) = true \/
  last_run_status (hc_org c) (hc_job c) d = Some StatusSucceeded \/
  exists_row (fun e => ev_id e =? hc_event c) (db_events d) = false.

(** The row after a failure was forgotten, or sent. *)
Definition dropped_row (r : AlertRow) : AlertRow := {| fa_org := fa_org r; fa_last_sent_at := fa_last_sent_at r; fa_held := None |}.

(** What a release that commits does. *)
Lemma release_commits c now s : let '(_, s') := releaseOne c now s in let d := st_db s in (st_tick s <= st_tick s')%nat /\
  (st_db s' = d \/ exists a, db_alerts d !! key_of c = Some a /\ fa_held a = Some (hc_event c) /\
    ((forgotten c d /\ st_db s' = on_alerts <[key_of c := dropped_row a]> d) \/
     (~ forgotten c d /\ ReleaseDue (told_of a) now (fst (failedRepeat (hc_org c) (hc_channel c) (hc_job c) (hc_kind c) d)) = true /\
      exists row, dl_channel row = hc_channel c /\ dl_event row = hc_event c /\
      st_db s' = on_deliveries (append_rows [row])
        (on_alerts <[key_of c := {| fa_org := fa_org a; fa_last_sent_at := nullTime now; fa_held := None |}]> d)))).
Proof.
  pose proof (advances_releaseOne c now s) as T. unfold releaseOne in *. match goal with |- context [tx ?b s] => set (body := b) in * end.
  pose proof (tx_commits body s) as Hc. destruct (tx body s) as [res s']. simpl in T. split; [done|].
  destruct Hc as [[Hd _]|(x & s1 & E & -> & _)]; [by left|right]. unfold body in E. clear body T.
  set (d := st_db s) in *. unfold bind, query, stillHeld, alertState in E. cbn [st_db] in E. fold (key_of c) in E.
  destruct (db_alerts d !! key_of c) as [a|] eqn:Ea; [|done]. exists a. split; [done|].
  destruct (decide (fa_held a = Some (hc_event c))) as [Eh|Eh]; [|rewrite bool_decide_eq_false_2 in E by done; done].
  split; [done|]. rewrite bool_decide_eq_true_2 in E by done.
  assert (Hdrop : forall n s1', drop_one c (mkSt d n) = (Ok (Commit x), s1') -> st_db s1' = on_alerts <[key_of c := dropped_row a]> d).
  { intros n s1'. unfold drop_one, bind, exec, ret. intros [= _ <-]. simpl. unfold on_alerts. f_equal. fold (key_of c).
    rewrite Ea, bool_decide_eq_true_2 by done. done. }
  cbn beta iota delta [negb andb st_db] in E. unfold forgotten. revert E. fold (told_of a). destruct (failedRepeat _ _ _ _ d) as [rep [|]]; simpl;
    [|intros E; left; split; [by left|exact (Hdrop _ _ E)]].
  destruct (ReleaseDue (told_of a) now rep) eqn:Edue; simpl; [|done].
  destruct (match select1 _ _ with None => true | Some j => jr_failed_runs j <=? 0 end);
    [intros E; left; split; [by right; left|exact (Hdrop _ _ E)]|].
  case_bool_decide as Elast; [intros E; left; split; [by right; right; left|exact (Hdrop _ _ E)]|].
  cbn [st_db]. fold (key_of c). rewrite Ea, bool_decide_eq_true_2 by done. fold (told_of a). rewrite Edue. simpl.
  destruct (exists_row _ _); simpl; [|intros E; left; split; [by right; right; right|exact (Hdrop _ _ E)]].
  intros E. right. split; [by intros [?|[?|[?|?]]]|]. split; [done|]. unfold saveAlertState, insertDelivery, bind, exec, now_, ret in E. injection E as _ <-.
  clearbody d. eexists (new_delivery _ _ _ _ _). split; [done|]. split; [done|]. unfold on_deliveries, on_alerts. simpl. by rewrite Ea.
Qed.

(** A told step, and then nothing. *)
Lemma told_then_none s0 s1 s2 e d : told_by s0 s1 e d -> told_by s1 s2 None (st_db s1) -> (st_tick s1 <= st_tick s2)%nat -> told_by s0 s2 e d.
Proof.
  intros (_ & _ & He) (S2 & R2 & V2 & T2) Tick. split; [done|]. split; [done|]. pose proof (clock_le clock_runs _ _ Tick). destruct e as [e|].
  - destruct He as (V & T & Ht). split; [congruence|]. split; [|lia].
    rewrite <- (app_nil_r (map _ _)). by eapply tells_trans.
  - destruct He as (V & T). split; [congruence|]. change (@nil bool) with ([] ++ [] : list bool). by eapply tells_trans.
Qed.

Lemma told_none_first s0 s1 s2 e : told_by s0 s1 None (st_db s0) -> told_by s1 s2 e (st_db s1) -> (st_tick s0 <= st_tick s1)%nat ->
  told_by s0 s2 e (st_db s0).
Proof.
  intros (_ & _ & V & T) (S2 & R2 & He) Tick. split; [done|]. split; [done|]. pose proof (clock_le clock_runs _ _ Tick).
  destruct e as [e|]; rewrite V in He.
  - destruct He as (V2 & T2 & Ht). split; [done|]. split; [|lia]. change (map is_failure _) with ([] ++ map is_failure (snd (pstep repeat (view (st_db s0)) e))).
    by eapply tells_trans.
  - destruct He as (V2 & T2). split; [done|]. change (@nil bool) with ([] ++ [] : list bool). by eapply tells_trans.
Qed.

(** One delivery more, of an event that is there. *)
Lemma tells_one d d' row e : addressed d' = addressed d ++ [address row] -> db_events d' = db_events d ->
  e ∈ rows (db_events d) -> table_wf ev_id (db_events d) -> dl_event row = ev_id e ->
  tells d d' (if dl_channel row =? ch then match kind_of_event job e with Some k => [k] | None => [] end else []).
Proof.
  intros Ha He Hin Hw Hid. exists [address row]. split; [done|]. split; [exists []; by rewrite He, app_nil_r|].
  assert (E : select1 (fun x => ev_id x =? dl_event row) (db_events d') = Some e) by (rewrite He, Hid; by apply (select1_key ev_id)).
  split; [intros x ->%list_elem_of_singleton; exists e; exact E|]. simpl. unfold alert_of. simpl.
  destruct (dl_channel row =? ch); [|done]. rewrite E. simpl. by destruct (kind_of_event job e).
Qed.

Lemma release_other c now s : key_of c <> (ch, job) -> sound (st_db s) -> truthful (st_db s) (clock (st_tick s)) ->
  let s' := snd (releaseOne c now s) in told_by s s' None (st_db s) /\ (st_tick s <= st_tick s')%nat.
Proof.
  intros Hk Hs Ht. pose proof (release_commits c now s) as Hc. destruct (releaseOne c now s) as [res s']. simpl.
  destruct Hc as [T Hc]. split; [|done]. set (d := st_db s) in *.
  assert (A : forall row, fa_held row = None -> apart d (on_alerts <[key_of c := row]> d)).
  { intros row Hrow. apply apart_alerts; [by rewrite lookup_insert_ne|]. intros k a0 x. destruct (decide (k = key_of c)) as [->|Hne].
    - rewrite lookup_insert_eq. intros [= <-]. by rewrite Hrow.
    - rewrite lookup_insert_ne by done. intros. by exists a0. }
  destruct Hc as [Hd|(a & Ha & Hh & [[_ Hd]|(Hf & _ & row & Hrc & Hre & Hd)])].
  - by apply told_none_same.
  - apply apart_told; [done|done| |done]. rewrite Hd. by apply A.
  - match type of Hd with _ = on_deliveries _ (on_alerts <[_ := ?x]> _) => specialize (A x eq_refl); set (d1 := on_alerts <[_ := x]> d) in * end.
    destruct (apart_told s (mkSt d1 (st_tick s')) Hs Ht A T) as (S1 & R1 & V1 & T1). unfold StorePacing.told_by. rewrite Hd.
    split; [exact S1|]. split; [exact R1|]. split; [exact V1|].
    assert (Hin : exists e, e ∈ rows (db_events d) /\ ev_id e = hc_event c /\ EventJobID e = hc_job c).
    { destruct Hs as (_ & _ & _ & Hho & _). destruct (Hho (key_of c) a (hc_event c) Ha Hh) as (e & He & Hid & _ & Hj). by exists e. }
    destruct Hin as (e & He & Hid & Hj).
    pose proof (tells_one d (on_deliveries (append_rows [row]) d1) row e ltac:(unfold addressed; simpl; by rewrite map_app) eq_refl He (proj1 (proj2 Hs)) ltac:(congruence)) as Htell.
    revert Htell. destruct (Z.eqb_spec (dl_channel row) ch) as [Ech|]; [|done]. unfold kind_of_event.
    destruct (Z.eqb_spec (EventJobID e) job) as [Ej|]; [|done]. exfalso. apply Hk. unfold key_of. congruence.
Qed.

(** Nothing held of the job is forgotten: it fails, and the rules route it. *)
Lemma not_forgotten c d now a : key_of c = (ch, job) -> hc_org c = org -> hc_kind c = kind -> sound d -> truthful d now ->
  db_alerts d !! (ch, job) = Some a -> fa_held a = Some (hc_event c) ->
  ~ forgotten c d /\ exists r, job_row_of d = Some r /\ 0 < jr_failed_runs r.
Proof.
  intros [= Ec Ej] Eo Ek (_ & _ & (_ & Hf & _) & Hho & _) (r & Hr & [Hok _] & _ & Hz & Hp) Ha Hh.
  assert (Hpos : 0 < jr_failed_runs r).
  { destruct (decide (jr_failed_runs r = 0)) as [E|]; [|lia]. destruct (Hz E) as [_ Hn]. rewrite (Hn a Ha) in Hh. done. }
  split; [|by exists r]. unfold forgotten. rewrite Ec, Ej, Eo, Ek. intros [E|[E|[E|E]]].
  - by rewrite Hf in E.
  - unfold StorePacing.job_row_of in Hr. rewrite Hr in E. lia.
  - destruct (Hp Hpos) as (st & El & Hst). congruence.
  - destruct (Hho (ch, job) a _ Ha Hh) as (e & He & Hid & _). assert (Hx : exists_row (fun e => ev_id e =? hc_event c) (db_events d) = true).
    { apply exists_row_true. exists e. split; [done|]. by apply Z.eqb_eq. }
    congruence.
Qed.

Lemma release_ours c s0 s : key_of c = (ch, job) -> hc_org c = org -> hc_kind c = kind ->
  sound (st_db s) -> truthful (st_db s) (clock (st_tick s)) -> (st_tick s0 < st_tick s)%nat ->
  let now := clock (st_tick s0) in let s' := snd (releaseOne c now s) in (st_tick s <= st_tick s')%nat /\
  (told_by s s' None (st_db s) \/ told_by s0 s' (Some (PRelease now)) (st_db s)).
Proof.
  intros Hk Ho Hkind Hs Ht T0 now. pose proof (release_commits c now s) as Hc. destruct (releaseOne c now s) as [res s']. simpl.
  destruct Hc as [T Hc]. split; [done|]. set (d := st_db s) in *.
  destruct Hc as [Hd|(a & Ha & Hh & Hc)]; [left; by apply told_none_same|right]. rewrite Hk in Ha.
  destruct (not_forgotten c d _ a Hk Ho Hkind Hs Ht Ha Hh) as (Hf & r & Hr & Hpos).
  destruct Hc as [[Hf' _]|(_ & Hdue & row & Hrc & Hre & Hd)]; [done|]. rewrite Hk in Hd. injection Hk as Ec Ej.
  rewrite Ho, Hkind, Ec, Ej in Hdue. pose proof Hs as (Hw & Hwe & Hroute & Hho & Horg). rewrite (proj1 (proj2 Hroute)) in Hdue. simpl in Hdue.
  destruct (Hho _ a _ Ha Hh) as (e & He & Hid & Hty & Hej). simpl in Hej.
  assert (Hstep : pstep repeat (view d) (PRelease now) = ({| ps_alert := Some (Released now); ps_since := Some (parseTime (jr_failing_since r)) |}, [SentFailure now])).
  { unfold pstep, StorePacing.view. rewrite Ha, Hr. simpl. unfold since_of. destruct (Z.leb_spec (jr_failed_runs r) 0); [lia|]. simpl. by rewrite Hdue. }
  unfold StorePacing.told_by. rewrite Hstep, Hd. split; [|split; [|split; [|split]]].
  - split; [exact Hw|]. split; [exact Hwe|]. split; [exact Hroute|]. split.
    + intros k b x. simpl. destruct (decide (k = (ch, job))) as [->|Hne]; [rewrite lookup_insert_eq; by intros [= <-]|].
      rewrite lookup_insert_ne by done. apply Hho.
    + simpl. rewrite lookup_insert_eq. intros b [= <-]. simpl. by apply Horg.
  - assert (Ht' : truthful d (clock (st_tick s'))) by (eapply truthful_later; [apply clock_le; [done|exact T]|exact Ht]).
    destruct Ht' as (r1 & Hr1 & Hok1 & Hend1 & Hz1 & Hp1). exists r1. split; [exact Hr1|]. split; [done|]. split; [exact Hend1|]. split; [|exact Hp1].
    intros E. split; [exact (proj1 (Hz1 E))|]. simpl. rewrite lookup_insert_eq. by intros b [= <-].
  - unfold StorePacing.view at 1. simpl. rewrite lookup_insert_eq. simpl. change (StorePacing.job_row_of org job _) with (job_row_of d).
    rewrite Hr. simpl. unfold since_of. destruct (Z.leb_spec (jr_failed_runs r) 0); [lia|]. unfold told_of, Released. simpl. by rewrite parseTime_nullTime.
  - match goal with |- tells _ ?d' _ => pose proof (tells_one d d' row e ltac:(unfold addressed; simpl; by rewrite map_app) eq_refl He Hwe ltac:(congruence)) as Htell end.
    revert Htell. rewrite Hrc, Ec, Z.eqb_refl. unfold kind_of_event. by rewrite Hej, Z.eqb_refl, Hty.
  - simpl. split; [done|]. assert (clock (st_tick s0) < clock (st_tick s)) by (by apply clock_lt).
    pose proof (clock_le clock_runs _ _ T). unfold now. lia.
Qed.

(** ** A poll *)

Lemma release_all_others cs now s : (forall c, c ∈ cs -> key_of c <> (ch, job)) -> sound (st_db s) -> truthful (st_db s) (clock (st_tick s)) ->
  let s' := snd (release_all cs now s) in told_by s s' None (st_db s) /\ (st_tick s <= st_tick s')%nat.
Proof.
  revert s. induction cs as [|c cs IH]; intros s Hk Hs Ht; simpl; [split; [by apply told_none_same|done]|].
  destruct (release_other c now s (Hk c ltac:(left)) Hs Ht) as [H1 T1]. unfold bind, try. destruct (releaseOne c now s) as [r s1]. simpl in *.
  destruct (IH s1 ltac:(intros x Hx; apply Hk; by right) (proj1 H1) (proj1 (proj2 H1))) as [H2 T2].
  destruct (release_all cs now s1) as [[[n errs]|] s2]; simpl in *; (split; [by eapply told_none_trans|lia]).
Qed.

Lemma release_all_told cs s0 s : NoDup (map key_of cs) -> (forall c, c ∈ cs -> key_of c = (ch, job) -> hc_org c = org /\ hc_kind c = kind) ->
  sound (st_db s) -> truthful (st_db s) (clock (st_tick s)) -> (st_tick s0 < st_tick s)%nat ->
  let now := clock (st_tick s0) in let s' := snd (release_all cs now s) in (st_tick s <= st_tick s')%nat /\
  (told_by s s' None (st_db s) \/ told_by s0 s' (Some (PRelease now)) (st_db s)).
Proof.
  intros Hn Hc Hs Ht T0 now. revert s Hs Ht T0. induction cs as [|c cs IH]; intros s Hs Ht T0.
  { simpl. split; [done|]. left. by apply told_none_same. }
  simpl in Hn. apply NoDup_cons in Hn as [Hc1 Hn]. simpl. unfold bind, try.
  destruct (decide (key_of c = (ch, job))) as [Hk|Hk].
  - destruct (Hc c ltac:(left) Hk) as [Ho Hkind]. destruct (release_ours c s0 s Hk Ho Hkind Hs Ht T0) as [T1 H1]. fold now in T1, H1.
    destruct (releaseOne c now s) as [r s1]. simpl in *.
    assert (Hrest : sound (st_db s1) /\ truthful (st_db s1) (clock (st_tick s1))) by (destruct H1 as [(? & ? & _)|(? & ? & _)]; done).
    destruct (release_all_others cs now s1) as [H2 T2]; [|apply Hrest|apply Hrest|].
    { intros x Hx E. apply Hc1. rewrite Hk, <- E. apply elem_of_map. by exists x. }
    destruct (release_all cs now s1) as [[[n errs]|] s2]; simpl in *; (split; [lia|]);
      (destruct H1 as [H1|H1]; [left; by eapply told_none_trans|right; by eapply told_then_none]).
  - destruct (release_other c now s Hk Hs Ht) as [H1 T1]. destruct (releaseOne c now s) as [r s1]. simpl in *.
    destruct (IH Hn ltac:(intros x Hx; apply Hc; by right) s1 (proj1 H1) (proj1 (proj2 H1)) ltac:(lia)) as [T2 H2].
    destruct (release_all cs now s1) as [[[n errs]|] s2]; simpl in *; (split; [lia|]);
      (destruct H2 as [H2|H2]; [left; by eapply told_none_trans|right]).
    all: destruct H1 as (_ & _ & V1 & Tell1); destruct H2 as (S2 & R2 & V2 & Tell2 & Time2); rewrite V1 in V2, Tell2.
    all: split; [done|]; split; [done|]; split; [done|]; split; [|done].
    all: change (map is_failure _) with ([] ++ map is_failure (snd (pstep repeat (view (st_db s)) (PRelease now)))); by eapply tells_trans.
Qed.

Lemma NoDup_omap {A B K} (f : A -> option B) (key : B -> K) (k : A -> K) l : (forall x y, f x = Some y -> key y = k x) ->
  NoDup (map k l) -> NoDup (map key (omap f l)).
Proof.
  intros Hk. induction l as [|x l IH]; simpl; [done|]. intros [Hx Hn]%NoDup_cons. specialize (IH Hn).
  destruct (f x) as [y|] eqn:E; simpl; [|exact IH]. apply NoDup_cons. split; [|exact IH]. rewrite (Hk x y E). intros Hin. apply Hx.
  apply elem_of_map in Hin as (z & Hz & ->). apply list_elem_of_omap in Hz as (w & Hw & Ew). rewrite (Hk w z Ew). apply elem_of_map. by exists w.
Qed.

Lemma held_candidates_keys d : NoDup (map key_of (held_candidates d)).
Proof.
  unfold held_candidates. eapply (NoDup_omap _ key_of fst).
  - intros [[chID j] r] c. simpl. destruct (fa_held r); [|done]. simpl. destruct (select1 _ _); [|done]. by intros [= <-].
  - assert (Hp : map fst (merge_sort alert_le (map_to_list (db_alerts d))) ≡ₚ map fst (map_to_list (db_alerts d))) by (by rewrite merge_sort_Permutation).
    rewrite Hp. apply NoDup_fst_map_to_list.
Qed.

Lemma held_candidates_ours d c : sound d -> c ∈ held_candidates d -> key_of c = (ch, job) -> hc_org c = org /\ hc_kind c = kind.
Proof.
  intros (_ & _ & (Hkind & _) & _ & Horg) Hc Hk. unfold held_candidates in Hc. apply list_elem_of_omap in Hc as ([[chID j] r] & Hin & E). simpl in E.
  rewrite merge_sort_Permutation in Hin. apply elem_of_map_to_list in Hin.
  destruct (fa_held r) as [x|]; [|done]. simpl in E. destruct (select1 _ _) as [row|] eqn:Erow; [|done]. injection E as <-. injection Hk as -> ->.
  simpl. pose proof (Horg r Hin) as Eo. split; [done|]. rewrite Eo in Erow. unfold channel_kind in Hkind. rewrite Erow in Hkind. by injection Hkind.
Qed.

(** The worker's poll, at the time it reads. *)
Definition poll : Store unit := let* now := now_ in ignore (releaseHeld now).

Lemma step_poll s : sound (st_db s) -> truthful (st_db s) (clock (st_tick s)) ->
  let s' := snd (poll s) in (st_tick s <= st_tick s')%nat /\
  (told_by s s' None (st_db s) \/ told_by s s' (Some (PRelease (clock (st_tick s)))) (st_db s)).
Proof.
  intros Hs Ht. unfold poll, ignore, releaseHeld. unfold bind, now_. cbn beta iota.
  set (s1 := mkSt (st_db s) (S (st_tick s))). pose proof (autocommit_query held_candidates s1) as Hc. destruct (autocommit _ s1) as [res s2]. destruct Hc as (Hd & T & Hr).
  simpl in Hd, T. assert (Ht2 : truthful (st_db s2) (clock (st_tick s2))) by (rewrite Hd; eapply truthful_later; [|exact Ht]; apply clock_le; [done|lia]).
  destruct res as [cands|err]; simpl; [|split; [lia|left; apply told_none_same; [exact Hs|exact Ht|exact Hd|lia]]].
  assert (cands = held_candidates (st_db s)) as -> by (destruct Hr as [[= ->]|[? ?]]; done).
  destruct (release_all_told (held_candidates (st_db s)) s s2 (held_candidates_keys _)) as [T3 H3]; [|by rewrite Hd|done|lia|].
  { intros c Hc. by apply (held_candidates_ours (st_db s)). }
  rewrite Hd in H3. destruct (release_all _ _ s2) as [[[n errs]|err] s3]; simpl in *; (split; [lia|]);
    (destruct H3 as [H3|H3]; [left|by right]; exact H3).
Qed.

(** ** The story *)

(** What happens in the store: a run of the job ends or is reaped, as the
    runner and its reaper say it; the worker polls; or any other operation. *)
Inductive Step :=
| Ends (run : Run) (name : string) (det : Detail) (st : RunStatus) (exitCode attempt : Z) (output : bytes)
| Reaps (run : Run) (name : string) (det : Detail) (output : bytes)
| Polls
| Other (o : Op).

(** A step, and whether it reports that it ended the run. *)
Definition run_step (x : Step) : Store bool :=
  match x with
  | Ends run name det st exitCode attempt output =>
      FinishRunAndEmit (r_id run) st exitCode attempt output (outcome_event run name st exitCode det) ;;; ret true
  | Reaps run name det output =>
      let* reaped := ReapStaleRun (r_id run) output (outcome_event run name StatusFailed (-1) det) in ret reaped
  | Polls => poll ;;; ret false
  | Other o => run_op o ;;; ret false
  end.

(** The operations about runs of other jobs. *)
Definition theirs_op (o : Op) (d : DB) : Prop :=
  match o with
  | OpFinishRun run _ _ _ => theirs run d
  | OpFinishRunAndEmit run _ _ _ _ ev | OpReapStaleRun run _ ev => theirs run d /\ EventJobID ev <> job
  | _ => False
  end.

Definition fits (x : Step) (d : DB) : Prop :=
  match x with
  | Ends run _ _ st _ _ _ => r_org run = org /\ r_job run = job /\ ours org job (r_id run) d /\ terminal st = true
  | Reaps run _ _ _ => r_org run = org /\ r_job run = job /\ ours org job (r_id run) d
  | Polls => True
  | Other o => other_op o \/ theirs_op o d
  end.

(** The step of [Pacing] a step of the store is, if it had an effect. *)
Definition is_step (x : Step) (e : PStep) : Prop :=
  match x, e with
  | Ends _ _ _ st _ _ _, PSuccess _ => st = StatusSucceeded
  | Ends _ _ _ st _ _ _, PFail _ => st <> StatusSucceeded
  | Reaps _ _ _ _, PFail _ | Polls, PRelease _ => True
  | _, _ => False
  end.
Definition stands_for (x : Step) (r : res bool) (e : option PStep) : Prop :=
  (r = Ok true -> e <> None) /\ match e with Some e => is_step x e | None => True end.

Lemma quiet_theirs run {A} (m : Store A) s : quiet (theirs run) m -> theirs run (st_db s) -> sound (st_db s) ->
  truthful (st_db s) (clock (st_tick s)) -> told_by s (snd (m s)) None (st_db s) /\ (st_tick s <= st_tick (snd (m s)))%nat.
Proof. intros Hm Hj Hs Ht. destruct (Hm s Hj Hs Ht) as (H1 & T & _). by split. Qed.

Lemma snd_then {A B} (m : Store A) (b : B) s : snd ((m ;;; ret b) s) = snd (m s).
Proof. unfold bind. by destruct (m s) as [[a|e] s']. Qed.

Lemma advances_ignored {A} (m : Store A) : advances (ignore m) -> advances m.
Proof. intros T s. specialize (T s). unfold ignore in T. by rewrite snd_then in T. Qed.

(** What [told_step] says, as a step of the story. *)
Lemma told_stands {A} (m : Store A) done_ sure x (f : A -> bool) s : told_step org ch job kind repeat m done_ sure s -> advances m ->
  (forall a, f a = true -> done_ a) -> (forall e, sure e -> is_step x e) ->
  let '(r, s') := (let* a := m in ret (f a)) s in (st_tick s <= st_tick s')%nat /\ exists e, stands_for x r e /\ told_by s s' e (st_db s).
Proof.
  unfold told_step, bind. intros Hm T Hf Hsure. specialize (T s). destruct (m s) as [[a|err] s']; simpl in *; (split; [exact T|]).
  - destruct Hm as [[Hn Hd]|(e & He & Ht)].
    + exists None. split; [split; [|done]|done]. intros [= E]. by destruct (Hd a eq_refl (Hf a E)).
    + exists (Some e). split; [split; [done|by apply Hsure]|done].
  - destruct Hm as [[Hn _]|(e & He & Ht)]; [exists None|exists (Some e)]; (split; [split; [done|]|done]); [done|by apply Hsure].
Qed.

(** Every step is told by the step of [Pacing] it stands for. *)
Lemma step_told x s : fits x (st_db s) -> sound (st_db s) -> truthful (st_db s) (clock (st_tick s)) ->
  let '(r, s') := run_step x s in (st_tick s <= st_tick s')%nat /\ exists e, stands_for x r e /\ told_by s s' e (st_db s).
Proof.
  intros Hx Hs Ht. destruct x as [run name det st ec att out|run name det out| |o]; simpl in Hx.
  - destruct Hx as (Ho & Hj & Hours & Hterm). eapply told_stands; [by eapply step_finish| |done|].
    + apply advances_ignored. exact (advances_op (OpFinishRunAndEmit _ _ _ _ _ _)).
    + intros e [t ->]. simpl. by case_bool_decide.
  - destruct Hx as (Ho & Hj & Hours).
    eapply (told_stands _ _ _ (Reaps run name det out) (fun b => b)); [by eapply step_reap| |done|by intros e [t ->]].
    apply advances_ignored. exact (advances_op (OpReapStaleRun _ _ _)).
  - simpl. pose proof (step_poll s Hs Ht) as [T H1]. unfold bind. destruct (poll s) as [[u|err] s']; simpl in *; (split; [exact T|]).
    all: destruct H1 as [H1|H1]; [exists None|exists (Some (PRelease (clock (st_tick s))))]; (split; [split; done|done]).
  - assert (Hq : told_by s (snd (run_op o s)) None (st_db s)).
    { destruct Hx as [Hx|Hx]; [by apply (quiet_other o Hx s I Hs Ht)|].
      destruct o; simpl in Hx; try done; unfold run_op, ignore; rewrite ?snd_then.
      - by apply (quiet_theirs run (FinishRun run status exitCode output) s (quiet_FinishRun _ _ _ _)).
      - by apply (quiet_theirs run (FinishRunAndEmit run status exitCode attempt output ev) s (quiet_FinishRunAndEmit _ _ _ _ _ _ (proj2 Hx)) (proj1 Hx)).
      - by apply (quiet_theirs run (ReapStaleRun run output ev) s (quiet_ReapStaleRun _ _ _ (proj2 Hx)) (proj1 Hx)). }
    pose proof (advances_op o s) as T. simpl. unfold bind. destruct (run_op o s) as [[u|err] s']; simpl in *;
      (split; [exact T|]; exists None; split; [split; done|done]).
Qed.

(** A list of steps, one after the other. *)
Fixpoint run_steps (l : list Step) (s : St DB) : St DB :=
  match l with
  | [] => s
  | x :: r => run_steps r (snd (run_step x s))
  end.

Fixpoint all_fit (l : list Step) (s : St DB) : Prop :=
  match l with
  | [] => True
  | x :: r => fits x (st_db s) /\ all_fit r (snd (run_step x s))
  end.

(** The steps of [Pacing] that the steps of the store stand for. *)
Fixpoint stand_for (l : list Step) (s : St DB) (es : list (option PStep)) : Prop :=
  match l, es with
  | [], [] => True
  | x :: r, e :: es => stands_for x (fst (run_step x s)) e /\ stand_for r (snd (run_step x s)) es
  | _, _ => False
  end.

(** The story from [s] to [s']: the alerts queued for the channel and the
    state kept of them are those of [Pacing]'s trace [tr]. *)
Definition told_as (s s' : St DB) (t : Time) (tr : list PStep) : Prop :=
  increasing t tr /\ view (st_db s') = prun repeat (view (st_db s)) tr /\ tells (st_db s) (st_db s') (sent repeat (view (st_db s)) tr).

Lemma steps_told l s t : all_fit l s -> sound (st_db s) -> truthful (st_db s) (clock (st_tick s)) -> t < clock (st_tick s) ->
  exists es, stand_for l s es /\ told_as s (run_steps l s) t (omap id es) /\
    sound (st_db (run_steps l s)) /\ truthful (st_db (run_steps l s)) (clock (st_tick (run_steps l s))).
Proof.
  revert s t. induction l as [|x l IH]; intros s t Hf Hs Ht Hc.
  { exists []. repeat split; try done; try apply Hs. by apply tells_none. }
  destruct Hf as [Hx Hf]. simpl. pose proof (step_told x s Hx Hs Ht) as Hstep. destruct (run_step x s) as [r s1]. simpl in *.
  destruct Hstep as (T & e & He & S1 & R1 & Htold). pose proof (clock_le clock_runs _ _ T) as Tc.
  destruct (IH s1 (default t (step_time <$> e)) Hf S1 R1) as (es & Hes & (Hi & Hv & Htell) & Hs' & Ht').
  { destruct e; simpl; [|lia]. destruct Htold as (_ & _ & ?). lia. }
  exists (e :: es). split; [done|]. split; [|done]. unfold told_as. destruct e as [e|]; simpl in *.
  - destruct Htold as (V & Tell & Time). split; [split; [lia|done]|]. rewrite V in Hv, Htell. split; [exact Hv|].
    rewrite sent_cons. by eapply tells_trans.
  - destruct Htold as (V & Tell). rewrite V in Hv, Htell. split; [done|]. split; [exact Hv|].
    change (sent _ _ _) with ([] ++ sent repeat (view (st_db s)) (omap id es)). by eapply tells_trans.
Qed.

(** C6: Whatever the operations on the store, their order and the faults of
    the database, the alerts queued for a channel about a job, and the state
    kept of them, are those of a trace of the pacing rules: each run of the job
    that ended or was reaped is its failure or its success, each poll of the
    worker that sent a held failure its release, and nothing else of what the
    store does shows. The clock goes forward from statement to statement, and
    at the start the database is [sound] (ids in order, held failures recorded,
    nobody else's rules) and [truthful] (the job's streak agrees with how its
    last run ended). *)
Theorem store_paces (l : list Step) (s : St DB) :
  all_fit l s -> sound (st_db s) -> truthful (st_db s) (clock (st_tick s)) ->
  exists es, stand_for l s es /\ told_as s (run_steps l s) (clock (st_tick s) - 1) (omap id es).
Proof.
  intros Hl Hs Ht. destruct (steps_told l s (clock (st_tick s) - 1) Hl Hs Ht) as (es & Hes & Htold & _); [lia|]. by exists es.
Qed.


(** A job that never ran, on a channel that was never told of it. *)
Lemma fresh_truthful d now r : job_row_of d = Some r -> jr_failed_runs r = 0 -> jr_failing_since r = None ->
  db_runs d = empty_table -> db_alerts d = ∅ -> truthful d now.
Proof.
  intros Hr Hn Hf Hruns Ha. exists r. unfold streak_ok, last_run_status, StorePacing.outcomes. rewrite Hn, Hf, Hruns, Ha.
  split; [done|]. split; [by split|]. split; [by intros p Hp%elem_of_nil|]. split; [|lia]. split; [by left|done].
Qed.

Lemma fresh_sound d : db_wf d -> routed d -> db_alerts d = ∅ -> sound d.
Proof.
  intros (_ & _ & _ & _ & _ & Hr & _ & _ & _ & He & _) Hroute Ha. split; [done|]. split; [done|]. split; [done|].
  unfold held_ok. rewrite Ha. split; done.
Qed.

End Story.

(** A job with a failure and a success, told to a Slack channel. *)
Definition slack_rule (typ : string) : Rule :=
  {| ru_id := 0; ru_org := 1; ru_channel := 1; ru_event_type := typ; ru_enabled := true; ru_job := 0; ru_repeat := None; ru_created_at := zero_time |}.
Definition slack_told : St DB := @run_ops (steady Hour) plain_text
  [OpCreateChannel {| ch_id := 0; ch_org := 1; ch_name := "ops"; ch_kind := Slack; ch_created_at := zero_time |} "";
   OpCreateRule (slack_rule EventRunFailed); OpCreateRule (slack_rule EventRunRecovered); OpCreateJob flaky_job] start.
Definition run_of (id : Z) : Run :=
  {| r_id := id; r_org := 1; r_job := 1; r_status := StatusRunning; r_attempt := 1; r_exit_code := 0; r_output := [];
     r_claimed_by := "runner"; r_started_at := zero_time; r_ended_at := zero_time; r_created_at := zero_time |}.
Definition fails_and_recovers : list Step :=
  [Other (OpEnqueueRun 1 1); Other (OpClaimRun "runner"); Ends (run_of 1) "backup" DtNone StatusFailed 1 1 []; Polls;
   Other (OpEnqueueRun 1 1); Other (OpClaimRun "runner"); Ends (run_of 2) "backup" DtNone StatusSucceeded 0 1 []].

Lemma steady_runs t0 n : @clock (steady t0) n < @clock (steady t0) (S n).
Proof. unfold steady, Second. simpl. lia. Qed.

Lemma slack_told_sound : @sound plain_text 1 1 1 Slack DefaultRepeat (st_db slack_told) /\ truthful 1 1 1 (st_db slack_told) (@clock (steady Hour) (st_tick slack_told)).
Proof.
  split.
  - apply fresh_sound; [apply (@run_ops_wf (steady Hour) plain_text), empty_db_wf| |reflexivity].
    split; [reflexivity|]. split; [reflexivity|]. eexists. split; [right; left|split; reflexivity].
  - eapply fresh_truthful; reflexivity.
Qed.

Lemma fails_and_recovers_fits : @all_fit (steady Hour) plain_text 1 1 fails_and_recovers slack_told.
Proof.
  assert (Hours : forall id d, forallb (fun r => (rr_org r =? 1) && (rr_job r =? 1)) (rows (db_runs d)) = true -> ours 1 1 id d).
  { intros id d Hf r Hr _. rewrite forallb_forall in Hf. apply list_elem_of_In in Hr. specialize (Hf r Hr). by bsimpl. }
  unfold fails_and_recovers, all_fit.
  repeat (split; [first [left; exact I | exact I | split; [reflexivity|split; [reflexivity|split; [apply Hours; vm_compute; reflexivity|reflexivity]]]]|]).
  exact I.
Qed.

Lemma store_paces_witness : exists es,
  @stand_for (steady Hour) plain_text fails_and_recovers slack_told es /\
  @told_as plain_text 1 1 1 DefaultRepeat slack_told (@run_steps (steady Hour) plain_text fails_and_recovers slack_told)
    (@clock (steady Hour) (st_tick slack_told) - 1) (omap id es).
Proof.
  apply (@store_paces (steady Hour) plain_text 1 1 1 Slack DefaultRepeat); [reflexivity|apply steady_runs|apply fails_and_recovers_fits|apply slack_told_sound|apply slack_told_sound].
Defined.


(** The two alerts of the example: a failure, then a recovery. *)
Example slack_is_told : let d := st_db (@run_steps (steady Hour) plain_text fails_and_recovers slack_told) in
  omap (@alert_of plain_text 1 1 d) (addressed d) = [true; false].
Proof. vm_compute. reflexivity. Qed.
