(* ===== verification/StoreSpec.v ===== *)
(** * What the store's operations promise their callers

    The functional contracts of the job operations, the run queue and the
    event log, on a database that does not fail (what a failing one can do is
    in [History]). *)
From S2P Require Import Prelude GoTime Domain Heartbeat Sql Schema StoreEvents Failure StoreRuns StoreHeartbeats StoreDeliveries StoreConfig StoreInv Executor History.
Open Scope Z_scope.

(** ** Reading back a job *)

Section Jobs.
Context `{World} `{JSONText} `{!Reliable}.

Lemma select1_insert {R} (p : R -> bool) mk (t : Table R) :
  (forall r, r ∈ rows t -> p r = false) -> p (mk (next_id t)) = true -> select1 p (insert_row mk t) = Some (mk (next_id t)).
Proof.
  unfold select1, insert_row. simpl. intros Hn Hp. induction (rows t) as [|r l IH]; simpl; [by rewrite Hp|].
  rewrite Hn by left. apply IH. intros x Hx. apply Hn. by right.
Qed.

(** A job that is created can be read back, by id, exactly as it was given
    but for its id and timestamps: its env, its spec (which JSON must be able
    to hold), its times, and its command, which a row of a type with a spec
    replaces by the rollback guard. *)
Theorem CreateJob_GetJob (j : Job) (s : St DB) : table_wf jr_id (db_jobs (st_db s)) ->
  (exists spec, encodeSpec (j_spec j) = Ok spec) ->
  exists_row (job_named (j_org j) (j_name j)) (db_jobs (st_db s)) = false ->
  exists id s1 s2, CreateJob j s = (Ok id, s1) /\
    GetJob (j_org j) id s1 = (Ok (stored_job id j (clock (S (st_tick s))) (clock (S (st_tick s)))), s2) /\ st_db s2 = st_db s1.
Proof.
  intros (_ & Hb & _) [spec He] Hn. exists (next_id (db_jobs (st_db s))). unfold CreateJob, autocommit. rewrite He, tx_reliable.
  unfold bind at 1 2, now_ at 1. cbn [st_db st_tick]. unfold bind at 1, query at 1. cbn [st_db st_tick]. rewrite Hn.
  unfold bind, query, exec, ret. cbn [st_db st_tick]. eexists _, _. split; [done|].
  unfold GetJob, autocommit, bind at 1. rewrite tx_reliable. unfold bind, query, ret. cbn [st_db st_tick db_jobs on_jobs].
  rewrite select1_insert.
  - unfold scan_one_job. rewrite scanJob_job_row. by split.
  - intros r Hr. rewrite Forall_elem in Hb. specialize (Hb r Hr). unfold is_job. destruct (Z.eqb_spec (jr_id r) (next_id (db_jobs (st_db s)))); [lia|].
    apply andb_false_r.
  - unfold is_job. simpl. by rewrite !Z.eqb_refl.
Qed.

(** ** Due jobs *)

Lemma scanJobs_spec rs :
  (forall j, j ∈ fst (scanJobs rs) <-> exists r, r ∈ rs /\ scanJob r = Ok j) /\
  (forall u, u ∈ snd (scanJobs rs) <-> exists r e, r ∈ rs /\ scanJob r = Error e /\
     u = {| un_org := jr_org r; un_job := jr_id r; un_name := jr_name r |}).
Proof.
  induction rs as [|r rs [IH1 IH2]]; simpl.
  { split; intros j; (split; [by intros ?%elem_of_nil|]); [intros (r & Hr & _)|intros (r & e & Hr & _)]; by apply elem_of_nil in Hr. }
  destruct (scanJobs rs) as [js us]. simpl in *. destruct (scanJob r) as [x|e] eqn:E; simpl.
  - split; intros j; rewrite ?elem_of_cons, ?IH1, ?IH2; split.
    + intros [->|(y & Hy & Ey)]; [exists r; split; [left|done]|exists y; split; [by right|done]].
    + intros (y & [->|Hy]%elem_of_cons & Ey); [left; congruence|right; by exists y].
    + intros (y & e & Hy & Ey). exists y, e. split; [by right|done].
    + intros (y & e & [->|Hy]%elem_of_cons & Ey & Eu); [congruence|by exists y, e].
  - split; intros j; rewrite ?elem_of_cons, ?IH1, ?IH2; split.
    + intros (y & Hy & Ey). exists y. split; [by right|done].
    + intros (y & [->|Hy]%elem_of_cons & Ey); [congruence|by exists y].
    + intros [->|(y & e' & Hy & Ey)]; [exists r, e; split; [left|done]|exists y, e'; split; [by right|done]].
    + intros (y & e' & [->|Hy]%elem_of_cons & Ey & Eu); [by left|right; by exists y, e'].
Qed.

(** A row whose job should be run now. *)
Definition is_due (now : Time) (d : DB) (r : JobRow) : Prop :=
  r ∈ rows (db_jobs d) /\ jr_enabled r = true /\ (exists t, jr_next_run r = Some t /\ t <= now) /\
  (forall x, x ∈ rows (db_runs d) -> rr_job x = jr_id r -> terminal (rr_status x) = true).

Lemma job_due_spec now d r : r ∈ select (job_due now d) (db_jobs d) <-> is_due now d r.
Proof.
  unfold is_due. rewrite elem_of_select. unfold job_due. rewrite !andb_true_iff, negb_true_iff. unfold has_live_run.
  rewrite exists_row_false. split.
  - intros (Hr & ((He & Ht) & Hl)). split; [done|split; [done|split]].
    + destruct (jr_next_run r) as [t|]; [|done]. exists t. by bsimpl.
    + intros x Hx Ej. specialize (Hl x Hx). rewrite Ej, Z.eqb_refl in Hl. simpl in Hl. unfold live in Hl. by bsimpl.
  - intros (Hr & He & (t & Et & Ht) & Hl). split; [done|]. split; [split; [done|rewrite Et; lia]|].
    intros x Hx. destruct (Z.eqb_spec (rr_job x) (jr_id r)) as [Ej|]; [|done]. simpl. unfold live. by rewrite (Hl x Hx Ej).
Qed.

(** The due jobs are exactly the enabled ones whose time has come and that
    have no pending or running run; a row that does not decode is reported by
    name and hides no other. *)
Theorem DueJobs_spec (now : Time) (s : St DB) : exists jobs unreadable s',
  DueJobs now s = (Ok (jobs, unreadable), s') /\ st_db s' = st_db s /\
  (forall j, j ∈ jobs <-> exists r, is_due now (st_db s) r /\ scanJob r = Ok j) /\
  (forall u, u ∈ unreadable <-> exists r e, is_due now (st_db s) r /\ scanJob r = Error e /\
     u = {| un_org := jr_org r; un_job := jr_id r; un_name := jr_name r |}).
Proof.
  unfold DueJobs, autocommit. rewrite tx_reliable. unfold bind, query, ret. cbn [st_db st_tick].
  destruct (scanJobs_spec (select (job_due now (st_db s)) (db_jobs (st_db s)))) as [Hj Hu].
  destruct (scanJobs (select (job_due now (st_db s)) (db_jobs (st_db s)))) as [jobs un].
  exists jobs, un. eexists. split; [done|]. split; [done|]. simpl in *. setoid_rewrite job_due_spec in Hj.
  setoid_rewrite job_due_spec in Hu. done.
Qed.

(** ** Events and their deliveries *)

(** An event that is not paced is recorded as given and queued, in the same
    transaction, exactly once on each channel it matches; one of a type no
    channel may be alerted about is only recorded. *)
Theorem EmitEvent_delivers (e : Event) (s : St DB) :
  String.eqb (ev_type e) EventRunFailed = false -> String.eqb (ev_type e) EventRunRecovered = false ->
  exists e' s' news, EmitEvent e s = (Ok (ev_id e'), s') /\ recorded_as e e' /\
    rows (db_events (st_db s')) = rows (db_events (st_db s)) ++ [e'] /\
    rows (db_deliveries (st_db s')) = rows (db_deliveries (st_db s)) ++ news /\
    map dl_channel news = (if Alertable (ev_type e) then map mc_id (matchedChannels e (EventJobID e) (st_db s)) else []) /\
    Forall (fun r => dl_event r = ev_id e' /\ dl_org r = ev_org e /\ dl_state r = DeliveryPending /\ dl_attempts r = 0) news.
Proof.
  intros Hf Hr. unfold EmitEvent. rewrite tx_reliable. unfold bind at 1, emitEvent, bind at 1.
  set (s0 := mkSt (st_db s) _). destruct (recordEvent_effect e s0) as (e' & t & cs & s1 & E & Hrec & _ & _ & Hq & _ & Hcs).
  rewrite E. unfold ret. destruct Hq as (m & news & Hd & _ & Hfresh & _). eexists e', _, news. split; [done|]. split; [done|].
  cbn [st_db]. rewrite Hd. simpl. split; [done|]. split; [done|].
  destruct Hrec as (Ho & Ht & Hs & Hp & _). specialize (Hcs Hf Hr).
  assert (Ej : EventJobID e' = EventJobID e) by (unfold EventJobID; by rewrite Hp).
  assert (Em : matchedChannels e' (EventJobID e') (st_db s) = matchedChannels e (EventJobID e) (st_db s)).
  { rewrite Ej. unfold matchedChannels, matched_rows. by rewrite Ho, Ht. }
  split.
  - rewrite <- Em. simpl in Hcs. rewrite <- Hcs. clear -Hfresh. induction Hfresh as [|c r cs news [Hc _] Hf IH]; simpl; [done|]. by rewrite Hc, IH.
  - clear -Hfresh Ho. induction Hfresh as [|c r cs news (Hc & He & Horg & Hst & Hat & _) Hf IH]; constructor; [|done].
    split_and!; congruence.
Qed.

End Jobs.

(** ** A run is executed once *)

Section Claims.
Context `{World} `{JSONText}.

(** A pending run was pending before, or is new. *)
Definition no_repending (d d' : DB) : Prop :=
  next_id (db_runs d) <= next_id (db_runs d') /\
  forall r', r' ∈ rows (db_runs d') -> rr_status r' = StatusPending -> next_id (db_runs d) <= rr_id r' \/
    exists r, r ∈ rows (db_runs d) /\ rr_id r = rr_id r' /\ rr_status r = StatusPending.

#[local] Instance no_repending_refl : Reflexive no_repending.
Proof. intros d. split; [lia|]. intros r Hr Hs. right. by exists r. Qed.
#[local] Instance no_repending_trans : Transitive no_repending.
Proof.
  intros d1 d2 d3 [N1 H1] [N2 H2]. split; [lia|]. intros r3 Hr Hs. destruct (H2 r3 Hr Hs) as [|(r2 & Hr2 & E2 & S2)]; [left; lia|].
  destruct (H1 r2 Hr2 S2) as [|(r1 & Hr1 & E1 & S1)]; [left; lia|]. right. exists r1. split; [done|]. split; congruence.
Qed.

Lemma no_repending_eq d d' : db_runs d' = db_runs d -> no_repending d d'.
Proof. intros E. split; [by rewrite E|]. intros r Hr Hs. rewrite E in Hr. right. by exists r. Qed.

Lemma no_repending_update p f d : (forall r, p r = true -> rr_id (f r) = rr_id r /\ (rr_status (f r) = StatusPending -> rr_status r = StatusPending)) ->
  no_repending d (on_runs (update_where p f) d).
Proof.
  intros Hf. split; [simpl; lia|]. intros r' (r & Hr & ->)%elem_of_update Hs. right. exists r. split; [done|].
  destruct (p r) eqn:E; [|done]. destruct (Hf r E) as [E1 E2]. split; [done|by apply E2].
Qed.

Lemma no_repending_insert mk d : (forall i, rr_id (mk i) = i) -> no_repending d (on_runs (insert_row mk) d).
Proof. intros Hk. split; [simpl; lia|]. intros r [Hr| ->]%elem_of_insert Hs; [right; by exists r|left; rewrite Hk; lia]. Qed.

Lemma no_repending_delete p d : no_repending d (on_runs (delete_where p) d).
Proof. split; [simpl; lia|]. intros r [Hr _]%elem_of_delete Hs. right. by exists r. Qed.

Lemma no_repending_record e : evolves no_repending (recordEvent e).
Proof. apply evolves_recordEvent. intros d d' Hr. apply no_repending_eq. by destruct (record_step_frame _ _ _ Hr) as (? & _). Qed.
Lemma no_repending_emit e : evolves no_repending (emitEvent e).
Proof. unfold emitEvent. apply evolves_bind; [apply _|apply no_repending_record|]. intros a. apply evolves_ret; apply _. Qed.
#[local] Hint Resolve no_repending_record no_repending_emit : evolves.

Lemma no_repending_join_events l : evolves no_repending (join_events l).
Proof. induction l as [|r l IH]; simpl; evolve. Qed.
Lemma no_repending_releaseOne c now : evolves no_repending (releaseOne c now).
Proof. unfold releaseOne, drop_one, saveAlertState, insertDelivery. evolve; by apply no_repending_eq. Qed.
#[local] Hint Resolve no_repending_join_events no_repending_releaseOne : evolves.
Lemma no_repending_release_all cs now : evolves no_repending (release_all cs now).
Proof. induction cs as [|c cs IH]; simpl; evolve. Qed.
#[local] Hint Resolve no_repending_release_all : evolves.

(** Anything but the requeue at start-up, and with the outcomes the runner records. *)
Definition no_requeue (o : Op) : Prop :=
  match o with
  | OpRequeueOrphanedRuns => False
  | OpFinishRun _ st _ _ | OpFinishRunAndEmit _ st _ _ _ _ => terminal st = true
  | _ => True
  end.

Lemma no_repending_op o : no_requeue o -> evolves no_repending (run_op o).
Proof.
  destruct o; simpl; intros Ho; try done; unfold ignore; unfold_all_ops; evolve.
  all: try first [by apply no_repending_eq | apply no_repending_delete | apply no_repending_insert; intros i; reflexivity |
           apply no_repending_update; intros x Hx; split; [done|simpl; intros Hs; try done] ].
  all: by rewrite Hs in Ho.
Qed.

Lemma no_repending_ops l s : Forall no_requeue l -> no_repending (st_db s) (st_db (run_ops l s)).
Proof.
  revert s. induction l as [|o l IH]; intros s Hl; simpl; [reflexivity|]. inversion Hl; subst.
  etrans; [by apply (no_repending_op o)|]. by apply IH.
Qed.

(** What a claim that returned a run has done. *)
Lemma ClaimRun_claims w s run s' : table_wf rr_id (db_runs (st_db s)) -> ClaimRun w s = (Ok (Some run), s') ->
  r_id run < next_id (db_runs (st_db s')) /\
  (forall r, r ∈ rows (db_runs (st_db s')) -> rr_id r = r_id run -> rr_status r = StatusRunning) /\
  exists r, r ∈ rows (db_runs (st_db s)) /\ rr_id r = r_id run /\ rr_status r = StatusPending /\
    forall x, x ∈ rows (db_runs (st_db s)) -> rr_status x = StatusPending -> rr_id r <= rr_id x.
Proof.
  intros Hw E. unfold ClaimRun, autocommit in E.
  match type of E with tx ?b s = _ => pose proof (tx_atomic b s) as Ha; rewrite E in Ha end.
  assert (Hbody : exists tk r, r ∈ rows (db_runs (st_db s)) /\ rr_status r = StatusPending /\ rr_id r = r_id run /\
    (forall x, x ∈ rows (db_runs (st_db s)) -> rr_status x = StatusPending -> rr_id r <= rr_id x) /\
    st_db s' = on_runs (update_where (is_run (rr_id r)) (fun r => rr_claim r StatusRunning (Some w) (Some tk))) (st_db s)).
  { clear Ha. unfold tx in E. unfold bind, now_, query, exec, ret in E. simpl in E.
    destruct (select1 (has_status StatusPending) (db_runs (st_db s))) as [r|] eqn:Es.
    - exists (clock (S (st_tick s))), r. pose proof (select1_least rr_id _ _ _ Hw Es) as Hl. apply select1_Some in Es as [Hr Hp].
      unfold has_status in *. bsimpl. simpl in E. destruct (fault (st_tick s)); simpl in E; try done;
        destruct (fault _); simpl in E; try done; injection E as <- <-; (split; [done|split; [done|split; [done|split; [|done]]]]);
        intros x Hx Hsx; apply Hl; [done|by apply bool_decide_eq_true|done|by apply bool_decide_eq_true].
    - simpl in E. destruct (fault (st_tick s)); simpl in E; try done; destruct (fault _); simpl in E; done. }
  destruct Hbody as (tk & r & Hr & Hp & Hid & Hl & ->). split; [|split].
  - simpl. rewrite <- Hid. by apply (table_wf_lt rr_id).
  - intros x' (x & Hx & ->)%elem_of_update Ex. unfold is_run in *. destruct (Z.eqb_spec (rr_id x) (rr_id r)) as [E2|E2]; simpl in *; [done|congruence].
  - by exists r.
Qed.

(** C3: A claim returns the oldest pending run, and that run is not claimed again
    by anyone, whatever happens in between and whatever faults the database
    has, unless the runs of a crashed process are requeued. *)
Theorem claimed_once (w w' : string) (l : list Op) (run run' : Run) (s s1 s2 : St DB) :
  db_wf (st_db s) -> ClaimRun w s = (Ok (Some run), s1) -> Forall no_requeue l ->
  ClaimRun w' (run_ops l s1) = (Ok (Some run'), s2) ->
  r_id run' <> r_id run /\
  exists r, r ∈ rows (db_runs (st_db s)) /\ rr_id r = r_id run /\ rr_status r = StatusPending /\
    forall x, x ∈ rows (db_runs (st_db s)) -> rr_status x = StatusPending -> rr_id r <= rr_id x.
Proof.
  intros Hw E1 Hl E2.
  assert (Hw1 : db_wf (st_db s1)).
  { pose proof (evolves_ClaimRun any w s Hw) as Hs. rewrite E1 in Hs. by eapply msteps_wf. }
  assert (Hruns : forall d, db_wf d -> table_wf rr_id (db_runs d)) by (intros d Hd; apply Hd).
  destruct (ClaimRun_claims w s run s1 (Hruns _ Hw) E1) as (Hlt & Hrun & Hold). split; [|done].
  destruct (ClaimRun_claims w' _ run' s2 (Hruns _ (run_ops_wf l s1 Hw1)) E2) as (_ & _ & r2 & Hr2 & Hid2 & Hs2 & _). intros Heq.
  destruct (no_repending_ops l s1 Hl) as [_ Hn]. destruct (Hn r2 Hr2 Hs2) as [|(r1 & Hr1 & Hid1 & Hs1)]; [lia|].
  rewrite (Hrun r1 Hr1) in Hs1 by congruence. done.
Qed.

End Claims.

(** ** At work *)

Lemma CreateJob_GetJob_witness : exists id s1 s2,
  @CreateJob (steady Hour) flaky_job start = (Ok id, s1) /\
  fst (@GetJob (steady Hour) (j_org flaky_job) id s1) = Ok (stored_job id flaky_job (Hour + Second) (Hour + Second)) /\
  snd (@GetJob (steady Hour) (j_org flaky_job) id s1) = s2.
Proof.
  destruct (@CreateJob_GetJob (steady Hour) (steady_reliable Hour) flaky_job start) as (id & s1 & s2 & E1 & E2 & _).
  - apply table_wf_empty.
  - eexists. reflexivity.
  - reflexivity.
  - exists id, s1, s2. split; [exact E1|]. rewrite E2. split; reflexivity.
Defined.

Definition one_due : St DB := @run_ops (steady Hour) plain_text [OpCreateJob flaky_job; OpEnqueueRun 1 1; OpEnqueueRun 1 1] start.

Lemma DueJobs_spec_witness : exists jobs unreadable s',
  @DueJobs (steady Hour) (2 * Hour) one_due = (Ok (jobs, unreadable), s') /\
  forall j, j ∈ jobs -> exists r, is_due (2 * Hour) (st_db one_due) r /\ scanJob r = Ok j.
Proof.
  destruct (@DueJobs_spec (steady Hour) (steady_reliable Hour) (2 * Hour) one_due) as (jobs & un & s' & E & _ & Hj & _).
  exists jobs, un, s'. split; [exact E|]. intros j. apply Hj.
Defined.

Lemma claimed_once_witness :
  match @ClaimRun (steady Hour) "runner" one_due with
  | (Ok (Some run), s1) =>
      match @ClaimRun (steady Hour) "run:host:7" (@run_ops (steady Hour) plain_text [OpEnqueueRun 1 1] s1) with
      | (Ok (Some run'), _) => r_id run' <> r_id run
      | _ => False
      end
  | _ => False
  end.
Proof.
  destruct (@ClaimRun (steady Hour) "runner" one_due) as [[[run|]|e] s1] eqn:E1; [|vm_compute in E1; discriminate E1|vm_compute in E1; discriminate E1].
  destruct (@ClaimRun (steady Hour) "run:host:7" (@run_ops (steady Hour) plain_text [OpEnqueueRun 1 1] s1)) as [[[run'|]|e] s2] eqn:E2.
  - apply (@claimed_once (steady Hour) plain_text "runner" "run:host:7" [OpEnqueueRun 1 1] run run' one_due s1 s2).
    + apply run_ops_wf. apply empty_db_wf.
    + exact E1.
    + repeat constructor.
    + exact E2.
  - vm_compute in E1. injection E1 as <- <-. vm_compute in E2. discriminate E2.
  - vm_compute in E1. injection E1 as <- <-. vm_compute in E2. discriminate E2.
Defined.

Lemma EmitEvent_delivers_witness :
  let e := new_event 1 EventMissed "heartbeat" (PlText "backup") "" DtNone in
  exists e' s', @EmitEvent (steady Hour) plain_text e one_due = (Ok (ev_id e'), s') /\
    rows (db_deliveries (st_db s')) = rows (db_deliveries (st_db one_due)).
Proof.
  intros e. destruct (@EmitEvent_delivers (steady Hour) plain_text (steady_reliable Hour) e one_due) as (e' & s' & news & E & _ & _ & Hd & Hc & _);
    [reflexivity|reflexivity|].
  exists e', s'. split; [exact E|]. vm_compute in Hc. apply map_eq_nil in Hc. rewrite Hd, Hc. apply app_nil_r.
Defined.
