(* ===== verification/Worker.v ===== *)
(** * The delivery worker's queue ([internal/notify/worker.go])

    The queue the delivery worker polls (the worker's loop itself is a
    library): what a claim hands out, and what becomes of a delivery that is
    sent, retried or given up. *)
From S2P Require Import Prelude GoTime Domain Sql Schema StoreEvents StoreRuns StoreDeliveries StoreConfig StoreInv History.
Open Scope Z_scope.

Section Worker.
Context `{World} `{JSONText}.

(** [queue.Claim]: a release of held alerts that fails is logged, and the claim goes on. *)
Definition Claim (now : Time) (lease hold : Duration) (limit : Z) : Store (list Delivery) :=
  let* _ := try (releaseHeld now) in
  ClaimDueDeliveries now lease hold limit.

(** [queue.MarkSent] and [queue.Retry]. *)
Definition MarkSent (d : Delivery) : Store unit := MarkDeliveryDelivered (d_id d).
Definition Retry (d : Delivery) (at_ : Time) : Store unit := RescheduleDelivery (d_id d) at_.

Definition given_up (d : Delivery) : Event :=
  new_event (d_org d) EventNotificationFailed "notify" (PlText (match d_event d with None => "" | Some e => ev_type e end)) "" DtNone.

(** [queue.GiveUp]. *)
Definition GiveUp (d : Delivery) : Store unit :=
  if match d_event d with None => false | Some e => String.eqb (ev_type e) EventNotificationFailed end
  then FailDelivery (d_id d)
  else FailDeliveryAndEmit (d_id d) (given_up d).

(** ** Claims *)

(** The event of every delivery that can be claimed is there. *)
Definition claims_joinable (d : DB) : Prop :=
  forall r, r ∈ rows (db_deliveries d) -> pending r = true -> exists e, e ∈ rows (db_events d) /\ ev_id e = dl_event r.

Lemma join_events_ok l s : (forall r, r ∈ l -> exists e, e ∈ rows (db_events (st_db s)) /\ ev_id e = dl_event r) ->
  exists out, join_events l s = (Ok out, s) /\ map d_id out = map dl_id l.
Proof.
  induction l as [|r l IH]; intros Hl; simpl; [by exists []|]. unfold bind, query.
  destruct (select1 (fun e => ev_id e =? dl_event r) (db_events (st_db s))) as [e|] eqn:E.
  - destruct IH as (out & E1 & E2); [intros x Hx; apply Hl; by right|]. rewrite E1. eexists. split; [done|]. simpl. by f_equal.
  - destruct (Hl r) as (e & He & Hid); [left|]. rewrite select1_None in E. specialize (E e He). simpl in E. lia.
Qed.

Lemma claimable_pending now hold d r : claimable now hold d r = true -> pending r = true /\ dl_next_attempt_at r <= now.
Proof. unfold claimable, delivery_due. intros Hc. by bsimpl. Qed.

Lemma elem_of_claimable now hold limit d r : r ∈ claimable_rows now hold limit d ->
  r ∈ rows (db_deliveries d) /\ claimable now hold d r = true.
Proof. intros Hr. apply elem_of_select. unfold claimable_rows in Hr. by apply (subseteq_take (Z.to_nat (list_limit limit))) in Hr. Qed.

(** C8: A claim never fails on its own: it hands out, oldest first, as many
    pending deliveries that are due and not held back as its limit allows;
    what it hands out cannot be handed out again before its lease ends; when
    two deliveries of one channel are out together, the older one has been
    tried for longer than the hold; and the oldest pending delivery of a
    channel is never held back. *)
Theorem claims_leased `{!Reliable} (now : Time) (lease hold : Duration) (limit : Z) (s : St DB) :
  claims_joinable (st_db s) -> exists out s',
  ClaimDueDeliveries now lease hold limit s = (Ok out, s') /\
  map d_id out = map dl_id (claimable_rows now hold limit (st_db s)) /\
  (forall now' hold' limit' r, now' < now + lease -> r ∈ claimable_rows now' hold' limit' (st_db s') -> dl_id r ∉ map d_id out) /\
  (forall r1 r2, 0 < hold -> r1 ∈ claimable_rows now hold limit (st_db s) -> r2 ∈ claimable_rows now hold limit (st_db s) ->
    dl_channel r1 = dl_channel r2 -> dl_id r1 < dl_id r2 -> exists t, dl_first_attempt_at r1 = Some t /\ t <= now - hold) /\
  (forall r, r ∈ rows (db_deliveries (st_db s)) -> delivery_due now r = true ->
    (forall o, o ∈ rows (db_deliveries (st_db s)) -> dl_channel o = dl_channel r -> pending o = true -> dl_id r <= dl_id o) ->
    claimable now hold (st_db s) r = true).
Proof.
  intros Hj. unfold ClaimDueDeliveries. rewrite tx_reliable. unfold bind at 1 2, query, exec. cbn [st_db st_tick].
  set (claimed := claimable_rows now hold limit (st_db s)).
  set (upd := update_where (fun r => existsb (fun c => dl_id c =? dl_id r) claimed) (claim_delivery now lease)).
  set (s1 := mkSt (on_deliveries upd (st_db s)) _).
  destruct (join_events_ok (map (claim_delivery now lease) claimed) s1) as (out & E1 & E2).
  { intros r (x & Hx & ->)%elem_of_map. apply elem_of_claimable in Hx as [Hx [Hp _]%claimable_pending]. exact (Hj x Hx Hp). }
  unfold bind. rewrite E1. exists out. eexists. split; [done|]. cbn [st_db]. 
  assert (Hids : map d_id out = map dl_id claimed) by (rewrite E2, map_map; apply List.map_ext; intros x; reflexivity). rewrite Hids. split; [done|].
  split; [|split].
  - intros now' hold' limit' r Hlt Hr Hin. apply elem_of_claimable in Hr as [Hr [Hp Hdue]%claimable_pending].
    apply elem_of_update in Hr as (x & Hx & ->). apply elem_of_map in Hin as (c & Hc & Ec).
    assert (Hu : existsb (fun c => dl_id c =? dl_id x) claimed = true).
    { apply existsb_exists. exists c. split; [by apply list_elem_of_In|]. rewrite <- Ec.
      destruct (existsb _ claimed); simpl; apply Z.eqb_refl. }
    rewrite Hu in Hdue. simpl in Hdue. unfold TimeAdd in Hdue. lia.
  - intros r1 r2 Hh G1 G2 Hch Hlt. apply elem_of_claimable in G1 as [G1 Hc1]. apply elem_of_claimable in G2 as [G2 Hc2].
    unfold claimable in Hc2. apply andb_true_iff in Hc2 as [_ Hc2]. destruct (Z.leb_spec hold 0); [lia|]. simpl in Hc2.
    apply negb_true_iff in Hc2. rewrite exists_row_false in Hc2. specialize (Hc2 r1 G1). unfold holds in Hc2.
    apply claimable_pending in Hc1 as [Hp1 _]. rewrite Hp1, Hch, Z.eqb_refl, (proj2 (Z.ltb_lt _ _) Hlt) in Hc2. simpl in Hc2.
    destruct (dl_first_attempt_at r1) as [t|]; [|done]. exists t. split; [done|]. unfold TimeAdd in Hc2. bsimpl. lia.
  - intros r Hr Hdue Hold. unfold claimable. rewrite Hdue. simpl. apply orb_true_iff. right. apply negb_true_iff.
    apply exists_row_false. intros o Ho. unfold holds. destruct (Z.eqb_spec (dl_channel o) (dl_channel r)); [|done].
    destruct (pending o) eqn:Hpo; [|done]. specialize (Hold o Ho ltac:(done) Hpo). destruct (Z.ltb_spec (dl_id o) (dl_id r)); [lia|done].
Qed.

(** ** Giving up *)

(** A delivery that is given up is failed and, unless it was itself a report
    of a failed delivery, reported by exactly one notification.failed; a
    failed report is never reported, so no chain of reports can start; a
    delivery that is no longer pending is reported by none. *)
Theorem GiveUp_reports `{!Reliable} (d : Delivery) (s : St DB) : exists s', GiveUp d s = (Ok tt, s') /\
  (forall r, r ∈ rows (db_deliveries (st_db s')) -> dl_id r = d_id d -> dl_id r < next_id (db_deliveries (st_db s)) ->
    pending r = false) /\
  let report := match d_event d with
    | Some e => negb (String.eqb (ev_type e) EventNotificationFailed) | None => true end
    && exists_row (fun r => is_delivery (d_id d) r && pending r) (db_deliveries (st_db s)) in
  exists new, rows (db_events (st_db s')) = rows (db_events (st_db s)) ++ new /\
    if report then exists e, new = [e] /\ recorded_as (given_up d) e else new = [].
Proof.
  unfold GiveUp. set (loop := match d_event d with None => false | Some e => _ end).
  assert (El : match d_event d with Some e => negb (String.eqb (ev_type e) EventNotificationFailed) | None => true end = negb loop)
    by (unfold loop; by destruct (d_event d)).
  rewrite El. destruct loop; simpl.
  - unfold FailDelivery, autocommit. rewrite tx_reliable. unfold bind, exec, ret. simpl. eexists. split; [done|]. simpl.
    split; [|by exists []; rewrite app_nil_r]. intros r Hr Hid Hlt. apply (elem_of_update (is_delivery (d_id d)) _ (db_deliveries (st_db s))) in Hr as (x & Hx & ->).
    unfold is_delivery in *. destruct (Z.eqb_spec (dl_id x) (d_id d)); [done|congruence].
  - unfold FailDeliveryAndEmit. rewrite tx_reliable. unfold bind at 1 2, query, exec. simpl.
    set (p := fun r => is_delivery (d_id d) r && pending r).
    destruct (Z.eqb_spec (count_where p (db_deliveries (st_db s))) 0) as [E|E].
    + rewrite (proj2 (exists_row_false p _)) by (by apply count_where_0). simpl. eexists. split; [done|]. simpl.
      split; [|by exists []; rewrite app_nil_r]. intros r Hr Hid _. rewrite count_where_0 in E. specialize (E r Hr). unfold p, is_delivery in E.
      by rewrite Hid, Z.eqb_refl in E.
    + assert (Hex : exists_row p (db_deliveries (st_db s)) = true).
      { apply not_false_iff_true. intros F. apply E. apply count_where_0. by apply exists_row_false. }
      rewrite Hex. set (s1 := mkSt (on_deliveries _ (st_db s)) _).
      destruct (recordEvent_effect (given_up d) s1) as (e' & t & cs & s2 & E2 & Hrec & Hid & Ht & Hq & _).
      unfold emitEvent, bind. rewrite E2. simpl. eexists. split; [done|]. simpl.
      destruct Hq as (m & news & Hd & _ & Hf & Hids). rewrite Hd. simpl. split.
      * intros r Hr Hid' Hlt. apply elem_of_app in Hr as [Hr|Hr].
        { apply elem_of_map in Hr as (x & Hx & ->). destruct (p x) eqn:Ep; [done|].
          unfold p, is_delivery in Ep. by rewrite Hid', Z.eqb_refl in Ep. }
        { exfalso. assert (Hin : dl_id r ∈ map dl_id news) by (apply elem_of_map; by exists r). rewrite Hids in Hin.
          apply elem_of_map in Hin as (k & _ & Ek). simpl in Ek. lia. }
      * exists [e']. split; [done|]. by exists e'.
Qed.

End Worker.

Lemma claims_joinable_ops `{World} `{JSONText} (l : list Op) : claims_joinable (st_db (run_ops l start)).
Proof.
  intros r Hr Hp. destruct (alerts_have_events_ops l) as [Hd _]. apply (Hd r Hr). unfold pending in Hp. by apply bool_decide_eq_true in Hp.
Qed.

(** Two missed heartbeats on the way to one channel. *)
Definition alerted : St DB :=
  let rule := {| ru_id := 0; ru_org := 1; ru_channel := 1; ru_event_type := EventMissed; ru_enabled := true;
                 ru_created_at := zero_time; ru_job := 0; ru_repeat := None |} in
  @run_ops (steady Hour) plain_text
    [OpCreateChannel {| ch_id := 0; ch_org := 1; ch_name := "ops"; ch_kind := Webhook; ch_created_at := zero_time |} "sealed";
     OpCreateRule rule;
     OpEmitEvent (new_event 1 EventMissed "heartbeat" (PlText "backup") "" DtNone);
     OpEmitEvent (new_event 1 EventMissed "heartbeat" (PlText "mail") "" DtNone)] start.

Lemma claims_leased_witness : exists out s',
  @ClaimDueDeliveries (steady Hour) (2 * Hour) Minute (15 * Minute) 10 alerted = (Ok out, s') /\ map d_id out = [1] /\
  forall r, r ∈ claimable_rows (2 * Hour) 0 10 (st_db s') -> dl_id r ∉ [1].
Proof.
  destruct (@claims_leased (steady Hour) (steady_reliable Hour) (2 * Hour) Minute (15 * Minute) 10 alerted
    (@claims_joinable_ops (steady Hour) plain_text _)) as (out & s' & E & Hids & Hl & _).
  assert (Hout : map d_id out = [1]) by (rewrite Hids; vm_compute; reflexivity).
  exists out, s'. split; [exact E|split; [exact Hout|]]. intros r Hr. rewrite <- Hout. apply (Hl (2 * Hour) 0 10 r); [reflexivity|exact Hr].
Defined.

Lemma GiveUp_reports_witness :
  let d := {| d_id := 1; d_org := 1; d_event_id := 1; d_channel := 1; d_attempts := 9; d_state := DeliveryPending;
              d_next_attempt_at := zero_time; d_created_at := zero_time;
              d_event := Some (new_event 1 EventMissed "heartbeat" (PlText "backup") "" DtNone) |} in
  exists s', @GiveUp (steady Hour) plain_text d alerted = (Ok tt, s') /\
    List.length (rows (db_events (st_db s'))) = S (List.length (rows (db_events (st_db alerted)))).
Proof.
  intros d. destruct (@GiveUp_reports (steady Hour) plain_text (steady_reliable Hour) d alerted) as (s' & E & _ & new & En & Hn).
  exists s'. split; [exact E|]. vm_compute in Hn. destruct Hn as (e & -> & _). rewrite En, length_app. simpl. lia.
Defined.
