(* ===== verification/Runner.v ===== *)
(** * The runner ([internal/jobs/runner.go], [schedule.go])

    The scheduler's tick, the worker's claim-execute-finish, and the stale-run
    reaper, over the store's operations. Execution itself ([Executor.run]),
    cron expressions (a library) and the decryption of secrets (a library) are
    parameters. *)
From S2P Require Import Prelude GoTime Domain Sql Schema StoreEvents Utf8 Executor Failure Redact Capture StoreRuns StoreConfig StoreInv History.
Open Scope Z_scope.

(** ** [schedule.go] *)

Section Schedule.

(** [cronParser.Parse(expr)] and [sched.Next(now)]: [None] when the expression does not parse. *)
Variable cron_next : string -> Time -> option Time.

(** [Job.NextRun]; [None] is its error. *)
Definition NextRun (j : Job) (now : Time) : option Time :=
  if negb (String.eqb (j_cron j) "") then cron_next (j_cron j) now
  else if 0 <? j_interval_seconds j then Some (TimeAdd now (secs (j_interval_seconds j)))
  else if negb (IsZero (j_run_at j)) then
    if After (j_run_at j) now then Some (j_run_at j) else Some zero_time
  else None.

(** for a cron library that keeps its word, and an interval that fits a
    duration, the next run is strictly after now or never (zero). *)
Theorem NextRun_after (j : Job) (now next : Time) :
  (forall expr t n, cron_next expr t = Some n -> n = zero_time \/ t < n) -> j_interval_seconds j <= max_secs ->
  NextRun j now = Some next -> next = zero_time \/ now < next.
Proof.
  intros Hc Hi. unfold NextRun, TimeAdd, After. destruct (negb (String.eqb _ _)); [apply Hc|].
  destruct (Z.ltb_spec 0 (j_interval_seconds j)).
  - intros [= <-]. right. rewrite secs_small by lia. unfold Second. lia.
  - destruct (negb (IsZero _)); [|done]. destruct (Z.ltb_spec now (j_run_at j)); intros [= <-]; auto.
Qed.

End Schedule.

(** An interval past 292 years wraps around: its next run is in the past, so
    the job would be due on every tick. *)
Definition wrapping_job : Job :=
  {| j_id := 1; j_org := 1; j_name := "rarely"; j_type := Shell; j_command := "true"; j_http_url := ""; j_http_method := "";
     j_http_body := ""; j_cron := ""; j_interval_seconds := 9223372037; j_run_at := zero_time; j_timeout_seconds := 0;
     j_max_retries := 0; j_enabled := true; j_env := ∅; j_spec := None; j_next_run_at := zero_time;
     j_created_at := zero_time; j_updated_at := zero_time |}.

(** an interval longer than a [time.Duration] holds wraps around, and the
    next run of the job it schedules lies in the past. *)
Theorem NextRun_wraps (cron_next : string -> Time -> option Time) :
  exists next, NextRun cron_next wrapping_job (300 * 365 * 24 * Hour) = Some next /\ next < 300 * 365 * 24 * Hour /\
    next <> zero_time.
Proof. eexists. split; [reflexivity|]. vm_compute. split; congruence. Qed.

Lemma NextRun_after_witness :
  NextRun (fun _ t => Some (t + 24 * Hour)) flaky_job Hour <> None /\
  (default zero_time (NextRun (fun _ t => Some (t + 24 * Hour)) flaky_job Hour) = zero_time \/
   Hour < default zero_time (NextRun (fun _ t => Some (t + 24 * Hour)) flaky_job Hour)).
Proof.
  split; [vm_compute; discriminate|].
  apply (NextRun_after (fun _ t => Some (t + 24 * Hour)) flaky_job Hour).
  - intros expr t n [= <-]. right. unfold Hour, Minute, Second. lia.
  - vm_compute. congruence.
  - vm_compute. reflexivity.
Defined.

(** ** [runner.go] *)

Definition reapSlack : Duration := 2 * Minute.
Definition finishRetryPauses : list Duration := [250 * Millisecond; Second; 4 * Second].
Definition workerID : string := "runner".

(** [inFlight]: the runs this process is executing, with their claim-time limits. *)
Abbreviation InFlight := (gmap Z Duration).
Definition inFlight_add (runID : Z) (limit : Duration) (f : InFlight) : InFlight := <[runID := limit]> f.
Definition inFlight_remove (runID : Z) (f : InFlight) : InFlight := delete runID f.

(** *** Secret references *)

Definition quote : bytes := bstr dquote.

Definition name_char (c : ascii) : bool :=
  let n := byte_val c in
  ((48 <=? n) && (n <=? 57)) || ((65 <=? n) && (n <=? 90)) || ((97 <=? n) && (n <=? 122))
  || (n =? 95) || (n =? 46) || (n =? 45).

(** [\s] of a regular expression. *)
Definition re_space (c : ascii) : bool := bool_decide (byte_val c ∈ [9; 10; 12; 13; 32]).

Fixpoint span_chars (p : ascii -> bool) (s : bytes) : bytes * bytes :=
  match s with
  | c :: r => if p c then let '(a, b) := span_chars p r in (c :: a, b) else ([], s)
  | [] => ([], [])
  end.

Definition strip_prefix (p s : bytes) : option bytes := if has_prefix s p then Some (drop (List.length p) s) else None.

(** [secretRefRe] matched against the trimmed value: the name in a value that
    is exactly a secret reference. *)
Definition secretRef (value : string) : option string :=
  r ← strip_prefix (bstr "{{") (TrimSpace (bstr value));
  r ← strip_prefix (bstr "secret.") (drop_while re_space r);
  let '(name, r) := span_chars name_char r in
  if is_nil name then None
  else if bool_decide (drop_while re_space r = bstr "}}") then Some (string_of_list_ascii name) else None.

Example secretRef_yes : secretRef " {{ secret.db-pass }}" = Some "db-pass".
Proof. vm_compute. reflexivity. Qed.
Example secretRef_no : map secretRef ["Bearer {{ secret.x }}"; "{{ secret. }}"; "{{secret.a b}}"] = [None; None; None].
Proof. vm_compute. reflexivity. Qed.

Section Runner.
Context `{World} `{JSONText}.
Variable cron_next : string -> Time -> option Time.
Variable Backoff : option (Z -> Duration).

Definition with_next_run_at (j : Job) (t : Time) : Job :=
  {| j_id := j_id j; j_org := j_org j; j_name := j_name j; j_type := j_type j; j_command := j_command j;
     j_http_url := j_http_url j; j_http_method := j_http_method j; j_http_body := j_http_body j; j_cron := j_cron j;
     j_interval_seconds := j_interval_seconds j; j_run_at := j_run_at j; j_timeout_seconds := j_timeout_seconds j;
     j_max_retries := j_max_retries j; j_enabled := j_enabled j; j_env := j_env j; j_spec := j_spec j;
     j_next_run_at := t; j_created_at := j_created_at j; j_updated_at := j_updated_at j |}.

(** The text of the error that made a job unreadable. *)
Variable describe : Unreadable -> bytes.

(** [UnreadableRunOutput]. *)
Definition UnreadableRunOutput (u : Unreadable) : bytes :=
  bstr "FAIL: the job's definition cannot be read, so it was not run and is no longer scheduled: " ++ describe u
  ++ [nl; nl] ++ bstr "Fix it with tend sync (the job's entry overwrites the row), or remove it with tend job rm "
  ++ bstr (un_name u) ++ bstr ".".

(** The errors of a computation, in order. *)
Definition errors {A} (r : res A) : list Err := match r with Ok _ => [] | Error e => [e] end.

(** The body of [Tick]'s first loop: the errors it records. *)
Definition tick_job (now : Time) (job : Job) : Store (list Err) :=
  let* r := try (EnqueueRun (j_org job) (j_id job)) in
  match r with
  | Error e => ret [e]
  | Ok _ =>
      match NextRun cron_next job now with
      | None =>
          let* u := try (UpdateJob (with_next_run_at job zero_time)) in
          ret (ErrSchedule :: errors u)
      | Some next =>
          let* u := try (UpdateJob (with_next_run_at job next)) in
          ret (errors u)
      end
  end.

(** The body of its second loop. *)
Definition tick_unreadable (u : Unreadable) : Store (list Err) :=
  let* r := try (FailUnreadableJob (un_org u) (un_job u) (un_name u) (UnreadableRunOutput u)) in
  ret (errors r).

Fixpoint collect {A} (f : A -> Store (list Err)) (l : list A) : Store (list Err) :=
  match l with
  | [] => ret []
  | x :: r => let* e := f x in let* es := collect f r in ret (e ++ es)
  end.

(** [Tick] at [now]; the code returns the first of these errors. *)
Definition Tick (now : Time) : Store (list Err) :=
  let* '(due, unreadable) := DueJobs now in
  let* e1 := collect (tick_job now) due in
  let* e2 := collect tick_unreadable unreadable in
  ret (e1 ++ e2).

(** [finish]'s loop: [tries] finish attempts are left, [cancelled] says
    whether the context is done after an attempt that failed (or during the
    pause that follows it). *)
Variable ctx_done : nat -> bool.

Fixpoint finish_loop (tries : nat) (run : Run) (status : RunStatus) (exitCode attempt : Z) (output : bytes) (ev : Event)
    : Store unit :=
  let* r := try (FinishRunAndEmit (r_id run) status exitCode attempt output ev) in
  match r with
  | Ok _ => ret tt
  | Error ErrRunNotRunning => ret tt
  | Error ErrRunGone => throw ErrRunGone
  | Error e =>
      match tries with
      | O => throw e
      | S tries' => if ctx_done tries then throw e else finish_loop tries' run status exitCode attempt output ev
      end
  end.

(** [finish]: one attempt, and one more after each of the pauses. *)
Definition finish (run : Run) (job : Job) (status : RunStatus) (exitCode attempt : Z) (output : bytes) (truncated : bool)
    (ev : Event) : Store unit :=
  let ev := if String.eqb (ev_type ev) EventRunFailed
            then with_detail ev (failureDetail job status exitCode output truncated) else ev in
  finish_loop (List.length finishRetryPauses) run status exitCode attempt output ev.

(** [Runner.box]: [None] without a master key; [Decrypt] may fail. *)
Variable box : option (string -> option string).
(** The text of an error of the store or of [Decrypt]. *)
Variable err_text : Err -> bytes.
Variable decrypt_error : string -> bytes.

(** The body of [resolveEnv]'s loop. *)
Definition resolve_value (org : Z) (value : string) : Store (string * option string) :=
  match secretRef value with
  | None => ret (value, None)
  | Some name =>
      let quoted := bstr "secret " ++ quote ++ bstr name ++ quote in
      match box with
      | None => throw (ErrText (quoted ++ bstr " referenced but no master key configured"))
      | Some decrypt =>
          let* r := try (GetSecret org name) in
          match r with
          | Error e => throw (ErrText (bstr "resolve " ++ quoted ++ bstr ": " ++ err_text e))
          | Ok ciphertext =>
              match decrypt ciphertext with
              | None => throw (ErrText (bstr "decrypt " ++ quoted ++ bstr ": " ++ decrypt_error ciphertext))
              | Some plain => ret (plain, Some plain)
              end
          end
      end
  end.

(** [resolveEnv]: the environment and the plaintext of the secrets in it. *)
Fixpoint resolve_all (org : Z) (l : list (string * string)) : Store (list (string * string) * list string) :=
  match l with
  | [] => ret ([], [])
  | (k, v) :: r =>
      let* '(v', secret) := resolve_value org v in
      let* '(env, secrets) := resolve_all org r in
      ret ((k, v') :: env, match secret with None => secrets | Some s => s :: secrets end)
  end.
Definition resolveEnv (job : Job) : Store (list (string * string) * list string) :=
  resolve_all (j_org job) (map_to_list (j_env job)).

(** The executor's run of a job with its environment, while the run is
    registered as in flight. *)
Variable execute : InFlight -> Job -> list (string * string) -> list string -> Store RunResult.

Definition terminal_type (s : RunStatus) : string :=
  if bool_decide (s = StatusSucceeded) then EventRunSucceeded else EventRunFailed.

(** [claimAndRun] from the load of the job on. *)
Definition run_claimed (inFlight : InFlight) (run : Run) : Store InFlight :=
  let* job := GetJob (r_org run) (r_job run) in
  let inFlight := inFlight_add (r_id run) (maxRunDuration Backoff job) inFlight in
  let* _ := try (EmitEvent (RunEvent run (j_name job) EventRunStarted StatusRunning 0)) in
  let* resolved := try (resolveEnv job) in
  match resolved with
  | Error e =>
      let out := bstr "secret resolution failed: " ++ (match e with ErrText t => t | _ => err_text e end) in
      finish run job StatusFailed (-1) (r_attempt run) out false (RunEvent run (j_name job) EventRunFailed StatusFailed (-1)) ;;;
      ret (inFlight_remove (r_id run) inFlight)
  | Ok (env, secrets) =>
      let* r := execute inFlight job env secrets in
      let out := storedOutput (rs_output r) (map bstr secrets) (rs_truncated r) in
      finish run job (rs_status r) (rs_exit_code r) (rs_attempt r) out (rs_truncated r)
        (RunEvent run (j_name job) (terminal_type (rs_status r)) (rs_status r) (rs_exit_code r)) ;;;
      ret (inFlight_remove (r_id run) inFlight)
  end.

(** [claimAndRun] for [claimant]: whether a run was claimed. *)
Definition claimAndRun (claimant : string) (inFlight : InFlight) : Store (bool * InFlight) :=
  let claimant := if String.eqb claimant "" then workerID else claimant in
  let* claimed := ClaimRun claimant in
  match claimed with
  | None => ret (false, inFlight)
  | Some run => let* inFlight := run_claimed inFlight run in ret (true, inFlight)
  end.

(** [ReapOnce]'s [withinWindow]. *)
Definition withinWindow (elapsed limit : Duration) : bool := (elapsed <? reapSlack) || (elapsed - reapSlack <? limit).

(** The reason of a reap; [ours] says that this process is executing the run. *)
Definition reap_reason (limit : Duration) (ours : bool) : bytes :=
  bstr "run still 'running' " ++ DurationString reapSlack ++ bstr " past its " ++ DurationString limit
  ++ bstr " time limit (" ++ bstr (if ours then "worker has not returned" else "worker lost") ++ bstr ")".

(** The body of [ReapOnce]'s loop for one running run. *)
Definition reap_run (inFlight : InFlight) (now : Time) (run : Run) : Store (list Err) :=
  if IsZero (r_started_at run) then ret []
  else
    let elapsed := TimeSub now (r_started_at run) in
    let ours := inFlight !! r_id run in
    if match ours with None => false | Some limit => withinWindow elapsed limit end then ret []
    else
      let* r := try (GetJob (r_org run) (r_job run)) in
      match r with
      | Error e => ret [e]
      | Ok job =>
          let limit := default (maxRunDuration Backoff job) ours in
          if (match ours with None => true | Some _ => false end) && withinWindow elapsed limit then ret []
          else
            let reason := bstr "reaped: " ++ reap_reason limit (bool_decide (is_Some ours)) in
            let ev := with_detail (RunEvent run (j_name job) EventRunFailed StatusFailed (-1))
                        (failureDetail job StatusFailed (-1) reason false) in
            let* reaped := try (ReapStaleRun (r_id run) reason ev) in
            ret (errors reaped)
      end.

(** [ReapOnce] at [now]; the code returns the first of these errors. *)
Definition ReapOnce (inFlight : InFlight) (now : Time) : Store (list Err) :=
  let* runs := ListRunningRuns in
  collect (reap_run inFlight now) runs.

End Runner.

(** ** A finish is recorded once *)

Section Finish.
Context `{World} `{JSONText}.

(** The run's row has the outcome, and exactly one event says so. *)
Definition outcome_recorded (run : Z) (status : RunStatus) (exitCode attempt : Z) (output : bytes) (d : DB) : Prop :=
  (exists r, r ∈ rows (db_runs d) /\ rr_id r = run /\ rr_status r = status /\ rr_exit_code r = exitCode /\
             rr_attempt r = attempt /\ rr_output r = output) /\
  List.length (verdicts run d) = 1%nat /\ one_verdict d.

Definition succeeds {A} (m : Store A) : Prop := forall s, exists a s', m s = (Ok a, s').

Lemma succeeds_emit e : succeeds (emitEvent e).
Proof.
  intros s. destruct (recordEvent_effect e s) as (e' & t & cs & s' & E & _). unfold emitEvent, bind. rewrite E. by eexists _, _.
Qed.

Lemma succeeds_recovery run ev : succeeds (emit_recovery run ev).
Proof.
  intros s. unfold emit_recovery, bind, query. destruct (previousRunStatus run (st_db s)) as [p|]; [|by eexists _, _].
  case_bool_decide; [by eexists _, _|]. destruct (succeeds_emit (RunRecoveredEvent ev run) s) as (a & s' & E). rewrite E. by eexists _, _.
Qed.

(** What follows the verdict leaves the runs and the verdicts alone. *)
Definition after_verdict (run : Z) (d d' : DB) : Prop := db_runs d' = db_runs d /\ verdicts run d' = verdicts run d.

#[local] Instance after_verdict_refl run : Reflexive (after_verdict run).
Proof. by intros d. Qed.
#[local] Instance after_verdict_trans run : Transitive (after_verdict run).
Proof. intros d1 d2 d3 [] []. split; congruence. Qed.

Lemma evolves_after_recovery run ev : evolves (after_verdict run) (emit_recovery run ev ;;; endStreak run).
Proof.
  assert (He : evolves (after_verdict run) (emitEvent (RunRecoveredEvent ev run))).
  { unfold emitEvent. apply evolves_bind; [apply _| |intros; apply evolves_ret; apply _].
    apply evolves_recordEvent. intros d d' Hr. split; [apply (record_step_frame _ _ _ Hr)|].
    destruct (verdicts_record _ d d' run Hr) as [e' E]. rewrite E. by rewrite app_nil_r. }
  unfold emit_recovery, endStreak, dropHeld. evolve; done.
Qed.

(** The row of a running run after its finish and its attempt are written. *)
Lemma finished_row run st ec out att now d : count_where (running run) (db_runs d) <> 0 ->
  exists r, r ∈ rows (db_runs (on_runs (update_where (is_run run) (fun r => rr_with_attempt r att))
                               (on_runs (update_where (running run) (fun r => rr_finish r st ec out now)) d))) /\
    rr_id r = run /\ rr_status r = st /\ rr_exit_code r = ec /\ rr_attempt r = att /\ rr_output r = out.
Proof.
  intros Hn. assert (Hex : exists r, r ∈ rows (db_runs d) /\ running run r = true).
  { apply exists_row_true. apply not_false_iff_true. intros F. apply Hn. apply count_where_0. by apply exists_row_false. }
  destruct Hex as (r & Hr & Hp). pose proof Hp as [Hid _]%running_true.
  exists (rr_with_attempt (rr_finish r st ec out now) att). split; [|done]. apply elem_of_update.
  exists (rr_finish r st ec out now). split.
  - apply elem_of_update. exists r. by rewrite Hp.
  - unfold is_run. simpl. by rewrite Hid, Z.eqb_refl.
Qed.

(** A success's recovery and the end of its streak do not fail, and leave the
    outcome as it is recorded. *)
Lemma outcome_after_recovery run ev st ec att out s : outcome_recorded run st ec att out (st_db s) ->
  exists s', (emit_recovery run ev ;;; endStreak run) s = (Ok tt, s') /\ outcome_recorded run st ec att out (st_db s').
Proof.
  intros (Hrow & Hlen & Hv). destruct (succeeds_recovery run ev s) as (u & s1 & E1).
  assert (exists s2, (emit_recovery run ev ;;; endStreak run) s = (Ok tt, s2)) as [s2 E2].
  { unfold bind at 1. rewrite E1. unfold endStreak, dropHeld, bind, exec. by eexists. }
  exists s2. split; [done|]. pose proof (evolves_after_recovery run ev s) as [Hr2 Hv2]. rewrite E2 in Hr2, Hv2. simpl in Hr2, Hv2.
  split; [by rewrite Hr2|]. split; [by rewrite Hv2|].
  assert (Hq : hoare one_verdict (emit_recovery run ev ;;; endStreak run) (fun _ => one_verdict)).
  { apply hoare_quiet. apply evolves_bind; [apply _|by apply evolves_emit_recovery|]. intros; apply evolves_endStreak. }
  specialize (Hq s Hv). by rewrite E2 in Hq.
Qed.

(** One attempt to finish a running run has its whole effect or none. *)
Lemma finish_attempt run st ec att out ev s :
  one_verdict (st_db s) -> terminal st = true -> EventRunID ev = run -> is_verdict ev = true ->
  count_where (running run) (db_runs (st_db s)) <> 0 ->
  let '(r, s') := FinishRunAndEmit run st ec att out ev s in
  (st_db s' = st_db s /\ r = Error ErrDatabase) \/
  (outcome_recorded run st ec att out (st_db s') /\ ((exists id, r = Ok id) \/ r = Error ErrDatabase)).
Proof.
  intros Hv Ht He Hev Hn. unfold FinishRunAndEmit, tx.
  set (body := finishRunTx run st ec out ;;; _).
  assert (Hbody : forall s0, st_db s0 = st_db s -> exists id s1, body s0 = (Ok (Commit id), s1) /\ outcome_recorded run st ec att out (st_db s1)).
  { intros s0 Hs0. unfold body, bind at 1, finishRunTx, bind at 1 2 3, now_, query, exec. simpl.
    rewrite Hs0. destruct (Z.eqb_spec (count_where (running run) (db_runs (st_db s))) 0); [done|]. simpl.
    set (fin := fun r => rr_finish r st ec out (clock (st_tick s0))).
    pose proof (finish_ready run (st_db s) fin Hv Hn ltac:(by intros)) as Hready.
    set (d1 := on_runs (update_where (running run) fin) (st_db s)) in *.
    unfold bind at 1. simpl. set (d2 := on_runs (update_where (is_run run) (fun r => rr_with_attempt r att)) d1).
    pose proof (ready_attempt run att d1 Hready) as Hready2. fold d2 in Hready2.
    pose proof (finished_row run st ec out att (clock (st_tick s0)) (st_db s) Hn) as Hrow. fold fin d1 d2 in Hrow.
    set (s2 := mkSt d2 _). destruct (recordEvent_effect ev s2) as (e' & t & cs & s3 & E3 & _).
    pose proof (recordEvent_step ev s2) as Hstep. rewrite E3 in Hstep. simpl in Hstep.
    unfold emitEvent at 1, bind at 1 2. rewrite E3. unfold ret at 1. unfold bind at 1.
    assert (Hone : List.length (verdicts run (st_db s3)) = 1%nat).
    { destruct (verdicts_record _ _ _ run Hstep) as [e2 E]. destruct Hready2 as (_ & Hnone & _). rewrite E, Hnone.
      unfold about. by rewrite Hev, He, Z.eqb_refl. }
    assert (Hv3 : one_verdict (st_db s3)) by (by eapply record_ready).
    assert (Hrec : outcome_recorded run st ec att out (st_db s3)).
    { split; [|done]. destruct (record_step_frame _ _ _ Hstep) as [-> _]. exact Hrow. }
    case_bool_decide as Hst.
    - destruct (outcome_after_recovery run ev st ec att out s3 Hrec) as (s5 & -> & Hrec5). by eexists _, s5.
    - unfold ret. eexists _, s3. split; [done|done]. }
  destruct (fault (st_tick s)) eqn:F0; [| by left |];
    (destruct (Hbody (mkSt (st_db s) (S (st_tick s))) eq_refl) as (id & s1 & E1 & Hrec); rewrite E1;
     destruct (fault (st_tick s1)); [right; split; [done|left; by eexists] | by left | right; split; [done|by right]]).
Qed.

Lemma finishRunTx_late run st ec out s : count_where (running run) (db_runs (st_db s)) = 0 ->
  exists e s', finishRunTx run st ec out s = (Error e, s') /\ (e = ErrRunNotRunning \/ e = ErrRunGone).
Proof.
  intros Hn. unfold finishRunTx, bind, now_, query, exec. simpl. rewrite Hn. simpl.
  match goal with |- context [exists_row ?p ?t] => destruct (exists_row p t) end; eexists _, _; (split; [done|auto]).
Qed.

(** An attempt to finish a run that has its outcome writes nothing. *)
Lemma finish_attempt_late run st ec att out ev s :
  count_where (running run) (db_runs (st_db s)) = 0 ->
  let '(r, s') := FinishRunAndEmit run st ec att out ev s in
  st_db s' = st_db s /\ (r = Error ErrDatabase \/ r = Error ErrRunNotRunning \/ r = Error ErrRunGone).
Proof.
  intros Hn. unfold FinishRunAndEmit, tx.
  destruct (fault (st_tick s)); [|by simpl; auto|];
    (destruct (finishRunTx_late run st ec out (mkSt (st_db s) (S (st_tick s))) Hn) as (e & s' & E & He);
     unfold bind at 1; rewrite E; simpl; destruct He as [-> | ->]; auto).
Qed.

Lemma outcome_not_running run st ec att out d : terminal st = true ->
  outcome_recorded run st ec att out d -> count_where (running run) (db_runs d) = 0.
Proof.
  intros Ht (_ & Hl & Hv). apply count_where_0. intros r Hr. apply not_true_iff_false. intros [Hid Hs]%running_true.
  destruct (proj2 (proj2 Hv run)) as [_ Hset]; [by destruct (verdicts run d)|].
  specialize (Hset r Hr Hid). rewrite Hs in Hset. done.
Qed.

Lemma finish_loop_late ctx_done tries run st ec att out ev s :
  terminal st = true -> outcome_recorded (r_id run) st ec att out (st_db s) ->
  outcome_recorded (r_id run) st ec att out (st_db (snd (finish_loop ctx_done tries run st ec att out ev s))).
Proof.
  intros Ht. revert s. induction tries as [|n IH]; intros s Ho; simpl; unfold bind, try;
    pose proof (finish_attempt_late (r_id run) st ec att out ev s (outcome_not_running _ _ _ _ _ _ Ht Ho)) as Hl;
    destruct (FinishRunAndEmit _ _ _ _ _ _ s) as [r s']; destruct Hl as [Hd [-> | [-> | ->]]]; simpl; rewrite ?Hd; try done.
  destruct (ctx_done (S n)); simpl; [by rewrite Hd|]. apply IH. by rewrite Hd.
Qed.

(** C2: the worker's retries record a result exactly once: from a run that is
    running, however often the database refuses the finish or commits it and
    loses the acknowledgement, the loop ends either with the outcome recorded
    by exactly one event, or with nothing written at all; and when it reports
    success the outcome is recorded. *)
Theorem finish_exactly_once (ctx_done : nat -> bool) (run : Run) (job : Job) (status : RunStatus) (exitCode attempt : Z)
    (output : bytes) (truncated : bool) (s : St DB) :
  one_verdict (st_db s) -> terminal status = true -> count_where (running (r_id run)) (db_runs (st_db s)) <> 0 ->
  let ev := RunEvent run (j_name job) (terminal_type status) status exitCode in
  let '(r, s') := finish ctx_done run job status exitCode attempt output truncated ev s in
  outcome_recorded (r_id run) status exitCode attempt output (st_db s') \/ (st_db s' = st_db s /\ exists e, r = Error e).
Proof.
  intros Hv Ht Hn ev. unfold finish.
  set (ev' := if String.eqb (ev_type ev) EventRunFailed then _ else ev).
  assert (He : EventRunID ev' = r_id run) by (unfold ev'; by destruct (String.eqb (ev_type ev) EventRunFailed)).
  assert (Hev : is_verdict ev' = true).
  { unfold ev', ev, is_verdict, terminal_type. destruct status; reflexivity. }
  clearbody ev'. generalize (List.length finishRetryPauses) as tries. intros tries. revert s Hv Hn.
  induction tries as [|n IH]; intros s Hv Hn; simpl; unfold bind, try;
    pose proof (finish_attempt (r_id run) status exitCode attempt output ev' s Hv Ht He Hev Hn) as Ha;
    destruct (FinishRunAndEmit _ _ _ _ _ _ s) as [r s'] eqn:E.
  - destruct Ha as [[Hd ->]|[Ho [[id ->] | ->]]]; simpl; [right; split; [done|by eexists]|by left|by left].
  - destruct Ha as [[Hd ->]|[Ho [[id ->] | ->]]]; simpl; [|by left|].
    + destruct (ctx_done (S n)); simpl; [right; split; [done|by eexists]|].
      specialize (IH s'). rewrite Hd in IH. specialize (IH Hv Hn).
      destruct (finish_loop _ _ _ _ _ _ _ _ s') as [r2 s2]. exact IH.
    + destruct (ctx_done (S n)); simpl; [by left|].
      pose proof (finish_loop_late ctx_done n run status exitCode attempt output ev' s' Ht Ho) as Hlate.
      destruct (finish_loop _ _ _ _ _ _ _ _ s') as [r2 s2]. by left.
Qed.

End Finish.

(** A database that takes the first finish of run 1 and loses the
    acknowledgement: the retry finds the run finished. *)
Definition forgetful : World :=
  {| clock n := Hour + Z.of_nat n * Second; fault n := if (n =? 12)%nat then AckLost else NoFault |}.

Definition claimed_run : St DB :=
  @run_ops (steady Hour) plain_text [OpCreateJob flaky_job; OpEnqueueRun 1 1; OpClaimRun "runner"] start.

Definition the_run : Run :=
  {| r_id := 1; r_org := 1; r_job := 1; r_status := StatusRunning; r_attempt := 1; r_exit_code := 0; r_output := [];
     r_claimed_by := "runner"; r_started_at := zero_time; r_ended_at := zero_time; r_created_at := zero_time |}.

Lemma finish_exactly_once_witness :
  let '(r, s') := @finish forgetful plain_text (fun _ => false) the_run flaky_job StatusSucceeded 0 1 [] false
     (RunEvent the_run (j_name flaky_job) (terminal_type StatusSucceeded) StatusSucceeded 0) claimed_run in
  @outcome_recorded plain_text (r_id the_run) StatusSucceeded 0 1 [] (st_db s') \/ (st_db s' = st_db claimed_run /\ exists e, r = Error e).
Proof.
  apply (@finish_exactly_once forgetful plain_text (fun _ => false) the_run flaky_job StatusSucceeded 0 1 [] false claimed_run).
  - apply (@one_verdict_ops (steady Hour) plain_text); [apply one_verdict_start|repeat constructor].
  - reflexivity.
  - vm_compute. congruence.
Defined.

(** ** The reaper leaves healthy runs alone *)

Lemma withinWindow_spec elapsed limit : withinWindow elapsed limit = true <-> elapsed < reapSlack \/ elapsed < reapSlack + limit.
Proof. unfold withinWindow. rewrite orb_true_iff, !Z.ltb_lt. lia. Qed.

(** [GetJob] may fail, but hands out the job as it is stored. *)
Lemma GetJob_result `{World} org id s : exists r s', GetJob org id s = (r, s') /\ st_db s' = st_db s.
Proof.
  unfold GetJob, autocommit, bind, tx, query, ret. simpl.
  destruct (fault (st_tick s)); simpl; try (by eexists _, _);
    destruct (fault (S (st_tick s))); simpl; try (by eexists _, _);
    unfold scan_one_job; destruct (select1 _ _) as [r|]; simpl; try (by eexists _, _);
    destruct (scanJob r); by eexists _, _.
Qed.

(** A job the reaper may judge a run of another process by. *)
Definition current_job `{World} (run : Run) (job : Job) (s : St DB) : Prop := fst (GetJob (r_org run) (r_job run) s) = Ok job.

(** the reaper writes nothing about a run that is still within its window:
    for a run this process executes the limit it had when it was claimed,
    whatever the job's definition says now; for any other the current one. *)
Theorem reaper_spares `{World} `{JSONText} Backoff (inFlight : InFlight) (now : Time) (run : Run) (s : St DB) :
  match inFlight !! r_id run with
  | Some limit => TimeSub now (r_started_at run) < reapSlack + limit
  | None => forall job, current_job run job s -> TimeSub now (r_started_at run) < reapSlack + maxRunDuration Backoff job
  end -> st_db (snd (reap_run Backoff inFlight now run s)) = st_db s.
Proof.
  intros Hin. unfold reap_run. destruct (IsZero (r_started_at run)); [done|].
  destruct (inFlight !! r_id run) as [limit|] eqn:E; simpl.
  - rewrite (proj2 (withinWindow_spec _ limit)) by auto. done.
  - unfold bind at 1, try at 1. destruct (GetJob_result (r_org run) (r_job run) s) as (r & s' & E1 & Hd). rewrite E1.
    destruct r as [job|e]; simpl; [|done].
    rewrite (proj2 (withinWindow_spec _ _)); [done|]. right. apply Hin. unfold current_job. by rewrite E1.
Qed.

(** a healthy run is never reaped: if its attempts respect their timeout
    and its execution starts within the slack of its claim, then until it is
    over the reaper, judging it by the definition it executes, leaves it alone. *)
Theorem healthy_run_spared `{World} `{JSONText} (Backoff : option (Z -> Duration))
    (runOnce : Z -> Time -> RunResult) (cancelled_at : option Time) (job : Job) (run : Run) (inFlight : InFlight)
    (begins now : Time) (s : St DB) :
  attempt_bounded runOnce job -> maxRunDuration Backoff job < forever ->
  r_started_at run <= begins < r_started_at run + reapSlack ->
  now <= snd (Executor.run Backoff runOnce cancelled_at job begins) ->
  inFlight !! r_id run = Some (maxRunDuration Backoff job) ->
  st_db (snd (reap_run Backoff inFlight now run s)) = st_db s.
Proof.
  intros Hb Hlt Hst Hnow Hin. pose proof (run_bound Backoff runOnce cancelled_at job begins Hb Hlt) as Hr.
  assert (0 <= maxRunDuration Backoff job).
  { rewrite maxRunDuration_sum. pose proof (attempt_timeout_range job). pose proof (grace_pos job).
    pose proof (exact_rest_nonneg Backoff (attempt_timeout job + grace job) (Z.to_nat (max_attempts job - 1)) 1). lia. }
  unfold reap_run. destruct (IsZero (r_started_at run)); [done|]. rewrite Hin. simpl.
  rewrite (proj2 (withinWindow_spec _ _)); [done|]. right. unfold TimeSub, min_int64, reapSlack, Minute, Second in *. lia.
Qed.

Lemma reaper_spares_witness :
  st_db (snd (@reap_run (steady Hour) plain_text None ∅ (Hour + Minute)
    {| r_id := 1; r_org := 1; r_job := 1; r_status := StatusRunning; r_attempt := 1; r_exit_code := 0; r_output := [];
       r_claimed_by := "runner"; r_started_at := Hour; r_ended_at := zero_time; r_created_at := zero_time |} claimed_run))
  = st_db claimed_run.
Proof.
  apply (@reaper_spares (steady Hour) plain_text None ∅ (Hour + Minute)).
  rewrite lookup_empty. intros job Hj. vm_compute in Hj. injection Hj as <-. vm_compute. reflexivity.
Defined.

Lemma healthy_run_spared_witness :
  let run := {| r_id := 1; r_org := 1; r_job := 1; r_status := StatusRunning; r_attempt := 1; r_exit_code := 0; r_output := [];
       r_claimed_by := "runner"; r_started_at := Hour; r_ended_at := zero_time; r_created_at := zero_time |} in
  st_db (snd (@reap_run (steady Hour) plain_text None {[1 := maxRunDuration None flaky_job]} (Hour + 30 * Second) run
    claimed_run)) = st_db claimed_run.
Proof.
  intros run. apply (@healthy_run_spared (steady Hour) plain_text None flaky_once None flaky_job run _ Hour).
  - intros attempt t. unfold flaky_once. simpl. change (attempt_timeout flaky_job + grace flaky_job) with (15 * Second).
    unfold Second. lia.
  - reflexivity.
  - vm_compute. split; congruence.
  - vm_compute. congruence.
  - reflexivity.
Defined.

(** ** The tick keeps runs from overlapping *)

Section Tick.
Context `{World} `{JSONText}.
Variable cron_next : string -> Time -> option Time.
Variable describe : Unreadable -> bytes.

(** The pending and running runs of a job. *)
Definition live_runs (jobID : Z) (t : Table RunRow) : list RunRow :=
  select (fun r => (rr_job r =? jobID) && live (rr_status r)) t.

(** No job has two runs that are pending or running. *)
Definition no_overlap (d : DB) : Prop := forall jobID, (List.length (live_runs jobID (db_runs d)) <= 1)%nat.

(** Runs were appended; the live ones are of some of the jobs [js], in order. *)
Definition adds_live (js : list Z) (d d' : DB) : Prop := exists l,
  rows (db_runs d') = rows (db_runs d) ++ l /\
  map rr_job (List.filter (fun r => live (rr_status r)) l) `sublist_of` js.

Lemma adds_none d d' : db_runs d' = db_runs d -> adds_live [] d d'.
Proof. intros E. exists []. rewrite E, app_nil_r. split; [done|constructor]. Qed.

Lemma adds_trans js1 js2 d1 d2 d3 : adds_live js1 d1 d2 -> adds_live js2 d2 d3 -> adds_live (js1 ++ js2) d1 d3.
Proof.
  intros (l1 & E1 & S1) (l2 & E2 & S2). exists (l1 ++ l2). split; [by rewrite E2, E1, app_assoc|].
  rewrite List.filter_app, map_app. by apply sublist_app.
Qed.

Lemma adds_weaken js js' d d' : js `sublist_of` js' -> adds_live js d d' -> adds_live js' d d'.
Proof. intros Hs (l & E & S). exists l. split; [done|]. by etrans. Qed.

(** A transaction that adds at most what its body adds. *)
Lemma tx_adds {A} js (body : Store (Outcome A)) s :
  (forall s0, st_db s0 = st_db s -> adds_live js (st_db s0) (st_db (snd (body s0)))) ->
  adds_live js (st_db s) (st_db (snd (tx body s))).
Proof.
  intros Hb. assert (H0' : adds_live js (st_db s) (st_db s)) by (eapply adds_weaken; [apply sublist_nil_l|by apply adds_none]).
  unfold tx. specialize (Hb (mkSt (st_db s) (S (st_tick s))) eq_refl). simpl in Hb.
  destruct (fault (st_tick s)); simpl; try done;
    (destruct (body _) as [[[a|a]|e] s']; simpl; [destruct (fault (st_tick s')); simpl; done|done|done]).
Qed.

Lemma EnqueueRun_adds org job s : adds_live [job] (st_db s) (st_db (snd (EnqueueRun org job s))).
Proof.
  unfold EnqueueRun, autocommit. apply tx_adds. intros s0 _. unfold bind, now_, query, exec, ret. simpl.
  eexists [_]. split; [done|]. simpl. reflexivity.
Qed.

Lemma UpdateJob_adds j s : adds_live [] (st_db s) (st_db (snd (UpdateJob j s))).
Proof.
  unfold UpdateJob, autocommit. destruct (encodeSpec (j_spec j)); [|by apply adds_none]. apply tx_adds. intros s0 _. unfold bind, now_, query, exec, ret, throw. simpl.
  destruct (_ && _); simpl; [by apply adds_none|]. destruct (_ =? 0); by apply adds_none.
Qed.

Lemma FailUnreadableJob_adds org job name out s : adds_live [] (st_db s) (st_db (snd (FailUnreadableJob org job name out s))).
Proof.
  unfold FailUnreadableJob. apply tx_adds. intros s0 _. unfold bind at 1 2 3, now_, query, exec at 1. simpl.
  match goal with |- context [bind (recordEvent ?e) ?k ?x] =>
    pose proof (recordEvent_step e x) as Hr; unfold bind at 1; destruct (recordEvent e x) as [[a|a] s1] end;
    simpl in *; destruct (record_step_frame _ _ _ Hr) as [Hf _]; simpl in Hf;
    (eexists [_]; split; [simpl; rewrite Hf; reflexivity|simpl; constructor]).
Qed.

Lemma tick_job_adds now job s : adds_live [j_id job] (st_db s) (st_db (snd (tick_job cron_next now job s))).
Proof.
  pose proof (EnqueueRun_adds (j_org job) (j_id job) s) as He.
  unfold tick_job, bind at 1, try at 1. destruct (EnqueueRun _ _ s) as [[id|e] s1]; simpl in *; [|done].
  destruct (NextRun cron_next job now) as [next|]; unfold bind, try;
    (match goal with |- context [UpdateJob ?j s1] => pose proof (UpdateJob_adds j s1) as Hu; destruct (UpdateJob j s1) as [u s2] end);
    simpl in *; apply (adds_trans [j_id job] [] _ _ _ He Hu).
Qed.

Lemma collect_adds {A} (f : A -> Store (list Err)) (key : A -> list Z) l s :
  (forall x s, adds_live (key x) (st_db s) (st_db (snd (f x s)))) ->
  adds_live (concat (map key l)) (st_db s) (st_db (snd (collect f l s))).
Proof.
  intros Hf. revert s. induction l as [|x l IH]; intros s; simpl; [by apply adds_none|].
  pose proof (Hf x s) as Hx. unfold bind at 1. destruct (f x s) as [[e|e] s1]; simpl in *.
  - pose proof (IH s1) as Hr. unfold bind. destruct (collect f l s1) as [[es|e'] s2]; simpl in *; by eapply adds_trans.
  - eapply adds_weaken; [|exact Hx]. apply sublist_inserts_r. reflexivity.
Qed.

(** The jobs [scanJobs] reads, by id, are among the rows. *)
Lemma scanJobs_ids rs : map j_id (fst (scanJobs rs)) `sublist_of` map jr_id rs.
Proof.
  induction rs as [|r rs IH]; simpl; [constructor|]. destruct (scanJobs rs) as [out bad]. simpl in *.
  unfold scanJob. destruct (decodeTime (jr_run_at r)), (decodeTime (jr_created_at r)), (decodeTime (jr_updated_at r)),
    (decodeEnv (jr_env r)), (decodeSpec (jr_spec r)); simpl; by constructor.
Qed.

Lemma live_runs_app jobID t l : (forall t', rows t' = rows t ++ l ->
  live_runs jobID t' = live_runs jobID t ++ List.filter (fun r => (rr_job r =? jobID) && live (rr_status r)) l).
Proof. intros t' E. unfold live_runs, select. by rewrite E, List.filter_app. Qed.

Lemma filter_job_count jobID l :
  List.length (List.filter (fun r => (rr_job r =? jobID) && live (rr_status r)) l)
  = List.length (List.filter (fun i => i =? jobID) (map rr_job (List.filter (fun r => live (rr_status r)) l))).
Proof.
  induction l as [|r l IH]; simpl; [done|]. destruct (live (rr_status r)); simpl; destruct (rr_job r =? jobID); simpl; auto.
Qed.

Lemma sorted_count i l : StronglySorted Z.lt l -> (List.length (List.filter (fun x => x =? i)%Z l) <= 1)%nat.
Proof.
  induction l as [|x l IH]; intros Hs; simpl; [lia|]. apply StronglySorted_inv in Hs as [Hs Hf].
  destruct (Z.eqb_spec x i) as [->|]; [|by apply IH]. simpl.
  assert (E : List.filter (fun x => x =? i) l = []); [|rewrite E; simpl; lia].
  clear -Hf. induction l as [|y l IH]; simpl; [done|]. inversion Hf; subst.
  destruct (Z.eqb_spec y i); [lia|]. by apply IH.
Qed.

Lemma sublist_count {A} (p : A -> bool) l k : l `sublist_of` k -> (List.length (List.filter p l) <= List.length (List.filter p k))%nat.
Proof. induction 1; simpl; repeat case_match; simpl; lia. Qed.

(** a tick never makes two runs of one job overlap: if no job had two
    pending or running runs, none has after it, whatever the faults (an
    enqueue whose acknowledgement is lost included). *)
Theorem Tick_no_overlap (now : Time) (s : St DB) :
  db_wf (st_db s) -> no_overlap (st_db s) -> no_overlap (st_db (snd (Tick cron_next describe now s))).
Proof.
  intros Hw Hno. unfold Tick, bind at 1.
  assert (Hdue : exists r s1, DueJobs now s = (r, s1) /\ st_db s1 = st_db s /\
    (r = Error ErrDatabase \/ r = Ok (scanJobs (select (job_due now (st_db s)) (db_jobs (st_db s)))))).
  { unfold DueJobs, autocommit, tx, bind, query, ret. simpl. destruct (fault (st_tick s)); simpl;
      try (destruct (fault (S (st_tick s))); simpl); eexists _, _; (split; [reflexivity|]); auto. }
  destruct Hdue as (r & s1 & E1 & Hd1 & [-> | ->]); rewrite E1; simpl; [by rewrite Hd1|].
  pose proof (scanJobs_ids (select (job_due now (st_db s)) (db_jobs (st_db s)))) as Hids.
  destruct (scanJobs _) as [due bad]. simpl in Hids.
  assert (Hadds : adds_live (map j_id due) (st_db s) (st_db (snd ((let* e1 := collect (tick_job cron_next now) due in
     let* e2 := collect (tick_unreadable describe) bad in ret (e1 ++ e2)) s1)))).
  { pose proof (collect_adds (tick_job cron_next now) (fun j => [j_id j]) due s1 (tick_job_adds now)) as H1.
    assert (Hc : concat (map (fun j => [j_id j]) due) = map j_id due) by (clear; induction due; simpl; congruence).
    rewrite Hc, Hd1 in H1. unfold bind at 1. destruct (collect _ due s1) as [[e1|e1] s2]; simpl in *; [|done].
    pose proof (collect_adds (tick_unreadable describe) (fun _ => []) bad s2) as H2. unfold bind.
    destruct (collect _ bad s2) as [[e2|e2] s3]; simpl in *; (eapply adds_weaken; [|eapply adds_trans; [exact H1|apply H2]]);
      try (intros u s'; unfold tick_unreadable, bind, try;
           match goal with |- context [FailUnreadableJob ?a ?b ?c ?d s'] =>
             pose proof (FailUnreadableJob_adds a b c d s') as Hf; destruct (FailUnreadableJob a b c d s') as [x y] end; exact Hf);
      (assert (Hn : concat (map (fun _ : Unreadable => []) bad) = ([] : list Z)) by (clear; induction bad; simpl; congruence);
       rewrite Hn, app_nil_r; reflexivity). }
  destruct Hadds as (l & El & Sl). intros jobID. rewrite (live_runs_app jobID (db_runs (st_db s)) l _ El), length_app, filter_job_count.
  pose proof (sublist_count (fun i => i =? jobID) _ _ (transitivity Sl Hids)) as Hle.
  assert (Hs : StronglySorted Z.lt (map jr_id (select (job_due now (st_db s)) (db_jobs (st_db s))))).
  { apply StronglySorted_filter. unfold db_wf in Hw. decompose [and] Hw.
    match goal with Hj : table_wf jr_id _ |- _ => apply Hj end. }
  pose proof (sorted_count jobID _ Hs) as Hone.
  destruct (decide (jobID ∈ map jr_id (select (job_due now (st_db s)) (db_jobs (st_db s))))) as [Hin|Hnin].
  - apply elem_of_map in Hin as (j & Hj & ->). apply elem_of_select in Hj as [_ Hj]. unfold job_due in Hj. bsimpl.
    assert (E : live_runs (jr_id j) (db_runs (st_db s)) = []); [|rewrite E; simpl; lia].
    apply filter_none. by apply exists_row_false.
  - assert (E : List.filter (fun i => i =? jobID) (map jr_id (select (job_due now (st_db s)) (db_jobs (st_db s)))) = []).
    { apply filter_none. intros i Hi. apply Z.eqb_neq. by intros ->. }
    rewrite E in Hle. simpl in Hle. specialize (Hno jobID). lia.
Qed.

End Tick.

(** Two ticks over a job whose first run is still pending. *)
Definition interval_job : Job := with_next_run_at flaky_job Hour.

Lemma Tick_no_overlap_witness :
  no_overlap (st_db (snd (@Tick (steady (2 * Hour)) plain_text (fun _ _ => None) (fun _ => []) (2 * Hour)
    (@run_ops (steady Hour) plain_text [OpCreateJob interval_job; OpEnqueueRun 1 1] start)))).
Proof.
  apply (@Tick_no_overlap (steady (2 * Hour)) plain_text).
  - apply (@run_ops_wf (steady Hour) plain_text), empty_db_wf.
  - intros jobID. unfold live_runs, select. etrans; [apply filter_length_le|]. vm_compute. lia.
Defined.
