(* ===== verification/RunnerStart.v ===== *)
(** * The runner's goroutines ([Start] of [jobs/runner.go])

    [Start] requeues orphaned runs and then lets a scheduler, a reaper and
    some workers loop until the context ends. A step is one of them calling
    the store once, or moving on; between any two steps the others may move,
    and other processes may call the store. *)
From S2P Require Import Prelude GoTime Domain Sql Schema StoreEvents Executor Failure Redact Capture StoreRuns StoreHeartbeats StoreDeliveries StoreConfig StoreInv StoreSpec History Runner.
From stdpp Require Import relations.
Open Scope Z_scope.

(** ** The goroutines *)

(** The scheduler: before its ticker, with jobs left to enqueue and rows to
    report, with the next run of a job it has enqueued to write, or over. *)
Inductive Scheduler :=
| Waiting | Enqueuing (now : Time) (due : list Job) (bad : list Unreadable)
| Advancing (now : Time) (job : Job) (due : list Job) (bad : list Unreadable) | SchedulerOver.
Inductive Reaper := ReaperWaiting | Reaping (runs : list Run) | ReaperOver.
(** A worker: before [claimAndRun], in it with a run, in [sleep], or over. *)
Inductive Worker := Claiming | Working (run : Run) | Sleeping | WorkerOver.

Record Goroutines := mkGoroutines {
  store : St DB; ctx_over : bool; scheduler : Scheduler; reaper : Reaper; workers : list Worker }.

Section Start.
Context `{World} `{JSONText}.
Variable cron_next : string -> Time -> option Time.
Variable describe : Unreadable -> bytes.

(** The number of workers, and the requeue before any of them starts. *)
Definition defaultWorkers : nat := 2.
Definition Start (Workers : nat) (s : St DB) : res Goroutines :=
  match RequeueOrphanedRuns s with
  | (Error e, _) => Error e
  | (Ok _, s) => Ok (mkGoroutines s false Waiting ReaperWaiting (replicate (if Nat.ltb Workers 1 then defaultWorkers else Workers) Claiming))
  end.

(** The scheduler: [Tick], call by call. *)
Inductive scheduler_step (over : bool) : Scheduler * St DB -> Scheduler * St DB -> Prop :=
| sc_tick now s r s' : DueJobs now s = (r, s') ->
    scheduler_step over (Waiting, s) (match r with Ok (due, bad) => Enqueuing now due bad | Error _ => Waiting end, s')
| sc_enqueue now job due bad s r s' : EnqueueRun (j_org job) (j_id job) s = (r, s') ->
    scheduler_step over (Enqueuing now (job :: due) bad, s) (match r with Ok _ => Advancing now job due bad | Error _ => Enqueuing now due bad end, s')
| sc_advance now job due bad s :
    scheduler_step over (Advancing now job due bad, s)
      (Enqueuing now due bad, snd (UpdateJob (with_next_run_at job (default zero_time (NextRun cron_next job now))) s))
| sc_report now u bad s :
    scheduler_step over (Enqueuing now [] (u :: bad), s)
      (Enqueuing now [] bad, snd (FailUnreadableJob (un_org u) (un_job u) (un_name u) (UnreadableRunOutput describe u) s))
| sc_ticked now s : scheduler_step over (Enqueuing now [] [], s) (Waiting, s)
| sc_stop s : over = true -> scheduler_step over (Waiting, s) (SchedulerOver, s).

(** The reaper: [ReapOnce], which reaps or spares each run it has listed. *)
Inductive reaper_step (over : bool) : Reaper * St DB -> Reaper * St DB -> Prop :=
| re_sweep s r s' : ListRunningRuns s = (r, s') ->
    reaper_step over (ReaperWaiting, s) (match r with Ok runs => Reaping runs | Error _ => ReaperWaiting end, s')
| re_spare run runs s : reaper_step over (Reaping (run :: runs), s) (Reaping runs, s)
| re_reap run runs reason ev s : reaper_step over (Reaping (run :: runs), s) (Reaping runs, snd (ReapStaleRun (r_id run) reason ev s))
| re_swept s : reaper_step over (Reaping [], s) (ReaperWaiting, s)
| re_stop s : over = true -> reaper_step over (ReaperWaiting, s) (ReaperOver, s).

(** What a worker writes while it has [run]: events, and the run's outcome. *)
Inductive work (run : Run) : Op -> Prop :=
| wo_event ev : work run (OpEmitEvent ev)
| wo_finish status exitCode attempt output ev : terminal status = true -> work run (OpFinishRunAndEmit (r_id run) status exitCode attempt output ev).

(** A worker: [claimAndRun], and the pause when the queue is empty or it failed. *)
Inductive worker_step (over : bool) : Worker * St DB -> Worker * St DB -> Prop :=
| wk_claim claimant s r s' : over = false -> ClaimRun claimant s = (r, s') ->
    worker_step over (Claiming, s) (match r with Ok (Some run) => Working run | _ => Sleeping end, s')
| wk_work run o s : work run o -> worker_step over (Working run, s) (Working run, snd (run_op o s))
| wk_ran run s : worker_step over (Working run, s) (Claiming, s)
| wk_failed run s : worker_step over (Working run, s) (Sleeping, s)
| wk_wake s : worker_step over (Sleeping, s) (Claiming, s)
| wk_leave s : over = true -> worker_step over (Sleeping, s) (WorkerOver, s)
| wk_stop s : over = true -> worker_step over (Claiming, s) (WorkerOver, s).

(** The system, with the operations [others] of other processes. *)
Variable others : Op -> Prop.
Inductive go_step : Goroutines -> Goroutines -> Prop :=
| go_scheduler s s' over sc sc' re ws : scheduler_step over (sc, s) (sc', s') ->
    go_step (mkGoroutines s over sc re ws) (mkGoroutines s' over sc' re ws)
| go_reaper s s' over sc re re' ws : reaper_step over (re, s) (re', s') ->
    go_step (mkGoroutines s over sc re ws) (mkGoroutines s' over sc re' ws)
| go_worker s s' over sc re ws i w w' : ws !! i = Some w -> worker_step over (w, s) (w', s') ->
    go_step (mkGoroutines s over sc re ws) (mkGoroutines s' over sc re (<[i := w']> ws))
| go_other s over sc re ws o : others o -> go_step (mkGoroutines s over sc re ws) (mkGoroutines (snd (run_op o s)) over sc re ws)
| go_cancel s sc re ws : go_step (mkGoroutines s false sc re ws) (mkGoroutines s true sc re ws).

Definition go_steps : Goroutines -> Goroutines -> Prop := rtc go_step.

End Start.

(** ** Runs that are live *)

Section Live.
Context `{World} `{JSONText}.

Definition live_count (job : Z) (d : DB) : nat := List.length (live_runs job (db_runs d)).

(** No job has more live runs. *)
Definition not_livelier (d d' : DB) : Prop := forall job, (live_count job d' <= live_count job d)%nat.
#[export] Instance not_livelier_refl : Reflexive not_livelier.
Proof. intros d job. lia. Qed.
#[export] Instance not_livelier_trans : Transitive not_livelier.
Proof. intros d1 d2 d3 H1 H2 job. specialize (H1 job). specialize (H2 job). lia. Qed.

Lemma not_livelier_eq d d' : db_runs d' = db_runs d -> not_livelier d d'.
Proof. intros E job. unfold live_count. by rewrite E. Qed.

Lemma filter_map_le {A} (p : A -> bool) f l : (forall x, p (f x) = true -> p x = true) ->
  (List.length (List.filter p (map f l)) <= List.length (List.filter p l))%nat.
Proof.
  intros Hf. induction l as [|x l IH]; [done|]. simpl. specialize (Hf x). destruct (p (f x)); [rewrite Hf by done; simpl; lia|].
  destruct (p x); simpl; lia.
Qed.

Lemma filter_filter_le {A} (p q : A -> bool) l : (List.length (List.filter p (List.filter q l)) <= List.length (List.filter p l))%nat.
Proof. induction l as [|x l IH]; [done|]. simpl. destruct (q x); simpl; destruct (p x); simpl; lia. Qed.

(** An elementary step that adds no run adds no live one: only runs that are
    not over are ever updated. *)
Lemma micro_not_livelier d d' : micro any d d' -> next_id (db_runs d) <= next_id (db_runs d') /\
  (next_id (db_runs d') = next_id (db_runs d) -> not_livelier d d').
Proof.
  intros Hm. destruct Hm as [e d d' _ Hr|d mk|d p f Hp Hf|d p| | | | | | | | | | | | | | | |];
    try (split; [simpl; lia|intros _; by apply not_livelier_eq]).
  - destruct (record_step_frame _ _ _ Hr) as (E & _). rewrite E. split; [lia|intros _; by apply not_livelier_eq].
  - simpl. split; [lia|intros; lia].
  - simpl. split; [lia|]. intros _ job. unfold live_count, live_runs, select. apply filter_map_le. intros r. destruct (p r) eqn:Ep; [|done].
    intros Hl. destruct (Hf r) as (_ & _ & Ej & _). unfold live. rewrite (Hp r Ep). apply andb_true_iff in Hl as [Hj _]. rewrite Ej in Hj. by rewrite Hj.
  - simpl. split; [lia|]. intros _ job. apply filter_filter_le.
Qed.

Lemma msteps_not_livelier d d' : msteps any d d' -> next_id (db_runs d) <= next_id (db_runs d') /\
  (next_id (db_runs d') = next_id (db_runs d) -> not_livelier d d').
Proof.
  induction 1 as [|d1 d2 d3 Hm _ [IHn IH]]; [done|]. destruct (micro_not_livelier _ _ Hm) as [Hn Hl]. split; [lia|].
  intros E. etrans; [apply Hl; lia|apply IH; lia].
Qed.

(** The operations that insert no run. *)
Definition same_next (d d' : DB) : Prop := next_id (db_runs d') = next_id (db_runs d).
#[local] Instance same_next_refl : Reflexive same_next.
Proof. done. Qed.
#[local] Instance same_next_trans : Transitive same_next.
Proof. unfold same_next. intros d1 d2 d3. congruence. Qed.

Lemma same_next_record e : evolves same_next (recordEvent e).
Proof. apply evolves_recordEvent. intros d d' Hr. unfold same_next. by destruct (record_step_frame _ _ _ Hr) as (-> & _). Qed.
Lemma same_next_emit e : evolves same_next (emitEvent e).
Proof. unfold emitEvent. apply evolves_bind; [apply _|apply same_next_record|]. intros a. apply evolves_ret; apply _. Qed.
#[local] Hint Resolve same_next_record same_next_emit : evolves.
Lemma same_next_join_events l : evolves same_next (join_events l).
Proof. induction l as [|r l IH]; simpl; evolve. Qed.
Lemma same_next_releaseOne c now : evolves same_next (releaseOne c now).
Proof. unfold releaseOne, drop_one, saveAlertState, insertDelivery. evolve; done. Qed.
#[local] Hint Resolve same_next_join_events same_next_releaseOne : evolves.
Lemma same_next_release_all cs now : evolves same_next (release_all cs now).
Proof. induction cs as [|c cs IH]; simpl; evolve. Qed.
#[local] Hint Resolve same_next_release_all : evolves.

Definition inserts_run (o : Op) : bool := match o with OpEnqueueRun _ _ | OpFailUnreadableJob _ _ _ _ => true | _ => false end.
Lemma same_next_op o : inserts_run o = false -> evolves same_next (run_op o).
Proof. destruct o; intros Ho; try done; simpl; unfold ignore; unfold_all_ops; evolve; done. Qed.

(** What is queued is all that makes a job livelier. *)
Lemma snd_ignore {A} (m : Store A) s : st_db (snd (ignore m s)) = st_db (snd (m s)).
Proof. unfold ignore, bind, ret. by destruct (m s) as [[a|e] s']. Qed.

Lemma adds_live_count js d d' job : adds_live js d d' ->
  (live_count job d' <= live_count job d + List.length (List.filter (fun i => i =? job)%Z js))%nat.
Proof.
  intros (l & E & Hs). unfold live_count. rewrite (live_runs_app job (db_runs d) l _ E), length_app, filter_job_count.
  pose proof (sublist_count (fun i => i =? job) _ _ Hs). lia.
Qed.

Lemma op_not_livelier o s : db_wf (st_db s) -> (forall org job, o <> OpEnqueueRun org job) -> not_livelier (st_db s) (st_db (snd (run_op o s))).
Proof.
  intros Hw Ho. destruct (inserts_run o) eqn:Ei.
  - destruct o; try done; [|by destruct (Ho org job)]. intros job'. simpl. rewrite snd_ignore.
    pose proof (adds_live_count _ _ _ job' (FailUnreadableJob_adds org job name output s)) as Hc. simpl in Hc. lia.
  - pose proof (run_op_steps any o (emits_all any o (fun _ => I)) (fun _ _ => I) s Hw) as Hs. apply (msteps_not_livelier _ _ Hs). by apply same_next_op.
Qed.

Lemma EnqueueRun_count org job s job' :
  (live_count job' (st_db (snd (EnqueueRun org job s))) <= live_count job' (st_db s) + (if (job =? job')%Z then 1 else 0))%nat.
Proof. pose proof (adds_live_count _ _ _ job' (EnqueueRun_adds org job s)) as Hc. simpl in Hc. destruct (job =? job'); simpl in Hc; lia. Qed.

End Live.

(** The jobs a tick has yet to enqueue. *)
Definition due_of (sc : Scheduler) : list Job := match sc with Enqueuing _ due _ | Advancing _ _ due _ => due | _ => [] end.

(** ** What a step calls *)

Section Calls.
Context `{World} `{JSONText}.
Variable cron_next : string -> Time -> option Time.
Variable describe : Unreadable -> bytes.

(** Other processes do what they like but queue runs: [tend run] and the
    dashboard's run-now queue one whatever else is queued. *)
Definition queues_nothing (o : Op) : Prop := forall org job, o <> OpEnqueueRun org job.

(** The database as it was, or as one operation left it. *)
Definition calls (P : Op -> Prop) (s s' : St DB) : Prop :=
  st_db s' = st_db s \/ exists o, P o /\ st_db s' = st_db (snd (run_op o s)).

Lemma calls_none P s : calls P s s.
Proof. by left. Qed.
Lemma calls_op (P : Op -> Prop) o s : P o -> calls P s (snd (run_op o s)).
Proof. intros Ho. right. by exists o. Qed.
Lemma calls_ignored {A} (P : Op -> Prop) (m : Store A) o s r s' : run_op o = ignore m -> m s = (r, s') -> P o -> calls P s s'.
Proof. intros Eo Em Ho. right. exists o. split; [done|]. by rewrite Eo, snd_ignore, Em. Qed.
Lemma calls_read {A} P (f : DB -> A) s r s' : autocommit (query f) s = (r, s') -> calls P s s'.
Proof. intros E. pose proof (autocommit_query f s) as Hq. rewrite E in Hq. left. apply Hq. Qed.
#[local] Hint Resolve calls_none : core.

Lemma calls_wf P s s' : calls P s s' -> db_wf (st_db s) -> db_wf (st_db s').
Proof. intros [->|(o & _ & ->)] Hw; [done|]. by apply (run_ops_wf [o]). Qed.

Lemma calls_repend_none s s' : calls no_requeue s s' -> no_repending (st_db s) (st_db s').
Proof. intros [E|(o & Ho & ->)]; [apply no_repending_eq; by rewrite E|by apply no_repending_op]. Qed.

Lemma calls_not_livelier s s' : calls queues_nothing s s' -> db_wf (st_db s) -> not_livelier (st_db s) (st_db s').
Proof. intros [E|(o & Ho & ->)] Hw; [apply not_livelier_eq; by rewrite E|by apply op_not_livelier]. Qed.

Definition runners (o : Op) : Prop := no_requeue o /\ queues_nothing o.

Lemma reaper_calls over re s re' s' : reaper_step over (re, s) (re', s') -> calls runners s s'.
Proof.
  intros Hs. inversion Hs as [s0 r s1 E| |run runs reason ev s0| |]; subst; auto; [by eapply calls_read|].
  eapply (calls_ignored _ (ReapStaleRun _ _ _) (OpReapStaleRun _ _ _)); [reflexivity|apply surjective_pairing|done].
Qed.

Lemma worker_calls over w s w' s' : worker_step over (w, s) (w', s') -> calls runners s s'.
Proof.
  intros Hs. inversion Hs as [claimant s0 r s1 Ho E|run o s0 Hwo| | | | |]; subst; auto.
  - by eapply (calls_ignored _ (ClaimRun claimant) (OpClaimRun claimant)).
  - apply calls_op. by destruct Hwo.
Qed.

(** The scheduler's calls, but for the one that queues a run. *)
Lemma scheduler_calls over sc s sc' s' : scheduler_step cron_next describe over (sc, s) (sc', s') ->
  calls runners s s' /\ (sc' = sc \/ due_of sc' = due_of sc \/ sc = Waiting) \/ exists job, due_of sc = job :: due_of sc' /\ exists r, EnqueueRun (j_org job) (j_id job) s = (r, s').
Proof.
  intros Hs. inversion Hs as [now s0 r s1 E|now job due bad s0 r s1 E|now job due bad s0|now u bad s0|now s0|s0 Ho]; subst.
  - left. split; [by eapply calls_read|auto].
  - right. exists job. split; [by destruct r|]. by exists r.
  - left. split; [by apply (calls_op _ (OpUpdateJob _))|auto].
  - left. split; [|auto]. eapply (calls_ignored _ (FailUnreadableJob _ _ _ _) (OpFailUnreadableJob _ _ _ _)); [reflexivity|apply surjective_pairing|done].
  - left. auto.
  - left. auto.
Qed.

Lemma scheduler_requeues_none over sc s sc' s' : scheduler_step cron_next describe over (sc, s) (sc', s') -> calls no_requeue s s'.
Proof.
  intros [[[E|(o & [Ho _] & E)] _]|(job & _ & r & E)]%scheduler_calls; [by left|right; by exists o|].
  by eapply (calls_ignored _ (EnqueueRun _ _) (OpEnqueueRun _ _)).
Qed.

Lemma calls_weaken (P Q : Op -> Prop) s s' : (forall o, P o -> Q o) -> calls P s s' -> calls Q s s'.
Proof. intros HPQ [E|(o & Ho & E)]; [by left|right]. exists o. auto. Qed.

End Calls.

(** ** No overlap *)

Section NoOverlap.
Context `{World} `{JSONText}.
Variable cron_next : string -> Time -> option Time.
Variable describe : Unreadable -> bytes.

(** Every job the scheduler has left to enqueue is idle, and there once. *)
Definition waits_idle (due : list Job) (d : DB) : Prop := NoDup (map j_id due) /\ forall j, j ∈ due -> live_count (j_id j) d = 0%nat.
Definition overlap_inv (g : Goroutines) : Prop :=
  db_wf (st_db (store g)) /\ no_overlap (st_db (store g)) /\ waits_idle (due_of (scheduler g)) (st_db (store g)).

Lemma waits_idle_nil d : waits_idle [] d.
Proof. split; [constructor|]. intros j []%not_elem_of_nil. Qed.

Lemma overlap_calm d d' due : not_livelier d d' -> no_overlap d -> waits_idle due d -> no_overlap d' /\ waits_idle due d'.
Proof.
  intros Hl Hno [Hnd Hi]. split; [intros job; specialize (Hl job); specialize (Hno job); unfold live_count in Hl; lia|].
  split; [done|]. intros j Hj. specialize (Hl (j_id j)). specialize (Hi j Hj). lia.
Qed.

Lemma calls_calm s s' due : calls queues_nothing s s' -> db_wf (st_db s) -> no_overlap (st_db s) -> waits_idle due (st_db s) ->
  db_wf (st_db s') /\ no_overlap (st_db s') /\ waits_idle due (st_db s').
Proof. intros Hc Hw Hno Hi. split; [by eapply calls_wf|]. eapply overlap_calm; [by apply calls_not_livelier|done..]. Qed.

(** What a tick starts with. *)
Lemma DueJobs_idle now s due bad s' : db_wf (st_db s) -> DueJobs now s = (Ok (due, bad), s') -> st_db s' = st_db s /\ waits_idle due (st_db s).
Proof.
  intros Hw E. pose proof (autocommit_query (fun d => scanJobs (select (job_due now d) (db_jobs d))) s) as Hq.
  unfold DueJobs in E. rewrite E in Hq. destruct Hq as (-> & _ & [[= Ej]|[e [=]]]). split; [done|].
  pose proof (scanJobs_ids (select (job_due now (st_db s)) (db_jobs (st_db s)))) as Hids. rewrite <- Ej in Hids. simpl in Hids.
  assert (Hs : StronglySorted Z.lt (map jr_id (select (job_due now (st_db s)) (db_jobs (st_db s))))) by (apply StronglySorted_filter, Hw).
  split; [eapply sublist_NoDup; [|exact Hids]; by apply NoDup_sorted|]. intros j Hj.
  assert (Hin : j_id j ∈ map jr_id (select (job_due now (st_db s)) (db_jobs (st_db s)))).
  { eapply elem_of_sublist; [|exact Hids]. by apply list_elem_of_In, in_map, list_elem_of_In. }
  apply elem_of_map in Hin as (x & Hx & ->). apply elem_of_select in Hx as [_ Hx]. unfold job_due in Hx. bsimpl.
  unfold live_count, live_runs, select. rewrite filter_none; [done|]. by apply exists_row_false.
Qed.

Lemma EnqueueRun_inv job due s r s' : db_wf (st_db s) -> no_overlap (st_db s) -> waits_idle (job :: due) (st_db s) ->
  EnqueueRun (j_org job) (j_id job) s = (r, s') -> db_wf (st_db s') /\ no_overlap (st_db s') /\ waits_idle due (st_db s').
Proof.
  intros Hw Hno [Hnd Hi] E. assert (Hc : forall j, (live_count j (st_db s') <= live_count j (st_db s) + (if (j_id job =? j)%Z then 1 else 0))%nat).
  { intros j. pose proof (EnqueueRun_count (j_org job) (j_id job) s j) as Hc. by rewrite E in Hc. }
  split; [|split].
  - eapply (calls_wf (fun _ => True)); [|done]. by eapply (calls_ignored _ (EnqueueRun _ _) (OpEnqueueRun _ _)).
  - intros j. specialize (Hc j). specialize (Hno j). destruct (Z.eqb_spec (j_id job) j) as [<-|]; [|unfold live_count in Hc; lia].
    pose proof (Hi job ltac:(left)). unfold live_count in *. lia.
  - simpl in Hnd. apply NoDup_cons in Hnd as [Hn Hnd]. split; [done|]. intros j Hj. specialize (Hc (j_id j)). pose proof (Hi j ltac:(by right)).
    destruct (Z.eqb_spec (j_id job) (j_id j)) as [Ej|]; [|lia]. exfalso. apply Hn. rewrite Ej. by apply list_elem_of_In, in_map, list_elem_of_In.
Qed.

Lemma scheduler_inv over sc s sc' s' : scheduler_step cron_next describe over (sc, s) (sc', s') ->
  db_wf (st_db s) -> no_overlap (st_db s) -> waits_idle (due_of sc) (st_db s) ->
  db_wf (st_db s') /\ no_overlap (st_db s') /\ waits_idle (due_of sc') (st_db s').
Proof.
  intros Hs Hw Hno Hi. destruct (scheduler_calls _ _ _ _ _ _ _ Hs) as [[Hc Hsc]|(job & Ej & r & E)].
  - apply (calls_weaken _ queues_nothing) in Hc; [|by intros o [_ ?]].
    destruct Hsc as [->|[->| ->]]; [by eapply calls_calm..|]. inversion Hs as [now s0 r s1 E| | | | |]; subst; [|done].
    destruct r as [[due bad]|e]; [|by eapply calls_calm]. destruct (DueJobs_idle _ _ _ _ _ Hw E) as [-> Hd]. done.
  - rewrite Ej in Hi. by eapply EnqueueRun_inv.
Qed.

(** C4: No job ever has two runs that are pending or running, however the
    scheduler, the reaper and the workers interleave, call by call, with each
    other and with other processes that queue no run, and whatever the faults
    of the database: what a tick has read to be idle is still idle when it
    gets to it. *)
Theorem runner_never_overlaps Workers s g g' : db_wf (st_db s) -> no_overlap (st_db s) -> Start Workers s = Ok g ->
  go_steps cron_next describe queues_nothing g g' -> no_overlap (st_db (store g')).
Proof.
  intros Hw Hno Hg Hs. assert (Hinv : overlap_inv g).
  { unfold Start in Hg. destruct (RequeueOrphanedRuns s) as [[n|e] s1] eqn:E; [|done]. injection Hg as <-. unfold overlap_inv. simpl.
    eapply calls_calm; [|done|done|apply waits_idle_nil]. by eapply (calls_ignored _ RequeueOrphanedRuns OpRequeueOrphanedRuns). }
  clear Hg. induction Hs as [g|g1 g2 g3 Hstep _ IH]; [apply Hinv|]. apply IH. clear IH. destruct Hinv as (Hw1 & Hno1 & Hi1). unfold overlap_inv.
  destruct Hstep; simpl in *.
  - by eapply scheduler_inv.
  - eapply calls_calm; [|done..]. eapply calls_weaken; [|by eapply reaper_calls]. by intros o [_ ?].
  - eapply calls_calm; [|done..]. eapply calls_weaken; [|by eapply worker_calls]. by intros o [_ ?].
  - eapply calls_calm; [|done..]. by apply calls_op.
  - done.
Qed.

End NoOverlap.

(** ** One worker per run *)

Section OneWorker.
Context `{World} `{JSONText}.
Variable cron_next : string -> Time -> option Time.
Variable describe : Unreadable -> bytes.

(** A run that has been claimed: it is not pending, and will not be. *)
Definition taken (id : Z) (d : DB) : Prop :=
  id < next_id (db_runs d) /\ forall r, r ∈ rows (db_runs d) -> rr_id r = id -> rr_status r <> StatusPending.
Definition one_worker_each (ws : list Worker) (d : DB) : Prop :=
  (forall i run, ws !! i = Some (Working run) -> taken (r_id run) d) /\
  forall i j run run', ws !! i = Some (Working run) -> ws !! j = Some (Working run') -> r_id run = r_id run' -> i = j.

Lemma taken_kept id d d' : no_repending d d' -> taken id d -> taken id d'.
Proof.
  intros [Hn Hp] [Hlt Ht]. split; [lia|]. intros r Hr Hid Hs. destruct (Hp r Hr Hs) as [|(r0 & Hr0 & Hid0 & Hs0)]; [lia|].
  apply (Ht r0 Hr0); [congruence|done].
Qed.

Lemma workers_kept ws d d' : no_repending d d' -> one_worker_each ws d -> one_worker_each ws d'.
Proof. intros Hn [Ht Hu]. split; [|done]. intros i run Hi. eapply taken_kept; [done|by eapply Ht]. Qed.

(** A worker that lets go of its run, or never had one. *)
Lemma workers_free ws d i w : (forall run, w <> Working run) -> one_worker_each ws d -> one_worker_each (<[i := w]> ws) d.
Proof.
  intros Hw [Ht Hu]. assert (Hf : forall j run, <[i := w]> ws !! j = Some (Working run) -> ws !! j = Some (Working run)).
  { intros j run [(_ & E & _)|[_ Hj]]%list_lookup_insert_Some; [by destruct (Hw run)|done]. }
  split; [intros j run Hj; by eapply Ht, Hf|]. intros j k run run' Hj Hk. by eapply Hu; apply Hf.
Qed.

Lemma workers_take ws d i run : taken (r_id run) d -> (forall j run', ws !! j = Some (Working run') -> r_id run' <> r_id run) ->
  one_worker_each ws d -> one_worker_each (<[i := Working run]> ws) d.
Proof.
  intros Hr Hne [Ht Hu].
  assert (Hf : forall j run', <[i := Working run]> ws !! j = Some (Working run') -> j = i /\ run' = run \/ ws !! j = Some (Working run')).
  { intros j run' [(-> & E & _)|[_ Hj]]%list_lookup_insert_Some; [left; by simplify_eq|by right]. }
  split.
  - intros j run' [[_ ->]|Hj]%Hf; [done|by eapply Ht].
  - intros j k r1 r2 [[-> ->]|Hj]%Hf [[-> ->]|Hk]%Hf E; [done|by destruct (Hne k r2 Hk)|by destruct (Hne j r1 Hj)|by eapply Hu].
Qed.

Lemma worker_takes over ws i w s w' s' : db_wf (st_db s) -> ws !! i = Some w -> worker_step over (w, s) (w', s') ->
  one_worker_each ws (st_db s) -> one_worker_each (<[i := w']> ws) (st_db s').
Proof.
  intros Hw Hi Hs Ho. inversion Hs as [claimant s0 r s1 Hov E|run o s0 Hwo|run s0|run s0| | |]; subst.
  - assert (Hn : no_repending (st_db s) (st_db s')) by (apply calls_repend_none; by eapply (calls_ignored _ (ClaimRun claimant) (OpClaimRun claimant))).
    destruct r as [[run|]|e]; [|by apply workers_free, (workers_kept _ (st_db s))..].
    destruct (ClaimRun_claims claimant s run s' ltac:(apply Hw) E) as (Hlt & Hrun & r & Hr & Hid & Hp & _).
    apply workers_take; [split; [done|]; intros x Hx Ex; by rewrite (Hrun x Hx Ex)| |by eapply workers_kept].
    intros j run' Hj Eid. destruct Ho as [Ht _]. destruct (Ht j run' Hj) as [_ Hnp]. by apply (Hnp r Hr); congruence.
  - rewrite list_insert_id by done. eapply workers_kept; [|done]. apply no_repending_op. by destruct Hwo.
  - by apply workers_free.
  - by apply workers_free.
  - by apply workers_free.
  - by apply workers_free.
  - by apply workers_free.
Qed.

Definition worker_inv (g : Goroutines) : Prop := db_wf (st_db (store g)) /\ one_worker_each (workers g) (st_db (store g)).

Lemma go_step_worker_inv g g' : go_step cron_next describe no_requeue g g' -> worker_inv g -> worker_inv g'.
Proof.
  intros Hs [Hw Ho]. destruct Hs as [s s' over sc sc' re ws Hs|s s' over sc re re' ws Hs|s s' over sc re ws i w w' Hi Hs|s over sc re ws o Hop|]; simpl in *.
  - pose proof (scheduler_requeues_none _ _ _ _ _ _ _ Hs) as Hc. split; [by eapply calls_wf|]. eapply workers_kept; [by apply calls_repend_none|done].
  - pose proof (reaper_calls _ _ _ _ _ Hs) as Hc. split; [by eapply calls_wf|]. eapply workers_kept; [|done].
    apply calls_repend_none. eapply calls_weaken; [|done]. by intros o [? _].
  - split; [by eapply calls_wf, Hw; eapply worker_calls|]. by eapply worker_takes.
  - split; [by eapply (calls_wf no_requeue), Hw; apply calls_op|]. eapply workers_kept; [by apply no_repending_op|done].
  - done.
Qed.

(** No two workers ever have the same run, and no run a worker has is
    still up for another claim, however the goroutines of [Start] and other
    processes interleave, call by call, and whatever the faults of the
    database, as long as nobody else requeues orphaned runs. *)
Theorem one_worker_per_run Workers s g g' i j run run' : db_wf (st_db s) -> Start Workers s = Ok g ->
  go_steps cron_next describe no_requeue g g' ->
  workers g' !! i = Some (Working run) -> workers g' !! j = Some (Working run') ->
  (r_id run = r_id run' -> i = j) /\
  forall r, r ∈ rows (db_runs (st_db (store g'))) -> rr_id r = r_id run -> rr_status r <> StatusPending.
Proof.
  intros Hw Hg Hs Hi Hj. assert (Hinv : worker_inv g).
  { unfold Start in Hg. destruct (RequeueOrphanedRuns s) as [[n|e] s1] eqn:E; [|done]. injection Hg as <-. split; simpl.
    - eapply (calls_wf (fun _ => True)); [|done]. by eapply (calls_ignored _ RequeueOrphanedRuns OpRequeueOrphanedRuns).
    - split; [by intros k x [? _]%lookup_replicate|by intros k l x y [? _]%lookup_replicate]. }
  assert (Hinv' : worker_inv g') by (clear -Hs Hinv; induction Hs; [done|]; by eauto using go_step_worker_inv).
  destruct Hinv' as [_ [Ht Hu]]. split; [by apply Hu|]. by apply (Ht i run Hi).
Qed.

End OneWorker.

(** ** Stopping *)

Section Stopping.
Context `{World} `{JSONText}.
Variable cron_next : string -> Time -> option Time.
Variable describe : Unreadable -> bytes.
Variable others : Op -> Prop.

Definition all_over (g : Goroutines) : Prop := scheduler g = SchedulerOver /\ reaper g = ReaperOver /\ Forall (eq WorkerOver) (workers g).
Definition none_over (g : Goroutines) : Prop := scheduler g <> SchedulerOver /\ reaper g <> ReaperOver /\ Forall (fun w => w <> WorkerOver) (workers g).

Lemma scheduler_halts sc s : exists s', rtc (scheduler_step cron_next describe true) (sc, s) (SchedulerOver, s').
Proof.
  assert (Hw : forall s, exists s', rtc (scheduler_step cron_next describe true) (Waiting, s) (SchedulerOver, s')).
  { intros s0. exists s0. apply rtc_once. by constructor. }
  assert (He : forall now due bad s, exists s', rtc (scheduler_step cron_next describe true) (Enqueuing now due bad, s) (SchedulerOver, s')).
  { intros now due bad. induction due as [|job due IH]; intros s0.
    - revert s0. induction bad as [|u bad IH]; intros s0; [|destruct (IH (snd (FailUnreadableJob (un_org u) (un_job u) (un_name u) (UnreadableRunOutput describe u) s0))) as [s' Hs']].
      + destruct (Hw s0) as [s' Hs']. exists s'. eapply rtc_l; [by constructor|done].
      + exists s'. eapply rtc_l; [by constructor|done].
    - destruct (EnqueueRun (j_org job) (j_id job) s0) as [r s1] eqn:E. destruct r as [id|e].
      + destruct (IH (snd (UpdateJob (with_next_run_at job (default zero_time (NextRun cron_next job now))) s1))) as [s' Hs']. exists s'.
        eapply rtc_l; [by apply (sc_enqueue _ _ _ _ _ _ _ _ (Ok id))|]. eapply rtc_l; [by constructor|done].
      + destruct (IH s1) as [s' Hs']. exists s'. eapply rtc_l; [by apply (sc_enqueue _ _ _ _ _ _ _ _ (Error e))|done]. }
  destruct sc as [|now due bad|now job due bad|]; [apply Hw|apply He| |by exists s].
  destruct (He now due bad (snd (UpdateJob (with_next_run_at job (default zero_time (NextRun cron_next job now))) s))) as [s' Hs'].
  exists s'. eapply rtc_l; [by constructor|done].
Qed.

Lemma reaper_halts re s : rtc (reaper_step true) (re, s) (ReaperOver, s).
Proof.
  assert (Hw : rtc (reaper_step true) (ReaperWaiting, s) (ReaperOver, s)) by (apply rtc_once; by constructor).
  destruct re as [|runs|]; [done| |done]. induction runs as [|run runs IH]; (eapply rtc_l; [by constructor|done]).
Qed.

Lemma worker_halts w s : rtc (worker_step true) (w, s) (WorkerOver, s).
Proof.
  destruct w; [apply rtc_once; by constructor| |apply rtc_once; by constructor|done].
  eapply rtc_l; [by apply wk_ran|]. apply rtc_once. by constructor.
Qed.

Lemma workers_halt sc re s ws : forall done_,
  go_steps cron_next describe others (mkGoroutines s true sc re (done_ ++ ws)) (mkGoroutines s true sc re (done_ ++ replicate (List.length ws) WorkerOver)).
Proof.
  induction ws as [|w ws IH]; intros done_; [done|]. etrans.
  - apply (rtc_congruence (R := worker_step true) (fun p => mkGoroutines (snd p) true sc re (done_ ++ fst p :: ws)) _ (w, s) (WorkerOver, s)); [|apply worker_halts].
    intros [w1 s1] [w2 s2] Hs. simpl. replace (done_ ++ w2 :: ws) with (<[List.length done_ := w2]> (done_ ++ w1 :: ws)) by (by rewrite <- (Nat.add_0_r (List.length done_)), insert_app_r).
    eapply go_worker; [|done]. by rewrite list_lookup_middle.
  - specialize (IH (done_ ++ [WorkerOver])). rewrite <- !app_assoc in IH. exact IH.
Qed.

(** No goroutine of [Start] ends before its context does, and once that has
    ended all of them can end, wherever they are: none waits for another or
    for work that does not come, so [Start] returns. *)
Theorem start_stops Workers s g g' : Start Workers s = Ok g -> go_steps cron_next describe others g g' ->
  (ctx_over g' = false -> none_over g') /\
  (ctx_over g' = true -> exists g'', go_steps cron_next describe others g' g'' /\ all_over g'').
Proof.
  intros Hg Hs. split.
  - assert (H0' : none_over g).
    { unfold Start in Hg. destruct (RequeueOrphanedRuns s) as [[n|e] s1]; [|done]. injection Hg as <-. split_and!; [done..|]. by apply Forall_replicate. }
    clear Hg. induction Hs as [g|g1 g2 g3 Hstep Hs IH]; [done|]. intros Hover. apply IH; [|done]. clear IH.
    assert (Hg2 : ctx_over g2 = false).
    { destruct (ctx_over g2) eqn:E; [|done]. clear Hstep. induction Hs as [|a b c Hab _ IH2]; [congruence|]. apply IH2; [done|]. by destruct Hab. }
    destruct H0' as (Hsc & Hre & Hws). destruct Hstep as [s0 s' over sc sc' re ws Hst|s0 s' over sc re re' ws Hst|s0 s' over sc re ws i w w' Hi Hst| |]; simpl in *; subst; [..|done|done].
    + split_and!; [|done..]. inversion Hst; subst; try done; by repeat case_match.
    + split_and!; [done| |done]. inversion Hst; subst; try done; by repeat case_match.
    + split_and!; [done..|]. apply Forall_insert; [done|]. inversion Hst; subst; try done; by repeat case_match.
  - intros Hover. destruct g' as [s' over sc re ws]. simpl in Hover. subst over. destruct (scheduler_halts sc s') as [s2 Hsc].
    eexists. split.
    + etrans; [|etrans; [|apply (workers_halt SchedulerOver ReaperOver s2 ws [])]].
      * apply (rtc_congruence (R := scheduler_step cron_next describe true) (fun p => mkGoroutines (snd p) true (fst p) re ws) (go_step cron_next describe others)) in Hsc; [exact Hsc|]. intros [a b] [c d] Hst. by apply go_scheduler.
      * apply (rtc_congruence (R := reaper_step true) (fun p => mkGoroutines (snd p) true SchedulerOver (fst p) ws) _ (re, s2) (ReaperOver, s2)); [|apply reaper_halts].
        intros [a b] [c d] Hst. by apply go_reaper.
    + split_and!; [done..|]. simpl. by apply Forall_replicate.
Qed.

End Stopping.

(** ** The scheduler alone *)

(** Uninterrupted, the scheduler's steps make up [Tick]. *)
Section Alone.
Context `{World} `{JSONText}.
Variable cron_next : string -> Time -> option Time.
Variable describe : Unreadable -> bytes.

Lemma reports_step over now bad : forall s, exists es s1, collect (tick_unreadable describe) bad s = (Ok es, s1) /\
  rtc (scheduler_step cron_next describe over) (Enqueuing now [] bad, s) (Waiting, s1).
Proof.
  induction bad as [|u bad IH]; intros s; [eexists _, _; split; [done|apply rtc_once; by constructor]|].
  cbn [collect]. unfold tick_unreadable at 1, bind, try, ret.
  destruct (FailUnreadableJob (un_org u) (un_job u) (un_name u) (UnreadableRunOutput describe u) s) as [r s1] eqn:E.
  destruct (IH s1) as (es & s2 & -> & Hs). eexists _, _. split; [done|]. eapply rtc_l; [by constructor|]. by rewrite E.
Qed.

Lemma enqueues_step over now bad due : forall s, exists es s1, collect (tick_job cron_next now) due s = (Ok es, s1) /\
  rtc (scheduler_step cron_next describe over) (Enqueuing now due bad, s) (Enqueuing now [] bad, s1).
Proof.
  induction due as [|job due IH]; intros s; [by eexists _, _|]. cbn [collect]. unfold tick_job at 1, bind at 1 2, try at 1.
  destruct (EnqueueRun (j_org job) (j_id job) s) as [[id|e] s1] eqn:E.
  - pose proof (sc_enqueue cron_next describe over now job due bad s (Ok id) s1 E) as H1.
    pose proof (sc_advance cron_next describe over now job due bad s1) as H2. destruct (NextRun cron_next job now) as [next|]; cbn [from_option Datatypes.id] in H2;
      (destruct (UpdateJob _ s1) as [u s2] eqn:Eu; destruct (IH s2) as (es & s3 & Ec & Hs); unfold bind, try, ret; rewrite Eu, Ec;
       eexists _, _; split; [done|]; eapply rtc_l; [exact H1|]; eapply rtc_l; [exact H2|exact Hs]).
  - destruct (IH s1) as (es & s3 & Ec & Hs). unfold bind, ret. rewrite Ec. eexists _, _. split; [done|].
    eapply rtc_l; [exact (sc_enqueue cron_next describe over now job due bad s (Error e) s1 E)|exact Hs].
Qed.

Lemma Tick_steps over now s : rtc (scheduler_step cron_next describe over) (Waiting, s) (Waiting, snd (Tick cron_next describe now s)).
Proof.
  unfold Tick, bind at 1. destruct (DueJobs now s) as [r s1] eqn:E. pose proof (sc_tick cron_next describe over now s r s1 E) as Hs.
  destruct r as [[due bad]|e]; [|by apply rtc_once]. eapply rtc_l; [exact Hs|].
  destruct (enqueues_step over now bad due s1) as (e1 & s2 & E1 & H1). destruct (reports_step over now bad s2) as (e2 & s3 & E2 & H2).
  unfold bind, ret. rewrite E1, E2. by etrans.
Qed.

End Alone.

(** ** At work *)

#[local] Instance noon : World := steady (2 * Hour).

(** One job with a run queued; two workers, of which the first claims it while
    the scheduler ticks. *)
Definition queued_start : St DB := @run_ops (steady Hour) plain_text [OpCreateJob interval_job; OpEnqueueRun 1 1] start.
Definition requeued : St DB := snd (@RequeueOrphanedRuns noon queued_start).
Definition begun : Goroutines := mkGoroutines requeued false Waiting ReaperWaiting [Claiming; Claiming].
Definition claimed : res (option Run) * St DB := @ClaimRun noon "runner" requeued.
Definition ticked : res (list Job * list Unreadable) * St DB := @DueJobs noon (2 * Hour) (snd claimed).
Definition at_work : Goroutines :=
  mkGoroutines (snd ticked) false
    (match fst ticked with Ok (due, bad) => Enqueuing (2 * Hour) due bad | Error _ => Waiting end) ReaperWaiting
    [match fst claimed with Ok (Some run) => Working run | _ => Sleeping end; Claiming].

Lemma begun_starts : @Start noon 2 queued_start = Ok begun.
Proof. reflexivity. Qed.

Lemma at_work_reached (others : Op -> Prop) : @go_steps noon plain_text (fun _ _ => None) (fun _ => []) others begun at_work.
Proof.
  eapply rtc_l; [|apply rtc_once].
  - eapply (go_worker _ _ _ requeued (snd claimed) false Waiting ReaperWaiting [Claiming; Claiming] 0 Claiming); [reflexivity|].
    apply (wk_claim false "runner"); [reflexivity|apply surjective_pairing].
  - apply go_scheduler. apply (sc_tick _ _ false (2 * Hour)). apply surjective_pairing.
Qed.

Lemma queued_wf : db_wf (st_db queued_start).
Proof. apply (@run_ops_wf (steady Hour) plain_text), empty_db_wf. Qed.

Lemma queued_no_overlap : no_overlap (st_db queued_start).
Proof. intros jobID. unfold live_runs, select. etrans; [apply filter_length_le|]. vm_compute. lia. Qed.

Lemma runner_never_overlaps_witness : no_overlap (st_db (store at_work)) /\ due_of (scheduler at_work) = [] /\
  map rr_status (rows (db_runs (st_db (store at_work)))) = [StatusRunning].
Proof.
  split; [|by vm_compute].
  exact (@runner_never_overlaps noon plain_text (fun _ _ => None) (fun _ => []) 2 queued_start begun at_work
    queued_wf queued_no_overlap begun_starts (at_work_reached queues_nothing)).
Defined.

Lemma one_worker_per_run_witness : exists run, workers at_work !! 0%nat = Some (Working run) /\
  forall r, r ∈ rows (db_runs (st_db (store at_work))) -> rr_id r = r_id run -> rr_status r <> StatusPending.
Proof.
  assert (Hrun : exists run, workers at_work !! 0%nat = Some (Working run)) by (eexists; vm_compute; reflexivity).
  destruct Hrun as [run Hi]. exists run. split; [exact Hi|].
  exact (proj2 (@one_worker_per_run noon plain_text (fun _ _ => None) (fun _ => []) 2 queued_start begun at_work 0 0 run run
    queued_wf begun_starts (at_work_reached no_requeue) Hi Hi)).
Defined.

Lemma start_stops_witness : none_over at_work.
Proof.
  exact (proj1 (@start_stops noon plain_text (fun _ _ => None) (fun _ => []) (fun _ => False) 2 queued_start begun at_work begun_starts
    (at_work_reached (fun _ => False))) eq_refl).
Defined.
