(* ===== verification/ConfigFile.v ===== *)
(** * Config as code ([internal/configfile/configfile.go])

    [tend.yaml] after its YAML has been decoded: the checks of [Parse] and
    [mapSpec], the settings of [specFor], the secrets a channel's config
    refers to, and [Reconcile], which brings the store to what the file says.
    Cron expressions, YAML, JSON and the encryption of [secrets.Box] are
    libraries, so parameters. *)
From S2P Require Import Prelude GoTime Domain Heartbeat Utf8 Pacing Failure Redact GoStrings Sql Schema StoreEvents JobSpec Probe StoreRuns StoreHeartbeats StoreConfig Runner.
Open Scope Z_scope.

(** ** What the file says *)

(** A value of a channel's config: a string, or anything else. *)
Inductive CfgValue (V : Type) := CfgString (s : bytes) | CfgOther (v : V).
Arguments CfgString {V} s.
Arguments CfgOther {V} v.

(** [jobSpec]: an absent optional field is [None]. *)
Record jobSpec := {
  js_name : string; js_type : string; js_command : string; js_http_url : string; js_http_method : string; js_http_body : string;
  js_cron : string; js_interval_seconds : Z; js_run_at : string; js_timeout_seconds : Z; js_max_retries : Z; js_enabled : option bool;
  js_env : gmap string string; js_warn_days : option Z;
  js_host : string; js_port : Z; js_server_name : string; js_starttls : string; js_insecure_skip_verify : bool; js_ca_file : string;
  js_renew_after_fraction : option spec_float; js_domain : string; js_rdap_url : string; js_expires_at : string; js_expiry_command : string;
  js_restore : string; js_checks : list string; js_cleanup : string; js_scratch_dir : string; js_max_duration_seconds : Z }.

(** [channelSpec], [ruleSpec], [hbSpec] and [fileRoot]. *)
Record channelSpec (V : Type) := { cs_name : string; cs_type : string; cs_config : gmap string (CfgValue V) }.
Arguments cs_name {V} c.
Arguments cs_type {V} c.
Arguments cs_config {V} c.
Record ruleSpec := { rs_channel : string; rs_events : list string; rs_job : string; rs_repeat : string }.
Record hbSpec := { hs_name : string; hs_period_seconds : Z; hs_grace_seconds : Z }.
Record fileRoot (V : Type) := { fr_jobs : list jobSpec; fr_notifications : option (list (channelSpec V) * list ruleSpec); fr_heartbeats : list hbSpec }.
Arguments fr_jobs {V} f.
Arguments fr_notifications {V} f.
Arguments fr_heartbeats {V} f.

(** [RuleSpec] and [Config]; [ChannelSpec] and [HeartbeatSpec] have the fields
    of their YAML entries. *)
Record RuleSpec := { rl_channel : string; rl_events : list string; rl_job : string; rl_repeat : option Duration }.
Record Config (V : Type) := { cf_jobs : list Job; cf_channels : list (channelSpec V); cf_rules : list RuleSpec; cf_heartbeats : list hbSpec }.
Arguments cf_jobs {V} c.
Arguments cf_channels {V} c.
Arguments cf_rules {V} c.
Arguments cf_heartbeats {V} c.

(** The channel types by name. *)
Definition channel_type (s : string) : ChannelType :=
  if String.eqb s "webhook" then Webhook else if String.eqb s "slack" then Slack else if String.eqb s "discord" then Discord
  else if String.eqb s "smtp" then SMTP else if String.eqb s "telegram" then Telegram else if String.eqb s "ntfy" then Ntfy
  else if String.eqb s "pushover" then Pushover else OtherChannel s.

Section Parsing.
Context `{URLs} `{GoText}.

(** [cronParser.Parse]: the schedule's [Next], if the expression has one. *)
Variable cron_parse : string -> option (Time -> Time).

(** [jobs.ValidateCron]. *)
Definition ValidateCron (expr : string) : bool := bool_decide (is_Some (cron_parse expr)).

(** [notify.ParseRepeat]. *)
Definition ParseRepeat (s : bytes) : option Duration :=
  let s := TrimSpace s in
  if bool_decide (s = bstr "every") || bool_decide (s = bstr "0") then Some 0
  else match time_ParseDuration s with
  | None => None
  | Some d => if d =? 0 then Some 0 else if (d <? MinRepeat) || (MaxRepeat <? d) then None else Some d
  end.

(** [notify.FormatRepeat]. *)
Definition FormatRepeat (d : Duration) : bytes :=
  if d <=? 0 then bstr "every"
  else
    let s := DurationString d in
    let s := if bool_decide (lastn 3 s = bstr "m0s") then trim_suffix s (bstr "0s") else s in
    if bool_decide (lastn 3 s = bstr "h0m") then trim_suffix s (bstr "0m") else s.

(** Why a file is refused: the entry, and what is wrong with it. *)
Inductive JobError :=
| JENameEmpty (i : nat) | JECommandRequired (name : string) | JEURLRequired (name : string) | JECommandUnused (name : string) (t : JobType)
| JEURLUnused (name : string) (t : JobType) | JETypeRequired (name : string) | JEUnknownType (name typ : string)
| JESpec (name : string) (e : SpecError) | JEExpiresAt (name s : string) | JETimeout (name : string) (n : Z)
| JESchedules (name : string) (n : nat) | JECron (name expr : string) | JERunAt (name s : string).
Inductive FileError :=
| FEJob (e : JobError) | FEChannelName (i : nat) | FEChannelType (name : string) | FEUnknownChannelType (name typ : string)
| FERuleChannel (i : nat) | FERuleUnknownChannel (i : nat) (name : string) | FERuleEvents (channel : string) | FERuleEmptyEvent (channel : string)
| FERuleEvent (i : nat) (channel event : string) | FERuleRepeatUnused (i : nat) (channel : string) | FERuleRepeat (i : nat) (channel : string)
| FEHeartbeatName (i : nat).

(** [specFor]: [inl None] for a type without settings. *)
Definition specFor (t : JobType) (js : jobSpec) : option Spec + (SpecError + string) :=
  if negb (HasSpec t) then inl None
  else
    let warn := if bool_decide (t = Drill) then 0 else default (DefaultWarnDays t) (js_warn_days js) in
    let base host port server starttls skip ca fraction domain rdap expires command restore checks cleanup scratch maxd :=
      {| sp_warn_days := warn; sp_host := host; sp_port := port; sp_server_name := server; sp_starttls := starttls;
         sp_insecure_skip_verify := skip; sp_ca_file := ca; sp_renew_after_fraction := fraction; sp_domain := domain; sp_rdap_url := rdap;
         sp_expires_at := expires; sp_expiry_command := command; sp_restore := restore; sp_checks := checks; sp_cleanup := cleanup;
         sp_scratch_dir := scratch; sp_max_duration_seconds := maxd |} in
    let zero := S754_zero false in
    let s :=
      match t with
      | TLS => inl (base (js_host js) (js_port js) (js_server_name js) (js_starttls js) (js_insecure_skip_verify js) (js_ca_file js)
                 (default DefaultRenewAfterFraction (js_renew_after_fraction js)) "" "" zero_time "" "" [] "" "" 0)
      | Domain => inl (base "" 0 "" "" false "" zero (match NormalizeDomain (js_domain js) with inl d => str d | inr _ => js_domain js end)
                 (js_rdap_url js) zero_time "" "" [] "" "" 0)
      | Expiry =>
          if String.eqb (js_expires_at js) "" then inl (base "" 0 "" "" false "" zero "" "" zero_time (js_expiry_command js) "" [] "" "" 0)
          else match ParseExpiryDate (bstr (js_expires_at js)) with
          | None => inr (inr (js_expires_at js))
          | Some at_ => inl (base "" 0 "" "" false "" zero "" "" at_ (js_expiry_command js) "" [] "" "" 0)
          end
      | _ => inl (base "" 0 "" "" false "" zero "" "" zero_time "" (js_restore js) (js_checks js) (js_cleanup js) (js_scratch_dir js) (js_max_duration_seconds js))
      end in
    match s with
    | inr e => inr e
    | inl s => match ValidateSpec t (Some s) with Some e => inr (inl e) | None => inl (Some s) end
    end.

(** The type of a job, with what its type needs or refuses. *)
Definition job_type (js : jobSpec) : JobType + JobError :=
  let name := js_name js in
  if String.eqb (js_type js) "shell" then if String.eqb (js_command js) "" then inr (JECommandRequired name) else inl Shell
  else if String.eqb (js_type js) "http" then if String.eqb (js_http_url js) "" then inr (JEURLRequired name) else inl HTTP
  else
    let watched t := if negb (String.eqb (js_command js) "") then inr (JECommandUnused name t)
                     else if negb (String.eqb (js_http_url js) "") then inr (JEURLUnused name t) else inl t in
    if String.eqb (js_type js) "tls" then watched TLS
    else if String.eqb (js_type js) "domain" then watched Domain
    else if String.eqb (js_type js) "expiry" then watched Expiry
    else if String.eqb (js_type js) "drill" then watched Drill
    else if String.eqb (js_type js) "" then inr (JETypeRequired name)
    else inr (JEUnknownType name (js_type js)).

(** How many schedules an entry sets. *)
Definition schedules (js : jobSpec) : nat :=
  ((if String.eqb (js_cron js) "" then 0 else 1) + (if (0 <? js_interval_seconds js)%Z then 1 else 0) + (if String.eqb (js_run_at js) "" then 0 else 1))%nat.

(** [mapSpec]. *)
Definition mapSpec (idx : nat) (js : jobSpec) : Job + JobError :=
  let name := js_name js in
  if String.eqb name "" then inr (JENameEmpty idx)
  else match job_type js with
  | inr e => inr e
  | inl t =>
      match specFor t js with
      | inr (inl e) => inr (JESpec name e)
      | inr (inr s) => inr (JEExpiresAt name s)
      | inl settings =>
          if js_timeout_seconds js <? 0 then inr (JETimeout name (js_timeout_seconds js))
          else if (1 <? schedules js)%nat then inr (JESchedules name (schedules js))
          else if negb (String.eqb (js_cron js) "") && negb (ValidateCron (js_cron js)) then inr (JECron name (js_cron js))
          else match (if String.eqb (js_run_at js) "" then Some zero_time else time_Parse RFC3339 (bstr (js_run_at js))) with
          | None => inr (JERunAt name (js_run_at js))
          | Some runAt =>
              inl {| j_id := 0; j_org := 0; j_name := name; j_type := t; j_command := js_command js; j_http_url := js_http_url js;
                     j_http_method := js_http_method js; j_http_body := js_http_body js; j_cron := js_cron js;
                     j_interval_seconds := js_interval_seconds js; j_run_at := runAt; j_timeout_seconds := js_timeout_seconds js;
                     j_max_retries := js_max_retries js; j_enabled := default true (js_enabled js); j_env := js_env js; j_spec := settings;
                     j_next_run_at := zero_time; j_created_at := zero_time; j_updated_at := zero_time |}
          end
      end
  end.

(** The loop over entries that stops at the first error. *)
Fixpoint map_entries {A B E} (f : nat -> A -> B + E) (i : nat) (l : list A) : list B + E :=
  match l with
  | [] => inl []
  | x :: r =>
      match f i x with
      | inr e => inr e
      | inl y => match map_entries f (S i) r with inr e => inr e | inl ys => inl (y :: ys) end
      end
  end.

(** One channel, one rule and one heartbeat of [Parse]. *)
Definition check_channel {V} (i : nat) (c : channelSpec V) : channelSpec V + FileError :=
  if String.eqb (cs_name c) "" then inr (FEChannelName i)
  else if String.eqb (cs_type c) "" then inr (FEChannelType (cs_name c))
  else if negb (ValidChannelType (channel_type (cs_type c))) then inr (FEUnknownChannelType (cs_name c) (cs_type c))
  else inl c.

Definition check_event (i : nat) (channel : string) (ev : string) : option FileError :=
  if blank ev then Some (FERuleEmptyEvent channel) else if negb (Alertable ev) then Some (FERuleEvent i channel ev) else None.
Fixpoint check_events (i : nat) (channel : string) (evs : list string) : option FileError :=
  match evs with [] => None | ev :: r => match check_event i channel ev with Some e => Some e | None => check_events i channel r end end.

Definition check_rule (declared : list string) (i : nat) (r : ruleSpec) : RuleSpec + FileError :=
  let rule repeat := inl {| rl_channel := rs_channel r; rl_events := rs_events r; rl_job := rs_job r; rl_repeat := repeat |} in
  if String.eqb (rs_channel r) "" then inr (FERuleChannel i)
  else if negb (bool_decide (rs_channel r ∈ declared)) then inr (FERuleUnknownChannel i (rs_channel r))
  else if bool_decide (rs_events r = []) then inr (FERuleEvents (rs_channel r))
  else match check_events i (rs_channel r) (rs_events r) with
  | Some e => inr e
  | None =>
      if blank (rs_repeat r) then rule None
      else if negb (bool_decide (EventRunFailed ∈ rs_events r)) then inr (FERuleRepeatUnused i (rs_channel r))
      else match ParseRepeat (bstr (rs_repeat r)) with None => inr (FERuleRepeat i (rs_channel r)) | Some d => rule (Some d) end
  end.

Definition check_heartbeat (i : nat) (h : hbSpec) : hbSpec + FileError :=
  if String.eqb (hs_name h) "" then inr (FEHeartbeatName i) else inl h.

(** [Parse], from the decoded YAML on. *)
Definition Parse {V} (root : fileRoot V) : Config V + FileError :=
  match map_entries mapSpec 0 (fr_jobs root) with
  | inr e => inr (FEJob e)
  | inl js =>
      match
        match fr_notifications root with
        | None => inl ([], [])
        | Some (channels, rules) =>
            match map_entries check_channel 0 channels with
            | inr e => inr e
            | inl cs => match map_entries (check_rule (map cs_name cs)) 0 rules with inr e => inr e | inl rs => inl (cs, rs) end
            end
        end
      with
      | inr e => inr e
      | inl (cs, rs) =>
          match map_entries check_heartbeat 0 (fr_heartbeats root) with
          | inr e => inr e
          | inl hs => inl {| cf_jobs := js; cf_channels := cs; cf_rules := rs; cf_heartbeats := hs |}
          end
      end
  end.

End Parsing.

(** ** Secrets in a channel's config *)

Section Reconciling.
Context `{World} `{JSONText} `{URLs} `{GoText}.

(** [secrets.Box]: [Encrypt] and [Decrypt], which may fail. *)
Class Box := { Encrypt : bytes -> option string; Decrypt : string -> option bytes }.

Variable err_text : Err -> bytes.
(** [json.Marshal] of a resolved config. *)
Context {V : Type} (marshal : gmap string (CfgValue V) -> option bytes).
Variable cron_parse : string -> option (Time -> Time).

Definition openTok : bytes := bstr "{{".
Definition closeTok : bytes := bstr "}}".

(** The value of a secret, with the errors of [resolveSecretRefs] (the cause a
    decryption gives is left out of its text). *)
Definition secret_value `{Box} (org : Z) (name : bytes) : Store bytes :=
  let* r := try (GetSecret org (str name)) in
  match r with
  | Error e =>
      if is_not_found e then throw (ErrText (bstr "secret " ++ Quote name ++ bstr " not found"))
      else throw (ErrText (bstr "get secret " ++ Quote name ++ bstr ": " ++ err_text e))
  | Ok ct =>
      match Decrypt ct with
      | None => throw (ErrText (bstr "decrypt secret " ++ Quote name))
      | Some plain => ret plain
      end
  end.

(** [resolveSecretRefs]. Each turn of its loop takes at least the four bytes of
    a placeholder off the text, so its length is fuel enough. *)
Fixpoint resolve_refs `{Box} (fuel : nat) (org : Z) (rest : bytes) : Store bytes :=
  match fuel with
  | O => ret rest
  | S fuel =>
      match Index rest openTok with
      | None => ret rest
      | Some i =>
          let before := take i rest in
          let rest := drop (i + List.length openTok) rest in
          match Index rest closeTok with
          | None => ret (before ++ openTok ++ rest)
          | Some j =>
              let inner := TrimSpace (take j rest) in
              let rest := drop (j + List.length closeTok) rest in
              match CutPrefix inner (bstr "secret.") with
              | None =>
                  let* r := resolve_refs fuel org rest in
                  ret (before ++ openTok ++ inner ++ closeTok ++ r)
              | Some name =>
                  let* plain := secret_value org (TrimSpace name) in
                  let* r := resolve_refs fuel org rest in
                  ret (before ++ plain ++ r)
              end
          end
      end
  end.
Definition resolveSecretRefs `{Box} (org : Z) (s : bytes) : Store bytes := resolve_refs (S (List.length s)) org s.

(** ** Reconciling *)

(** [mustNextRun]. *)
Definition mustNextRun (j : Job) (now : Time) : Time :=
  default zero_time (NextRun (fun expr t => (fun next => next t) <$> cron_parse expr) j now).

(** [ReconcileResult]. *)
Record ReconcileResult := { rc_created : Z; rc_updated : Z; rc_disabled : Z; rc_disabled_names : list string; rc_channels : Z; rc_rules : Z; rc_heartbeats : Z }.
Definition no_result : ReconcileResult :=
  {| rc_created := 0; rc_updated := 0; rc_disabled := 0; rc_disabled_names := []; rc_channels := 0; rc_rules := 0; rc_heartbeats := 0 |}.
Definition count_created (r : ReconcileResult) : ReconcileResult :=
  {| rc_created := rc_created r + 1; rc_updated := rc_updated r; rc_disabled := rc_disabled r; rc_disabled_names := rc_disabled_names r;
     rc_channels := rc_channels r; rc_rules := rc_rules r; rc_heartbeats := rc_heartbeats r |}.
Definition count_updated (r : ReconcileResult) : ReconcileResult :=
  {| rc_created := rc_created r; rc_updated := rc_updated r + 1; rc_disabled := rc_disabled r; rc_disabled_names := rc_disabled_names r;
     rc_channels := rc_channels r; rc_rules := rc_rules r; rc_heartbeats := rc_heartbeats r |}.
Definition count_disabled (r : ReconcileResult) (name : string) : ReconcileResult :=
  {| rc_created := rc_created r; rc_updated := rc_updated r; rc_disabled := rc_disabled r + 1; rc_disabled_names := rc_disabled_names r ++ [name];
     rc_channels := rc_channels r; rc_rules := rc_rules r; rc_heartbeats := rc_heartbeats r |}.
Definition count_rest (r : ReconcileResult) (channels rules heartbeats : Z) : ReconcileResult :=
  {| rc_created := rc_created r; rc_updated := rc_updated r; rc_disabled := rc_disabled r; rc_disabled_names := rc_disabled_names r;
     rc_channels := rc_channels r + channels; rc_rules := rc_rules r + rules; rc_heartbeats := rc_heartbeats r + heartbeats |}.

(** [m], its error put as what was being done. *)
Definition during {A} (what : bytes) (m : Store A) : Store A :=
  let* r := try m in
  match r with Ok a => ret a | Error e => throw (ErrText (bstr "reconcile: " ++ what ++ bstr ": " ++ err_text e)) end.

Definition with_ids (j : Job) (id org : Z) (created : Time) : Job :=
  {| j_id := id; j_org := org; j_name := j_name j; j_type := j_type j; j_command := j_command j; j_http_url := j_http_url j;
     j_http_method := j_http_method j; j_http_body := j_http_body j; j_cron := j_cron j; j_interval_seconds := j_interval_seconds j;
     j_run_at := j_run_at j; j_timeout_seconds := j_timeout_seconds j; j_max_retries := j_max_retries j; j_enabled := j_enabled j;
     j_env := j_env j; j_spec := j_spec j; j_next_run_at := j_next_run_at j; j_created_at := created; j_updated_at := j_updated_at j |}.
Definition with_next (j : Job) (next : Time) : Job :=
  {| j_id := j_id j; j_org := j_org j; j_name := j_name j; j_type := j_type j; j_command := j_command j; j_http_url := j_http_url j;
     j_http_method := j_http_method j; j_http_body := j_http_body j; j_cron := j_cron j; j_interval_seconds := j_interval_seconds j;
     j_run_at := j_run_at j; j_timeout_seconds := j_timeout_seconds j; j_max_retries := j_max_retries j; j_enabled := j_enabled j;
     j_env := j_env j; j_spec := j_spec j; j_next_run_at := next; j_created_at := j_created_at j; j_updated_at := j_updated_at j |}.
Definition disabled (j : Job) : Job :=
  {| j_id := j_id j; j_org := j_org j; j_name := j_name j; j_type := j_type j; j_command := j_command j; j_http_url := j_http_url j;
     j_http_method := j_http_method j; j_http_body := j_http_body j; j_cron := j_cron j; j_interval_seconds := j_interval_seconds j;
     j_run_at := j_run_at j; j_timeout_seconds := j_timeout_seconds j; j_max_retries := j_max_retries j; j_enabled := false;
     j_env := j_env j; j_spec := j_spec j; j_next_run_at := j_next_run_at j; j_created_at := j_created_at j; j_updated_at := j_updated_at j |}.

Definition scheduleChanged (existing pj : Job) : bool :=
  negb (String.eqb (j_cron existing) (j_cron pj)) || negb (j_interval_seconds existing =? j_interval_seconds pj) || negb (j_run_at existing =? j_run_at pj).

(** One job of the file, in the loop of [reconcileJobs]. *)
Definition reconcile_job (org : Z) (now : Time) (result : ReconcileResult) (pj : Job) : Store ReconcileResult :=
  let pj := with_ids pj (j_id pj) org (j_created_at pj) in
  let* found := try (GetJobByName org (j_name pj)) in
  match found with
  | Error (ErrUnreadableJob _ id _) =>
      let pj := with_ids pj id org (j_created_at pj) in
      during (bstr "repair job " ++ quoted (j_name pj)) (UpdateJob (with_next pj (mustNextRun pj now))) ;;;
      ret (count_updated result)
  | Error e =>
      if negb (is_not_found e) then during (bstr "get job " ++ quoted (j_name pj)) (throw e)
      else
        let* _ := during (bstr "create job " ++ quoted (j_name pj)) (CreateJob (with_next pj (mustNextRun pj now))) in
        ret (count_created result)
  | Ok existing =>
      let pj := with_ids pj (j_id existing) (j_org existing) (j_created_at existing) in
      let next := if scheduleChanged existing pj || IsZero (j_next_run_at existing) then mustNextRun pj now else j_next_run_at existing in
      during (bstr "update job " ++ quoted (j_name pj)) (UpdateJob (with_next pj next)) ;;;
      ret (count_updated result)
  end.

Fixpoint reconcile_each {A} (f : ReconcileResult -> A -> Store ReconcileResult) (result : ReconcileResult) (l : list A) : Store ReconcileResult :=
  match l with
  | [] => ret result
  | x :: r => let* result := f result x in reconcile_each f result r
  end.

(** One job of the store, in the pruning loop. *)
Definition prune_job (names : list string) (result : ReconcileResult) (ej : Job) : Store ReconcileResult :=
  if bool_decide (j_name ej ∈ names) then ret result
  else if negb (j_enabled ej) then ret result
  else
    during (bstr "disable job " ++ quoted (j_name ej)) (UpdateJob (disabled ej)) ;;;
    ret (count_disabled result (j_name ej)).

(** [reconcileJobs]. *)
Definition reconcileJobs (org : Z) (parsed : list Job) (prune : bool) (result : ReconcileResult) : Store ReconcileResult :=
  let* now := now_ in
  let* '(existingJobs, _) := during (bstr "list jobs") (ListJobs org) in
  let* result := reconcile_each (reconcile_job org now) result parsed in
  if prune then reconcile_each (prune_job (map j_name parsed)) result existingJobs else ret result.

(** [reconcileChannel]; the config's entries in some order. *)
Fixpoint resolve_config `{Box} (org : Z) (l : list (string * CfgValue V)) : Store (list (string * CfgValue V)) :=
  match l with
  | [] => ret []
  | (k, CfgOther v) :: r => let* r := resolve_config org r in ret ((k, CfgOther v) :: r)
  | (k, CfgString s) :: r =>
      let* s := resolveSecretRefs org s in
      let* r := resolve_config org r in
      ret ((k, CfgString s) :: r)
  end.
Definition reconcileChannel (box : Box) (org : Z) (c : channelSpec V) : Store unit :=
  let channel := bstr "channel " ++ quoted (cs_name c) in
  let* resolved := during channel (resolve_config org (map_to_list (cs_config c))) in
  match marshal (list_to_map resolved) with
  | None => throw (ErrText (bstr "reconcile: " ++ channel ++ bstr ": marshal config"))
  | Some configJSON =>
      match Encrypt configJSON with
      | None => throw (ErrText (bstr "reconcile: " ++ channel ++ bstr ": encrypt"))
      | Some blob =>
          let* _ := during channel (CreateChannel {| ch_id := 0; ch_org := org; ch_name := cs_name c; ch_kind := channel_type (cs_type c); ch_created_at := zero_time |} blob) in
          ret tt
      end
  end.

(** The rows of one rule: one per event. *)
Fixpoint create_rules (org channelID jobID : Z) (r : RuleSpec) (events : list string) : Store unit :=
  match events with
  | [] => ret tt
  | ev :: rest =>
      let* _ := during (bstr "rule channel " ++ quoted (rl_channel r) ++ bstr " event " ++ quoted ev)
        (CreateRule {| ru_id := 0; ru_org := org; ru_channel := channelID; ru_event_type := ev; ru_enabled := true; ru_job := jobID;
                       ru_repeat := if String.eqb ev EventRunFailed then rl_repeat r else None; ru_created_at := zero_time |}) in
      create_rules org channelID jobID r rest
  end.
Definition rule_job (org : Z) (r : RuleSpec) : Store Z :=
  if String.eqb (rl_job r) "" then ret 0
  else
    let* j := try (GetJobByName org (rl_job r)) in
    match j with
    | Ok j => ret (j_id j)
    | Error e =>
        throw (ErrText (bstr "reconcile: rule for channel " ++ quoted (rl_channel r) ++
          (if is_not_found e then bstr " references unknown job " ++ quoted (rl_job r) else bstr ": get job " ++ quoted (rl_job r) ++ bstr ": " ++ err_text e)))
    end.

(** The id of a channel by name; of channels of one name, the last one's. *)
Definition channel_id (channels : list Channel) (name : string) : option Z :=
  ch_id <$> List.find (fun ch => String.eqb (ch_name ch) name) (rev channels).

(** [reconcileRules]; the number of rows is that of the events. *)
Definition reconcile_rule (org : Z) (channels : list Channel) (r : RuleSpec) : Store unit :=
  match channel_id channels (rl_channel r) with
  | None => throw (ErrText (bstr "reconcile: rule references unknown channel " ++ quoted (rl_channel r)))
  | Some channelID =>
      let* jobID := rule_job org r in
      create_rules org channelID jobID r (rl_events r)
  end.
Definition rule_count (rules : list RuleSpec) : Z := foldr (fun r n => Z.of_nat (List.length (rl_events r)) + n) 0 rules.
Definition reconcileRules (org : Z) (rules : list RuleSpec) : Store Z :=
  let* channels := during (bstr "list channels") (ListChannels org) in
  match List.find (fun r => existsb (fun ev => negb (Alertable ev)) (rl_events r)) rules with
  | Some r => throw (ErrText (bstr "reconcile: rule for channel " ++ quoted (rl_channel r)))
  | None => for_each rules (reconcile_rule org channels) ;;; ret (rule_count rules)
  end.

(** The heartbeats, each with a fresh token, if [NewToken] gives one. *)
Fixpoint reconcile_heartbeats (org : Z) (tokens : list (option string)) (hs : list hbSpec) : Store unit :=
  match hs with
  | [] => ret tt
  | h :: r =>
      match tokens with
      | Some token :: tokens =>
          let* _ := during (bstr "heartbeat " ++ quoted (hs_name h))
            (CreateHeartbeat {| hb_id := 0; hb_org := org; hb_name := hs_name h; hb_token := token; hb_last_seen_at := zero_time;
               hb_period_seconds := hs_period_seconds h; hb_grace_seconds := hs_grace_seconds h; hb_status := HbNew;
               hb_created_at := zero_time; hb_started_at := zero_time; hb_started_rid := "" |}) in
          reconcile_heartbeats org tokens r
      | _ => throw (ErrText (bstr "reconcile: heartbeat " ++ quoted (hs_name h) ++ bstr ": generate token"))
      end
  end.

(** [Reconcile]; [box] is [None] without a master key. *)
Definition Reconcile (org : Z) (box : option Box) (tokens : list (option string)) (cfg : Config V) (prune : bool) : Store ReconcileResult :=
  let* result := reconcileJobs org (cf_jobs cfg) prune no_result in
  (match box with
   | None => if bool_decide (cf_channels cfg = []) then ret tt else throw (ErrText (bstr "reconcile: channels declared but no master key configured (TEND_MASTER_KEY); cannot encrypt channel config"))
   | Some box => for_each (cf_channels cfg) (reconcileChannel box org)
   end) ;;;
  let* rules := if bool_decide (cf_rules cfg = []) then ret 0 else reconcileRules org (cf_rules cfg) in
  reconcile_heartbeats org tokens (cf_heartbeats cfg) ;;;
  ret (count_rest result (Z.of_nat (List.length (cf_channels cfg))) rules (Z.of_nat (List.length (cf_heartbeats cfg)))).

End Reconciling.

(** ** What [Parse] lets through *)

Section Parsed.
Context `{URLs} `{GoText} (cron_parse : string -> option (Time -> Time)).

(** A job definition that makes sense. *)
Definition job_ok (j : Job) : Prop :=
  j_name j <> ""%string /\ 0 <= j_timeout_seconds j /\
  match j_type j with
  | Shell => j_command j <> ""%string /\ j_spec j = None
  | HTTP => j_http_url j <> ""%string /\ j_spec j = None
  | OtherType _ => False
  | t => j_command j = ""%string /\ j_http_url j = ""%string /\ exists s, j_spec j = Some s /\ ValidateSpec t (Some s) = None
  end /\
  (j_cron j <> ""%string -> is_Some (cron_parse (j_cron j)) /\ j_interval_seconds j <= 0 /\ j_run_at j = zero_time) /\
  (0 < j_interval_seconds j -> j_run_at j = zero_time).

(** A rule that names a channel of the file and events that can fire. *)
Definition rule_ok (channels : list string) (r : RuleSpec) : Prop :=
  rl_channel r ∈ channels /\ rl_events r <> [] /\ Forall (fun ev => Alertable ev = true) (rl_events r) /\
  match rl_repeat r with Some d => EventRunFailed ∈ rl_events r /\ (d = 0 \/ MinRepeat <= d <= MaxRepeat) | None => True end.

Definition channel_ok {V} (c : channelSpec V) : Prop := cs_name c <> ""%string /\ ValidChannelType (channel_type (cs_type c)) = true.

Lemma map_entries_Forall2 {A B Err0} (f : nat -> A -> B + Err0) (R : A -> B -> Prop) i l ys :
  (forall i x y, f i x = inl y -> R x y) -> map_entries f i l = inl ys -> Forall2 R l ys.
Proof.
  intros Hf. revert i ys. induction l as [|x l IH]; intros i ys; cbn [map_entries]; [intros [= <-]; constructor|].
  destruct (f i x) as [y|] eqn:E; [|done]. destruct (map_entries f (S i) l) as [zs|] eqn:El; [|done]. intros [= <-]. constructor; [by eapply Hf|by eapply IH].
Qed.

Lemma map_entries_Forall {A B Err0} (f : nat -> A -> B + Err0) (Q : B -> Prop) i l ys :
  (forall i x y, f i x = inl y -> Q y) -> map_entries f i l = inl ys -> Forall Q ys.
Proof.
  intros Hf Hm. apply (map_entries_Forall2 f (fun _ y => Q y)) in Hm; [|done]. induction Hm; by constructor.
Qed.

Lemma specFor_ok t js s : specFor t js = inl s -> if HasSpec t then exists sp, s = Some sp /\ ValidateSpec t (Some sp) = None else s = None.
Proof.
  unfold specFor. destruct (HasSpec t); cbn [negb]; [|by intros [= <-]].
  set (x := match t with TLS => _ | _ => _ end). destruct x as [sp|]; [|done]. destruct (ValidateSpec t (Some sp)) eqn:E; [done|]. intros [= <-]. by exists sp.
Qed.

Lemma job_type_ok js t : job_type js = inl t ->
  match t with
  | Shell => js_command js <> ""%string
  | HTTP => js_http_url js <> ""%string
  | OtherType _ => False
  | _ => js_command js = ""%string /\ js_http_url js = ""%string
  end.
Proof.
  unfold job_type. destruct (String.eqb_spec (js_command js) ""), (String.eqb_spec (js_http_url js) ""); cbn [negb];
    repeat case_match; intros [=]; subst; try congruence; done.
Qed.

Lemma mapSpec_ok i js j : mapSpec cron_parse i js = inl j -> job_ok j /\ j_name j = js_name js.
Proof.
  unfold mapSpec. destruct (String.eqb_spec (js_name js) "") as [|Hn]; [done|]. destruct (job_type js) as [t|] eqn:Et; [|done].
  destruct (specFor t js) as [settings|[]] eqn:Es; [|done|done]. destruct (Z.ltb_spec (js_timeout_seconds js) 0); [done|].
  destruct (Nat.ltb_spec 1 (schedules js)) as [|Hs]; [done|]. destruct (negb (String.eqb (js_cron js) "") && _) eqn:Ec; [done|].
  destruct (if String.eqb (js_run_at js) "" then _ else _) as [runAt|] eqn:Er; [|done]. intros [= <-]. split; [|done].
  apply job_type_ok in Et. apply specFor_ok in Es. unfold job_ok, schedules in *. cbn [j_name j_timeout_seconds j_type j_command j_http_url j_spec j_cron j_interval_seconds j_run_at] in *.
  split; [done|]. split; [done|]. split; [|split].
  - destruct t; simpl in Es; try done; destruct Et as [-> ->] || idtac; try (split; [done|]; split; [done|]; exact Es); done.
  - intros Hc. destruct (String.eqb_spec (js_cron js) ""); [done|]. cbn [negb andb] in Ec. unfold ValidateCron in Ec.
    split; [by case_bool_decide|]. destruct (Z.ltb_spec 0 (js_interval_seconds js)); [lia|]. split; [lia|]. destruct (String.eqb (js_run_at js) ""); [by injection Er|lia].
  - intros Hi. destruct (Z.ltb_spec 0 (js_interval_seconds js)); [|lia]. destruct (String.eqb (js_run_at js) ""); [by injection Er|lia].
Qed.

Lemma ParseRepeat_range s d : ParseRepeat s = Some d -> d = 0 \/ MinRepeat <= d <= MaxRepeat.
Proof.
  unfold ParseRepeat. destruct (_ || _); [intros [= <-]; by left|]. destruct (time_ParseDuration _) as [x|]; [|done].
  destruct (Z.eqb_spec x 0); [intros [= <-]; by left|]. destruct (Z.ltb_spec x MinRepeat), (Z.ltb_spec MaxRepeat x); try done. intros [= <-]. right. lia.
Qed.

Lemma check_rule_ok channels i r rl : check_rule channels i r = inl rl -> rule_ok channels rl.
Proof.
  unfold check_rule. destruct (String.eqb _ _); [done|]. case_bool_decide as Hc; [|done]. case_bool_decide as He; [done|]. cbn [negb].
  assert (Hev : forall evs, check_events i (rs_channel r) evs = None -> Forall (fun ev => Alertable ev = true) evs).
  { induction evs as [|ev evs IH]; [constructor|]. cbn [check_events]. unfold check_event. destruct (blank ev); [done|]. destruct (Alertable ev) eqn:Ea; [|done].
    intros Hr. constructor; [done|by apply IH]. }
  destruct (check_events i (rs_channel r) (rs_events r)) eqn:Ee; [done|]. apply Hev in Ee.
  destruct (blank (rs_repeat r)); [intros [= <-]; by repeat split|]. case_bool_decide as Hf; [|done]. cbn [negb].
  destruct (ParseRepeat _) as [d|] eqn:Er; [|done]. intros [= <-]. apply ParseRepeat_range in Er. by repeat split.
Qed.

(** C22: every definition that [Parse] lets through makes sense: one entry of
    the result for each of the file, in its order; jobs with a name, a known
    type with what it needs and nothing it would ignore, valid settings, at
    most one schedule, and a cron expression the scheduler can parse; rules
    that name a channel of the file and events that can fire, with a pacing
    in range only where run.failed is routed; channels of a known type. *)
Theorem Parse_valid {V} (root : fileRoot V) (cfg : Config V) : Parse cron_parse root = inl cfg ->
  Forall2 (fun js j => job_ok j /\ j_name j = js_name js) (fr_jobs root) (cf_jobs cfg) /\
  Forall channel_ok (cf_channels cfg) /\ Forall (rule_ok (map cs_name (cf_channels cfg))) (cf_rules cfg) /\
  Forall (fun h => hs_name h <> ""%string) (cf_heartbeats cfg) /\ cf_heartbeats cfg = fr_heartbeats root.
Proof.
  unfold Parse. destruct (map_entries (mapSpec cron_parse) 0 (fr_jobs root)) as [js|] eqn:Ej; [|done].
  assert (Hn : match (match fr_notifications root with
        | None => inl ([], [])
        | Some (channels, rules) =>
            match map_entries check_channel 0 channels with
            | inr e => inr e
            | inl cs => match map_entries (check_rule (map cs_name cs)) 0 rules with inr e => inr e | inl rs => inl (cs, rs) end
            end
        end : (list (channelSpec V) * list RuleSpec) + FileError) with
    | inl (cs, rs) => Forall channel_ok cs /\ Forall (rule_ok (map cs_name cs)) rs | inr _ => True end).
  { destruct (fr_notifications root) as [[channels rules]|]; [|by split]. destruct (map_entries check_channel 0 channels) as [cs|] eqn:Ec; [|done].
    destruct (map_entries (check_rule (map cs_name cs)) 0 rules) as [rs|] eqn:Er; [|done]. split.
    - revert Ec. apply map_entries_Forall. intros i x y. unfold check_channel. destruct (String.eqb_spec (cs_name x) ""); [done|]. destruct (String.eqb _ _); [done|].
      destruct (ValidChannelType _) eqn:Ev; [|done]. intros [= <-]. done.
    - revert Er. apply map_entries_Forall. intros i x y. apply check_rule_ok. }
  destruct (match fr_notifications root with None => _ | Some _ => _ end) as [[cs rs]|]; [|done].
  destruct (map_entries check_heartbeat 0 (fr_heartbeats root)) as [hs|] eqn:Eh; [|done]. intros [= <-]. cbn [cf_jobs cf_channels cf_rules cf_heartbeats].
  split; [eapply map_entries_Forall2; [|exact Ej]; apply mapSpec_ok|]. split; [apply Hn|]. split; [apply Hn|].
  apply (map_entries_Forall2 _ (fun x h => x = h /\ hs_name h <> ""%string)) in Eh.
  - split; [|by induction Eh as [|x y l k [-> _] _ IH]; [|f_equal]]. induction Eh as [|x y l k [_ Hy] _ IH]; by constructor.
  - intros i x y. unfold check_heartbeat. destruct (String.eqb_spec (hs_name x) ""); [done|]. by intros [= <-].
Qed.

End Parsed.

#[local] Instance file_urls : URLs := fun _ => None.
#[local] Instance file_text : GoText := {| time_Parse _ _ := Some 0; time_ParseDuration _ := Some (30 * Minute); Quote s := s; FormatG _ := [] |}.

(** A file with a shell job, a certificate check and a rule for its channel. *)
Definition file_job (name typ command host : string) : jobSpec :=
  {| js_name := name; js_type := typ; js_command := command; js_http_url := ""; js_http_method := ""; js_http_body := ""; js_cron := "";
     js_interval_seconds := 60; js_run_at := ""; js_timeout_seconds := 0; js_max_retries := 0; js_enabled := None; js_env := ∅; js_warn_days := None;
     js_host := host; js_port := 0; js_server_name := ""; js_starttls := ""; js_insecure_skip_verify := false; js_ca_file := "";
     js_renew_after_fraction := None; js_domain := ""; js_rdap_url := ""; js_expires_at := ""; js_expiry_command := "";
     js_restore := ""; js_checks := []; js_cleanup := ""; js_scratch_dir := ""; js_max_duration_seconds := 0 |}%string.
Definition a_file : fileRoot unit :=
  {| fr_jobs := [file_job "backup" "shell" "true" ""; file_job "cert" "tls" "" "example.com"];
     fr_notifications := Some ([{| cs_name := "ops"; cs_type := "slack"; cs_config := ∅ |}],
       [{| rs_channel := "ops"; rs_events := ["run.failed"]; rs_job := ""; rs_repeat := "30m" |}]);
     fr_heartbeats := [{| hs_name := "nightly"; hs_period_seconds := 86400; hs_grace_seconds := 0 |}] |}%string.
Definition a_config : Config unit :=
  match Parse (fun _ => None) a_file with inl c => c | inr _ => {| cf_jobs := []; cf_channels := []; cf_rules := []; cf_heartbeats := [] |} end.

Lemma Parse_valid_witness :
  map j_name (cf_jobs a_config) = ["backup"; "cert"]%string /\
  Forall2 (fun js j => job_ok (fun _ => None) j /\ j_name j = js_name js) (fr_jobs a_file) (cf_jobs a_config) /\
  Forall channel_ok (cf_channels a_config) /\ Forall (rule_ok (map cs_name (cf_channels a_config))) (cf_rules a_config) /\
  Forall (fun h => hs_name h <> ""%string) (cf_heartbeats a_config) /\ cf_heartbeats a_config = fr_heartbeats a_file.
Proof.
  split; [vm_compute; reflexivity|]. apply (Parse_valid (fun _ => None) a_file a_config). vm_compute. reflexivity.
Defined.

(** An entry with a command and a host is refused. *)
Example stray_command : Parse (fun _ => None) {| fr_jobs := [file_job "cert" "tls" "true" "example.com"]; fr_notifications := (None : option (list (channelSpec unit) * list ruleSpec)); fr_heartbeats := [] |}
  = inr (FEJob (JECommandUnused "cert" TLS)).
Proof. vm_compute. reflexivity. Qed.
