(* ===== verification/Reconcile.v ===== *)
(** * What a sync leaves in the store ([reconcileJobs], [resolveSecretRefs] of
    [internal/configfile/configfile.go])

    The jobs table as a map from org and name, what [CreateJob] and
    [UpdateJob] do to that map, and the theorem that a sync brings it to what
    the file says, whatever interrupted the syncs before it. Then what becomes
    of the secrets a channel's config refers to. *)
From S2P Require Import Prelude GoTime Domain Heartbeat Utf8 Pacing Failure Redact GoStrings Sql Schema StoreEvents JobSpec Probe StoreRuns StoreConfig StoreSpec Runner ConfigFile.
Open Scope Z_scope.

(** ** The jobs by org and name *)

Definition job_key (r : JobRow) : Z * string := (jr_org r, jr_name r).
Definition jobs_of (t : Table JobRow) : gmap (Z * string) JobRow := list_to_map (map (fun r => (job_key r, r)) (rows t)).
Definition jobs (d : DB) : gmap (Z * string) JobRow := jobs_of (db_jobs d).

(** A spec column that [encodeSpec] can have written. *)
Definition json_column (c : Col Spec) : bool := match c with Val s => json_number (sp_renew_after_fraction s) | _ => true end.

(** Ids in order, [UNIQUE(org_id, name)], and settings that are JSON. *)
Definition jobs_wf (t : Table JobRow) : Prop :=
  table_wf jr_id t /\ NoDup (map job_key (rows t)) /\ Forall (fun r => json_column (jr_spec r) = true) (rows t).

Lemma select1_jobs org name t : select1 (job_named org name) t = jobs_of t !! (org, name).
Proof.
  unfold select1, jobs_of. induction (rows t) as [|r l IH]; simpl; [done|]. unfold job_named, job_key at 1. destruct (Z.eqb_spec (jr_org r) org) as [<-|Ho]; simpl.
  - destruct (String.eqb_spec (jr_name r) name) as [<-|Hn]; [by rewrite lookup_insert_eq|]. rewrite lookup_insert_ne by congruence. exact IH.
  - rewrite lookup_insert_ne by congruence. exact IH.
Qed.

Lemma jobs_of_Some t k r : NoDup (map job_key (rows t)) -> jobs_of t !! k = Some r <-> r ∈ rows t /\ job_key r = k.
Proof.
  intros Hn. unfold jobs_of. rewrite <- elem_of_list_to_map by (by rewrite <- list_fmap_compose).
  rewrite elem_of_map. split; [intros (x & Hx & [= -> ->]); done|]. intros [Hr <-]. by exists r.
Qed.

(** No two jobs of an org share a name. *)
Lemma job_key_inj t r1 r2 : jobs_wf t -> r1 ∈ rows t -> r2 ∈ rows t -> job_key r1 = job_key r2 -> r1 = r2.
Proof.
  intros (_ & Hn & _) H1 H2 E. assert (E1 : jobs_of t !! job_key r1 = Some r1) by (by apply jobs_of_Some).
  assert (E2 : jobs_of t !! job_key r2 = Some r2) by (by apply jobs_of_Some). congruence.
Qed.

Lemma jobs_of_key t k r : jobs_wf t -> jobs_of t !! k = Some r -> job_key r = k.
Proof. intros (_ & Hn & _) Hr. by apply jobs_of_Some in Hr as [_ Hk]. Qed.

Lemma jobs_of_None t k : jobs_of t !! k = None <-> forall r, r ∈ rows t -> job_key r <> k.
Proof.
  unfold jobs_of. rewrite <- not_elem_of_list_to_map, <- list_fmap_compose. split.
  - intros Hn r Hr E. apply Hn. rewrite list_elem_of_fmap. exists r. by split.
  - intros Hn Hk. apply list_elem_of_fmap in Hk as (r & -> & Hr). by eapply Hn.
Qed.

(** The row with the id of one that is in the table. *)
Lemma is_job_row t r x : table_wf jr_id t -> r ∈ rows t -> x ∈ rows t -> is_job (jr_org r) (jr_id r) x = true <-> x = r.
Proof.
  intros Hw Hr Hx. unfold is_job. rewrite andb_true_iff, !Z.eqb_eq. split; [|by intros ->]. intros [_ He]. by eapply table_key_inj.
Qed.

(** Rewriting one row of the table. *)
Lemma elem_of_update_job t r f y : table_wf jr_id t -> r ∈ rows t ->
  y ∈ rows (update_where (is_job (jr_org r) (jr_id r)) f t) <-> y = f r \/ (y ∈ rows t /\ y <> r).
Proof.
  intros Hw Hr. rewrite elem_of_update. split.
  - intros (z & Hz & ->). destruct (is_job (jr_org r) (jr_id r) z) eqn:E; [apply (is_job_row t r z Hw Hr Hz) in E as ->; by left|].
    right. split; [done|]. intros ->. by rewrite (proj2 (is_job_row t r r Hw Hr Hr) eq_refl) in E.
  - intros [->|[Hy Hne]]; [exists r|exists y]; (split; [done|]).
    + by rewrite (proj2 (is_job_row t r r Hw Hr Hr) eq_refl).
    + destruct (is_job (jr_org r) (jr_id r) y) eqn:E; [|done]. by apply (is_job_row t r y Hw Hr Hy) in E.
Qed.

Lemma table_wf_NoDup t : table_wf jr_id t -> NoDup (rows t).
Proof.
  intros (Hs & _). apply (NoDup_fmap_1 jr_id). change (jr_id <$> rows t) with (map jr_id (rows t)). induction Hs as [|x l Hs IH Hf]; constructor; [|done].
  intros Hx. rewrite Forall_elem in Hf. specialize (Hf _ Hx). lia.
Qed.

(** It may get a new key that no other row has. *)
Lemma jobs_wf_update t r f : jobs_wf t -> r ∈ rows t -> (forall y, jr_id (f y) = jr_id y) ->
  (forall y, y ∈ rows t -> job_key y = job_key (f r) -> y = r) -> json_column (jr_spec (f r)) = true ->
  jobs_wf (update_where (is_job (jr_org r) (jr_id r)) f t).
Proof.
  intros Hwf Hr Hid Hk Hx. pose proof Hwf as (Hw & Hn & Hj). set (t' := update_where _ f t). assert (Hw' : table_wf jr_id t') by (by apply table_wf_update).
  split; [done|]. split.
  - apply NoDup_fmap_2_strong; [|by apply table_wf_NoDup]. intros y z Hy Hz E. apply elem_of_update_job in Hy as [->|[Hy Hyr]], Hz as [->|[Hz Hzr]]; try done.
    + by destruct Hzr; apply Hk.
    + by destruct Hyr; apply Hk.
    + by apply (job_key_inj t).
  - rewrite Forall_elem in *. intros y [->|[Hy _]]%elem_of_update_job; [done|by apply Hj|done|done].
Qed.

Lemma update_job t r f : jobs_wf t -> r ∈ rows t -> (forall y, jr_id (f y) = jr_id y) -> job_key (f r) = job_key r -> json_column (jr_spec (f r)) = true ->
  let t' := update_where (is_job (jr_org r) (jr_id r)) f t in
  jobs_wf t' /\ jobs_of t' = <[job_key r := f r]> (jobs_of t).
Proof.
  intros Hwf Hr Hid Hk Hx t'. pose proof Hwf as (Hw & Hn & _).
  assert (Hwf' : jobs_wf t') by (apply jobs_wf_update; [done..| |done]; intros y Hy E; rewrite Hk in E; by apply (job_key_inj t)).
  split; [done|]. destruct Hwf' as (_ & Hn' & _).
  apply map_eq. intros k. apply option_eq. intros y. rewrite (jobs_of_Some t' k y Hn'), lookup_insert_Some, jobs_of_Some by done.
  unfold t'. rewrite elem_of_update_job by done. split.
  - intros [[->|[Hy Hne]] <-]; [by left; rewrite Hk|right]. split; [|by split]. intros Ek. apply Hne. by apply (job_key_inj t).
  - intros [[<- <-]|(Hne & Hy & <-)]; [by split; [left|]|]. split; [right; split; [done|]|done]. by intros ->.
Qed.

(** Adding a row to the table. *)
Lemma insert_job t mk : jobs_wf t -> (forall i, jr_id (mk i) = i) -> jobs_of t !! job_key (mk (next_id t)) = None -> json_column (jr_spec (mk (next_id t))) = true ->
  jobs_wf (insert_row mk t) /\ jobs_of (insert_row mk t) = <[job_key (mk (next_id t)) := mk (next_id t)]> (jobs_of t).
Proof.
  intros (Hw & Hn & Hj) Hid Hnone Hx. assert (Hn' : NoDup (map job_key (rows (insert_row mk t)))).
  { unfold insert_row. cbn [rows]. rewrite map_app, NoDup_app. split; [done|]. split; [|by apply NoDup_singleton].
    intros k (y & -> & Hy)%list_elem_of_fmap Ek%list_elem_of_singleton. rewrite jobs_of_None in Hnone. by apply (Hnone y). }
  split; [split; [by apply table_wf_insert|split; [done|]]|].
  - unfold insert_row. cbn [rows]. apply Forall_app. by repeat constructor.
  - apply map_eq. intros k. apply option_eq. intros y. rewrite jobs_of_Some, elem_of_insert, lookup_insert_Some, jobs_of_Some by done. split.
    + intros [[Hy| ->] <-]; [right|by left]. split; [|by split]. rewrite jobs_of_None in Hnone. intros E. by apply (Hnone y Hy).
    + intros [[<- <-]|(Hne & Hy & <-)]; [by split; [right|]|by split; [left|]].
Qed.

(** ** Reading and writing jobs *)

Lemma scanJob_error r e : scanJob r = Error e -> e = ErrUnreadableJob (jr_org r) (jr_id r) (jr_name r).
Proof. unfold scanJob. repeat case_match; congruence. Qed.

(** A spec column that can be read can be written back. *)
Lemma encodeSpec_stored r j : json_column (jr_spec r) = true -> scanJob r = Ok j -> encodeSpec (j_spec j) = Ok (spec_column (j_spec j)).
Proof.
  intros Hj (_ & _ & _ & _ & Hs & _)%scanJob_fields. unfold encodeSpec. destruct (jr_spec r) as [|sp|]; simpl in *; [by injection Hs as <-| |done]. injection Hs as <-. by rewrite Hj.
Qed.

Lemma json_spec_column s c : encodeSpec s = Ok c -> json_column (spec_column s) = true.
Proof. unfold encodeSpec. destruct s as [sp|]; simpl; [|done]. destruct (sp_renew_after_fraction sp); done. Qed.

(** A sync changes only the jobs table. *)
Definition only_jobs (d d' : DB) : Prop := d' = on_jobs (fun _ => db_jobs d') d.

Lemma only_jobs_refl d : only_jobs d d.
Proof. by destruct d. Qed.
Lemma only_jobs_trans d1 d2 d3 : only_jobs d1 d2 -> only_jobs d2 d3 -> only_jobs d1 d3.
Proof. unfold only_jobs. intros H1 H2. rewrite H2, H1. by destruct d1. Qed.

Section Reconciled.
Context `{World} `{JSONText} `{URLs} `{GoText}.

(** The database after a job was written: [r] under its name. *)
Definition wrote (r : JobRow) (d d' : DB) : Prop :=
  only_jobs d d' /\ jobs_wf (db_jobs d') /\ jobs d' = <[job_key r := r]> (jobs d).

Lemma GetJobByName_reads `{!Reliable} org name s : exists s',
  GetJobByName org name s = (match jobs (st_db s) !! (org, name) with None => Error ErrNotFound | Some r => scanJob r end, s') /\ st_db s' = st_db s.
Proof.
  unfold GetJobByName, autocommit. unfold bind at 1. rewrite tx_reliable. unfold bind, query, ret. cbn [st_db st_tick]. rewrite select1_jobs.
  fold (jobs (st_db s)). destruct (jobs (st_db s) !! (org, name)) as [r|]; simpl; [destruct (scanJob r)|]; by eexists.
Qed.

Lemma CreateJob_writes `{!Reliable} j c s : jobs_wf (db_jobs (st_db s)) -> encodeSpec (j_spec j) = Ok c -> jobs (st_db s) !! (j_org j, j_name j) = None ->
  exists id t s', CreateJob j s = (Ok id, s') /\ wrote (job_row id j (Val t) t 0 None) (st_db s) (st_db s').
Proof.
  intros Hw He Hn. unfold CreateJob, autocommit. rewrite He, tx_reliable. unfold bind at 1 2, now_ at 1. cbn [st_db st_tick]. unfold bind at 1, query at 1. cbn [st_db st_tick].
  unfold jobs in Hn. rewrite <- select1_jobs, select1_None in Hn. rewrite (proj2 (exists_row_false _ _) Hn).
  unfold bind, query, exec, ret. cbn [st_db st_tick]. eexists _, _, _. split; [reflexivity|]. cbn [st_db].
  destruct (insert_job (db_jobs (st_db s)) (fun i => job_row i j (Val (clock (S (st_tick s)))) (clock (S (st_tick s))) 0 None) Hw) as [Hw' Hj].
  - done.
  - change (job_key _) with (j_org j, j_name j). rewrite <- select1_jobs. by apply select1_None.
  - by eapply json_spec_column.
  - by split.
Qed.

Lemma UpdateJob_writes `{!Reliable} j c r s : jobs_wf (db_jobs (st_db s)) -> encodeSpec (j_spec j) = Ok c -> jobs (st_db s) !! (j_org j, j_name j) = Some r -> jr_id r = j_id j ->
  exists t s', UpdateJob j s = (Ok tt, s') /\
    wrote (job_row (jr_id r) j (jr_created_at r) t (jr_failed_runs r) (jr_failing_since r)) (st_db s) (st_db s').
Proof.
  intros Hw He Hr Hid. pose proof Hw as (Hw0 & Hn & _). unfold jobs in Hr. apply jobs_of_Some in Hr as [Hr Hk]; [|done].
  assert (Ho : jr_org r = j_org j) by (unfold job_key in Hk; congruence).
  unfold UpdateJob, autocommit. rewrite He, tx_reliable. unfold bind at 1 2, now_ at 1. cbn [st_db st_tick]. unfold bind at 1, query at 1. cbn [st_db st_tick].
  rewrite (proj2 (exists_row_false (fun x => job_named (j_org j) (j_name j) x && negb (jr_id x =? j_id j)) (db_jobs (st_db s)))).
  2:{ intros x Hx. destruct (job_named (j_org j) (j_name j) x) eqn:E; [|done]. unfold job_named in E. bsimpl. assert (x = r) as ->.
      { apply (job_key_inj (db_jobs (st_db s))); [done..|]. rewrite Hk. unfold job_key. congruence. }
      rewrite Hid, Z.eqb_refl. done. }
  rewrite andb_false_r. unfold bind, query, exec, ret. cbn [st_db st_tick].
  destruct (Z.eqb_spec (count_where (is_job (j_org j) (j_id j)) (db_jobs (st_db s))) 0) as [Hc|_].
  { rewrite count_where_0 in Hc. specialize (Hc r Hr). unfold is_job in Hc. by rewrite Ho, Hid, !Z.eqb_refl in Hc. }
  eexists _, _. split; [reflexivity|]. cbn [st_db]. rewrite <- Ho, <- Hid.
  destruct (update_job (db_jobs (st_db s)) r (fun y => job_row (jr_id y) j (jr_created_at y) (clock (S (st_tick s))) (jr_failed_runs y) (jr_failing_since y)) Hw Hr) as [Hw' Hj].
  - done.
  - by rewrite Hk.
  - by eapply json_spec_column.
  - split; [done|]. split; [exact Hw'|]. unfold jobs. cbn [db_jobs on_jobs]. etrans; [exact Hj|]. by rewrite Hk.
Qed.

End Reconciled.

(** ** A sync of jobs *)

Section Syncs.
Context `{World} `{JSONText} `{GoText} (err_text : Err -> bytes) (cron_parse : string -> option (Time -> Time)).

(** When the job of the file is due next, by the row it finds. *)
Definition next_of (now : Time) (pj : Job) (old : option JobRow) : Time :=
  match scanJob <$> old with
  | Some (Ok j) => if scheduleChanged j pj || IsZero (j_next_run_at j) then mustNextRun cron_parse pj now else j_next_run_at j
  | _ => mustNextRun cron_parse pj now
  end.

(** [r] says what the file says of [pj]: in a new row, or with the id, the time
    of creation and the failing streak of the row it finds. *)
Definition synced (now : Time) (org : Z) (pj : Job) (old : option JobRow) (r : JobRow) : Prop := exists id created n since t,
  r = job_row id (with_next (with_ids pj 0 org zero_time) (next_of now pj old)) created t n since /\
  match old with
  | Some o => id = jr_id o /\ created = jr_created_at o /\ n = jr_failed_runs o /\ since = jr_failing_since o
  | None => created = Val t /\ n = 0 /\ since = None
  end.

Definition counted (old : option JobRow) (result : ReconcileResult) : ReconcileResult :=
  match old with None => count_created result | Some _ => count_updated result end.

Definition storable (pj : Job) : Prop := exists c, encodeSpec (j_spec pj) = Ok c.

(** Writing a job of the file. *)
Lemma reconcile_job_writes `{!Reliable} now org result pj s : jobs_wf (db_jobs (st_db s)) -> storable pj ->
  let old := jobs (st_db s) !! (org, j_name pj) in exists r s',
  reconcile_job err_text cron_parse org now result pj s = (Ok (counted old result), s') /\
  synced now org pj old r /\ wrote r (st_db s) (st_db s').
Proof.
  intros Hw [c Hc] old. unfold reconcile_job. cbn [with_ids j_name j_id j_org j_created_at].
  destruct (GetJobByName_reads org (j_name pj) s) as (s1 & Eg & E1). fold old in Eg. unfold bind at 1, try. rewrite Eg.
  destruct old as [o|] eqn:Eo.
  - assert (Ek : job_key o = (org, j_name pj)) by (by eapply jobs_of_key). unfold synced, next_of, counted. simpl.
    destruct (scanJob o) as [ex|e] eqn:Es.
    + pose proof (scanJob_fields _ _ Es) as (Hid & Horg & _). unfold job_key in Ek. injection Ek as Ho Hn.
      set (next := if scheduleChanged ex _ || _ then _ else _).
      destruct (UpdateJob_writes (with_next (with_ids (with_ids pj (j_id pj) org (j_created_at pj)) (j_id ex) (j_org ex) (j_created_at ex)) next) c o s1) as (t & s2 & Eu & Hwr);
        [by rewrite E1|done|cbn [with_next with_ids j_org j_name]; by rewrite E1, Horg, Ho|by rewrite Hid|].
      eexists _, s2. unfold during, bind, try. rewrite Eu. unfold ret. split; [reflexivity|]. rewrite E1 in Hwr. split; [|exact Hwr].
      eexists _, _, _, _, t. split; [|done]. rewrite Hid, Horg, Ho. reflexivity.
    + apply scanJob_error in Es as ->. unfold job_key in Ek. injection Ek as Ho Hn.
      destruct (UpdateJob_writes (with_next (with_ids (with_ids pj (j_id pj) org (j_created_at pj)) (jr_id o) org (j_created_at pj)) (mustNextRun cron_parse (with_ids (with_ids pj (j_id pj) org (j_created_at pj)) (jr_id o) org (j_created_at pj)) now)) c o s1) as (t & s2 & Eu & Hwr);
        [by rewrite E1|done|cbn [with_next with_ids j_org j_name]; by rewrite E1|done|].
      eexists _, s2. unfold during, bind, try. rewrite Eu. unfold ret. split; [reflexivity|]. rewrite E1 in Hwr. split; [|exact Hwr].
      eexists _, _, _, _, t. by split.
  - cbn [is_not_found negb]. destruct (CreateJob_writes (with_next (with_ids pj (j_id pj) org (j_created_at pj)) (mustNextRun cron_parse (with_ids pj (j_id pj) org (j_created_at pj)) now)) c s1) as (id & t & s2 & Eu & Hwr);
      [by rewrite E1|done|cbn [with_next with_ids j_org j_name]; by rewrite E1|].
    eexists _, s2. unfold during, bind, try. rewrite Eu. unfold ret. split; [reflexivity|]. rewrite E1 in Hwr. split; [|exact Hwr].
    eexists _, _, _, _, t. by split.
Qed.

Lemma fold_left_ext_in {A B} (f g : A -> B -> A) l a : (forall a x, x ∈ l -> f a x = g a x) -> fold_left f l a = fold_left g l a.
Proof.
  revert a. induction l as [|x l IH]; intros a Hf; simpl; [done|]. rewrite Hf by left. apply IH. intros b y Hy. apply Hf. by right.
Qed.

(** The loop over the file. *)
Lemma reconcile_jobs_write `{!Reliable} now org parsed result s : jobs_wf (db_jobs (st_db s)) -> NoDup (map j_name parsed) -> Forall storable parsed ->
  exists s', reconcile_each (reconcile_job err_text cron_parse org now) result parsed s =
    (Ok (fold_left (fun res pj => counted (jobs (st_db s) !! (org, j_name pj)) res) parsed result), s') /\
  only_jobs (st_db s) (st_db s') /\ jobs_wf (db_jobs (st_db s')) /\
  (forall pj, pj ∈ parsed -> exists r, jobs (st_db s') !! (org, j_name pj) = Some r /\ synced now org pj (jobs (st_db s) !! (org, j_name pj)) r) /\
  (forall k, (forall pj, pj ∈ parsed -> k <> (org, j_name pj)) -> jobs (st_db s') !! k = jobs (st_db s) !! k).
Proof.
  revert result s. induction parsed as [|pj parsed IH]; intros result s Hw Hn Hs; cbn [reconcile_each].
  { exists s. split; [done|]. split; [apply only_jobs_refl|]. split; [done|]. split; [by intros ? ?%elem_of_nil|done]. }
  apply NoDup_cons in Hn as [Hnew Hn]. apply Forall_cons in Hs as [Hpj Hs].
  destruct (reconcile_job_writes now org result pj s Hw Hpj) as (r & s1 & E1 & Hsync & Hd1 & Hw1 & Hj1).
  assert (Hk : job_key r = (org, j_name pj)) by (by destruct Hsync as (? & ? & ? & ? & ? & -> & _)).
  assert (Hother : forall k, k <> (org, j_name pj) -> jobs (st_db s1) !! k = jobs (st_db s) !! k) by (intros k Hne; rewrite Hj1, Hk; by apply lookup_insert_ne).
  assert (Hin : forall x, x ∈ parsed -> (org, j_name x) <> (org, j_name pj)).
  { intros x Hx [= E]. apply Hnew. rewrite <- E. apply elem_of_map. by exists x. }
  destruct (IH (counted (jobs (st_db s) !! (org, j_name pj)) result) s1 Hw1 Hn Hs) as (s2 & E2 & Hd2 & Hw2 & Hsync2 & Hrest2).
  exists s2. unfold bind. rewrite E1, E2. cbn [fold_left]. split; [|split; [by eapply only_jobs_trans|split; [done|split]]].
  - do 2 f_equal. apply fold_left_ext_in. intros res x Hx. by rewrite Hother by (by apply Hin).
  - intros x [->|Hx]%elem_of_cons.
    + exists r. split; [|done]. rewrite Hrest2 by (intros y Hy; apply not_eq_sym; by apply Hin). rewrite Hj1, Hk. by apply lookup_insert_eq.
    + destruct (Hsync2 x Hx) as (rx & Ex & Sx). exists rx. split; [done|]. by rewrite <- (Hother _ (Hin x Hx)).
  - intros k Hne. rewrite Hrest2 by (intros y Hy; apply Hne; by right). apply Hother. apply Hne. left.
Qed.

(** Whether a job that the file does not have is to be disabled. *)
Definition left_out (names : list string) (j : Job) : bool := negb (bool_decide (j_name j ∈ names)) && j_enabled j.

(** A row that holds the job [ej], disabled. *)
Definition disabled_row (o r : JobRow) (ej : Job) : Prop :=
  scanJob o = Ok ej /\ exists t, r = job_row (jr_id o) (disabled ej) (jr_created_at o) t (jr_failed_runs o) (jr_failing_since o).

(** Looking at one job of the store. *)
Lemma prune_job_writes `{!Reliable} org names result ej s : jobs_wf (db_jobs (st_db s)) ->
  (left_out names ej = true -> exists o, jobs (st_db s) !! (org, j_name ej) = Some o /\ scanJob o = Ok ej) ->
  exists s1, prune_job err_text names result ej s = (Ok (if left_out names ej then count_disabled result (j_name ej) else result), s1) /\
    only_jobs (st_db s) (st_db s1) /\ jobs_wf (db_jobs (st_db s1)) /\
    (left_out names ej = true -> exists o r, jobs (st_db s) !! (org, j_name ej) = Some o /\ jobs (st_db s1) !! (org, j_name ej) = Some r /\ disabled_row o r ej) /\
    (forall k, (left_out names ej = true -> k <> (org, j_name ej)) -> jobs (st_db s1) !! k = jobs (st_db s) !! k).
Proof.
  intros Hw Hf. unfold prune_job, left_out in *. case_bool_decide; cbn [negb andb] in *; [by exists s; split_and!; [|apply only_jobs_refl| | |]|].
  destruct (j_enabled ej); cbn [negb] in *; [|by exists s; split_and!; [|apply only_jobs_refl| | |]].
  destruct (Hf eq_refl) as (o & Eo & Es). pose proof (scanJob_fields _ _ Es) as (Hid & Horg & _). pose proof (jobs_of_key _ _ _ Hw Eo) as Hk. unfold job_key in Hk. injection Hk as Ho Hname.
  assert (Hjson : json_column (jr_spec o) = true).
  { destruct Hw as (_ & Hn & Hjson). rewrite Forall_elem in Hjson. apply Hjson. by apply jobs_of_Some in Eo as [Hr _]. }
  destruct (UpdateJob_writes (disabled ej) (spec_column (j_spec ej)) o s Hw) as (t & s1 & Eu & Hd & Hw1 & Hj1);
    [exact (encodeSpec_stored o ej Hjson Es)|cbn [disabled j_org j_name]; by rewrite Horg, Ho|done|].
  exists s1. unfold during, bind, try. rewrite Eu. unfold ret. split; [done|]. split; [done|]. split; [done|].
  assert (Ek : job_key (job_row (jr_id o) (disabled ej) (jr_created_at o) t (jr_failed_runs o) (jr_failing_since o)) = (org, j_name ej)) by (unfold job_key; cbn; by rewrite Horg, Ho).
  rewrite Ek in Hj1. split.
  - intros _. eexists _, _. split; [done|]. split; [rewrite Hj1; apply lookup_insert_eq|]. split; [done|]. by exists t.
  - intros k Hne. rewrite Hj1. apply lookup_insert_ne. apply not_eq_sym. by apply Hne.
Qed.

(** The loop over the jobs the store had. *)
Lemma prune_jobs_write `{!Reliable} org names existing result s : jobs_wf (db_jobs (st_db s)) ->
  NoDup (map j_name existing) ->
  (forall ej, ej ∈ existing -> left_out names ej = true -> exists o, jobs (st_db s) !! (org, j_name ej) = Some o /\ scanJob o = Ok ej) ->
  exists s', reconcile_each (prune_job err_text names) result existing s =
    (Ok (fold_left count_disabled (map j_name (List.filter (left_out names) existing)) result), s') /\
  only_jobs (st_db s) (st_db s') /\ jobs_wf (db_jobs (st_db s')) /\
  (forall ej, ej ∈ existing -> left_out names ej = true -> exists o r,
     jobs (st_db s) !! (org, j_name ej) = Some o /\ jobs (st_db s') !! (org, j_name ej) = Some r /\ disabled_row o r ej) /\
  (forall k, (forall ej, ej ∈ existing -> left_out names ej = true -> k <> (org, j_name ej)) -> jobs (st_db s') !! k = jobs (st_db s) !! k).
Proof.
  revert result s. induction existing as [|ej existing IH]; intros result s Hw Hn Hf; cbn [reconcile_each].
  { exists s. split; [done|]. split; [apply only_jobs_refl|]. split; [done|]. split; [by intros ? ?%elem_of_nil|done]. }
  apply NoDup_cons in Hn as [Hnew Hn]. cbn [List.filter].
  destruct (prune_job_writes org names result ej s Hw (Hf ej ltac:(left))) as (s1 & E1 & Hd1 & Hw1 & Hdis & Hother).
  assert (Hin : forall x, x ∈ existing -> (org, j_name x) <> (org, j_name ej)).
  { intros x Hx [= E]. apply Hnew. rewrite <- E. apply elem_of_map. by exists x. }
  destruct (IH (if left_out names ej then count_disabled result (j_name ej) else result) s1 Hw1 Hn) as (s2 & E2 & Hd2 & Hw2 & Hdis2 & Hrest2).
  { intros x Hx Hl. rewrite Hother by (intros _; by apply Hin). apply Hf; [by right|done]. }
  exists s2. unfold bind. rewrite E1, E2. split; [|split; [by eapply only_jobs_trans|split; [done|split]]].
  - by destruct (left_out names ej).
  - intros x [->|Hx]%elem_of_cons Hl.
    + destruct (Hdis Hl) as (o & r & Eo & Er & Hrow). exists o, r. split; [done|]. split; [|done]. rewrite Hrest2; [done|]. intros y Hy _. apply not_eq_sym. by apply Hin.
    + destruct (Hdis2 x Hx Hl) as (o & r & Eo & Er & Hrow). exists o, r. split; [|done]. by rewrite <- (Hother (org, j_name x)) by (intros _; by apply Hin).
  - intros k Hne. rewrite Hrest2 by (intros y Hy; apply Hne; by right). apply Hother. apply Hne. left.
Qed.

(** ** Whatever a sync did before *)

Lemma CreateJob_keeps j s : jobs_wf (db_jobs (st_db s)) -> jobs_wf (db_jobs (st_db (snd (CreateJob j s)))).
Proof.
  intros Hw. unfold CreateJob. destruct (encodeSpec (j_spec j)) as [c|e] eqn:Ec; [|done]. unfold autocommit.
  set (body := bind _ _). pose proof (tx_atomic body s) as Ht. destruct (tx body s) as [r s']. destruct Ht as [E|(a & s1 & Eb & E & _)]; cbn [snd]; rewrite E; [done|].
  revert Eb. unfold body, bind, now_, query, exec, ret, throw. cbn. destruct (exists_row _ _) eqn:En; [discriminate|]. intros [= _ <-]. cbn.
  rewrite exists_row_false in En. apply insert_job; [done|done| |by eapply json_spec_column].
  change (job_key _) with (j_org j, j_name j). rewrite <- select1_jobs. by apply select1_None.
Qed.

Lemma UpdateJob_keeps j s : jobs_wf (db_jobs (st_db s)) -> jobs_wf (db_jobs (st_db (snd (UpdateJob j s)))).
Proof.
  intros Hw. unfold UpdateJob. destruct (encodeSpec (j_spec j)) as [c|e] eqn:Ec; [|done]. unfold autocommit.
  set (body := bind _ _). pose proof (tx_atomic body s) as Ht. destruct (tx body s) as [r s']. destruct Ht as [E|(a & s1 & Eb & E & _)]; cbn [snd]; rewrite E; [done|].
  revert Eb. unfold body, bind, now_, query, exec, ret, throw. cbn. destruct (_ && _) eqn:Et; [discriminate|].
  cbn [st_db st_tick].
  destruct (Z.eqb_spec (count_where (is_job (j_org j) (j_id j)) (db_jobs (st_db s))) 0) as [|Hc]; [discriminate|]. intros [= _ <-]. cbn.
  assert (Hr : exists_row (is_job (j_org j) (j_id j)) (db_jobs (st_db s)) = true).
  { apply not_false_iff_true. intros Hf. apply Hc. apply count_where_0. by apply exists_row_false. }
  rewrite Hr in Et. simpl in Et. apply exists_row_true in Hr as (o & Ho & Hi). apply andb_true_iff in Hi as [Hio%Z.eqb_eq Hii%Z.eqb_eq].
  rewrite <- Hio, <- Hii in Et |- *.
  apply jobs_wf_update; [done|done|done| |by eapply json_spec_column]. intros y Hy Ek. rewrite exists_row_false in Et. specialize (Et y Hy).
  unfold job_named in Et. unfold job_key in Ek. cbn in Ek. injection Ek as E1 E2. rewrite E1, E2, Hio, Z.eqb_refl, String.eqb_refl in Et. simpl in Et. bsimpl.
  eapply (table_key_inj jr_id); [apply Hw|done|done|congruence].
Qed.

Lemma keeps_during {A} I what (m : Store A) : preserves I m -> preserves I (during err_text what m).
Proof. intros Hm. unfold during. apply preserves_bind; [by apply preserves_try|]. intros [a|e]; [apply preserves_ret|apply preserves_throw]. Qed.

Lemma keeps_reconcile_each {A} I (f : ReconcileResult -> A -> Store ReconcileResult) l :
  (forall res x, preserves I (f res x)) -> forall res, preserves I (reconcile_each f res l).
Proof. intros Hf. induction l as [|x l IH]; intros res; [apply preserves_ret|]. cbn [reconcile_each]. apply preserves_bind; [apply Hf|intros a; apply IH]. Qed.

Lemma reconcileJobs_keeps org parsed prune result : preserves (fun d => jobs_wf (db_jobs d)) (reconcileJobs err_text cron_parse org parsed prune result).
Proof.
  assert (Hread : forall A (f : DB -> A), preserves (fun d => jobs_wf (db_jobs d)) (autocommit (query f))) by (intros A f; apply preserves_autocommit; by apply hoare_query).
  assert (Hjob : forall now res pj, preserves (fun d => jobs_wf (db_jobs d)) (reconcile_job err_text cron_parse org now res pj)).
  { intros now res pj. unfold reconcile_job. apply preserves_bind.
    - apply preserves_try. unfold GetJobByName. apply preserves_bind; [apply Hread|]. intros [r|]; simpl; [destruct (scanJob r); [apply preserves_ret|apply preserves_throw]|apply preserves_throw].
    - intros [j|e].
      + apply preserves_bind; [apply keeps_during; intros s; apply UpdateJob_keeps|intros _; apply preserves_ret].
      + destruct e; simpl; try (apply keeps_during, preserves_throw);
          (apply preserves_bind; [apply keeps_during; intros s; (apply CreateJob_keeps || apply UpdateJob_keeps)|intros _; apply preserves_ret]). }
  unfold reconcileJobs. apply preserves_bind; [apply preserves_now|]. intros now. apply preserves_bind; [apply keeps_during; apply Hread|]. intros [existing un].
  apply preserves_bind; [by apply keeps_reconcile_each|]. intros res. destruct prune; [|apply preserves_ret]. apply keeps_reconcile_each. intros res' ej. unfold prune_job.
  destruct (bool_decide _); [apply preserves_ret|]. destruct (negb _); [apply preserves_ret|]. apply preserves_bind; [apply keeps_during; intros s; apply UpdateJob_keeps|intros _; apply preserves_ret].
Qed.

(** ** The sync as a whole *)

(** The jobs that [ListJobs] can read, in id order. *)
Definition listed (org : Z) (d : DB) : list Job := fst (scanJobs (select (fun r => jr_org r =? org) (db_jobs d))).

Lemma elem_of_listed org d j : NoDup (map job_key (rows (db_jobs d))) ->
  j ∈ listed org d <-> exists r, jobs d !! (org, j_name j) = Some r /\ scanJob r = Ok j.
Proof.
  intros Hn. unfold listed. rewrite (proj1 (scanJobs_spec _)). setoid_rewrite elem_of_select. unfold jobs. setoid_rewrite jobs_of_Some; [|done]. split.
  - intros (r & (Hr & Ho%Z.eqb_eq) & Es). exists r. split; [|done]. split; [done|]. apply scanJob_fields in Es as (_ & _ & -> & _). unfold job_key. congruence.
  - intros (r & (Hr & Hk) & Es). exists r. split; [|done]. split; [done|]. apply Z.eqb_eq. unfold job_key in Hk. congruence.
Qed.

Lemma listed_NoDup org d : NoDup (map job_key (rows (db_jobs d))) -> NoDup (map j_name (listed org d)).
Proof.
  unfold listed, select. induction (rows (db_jobs d)) as [|r l IH]; simpl; [constructor|]. intros [Hr Hl]%NoDup_cons. specialize (IH Hl).
  destruct (Z.eqb_spec (jr_org r) org) as [Ho|]; [|done]. cbn [scanJobs]. pose proof (proj1 (scanJobs_spec (List.filter (fun r => jr_org r =? org) l))) as Hspec.
  destruct (scanJobs _) as [out bad]. cbn [fst] in *. destruct (scanJob r) as [j|] eqn:Es; cbn [fst map]; [|done]. constructor; [|done].
  intros (x & Ex & (y & Hy & Ey)%Hspec)%list_elem_of_fmap. apply elem_of_filter_b in Hy as [Hy Hoy%Z.eqb_eq]. apply Hr. apply elem_of_map. exists y. split; [done|].
  apply scanJob_fields in Es as (_ & _ & En & _), Ey as (_ & _ & Eny & _). unfold job_key. congruence.
Qed.

(** What a sync does to a job that is not in its file. *)
Definition left_alone (prune : bool) (old r : JobRow) : Prop :=
  match scanJob old with
  | Ok j => if prune && j_enabled j then disabled_row old r j else r = old
  | Error _ => r = old
  end.

Lemma left_alone_refl r : left_alone false r r.
Proof. unfold left_alone. by destruct (scanJob r). Qed.

Lemma left_out_true names j : left_out names j = true <-> (j_name j ∉ names) /\ j_enabled j = true.
Proof. unfold left_out. case_bool_decide; cbn [negb andb]; (split; [done|by intros []]). Qed.

(** The result after counting: the jobs created, updated and disabled, with the
    names of the disabled ones; a sync of jobs counts nothing else. *)
Definition counts (created updated : nat) (disabled : list string) (r : ReconcileResult) : ReconcileResult :=
  {| rc_created := rc_created r + Z.of_nat created; rc_updated := rc_updated r + Z.of_nat updated; rc_disabled := rc_disabled r + Z.of_nat (List.length disabled);
     rc_disabled_names := rc_disabled_names r ++ disabled; rc_channels := rc_channels r; rc_rules := rc_rules r; rc_heartbeats := rc_heartbeats r |}.

Lemma counts_counts c u n c' u' n' r : counts c' u' n' (counts c u n r) = counts (c + c') (u + u') (n ++ n') r.
Proof. unfold counts. cbn. f_equal; rewrite ?length_app; try lia. by rewrite app_assoc. Qed.
Lemma counts_none r : counts 0 0 [] r = r.
Proof. destruct r. unfold counts. cbn. f_equal; try lia. by rewrite app_nil_r. Qed.

Lemma fold_counted (f : Job -> option JobRow) parsed result : fold_left (fun res pj => counted (f pj) res) parsed result =
  counts (List.length (List.filter (fun pj => bool_decide (f pj = None)) parsed)) (List.length (List.filter (fun pj => negb (bool_decide (f pj = None))) parsed)) [] result.
Proof.
  revert result. induction parsed as [|pj l IH]; intros result; simpl; [by rewrite counts_none|]. rewrite IH.
  assert (counted (f pj) result = counts (if bool_decide (f pj = None) then 1 else 0) (if bool_decide (f pj = None) then 0 else 1) [] result) as ->.
  { unfold counted, counts, count_created, count_updated. destruct (f pj); simpl; f_equal; try lia; by rewrite app_nil_r. }
  rewrite counts_counts. by destruct (f pj).
Qed.

Lemma fold_disabled names result : fold_left count_disabled names result = counts 0 0 names result.
Proof.
  revert result. induction names as [|n l IH]; intros result; simpl; [by rewrite counts_none|]. rewrite IH.
  assert (count_disabled result n = counts 0 0 [n] result) as -> by (unfold count_disabled, counts; simpl; f_equal; lia). apply counts_counts.
Qed.

Lemma ListJobs_lists `{!Reliable} org s : exists un s', ListJobs org s = (Ok (listed org (st_db s), un), s') /\ st_db s' = st_db s.
Proof.
  unfold ListJobs, autocommit. rewrite tx_reliable. unfold bind, query, ret, listed. cbn [st_db st_tick]. destruct (scanJobs _) as [out bad].
  by eexists _, _.
Qed.

(** The rows that are not in the file, by what became of the jobs to disable. *)
Lemma listed_left_alone (org : Z) (names : list string) (d : DB) (m : gmap (Z * string) JobRow) : NoDup (map job_key (rows (db_jobs d))) ->
  (forall ej, ej ∈ listed org d -> left_out names ej = true -> exists old r, jobs d !! (org, j_name ej) = Some old /\ m !! (org, j_name ej) = Some r /\ disabled_row old r ej) ->
  forall o name, o <> org \/ name ∉ names ->
  ((forall ej, ej ∈ listed org d -> left_out names ej = true -> (o, name) <> (org, j_name ej)) -> m !! (o, name) = jobs d !! (o, name)) ->
  option_Forall2 (left_alone (o =? org)) (jobs d !! (o, name)) (m !! (o, name)).
Proof.
  intros Hn Hdis o name Hk Hrest. assert (Hsame : forall P, (forall ej, ej ∈ listed org d -> left_out names ej = true -> (o, name) = (org, j_name ej) -> False) ->
    match jobs d !! (o, name) with Some old => left_alone P old old | None => True end -> option_Forall2 (left_alone P) (jobs d !! (o, name)) (m !! (o, name))).
  { intros P Hno Ha. rewrite Hrest by (intros ej Hej Hl E; by eapply Hno). destruct (jobs d !! (o, name)); by constructor. }
  destruct (Z.eqb_spec o org) as [->|Ho]; [|apply Hsame; [congruence|destruct (jobs d !! (o, name)); [apply left_alone_refl|done]]].
  destruct (jobs d !! (org, name)) as [old|] eqn:Eold; cycle 1.
  { apply Hsame; [|done]. intros ej Hej _ [= ->]. apply elem_of_listed in Hej as (r & Er & _); congruence. }
  assert (Hrow : job_key old = (org, name)) by (unfold jobs in Eold; by apply jobs_of_Some in Eold as [_ ?]).
  destruct (scanJob old) as [j|e] eqn:Es; [destruct (j_enabled j) eqn:En|].
  - assert (Ej : j_name j = name) by (apply scanJob_fields in Es as (_ & _ & -> & _); unfold job_key in Hrow; congruence).
    destruct (Hdis j) as (old' & r & Eo & Er & Hd).
    { apply elem_of_listed; [done|]. exists old. by rewrite Ej. }
    { apply left_out_true. rewrite Ej. split; [by destruct Hk|done]. }
    rewrite Ej in *. rewrite Er. constructor. unfold left_alone. rewrite Es, En. simpl. congruence.
  - apply Hsame; [|unfold left_alone; by rewrite Es, En]. intros ej Hej [_ Hl]%left_out_true [= ->].
    apply elem_of_listed in Hej as (r & Er & Es'); [|done]. congruence.
  - apply Hsame; [|unfold left_alone; by rewrite Es]. intros ej Hej _ [= ->].
    apply elem_of_listed in Hej as (r & Er & Es'); [|done]. congruence.
Qed.

(** The store after a sync: each job of the file as the file has it; the other
    jobs of the org disabled, if asked to and if they can be read, and nothing
    else changed; and the result says how many were created, updated and
    disabled, and which ones. *)
Definition in_sync (now : Time) (org : Z) (parsed : list Job) (prune : bool) (d d' : DB) (result : ReconcileResult) : Prop :=
  only_jobs d d' /\
  (forall pj, pj ∈ parsed -> exists r, jobs d' !! (org, j_name pj) = Some r /\ synced now org pj (jobs d !! (org, j_name pj)) r) /\
  (forall o name, o <> org \/ name ∉ map j_name parsed ->
     option_Forall2 (left_alone (prune && (o =? org))) (jobs d !! (o, name)) (jobs d' !! (o, name))) /\
  result = counts (List.length (List.filter (fun pj => bool_decide (jobs d !! (org, j_name pj) = None)) parsed))
    (List.length (List.filter (fun pj => negb (bool_decide (jobs d !! (org, j_name pj) = None))) parsed))
    (if prune then map j_name (List.filter (left_out (map j_name parsed)) (listed org d)) else []) no_result.

Lemma reconcileJobs_total `{!Reliable} org parsed prune s : jobs_wf (db_jobs (st_db s)) -> NoDup (map j_name parsed) -> Forall storable parsed ->
  exists result s', reconcileJobs err_text cron_parse org parsed prune no_result s = (Ok result, s') /\
  in_sync (clock (st_tick s)) org parsed prune (st_db s) (st_db s') result.
Proof.
  intros Hw Hn Hs. pose proof Hw as (_ & Hkeys & _). unfold in_sync, reconcileJobs, now_. unfold bind at 1. set (s0 := mkSt _ _). change (st_db s) with (st_db s0).
  destruct (ListJobs_lists org s0) as (un & s1 & El & E1). unfold bind at 1, during at 1, bind at 1, try. rewrite El. unfold ret at 1. cbn beta iota.
  destruct (reconcile_jobs_write (clock (st_tick s)) org parsed no_result s1) as (s2 & E2 & Hd2 & Hw2 & Hsync & Hrest); [by rewrite E1|done|done|].
  rewrite E1 in E2, Hsync, Hrest, Hd2. unfold bind. rewrite E2.
  pose proof (fold_counted (fun pj => jobs (st_db s0) !! (org, j_name pj)) parsed no_result) as Hres. set (res := fold_left _ parsed no_result) in *.
  assert (Hkeep : forall o name, o <> org \/ name ∉ map j_name parsed -> jobs (st_db s2) !! (o, name) = jobs (st_db s0) !! (o, name)).
  { intros o name Hk. apply Hrest. intros pj Hpj [= -> ->]. destruct Hk as [Hk|Hk]; [done|]. apply Hk. apply elem_of_map. by exists pj. }
  destruct prune.
  - destruct (prune_jobs_write org (map j_name parsed) (listed org (st_db s0)) res s2 Hw2) as (s3 & E3 & Hd3 & _ & Hdis & Hrest3).
    { by apply listed_NoDup. }
    { intros ej Hej Hl. apply elem_of_listed in Hej as (o & Eo & Es); [|done]. exists o. split; [|done]. rewrite Hkeep; [done|]. right.
      by apply left_out_true in Hl as [Hl _]. }
    exists (fold_left count_disabled (map j_name (List.filter (left_out (map j_name parsed)) (listed org (st_db s0)))) res), s3.
    split; [done|]. rewrite fold_disabled, Hres, counts_counts, !Nat.add_0_r. split; [by eapply only_jobs_trans|]. split; [|split; [|done]].
    + intros pj Hpj. destruct (Hsync pj Hpj) as (r & Er & Sr). exists r. split; [|done]. rewrite Hrest3; [done|]. intros ej _ Hl [= E].
      apply left_out_true in Hl as [Hl _]. apply Hl. rewrite <- E. apply elem_of_map. by exists pj.
    + intros o name Hk. apply (listed_left_alone org (map j_name parsed)); [done| |done|].
      * intros ej Hej Hl. destruct (Hdis ej Hej Hl) as (old & r & Eo & Er & Hrow). exists old, r. split; [|done]. rewrite <- Hkeep; [done|right; by apply left_out_true in Hl as [Hl _]].
      * intros Hne. rewrite <- Hkeep by done. by apply Hrest3.
  - exists res, s2. split; [done|]. split; [done|]. split; [done|]. split; [|exact Hres].
    intros o name Hk. rewrite Hkeep by done. destruct (jobs (st_db s0) !! (o, name)); constructor. apply left_alone_refl.
Qed.

End Syncs.

(** ** Convergence *)

Section Converging.
Context `{JSONText} `{GoText} (err_text : Err -> bytes) (cron_parse : string -> option (Time -> Time)).

(** A sync of some org with some file, whatever the database does and however
    it ends. *)
Definition attempted (d d' : DB) : Prop := exists (W : World) org parsed prune tick,
  d' = st_db (snd (@reconcileJobs W _ err_text cron_parse org parsed prune no_result (mkSt d tick))).

Lemma attempted_keeps d d' : rtc attempted d d' -> jobs_wf (db_jobs d) -> jobs_wf (db_jobs d').
Proof.
  induction 1 as [|d d1 d' (W & org & parsed & prune & tick & ->) _ IH]; [done|]. intros Hw. apply IH.
  by apply (reconcileJobs_keeps err_text cron_parse org parsed prune no_result (mkSt d tick)).
Qed.

(** C21: however many syncs were interrupted before, by errors of the database or
    by acknowledgements that were lost, a sync that meets none succeeds and
    brings the org's jobs to what the file says: each job of the file is as the
    file has it, with the id, the creation and the streak of the row it found,
    the others are disabled where pruning was asked for, and the result is the
    number of jobs created, updated and disabled. It is stated for a jobs table
    that is well formed (ids in order, names unique in their org) and for a file
    whose jobs have distinct names and settings that can be stored. *)
Theorem reconcileJobs_converges {W : World} {R : Reliable} (d : DB) (org : Z) (parsed : list Job) (prune : bool) (s : St DB) :
  jobs_wf (db_jobs d) -> rtc attempted d (st_db s) -> NoDup (map j_name parsed) -> Forall storable parsed ->
  exists result s', reconcileJobs err_text cron_parse org parsed prune no_result s = (Ok result, s') /\
  in_sync cron_parse (clock (st_tick s)) org parsed prune (st_db s) (st_db s') result.
Proof. intros Hw Ha Hn Hs. by apply reconcileJobs_total; [exact R|apply (attempted_keeps d)|..]. Qed.

End Converging.

(** The file, the rows it meets (a job it does not have, a job whose settings do
    not decode), and a database that fails the third statement. *)
Definition sync_job (name : string) (typ : JobType) (spec : option Spec) : Job :=
  {| j_id := 0; j_org := 1; j_name := name; j_type := typ; j_command := "true"; j_http_url := ""; j_http_method := ""; j_http_body := ""; j_cron := "";
     j_interval_seconds := 60; j_run_at := zero_time; j_timeout_seconds := 0; j_max_retries := 0; j_enabled := true; j_env := ∅; j_spec := spec;
     j_next_run_at := zero_time; j_created_at := zero_time; j_updated_at := zero_time |}%string.
Definition garbled_row : JobRow :=
  let r := job_row 2 (sync_job "cert" TLS (Some a_tls_spec)) (Val Hour) Hour 0 None in
  {| jr_id := jr_id r; jr_org := jr_org r; jr_name := jr_name r; jr_type := jr_type r; jr_command := jr_command r; jr_http_url := jr_http_url r;
     jr_http_method := jr_http_method r; jr_http_body := jr_http_body r; jr_cron := jr_cron r; jr_interval_seconds := jr_interval_seconds r;
     jr_run_at := jr_run_at r; jr_timeout_seconds := jr_timeout_seconds r; jr_max_retries := jr_max_retries r; jr_enabled := jr_enabled r;
     jr_env := jr_env r; jr_spec := Garbled; jr_next_run := jr_next_run r; jr_created_at := jr_created_at r; jr_updated_at := jr_updated_at r;
     jr_failed_runs := jr_failed_runs r; jr_failing_since := jr_failing_since r |}.
Definition before_sync : DB := on_jobs (fun _ => mkTable [job_row 1 (sync_job "old" Shell None) (Val Hour) Hour 0 None; garbled_row] 3) empty_db.
Definition sync_file : list Job := [sync_job "backup" Shell None; sync_job "cert" TLS (Some a_tls_spec)].

Definition failing_third : World := {| clock n := Hour + Z.of_nat n * Second; fault n := if (n =? 9)%nat then Fails else NoFault |}.
#[local] Instance sync_text : GoText := {| time_Parse _ _ := None; time_ParseDuration _ := None; Quote s := s; FormatG _ := [] |}.
#[local] Instance sync_json : JSONText := plain_text.
Definition no_err_text (e : Err) : bytes := [].
Definition interrupted := @reconcileJobs failing_third _ no_err_text (fun _ => None) 1 sync_file true no_result (mkSt before_sync O).
Definition resumed := @reconcileJobs (steady (2 * Hour)) _ no_err_text (fun _ => None) 1 sync_file true no_result (mkSt (st_db (snd interrupted)) O).

Lemma reconcileJobs_converges_witness :
  (exists e, fst interrupted = Error e) /\
  exists result s', resumed = (Ok result, s') /\
  in_sync (fun _ => None) (@clock (steady (2 * Hour)) 0) 1 sync_file true (st_db (snd interrupted)) (st_db s') result.
Proof.
  split; [eexists; vm_compute; reflexivity|].
  unfold resumed. apply (@reconcileJobs_converges _ no_err_text (fun _ => None) (steady (2 * Hour)) (steady_reliable _) before_sync 1 sync_file true (mkSt (st_db (snd interrupted)) O)).
  - split; [|split].
    + split; [|split]; cbn; [|repeat constructor; lia|lia]. repeat constructor; lia.
    + apply (bool_decide_unpack _). vm_compute. exact I.
    + repeat constructor.
  - apply rtc_once. exists failing_third, 1, sync_file, true, O. reflexivity.
  - apply (bool_decide_unpack _). vm_compute. exact I.
  - repeat constructor; by eexists.
Defined.

(** What the syncs said, and what is in the table in the end: the job of the
    first sync once, the repaired one in its old place, and the disabled one. *)
Example sync_resumed :
  (fst resumed, map (fun r => (jr_id r, jr_name r, jr_enabled r)) (rows (db_jobs (st_db (snd resumed))))) =
  (Ok {| rc_created := 0; rc_updated := 2; rc_disabled := 1; rc_disabled_names := ["old"]; rc_channels := 0; rc_rules := 0; rc_heartbeats := 0 |},
   [(1, "old", false); (2, "cert", true); (3, "backup", true)])%string.
Proof. vm_compute. reflexivity. Qed.

(** A time of creation that does not decode is never written again: the sync
    counts the job as updated and leaves it as unreadable as it was. *)
Definition lost_creation : DB :=
  on_jobs (fun _ => mkTable [job_row 1 (sync_job "backup" Shell None) Garbled Hour 0 None] 2) empty_db.
Example not_repaired :
  let '(r, s) := @reconcileJobs (steady (2 * Hour)) _ no_err_text (fun _ => None) 1 sync_file true no_result (mkSt lost_creation O) in
  (rc_updated <$> (match r with Ok res => Some res | Error _ => None end), scanJob <$> jobs (st_db s) !! (1, "backup"%string)) =
  (Some 1, Some (Error (ErrUnreadableJob 1 1 "backup"))).
Proof. vm_compute. reflexivity. Qed.
