(* ===== verification/SecretRefs.v ===== *)
(** * Secrets in a channel's config ([resolveSecretRefs] of [internal/configfile/configfile.go])

    The texts that carry placeholders, part by part, what each part stands for,
    and the theorem that resolving the references of such a text gives what its
    parts stand for. *)
From S2P Require Import Prelude GoTime Domain Heartbeat Utf8 Failure Redact GoStrings Sql Schema JobSpec StoreConfig ConfigFile.
Open Scope Z_scope.

(** ** Lemmas on texts *)

(** A doubled character is found at once after a text without it. *)
Lemma Index_doubled c t r : c ∉ t -> Index (t ++ [c; c] ++ r) [c; c] = Some (List.length t).
Proof.
  induction t as [|x t IH]; intros Hc.
  - cbn [app Index]. by rewrite (proj2 (has_prefix_spec (c :: c :: r) [c; c])) by (by exists r).
  - apply not_elem_of_cons in Hc as [Hx Hc]. cbn [app Index List.length]. destruct (has_prefix _ _) eqn:E.
    + apply has_prefix_spec in E as [u [= E _]]. by destruct Hx.
    + specialize (IH Hc). cbn [app] in IH. by rewrite IH.
Qed.

Lemma Index_free c t : c ∉ t -> Index t [c; c] = None.
Proof.
  induction t as [|x t IH]; intros Hc; cbn [Index].
  - by destruct (has_prefix [] [c; c]) eqn:E; [apply has_prefix_spec in E as [u E]|].
  - apply not_elem_of_cons in Hc as [Hx Hc]. destruct (has_prefix _ _) eqn:E; [|by rewrite IH]. apply has_prefix_spec in E as [u [= E _]]. by destruct Hx.
Qed.

Lemma drop_while_app {A} (p : A -> bool) v u : forallb p v = true -> drop_while p (v ++ u) = drop_while p u.
Proof. induction v as [|x v IH]; [done|]. simpl. intros [-> Hv]%andb_true_iff. by apply IH. Qed.

(** [strings.TrimSpace] of a text in ASCII. *)
Definition ascii_byte (c : ascii) : bool := byte_val c <? 128.
Definition ascii_space (c : ascii) : bool := is_space ([c], true).

Lemma chunks_ascii s : forallb ascii_byte s = true -> chunks s = map (fun c => ([c], true)) s.
Proof.
  induction s as [|c s IH]; [done|]. cbn [forallb]. intros [Hc Hs]%andb_true_iff. rewrite chunks_cons.
  assert (Er : rune_len (c :: s) = Some 1%nat) by (unfold rune_len, first_byte; unfold ascii_byte in Hc; by rewrite Hc).
  rewrite Er. change (drop 1 (c :: s)) with s. by rewrite IH.
Qed.

Lemma TrimSpace_ascii s : forallb ascii_byte s = true -> TrimSpace s = TrimSet ascii_space s.
Proof.
  intros Hs. unfold TrimSpace, TrimSet. rewrite (chunks_ascii s Hs).
  assert (Hd : forall l, drop_while is_space (map (fun c => ([c], true)) l) = map (fun c => ([c], true)) (drop_while ascii_space l)).
  { induction l as [|c l IH]; [done|]. cbn [map drop_while]. unfold ascii_space at 1. destruct (is_space ([c], true)); [exact IH|done]. }
  rewrite Hd, <- map_rev, Hd, <- map_rev, map_map. generalize (rev (drop_while ascii_space (rev (drop_while ascii_space s)))).
  induction l as [|c l IH]; [done|]. simpl. by f_equal.
Qed.

(** A text that is not empty and neither begins nor ends with a space. *)
Definition tight (cut : ascii -> bool) (x : bytes) : bool :=
  match x, rev x with c :: _, d :: _ => negb (cut c) && negb (cut d) | _, _ => false end.

Lemma TrimSet_padded cut a x b : forallb cut a = true -> forallb cut b = true -> tight cut x = true -> TrimSet cut (a ++ x ++ b) = x.
Proof.
  intros Ha Hb Hx. unfold tight in Hx. destruct x as [|c x]; [done|]. destruct (rev (c :: x)) as [|d y] eqn:E; [done|]. apply andb_true_iff in Hx as [Hc%negb_true_iff Hd%negb_true_iff].
  unfold TrimSet. rewrite drop_while_app by done. cbn [app]. rewrite (drop_while_id cut (c :: x ++ b)) by done. change (c :: x ++ b) with ((c :: x) ++ b).
  rewrite rev_app_distr, E, drop_while_app, drop_while_id by (done || (rewrite forallb_forall in *; intros z Hz%in_rev; by apply Hb)). rewrite <- E. apply rev_involutive.
Qed.

Lemma tight_app cut x y : tight cut x = true -> tight cut y = true -> forall m, tight cut (x ++ m ++ y) = true.
Proof.
  unfold tight. intros Hx Hy m. destruct x as [|c x]; [done|]. destruct (rev (c :: x)); [done|]. apply andb_true_iff in Hx as [Hc _].
  destruct y as [|e y]; [done|]. cbn [app]. change (c :: x ++ m ++ e :: y) with ((c :: x) ++ m ++ (e :: y)). rewrite !rev_app_distr.
  destruct (rev (e :: y)) as [|d z]; [done|]. cbn [app]. apply andb_true_iff in Hy as [_ Hd]. by rewrite Hc, Hd.
Qed.

(** ** The texts *)

(** A stretch of text; a reference to a secret, with white space where the code
    tolerates it; or another placeholder. *)
Inductive Part := Lit (t : bytes) | Ref (before between : bytes) (name : bytes) (after : bytes) | Other (inner : bytes).

Definition visible (c : ascii) : bool := (33 <=? byte_val c) && (byte_val c <=? 126) && negb (Ascii.eqb c "}").
Definition blanks (t : bytes) : bool := forallb (fun c => ascii_space c && ascii_byte c) t.
Definition part_ok (p : Part) : Prop :=
  match p with
  | Lit t => "{"%char ∉ t
  | Ref a b name c => blanks a = true /\ blanks b = true /\ blanks c = true /\ name <> [] /\ forallb visible name = true
  | Other inner => ("}"%char ∉ inner) /\ CutPrefix (TrimSpace inner) (bstr "secret.") = None
  end.

Definition part_text (p : Part) : bytes :=
  match p with
  | Lit t => t
  | Ref a b name c => openTok ++ (a ++ bstr "secret." ++ b ++ name ++ c) ++ closeTok
  | Other inner => openTok ++ inner ++ closeTok
  end.

(** The text may end in a placeholder that is not closed. *)
Definition text_of (parts : list Part) (open : option bytes) : bytes :=
  mjoin (map part_text parts) ++ match open with None => [] | Some rest => openTok ++ rest end.

Section Resolving.
Context `{GoText} `{Box}.

(** What a name stands for: the org's secret, decrypted. *)
Definition secret_named_in (d : DB) (org : Z) (name : bytes) : res bytes :=
  match select1 (secret_named org (str name)) (db_secrets d) with
  | None => Error (ErrText (bstr "secret " ++ Quote name ++ bstr " not found"))
  | Some r => match Decrypt (se_ciphertext r) with Some plain => Ok plain | None => Error (ErrText (bstr "decrypt secret " ++ Quote name)) end
  end.

Definition part_value (d : DB) (org : Z) (p : Part) : res bytes :=
  match p with
  | Lit t => Ok t
  | Ref _ _ name _ => secret_named_in d org name
  | Other inner => Ok (openTok ++ TrimSpace inner ++ closeTok)
  end.

(** The values of the parts in order, or the error of the first without one. *)
Fixpoint values (d : DB) (org : Z) (parts : list Part) (open : option bytes) : res bytes :=
  match parts with
  | [] => Ok (match open with None => [] | Some rest => openTok ++ rest end)
  | p :: r =>
      match part_value d org p with
      | Error e => Error e
      | Ok v => match values d org r open with Error e => Error e | Ok vs => Ok (v ++ vs) end
      end
  end.

(** ** One turn of the loop *)

Variable err_text : Err -> bytes.

Lemma Index_open t r : "{"%char ∉ t -> Index (t ++ openTok ++ r) openTok = Some (List.length t).
Proof. exact (Index_doubled "{" t r). Qed.
Lemma Index_close t r : "}"%char ∉ t -> Index (t ++ closeTok ++ r) closeTok = Some (List.length t).
Proof. exact (Index_doubled "}" t r). Qed.
Lemma drop_tok (t tok r : bytes) : drop (List.length t + List.length tok) (t ++ tok ++ r) = r.
Proof. by rewrite app_assoc, <- length_app, drop_app_length. Qed.

Lemma resolve_refs_placeholder `{World} fuel org pre inner rest : "{"%char ∉ pre -> "}"%char ∉ inner ->
  resolve_refs err_text (S fuel) org (pre ++ openTok ++ inner ++ closeTok ++ rest) =
  match CutPrefix (TrimSpace inner) (bstr "secret.") with
  | None => let* r := resolve_refs err_text fuel org rest in ret (pre ++ openTok ++ TrimSpace inner ++ closeTok ++ r)
  | Some name => let* plain := secret_value err_text org (TrimSpace name) in let* r := resolve_refs err_text fuel org rest in ret (pre ++ plain ++ r)
  end.
Proof.
  intros Hpre Hin. cbn [resolve_refs]. rewrite (Index_open pre _ Hpre). cbv zeta. by rewrite take_app_length, drop_tok, (Index_close inner rest Hin), take_app_length, drop_tok.
Qed.

Lemma resolve_refs_end `{World} fuel org pre : "{"%char ∉ pre -> resolve_refs err_text fuel org pre = ret pre.
Proof. intros Hpre. destruct fuel; [done|]. cbn [resolve_refs]. by rewrite (Index_free "{" pre Hpre : Index pre openTok = None). Qed.

Lemma resolve_refs_open `{World} fuel org pre rest : "{"%char ∉ pre -> "}"%char ∉ rest -> resolve_refs err_text (S fuel) org (pre ++ openTok ++ rest) = ret (pre ++ openTok ++ rest).
Proof.
  intros Hpre Hr. cbn [resolve_refs]. rewrite (Index_open pre _ Hpre). cbv zeta.
  by rewrite take_app_length, drop_tok, (Index_free "}" rest Hr : Index rest closeTok = None).
Qed.

(** What the code reads of a reference. *)
Lemma ascii_not_brace f t : (forall c, f c = true -> c <> "}"%char) -> forallb f t = true -> "}"%char ∉ t.
Proof. intros Hf Ht Hin. rewrite forallb_forall in Ht. apply (Hf "}"%char); [by apply Ht, list_elem_of_In|done]. Qed.

Lemma blanks_facts t : blanks t = true -> forallb ascii_space t = true /\ forallb ascii_byte t = true /\ "}"%char ∉ t.
Proof.
  unfold blanks. intros Ht. split_and!.
  - apply forallb_forall. intros c Hc. rewrite forallb_forall in Ht. by apply Ht, andb_true_iff in Hc as [? _].
  - apply forallb_forall. intros c Hc. rewrite forallb_forall in Ht. by apply Ht, andb_true_iff in Hc as [_ ?].
  - eapply ascii_not_brace; [|exact Ht]. by intros c Hc ->.
Qed.

Lemma visible_facts t : t <> [] -> forallb visible t = true -> tight ascii_space t = true /\ forallb ascii_byte t = true /\ "}"%char ∉ t.
Proof.
  intros Hne Ht. assert (Hv : forall c, implb (visible c) (negb (ascii_space c) && ascii_byte c && negb (Ascii.eqb c "}")) = true) by (apply byte_forall; vm_compute; reflexivity).
  assert (Hc : forall c, c ∈ t -> ascii_space c = false /\ ascii_byte c = true /\ c <> "}"%char).
  { intros c Hc%list_elem_of_In. rewrite forallb_forall in Ht. specialize (Hv c). rewrite (Ht c Hc) in Hv. simpl in Hv. rewrite !andb_true_iff, !negb_true_iff in Hv.
    destruct Hv as [[H1 H2] H3%Ascii.eqb_neq]. done. }
  split_and!; [|apply forallb_forall; intros c Hin%list_elem_of_In; by destruct (Hc c Hin) as (_ & ? & _)|by intros (_ & _ & ?)%Hc].
  unfold tight. destruct t as [|x t]; [done|]. destruct (rev (x :: t)) as [|y l] eqn:E; [by apply (f_equal (@List.length _)) in E; rewrite length_rev in E|].
  assert (Hy : y ∈ x :: t) by (apply elem_of_rev; rewrite E; left). apply Hc in Hy as [-> _]. by destruct (Hc x ltac:(left)) as [-> _].
Qed.

Lemma ref_inner a b name c : part_ok (Ref a b name c) ->
  let inner := a ++ bstr "secret." ++ b ++ name ++ c in
  ("}"%char ∉ inner) /\ exists n, CutPrefix (TrimSpace inner) (bstr "secret.") = Some n /\ TrimSpace n = name.
Proof.
  intros ((Ha1 & Ha2 & Ha3)%blanks_facts & (Hb1 & Hb2 & Hb3)%blanks_facts & (Hc1 & Hc2 & Hc3)%blanks_facts & Hne & Hn) inner.
  destruct (visible_facts name Hne Hn) as (Hn1 & Hn2 & Hn3). split; [unfold inner; rewrite !not_elem_of_app; split_and!; try done; apply (bool_decide_unpack _); vm_compute; exact I|].
  exists (b ++ name). split.
  - unfold inner. rewrite TrimSpace_ascii by (rewrite !forallb_app; by rewrite Ha2, Hb2, Hn2, Hc2).
    assert (Et : TrimSet ascii_space (a ++ (bstr "secret." ++ b ++ name) ++ c) = bstr "secret." ++ b ++ name) by (apply TrimSet_padded; [done|done|by apply tight_app]).
    rewrite <- !app_assoc in Et. rewrite Et. unfold CutPrefix. rewrite (proj2 (has_prefix_spec _ _)) by (by eexists). by rewrite drop_app_length.
  - rewrite TrimSpace_ascii by (rewrite forallb_app; by rewrite Hb2, Hn2). pose proof (TrimSet_padded ascii_space b name [] Hb1 eq_refl Hn1) as Et. by rewrite app_nil_r in Et.
Qed.

(** ** The theorem *)

Lemma secret_value_reads `{World} `{!Reliable} org name s : exists s',
  secret_value err_text org name s = (secret_named_in (st_db s) org name, s') /\ st_db s' = st_db s.
Proof.
  unfold secret_value, GetSecret, secret_named_in, autocommit, bind at 1, try, bind at 1. rewrite tx_reliable. unfold bind, query, ret, throw. cbn [st_db st_tick].
  destruct (select1 _ _) as [r|]; simpl; [destruct (Decrypt _)|]; by eexists.
Qed.

Definition prefixed (pre : bytes) (r : res bytes) : res bytes := match r with Ok v => Ok (pre ++ v) | Error e => Error e end.
Definition open_ok (open : option bytes) : Prop := match open with None => True | Some rest => "}"%char ∉ rest end.

Lemma text_of_cons p parts open : text_of (p :: parts) open = part_text p ++ text_of parts open.
Proof. unfold text_of. cbn [map mjoin list_join]. by rewrite <- app_assoc. Qed.

Lemma resolve_refs_values `{World} `{!Reliable} org parts open : Forall part_ok parts -> open_ok open -> forall fuel pre s,
  "{"%char ∉ pre -> (List.length (text_of parts open) < fuel)%nat ->
  exists s', resolve_refs err_text fuel org (pre ++ text_of parts open) s = (prefixed pre (values (st_db s) org parts open), s') /\ st_db s' = st_db s.
Proof.
  intros Hp Ho. induction Hp as [|p parts Hp _ IH]; intros fuel pre s Hpre Hf.
  - exists s. split; [|done]. destruct open as [rest|]; cbn [values text_of map mjoin list_join app].
    + destruct fuel as [|fuel]; [lia|]. by rewrite resolve_refs_open.
    + cbn [prefixed]. rewrite app_nil_r. by rewrite resolve_refs_end.
  - rewrite text_of_cons in *. rewrite length_app in Hf. destruct p as [t|a b name c|inner]; cbn [values part_value].
    + destruct (IH fuel (pre ++ t) s) as (s' & E & Es); [by rewrite not_elem_of_app|lia|]. exists s'. split; [|done]. cbn [part_text]. rewrite app_assoc, E.
      destruct (values _ _ _ _); [|done]. cbn [prefixed]. by rewrite <- app_assoc.
    + destruct (ref_inner a b name c Hp) as (Hbr & n & Ec & En). destruct fuel as [|fuel]; [lia|]. cbn [part_text] in *. rewrite <- !app_assoc in *.
      pose proof (resolve_refs_placeholder fuel org pre (a ++ bstr "secret." ++ b ++ name ++ c) (text_of parts open) Hpre Hbr) as Est. rewrite <- !app_assoc in Est. rewrite Est, Ec, En.
      destruct (secret_value_reads org name s) as (s1 & E1 & Es1). unfold bind at 1. rewrite E1. destruct (secret_named_in (st_db s) org name) as [v|e]; [|by exists s1].
      destruct (IH fuel [] s1) as (s2 & E2 & Es2); [apply not_elem_of_nil|rewrite !length_app in Hf; cbn in Hf; lia|]. cbn [app] in E2. unfold bind. rewrite E2, Es1. exists s2. split; [|congruence].
      destruct (values (st_db s) org parts open); reflexivity.
    + destruct Hp as [Hbr Ec]. destruct fuel as [|fuel]; [lia|]. cbn [part_text] in *. rewrite <- !app_assoc in *. rewrite resolve_refs_placeholder, Ec by done.
      destruct (IH fuel [] s) as (s2 & E2 & Es2); [apply not_elem_of_nil|rewrite !length_app in Hf; cbn in Hf; lia|]. cbn [app] in E2. unfold bind. rewrite E2. exists s2. split; [|done].
      destruct (values _ _ _ _); [|done]. cbn [prefixed]. unfold ret. by rewrite <- !app_assoc.
Qed.

(** resolving a text with placeholders gives the text in which every
    reference is replaced by its secret, or the error of the first reference
    without one; what a secret says is never resolved again. A placeholder that
    is no reference keeps its braces and loses the white space inside, and one
    that is not closed stays. *)
Theorem resolveSecretRefs_values `{World} `{!Reliable} (org : Z) (parts : list Part) (open : option bytes) (s : St DB) :
  Forall part_ok parts -> open_ok open ->
  exists s', resolveSecretRefs err_text org (text_of parts open) s = (values (st_db s) org parts open, s') /\ st_db s' = st_db s.
Proof.
  intros Hp Ho. destruct (resolve_refs_values org parts open Hp Ho (S (List.length (text_of parts open))) [] s) as (s' & E & Es); [apply not_elem_of_nil|lia|].
  exists s'. split; [|done]. unfold resolveSecretRefs. cbn [app] in E. rewrite E. by destruct (values _ _ _ _).
Qed.

End Resolving.

#[local] Instance quote_as_is : GoText := {| time_Parse _ _ := None; time_ParseDuration _ := None; Quote s := s; FormatG _ := [] |}.
#[local] Instance open_box : Box := {| Encrypt b := Some (str b); Decrypt c := Some (bstr c) |}.
Definition one_secret : DB := on_secrets (insert_row (fun i => {| se_id := i; se_org := 1; se_name := "tok"; se_ciphertext := "x{{ secret.tok }}"; se_created_at := 0; se_updated_at := 0 |})) empty_db.

Definition url_parts : list Part := [Lit (bstr "https://x/"); Ref (bstr " ") (bstr "") (bstr "tok") (bstr " "); Lit (bstr "?"); Other (bstr " a "); Lit (bstr "&")].

Lemma resolveSecretRefs_values_witness :
  text_of url_parts (Some (bstr "b")) = bstr "https://x/{{ secret.tok }}?{{ a }}&{{b" /\
  values one_secret 1 url_parts (Some (bstr "b")) = Ok (bstr "https://x/x{{ secret.tok }}?{{a}}&{{b") /\
  exists s', @resolveSecretRefs (steady 0) _ (fun _ => []) _ 1 (text_of url_parts (Some (bstr "b"))) (mkSt one_secret O) =
    (values one_secret 1 url_parts (Some (bstr "b")), s') /\ st_db s' = one_secret.
Proof.
  split; [vm_compute; reflexivity|]. split; [vm_compute; reflexivity|].
  apply (@resolveSecretRefs_values quote_as_is open_box (fun _ => []) (steady 0) (steady_reliable 0) 1 url_parts (Some (bstr "b")) (mkSt one_secret O)).
  - repeat constructor; cbn [part_ok]; try (apply (bool_decide_unpack _); vm_compute; exact I); try done.
  - apply (bool_decide_unpack _). vm_compute. exact I.
Defined.
