(* ===== verification/Dto.v ===== *)
(** * The API's wire values ([internal/httpserver/api.go], the DTOs)

    What the JSON API answers with: a record per DTO, the function that fills
    it from a domain value, and the JSON value [encoding/json] makes of it by
    the struct's tags. The text of a JSON value is not spelled out. *)
From S2P Require Import Prelude GoTime Domain Heartbeat Pacing Sql Schema StoreConfig Probe Chat.
Open Scope Z_scope.

(** ** JSON values *)

Inductive Json :=
| JBool (b : bool) | JInt (n : Z) | JFloat (f : spec_float) | JStr (s : bytes) | JTime (t : Time)
| JArr (l : list Json) | JObj (fields : list (string * Json))
| JRaw (text : bytes).                              (* a [json.RawMessage], written as it is *)

(** What [json.Encoder] refuses to write: a time outside the years 0 to 9999
    and a number JSON has no text for. *)
Fixpoint encodable (j : Json) : bool :=
  match j with
  | JTime t => let '(y, _, _) := civil (t / day) in (0 <=? y) && (y <=? 9999)
  | JFloat f => json_number f
  | JArr l => (fix all (l : list Json) := match l with [] => true | x :: r => encodable x && all r end) l
  | JObj fs => (fix all (l : list (string * Json)) := match l with [] => true | x :: r => encodable (snd x) && all r end) fs
  | _ => true
  end.

(** A struct's fields, those left out by their tag being [None]. *)
Definition field (k : string) (v : Json) : option (string * Json) := Some (k, v).
Definition opt_field (k : string) (v : option Json) : option (string * Json) := (fun j => (k, j)) <$> v.
Definition JStruct (fs : list (option (string * Json))) : Json := JObj (omap id fs).

(** The tags [omitempty] and [omitzero]. *)
Definition text (s : string) : Json := JStr (bstr s).
Definition text_omitempty (s : string) : option Json := if String.eqb s "" then None else Some (text s).
Definition int_omitempty (n : Z) : option Json := if n =? 0 then None else Some (JInt n).
Definition bool_omitempty (b : bool) : option Json := if b then Some (JBool true) else None.
Definition time_omitzero (t : Time) : option Json := if IsZero t then None else Some (JTime t).
Definition list_omitempty (l : list string) : option Json := match l with [] => None | _ => Some (JArr (map text l)) end.

(** What is not spelled out of JSON: whether a text is valid, and the text
    of a detail that was marshalled. *)
Class DetailJSON := { json_valid : bytes -> bool; detail_json : Detail -> bytes }.

(** ** The names of the enumerations *)

Definition job_type_text (t : JobType) : string :=
  match t with Shell => "shell" | HTTP => "http" | TLS => "tls" | Domain => "domain" | Expiry => "expiry" | Drill => "drill" | OtherType s => s end.
Definition channel_type_text (t : ChannelType) : string :=
  match t with
  | Webhook => "webhook" | Slack => "slack" | Discord => "discord" | SMTP => "smtp" | Telegram => "telegram" | Ntfy => "ntfy" | Pushover => "pushover"
  | OtherChannel s => s
  end.
Definition hb_status_text (s : HbStatus) : string := match s with HbNew => "new" | HbUp => "up" | HbDown => "down" end.
Definition ping_kind_text (k : PingKind) : string :=
  match k with PingSuccess => "success" | PingStart => "start" | PingFail => "fail" | PingLog => "log" | PingOther s => s end.

(** ** Jobs *)

Record specDTO := {
  sd_warn_days : option Z; sd_host : string; sd_port : Z; sd_server_name : string; sd_starttls : string;
  sd_insecure_skip_verify : bool; sd_ca_file : string; sd_renew_after_fraction : option spec_float;
  sd_domain : string; sd_rdap_url : string; sd_expires_at : Time; sd_expiry_command : string;
  sd_restore : string; sd_checks : list string; sd_cleanup : string; sd_scratch_dir : string; sd_max_duration_seconds : Z;
}.
Definition empty_specDTO : specDTO :=
  {| sd_warn_days := None; sd_host := ""; sd_port := 0; sd_server_name := ""; sd_starttls := ""; sd_insecure_skip_verify := false; sd_ca_file := "";
     sd_renew_after_fraction := None; sd_domain := ""; sd_rdap_url := ""; sd_expires_at := zero_time; sd_expiry_command := "";
     sd_restore := ""; sd_checks := []; sd_cleanup := ""; sd_scratch_dir := ""; sd_max_duration_seconds := 0 |}.

(** [fromSpec]. *)
Definition fromSpec (j : Job) : option specDTO :=
  match j_spec j with
  | None => None
  | Some s =>
      let e := empty_specDTO in
      match j_type j with
      | TLS => Some
          {| sd_warn_days := Some (sp_warn_days s); sd_host := sp_host s; sd_port := sp_port s; sd_server_name := sp_server_name s; sd_starttls := sp_starttls s;
             sd_insecure_skip_verify := sp_insecure_skip_verify s; sd_ca_file := sp_ca_file s; sd_renew_after_fraction := Some (sp_renew_after_fraction s);
             sd_domain := ""; sd_rdap_url := ""; sd_expires_at := zero_time; sd_expiry_command := "";
             sd_restore := ""; sd_checks := []; sd_cleanup := ""; sd_scratch_dir := ""; sd_max_duration_seconds := 0 |}
      | Domain => Some
          {| sd_warn_days := Some (sp_warn_days s); sd_host := ""; sd_port := 0; sd_server_name := ""; sd_starttls := ""; sd_insecure_skip_verify := false;
             sd_ca_file := ""; sd_renew_after_fraction := None; sd_domain := sp_domain s; sd_rdap_url := sp_rdap_url s; sd_expires_at := zero_time;
             sd_expiry_command := ""; sd_restore := ""; sd_checks := []; sd_cleanup := ""; sd_scratch_dir := ""; sd_max_duration_seconds := 0 |}
      | Expiry => Some
          {| sd_warn_days := Some (sp_warn_days s); sd_host := ""; sd_port := 0; sd_server_name := ""; sd_starttls := ""; sd_insecure_skip_verify := false;
             sd_ca_file := ""; sd_renew_after_fraction := None; sd_domain := ""; sd_rdap_url := ""; sd_expires_at := sp_expires_at s;
             sd_expiry_command := sp_expiry_command s; sd_restore := ""; sd_checks := []; sd_cleanup := ""; sd_scratch_dir := ""; sd_max_duration_seconds := 0 |}
      | Drill => Some
          {| sd_warn_days := None; sd_host := ""; sd_port := 0; sd_server_name := ""; sd_starttls := ""; sd_insecure_skip_verify := false;
             sd_ca_file := ""; sd_renew_after_fraction := None; sd_domain := ""; sd_rdap_url := ""; sd_expires_at := zero_time; sd_expiry_command := "";
             sd_restore := sp_restore s; sd_checks := sp_checks s; sd_cleanup := sp_cleanup s; sd_scratch_dir := sp_scratch_dir s;
             sd_max_duration_seconds := sp_max_duration_seconds s |}
      | Shell | HTTP | OtherType _ => None
      end
  end.

Definition json_specDTO (d : specDTO) : Json := JStruct [
  opt_field "warn_days" (JInt <$> sd_warn_days d); opt_field "host" (text_omitempty (sd_host d)); opt_field "port" (int_omitempty (sd_port d));
  opt_field "server_name" (text_omitempty (sd_server_name d)); opt_field "starttls" (text_omitempty (sd_starttls d));
  opt_field "insecure_skip_verify" (bool_omitempty (sd_insecure_skip_verify d)); opt_field "ca_file" (text_omitempty (sd_ca_file d));
  opt_field "renew_after_fraction" (JFloat <$> sd_renew_after_fraction d); opt_field "domain" (text_omitempty (sd_domain d));
  opt_field "rdap_url" (text_omitempty (sd_rdap_url d)); opt_field "expires_at" (time_omitzero (sd_expires_at d));
  opt_field "expiry_command" (text_omitempty (sd_expiry_command d)); opt_field "restore" (text_omitempty (sd_restore d));
  opt_field "checks" (list_omitempty (sd_checks d)); opt_field "cleanup" (text_omitempty (sd_cleanup d));
  opt_field "scratch_dir" (text_omitempty (sd_scratch_dir d)); opt_field "max_duration_seconds" (int_omitempty (sd_max_duration_seconds d))].

Record jobDTO := {
  jd_id : Z; jd_name : string; jd_type : string; jd_command : string; jd_http_url : string; jd_http_method : string; jd_cron : string;
  jd_interval_seconds : Z; jd_timeout_seconds : Z; jd_max_retries : Z; jd_enabled : bool; jd_next_run_at : Time; jd_created_at : Time;
  jd_updated_at : Time; jd_spec : option specDTO;
}.

(** [fromJob]: without the environment, and without the body of a request. *)
Definition fromJob (j : Job) : jobDTO :=
  {| jd_id := j_id j; jd_name := j_name j; jd_type := job_type_text (j_type j); jd_command := j_command j; jd_http_url := j_http_url j;
     jd_http_method := j_http_method j; jd_cron := j_cron j; jd_interval_seconds := j_interval_seconds j; jd_timeout_seconds := j_timeout_seconds j;
     jd_max_retries := j_max_retries j; jd_enabled := j_enabled j; jd_next_run_at := j_next_run_at j; jd_created_at := j_created_at j;
     jd_updated_at := j_updated_at j; jd_spec := fromSpec j |}.

Definition json_jobDTO (d : jobDTO) : Json := JStruct [
  field "id" (JInt (jd_id d)); field "name" (text (jd_name d)); field "type" (text (jd_type d)); opt_field "command" (text_omitempty (jd_command d));
  opt_field "http_url" (text_omitempty (jd_http_url d)); opt_field "http_method" (text_omitempty (jd_http_method d)); opt_field "cron" (text_omitempty (jd_cron d));
  opt_field "interval_seconds" (int_omitempty (jd_interval_seconds d)); opt_field "timeout_seconds" (int_omitempty (jd_timeout_seconds d));
  opt_field "max_retries" (int_omitempty (jd_max_retries d)); field "enabled" (JBool (jd_enabled d)); opt_field "next_run_at" (time_omitzero (jd_next_run_at d));
  field "created_at" (JTime (jd_created_at d)); field "updated_at" (JTime (jd_updated_at d)); opt_field "spec" (json_specDTO <$> jd_spec d)].

(** ** Runs *)

Record runSummaryDTO := {
  rd_id : Z; rd_job_id : Z; rd_status : bytes; rd_attempt : Z; rd_exit_code : Z; rd_started_at : Time; rd_ended_at : Time; rd_created_at : Time;
}.

(** [fromRunSummary]: without the output. *)
Definition fromRunSummary (r : Run) : runSummaryDTO :=
  {| rd_id := r_id r; rd_job_id := r_job r; rd_status := status_text (r_status r); rd_attempt := r_attempt r; rd_exit_code := r_exit_code r;
     rd_started_at := r_started_at r; rd_ended_at := r_ended_at r; rd_created_at := r_created_at r |}.

Definition runSummary_fields (d : runSummaryDTO) : list (option (string * Json)) := [
  field "id" (JInt (rd_id d)); field "job_id" (JInt (rd_job_id d)); field "status" (JStr (rd_status d)); field "attempt" (JInt (rd_attempt d));
  field "exit_code" (JInt (rd_exit_code d)); opt_field "started_at" (time_omitzero (rd_started_at d)); opt_field "ended_at" (time_omitzero (rd_ended_at d));
  field "created_at" (JTime (rd_created_at d))].
Definition json_runSummaryDTO (d : runSummaryDTO) : Json := JStruct (runSummary_fields d).

Record runDetailDTO := { rd_summary : runSummaryDTO; rd_output : bytes }.

(** [fromRunDetail]. *)
Definition fromRunDetail (r : Run) : runDetailDTO := {| rd_summary := fromRunSummary r; rd_output := r_output r |}.
Definition json_runDetailDTO (d : runDetailDTO) : Json := JStruct (runSummary_fields (rd_summary d) ++ [field "output" (JStr (rd_output d))]).

(** ** Channels and rules *)

Record channelDTO := { cd_id : Z; cd_name : string; cd_kind : string; cd_created_at : Time }.

(** [fromChannel]: never its configuration. *)
Definition fromChannel (c : Channel) : channelDTO :=
  {| cd_id := ch_id c; cd_name := ch_name c; cd_kind := channel_type_text (ch_kind c); cd_created_at := ch_created_at c |}.
Definition json_channelDTO (d : channelDTO) : Json := JStruct [
  field "id" (JInt (cd_id d)); field "name" (text (cd_name d)); field "kind" (text (cd_kind d)); field "created_at" (JTime (cd_created_at d))].

Record ruleDTO := {
  ud_id : Z; ud_channel_id : Z; ud_event_type : string; ud_enabled : bool; ud_job_id : Z; ud_created_at : Time;
  ud_repeat_seconds : option Z; ud_repeat_default : option bool;
}.

(** [fromRule]: a run.failed rule with the interval it has in effect. *)
Definition fromRule (r : Rule) (kind : ChannelType) : ruleDTO :=
  let failed := String.eqb (ru_event_type r) EventRunFailed in
  {| ud_id := ru_id r; ud_channel_id := ru_channel r; ud_event_type := ru_event_type r; ud_enabled := ru_enabled r; ud_job_id := ru_job r;
     ud_created_at := ru_created_at r;
     ud_repeat_seconds := if failed then Some (Z.quot (EffectiveRepeat kind (ru_repeat r)) Second) else None;
     ud_repeat_default := if failed then Some (bool_decide (ru_repeat r = None)) else None |}.
Definition json_ruleDTO (d : ruleDTO) : Json := JStruct [
  field "id" (JInt (ud_id d)); field "channel_id" (JInt (ud_channel_id d)); field "event_type" (text (ud_event_type d)); field "enabled" (JBool (ud_enabled d));
  field "job_id" (JInt (ud_job_id d)); field "created_at" (JTime (ud_created_at d)); opt_field "repeat_seconds" (JInt <$> ud_repeat_seconds d);
  opt_field "repeat_default" (JBool <$> ud_repeat_default d)].

(** ** Heartbeats *)

Record heartbeatDTO := {
  hd_id : Z; hd_name : string; hd_status : string; hd_last_seen_at : Time; hd_period_seconds : Z; hd_grace_seconds : Z; hd_created_at : Time;
  hd_started_at : Time; hd_started_rid : string;
}.

(** [fromHeartbeat]: never the token. *)
Definition fromHeartbeat (h : Heartbeat) : heartbeatDTO :=
  {| hd_id := hb_id h; hd_name := hb_name h; hd_status := hb_status_text (hb_status h); hd_last_seen_at := hb_last_seen_at h;
     hd_period_seconds := hb_period_seconds h; hd_grace_seconds := hb_grace_seconds h; hd_created_at := hb_created_at h;
     hd_started_at := hb_started_at h; hd_started_rid := hb_started_rid h |}.
Definition json_heartbeatDTO (d : heartbeatDTO) : Json := JStruct [
  field "id" (JInt (hd_id d)); field "name" (text (hd_name d)); field "status" (text (hd_status d)); opt_field "last_seen_at" (time_omitzero (hd_last_seen_at d));
  field "period_seconds" (JInt (hd_period_seconds d)); field "grace_seconds" (JInt (hd_grace_seconds d)); field "created_at" (JTime (hd_created_at d));
  opt_field "started_at" (time_omitzero (hd_started_at d)); opt_field "started_rid" (text_omitempty (hd_started_rid d))].

Record pingDTO := {
  gd_id : Z; gd_kind : string; gd_exit_status : option Z; gd_rid : string; gd_duration_ms : option Z; gd_body : bytes; gd_created_at : Time;
}.

(** [fromPing]; a logged duration is a whole number of milliseconds. *)
Definition fromPing (p : Ping) : pingDTO :=
  {| gd_id := p_id p; gd_kind := ping_kind_text (p_kind p); gd_exit_status := p_exit_status p; gd_rid := p_rid p; gd_duration_ms := p_duration_ms p;
     gd_body := p_body p; gd_created_at := p_created_at p |}.
Definition json_pingDTO (d : pingDTO) : Json := JStruct [
  field "id" (JInt (gd_id d)); field "kind" (text (gd_kind d)); opt_field "exit_status" (JInt <$> gd_exit_status d); opt_field "rid" (text_omitempty (gd_rid d));
  opt_field "duration_ms" (JInt <$> gd_duration_ms d); opt_field "body" (match gd_body d with [] => None | b => Some (JStr b) end);
  field "created_at" (JTime (gd_created_at d))].

(** ** Events *)

Record eventDTO := { ed_id : Z; ed_type : string; ed_source : string; ed_payload : option Json; ed_created_at : Time; ed_detail : option Json }.

Section Events.
Context `{PayloadJSON} `{DetailJSON}.

(** [jsonPayload]: valid JSON as it is, any other text as a JSON string. *)
Definition jsonPayload (payload : bytes) : option Json :=
  match payload with [] => None | _ => Some (if json_valid payload then JRaw payload else JStr payload) end.

Definition detail_text (d : Detail) : bytes := match d with DtNone => [] | DtText s => bstr s | _ => detail_json d end.

(** [fromEvent]. *)
Definition fromEvent (e : Event) : eventDTO :=
  {| ed_id := ev_id e; ed_type := ev_type e; ed_source := ev_source e; ed_payload := jsonPayload (payload_text e); ed_created_at := ev_created_at e;
     ed_detail := jsonPayload (detail_text (ev_detail e)) |}.
Definition json_eventDTO (d : eventDTO) : Json := JStruct [
  field "id" (JInt (ed_id d)); field "type" (text (ed_type d)); field "source" (text (ed_source d)); opt_field "payload" (ed_payload d);
  field "created_at" (JTime (ed_created_at d)); opt_field "detail" (ed_detail d)].

End Events.

(** ** Secrets *)

Record secretDTO := { td_name : string; td_created_at : Time }.

(** [fromSecret]: a name, never a value. *)
Definition fromSecret (m : SecretMeta) : secretDTO := {| td_name := sm_name m; td_created_at := sm_created_at m |}.
Definition json_secretDTO (d : secretDTO) : Json := JStruct [field "name" (text (td_name d)); field "created_at" (JTime (td_created_at d))].

(** [apiError]'s body, and [runEnqueuedDTO]. *)
Definition json_error (msg : string) : Json := JObj [("error"%string, text msg)].
Definition json_runEnqueued (id : Z) : Json := JStruct [field "run_id" (JInt id)].
