(* ===== verification/Views.v ===== *)
(** * The dashboard's views ([internal/httpserver/dashboard.go], helpers and view models)

    What each page of the dashboard is filled with, and how times, schedules
    and statuses read there. The HTML templates, which escape what they are
    given, are not modelled: a page is the record its template gets. *)
From S2P Require Import Prelude GoTime Domain Heartbeat GoStrings Probe Chat Dto.
Open Scope Z_scope.

(** ** View models *)

Record pageData := { pd_title : bytes; pd_active : string; pd_csrf : string }.
Record when_ := { wn_rel : bytes; wn_abs : bytes; wn_iso : bytes }.
Record jobRow := {
  vj_id : Z; vj_name : string; vj_type : string; vj_schedule : bytes; vj_enabled : bool; vj_last_status : bytes; vj_status_class : string;
  vj_last_run : option when_; vj_next_run : option when_; vj_csrf : string;
}.
Record jobView := {
  jv_id : Z; jv_name : string; jv_type : string; jv_schedule : bytes; jv_target : bytes; jv_timeout : bytes; jv_max_retries : Z; jv_enabled : bool;
}.
Record runRow := { vr_id : Z; vr_status : bytes; vr_status_class : string; vr_attempt : Z; vr_exit_code : Z; vr_started : bytes }.
Record runView := {
  rv_id : Z; rv_job : Z; rv_status : bytes; rv_status_class : string; rv_attempt : Z; rv_exit_code : Z; rv_started : bytes; rv_ended : bytes;
  rv_output : bytes; rv_long_output : bool;
}.
Record heartbeatRow := {
  vh_id : Z; vh_name : string; vh_status : string; vh_status_class : string; vh_period : bytes; vh_grace : bytes; vh_last_seen : bytes;
}.
Record pingRow := {
  vp_kind : string; vp_class : string; vp_exit : bytes; vp_duration : bytes; vp_rid : bytes; vp_body : bytes; vp_body_size : bytes; vp_when : bytes;
}.
Record eventRow := {
  ve_type : string; ve_source : string; ve_payload : bytes; ve_subject : bytes; ve_created : bytes; ve_is_alert : bool; ve_class : string;
}.

(** The pages and the table row that the handlers render. *)
Inductive Page :=
| JobsPage (p : pageData) (jobs : list jobRow) (paused : bool)
| JobsTable (p : pageData) (jobs : list jobRow) (paused : bool)
| JobRowFragment (row : jobRow)
| JobDetailPage (p : pageData) (job : jobView) (runs : list runRow)
| RunDetailPage (p : pageData) (run : runView)
| HeartbeatsPage (p : pageData) (heartbeats : list heartbeatRow)
| HeartbeatDetailPage (p : pageData) (heartbeat : heartbeatRow) (running : bytes) (pings : list pingRow) (transitions : list eventRow)
| EventsPage (p : pageData) (events : list eventRow).

(** ** Formatting *)

(** [statusClass]. *)
Definition statusClass (s : RunStatus) : string :=
  match s with
  | StatusSucceeded => "st-ok" | StatusFailed => "st-fail" | StatusRunning => "st-run" | StatusPending => "st-pending" | StatusTimedOut => "st-timeout"
  end.

(** [scheduleOf]. *)
Definition scheduleOf (j : Job) : bytes :=
  if negb (String.eqb (j_cron j) "") then bstr (j_cron j)
  else if 0 <? j_interval_seconds j then bstr "every " ++ DurationString (secs (j_interval_seconds j))
  else if negb (IsZero (j_run_at j)) then bstr "once @ " ++ chatTime (j_run_at j)
  else bstr "manual".

(** [targetOf]. *)
Definition warns_text (s : Spec) : bytes :=
  if sp_warn_days s =? 0 then bstr " (warns once expired)" else bstr " (warns " ++ Itoa (sp_warn_days s) ++ bstr " days before)".
Definition checks_text (n : Z) : bytes :=
  if n =? 0 then bstr " (no checks)" else if n =? 1 then bstr " (1 check)" else bstr " (" ++ Itoa n ++ bstr " checks)".
Definition targetOf (j : Job) : bytes :=
  match j_type j, j_spec j with
  | HTTP, _ => (if String.eqb (j_http_method j) "" then bstr "GET" else bstr (j_http_method j)) ++ bstr " " ++ bstr (j_http_url j)
  | _, None => []
  | TLS, Some s =>
      let target := JoinHostPort (bstr (sp_host s)) (Itoa (TLSPort s)) in
      if String.eqb (sp_starttls s) "" then target else target ++ bstr " (STARTTLS " ++ bstr (sp_starttls s) ++ bstr ")"
  | Domain, Some s => bstr (sp_domain s) ++ warns_text s
  | Expiry, Some s =>
      if negb (String.eqb (sp_expiry_command s) "") then bstr "date from: " ++ bstr (sp_expiry_command s)
      else dateText (sp_expires_at s) ++ warns_text s
  | Drill, Some s => bstr (sp_restore s) ++ checks_text (Z.of_nat (List.length (sp_checks s)))
  | _, Some _ => []
  end.

(** [timeoutOf]. *)
Definition timeoutOf (j : Job) : bytes := if j_timeout_seconds j <=? 0 then bstr "default" else DurationString (secs (j_timeout_seconds j)).

(** [fmtTime]: to the second, in UTC. *)
Definition ymd (t : Time) : bytes := let '(y, m, d) := civil (t / day) in padded 4 y ++ bstr "-" ++ padded 2 m ++ bstr "-" ++ padded 2 d.
Definition fmtTime (t : Time) : bytes :=
  if IsZero t then bstr "-"
  else
    let s := t mod day / Second in
    ymd t ++ bstr " " ++ padded 2 (s / 3600) ++ bstr ":" ++ padded 2 (s / 60 mod 60) ++ bstr ":" ++ padded 2 (s mod 60) ++ bstr " UTC".

(** [relTime]: the largest one or two units, a date beyond 60 days. *)
Definition relTime (now t : Time) : bytes :=
  let d := TimeSub t now in
  let future := 0 <? d in
  let d := if future then d else wrap64 (- d) in
  let around s := if future then bstr "in " ++ s else s ++ bstr " ago" in
  if d <? Minute then bstr (if future then "in under a minute" else "just now")
  else if d <? Hour then around (Itoa (Z.quot d Minute) ++ bstr "m")
  else if d <? day then
    let h := Z.quot d Hour in
    let m := Z.quot (Z.rem d Hour) Minute in
    around (Itoa h ++ bstr "h" ++ (if (0 <? m) && (h <? 10) then bstr " " ++ Itoa m ++ bstr "m" else []))
  else if d <=? 60 * day then
    let days := Z.quot d day in
    let h := Z.quot (Z.rem d day) Hour in
    around (Itoa days ++ bstr "d" ++ (if (0 <? h) && (days <? 3) then bstr " " ++ Itoa h ++ bstr "h" else []))
  else ymd t.

(** [whenOf], [pastWhen], [lastRunAt] and [nextRunOf]. *)
Definition with_rel (w : when_) (rel : bytes) : when_ := {| wn_rel := rel; wn_abs := wn_abs w; wn_iso := wn_iso w |}.
Definition whenOf (now t : Time) : option when_ :=
  if IsZero t then None else Some {| wn_rel := relTime now t; wn_abs := fmtTime t; wn_iso := dateText t |}.
Definition pastWhen (now t : Time) : option when_ :=
  (fun w => if After t now then with_rel w (bstr "just now") else w) <$> whenOf now t.
Definition lastRunAt (r : Run) : Time :=
  if negb (IsZero (r_ended_at r)) then r_ended_at r else if negb (IsZero (r_started_at r)) then r_started_at r else r_created_at r.
Definition nextRunOf (now : Time) (enabled : bool) (next : Time) : option when_ :=
  if negb enabled || IsZero next then None
  else (fun w => if negb (After next now) then with_rel w (bstr "due") else w) <$> whenOf now next.

(** [secondsLabel]. *)
Definition secondsLabel (seconds : Z) : bytes := if seconds <=? 0 then bstr "-" else DurationString (secs seconds).

(** [heartbeatStatusClass], [pingKindClass], [eventStatusClass] and [isAlertEvent]. *)
Definition heartbeatStatusClass (s : HbStatus) : string := match s with HbUp => "st-ok" | HbDown => "st-fail" | HbNew => "st-pending" end.
Definition pingKindClass (k : PingKind) : string :=
  match k with PingSuccess => "st-ok" | PingFail => "st-fail" | PingStart => "st-run" | PingLog | PingOther _ => "pill-none" end.
Definition eventStatusClass (t : string) : string :=
  if String.eqb t "run.failed" || String.eqb t "notification.failed" || String.prefix "heartbeat.missed" t then "st-fail"
  else if String.eqb t "run.succeeded" || String.eqb t "run.recovered" || String.prefix "heartbeat.recovered" t then "st-ok"
  else if String.eqb t "run.started" || String.eqb t "run.running" then "st-run"
  else if String.prefix "heartbeat." t then "st-pending"
  else "pill-none".
Definition isAlertEvent (t : string) : bool := String.eqb t "run.failed" || String.prefix "heartbeat." t.

(** ** Filling the views *)

(** [toJobRow]; the CSRF token is stamped by [jobRowFor]. *)
Definition toJobRow (now : Time) (j : Job) (last : option Run) : jobRow :=
  {| vj_id := j_id j; vj_name := j_name j; vj_type := job_type_text (j_type j); vj_schedule := scheduleOf j; vj_enabled := j_enabled j;
     vj_last_status := match last with Some r => status_text (r_status r) | None => [] end;
     vj_status_class := match last with Some r => statusClass (r_status r) | None => "" end;
     vj_last_run := match last with Some r => pastWhen now (lastRunAt r) | None => None end;
     vj_next_run := nextRunOf now (j_enabled j) (j_next_run_at j); vj_csrf := "" |}.
Definition with_csrf (r : jobRow) (csrf : string) : jobRow :=
  {| vj_id := vj_id r; vj_name := vj_name r; vj_type := vj_type r; vj_schedule := vj_schedule r; vj_enabled := vj_enabled r;
     vj_last_status := vj_last_status r; vj_status_class := vj_status_class r; vj_last_run := vj_last_run r; vj_next_run := vj_next_run r; vj_csrf := csrf |}.

(** [toJobView] and [toRunRow]. *)
Definition toJobView (j : Job) : jobView :=
  {| jv_id := j_id j; jv_name := j_name j; jv_type := job_type_text (j_type j); jv_schedule := scheduleOf j; jv_target := targetOf j;
     jv_timeout := timeoutOf j; jv_max_retries := j_max_retries j; jv_enabled := j_enabled j |}.
Definition toRunRow (r : Run) : runRow :=
  {| vr_id := r_id r; vr_status := status_text (r_status r); vr_status_class := statusClass (r_status r); vr_attempt := r_attempt r;
     vr_exit_code := r_exit_code r; vr_started := fmtTime (r_started_at r) |}.

Definition longOutputLines : Z := 30.
Definition longOutputBytes : Z := 4096.

(** [toRunView]. *)
Definition toRunView (r : Run) : runView :=
  {| rv_id := r_id r; rv_job := r_job r; rv_status := status_text (r_status r); rv_status_class := statusClass (r_status r); rv_attempt := r_attempt r;
     rv_exit_code := r_exit_code r; rv_started := fmtTime (r_started_at r); rv_ended := fmtTime (r_ended_at r); rv_output := r_output r;
     rv_long_output := (longOutputLines <=? newlines (r_output r)) || (longOutputBytes <? Z.of_nat (List.length (r_output r))) |}.

(** [toHeartbeatRow]: never the token. *)
Definition toHeartbeatRow (h : Heartbeat) : heartbeatRow :=
  {| vh_id := hb_id h; vh_name := hb_name h; vh_status := hb_status_text (hb_status h); vh_status_class := heartbeatStatusClass (hb_status h);
     vh_period := secondsLabel (hb_period_seconds h); vh_grace := secondsLabel (hb_grace_seconds h); vh_last_seen := fmtTime (hb_last_seen_at h) |}.

(** [toPingRow]. *)
Definition toPingRow (p : Ping) : pingRow :=
  {| vp_kind := ping_kind_text (p_kind p); vp_class := pingKindClass (p_kind p);
     vp_exit := match p_exit_status p with Some n => bstr "exit " ++ Itoa n | None => [] end;
     vp_duration := match p_duration_ms p with Some ms => DurationString (wrap64 (ms * Millisecond)) | None => [] end;
     vp_rid := take 8 (bstr (p_rid p)); vp_body := p_body p;
     vp_body_size := match p_body p with [] => [] | b => Itoa (Z.of_nat (List.length b)) ++ bstr " B" end;
     vp_when := fmtTime (p_created_at p) |}.

(** [toEventRow]. *)
Definition toEventRow `{JSONText} `{PayloadJSON} (e : Event) : eventRow :=
  {| ve_type := ev_type e; ve_source := ev_source e; ve_payload := payload_text e; ve_subject := fst (render e); ve_created := fmtTime (ev_created_at e);
     ve_is_alert := isAlertEvent (ev_type e); ve_class := eventStatusClass (ev_type e) |}.

(** ** Examples *)

Example relTime_examples : map (fun d => str (relTime (800000 * day) (800000 * day + d)))
    [- 59 * Second; 30 * Second; - 4 * Minute; - 3 * Hour - 5 * Minute; 9 * Hour + 49 * Minute; 2 * day; - 3 * day - 5 * Hour; 61 * day]
  = ["just now"; "in under a minute"; "4m ago"; "3h 5m ago"; "in 9h 49m"; "in 2d"; "3d ago"; "2191-06-30"]%string.
Proof. vm_compute. reflexivity. Qed.

Example fmtTime_example : map (fun t => str (fmtTime t)) [zero_time; 63935136000 * Second + 13 * Hour + 5 * Second]
  = ["-"; "2027-01-10 13:00:05 UTC"]%string.
Proof. vm_compute. reflexivity. Qed.
