(* ===== verification/Auth.v ===== *)
(** * Sessions and tokens ([internal/httpserver/auth.go], [internal/auth/auth.go])

    How a request is authenticated before any handler behind the gate sees it,
    and how a session begins and ends. The cryptography is the kit library's:
    what it promises is the class [KitAuth]. Every handler is a computation of
    the store that always returns a reply. *)
From S2P Require Import Prelude GoTime Domain Heartbeat Utf8 Failure GoStrings Redact Sql Schema StoreEvents StoreConfig StoreInv PingApi PingHandler Dto Views.
Open Scope Z_scope.

(** ** Requests and replies *)

(** What the handlers read of a request: [q_path] is [URL.Path] and
    [q_escaped] its [EscapedPath], [q_cookie] the value of the session cookie,
    [q_form] what [ParseForm] leaves in [PostForm] and [q_form_error] whether
    it reports an error, [q_id] the path value the mux sets. *)
Record Request := {
  q_method : string; q_path : bytes; q_escaped : bytes; q_query : gmap string (list bytes); q_cookie : option string; q_authorization : bytes;
  q_csrf_header : bytes; q_form : gmap string (list bytes); q_form_error : bool; q_id : bytes;
}.
(** [url.Values.Get], and [PostFormValue] after [ParseForm]. *)
Definition value_of (vs : gmap string (list bytes)) (key : string) : bytes := default [] (first_value vs key).

(** [http.Cookie] as [sessionCookie] builds it. *)
Record Cookie := { ck_name : string; ck_value : string; ck_path : string; ck_http_only : bool; ck_secure : bool; ck_same_site_lax : bool; ck_max_age : Z }.

Inductive Body := BText (b : bytes) | BJson (j : Json) | BLogin (error : bytes) | BPage (p : Page).
Record WebReply := { w_code : Z; w_headers : list (string * bytes); w_cookies : list Cookie; w_body : Body }.

Definition StatusAccepted : Z := 202.
Definition StatusFound : Z := 302.
Definition StatusUnauthorized : Z := 401.
Definition StatusForbidden : Z := 403.

Definition text_html : bytes := bstr "text/html; charset=utf-8".
Definition application_json : bytes := bstr "application/json; charset=utf-8".

(** [http.Error], [http.NotFound] and [http.Redirect] to a local path (its
    body, a link for old browsers, is left out). *)
Definition web_Error (code : Z) (msg : bytes) : WebReply :=
  let r := http_Error [] code msg in {| w_code := rp_code r; w_headers := rp_headers r; w_cookies := []; w_body := BText (rp_body r) |}.
Definition web_NotFound : WebReply := web_Error StatusNotFound (bstr "404 page not found").
Definition Redirect (cookies : list Cookie) (path : bytes) : WebReply :=
  {| w_code := StatusFound; w_headers := [("Location"%string, path)]; w_cookies := cookies; w_body := BText [] |}.

(** ** The kit's cryptography *)

Record Session := { ss_user : Z; ss_org : Z; ss_expiry : Time }.

(** [kitauth]: [SessionCodec.Encode], [Decode] (at a moment), [IssueCSRF] and
    [CheckCSRF], [HashToken], [VerifyPassword] and [DefaultSessionTTL]. *)
Class KitAuth := {
  Encode : Session -> option string;
  Decode : string -> Time -> option Session;
  IssueCSRF : Session -> string;
  CheckCSRF : Session -> bytes -> bool;
  HashToken : bytes -> string;
  VerifyPassword : string -> bytes -> bool;
  DefaultSessionTTL : Duration }.

(** What the server relies on of it: a cookie carries its session until it
    expires and is not empty, a session's CSRF token passes its own check and is not empty. *)
Class KitAuthLaws `{KitAuth} := {
  Decode_Encode s v now : Encode s = Some v -> now < ss_expiry s -> Decode v now = Some s;
  Encode_nonempty s v : Encode s = Some v -> v <> ""%string;
  CheckCSRF_IssueCSRF s : CheckCSRF s (bstr (IssueCSRF s)) = true;
  IssueCSRF_nonempty s : IssueCSRF s <> ""%string;
  DefaultSessionTTL_pos : 0 < DefaultSessionTTL }.

(** ** The principal *)

Record Principal := { pr_org : Z; pr_user : Z; pr_role : string }.
Record authResult := { ar_principal : Principal; ar_session : Session; ar_by_cookie : bool; ar_csrf : string }.
Definition no_session : Session := {| ss_user := 0; ss_org := 0; ss_expiry := zero_time |}.

(** [PrincipalFrom] and [CSRFTokenFrom], of what the gate left in the request's context. *)
Definition PrincipalFrom (ctx : option authResult) : option Principal := ar_principal <$> ctx.
Definition CSRFTokenFrom (ctx : option authResult) : string := match ctx with Some ar => ar_csrf ar | None => "" end.

(** A handler, given what the gate resolved. *)
Abbreviation WebHandler := (option authResult -> Request -> Store WebReply).

Section Auth.
Context `{World} `{JSONText} `{KitAuth}.

(** [AuthConfig.Secure]. *)
Variable secure : bool.

(** ** Resolving the caller *)

(** [m], with both outcomes handled. *)
Definition handled {A B} (m : Store A) (fail : Err -> Store B) (k : A -> Store B) : Store B :=
  let* r := try m in match r with Ok a => k a | Error e => fail e end.

(** [resolveCookie]: the role is the membership's, never the cookie's. *)
Definition resolveCookie (r : Request) : Store (option authResult) :=
  match q_cookie r with
  | None => ret None
  | Some v =>
      if String.eqb v "" then ret None
      else
        let* now := now_ in
        match Decode v now with
        | None => ret None
        | Some sess =>
            handled (GetUserByID (ss_org sess) (ss_user sess)) (fun _ => ret None) (fun _ =>
            handled (GetMembership (ss_org sess) (ss_user sess)) (fun _ => ret None) (fun m =>
            ret (Some {| ar_principal := {| pr_org := ss_org sess; pr_user := ss_user sess; pr_role := m_role m |};
                         ar_session := sess; ar_by_cookie := true; ar_csrf := IssueCSRF sess |})))
        end
  end.

(** [bearerToken]. The prefix has no letter that folds out of ASCII. *)
Definition bearer_prefix : bytes := bstr "Bearer ".
Definition bearerToken (r : Request) : option bytes :=
  let h := q_authorization r in
  let n := List.length bearer_prefix in
  if (List.length h <=? n)%nat || negb (asciiEqualFold (take n h) bearer_prefix) then None
  else match TrimSpace (drop n h) with [] => None | tok => Some tok end.

(** [resolveBearer]. *)
Definition resolveBearer (r : Request) : Store (option authResult) :=
  match bearerToken r with
  | None => ret None
  | Some tok =>
      handled (AuthenticateToken (HashToken tok)) (fun _ => ret None) (fun '(org, _) =>
      ret (Some {| ar_principal := {| pr_org := org; pr_user := 0; pr_role := "token" |}; ar_session := no_session; ar_by_cookie := false; ar_csrf := "" |}))
  end.

(** [resolve]. *)
Definition resolve (r : Request) : Store (option authResult) :=
  let* ar := resolveCookie r in
  match ar with Some ar => ret (Some ar) | None => resolveBearer r end.

(** [isUnsafeMethod]. *)
Definition isUnsafeMethod (method : string) : bool := bool_decide (method ∈ ["POST"; "PUT"; "PATCH"; "DELETE"]%string).

(** [validCSRF]. *)
Definition csrf_sent (r : Request) : bytes := match q_csrf_header r with [] => value_of (q_form r) "csrf_token" | tok => tok end.
Definition validCSRF (r : Request) (sess : Session) : bool := match csrf_sent r with [] => false | tok => CheckCSRF sess tok end.

(** [rejectUnauthenticated]. *)
Definition rejectUnauthenticated (r : Request) : WebReply :=
  if has_prefix (q_path r) (bstr "/api/") then
    {| w_code := StatusUnauthorized; w_headers := [("Content-Type"%string, application_json)]; w_cookies := []; w_body := BJson (json_error "unauthorized") |}
  else Redirect [] (bstr "/login").

Definition forbidden : WebReply := web_Error StatusForbidden (bstr "forbidden: invalid CSRF token").

(** [requireAuth]. *)
Definition requireAuth (next : WebHandler) (r : Request) : Store WebReply :=
  let* ar := resolve r in
  match ar with
  | None => ret (rejectUnauthenticated r)
  | Some ar =>
      if ar_by_cookie ar && isUnsafeMethod (q_method r) && negb (validCSRF r (ar_session ar)) then ret forbidden
      else next (Some ar) r
  end.

(** ** Login and logout *)

Definition sessionCookieName : string := "tend_session".
Definition genericLoginError : bytes := bstr "Invalid email or password.".

(** [sessionCookie] and [renderLogin]. *)
Definition sessionCookie (value : string) (maxAge : Z) : Cookie :=
  {| ck_name := sessionCookieName; ck_value := value; ck_path := "/"; ck_http_only := true; ck_secure := secure; ck_same_site_lax := true; ck_max_age := maxAge |}.
Definition renderLogin (err : bytes) (code : Z) : WebReply :=
  {| w_code := code; w_headers := [("Content-Type"%string, text_html)]; w_cookies := []; w_body := BLogin err |}.
Definition internal_error : WebReply := web_Error StatusInternalServerError (bstr "internal error").

(** [handleLoginForm]. *)
Definition handleLoginForm : WebReply := renderLogin [] StatusOK.

(** [defaultOrgID]. *)
Definition defaultOrgID : Store Z := let* org := BootstrapDefaultOrg in ret (o_id org).

(** [handleLoginSubmit]. *)
Definition handleLoginSubmit (r : Request) : Store WebReply :=
  if q_form_error r then ret (renderLogin genericLoginError StatusBadRequest)
  else
    let email := TrimSpace (value_of (q_form r) "email") in
    let pw := value_of (q_form r) "password" in
    handled defaultOrgID (fun _ => ret internal_error) (fun org =>
    handled (GetUserByEmail org (str email)) (fun _ => ret (renderLogin genericLoginError StatusUnauthorized)) (fun user =>
    if negb (VerifyPassword (u_password_hash user) pw) then ret (renderLogin genericLoginError StatusUnauthorized)
    else
      let* now := now_ in
      let sess := {| ss_user := u_id user; ss_org := u_org user; ss_expiry := TimeAdd now DefaultSessionTTL |} in
      match Encode sess with
      | None => ret internal_error
      | Some value => ret (Redirect [sessionCookie value (Z.quot DefaultSessionTTL Second)] (bstr "/"))
      end)).

(** [handleLogout]. *)
Definition handleLogout : WebHandler := fun _ _ => ret (Redirect [sessionCookie "" (-1)] (bstr "/login")).
End Auth.
