(* ===== verification/Api.v ===== *)
(** * The JSON API ([internal/httpserver/api.go], handlers)

    Every handler of the API, as what it does to the store and answers. Each
    finds the caller in the request's context and asks the store for that
    org's rows only. *)
From S2P Require Import Prelude GoTime Domain Heartbeat GoStrings Sql Schema StoreEvents StoreRuns StoreHeartbeats StoreDeliveries StoreConfig StoreInv PingApi PingHandler Chat Dto Views Auth.
Open Scope Z_scope.

Definition defaultAPILimit : Z := 50.
Definition maxAPILimit : Z := 200.

(** [writeJSON]: what cannot be encoded leaves the body empty. [apiError]. *)
Definition writeJSON (code : Z) (v : Json) : WebReply :=
  {| w_code := code; w_headers := [("Content-Type"%string, application_json)]; w_cookies := []; w_body := if encodable v then BJson v else BText [] |}.
Definition apiError (code : Z) (msg : string) : WebReply := writeJSON code (json_error msg).

(** [parseLimit]. *)
Definition parseLimit (r : Request) : Z :=
  match value_of (q_query r) "limit" with
  | [] => defaultAPILimit
  | raw =>
      match Atoi raw with
      | None => defaultAPILimit
      | Some n => if n <=? 0 then defaultAPILimit else if maxAPILimit <? n then maxAPILimit else n
      end
  end.

(** [pathID]. *)
Definition pathID (r : Request) : option Z :=
  match ParseInt (q_id r) with Some id => if id <=? 0 then None else Some id | None => None end.

Section Api.
Context `{World} `{JSONText} `{PayloadJSON} `{DetailJSON}.

(** The openings of the handlers: who asks, and about which id. *)
Definition as_principal (k : Principal -> Store WebReply) (ctx : option authResult) : Store WebReply :=
  match PrincipalFrom ctx with None => ret (apiError StatusUnauthorized "unauthorized") | Some p => k p end.
Definition with_id (r : Request) (k : Z -> Store WebReply) : Store WebReply :=
  match pathID r with None => ret (apiError StatusBadRequest "invalid id") | Some id => k id end.

(** The answers to a store error, where a missing row is told apart and where it is not. *)
Definition store_failed (_ : Err) : Store WebReply := ret (apiError StatusInternalServerError "internal error").
Definition missing_or_failed (e : Err) : Store WebReply :=
  if is_not_found e then ret (apiError StatusNotFound "not found") else store_failed e.
Definition ok_json (v : Json) : Store WebReply := ret (writeJSON StatusOK v).

(** ** Reading *)

(** [handleListJobs]: one job that cannot be read fails the list. *)
Definition handleListJobs : WebHandler := fun ctx r => as_principal (fun p =>
  handled (ListJobs (pr_org p)) store_failed (fun '(js, bad) =>
  match bad with [] => ok_json (JArr (map (fun j => json_jobDTO (fromJob j)) js)) | _ => ret (apiError StatusInternalServerError "internal error") end)) ctx.

(** [handleGetJob]. *)
Definition handleGetJob : WebHandler := fun ctx r => as_principal (fun p => with_id r (fun id =>
  handled (GetJob (pr_org p) id) missing_or_failed (fun j => ok_json (json_jobDTO (fromJob j))))) ctx.

(** [handleListJobRuns]. *)
Definition handleListJobRuns : WebHandler := fun ctx r => as_principal (fun p => with_id r (fun id =>
  handled (ListRuns (pr_org p) id (parseLimit r)) store_failed (fun runs => ok_json (JArr (map (fun x => json_runSummaryDTO (fromRunSummary x)) runs))))) ctx.

(** [handleGetRun]. *)
Definition handleGetRun : WebHandler := fun ctx r => as_principal (fun p => with_id r (fun id =>
  handled (GetRun (pr_org p) id) missing_or_failed (fun run => ok_json (json_runDetailDTO (fromRunDetail run))))) ctx.

(** [handleListChannels]. *)
Definition handleListChannels : WebHandler := fun ctx r => as_principal (fun p =>
  handled (ListChannels (pr_org p)) store_failed (fun chs => ok_json (JArr (map (fun c => json_channelDTO (fromChannel c)) chs)))) ctx.

(** [handleListRules]: the kinds of the channels by id, the empty kind for a channel that is gone. *)
Definition channel_kinds (chs : list Channel) : gmap Z ChannelType := fold_left (fun m c => <[ch_id c := ch_kind c]> m) chs ∅.
Definition kind_of (chs : list Channel) (id : Z) : ChannelType := default (OtherChannel "") (channel_kinds chs !! id).
Definition handleListRules : WebHandler := fun ctx r => as_principal (fun p =>
  handled (ListRules (pr_org p)) store_failed (fun rules =>
  handled (ListChannels (pr_org p)) store_failed (fun chs =>
  ok_json (JArr (map (fun x => json_ruleDTO (fromRule x (kind_of chs (ru_channel x)))) rules))))) ctx.

(** [handleListHeartbeats] and [handleGetHeartbeat]. *)
Definition handleListHeartbeats : WebHandler := fun ctx r => as_principal (fun p =>
  handled (ListHeartbeats (pr_org p)) store_failed (fun hbs => ok_json (JArr (map (fun h => json_heartbeatDTO (fromHeartbeat h)) hbs)))) ctx.
Definition handleGetHeartbeat : WebHandler := fun ctx r => as_principal (fun p => with_id r (fun id =>
  handled (GetHeartbeat (pr_org p) id) missing_or_failed (fun hb => ok_json (json_heartbeatDTO (fromHeartbeat hb))))) ctx.

(** [handleHeartbeatHistory] and [handleHeartbeatPings]. *)
Definition handleHeartbeatHistory : WebHandler := fun ctx r => as_principal (fun p => with_id r (fun id =>
  handled (GetHeartbeat (pr_org p) id) missing_or_failed (fun hb =>
  handled (ListHeartbeatEvents (pr_org p) (hb_name hb) (parseLimit r)) store_failed (fun evs =>
  ok_json (JArr (map (fun e => json_eventDTO (fromEvent e)) evs)))))) ctx.
Definition handleHeartbeatPings : WebHandler := fun ctx r => as_principal (fun p => with_id r (fun id =>
  handled (GetHeartbeat (pr_org p) id) missing_or_failed (fun _ =>
  handled (ListHeartbeatPings (pr_org p) id (parseLimit r)) store_failed (fun pings =>
  ok_json (JArr (map (fun x => json_pingDTO (fromPing x)) pings)))))) ctx.

(** [handleHeartbeatsNotCreatable]. *)
Definition handleHeartbeatsNotCreatable : WebHandler := fun _ _ =>
  let e := apiError StatusMethodNotAllowed "heartbeats are managed via the CLI or YAML sync (tend heartbeat add / tend sync); the API is read-only" in
  ret {| w_code := w_code e; w_headers := ("Allow"%string, bstr "GET") :: w_headers e; w_cookies := []; w_body := w_body e |}.

(** [handleListEvents]. *)
Definition handleListEvents : WebHandler := fun ctx r => as_principal (fun p =>
  handled (ListEvents (pr_org p) (parseLimit r)) store_failed (fun evs => ok_json (JArr (map (fun e => json_eventDTO (fromEvent e)) evs)))) ctx.

(** [handleListSecrets]. *)
Definition handleListSecrets : WebHandler := fun ctx r => as_principal (fun p =>
  handled (ListSecrets (pr_org p)) store_failed (fun ms => ok_json (JArr (map (fun m => json_secretDTO (fromSecret m)) ms)))) ctx.

(** ** Acting *)

(** [enqueueJobRun]: only a job of the org is run. *)
Definition enqueueJobRun (org id : Z) : Store Z := GetJob org id ;;; EnqueueRun org id.

(** [setJobEnabledCore]: the job as it was read, its flag set, is written back. *)
Definition with_enabled (j : Job) (enabled : bool) : Job :=
  {| j_id := j_id j; j_org := j_org j; j_name := j_name j; j_type := j_type j; j_command := j_command j; j_http_url := j_http_url j;
     j_http_method := j_http_method j; j_http_body := j_http_body j; j_cron := j_cron j; j_interval_seconds := j_interval_seconds j;
     j_run_at := j_run_at j; j_timeout_seconds := j_timeout_seconds j; j_max_retries := j_max_retries j; j_enabled := enabled; j_env := j_env j;
     j_spec := j_spec j; j_next_run_at := j_next_run_at j; j_created_at := j_created_at j; j_updated_at := j_updated_at j |}.
Definition setJobEnabledCore (org id : Z) (enabled : bool) : Store Job :=
  let* j := GetJob org id in
  let j := with_enabled j enabled in
  UpdateJob j ;;; ret j.

(** [handleRunJobNow]. *)
Definition handleRunJobNow : WebHandler := fun ctx r => as_principal (fun p => with_id r (fun id =>
  handled (enqueueJobRun (pr_org p) id) missing_or_failed (fun runID => ret (writeJSON StatusAccepted (json_runEnqueued runID))))) ctx.

(** [apiSetJobEnabled], [handleEnableJob] and [handleDisableJob]. *)
Definition apiSetJobEnabled (enabled : bool) : WebHandler := fun ctx r => as_principal (fun p => with_id r (fun id =>
  handled (setJobEnabledCore (pr_org p) id enabled) missing_or_failed (fun j => ok_json (json_jobDTO (fromJob j))))) ctx.
Definition handleEnableJob : WebHandler := apiSetJobEnabled true.
Definition handleDisableJob : WebHandler := apiSetJobEnabled false.

End Api.
