(* ===== verification/Dashboard.v ===== *)
(** * The dashboard ([internal/httpserver/dashboard.go], handlers)

    Every handler of the HTML pages and of the table's buttons. A page is
    answered with the record its template is given. *)
From S2P Require Import Prelude GoTime Domain Heartbeat GoStrings Sql Schema StoreEvents StoreRuns StoreHeartbeats StoreDeliveries StoreConfig StoreInv PingApi PingHandler Chat Dto Views Auth Api.
Open Scope Z_scope.

Definition dashboardRunLimit : Z := 50.
Definition dashboardEventLimit : Z := 100.
Definition dashboardPingLimit : Z := 50.

(** [dashID]. *)
Definition dashID (r : Request) : option Z :=
  match ParseInt (q_id r) with Some id => if id <=? 0 then None else Some id | None => None end.

Section Dashboard.
Context `{World} `{JSONText} `{PayloadJSON}.

(** [render] and [renderFragment]: the templates are there. *)
Definition render_page (p : Page) : Store WebReply :=
  ret {| w_code := StatusOK; w_headers := [("Content-Type"%string, text_html)]; w_cookies := []; w_body := BPage p |}.

(** [Server.pageData]. *)
Definition page_data (ctx : option authResult) (title : bytes) (active : string) : pageData :=
  {| pd_title := title; pd_active := active; pd_csrf := CSRFTokenFrom ctx |}.

(** The openings of the handlers, and their answers to a store error. *)
Definition signed_in (k : Principal -> Store WebReply) (ctx : option authResult) : Store WebReply :=
  match PrincipalFrom ctx with None => ret (Redirect [] (bstr "/login")) | Some p => k p end.
Definition with_dash_id (r : Request) (k : Z -> Store WebReply) : Store WebReply :=
  match dashID r with None => ret web_NotFound | Some id => k id end.
Definition page_failed (_ : Err) : Store WebReply := ret internal_error.

(** [actionError]; the pages treat the error of reading their subject alike. *)
Definition actionError (e : Err) : Store WebReply := if is_not_found e then ret web_NotFound else page_failed e.

(** [latestRunOf]: an error is no run. *)
Definition latestRunOf (org job : Z) : Store (option Run) := handled (ListRuns org job 1) (fun _ => ret None) (fun runs => ret (head runs)).

(** [jobRowFor]. *)
Definition jobRowFor (ctx : option authResult) (org : Z) (j : Job) : Store jobRow :=
  let* now := now_ in
  let* last := latestRunOf org (j_id j) in
  ret (with_csrf (toJobRow now j last) (CSRFTokenFrom ctx)).
Fixpoint jobRowsFor (ctx : option authResult) (org : Z) (js : list Job) : Store (list jobRow) :=
  match js with
  | [] => ret []
  | j :: rest => let* row := jobRowFor ctx org j in let* rows := jobRowsFor ctx org rest in ret (row :: rows)
  end.

(** [buildJobsPage], given what is made of it. *)
Definition buildJobsPage (page : pageData -> list jobRow -> bool -> Page) : WebHandler := fun ctx r => signed_in (fun p =>
  handled (ListJobs (pr_org p)) page_failed (fun '(js, bad) =>
  match bad with
  | [] =>
      let* rows := jobRowsFor ctx (pr_org p) js in
      render_page (page (page_data ctx (bstr "Jobs") "jobs") rows (bool_decide (value_of (q_query r) "static" = bstr "1")))
  | _ => ret internal_error
  end)) ctx.

(** [handleJobsPage] and [handleJobsPartial]. *)
Definition handleJobsPage : WebHandler := buildJobsPage JobsPage.
Definition handleJobsPartial : WebHandler := buildJobsPage JobsTable.

(** [handleHeartbeatsPage]. *)
Definition handleHeartbeatsPage : WebHandler := fun ctx r => signed_in (fun p =>
  handled (ListHeartbeats (pr_org p)) page_failed (fun hbs =>
  render_page (HeartbeatsPage (page_data ctx (bstr "Heartbeats") "heartbeats") (map toHeartbeatRow hbs)))) ctx.

(** [handleHeartbeatDetailPage]. *)
Definition handleHeartbeatDetailPage : WebHandler := fun ctx r => signed_in (fun p => with_dash_id r (fun id =>
  handled (GetHeartbeat (pr_org p) id) actionError (fun hb =>
  handled (ListHeartbeatPings (pr_org p) id dashboardPingLimit) page_failed (fun pings =>
  handled (ListHeartbeatEvents (pr_org p) (hb_name hb) dashboardEventLimit) page_failed (fun evs =>
  render_page (HeartbeatDetailPage (page_data ctx (bstr (hb_name hb)) "heartbeats") (toHeartbeatRow hb)
    (if IsZero (hb_started_at hb) then [] else fmtTime (hb_started_at hb)) (map toPingRow pings) (map toEventRow evs))))))) ctx.

(** [handleEventsPage]. *)
Definition handleEventsPage : WebHandler := fun ctx r => signed_in (fun p =>
  handled (ListEvents (pr_org p) dashboardEventLimit) page_failed (fun evs =>
  render_page (EventsPage (page_data ctx (bstr "Events") "events") (map toEventRow evs)))) ctx.

(** [handleJobDetailPage] and [handleRunDetailPage]. *)
Definition handleJobDetailPage : WebHandler := fun ctx r => signed_in (fun p => with_dash_id r (fun id =>
  handled (GetJob (pr_org p) id) actionError (fun j =>
  handled (ListRuns (pr_org p) id dashboardRunLimit) page_failed (fun runs =>
  render_page (JobDetailPage (page_data ctx (bstr (j_name j)) "jobs") (toJobView j) (map toRunRow runs)))))) ctx.
Definition handleRunDetailPage : WebHandler := fun ctx r => signed_in (fun p => with_dash_id r (fun id =>
  handled (GetRun (pr_org p) id) actionError (fun run =>
  render_page (RunDetailPage (page_data ctx (bstr "Run #" ++ Itoa (r_id run)) "jobs") (toRunView run))))) ctx.

(** [renderJobRow]. *)
Definition renderJobRow (ctx : option authResult) (org id : Z) : Store WebReply :=
  handled (GetJob org id) actionError (fun j => let* row := jobRowFor ctx org j in render_page (JobRowFragment row)).

(** [handleActionRunNow]. *)
Definition handleActionRunNow : WebHandler := fun ctx r => signed_in (fun p => with_dash_id r (fun id =>
  handled (enqueueJobRun (pr_org p) id) actionError (fun _ => renderJobRow ctx (pr_org p) id))) ctx.

(** [actionSetEnabled], [handleActionEnable] and [handleActionDisable]. *)
Definition actionSetEnabled (enabled : bool) : WebHandler := fun ctx r => signed_in (fun p => with_dash_id r (fun id =>
  handled (setJobEnabledCore (pr_org p) id enabled) actionError (fun j =>
  let* row := jobRowFor ctx (pr_org p) j in render_page (JobRowFragment row)))) ctx.
Definition handleActionEnable : WebHandler := actionSetEnabled true.
Definition handleActionDisable : WebHandler := actionSetEnabled false.

End Dashboard.
