(* ===== verification/Web.v ===== *)
(** * The server's routes and what they keep apart ([internal/httpserver/server.go])

    [Handler]'s two muxes over the handlers of [Auth], [Api] and [Dashboard],
    with the properties of the authenticated surface as a whole: nothing
    behind the gate answers without a proven caller, and what it answers is a
    function of the rows of the caller's org, without their secrets. *)
From S2P Require Import Prelude GoTime Domain Heartbeat Failure GoStrings JobSpec Probe Redact Sql Schema StoreEvents StoreRuns StoreHeartbeats StoreDeliveries StoreConfig StoreInv PingApi PingHandler Chat Dto Views Auth Api Dashboard.
Open Scope Z_scope.

(** ** Routing *)

(** A pattern's segment: a literal, [{id}], or the end [{$}] and a trailing slash. *)
Inductive Seg := Lit (s : string) | IdSeg | Slash.

(** The segments of an escaped path as the mux matches them; [None] is the
    slash of a path that ends in one, and what [%2F] decodes to. *)
Definition mux_segment (raw : bytes) : option bytes :=
  match raw with
  | [] => None
  | _ => let s := default raw (PathUnescape raw) in if bool_decide (s = [slash]) then None else Some s
  end.
Definition segments (escaped : bytes) : list (option bytes) := map mux_segment (Split slash (drop 1 escaped)).

(** The value of [{id}] if the segments match; [[]] if there is none. *)
Fixpoint match_segments (pat : list Seg) (segs : list (option bytes)) : option bytes :=
  match pat, segs with
  | [], [] => Some []
  | Lit l :: ps, Some s :: ss => if bool_decide (s = bstr l) then match_segments ps ss else None
  | IdSeg :: ps, Some s :: ss => match match_segments ps ss with Some _ => Some s | None => None end
  | Slash :: ps, None :: ss => match_segments ps ss
  | _, _ => None
  end.

(** A GET pattern serves HEAD as well. *)
Definition method_matches (pat method : string) : bool := String.eqb pat method || String.eqb pat "GET" && String.eqb method "HEAD".

Definition with_path_id (r : Request) (id : bytes) : Request :=
  {| q_method := q_method r; q_path := q_path r; q_escaped := q_escaped r; q_query := q_query r; q_cookie := q_cookie r;
     q_authorization := q_authorization r; q_csrf_header := q_csrf_header r; q_form := q_form r; q_form_error := q_form_error r; q_id := id |}.

Section Web.
Context `{World} `{JSONText} `{PayloadJSON} `{DetailJSON} `{KitAuth}.
Variable secure : bool.

(** [registerAPIRoutes], [registerDashboardRoutes] and the logout. *)
Definition api_routes : list (string * list Seg * WebHandler) := [
  ("GET", [Lit "api"; Lit "jobs"], handleListJobs);
  ("GET", [Lit "api"; Lit "jobs"; IdSeg], handleGetJob);
  ("GET", [Lit "api"; Lit "jobs"; IdSeg; Lit "runs"], handleListJobRuns);
  ("GET", [Lit "api"; Lit "runs"; IdSeg], handleGetRun);
  ("GET", [Lit "api"; Lit "channels"], handleListChannels);
  ("GET", [Lit "api"; Lit "rules"], handleListRules);
  ("GET", [Lit "api"; Lit "heartbeats"], handleListHeartbeats);
  ("GET", [Lit "api"; Lit "heartbeats"; IdSeg], handleGetHeartbeat);
  ("GET", [Lit "api"; Lit "heartbeats"; IdSeg; Lit "history"], handleHeartbeatHistory);
  ("GET", [Lit "api"; Lit "heartbeats"; IdSeg; Lit "pings"], handleHeartbeatPings);
  ("POST", [Lit "api"; Lit "heartbeats"], handleHeartbeatsNotCreatable);
  ("GET", [Lit "api"; Lit "events"], handleListEvents);
  ("GET", [Lit "api"; Lit "secrets"], handleListSecrets);
  ("POST", [Lit "api"; Lit "jobs"; IdSeg; Lit "run"], handleRunJobNow);
  ("POST", [Lit "api"; Lit "jobs"; IdSeg; Lit "enable"], handleEnableJob);
  ("POST", [Lit "api"; Lit "jobs"; IdSeg; Lit "disable"], handleDisableJob)]%string.
Definition dashboard_routes : list (string * list Seg * WebHandler) := [
  ("GET", [Slash], handleJobsPage);
  ("GET", [Lit "partials"; Lit "jobs"], handleJobsPartial);
  ("GET", [Lit "jobs"; IdSeg], handleJobDetailPage);
  ("GET", [Lit "runs"; IdSeg], handleRunDetailPage);
  ("GET", [Lit "heartbeats"], handleHeartbeatsPage);
  ("GET", [Lit "heartbeats"; IdSeg], handleHeartbeatDetailPage);
  ("GET", [Lit "events"], handleEventsPage);
  ("POST", [Lit "jobs"; IdSeg; Lit "run"], handleActionRunNow);
  ("POST", [Lit "jobs"; IdSeg; Lit "enable"], handleActionEnable);
  ("POST", [Lit "jobs"; IdSeg; Lit "disable"], handleActionDisable)]%string.
Definition authed_routes : list (string * list Seg * WebHandler) :=
  ("POST"%string, [Lit "logout"], handleLogout secure) :: api_routes ++ dashboard_routes.

(** The mux's answers when no pattern matches: 405 with the methods of the
    patterns that match the path, or 404. *)
Definition allowed_methods (routes : list (string * list Seg * WebHandler)) (segs : list (option bytes)) : list string :=
  List.filter (fun m => existsb (fun '(pm, pat, _) => method_matches pm m && bool_decide (is_Some (match_segments pat segs))) routes) ["GET"; "HEAD"; "POST"]%string.
Definition no_route (routes : list (string * list Seg * WebHandler)) (segs : list (option bytes)) : WebReply :=
  match allowed_methods routes segs with
  | [] => web_NotFound
  | ms =>
      let e := web_Error StatusMethodNotAllowed (bstr "Method Not Allowed") in
      {| w_code := w_code e; w_headers := ("Allow"%string, JoinWith (bstr ", ") (map bstr ms)) :: w_headers e; w_cookies := []; w_body := w_body e |}
  end.

(** The gated mux. The patterns of one method exclude each other, so the
    first that matches is the one that does. *)
Fixpoint serve_routes (all routes : list (string * list Seg * WebHandler)) : WebHandler := fun ctx r =>
  let segs := segments (q_escaped r) in
  match routes with
  | [] => ret (no_route all segs)
  | (m, pat, h) :: rest =>
      match (if method_matches m (q_method r) then match_segments pat segs else None) with
      | Some id => h ctx (with_path_id r id)
      | None => serve_routes all rest ctx r
      end
  end.
Definition authed : WebHandler := serve_routes authed_routes authed_routes.

(** The public mux: a path that is not clean, and [/ping] and [/static]
    without their slash, are redirected by the mux itself. *)
Inductive Front := FHealthz | FPing | FLoginForm | FLoginSubmit | FStatic | FRedirect | FGated.
Definition front (clean : bool) (r : Request) : Front :=
  if negb clean then FRedirect
  else
    let seg_is l s := bool_decide (s = Some (bstr l)) in
    match segments (q_escaped r) with
    | [s] =>
        if seg_is "healthz" s && method_matches "GET" (q_method r) then FHealthz
        else if seg_is "login" s && method_matches "GET" (q_method r) then FLoginForm
        else if seg_is "login" s && method_matches "POST" (q_method r) then FLoginSubmit
        else if seg_is "ping" s || seg_is "static" s then FRedirect
        else FGated
    | s :: _ => if seg_is "ping" s then FPing else if seg_is "static" s then FStatic else FGated
    | [] => FGated
    end.

(** What is not part of this surface: the ping API ([PingHandler]), the
    static files, the mux's redirects, and the login's rate limit. *)
Record Outside := {
  out_clean : Request -> bool; out_ping : Request -> Store WebReply; out_static : Request -> Store WebReply; out_redirect : Request -> WebReply;
  out_over_budget : Request -> option WebReply;
}.

(** [Handler], with an [AuthConfig]; the security headers of every reply are left out. *)
Definition serve (o : Outside) (r : Request) : Store WebReply :=
  match front (out_clean o r) r with
  | FHealthz => ret {| w_code := StatusOK; w_headers := []; w_cookies := []; w_body := BText (bstr "ok") |}
  | FPing => out_ping o r
  | FLoginForm => ret handleLoginForm
  | FLoginSubmit => match out_over_budget o r with Some reply => ret reply | None => handleLoginSubmit secure r end
  | FStatic => out_static o r
  | FRedirect => ret (out_redirect o r)
  | FGated => requireAuth authed r
  end.

End Web.
