(* ===== verification/Gate.v ===== *)
(** * The gate and the login

    What a request must prove to get past [requireAuth], that nothing behind
    the gate runs otherwise, and what a login gives. *)
From S2P Require Import Prelude GoTime Domain Heartbeat Utf8 Failure GoStrings JobSpec Probe Redact Sql Schema StoreEvents StoreConfig StoreInv History PingApi PingHandler Chat Dto Views Auth Api Dashboard Web.
Open Scope Z_scope.

Section Gate.
Context `{World} `{JSONText} `{PayloadJSON} `{DetailJSON} `{KitAuth}.

(** The caller a request proves to be: by a cookie that decodes at some
    moment to a session whose user and membership are there, or by a token
    whose hash is on record. *)
Inductive proves (s : St DB) (r : Request) : authResult -> Prop :=
| proves_cookie v n sess u m : q_cookie r = Some v -> v <> ""%string -> (st_tick s <= n)%nat -> Decode v (clock n) = Some sess ->
    u ∈ rows (db_users (st_db s)) -> u_org u = ss_org sess -> u_id u = ss_user sess ->
    m ∈ rows (db_memberships (st_db s)) -> m_org m = ss_org sess -> m_user m = ss_user sess ->
    proves s r {| ar_principal := {| pr_org := ss_org sess; pr_user := ss_user sess; pr_role := m_role m |}; ar_session := sess; ar_by_cookie := true;
                  ar_csrf := IssueCSRF sess |}
| proves_token tok t : bearerToken r = Some tok -> t ∈ rows (db_tokens (st_db s)) -> tk_hash t = HashToken tok ->
    proves s r {| ar_principal := {| pr_org := tk_org t; pr_user := 0; pr_role := "token" |}; ar_session := no_session; ar_by_cookie := false; ar_csrf := "" |}.

(** A cookie's mutation carries a token that its session accepts. *)
Definition csrf_ok (r : Request) (ar : authResult) : Prop :=
  ar_by_cookie ar = true -> isUnsafeMethod (q_method r) = true -> csrf_sent r <> [] /\ CheckCSRF (ar_session ar) (csrf_sent r) = true.

(** ** Reads of one row *)

Definition row_query {R A} (f : DB -> Table R) (p : R -> bool) (g : R -> A) : Store A :=
  let* r := autocommit (query (fun d => select1 p (f d))) in match r with None => throw ErrNotFound | Some r => ret (g r) end.

Lemma row_query_reads {R A} (f : DB -> Table R) (p : R -> bool) (g : R -> A) s : let '(x, s1) := row_query f p g s in
  st_db s1 = st_db s /\ (st_tick s <= st_tick s1)%nat /\ forall a, x = Ok a -> exists r, r ∈ rows (f (st_db s)) /\ p r = true /\ a = g r.
Proof.
  unfold row_query, bind. pose proof (autocommit_query (fun d => select1 p (f d)) s) as Hq.
  destruct (autocommit _ s) as [[[r|]|e] s1]; destruct Hq as (Hd & Ht & Hr); simpl; (split; [done|split; [done|]]); try done.
  destruct Hr as [[= E]|[e [=]]]. intros a [= <-]. exists r. symmetry in E. apply select1_Some in E as [E1 E2]. done.
Qed.

Lemma row_query_reliable `{!Reliable} {R A} (f : DB -> Table R) (p : R -> bool) (g : R -> A) s :
  exists s1, row_query f p g s = (match select1 p (f (st_db s)) with Some r => Ok (g r) | None => Error ErrNotFound end, s1) /\ st_db s1 = st_db s.
Proof.
  unfold row_query, bind at 1, autocommit. rewrite tx_reliable. unfold bind, query, ret, throw. cbn [st_db st_tick].
  destruct (select1 p (f (st_db s))); by eexists.
Qed.

Definition is_user (org id : Z) (u : User) : bool := (u_org u =? org) && (u_id u =? id).
Lemma GetUserByID_query org id : GetUserByID org id = row_query db_users (is_user org id) (fun u => u).
Proof. reflexivity. Qed.
Lemma GetUserByEmail_query org email : GetUserByEmail org email = row_query db_users (user_with_email org email) (fun u => u).
Proof. reflexivity. Qed.
Lemma GetMembership_query org user : GetMembership org user = row_query db_memberships (membership_of org user) (fun m => m).
Proof. reflexivity. Qed.
Lemma AuthenticateToken_query hash : AuthenticateToken hash = row_query db_tokens (fun t => String.eqb (tk_hash t) hash) (fun t => (tk_org t, tk_name t)).
Proof. reflexivity. Qed.

Lemma handled_eq {A B} (m : Store A) (fail : Err -> Store B) k s :
  handled m fail k s = match m s with (Ok a, s1) => k a s1 | (Error e, s1) => fail e s1 end.
Proof. unfold handled, bind, try. by destruct (m s) as [[a|e] s1]. Qed.

(** ** Authentication *)

Lemma resolveCookie_proves r s : let '(x, s1) := resolveCookie r s in
  exists ar, x = Ok ar /\ st_db s1 = st_db s /\ (st_tick s <= st_tick s1)%nat /\ forall a, ar = Some a -> proves s r a.
Proof.
  unfold resolveCookie. destruct (q_cookie r) as [v|] eqn:Ec; [|by exists None]. destruct (String.eqb_spec v "") as [|Hv]; [by exists None|].
  unfold bind, now_. destruct (Decode v _) as [sess|] eqn:Ed; [|exists None; simpl; repeat split; [lia|done]].
  rewrite handled_eq, GetUserByID_query. pose proof (row_query_reads db_users (is_user (ss_org sess) (ss_user sess)) (fun u => u) (mkSt (st_db s) (S (st_tick s)))) as Hu.
  destruct (row_query _ _ _ _) as [[u|e] s1]; destruct Hu as (Hd1 & Ht1 & Hu); simpl in *; [|exists None; repeat split; [congruence|lia|done]].
  rewrite handled_eq, GetMembership_query. pose proof (row_query_reads db_memberships (membership_of (ss_org sess) (ss_user sess)) (fun m => m) s1) as Hm.
  destruct (row_query _ _ _ _) as [[m|e] s2]; destruct Hm as (Hd2 & Ht2 & Hm); simpl in *; (eexists; split; [reflexivity|]; split; [congruence|]; split; [lia|]); [|done].
  intros a [= <-]. destruct (Hu u eq_refl) as (u' & Hin & Hp & ->), (Hm m eq_refl) as (m' & Hin' & Hp' & ->). unfold is_user, membership_of in *. bsimpl.
  rewrite Hd1 in Hin'. by eapply proves_cookie.
Qed.

Lemma resolveBearer_proves r s : let '(x, s1) := resolveBearer r s in
  exists ar, x = Ok ar /\ st_db s1 = st_db s /\ forall a, ar = Some a -> proves s r a.
Proof.
  unfold resolveBearer. destruct (bearerToken r) as [tok|] eqn:Et; [|by exists None].
  rewrite handled_eq, AuthenticateToken_query. pose proof (row_query_reads db_tokens (fun t => String.eqb (tk_hash t) (HashToken tok)) (fun t => (tk_org t, tk_name t)) s) as Hq.
  destruct (row_query _ _ _ _) as [[[org name]|e] s1]; destruct Hq as (Hd & Ht & Hq); [|by exists None].
  eexists. split; [reflexivity|]. split; [done|]. intros a [= <-]. destruct (Hq _ eq_refl) as (t & Hin & Hp & [= -> _]). bsimpl. by eapply proves_token.
Qed.

Lemma proves_later s s' r ar : st_db s' = st_db s -> (st_tick s <= st_tick s')%nat -> proves s' r ar -> proves s r ar.
Proof. intros Hd Ht [v n sess u m| tok t]; rewrite Hd in *; [|by eapply proves_token].
  eapply (proves_cookie s r v n sess u m); try done. lia.
Qed.

Lemma resolve_proves r s : let '(x, s1) := resolve r s in
  exists ar, x = Ok ar /\ st_db s1 = st_db s /\ forall a, ar = Some a -> proves s r a.
Proof.
  unfold resolve, bind. pose proof (resolveCookie_proves r s) as Hc. destruct (resolveCookie r s) as [x s1]. destruct Hc as (ar & -> & Hd & Ht & Ha).
  destruct ar as [a|]; [by exists (Some a)|]. pose proof (resolveBearer_proves r s1) as Hb. destruct (resolveBearer r s1) as [x s2]. destruct Hb as (ar & -> & Hd2 & Hb).
  exists ar. split; [done|]. split; [congruence|]. intros a E. eapply proves_later; [| |by apply Hb]; done.
Qed.

(** [requireAuth] fails closed. *)
Lemma requireAuth_closed next r s : let '(x, s') := requireAuth next r s in
  (st_db s' = st_db s /\ (x = Ok (rejectUnauthenticated r) \/ x = Ok forbidden)) \/
  exists ar s1, proves s r ar /\ csrf_ok r ar /\ st_db s1 = st_db s /\ next (Some ar) r s1 = (x, s').
Proof.
  unfold requireAuth, bind. pose proof (resolve_proves r s) as Hr. destruct (resolve r s) as [x s1]. destruct Hr as (ar & -> & Hd & Ha).
  destruct ar as [ar|]; [|by left; split; [|left]]. destruct (ar_by_cookie ar && isUnsafeMethod (q_method r) && negb (validCSRF r (ar_session ar))) eqn:E.
  - left. by split; [|right].
  - destruct (next (Some ar) r s1) as [x s'] eqn:En. right. exists ar, s1. split; [by apply Ha|]. split; [|done].
    intros Hb Hu. rewrite Hb, Hu in E. simpl in E. apply negb_false_iff in E. unfold validCSRF in E. by destruct (csrf_sent r).
Qed.

(** C10: Nothing behind the gate runs for a stranger: whatever the request, the
    state and the faults, a gated path is answered with a redirect to the
    login, a 401 or a 403 and the database is as it was; or the request proved
    a caller that is on record, carried a valid CSRF token if it is a cookie's
    mutation, and the gated handlers answered for that caller. *)
Theorem serve_closed secure o r s : front (out_clean o r) r = FGated ->
  let '(x, s') := serve secure o r s in
  (st_db s' = st_db s /\ (x = Ok (rejectUnauthenticated r) \/ x = Ok forbidden)) \/
  exists ar s1, proves s r ar /\ csrf_ok r ar /\ st_db s1 = st_db s /\ authed secure (Some ar) r s1 = (x, s').
Proof. intros Hf. unfold serve. rewrite Hf. apply requireAuth_closed. Qed.

(** ** The login *)

Definition credentials (r : Request) : bytes * bytes := (TrimSpace (value_of (q_form r) "email"), value_of (q_form r) "password").
Definition session_of (u : User) (now : Time) : Session := {| ss_user := u_id u; ss_org := u_org u; ss_expiry := TimeAdd now DefaultSessionTTL |}.

(** Finding the default org leaves the users as they are. *)
Lemma defaultOrgID_users s : db_users (st_db (snd (defaultOrgID s))) = db_users (st_db s).
Proof.
  assert (Hb : evolves (fun d d' => db_users d' = db_users d) BootstrapDefaultOrg).
  { assert (Reflexive (fun d d' => db_users d' = db_users d)) by done.
    assert (Transitive (fun d d' => db_users d' = db_users d)) by (intros x y z; congruence).
    unfold BootstrapDefaultOrg, autocommit. evolve. }
  unfold defaultOrgID, bind. specialize (Hb s). by destruct (BootstrapDefaultOrg s) as [[o|e] s1].
Qed.

(** A login says nothing of who has an account: with credentials that are
    no user's, an unknown address and a wrong password alike, the reply is the
    same and sets no cookie, and the only other reply, for a database that
    fails, does not depend on the users either. *)
Theorem login_reveals_nothing secure r s :
  (forall u, u ∈ rows (db_users (st_db s)) -> u_email u = str (fst (credentials r)) -> VerifyPassword (u_password_hash u) (snd (credentials r)) = false) ->
  fst (handleLoginSubmit secure r s) = Ok (
    if q_form_error r then renderLogin genericLoginError StatusBadRequest
    else match fst (defaultOrgID s) with Ok _ => renderLogin genericLoginError StatusUnauthorized | Error _ => internal_error end).
Proof.
  intros Hno. unfold handleLoginSubmit. destruct (q_form_error r); [done|]. cbv zeta. rewrite handled_eq.
  pose proof (defaultOrgID_users s) as Hu. destruct (defaultOrgID s) as [[org|e] s1]; [|done]. cbn [fst snd] in *.
  rewrite handled_eq, GetUserByEmail_query. pose proof (row_query_reads db_users (user_with_email org (str (fst (credentials r)))) (fun u => u) s1) as Hq.
  unfold credentials in *. cbn [fst snd] in *. destruct (row_query _ _ _ s1) as [[u|e] s2]; destruct Hq as (_ & _ & Hq); [|done].
  destruct (Hq u eq_refl) as (u' & Hin & Hp & ->). rewrite Hu in Hin. unfold user_with_email in Hp. bsimpl. by rewrite Hno.
Qed.

(** ** A session *)

Lemma resolveCookie_session `{!Reliable, !KitAuthLaws} r s v sess u m :
  Encode sess = Some v -> q_cookie r = Some v -> clock (st_tick s) < ss_expiry sess ->
  select1 (is_user (ss_org sess) (ss_user sess)) (db_users (st_db s)) = Some u ->
  select1 (membership_of (ss_org sess) (ss_user sess)) (db_memberships (st_db s)) = Some m ->
  exists s1, resolveCookie r s = (Ok (Some {| ar_principal := {| pr_org := ss_org sess; pr_user := ss_user sess; pr_role := m_role m |};
    ar_session := sess; ar_by_cookie := true; ar_csrf := IssueCSRF sess |}), s1) /\ st_db s1 = st_db s.
Proof.
  intros He Hc Ht Hu Hm. unfold resolveCookie. rewrite Hc. destruct (String.eqb_spec v "") as [->|_]; [by apply Encode_nonempty in He|].
  unfold bind at 1, now_. rewrite (Decode_Encode _ _ _ He Ht). rewrite handled_eq, GetUserByID_query.
  destruct (row_query_reliable db_users (is_user (ss_org sess) (ss_user sess)) (fun u => u) (mkSt (st_db s) (S (st_tick s)))) as (s1 & -> & Hd1). cbn [st_db] in *. rewrite Hu.
  rewrite handled_eq, GetMembership_query.
  destruct (row_query_reliable db_memberships (membership_of (ss_org sess) (ss_user sess)) (fun m => m) s1) as (s2 & -> & Hd2). rewrite Hd1, Hm.
  exists s2. split; [done|congruence].
Qed.

Lemma defaultOrgID_reliable `{!Reliable} s org : select1 default_org (db_orgs (st_db s)) = Some org ->
  exists s1, defaultOrgID s = (Ok (o_id (or_org org)), s1) /\ st_db s1 = on_orgs draw (st_db s).
Proof.
  intros Ho. assert (Hex : exists_row default_org (db_orgs (st_db s)) = true) by (apply exists_row_true; exists org; by apply select1_Some).
  unfold defaultOrgID, BootstrapDefaultOrg, autocommit, bind, now_, query, exec. rewrite tx_reliable. cbn [st_db st_tick]. rewrite Hex. cbn [ret].
  rewrite tx_reliable. cbn [st_db st_tick ret].
  change (select1 default_org (db_orgs (on_orgs draw (st_db s)))) with (select1 default_org (db_orgs (st_db s))). rewrite Ho. by eexists.
Qed.

(** A login opens a session: the right password of a user of the default
    org is answered with a cookie, and until the session expires any request
    with that cookie is served as that user in the role of the membership, a
    mutation as well when it carries the CSRF token the pages show. Finding the
    default org has taken an org id for nothing. *)
Theorem login_session `{!Reliable, !KitAuthLaws} secure r s org u v next :
  q_form_error r = false -> select1 default_org (db_orgs (st_db s)) = Some org ->
  select1 (user_with_email (o_id (or_org org)) (str (fst (credentials r)))) (db_users (st_db s)) = Some u ->
  VerifyPassword (u_password_hash u) (snd (credentials r)) = true ->
  (forall now, Encode (session_of u now) = Some (v now)) ->
  exists s' : St DB, handleLoginSubmit secure r s = (Ok (Redirect [sessionCookie secure (v (clock (st_tick s'))) (Z.quot DefaultSessionTTL Second)] (bstr "/")), mkSt (on_orgs draw (st_db s)) (S (st_tick s'))) /\
  forall r2 (s2 : St DB) u2 m, let sess := session_of u (clock (st_tick s')) in
    q_cookie r2 = Some (v (clock (st_tick s'))) -> clock (st_tick s2) < clock (st_tick s') + DefaultSessionTTL ->
    select1 (is_user (u_org u) (u_id u)) (db_users (st_db s2)) = Some u2 ->
    select1 (membership_of (u_org u) (u_id u)) (db_memberships (st_db s2)) = Some m ->
    isUnsafeMethod (q_method r2) = false \/ q_csrf_header r2 = bstr (IssueCSRF sess) ->
    exists s3 : St DB, st_db s3 = st_db s2 /\ requireAuth next r2 s2 =
      next (Some {| ar_principal := {| pr_org := u_org u; pr_user := u_id u; pr_role := m_role m |}; ar_session := sess; ar_by_cookie := true; ar_csrf := IssueCSRF sess |}) r2 s3.
Proof.
  intros Hf Ho Hu Hp He. unfold handleLoginSubmit. rewrite Hf. cbv zeta.
  destruct (defaultOrgID_reliable s org Ho) as (s1 & E1 & Hd1). rewrite handled_eq, E1, handled_eq, GetUserByEmail_query.
  destruct (row_query_reliable db_users (user_with_email (o_id (or_org org)) (str (fst (credentials r)))) (fun u => u) s1) as (s2 & E2 & Hd2).
  unfold credentials in *. cbn [fst snd] in *. rewrite E2, Hd1. cbn [db_users on_orgs]. rewrite Hu, Hp. cbn [negb]. exists s2. split.
  { unfold bind, now_. fold (session_of u (clock (st_tick s2))). rewrite He. unfold ret. by rewrite Hd2, Hd1. }
  intros r2 s3 u2 m Hc Ht Hu2 Hm Hcsrf. set (sess := session_of u (clock (st_tick s2))) in *.
  destruct (resolveCookie_session r2 s3 _ sess u2 m (He _) Hc Ht Hu2 Hm) as (s4 & E & Hd). exists s4. split; [done|].
  unfold requireAuth, resolve, bind. rewrite E. cbn [ret ar_by_cookie ar_session].
  assert (Hok : isUnsafeMethod (q_method r2) && negb (validCSRF r2 sess) = false).
  { destruct Hcsrf as [-> | Hcsrf]; [done|]. unfold validCSRF, csrf_sent. rewrite Hcsrf. pose proof (CheckCSRF_IssueCSRF sess) as Hk. pose proof (IssueCSRF_nonempty sess) as Hn.
    destruct (bstr (IssueCSRF sess)) eqn:Eb; [by destruct (IssueCSRF sess)|]. rewrite Hk. apply andb_false_r. }
  simpl. by rewrite Hok.
Qed.
End Gate.

(** ** A concrete kit *)

(** A string of bits and back. *)
Fixpoint bits (p : positive) : string := match p with xH => "" | xO q => String "0" (bits q) | xI q => String "1" (bits q) end.
Fixpoint unbits (s : string) : positive := match s with "" => xH | String c r => if Ascii.eqb c "1" then xI (unbits r) else xO (unbits r) end%string.
Lemma unbits_bits p : unbits (bits p) = p.
Proof. induction p as [p IH|p IH|]; simpl; by rewrite ?IH. Qed.

(** Cookies that name their session in the clear, and hashes that are the
    text itself: nothing that protects, but with the laws. *)
Definition clear_text (s : Session) : string := String "s" (bits (encode (ss_user s, ss_org s, ss_expiry s))).
Definition clear_session (v : string) (now : Time) : option Session :=
  match v with
  | EmptyString => None
  | String _ b =>
      match (decode (unbits b) : option (Z * Z * Z)) with
      | Some (u, o, e) => if now <? e then Some {| ss_user := u; ss_org := o; ss_expiry := e |} else None
      | None => None
      end
  end.
Definition clear_kit : KitAuth :=
  {| Encode s := Some (clear_text s); Decode := clear_session; IssueCSRF s := clear_text s; CheckCSRF s tok := bool_decide (tok = bstr (clear_text s));
     HashToken := str; VerifyPassword hash pw := String.eqb hash (str pw); DefaultSessionTTL := 168 * Hour |}.
Lemma clear_kit_laws : @KitAuthLaws clear_kit.
Proof.
  split.
  - intros s v now [= <-] Hn. simpl. rewrite unbits_bits, decode_encode. rewrite (proj2 (Z.ltb_lt _ _) Hn). by destruct s.
  - by intros s v [= <-].
  - intros s. by apply bool_decide_eq_true.
  - done.
  - by vm_compute.
Defined.

(** ** Examples *)

(** One org with a user, a membership and a token. *)
Definition one_user : list Op :=
  [OpBootstrapDefaultOrg;
   OpCreateUser {| u_id := 0; u_org := 1; u_email := "ada@example.org"; u_password_hash := "lovelace"; u_created_at := zero_time |};
   OpCreateMembership {| m_id := 0; m_org := 1; m_user := 1; m_role := "owner"; m_created_at := zero_time |};
   OpCreateToken {| tk_id := 0; tk_org := 1; tk_name := "ci"; tk_hash := "tend_abc"; tk_created_at := zero_time |}].
Definition with_user : St DB := @run_ops (steady Hour) plain_text one_user start.

Definition plain_request (method : string) (path : string) : Request :=
  {| q_method := method; q_path := bstr path; q_escaped := bstr path; q_query := ∅; q_cookie := None; q_authorization := []; q_csrf_header := [];
     q_form := ∅; q_form_error := false; q_id := [] |}.
Definition login_as (email pw : string) : Request :=
  {| q_method := "POST"; q_path := bstr "/login"; q_escaped := bstr "/login"; q_query := ∅; q_cookie := None; q_authorization := []; q_csrf_header := [];
     q_form := {["email" := [bstr email]; "password" := [bstr pw]]}%string; q_form_error := false; q_id := [] |}.
Definition with_bearer (r : Request) (authorization : string) : Request :=
  {| q_method := q_method r; q_path := q_path r; q_escaped := q_escaped r; q_query := q_query r; q_cookie := q_cookie r;
     q_authorization := bstr authorization; q_csrf_header := q_csrf_header r; q_form := q_form r; q_form_error := q_form_error r; q_id := q_id r |}.
Definition with_cookie (r : Request) (cookie : string) : Request :=
  {| q_method := q_method r; q_path := q_path r; q_escaped := q_escaped r; q_query := q_query r; q_cookie := Some cookie;
     q_authorization := q_authorization r; q_csrf_header := q_csrf_header r; q_form := q_form r; q_form_error := q_form_error r; q_id := q_id r |}.

Definition no_run_fields : PayloadJSON := {| text_fields _ := {| rf_job_name := ""; rf_status := []; rf_exit_code := 0 |}; payload_json _ := []; json_member _ _ := [] |}.
Definition no_details : DetailJSON := {| json_valid _ := false; detail_json _ := [] |}.
Definition all_clean : @Outside :=
  {| out_clean _ := true; out_ping _ := ret web_NotFound; out_static _ := ret web_NotFound; out_redirect _ := web_NotFound; out_over_budget _ := None |}.

Definition asking_jobs : Request := with_bearer (plain_request "GET" "/api/jobs") "bearer  tend_abc ".
Abbreviation serving := (@serve (steady Hour) plain_text no_run_fields no_details clear_kit true all_clean).

Example stranger_turned_away : map (fun r => fst (serving r with_user))
    [plain_request "GET" "/api/jobs"; with_bearer (plain_request "GET" "/api/jobs") "Bearer guess"; plain_request "POST" "/jobs/1/run"; plain_request "GET" "/healthz"]
  = [Ok (rejectUnauthenticated asking_jobs); Ok (rejectUnauthenticated asking_jobs); Ok (Redirect [] (bstr "/login"));
     Ok {| w_code := 200; w_headers := []; w_cookies := []; w_body := BText (bstr "ok") |}].
Proof. vm_compute. reflexivity. Qed.

Lemma serve_closed_witness : front true asking_jobs = FGated /\ fst (serving asking_jobs with_user) = Ok (writeJSON StatusOK (JArr [])) /\
  let '(x, s') := serving asking_jobs with_user in
  (st_db s' = st_db with_user /\ (x = Ok (rejectUnauthenticated asking_jobs) \/ x = Ok forbidden)) \/
  exists ar s1, @proves (steady Hour) clear_kit with_user asking_jobs ar /\ @csrf_ok clear_kit asking_jobs ar /\ st_db s1 = st_db with_user /\
    @authed (steady Hour) plain_text no_run_fields no_details true (Some ar) asking_jobs s1 = (x, s').
Proof.
  split; [vm_compute; reflexivity|]. split; [vm_compute; reflexivity|].
  apply (@serve_closed (steady Hour) plain_text no_run_fields no_details clear_kit true all_clean asking_jobs with_user). vm_compute. reflexivity.
Defined.

Lemma login_reveals_nothing_witness :
  fst (@handleLoginSubmit (steady Hour) clear_kit true (login_as "ada@example.org" "byron") with_user) = Ok (renderLogin genericLoginError StatusUnauthorized) /\
  fst (@handleLoginSubmit (steady Hour) clear_kit true (login_as "nobody@example.org" "byron") with_user) = Ok (renderLogin genericLoginError StatusUnauthorized).
Proof.
  split.
  - rewrite (@login_reveals_nothing (steady Hour) clear_kit true (login_as "ada@example.org" "byron") with_user); [vm_compute; reflexivity|].
    intros u Hu _. vm_compute in Hu. apply list_elem_of_singleton in Hu as ->. vm_compute. reflexivity.
  - rewrite (@login_reveals_nothing (steady Hour) clear_kit true (login_as "nobody@example.org" "byron") with_user); [vm_compute; reflexivity|].
    intros u Hu _. vm_compute in Hu. apply list_elem_of_singleton in Hu as ->. vm_compute. reflexivity.
Defined.

Definition ada : User := {| u_id := 1; u_org := 1; u_email := "ada@example.org"; u_password_hash := "lovelace"; u_created_at := Hour + 6 * Second |}.
Definition ada_until (t : Time) : string := clear_text {| ss_user := 1; ss_org := 1; ss_expiry := t + 168 * Hour |}.
Definition logging_out (cookie : string) : Request :=
  {| q_method := "POST"; q_path := bstr "/logout"; q_escaped := bstr "/logout"; q_query := ∅; q_cookie := Some cookie; q_authorization := [];
     q_csrf_header := bstr cookie; q_form := ∅; q_form_error := false; q_id := [] |}.

(** Ada signs in, and later out: the mutation passes with her cookie and token. *)
Lemma login_session_witness : exists s' cookie,
  fst (@handleLoginSubmit (steady Hour) clear_kit true (login_as "ada@example.org" "lovelace") with_user) = Ok (Redirect [sessionCookie true cookie 604800] (bstr "/")) /\
  exists s3, st_db s3 = st_db with_user /\
    @requireAuth (steady Hour) clear_kit (handleLogout true) (logging_out cookie) s' = (Ok (Redirect [sessionCookie true "" (-1)] (bstr "/login")), s3).
Proof.
  destruct (@login_session (steady Hour) clear_kit (steady_reliable Hour) clear_kit_laws true (login_as "ada@example.org" "lovelace") with_user
    {| or_org := {| o_id := 1; o_name := "default"; o_created_at := Hour + Second |}; or_ping_key := None |} ada ada_until (handleLogout true)) as (s' & E & Hs);
    [reflexivity|vm_compute; reflexivity|vm_compute; reflexivity|vm_compute; reflexivity|reflexivity|].
  exists with_user, (ada_until (@clock (steady Hour) (st_tick s'))). split; [rewrite E; reflexivity|].
  edestruct (Hs (logging_out (ada_until (@clock (steady Hour) (st_tick s')))) with_user ada) as (s3 & Hd & Er).
  - reflexivity.
  - unfold clock, steady. change (Z.of_nat (st_tick with_user)) with 14. change (@DefaultSessionTTL clear_kit) with (168 * Hour). unfold Hour, Minute, Second. lia.
  - vm_compute. reflexivity.
  - vm_compute. reflexivity.
  - right. reflexivity.
  - exists s3. split; [exact Hd|]. rewrite Er. reflexivity.
Defined.
