(* ===== verification/Isolation.v ===== *)
(** * What the authenticated surface keeps apart

    An authenticated request reads and writes the rows of one org. Stated as
    non-interference: a handler run on the database restricted to the caller's
    org, its secrets blanked, answers the same and leaves the restriction of
    what it would have left. *)
From S2P Require Import Prelude GoTime Domain Heartbeat Failure GoStrings JobSpec Probe Redact Sql Schema StoreEvents StoreRuns StoreHeartbeats StoreDeliveries StoreConfig StoreInv History PingApi PingHandler Chat Dto Views Auth Api Dashboard Web Gate.
From stdpp Require Import sorting.
Open Scope Z_scope.

(** ** Computations on a view of the database *)

Definition res_map {A B} (f : A -> B) (r : res A) : res B := match r with Ok a => Ok (f a) | Error e => Error e end.

Section Views.
Context {DB : Type} `{World} (v : DB -> DB).

Definition viewed (s : St DB) : St DB := mkSt (v (st_db s)) (st_tick s).

(** [m'] is to the view what [m] is to the database; it answers with the
    image by [f] of what [m] answers. *)
Definition sees {A B} (f : A -> B) (m : M DB A) (m' : M DB B) : Prop :=
  forall s, m' (viewed s) = (res_map f (fst (m s)), viewed (snd (m s))).

Lemma sees_ret {A B} (f : A -> B) a b : b = f a -> sees f (ret a) (ret b).
Proof. intros ->. by intros s. Qed.
Lemma sees_throw {A B} (f : A -> B) e : sees f (throw e) (throw e).
Proof. by intros s. Qed.
Lemma sees_now : sees id now_ now_.
Proof. by intros s. Qed.
Lemma sees_query {A B} (f : A -> B) g g' : (forall d, g' (v d) = f (g d)) -> sees f (query g) (query g').
Proof. intros Hg s. unfold query, viewed. simpl. by rewrite Hg. Qed.
Lemma sees_exec g g' : (forall d, g' (v d) = v (g d)) -> sees id (exec g) (exec g').
Proof. intros Hg s. unfold exec, viewed. simpl. by rewrite Hg. Qed.
Lemma sees_bind {A B A' B'} (f : A -> A') (g : B -> B') m m' k k' :
  sees f m m' -> (forall a, sees g (k a) (k' (f a))) -> sees g (bind m k) (bind m' k').
Proof.
  intros Hm Hk s. unfold bind. rewrite (Hm s). destruct (m s) as [[a|e] s1]; simpl; [by rewrite (Hk a)|done].
Qed.
Lemma sees_try {A B} (f : A -> B) m m' : sees f m m' -> sees (res_map f) (try m) (try m').
Proof. intros Hm s. unfold try. rewrite (Hm s). by destruct (m s). Qed.

Definition outcome_map {A B} (f : A -> B) (o : Outcome A) : Outcome B := match o with Commit a => Commit (f a) | Rollback a => Rollback (f a) end.
Lemma sees_tx {A B} (f : A -> B) m m' : sees (outcome_map f) m m' -> sees f (tx m) (tx m').
Proof.
  intros Hm s. unfold tx. cbn [viewed st_db st_tick]. specialize (Hm (mkSt (st_db s) (S (st_tick s)))).
  unfold viewed in Hm. cbn [st_db st_tick] in Hm.
  destruct (fault (st_tick s)); [|done|]; rewrite Hm; (destruct (m _) as [[[a|a]|e] s1]; [|done|done]); simpl; by destruct (fault (st_tick s1)).
Qed.
Lemma sees_autocommit {A B} (f : A -> B) m m' : sees f m m' -> sees f (autocommit m) (autocommit m').
Proof. intros Hm. apply sees_tx. eapply sees_bind; [exact Hm|]. intros a. by apply sees_ret. Qed.
Lemma sees_if {A B} (f : A -> B) (b : bool) m m' k k' : sees f m m' -> sees f k k' -> sees f (if b then m else k) (if b then m' else k').
Proof. by destruct b. Qed.
Lemma sees_weaken {A B} (f g : A -> B) m m' : (forall a, f a = g a) -> sees f m m' -> sees g m m'.
Proof. intros E Hm s. rewrite (Hm s). destruct (m s) as [[a|e] s1]; simpl; by rewrite ?E. Qed.

End Views.

(** ** A table restricted and blanked *)

Section Restriction.
Context {R : Type} (keep : R -> bool) (hide : R -> R).
Implicit Types (t : Table R) (p : R -> bool).
Definition restricted t : Table R := mkTable (map hide (List.filter keep (rows t))) (next_id t).

(** [p] asks for rows that are kept, and does not look at what is hidden. *)
Definition about_kept p : Prop := forall r, p (hide r) = p r /\ (p r = true -> keep r = true).

Lemma select_restricted p t : about_kept p -> select p (restricted t) = map hide (select p t).
Proof.
  intros Hp. unfold select, restricted. cbn [rows]. induction (rows t) as [|r l IH]; [done|]. destruct (Hp r) as [Hh Hk]. cbn [List.filter].
  destruct (keep r) eqn:Ek; cbn [map List.filter]; rewrite ?Hh.
  - destruct (p r); cbn [map]; by rewrite IH.
  - destruct (p r); [by specialize (Hk eq_refl)|done].
Qed.
Lemma select1_restricted p t : about_kept p -> select1 p (restricted t) = hide <$> select1 p t.
Proof.
  intros Hp. unfold select1, restricted. cbn [rows]. induction (rows t) as [|r l IH]; [done|]. destruct (Hp r) as [Hh Hk]. cbn [List.filter List.find].
  destruct (keep r) eqn:Ek; cbn [map List.find]; rewrite ?Hh; (destruct (p r); [try done; by specialize (Hk eq_refl)|exact IH]).
Qed.
Lemma select_desc_restricted p n t : about_kept p -> select_desc p n (restricted t) = map hide (select_desc p n t).
Proof. intros Hp. unfold select_desc. rewrite (select_restricted p t Hp), <- map_rev. apply firstn_map. Qed.
Lemma exists_restricted p t : about_kept p -> exists_row p (restricted t) = exists_row p t.
Proof.
  intros Hp. unfold exists_row, restricted. cbn [rows]. induction (rows t) as [|r l IH]; [done|]. destruct (Hp r) as [Hh Hk]. cbn [List.filter existsb].
  destruct (keep r) eqn:Ek; cbn [map existsb]; rewrite ?Hh, IH; [done|]. destruct (p r); [by specialize (Hk eq_refl)|done].
Qed.
Lemma count_restricted p t : about_kept p -> count_where p (restricted t) = count_where p t.
Proof. intros Hp. unfold count_where. by rewrite (select_restricted p t Hp), length_map. Qed.

Lemma update_restricted p f f' t : about_kept p -> (forall r, p r = true -> keep (f r) = true /\ f' (hide r) = hide (f r)) ->
  update_where p f' (restricted t) = restricted (update_where p f t).
Proof.
  intros Hp Hf. unfold update_where, restricted. cbn [rows next_id]. f_equal.
  induction (rows t) as [|r l IH]; [done|]. destruct (Hp r) as [Hh Hk]. cbn [List.filter map].
  destruct (p r) eqn:Ep.
  - destruct (Hf r Ep) as [Hkf Ef]. rewrite (Hk eq_refl), Hkf. cbn [map]. by rewrite Hh, Ef, IH.
  - destruct (keep r); cbn [map]; [by rewrite Hh, IH|done].
Qed.
Lemma insert_restricted mk mk' t : (forall i, keep (mk i) = true /\ mk' i = hide (mk i)) -> insert_row mk' (restricted t) = restricted (insert_row mk t).
Proof.
  intros Hm. unfold insert_row, restricted. cbn [rows next_id]. destruct (Hm (next_id t)) as [Hk Hh].
  rewrite List.filter_app, map_app, Hh; cbn [List.filter]; by rewrite Hk.
Qed.
End Restriction.

(** ** What an org sees of the database *)

Definition hide_env (c : Col (gmap string string)) : Col (gmap string string) := match c with Garbled => Garbled | _ => Null end.
Definition hide_job_row (r : JobRow) : JobRow :=
  {| jr_id := jr_id r; jr_org := jr_org r; jr_name := jr_name r; jr_type := jr_type r; jr_command := jr_command r;
     jr_http_url := jr_http_url r; jr_http_method := jr_http_method r; jr_http_body := ""; jr_cron := jr_cron r;
     jr_interval_seconds := jr_interval_seconds r; jr_run_at := jr_run_at r; jr_timeout_seconds := jr_timeout_seconds r;
     jr_max_retries := jr_max_retries r; jr_enabled := jr_enabled r; jr_env := hide_env (jr_env r); jr_spec := jr_spec r;
     jr_next_run := jr_next_run r; jr_created_at := jr_created_at r; jr_updated_at := jr_updated_at r;
     jr_failed_runs := jr_failed_runs r; jr_failing_since := jr_failing_since r |}.
Definition hide_job (j : Job) : Job :=
  {| j_id := j_id j; j_org := j_org j; j_name := j_name j; j_type := j_type j; j_command := j_command j; j_http_url := j_http_url j;
     j_http_method := j_http_method j; j_http_body := ""; j_cron := j_cron j; j_interval_seconds := j_interval_seconds j;
     j_run_at := j_run_at j; j_timeout_seconds := j_timeout_seconds j; j_max_retries := j_max_retries j; j_enabled := j_enabled j; j_env := ∅;
     j_spec := j_spec j; j_next_run_at := j_next_run_at j; j_created_at := j_created_at j; j_updated_at := j_updated_at j |}.
Definition hide_hb_row (r : HbRow) : HbRow :=
  {| hr_id := hr_id r; hr_org := hr_org r; hr_name := hr_name r; hr_last_seen_at := hr_last_seen_at r; hr_created_at := hr_created_at r;
     hr_token := None; hr_period_seconds := hr_period_seconds r; hr_grace_seconds := hr_grace_seconds r; hr_status := hr_status r;
     hr_started_at := hr_started_at r; hr_started_rid := hr_started_rid r |}.
Definition hide_hb (h : Heartbeat) : Heartbeat :=
  {| hb_id := hb_id h; hb_org := hb_org h; hb_name := hb_name h; hb_token := ""; hb_last_seen_at := hb_last_seen_at h;
     hb_period_seconds := hb_period_seconds h; hb_grace_seconds := hb_grace_seconds h; hb_status := hb_status h; hb_created_at := hb_created_at h;
     hb_started_at := hb_started_at h; hb_started_rid := hb_started_rid h |}.
Definition hide_channel (r : ChannelRow) : ChannelRow := {| cr_channel := cr_channel r; cr_config := None |}.
Definition hide_secret (r : SecretRow) : SecretRow :=
  {| se_id := se_id r; se_org := se_org r; se_name := se_name r; se_ciphertext := ""; se_created_at := se_created_at r; se_updated_at := se_updated_at r |}.

(** The rows of the org, without the environments and request bodies of its
    jobs, the tokens of its heartbeats, the configurations of its channels and
    the values of its secrets. Of identities, tokens and deliveries nothing is
    left. *)
Definition org_view (org : Z) (d : DB) : DB :=
  {| db_orgs := empty_table; db_users := empty_table; db_memberships := empty_table; db_tokens := empty_table;
     db_jobs := restricted (fun r => jr_org r =? org) hide_job_row (db_jobs d);
     db_runs := restricted (fun r => rr_org r =? org) id (db_runs d);
     db_secrets := restricted (fun r => se_org r =? org) hide_secret (db_secrets d);
     db_heartbeats := restricted (fun r => hr_org r =? org) hide_hb_row (db_heartbeats d);
     db_pings := restricted (fun r => p_org (pr_ping r) =? org) id (db_pings d);
     db_events := restricted (fun e => ev_org e =? org) id (db_events d);
     db_channels := restricted (fun r => ch_org (cr_channel r) =? org) hide_channel (db_channels d);
     db_rules := restricted (fun r => rw_org r =? org) id (db_rules d);
     db_deliveries := empty_table; db_alerts := ∅ |}.

Lemma scanJob_hidden r : scanJob (hide_job_row r) = res_map hide_job (scanJob r).
Proof.
  unfold scanJob, hide_job_row. cbn [jr_run_at jr_created_at jr_updated_at jr_env jr_spec].
  destruct (decodeTime (jr_run_at r)), (decodeTime (jr_created_at r)), (decodeTime (jr_updated_at r)); try done.
  by destruct (jr_env r), (decodeSpec (jr_spec r)).
Qed.
Lemma scanJobs_hidden rs : scanJobs (map hide_job_row rs) = (map hide_job (fst (scanJobs rs)), snd (scanJobs rs)).
Proof.
  induction rs as [|r rs IH]; [done|]. cbn [map scanJobs]. rewrite IH, scanJob_hidden. destruct (scanJobs rs) as [out bad]. by destruct (scanJob r).
Qed.
Lemma job_row_hidden id j created updated n since : job_row id (hide_job j) created updated n since = hide_job_row (job_row id j created updated n since).
Proof. unfold job_row, hide_job_row. cbn. unfold encodeEnv. rewrite bool_decide_true by done. by case_bool_decide. Qed.

(** Sorting by what is not hidden. *)
Section Sorting.
Context {A : Type} (R : relation A) `{forall a b, Decision (R a b)} (f : A -> A).
Hypothesis Rf : forall a b, R (f a) (f b) <-> R a b.
Lemma list_merge_map l1 l2 : list_merge R (map f l1) (map f l2) = map f (list_merge R l1 l2).
Proof.
  revert l2. induction l1 as [|x l1 IH1]; intros l2; [by destruct l2|]. induction l2 as [|y l2 IH2]; [done|].
  cbn [map list_merge]. unfold decide_rel. destruct (decide (R (f x) (f y))) as [Hr|Hr]; rewrite Rf in Hr; destruct (decide (R x y)); try done; cbn [map]; f_equal.
  - apply (IH1 (y :: l2)).
  - exact IH2.
Qed.
Lemma merge_list_to_stack_map st l : merge_list_to_stack R (map (option_map (map f)) st) (map f l) = map (option_map (map f)) (merge_list_to_stack R st l).
Proof. revert l. induction st as [|[l'|] st IH]; intros l; simpl; [done| |done]. by rewrite list_merge_map, IH. Qed.
Lemma merge_stack_map st : merge_stack R (map (option_map (map f)) st) = map f (merge_stack R st).
Proof. induction st as [|[l|] st IH]; simpl; [done| |exact IH]. by rewrite IH, list_merge_map. Qed.
Lemma merge_sort_map l : merge_sort R (map f l) = map f (merge_sort R l).
Proof.
  unfold merge_sort. change (@nil (option (list A))) with (map (option_map (map f)) (@nil (option (list A)))) at 1. generalize (@nil (option (list A))).
  induction l as [|x l IH]; intros st; simpl; [apply merge_stack_map|]. rewrite <- IH. f_equal. apply (merge_list_to_stack_map st [x]).
Qed.
End Sorting.

Section Store.
Context `{World} `{JSONText}.
Variable org : Z.
Abbreviation view := (org_view org).

#[local] Ltac kept := let r := fresh "r" in intros r; split; [reflexivity|]; let Hp := fresh "Hp" in intros Hp; cbv beta in *; bsimpl; by apply Z.eqb_eq.
#[local] Ltac reading := apply sees_autocommit; apply sees_query; let d := fresh "d" in intros d; cbn [org_view db_jobs db_runs db_heartbeats db_pings db_events db_channels db_rules db_secrets].

Lemma kept_org {R} (f : R -> Z) h : (forall r, f (h r) = f r) -> about_kept (fun r => f r =? org) h (fun r => f r =? org).
Proof. intros E r. by rewrite E. Qed.

Lemma kept_job id : about_kept (fun r => jr_org r =? org) hide_job_row (is_job org id).
Proof. unfold is_job. kept. Qed.

Lemma GetJob_sees id : sees view hide_job (GetJob org id) (GetJob org id).
Proof.
  unfold GetJob. eapply (sees_bind _ (fmap hide_job_row)).
  - reading. apply select1_restricted, kept_job.
  - intros [r|]; simpl; [|apply sees_throw]. rewrite scanJob_hidden. destruct (scanJob r); simpl; [by apply sees_ret|apply sees_throw].
Qed.
Lemma ListJobs_sees : sees view (fun '(js, bad) => (map hide_job js, bad)) (ListJobs org) (ListJobs org).
Proof.
  unfold ListJobs. reading. rewrite select_restricted by (by apply (kept_org jr_org)). rewrite scanJobs_hidden. by destruct (scanJobs _).
Qed.
Lemma UpdateJob_sees j : j_org j = org -> sees view id (UpdateJob j) (UpdateJob (hide_job j)).
Proof.
  intros Ho. unfold UpdateJob. cbn [hide_job j_spec j_org j_id j_name]. rewrite Ho. destruct (encodeSpec (j_spec j)); [|apply sees_throw].
  apply sees_autocommit. eapply sees_bind; [apply sees_now|]. intros now. eapply (sees_bind _ id).
  - apply sees_query. intros d. cbn [org_view db_jobs]. rewrite !exists_restricted; [done| |apply kept_job]. unfold job_named. kept.
  - intros taken. unfold id. apply sees_if; [apply sees_throw|]. eapply (sees_bind _ id).
    + apply sees_query. intros d. cbn [org_view db_jobs]. apply count_restricted, kept_job.
    + intros n. unfold id. eapply sees_bind; [|intros u; apply sees_if; [apply sees_throw|by apply sees_ret]].
      apply sees_exec. intros d. unfold on_jobs, org_view. cbn [db_orgs db_users db_memberships db_tokens db_jobs db_runs db_secrets db_heartbeats db_pings db_events db_channels db_rules db_deliveries db_alerts].
      f_equal. apply update_restricted; [apply kept_job|]. intros r _. cbn. rewrite Ho. split; [apply Z.eqb_refl|]. apply job_row_hidden.
Qed.
Lemma EnqueueRun_sees id : sees view (fun i => i) (EnqueueRun org id) (EnqueueRun org id).
Proof.
  unfold EnqueueRun. apply sees_autocommit. eapply sees_bind; [apply sees_now|]. intros now. eapply (sees_bind _ (fun i => i)); [by apply sees_query|].
  intros i. eapply sees_bind; [|intros u; by apply sees_ret]. apply sees_exec. intros d. unfold on_runs, org_view.
  cbn [db_orgs db_users db_memberships db_tokens db_jobs db_runs db_secrets db_heartbeats db_pings db_events db_channels db_rules db_deliveries db_alerts].
  f_equal. apply insert_restricted. intros k. cbn. by rewrite Z.eqb_refl.
Qed.
Lemma GetRun_sees id : sees view (fun r => r) (GetRun org id) (GetRun org id).
Proof.
  unfold GetRun. eapply (sees_bind _ (fun r => r)).
  - reading. rewrite select1_restricted by (unfold is_run; kept). by destruct (select1 _ _).
  - intros [r|]; [by apply sees_ret|apply sees_throw].
Qed.
Lemma ListRuns_sees job limit : sees view (fun l => l) (ListRuns org job limit) (ListRuns org job limit).
Proof. unfold ListRuns. reading. rewrite select_desc_restricted by kept. by rewrite map_id. Qed.
Lemma GetHeartbeat_sees id : sees view hide_hb (GetHeartbeat org id) (GetHeartbeat org id).
Proof.
  unfold GetHeartbeat, get_hb. eapply (sees_bind _ (fmap hide_hb_row)).
  - reading. apply select1_restricted. unfold is_hb. kept.
  - intros [r|]; [by apply sees_ret|apply sees_throw].
Qed.
Lemma ListHeartbeats_sees : sees view (map hide_hb) (ListHeartbeats org) (ListHeartbeats org).
Proof. unfold ListHeartbeats. reading. rewrite select_restricted by (by apply (kept_org hr_org)). by rewrite !map_map. Qed.
Lemma ListHeartbeatPings_sees id limit : sees view (fun l => l) (ListHeartbeatPings org id limit) (ListHeartbeatPings org id limit).
Proof. unfold ListHeartbeatPings. reading. rewrite select_desc_restricted by (unfold of_heartbeat; kept). by rewrite map_id. Qed.
Lemma ListHeartbeatEvents_sees name limit : sees view (fun l => l) (ListHeartbeatEvents org name limit) (ListHeartbeatEvents org name limit).
Proof. unfold ListHeartbeatEvents. reading. rewrite select_desc_restricted by (unfold heartbeat_event; kept). apply map_id. Qed.
Lemma ListEvents_sees limit : sees view (fun l => l) (ListEvents org limit) (ListEvents org limit).
Proof. unfold ListEvents. reading. rewrite select_desc_restricted by (by apply (kept_org ev_org)). apply map_id. Qed.
Lemma ListChannels_sees : sees view (fun l => l) (ListChannels org) (ListChannels org).
Proof. unfold ListChannels. reading. rewrite select_restricted by (by apply (kept_org (fun r => ch_org (cr_channel r)))). by rewrite map_map. Qed.
Lemma ListRules_sees : sees view (fun l => l) (ListRules org) (ListRules org).
Proof. unfold ListRules. reading. rewrite select_restricted by (by apply (kept_org rw_org)). by rewrite map_id. Qed.
Lemma ListSecrets_sees : sees view (fun l => l) (ListSecrets org) (ListSecrets org).
Proof.
  unfold ListSecrets. reading. rewrite select_restricted by (by apply (kept_org se_org)).
  rewrite merge_sort_map by (by intros a b). by rewrite map_map.
Qed.
End Store.

(** ** The handlers *)

Section Handlers.
Context `{World} `{JSONText} `{PayloadJSON} `{DetailJSON}.

(** A handler answers from its caller's view, and changes it the same way. *)
Definition isolated (h : WebHandler) : Prop :=
  forall ar r, sees (org_view (pr_org (ar_principal ar))) (fun x => x) (h (Some ar) r) (h (Some ar) r).

Section Rules.
Variable org : Z.
Abbreviation view := (org_view org).

Lemma sees_handled {A A' B B'} (f : A -> A') (g : B -> B') m m' fail fail' k k' :
  sees view f m m' -> (forall e, sees view g (fail e) (fail' e)) -> (forall a, sees view g (k a) (k' (f a))) -> sees view g (handled m fail k) (handled m' fail' k').
Proof. intros Hm Hf Hk. unfold handled. eapply sees_bind; [apply sees_try, Hm|]. by intros [a|e]. Qed.
Lemma sees_same {A} (m : Store A) a : m = ret a -> sees view (fun x => x) m m.
Proof. intros ->. by apply sees_ret. Qed.
Lemma sees_missing e : sees view (fun x => x) (missing_or_failed e) (missing_or_failed e).
Proof. unfold missing_or_failed, store_failed. destruct (is_not_found e); by apply sees_ret. Qed.
Lemma sees_failed e : sees view (fun x => x) (store_failed e) (store_failed e).
Proof. by apply sees_ret. Qed.
Lemma sees_actionError e : sees view (fun x => x) (actionError e) (actionError e).
Proof. unfold actionError, page_failed. destruct (is_not_found e); by apply sees_ret. Qed.

Lemma enqueueJobRun_sees id : sees view (fun x => x) (enqueueJobRun org id) (enqueueJobRun org id).
Proof. unfold enqueueJobRun. eapply sees_bind; [apply GetJob_sees|]. intros _. apply EnqueueRun_sees. Qed.
Lemma GetJob_org id s : match fst (GetJob org id s) with Ok j => j_org j = org | Error _ => True end.
Proof.
  unfold GetJob, bind. pose proof (autocommit_query (fun d => select1 (is_job org id) (db_jobs d)) s) as Hq.
  destruct (autocommit _ s) as [[r|e] s']; [|done]. destruct Hq as (_ & _ & [[= ->]|[e [=]]]).
  destruct (select1 _ _) as [r|] eqn:E; cbn [scan_one_job]; [|done]. apply select1_Some in E as [_ Hp]. unfold is_job in Hp. bsimpl.
  destruct (scanJob r) as [j|] eqn:Ej; [|done]. apply scanJob_fields in Ej. simpl. intuition congruence.
Qed.
Lemma setJobEnabledCore_sees id b : sees view hide_job (setJobEnabledCore org id b) (setJobEnabledCore org id b).
Proof.
  intros s. unfold setJobEnabledCore, bind at 1 3 5. rewrite (GetJob_sees org id s). pose proof (GetJob_org id s) as Ho.
  destruct (GetJob org id s) as [[j|e] s1]; [|done]. simpl in *.
  pose proof (UpdateJob_sees org (with_enabled j b) Ho) as Hu. change (with_enabled (hide_job j) b) with (hide_job (with_enabled j b)).
  refine (sees_bind _ _ _ _ _ _ _ Hu _ s1). intros u. by apply sees_ret.
Qed.

Lemma jobRowFor_sees ctx j : sees view (fun x => x) (jobRowFor ctx org j) (jobRowFor ctx org (hide_job j)).
Proof.
  unfold jobRowFor. eapply sees_bind; [apply sees_now|]. intros now. eapply (sees_bind _ (fun x => x)).
  - unfold latestRunOf. eapply sees_handled; [apply ListRuns_sees|intros e; by apply sees_ret|intros l; by apply sees_ret].
  - intros last. by apply sees_ret.
Qed.
Lemma jobRowsFor_sees ctx js : sees view (fun x => x) (jobRowsFor ctx org js) (jobRowsFor ctx org (map hide_job js)).
Proof.
  induction js as [|j js IH]; simpl; [by apply sees_ret|]. eapply sees_bind; [apply jobRowFor_sees|]. intros row.
  eapply sees_bind; [exact IH|]. intros rows. by apply sees_ret.
Qed.
Lemma renderJobRow_sees ctx id : sees view (fun x => x) (renderJobRow ctx org id) (renderJobRow ctx org id).
Proof.
  unfold renderJobRow. eapply sees_handled; [apply GetJob_sees|apply sees_actionError|]. intros j.
  eapply sees_bind; [apply jobRowFor_sees|]. intros row. by apply sees_ret.
Qed.
End Rules.

Create HintDb sees.
#[local] Hint Resolve sees_missing sees_failed sees_actionError GetJob_sees ListJobs_sees GetRun_sees ListRuns_sees GetHeartbeat_sees ListHeartbeats_sees ListHeartbeatPings_sees
  ListHeartbeatEvents_sees ListEvents_sees ListChannels_sees ListRules_sees ListSecrets_sees enqueueJobRun_sees setJobEnabledCore_sees jobRowFor_sees jobRowsFor_sees renderJobRow_sees : sees.

(** A handler is its opening, the store calls it makes and what it answers. *)
#[local] Ltac seen :=
  repeat first
    [ solve [eauto 2 with sees]
    | match goal with
      | |- sees _ _ (handled _ _ _) _ => eapply sees_handled; [solve [eauto 2 with sees]| |]; intros ?
      | |- sees _ _ (bind _ _) _ => eapply sees_bind; [solve [eauto 2 with sees]|]; intros ?
      | |- sees _ _ (match ?x with _ => _ end) _ => destruct x
      | |- sees _ _ (let '_ := ?x in _) _ => destruct x
      end
    | apply sees_ret; rewrite ?map_map; reflexivity ].
#[local] Tactic Notation "handler" reference(h) := intros ar r; unfold h, as_principal, with_id, signed_in, with_dash_id, page_failed, PrincipalFrom; cbn [fmap option_fmap option_map]; seen.

Lemma api_isolated : Forall (fun x => isolated (snd x)) api_routes.
Proof.
  unfold api_routes.
  repeat (apply List.Forall_cons; [cbn [snd]|]); try apply List.Forall_nil.
  - handler handleListJobs.
  - handler handleGetJob.
  - handler handleListJobRuns.
  - handler handleGetRun.
  - handler handleListChannels.
  - handler handleListRules.
  - handler handleListHeartbeats.
  - handler handleGetHeartbeat.
  - handler handleHeartbeatHistory.
  - handler handleHeartbeatPings.
  - handler handleHeartbeatsNotCreatable.
  - handler handleListEvents.
  - handler handleListSecrets.
  - handler handleRunJobNow.
  - unfold handleEnableJob. handler apiSetJobEnabled.
  - unfold handleDisableJob. handler apiSetJobEnabled.
Qed.

Lemma dashboard_isolated : Forall (fun x => isolated (snd x)) dashboard_routes.
Proof.
  unfold dashboard_routes.
  repeat (apply List.Forall_cons; [cbn [snd]|]); try apply List.Forall_nil.
  - unfold handleJobsPage. handler buildJobsPage.
  - unfold handleJobsPartial. handler buildJobsPage.
  - handler handleJobDetailPage.
  - handler handleRunDetailPage.
  - handler handleHeartbeatsPage.
  - handler handleHeartbeatDetailPage.
  - handler handleEventsPage.
  - handler handleActionRunNow.
  - unfold handleActionEnable. handler actionSetEnabled.
  - unfold handleActionDisable. handler actionSetEnabled.
Qed.

Lemma authed_routes_isolated secure : Forall (fun x => isolated (snd x)) (authed_routes secure).
Proof.
  unfold authed_routes. apply List.Forall_cons; [|apply List.Forall_app; split; [apply api_isolated|apply dashboard_isolated]].
  intros ar r. by apply sees_ret.
Qed.

Lemma serve_routes_isolated all routes : Forall (fun x => isolated (snd x)) routes -> isolated (serve_routes all routes).
Proof.
  induction 1 as [|[[m pat] h] rest Hh _ IH]; intros ar r; cbn [serve_routes]; [by apply sees_ret|].
  destruct (if method_matches m (q_method r) then _ else _); [apply Hh|apply IH].
Qed.

(** C11: Whatever an authenticated request asks, of whatever route, method and
    id and under any faults, the reply, and what the caller's view of the
    database is afterwards, are functions of that view before: the rows of the
    caller's org without their secrets, and the id counters, which the orgs
    share. That the other orgs' rows stay as they are is [authed_effects]. *)
Theorem authed_noninterference secure ar r s1 s2 :
  let org := pr_org (ar_principal ar) in
  org_view org (st_db s1) = org_view org (st_db s2) -> st_tick s1 = st_tick s2 ->
  let '(reply1, s1') := authed secure (Some ar) r s1 in
  let '(reply2, s2') := authed secure (Some ar) r s2 in
  reply1 = reply2 /\ org_view org (st_db s1') = org_view org (st_db s2') /\ st_tick s1' = st_tick s2'.
Proof.
  intros org Hd Ht. pose proof (serve_routes_isolated (authed_routes secure) _ (authed_routes_isolated secure) ar r) as Hs.
  pose proof (Hs s1) as E1. pose proof (Hs s2) as E2. unfold authed. assert (Hv : viewed (org_view org) s1 = viewed (org_view org) s2) by (unfold viewed; congruence).
  fold org in E1, E2. rewrite Hv in E1. rewrite E1 in E2.
  destruct (serve_routes _ _ _ _ s1) as [x1 s1'], (serve_routes _ _ _ _ s2) as [x2 s2']. cbn [fst snd] in E2.
  pose proof (f_equal fst E2) as Ex. pose proof (f_equal (fun p => st_db (snd p)) E2) as Ed. pose proof (f_equal (fun p => st_tick (snd p)) E2) as Et.
  cbn [fst snd viewed st_db st_tick] in *. split; [|by split]. destruct x1, x2; simpl in Ex; congruence.
Qed.
End Handlers.

(** ** Example *)

(** A job and a secret of org 1, next to a secret of org 2. *)
Definition watch_job (password : string) : Job :=
  {| j_id := 0; j_org := 1; j_name := "backup"; j_type := Shell; j_command := "backup.sh"; j_http_url := ""; j_http_method := ""; j_http_body := ""; j_cron := "";
     j_interval_seconds := 60; j_run_at := zero_time; j_timeout_seconds := 0; j_max_retries := 0; j_enabled := true; j_env := {["PASSWORD" := password]}%string;
     j_spec := None; j_next_run_at := 2 * Hour; j_created_at := zero_time; j_updated_at := zero_time |}.
Definition two_orgs (password token foreign : string) : St DB :=
  @run_ops (steady Hour) plain_text [OpCreateJob (watch_job password); OpPutSecret 1 "token" token; OpPutSecret 2 foreign "x"] start.
Definition ada_signed_in : authResult :=
  {| ar_principal := {| pr_org := 1; pr_user := 1; pr_role := "owner" |}; ar_session := no_session; ar_by_cookie := true; ar_csrf := "" |}.
Abbreviation gated := (@authed (steady Hour) plain_text no_run_fields no_details true (Some ada_signed_in)).

Example secrets_listed : fst (gated (plain_request "GET" "/api/secrets") (two_orgs "p" "t" "f")) =
  Ok (writeJSON StatusOK (JArr [JObj [("name", JStr (bstr "token")); ("created_at", JTime (Hour + 4 * Second))]%string])).
Proof. vm_compute. reflexivity. Qed.

(** The passwords, the token's value and the other org's names are different;
    what is listed is the same. *)
Lemma authed_noninterference_witness :
  fst (gated (plain_request "GET" "/api/secrets") (two_orgs "hunter2" "aaa" "theirs")) = fst (gated (plain_request "GET" "/api/secrets") (two_orgs "swordfish" "bbb" "others")) /\
  fst (gated (plain_request "GET" "/api/jobs/1") (two_orgs "hunter2" "aaa" "theirs")) = fst (gated (plain_request "GET" "/api/jobs/1") (two_orgs "swordfish" "bbb" "others")).
Proof.
  assert (Hv : org_view 1 (st_db (two_orgs "hunter2" "aaa" "theirs")) = org_view 1 (st_db (two_orgs "swordfish" "bbb" "others"))) by (vm_compute; reflexivity).
  pose proof (@authed_noninterference (steady Hour) plain_text no_run_fields no_details true ada_signed_in (plain_request "GET" "/api/secrets")
    (two_orgs "hunter2" "aaa" "theirs") (two_orgs "swordfish" "bbb" "others") Hv eq_refl) as H1.
  pose proof (@authed_noninterference (steady Hour) plain_text no_run_fields no_details true ada_signed_in (plain_request "GET" "/api/jobs/1")
    (two_orgs "hunter2" "aaa" "theirs") (two_orgs "swordfish" "bbb" "others") Hv eq_refl) as H2.
  split; [destruct (gated (plain_request "GET" "/api/secrets") (two_orgs "hunter2" "aaa" "theirs")), (gated (plain_request "GET" "/api/secrets") (two_orgs "swordfish" "bbb" "others"))
         |destruct (gated (plain_request "GET" "/api/jobs/1") (two_orgs "hunter2" "aaa" "theirs")), (gated (plain_request "GET" "/api/jobs/1") (two_orgs "swordfish" "bbb" "others"))].
  - exact (proj1 H1).
  - exact (proj1 H2).
Defined.
