(* ===== verification/Effects.v ===== *)
(** * What an authenticated request changes

    Of the routes behind the gate only three actions write: running a job now,
    and enabling or disabling it. Each is either not done or done exactly, to
    a job of the caller's org, whatever the faults. *)
From S2P Require Import Prelude GoTime Domain Heartbeat Failure GoStrings JobSpec Probe Redact Sql Schema StoreEvents StoreRuns StoreHeartbeats StoreDeliveries StoreConfig StoreInv History Runner PingApi PingHandler Chat Dto Views Auth Api Dashboard Web Gate.
Open Scope Z_scope.

(** The run that [EnqueueRun] inserts. *)
Definition pending_run (org job : Z) (now : Time) (id : Z) : RunRow :=
  {| rr_id := id; rr_org := org; rr_job := job; rr_status := StatusPending; rr_attempt := 1; rr_exit_code := 0; rr_output := [];
     rr_claimed_by := None; rr_started_at := None; rr_ended_at := None; rr_created_at := now |}.

(** The two changes: a run of a job that was read is queued, or that job is
    written back as it was read with its flag set. *)
Inductive acted (org : Z) (d : DB) : DB -> Prop :=
| acted_run r j now : select1 (is_job org (jr_id r)) (db_jobs d) = Some r -> scanJob r = Ok j ->
    acted org d (on_runs (insert_row (pending_run org (jr_id r) now)) d)
| acted_toggle r j b now : select1 (is_job org (jr_id r)) (db_jobs d) = Some r -> scanJob r = Ok j ->
    acted org d (on_jobs (update_where (is_job org (jr_id r))
      (fun x => job_row (jr_id x) (with_enabled j b) (jr_created_at x) now (jr_failed_runs x) (jr_failing_since x))) d).
Definition at_most_acted (org : Z) (d d' : DB) : Prop := d' = d \/ acted org d d'.

(** What is not the org's stays: the other tables, and the other orgs' jobs and runs. *)
Definition foreign_kept (org : Z) (d d' : DB) : Prop :=
  List.filter (fun r => negb (jr_org r =? org)) (rows (db_jobs d')) = List.filter (fun r => negb (jr_org r =? org)) (rows (db_jobs d)) /\
  List.filter (fun r => negb (rr_org r =? org)) (rows (db_runs d')) = List.filter (fun r => negb (rr_org r =? org)) (rows (db_runs d)) /\
  d' = on_jobs (fun _ => db_jobs d') (on_runs (fun _ => db_runs d') d).

Lemma filter_update_other {R} (key : R -> Z) (org : Z) p (f : R -> R) (l : list R) : (forall r, p r = true -> key r = org /\ key (f r) = org) ->
  List.filter (fun r => negb (key r =? org)) (map (fun r => if p r then f r else r) l) = List.filter (fun r => negb (key r =? org)) l.
Proof.
  intros Hp. induction l as [|r l IH]; [done|]. cbn [map List.filter]. destruct (p r) eqn:E; [|by rewrite IH].
  destruct (Hp r E) as [H1 H2]. by rewrite H1, H2, Z.eqb_refl.
Qed.

Lemma on_runs_kept org f d : (forall t, List.filter (fun r => negb (rr_org r =? org)) (rows (f t)) = List.filter (fun r => negb (rr_org r =? org)) (rows t)) ->
  foreign_kept org d (on_runs f d).
Proof. intros Hf. unfold foreign_kept. simpl. split; [done|]. split; [apply Hf|done]. Qed.

Lemma acted_foreign org d d' : acted org d d' -> foreign_kept org d d'.
Proof.
  intros [r j now Hr Hj|r j b now Hr Hj].
  - apply on_runs_kept. intros t. unfold insert_row. cbn [rows]. rewrite List.filter_app. simpl. by rewrite Z.eqb_refl, app_nil_r.
  - unfold foreign_kept. simpl. split; [|done]. apply select1_Some in Hr as [_ Hr]. unfold is_job in *. bsimpl. apply filter_update_other.
    intros x Hx. bsimpl. split; [done|]. cbn. apply scanJob_fields in Hj. intuition congruence.
Qed.

Section Effects.
Context `{World} `{JSONText} `{PayloadJSON} `{DetailJSON}.

(** ** Reads *)

#[local] Hint Unfold Reflexive : core.
Lemma quiet_handled {A B} (R : DB -> DB -> Prop) `{!Transitive R} (m : Store A) fail (k : A -> Store B) :
  evolves R m -> (forall e, evolves R (fail e)) -> (forall a, evolves R (k a)) -> evolves R (handled m fail k).
Proof. intros Hm Hf Hk. unfold handled. apply evolves_bind; [done|by apply evolves_try|]. by intros [a|e]. Qed.

Lemma GetJob_quiet org id : evolves eq (GetJob org id).
Proof. unfold GetJob, scan_one_job, autocommit. evolve. Qed.
Lemma ListJobs_quiet org : evolves eq (ListJobs org).
Proof. unfold ListJobs, autocommit. evolve. Qed.
Lemma GetRun_quiet org id : evolves eq (GetRun org id).
Proof. unfold GetRun, autocommit. evolve. Qed.
Lemma ListRuns_quiet org job limit : evolves eq (ListRuns org job limit).
Proof. unfold ListRuns, autocommit. evolve. Qed.
Lemma GetHeartbeat_quiet org id : evolves eq (GetHeartbeat org id).
Proof. unfold GetHeartbeat, get_hb, autocommit. evolve. Qed.
Lemma ListHeartbeats_quiet org : evolves eq (ListHeartbeats org).
Proof. unfold ListHeartbeats, autocommit. evolve. Qed.
Lemma ListHeartbeatPings_quiet org id limit : evolves eq (ListHeartbeatPings org id limit).
Proof. unfold ListHeartbeatPings, autocommit. evolve. Qed.
Lemma ListHeartbeatEvents_quiet org name limit : evolves eq (ListHeartbeatEvents org name limit).
Proof. unfold ListHeartbeatEvents, autocommit. evolve. Qed.
Lemma ListEvents_quiet org limit : evolves eq (ListEvents org limit).
Proof. unfold ListEvents, autocommit. evolve. Qed.
Lemma ListChannels_quiet org : evolves eq (ListChannels org).
Proof. unfold ListChannels, autocommit. evolve. Qed.
Lemma ListRules_quiet org : evolves eq (ListRules org).
Proof. unfold ListRules, autocommit. evolve. Qed.
Lemma ListSecrets_quiet org : evolves eq (ListSecrets org).
Proof. unfold ListSecrets, autocommit. evolve. Qed.
Lemma jobRowFor_quiet ctx org j : evolves eq (jobRowFor ctx org j).
Proof. unfold jobRowFor, latestRunOf, handled, ListRuns, autocommit. evolve. Qed.
Lemma jobRowsFor_quiet ctx org js : evolves eq (jobRowsFor ctx org js).
Proof. induction js as [|j js IH]; simpl; [by intros s|]. apply evolves_bind; [typeclasses eauto|apply jobRowFor_quiet|]. intros row. evolve. Qed.
Lemma renderJobRow_quiet ctx org id : evolves eq (renderJobRow ctx org id).
Proof.
  unfold renderJobRow. apply quiet_handled; [typeclasses eauto|apply GetJob_quiet|intros e; unfold actionError, page_failed; evolve|].
  intros j. apply evolves_bind; [typeclasses eauto|apply jobRowFor_quiet|]. intros row. by intros s.
Qed.
#[local] Hint Resolve GetJob_quiet ListJobs_quiet GetRun_quiet ListRuns_quiet GetHeartbeat_quiet ListHeartbeats_quiet ListHeartbeatPings_quiet
  ListHeartbeatEvents_quiet ListEvents_quiet ListChannels_quiet ListRules_quiet ListSecrets_quiet jobRowFor_quiet jobRowsFor_quiet renderJobRow_quiet : evolves.

(** ** Actions *)

(** What a successful read of a job says of the database. *)
Lemma GetJob_reads org id s : let '(x, s1) := GetJob org id s in
  st_db s1 = st_db s /\ forall j, x = Ok j -> exists r, jr_id r = id /\ select1 (is_job org (jr_id r)) (db_jobs (st_db s)) = Some r /\ scanJob r = Ok j.
Proof.
  unfold GetJob, bind. pose proof (autocommit_query (fun d => select1 (is_job org id) (db_jobs d)) s) as Hq.
  destruct (autocommit _ s) as [[r|e] s1]; destruct Hq as (Hd & _ & Hr); [|done]. destruct Hr as [[= ->]|[e [=]]].
  destruct (select1 _ _) as [r|] eqn:E; simpl; [|done]. pose proof (proj2 (select1_Some _ _ _ E)) as Hp. unfold is_job in Hp. bsimpl.
  destruct (scanJob r) as [j|] eqn:Ej; [|done]. split; [done|]. intros j' [= <-]. exists r. by subst.
Qed.

Lemma enqueueJobRun_acts org id : evolves (at_most_acted org) (enqueueJobRun org id).
Proof.
  intros s. unfold enqueueJobRun, bind. pose proof (GetJob_reads org id s) as Hg. destruct (GetJob org id s) as [[j|e] s1]; destruct Hg as [Hd Hg]; [|by left].
  destruct (Hg j eq_refl) as (r & <- & Hr & Hj). unfold EnqueueRun, autocommit.
  match goal with |- context [tx ?b s1] => pose proof (tx_outcome b s1) as Hc; destruct (tx b s1) as [x s'] end. cbv zeta in Hc.
  destruct Hc as [[E _]|(o & s2 & E & Ed & _)]; [left; simpl; congruence|right]. injection E as <- <-. simpl in Ed |- *. rewrite Ed, Hd. by eapply acted_run.
Qed.

Lemma setJobEnabledCore_acts org id b : evolves (at_most_acted org) (setJobEnabledCore org id b).
Proof.
  intros s. unfold setJobEnabledCore, bind at 1. pose proof (GetJob_reads org id s) as Hg. destruct (GetJob org id s) as [[j|e] s1]; destruct Hg as [Hd Hg]; [|by left].
  destruct (Hg j eq_refl) as (r & <- & Hr & Hj). pose proof (scanJob_fields _ _ Hj) as (Hi & Ho & _).
  assert (Horg : jr_org r = org) by (apply select1_Some in Hr as [_ Hp]; unfold is_job in Hp; by bsimpl).
  unfold bind. unfold UpdateJob. cbn [with_enabled j_spec j_org j_id j_name]. rewrite Hi, Ho, Horg.
  destruct (encodeSpec (j_spec j)); [|by left]. unfold autocommit.
  match goal with |- context [tx ?b s1] => pose proof (tx_outcome b s1) as Hc; destruct (tx b s1) as [[u|x] s'] end; cbv zeta in Hc; cbn [snd];
    unfold bind, now_, query, exec, throw in Hc; cbn [st_db st_tick] in Hc; rewrite Hd in Hc;
    (destruct Hc as [[E _]|(o & s2 & E & Ed & _)]; [by left|]);
    (destruct (_ && _); [discriminate E|]; destruct (_ =? 0); [discriminate E|]; injection E as <- <-; right; cbn [ret snd]; rewrite Ed; by eapply acted_toggle).
Qed.

(** ** The handlers *)

Definition quiet (h : WebHandler) : Prop := forall ar r, evolves eq (h (Some ar) r).
Definition acts (h : WebHandler) : Prop := forall ar r, evolves (at_most_acted (pr_org (ar_principal ar))) (h (Some ar) r).

Lemma acts_handled {A B} org (m : Store A) fail (k : A -> Store B) :
  evolves (at_most_acted org) m -> (forall e, evolves eq (fail e)) -> (forall a, evolves eq (k a)) -> evolves (at_most_acted org) (handled m fail k).
Proof.
  intros Hm Hf Hk s. unfold handled, bind, try. specialize (Hm s). destruct (m s) as [[a|e] s1].
  - by rewrite <- (Hk a s1).
  - by rewrite <- (Hf e s1).
Qed.
Lemma missing_quiet e : evolves eq (missing_or_failed e).
Proof. unfold missing_or_failed, store_failed. evolve. Qed.
Lemma actionError_quiet e : evolves eq (actionError e).
Proof. unfold actionError, page_failed. evolve. Qed.
#[local] Hint Resolve missing_quiet actionError_quiet enqueueJobRun_acts setJobEnabledCore_acts : evolves.

#[local] Ltac opened := intros ar r; unfold as_principal, with_id, signed_in, with_dash_id, PrincipalFrom, store_failed, page_failed, ok_json, render_page; cbn [fmap option_fmap option_map].
#[local] Tactic Notation "reads" reference(h) := unfold h; opened;
  repeat first
    [ solve [eauto 2 with evolves]
    | apply quiet_handled; [typeclasses eauto| |intros ?|intros ?]
    | apply evolves_bind; [typeclasses eauto| |intros ?]
    | apply evolves_ret; typeclasses eauto
    | match goal with
      | |- evolves _ (match ?x with _ => _ end) => destruct x
      | |- evolves _ (let '_ := ?x in _) => destruct x
      end ].
#[local] Tactic Notation "writes" reference(h) := unfold h; opened;
  (match goal with |- evolves _ (match ?x with _ => _ end) => destruct x end; [|intros s; by left]);
  apply acts_handled; [solve [eauto 2 with evolves]|intros ?|intros ?];
  repeat first [solve [eauto 2 with evolves] | apply evolves_bind; [typeclasses eauto| |intros ?] | apply evolves_ret; typeclasses eauto].

(** Only the POST routes of the three actions write. *)
Definition route_safe (x : string * list Seg * WebHandler) : Prop := quiet (snd x) \/ fst (fst x) = "POST"%string /\ acts (snd x).

Lemma api_safe : Forall route_safe api_routes.
Proof.
  unfold api_routes. repeat (apply List.Forall_cons; [unfold route_safe; cbn [fst snd]|]); try apply List.Forall_nil.
  - left. reads handleListJobs.
  - left. reads handleGetJob.
  - left. reads handleListJobRuns.
  - left. reads handleGetRun.
  - left. reads handleListChannels.
  - left. reads handleListRules.
  - left. reads handleListHeartbeats.
  - left. reads handleGetHeartbeat.
  - left. reads handleHeartbeatHistory.
  - left. reads handleHeartbeatPings.
  - left. reads handleHeartbeatsNotCreatable.
  - left. reads handleListEvents.
  - left. reads handleListSecrets.
  - right. split; [done|]. writes handleRunJobNow.
  - right. split; [done|]. unfold handleEnableJob. writes apiSetJobEnabled.
  - right. split; [done|]. unfold handleDisableJob. writes apiSetJobEnabled.
Qed.

Lemma dashboard_safe : Forall route_safe dashboard_routes.
Proof.
  unfold dashboard_routes. repeat (apply List.Forall_cons; [unfold route_safe; cbn [fst snd]|]); try apply List.Forall_nil.
  - left. unfold handleJobsPage. reads buildJobsPage.
  - left. unfold handleJobsPartial. reads buildJobsPage.
  - left. reads handleJobDetailPage.
  - left. reads handleRunDetailPage.
  - left. reads handleHeartbeatsPage.
  - left. reads handleHeartbeatDetailPage.
  - left. reads handleEventsPage.
  - right. split; [done|]. writes handleActionRunNow.
  - right. split; [done|]. unfold handleActionEnable. writes actionSetEnabled.
  - right. split; [done|]. unfold handleActionDisable. writes actionSetEnabled.
Qed.

Lemma authed_safe secure : Forall route_safe (authed_routes secure).
Proof.
  unfold authed_routes. apply List.Forall_cons; [left; intros ar r; by intros s|]. apply List.Forall_app. split; [apply api_safe|apply dashboard_safe].
Qed.

Lemma serve_routes_acts all routes ar r s : Forall route_safe routes ->
  let d' := st_db (snd (serve_routes all routes (Some ar) r s)) in
  d' = st_db s \/ q_method r = "POST"%string /\ acted (pr_org (ar_principal ar)) (st_db s) d'.
Proof.
  induction 1 as [|[[m pat] h] rest Hh _ IH]; cbv zeta in *; cbn [serve_routes]; [by left|].
  destruct (method_matches m (q_method r)) eqn:Em; [|exact IH]. destruct (match_segments pat _) as [id|]; [|exact IH].
  destruct Hh as [Hq|[Hm Ha]]; cbn [fst snd] in *; [left; symmetry; apply Hq|].
  destruct (Ha ar (with_path_id r id) s) as [E|E]; [by left|right]. split; [|exact E].
  subst m. unfold method_matches in Em. change (String.eqb "POST" "GET") with false in Em. rewrite andb_false_l, orb_false_r in Em. bsimpl. done.
Qed.

(** C12: Whatever the request and the faults, a request behind the gate changes
    nothing, or it is a POST that did one of the two actions exactly once to a
    job of the caller's org: queued one pending run of it, or wrote it back
    with its flag set. The rows of other orgs, and all other tables, stay. *)
Theorem authed_effects secure ar r s :
  let org := pr_org (ar_principal ar) in
  let d' := st_db (snd (authed secure (Some ar) r s)) in
  (d' = st_db s \/ q_method r = "POST"%string /\ acted org (st_db s) d') /\ foreign_kept org (st_db s) d'.
Proof.
  intros org d'. pose proof (serve_routes_acts (authed_routes secure) _ ar r s (authed_safe secure)) as Ha. fold org in Ha. cbv zeta in Ha. unfold d', authed.
  split; [exact Ha|]. destruct Ha as [->|[_ Ha]]; [|by apply acted_foreign]. unfold foreign_kept. by destruct (st_db s).
Qed.
End Effects.

(** ** Actions among other transactions

    An action reads its job in one transaction and writes it back in another;
    so does the scheduler's tick. What either wrote in between is lost. *)
Definition due_job : Job :=
  {| j_id := 1; j_org := 1; j_name := "backup"; j_type := Shell; j_command := "true"; j_http_url := ""; j_http_method := ""; j_http_body := ""; j_cron := "";
     j_interval_seconds := 3600; j_run_at := zero_time; j_timeout_seconds := 10; j_max_retries := 0; j_enabled := true; j_env := ∅; j_spec := None;
     j_next_run_at := Hour; j_created_at := zero_time; j_updated_at := zero_time |}.
Definition one_job : St DB := @run_ops (steady Hour) plain_text [OpCreateJob due_job] start.
Definition ticked (now : Time) (s : St DB) : St DB := snd (@Tick (steady Hour) plain_text (fun _ _ => None) (fun _ => []) now s).
Definition runs_done (s : St DB) : St DB :=
  @run_ops (steady Hour) plain_text [OpClaimRun "runner"; OpFinishRun (next_id (db_runs (st_db s)) - 1) StatusSucceeded 0 []] s.
Definition enabled_with (enabled : bool) (read s : St DB) : St DB :=
  match fst (@GetJob (steady Hour) 1 1 read) with
  | Ok j => snd (@UpdateJob (steady Hour) (with_enabled j enabled) s)
  | Error _ => s
  end.
Definition scheduled (s : St DB) : nat * list (option Time * bool) :=
  (List.length (rows (db_runs (st_db s))), map (fun r => (jr_next_run r, jr_enabled r)) (rows (db_jobs (st_db s)))).

(** An enable that reads before a tick and writes after it sets the schedule
    back: the hourly job runs again a second later. *)
Example enable_undoes_tick :
  scheduled (ticked (2 * Hour + Second) (runs_done (ticked (2 * Hour) one_job))) = (1%nat, [(Some (3 * Hour), true)]) /\
  scheduled (ticked (2 * Hour + Second) (enabled_with true one_job (runs_done (ticked (2 * Hour) one_job)))) = (2%nat, [(Some (3 * Hour + Second), true)]).
Proof. split; vm_compute; reflexivity. Qed.

(** A tick that reads before a disable and writes after it enables the job again. *)
Example tick_undoes_disable :
  let disabled := snd (@setJobEnabledCore (steady Hour) 1 1 false one_job) in
  let late := match fst (@DueJobs (steady Hour) (2 * Hour) one_job) with
              | Ok (due, _) => snd (collect (@tick_job (steady Hour) (fun _ _ => None) (2 * Hour)) due disabled)
              | Error _ => disabled
              end in
  scheduled disabled = (0%nat, [(Some Hour, false)]) /\ scheduled late = (1%nat, [(Some (3 * Hour), true)]).
Proof. split; vm_compute; reflexivity. Qed.
