(* ===== verification/PingExec.v ===== *)
(** * The ping wrapper of a command ([internal/pingexec/pingexec.go])

    [tend exec]: a start ping, the command, a completion ping with its exit
    status and the tail of its output. What a ping request and the command do
    is an environment that answers; the retries, the budget, the kept tail and
    what is reported are the definitions. *)
From S2P Require Import Prelude GoTime Tail Utf8 Domain Heartbeat Failure Redact Capture GoStrings PingApi.
Open Scope Z_scope.

(** ** The kept tail *)

Record tailBuffer := { tb_buf : bytes; tb_max : Z }.
Definition newTailBuffer (n : Z) : tailBuffer := {| tb_buf := []; tb_max := n |}.

(** [tailBuffer.Write]. *)
Definition tb_write (t : tailBuffer) (p : bytes) : tailBuffer :=
  let n := Z.of_nat (List.length p) in
  if tb_max t <=? 0 then t
  else if tb_max t <=? n then {| tb_buf := drop (Z.to_nat (n - tb_max t)) p; tb_max := tb_max t |}
  else
    let b := tb_buf t ++ p in
    let over := Z.of_nat (List.length b) - tb_max t in
    {| tb_buf := if 0 <? over then drop (Z.to_nat over) b else b; tb_max := tb_max t |}.

(** [tailBuffer.Bytes]: at most [utf8.UTFMax] bytes of a cut character are dropped. *)
Fixpoint skip_conts (n : nat) (b : bytes) : bytes :=
  match n, b with
  | S n', c :: r => if RuneStart c then b else skip_conts n' r
  | _, _ => b
  end.
Definition tb_Bytes (t : tailBuffer) : bytes := skip_conts UTFMax (tb_buf t).

(** ** One ping *)

(** The defaults, and the backoff. *)
Definition DefaultBodyLimit : Z := 10000.
Definition DefaultTimeout : Duration := 5 * Second.
Definition DefaultRetries : Z := 5.
Definition DefaultStartBudget : Duration := 5 * Second.
Definition DefaultFinishBudget : Duration := 20 * Second.
Definition firstBackoff : Duration := Second.
Definition maxBackoff : Duration := 30 * Second.
Definition maxRetryAfter : Duration := Minute.

(** [url.Parse] of a ping URL: its scheme, its host and whether its query has a rid. *)
Class PingURLs := parse_ping_url : string -> option (string * string * bool).

(** [CheckPingURL]. *)
Definition CheckPingURL `{PingURLs} (u : string) : bool :=
  match parse_ping_url u with
  | Some (scheme, host, rid) => (String.eqb scheme "http" || String.eqb scheme "https") && negb (String.eqb host "") && negb rid
  | None => false
  end.

(** [pingexec.Config], less its streams. *)
Record Config := {
  xc_url : string; xc_start : bool; xc_body_limit : Z; xc_timeout : Duration; xc_start_budget : Duration; xc_finish_budget : Duration; xc_retries : Z;
}.

(** [newPinger]: the settings that apply. *)
Definition start_budget (c : Config) : Duration := if xc_start_budget c <=? 0 then DefaultStartBudget else xc_start_budget c.
Definition finish_budget (c : Config) : Duration := if xc_finish_budget c <=? 0 then DefaultFinishBudget else xc_finish_budget c.
Definition body_limit (c : Config) : Z := if xc_body_limit c =? 0 then DefaultBodyLimit else if xc_body_limit c <? 0 then 0 else xc_body_limit c.
Definition attempt_timeout (c : Config) : Duration := if xc_timeout c <=? 0 then DefaultTimeout else xc_timeout c.
Definition retries (c : Config) : Z := if xc_retries c =? 0 then DefaultRetries else if xc_retries c <? 0 then 0 else xc_retries c.

(** What one request comes to: a status with the [Retry-After] and
    [Ping-Body-Limit] headers, or an error. *)
Inductive Answer := Response (status : Z) (retryAfter limit : bytes) | NoResponse (err : bytes).

(** The environment of a ping: the answer to request [i], sent at a moment
    and ended by a deadline, and when it came; when a wait ends; whether the
    caller's context had ended after request [i]. *)
Record Net := { nt_attempt : nat -> Time -> Time -> Answer * Time; nt_sleep : Time -> Duration -> Time; nt_interrupted : nat -> bool }.

Definition answered_ok (a : Answer) : bool := match a with Response s _ _ => (200 <=? s) && (s <? 300) | NoResponse _ => false end.
Definition retryable (a : Answer) : bool := match a with Response s _ _ => (500 <=? s) || (s =? 429) | NoResponse _ => true end.
(** What [attempt] reads from the two headers. *)
Definition retry_after (a : Answer) : Duration :=
  match a with Response _ h _ => match Atoi h with Some s => if 0 <? s then wrap64 (s * Second) else 0 | None => 0 end | NoResponse _ => 0 end.
Definition answer_limit (a : Answer) : Z :=
  match a with Response _ _ h => match Atoi h with Some n => if 0 <? n then n else 0 | None => 0 end | NoResponse _ => 0 end.
Definition reason_of (a : Answer) : bytes := match a with Response s _ _ => bstr "HTTP " ++ Itoa s | NoResponse e => e end.

(** The warnings of [send]. *)
Inductive Warning := BadURL | Abandoned | Refused (reason : bytes) | GaveUp (reason : bytes) (attempts : nat) | OutOfBudget (reason : bytes) (attempts : nat).

(** What [send] returns and logs, how many requests it made and when it was done. *)
Record Sent := { sn_limit : Z; sn_ok : bool; sn_warning : option Warning; sn_attempts : nat; sn_end : Time }.
Definition unsent (w : Warning) (attempts : nat) (t : Time) : Sent := {| sn_limit := 0; sn_ok := false; sn_warning := Some w; sn_attempts := attempts; sn_end := t |}.

(** The loop of [send]: [left] retries are left after request [attempt], made at [t]. *)
Fixpoint send_from (net : Net) (timeout : Duration) (deadline : Time) (left attempt : nat) (backoff : Duration) (t : Time) : Sent :=
  let '(a, t1) := nt_attempt net attempt t (Z.min (TimeAdd t timeout) deadline) in
  if answered_ok a then {| sn_limit := answer_limit a; sn_ok := true; sn_warning := None; sn_attempts := S attempt; sn_end := t1 |}
  else if nt_interrupted net attempt then unsent Abandoned (S attempt) t1
  else if negb (retryable a) then unsent (Refused (reason_of a)) (S attempt) t1
  else
    let wait := if 0 <? retry_after a then Z.min (retry_after a) maxRetryAfter else backoff in
    match left with
    | O => unsent (GaveUp (reason_of a) (S attempt)) (S attempt) t1
    | S left' =>
        if (deadline <=? t1) || (TimeSub deadline t1 <=? wait) then unsent (OutOfBudget (reason_of a) (S attempt)) (S attempt) t1
        else send_from net timeout deadline left' (S attempt) (Z.min (2 * backoff) maxBackoff) (nt_sleep net t1 wait)
    end.

(** [pinger.send]. *)
Definition send `{PingURLs} (c : Config) (net : Net) (budget : Duration) (t : Time) : Sent :=
  if negb (CheckPingURL (xc_url c)) then unsent BadURL O t
  else send_from net (attempt_timeout c) (TimeAdd t budget) (Z.to_nat (retries c)) O firstBackoff t.

(** ** A run *)

(** How the command ended, and what it wrote. *)
Inductive CmdEnd :=
| CmdOK | CmdExit (code : Z) | CmdKilled (sig : Z)
| CmdNotFound (err : bytes) | CmdNotStarted (err : bytes)      (* [cmd.Start] failed *)
| CmdWaitError (err : bytes).                                  (* [cmd.Wait] failed otherwise *)

(** The environment of a run: the pings' networks, the signal caught during
    the start ping and one waiting after it, whether the context had ended,
    and the command. *)
Record RunEnv := {
  re_start : Net; re_caught : option Z; re_pending : option Z; re_ctx_done : bool; re_output : list bytes; re_end : CmdEnd; re_finish : Net;
  re_began : Time; re_ended : Time;
}.

(** [signalExitCode]. *)
Definition signalExitCode (sig : Z) : Z := 128 + sig.

(** [runCommand]: the status, and the message [notStarted] adds to the output. *)
Definition runCommand (name : bytes) (e : CmdEnd) : Z * bytes :=
  match e with
  | CmdOK => (0, [])
  | CmdExit code => (code, [])
  | CmdKilled sig => (128 + sig, [])
  | CmdNotFound err => (127, bstr "tend exec: cannot run " ++ name ++ bstr ": " ++ err ++ [nl])
  | CmdNotStarted err => (126, bstr "tend exec: cannot run " ++ name ++ bstr ": " ++ err ++ [nl])
  | CmdWaitError err => (126, bstr "tend exec: " ++ name ++ bstr ": " ++ err ++ [nl])
  end.
Definition starts (e : CmdEnd) : bool := match e with CmdNotFound _ | CmdNotStarted _ => false | _ => true end.

(** What [Run] returns and sends. *)
Record RunReport := { rn_code : Z; rn_suffix : bytes; rn_body : bytes; rn_start : option Sent; rn_sent : Sent }.

(** The action of the completion ping. *)
Definition suffix_of (code : Z) : bytes := if (code <? 0) || (255 <? code) then bstr "fail" else Itoa code.

(** What is in the tail when the run is over, with the status. *)
Definition run_outcome (env : RunEnv) (name : bytes) (early : option Z) (signal_name : Z -> bytes) : Z * list bytes :=
  match early with
  | Some sig => (signalExitCode sig, [bstr "tend exec: " ++ signal_name sig ++ bstr " before " ++ name ++ bstr " started; not running it" ++ [nl]])
  | None =>
      if re_ctx_done env then (1, [bstr "tend exec: interrupted before " ++ name ++ bstr " started; not running it" ++ [nl]])
      else
        let '(code, msg) := runCommand name (re_end env) in
        (code, (if starts (re_end env) then re_output env else []) ++ (if is_nil msg then [] else [msg]))
  end.

(** The start ping, the limit on the body after it, and the signal that came
    before the command. *)
Definition start_ping `{PingURLs} (c : Config) (env : RunEnv) : option Sent :=
  if xc_start c then Some (send c (re_start env) (start_budget c) (re_began env)) else None.
Definition run_limit (c : Config) (start : option Sent) : Z :=
  match start with
  | Some s => if sn_ok s && (0 <? sn_limit s) && (sn_limit s <? body_limit c) then sn_limit s else body_limit c
  | None => body_limit c
  end.
Definition early_signal (c : Config) (env : RunEnv) : option Z :=
  match (if xc_start c then re_caught env else None) with Some sig => Some sig | None => re_pending env end.

(** [Run]. *)
Definition Run `{PingURLs} (c : Config) (env : RunEnv) (signal_name : Z -> bytes) (name : bytes) : RunReport :=
  let start := start_ping c env in
  let limit := run_limit c start in
  let '(code, writes) := run_outcome env name (early_signal c env) signal_name in
  let tail := fold_left tb_write writes (newTailBuffer (Z.max limit 0)) in
  {| rn_code := code; rn_suffix := suffix_of code; rn_body := if 0 <? limit then tb_Bytes tail else []; rn_start := start;
     rn_sent := send c (re_finish env) (finish_budget c) (re_ended env) |}.

(** ** The run id *)

Definition hexd (n : Z) : ascii := List.nth (Z.to_nat n) (bstr "0123456789abcdef") "0"%char.
Definition hex_byte (b : Z) : bytes := [hexd (b / 16); hexd (b mod 16)].

(** [newRID], of 16 random bytes: a version 4 UUID. *)
Definition rid_bytes (b : list Z) : list Z :=
  map (fun '(i, x) => if (i =? 6)%nat then Z.lor (Z.land x 15) 64 else if (i =? 8)%nat then Z.lor (Z.land x 63) 128 else x) (imap (fun i x => (i, x)) b).
Definition newRID (b : list Z) : bytes :=
  let h := mjoin (map hex_byte (rid_bytes b)) in
  take 8 h ++ bstr "-" ++ take 4 (drop 8 h) ++ bstr "-" ++ take 4 (drop 12 h) ++ bstr "-" ++ take 4 (drop 16 h) ++ bstr "-" ++ take 12 (drop 20 h).

(** ** The tail is the end of the output *)

Definition last_n (n : Z) (s : bytes) : bytes := drop (List.length s - Z.to_nat n) s.

Lemma last_n_length n s : 0 <= n -> Z.of_nat (List.length (last_n n s)) = Z.min n (Z.of_nat (List.length s)).
Proof. intros Hn. unfold last_n. rewrite length_drop. lia. Qed.






(** ** A ping ends in time *)

(** A request ends by its deadline and a wait when it is due: what the timers
    of [net/http] and [time] promise, their own lateness aside. *)
Record prompt (net : Net) : Prop := {
  pm_attempt i t deadline : t <= deadline -> t <= snd (nt_attempt net i t deadline) <= deadline;
  pm_sleep t d : 0 <= d -> t <= nt_sleep net t d <= t + d }.

Lemma send_from_bounded net timeout deadline : prompt net -> 0 < timeout -> forall left attempt backoff t, t <= deadline -> 0 < backoff ->
  let r := send_from net timeout deadline left attempt backoff t in
  t <= sn_end r <= deadline /\ (attempt < sn_attempts r <= S attempt + left)%nat /\ (sn_ok r = true <-> sn_warning r = None).
Proof.
  intros [Ha Hs] Hto. induction left as [|left IH]; intros attempt backoff t Ht Hb; cbn [send_from]; cbv zeta;
    specialize (Ha attempt t (Z.min (TimeAdd t timeout) deadline) ltac:(unfold TimeAdd; lia)) as Ht1; destruct (nt_attempt net attempt t _) as [a t1]; cbn [snd] in Ht1;
    (destruct (answered_ok a); [by simpl; repeat split; try lia|]; destruct (nt_interrupted net attempt); [by simpl; repeat split; try lia|];
     destruct (negb (retryable a)); [by simpl; repeat split; try lia|]); [by simpl; repeat split; try lia|].
  destruct ((deadline <=? t1) || _) eqn:E; [by simpl; repeat split; try lia|]. apply orb_false_iff in E as [E1 E2]. bsimpl.
  match goal with |- context [nt_sleep net t1 ?w] => set (wait := w) in * end.
  assert (Hw : 0 < wait) by (unfold wait, maxRetryAfter, Minute, Second; destruct (Z.ltb_spec 0 (retry_after a)); lia).
  assert (Hin : wait < deadline - t1).
  { unfold TimeSub in E2. unfold min_int64, max_int64 in *. lia. }
  destruct (Hs t1 wait ltac:(lia)) as [Hs1 Hs2].
  destruct (IH (S attempt) (Z.min (2 * backoff) maxBackoff) (nt_sleep net t1 wait)) as (He & Hn & Hok); [lia|unfold maxBackoff, Second; lia|].
  split; [lia|]. split; [lia|exact Hok].
Qed.

(** ** What a run reports *)







(** C36: The pings hold a run only so long: where requests end by their
    deadline, the start ping is over within its budget and the completion ping
    within its own, after no more than one request and the retries, whatever
    the server answers or asks to wait. *)
Theorem Run_in_budget `{PingURLs} c env signal_name name :
  prompt (re_start env) -> prompt (re_finish env) ->
  let r := Run c env signal_name name in
  (forall s, rn_start r = Some s -> re_began env <= sn_end s <= re_began env + start_budget c /\ Z.of_nat (sn_attempts s) <= 1 + retries c) /\
  re_ended env <= sn_end (rn_sent r) <= re_ended env + finish_budget c /\ Z.of_nat (sn_attempts (rn_sent r)) <= 1 + retries c.
Proof.
  intros Hs Hf r.
  assert (Hr : 0 <= retries c) by (unfold retries, DefaultRetries; destruct (Z.eqb_spec (xc_retries c) 0); [lia|]; destruct (Z.ltb_spec (xc_retries c) 0); lia).
  assert (Hto : 0 < attempt_timeout c) by (unfold attempt_timeout, DefaultTimeout, Second; destruct (Z.leb_spec (xc_timeout c) 0); lia).
  assert (Hb : 0 < start_budget c /\ 0 < finish_budget c).
  { unfold start_budget, finish_budget, DefaultStartBudget, DefaultFinishBudget, Second.
    destruct (Z.leb_spec (xc_start_budget c) 0), (Z.leb_spec (xc_finish_budget c) 0); lia. }
  assert (Hsend : forall net budget t, 0 < budget -> prompt net -> let s := send c net budget t in
    t <= sn_end s <= t + budget /\ Z.of_nat (sn_attempts s) <= 1 + retries c).
  { intros net budget t Hbu Hp s. unfold s, send. destruct (negb (CheckPingURL _)); [simpl; lia|]. unfold TimeAdd.
    destruct (send_from_bounded net (attempt_timeout c) (t + budget) Hp Hto (Z.to_nat (retries c)) O firstBackoff t) as (He & Hn & _); [lia|unfold firstBackoff, Second; lia|]. lia. }
  unfold r, Run. destruct (run_outcome _ _ _ _) as [code writes]. cbn [rn_start rn_sent]. split.
  - intros s. unfold start_ping. destruct (xc_start c); [|done]. intros [= <-]. apply Hsend; [apply Hb|done].
  - apply Hsend; [apply Hb|done].
Qed.

(** ** The run id is one the server accepts *)

Lemma hexd_hex n : is_hex (hexd n) = true /\ to_lower (hexd n) = hexd n.
Proof.
  unfold hexd. generalize (Z.to_nat n). intros k. do 16 (destruct k as [|k]; [split; reflexivity|]). destruct k; split; reflexivity.
Qed.

(** Whatever the random bytes, the id of a run is a UUID in canonical form,
    so the server takes it as it is. *)
Theorem newRID_canonical b : List.length b = 16%nat -> CanonicalUUID (newRID b) = Some (newRID b).
Proof.
  intros Hb. assert (Hr : List.length (rid_bytes b) = 16%nat) by (unfold rid_bytes; rewrite length_map, length_imap; done).
  unfold newRID. generalize dependent (rid_bytes b). intros l Hl. do 16 (destruct l as [|? l]; [done|]). destruct l; [|done].
  cbn -[hexd Z.div Z.modulo]. unfold CanonicalUUID. cbn [List.length Nat.eqb negb].
  assert (Hx : forall n, is_hex (hexd n) = true) by (intros n; apply hexd_hex). assert (Ht : forall n, to_lower (hexd n) = hexd n) by (intros n; apply hexd_hex).
  cbn -[hexd is_hex Z.div Z.modulo Ascii.eqb to_lower]. rewrite !Hx. cbn -[hexd Z.div Z.modulo to_lower]. rewrite !Ht. reflexivity.
Qed.

(** ** Examples *)

(** A server that takes a second over each of these answers, and says no more. *)
Definition slow_server (answers : list Answer) : Net :=
  {| nt_attempt i t deadline :=
       if deadline <=? t + Second then (NoResponse (bstr "deadline exceeded"), Z.max t deadline)
       else (List.nth i answers (NoResponse (bstr "connection refused")), t + Second);
     nt_sleep t d := t + d; nt_interrupted _ := false |}.
Lemma slow_server_prompt answers : prompt (slow_server answers).
Proof.
  split; [|intros t d Hd; simpl; lia]. intros i t deadline Ht. unfold slow_server. cbn [nt_attempt].
  destruct (Z.leb_spec deadline (t + Second)); cbn [snd]; unfold Second in *; lia.
Qed.
#[local] Instance any_url : PingURLs := fun _ => Some ("https", "tend.example", false)%string.
Definition a_config : Config :=
  {| xc_url := "https://tend.example/ping/1234"; xc_start := true; xc_body_limit := 12; xc_timeout := 0; xc_start_budget := 0; xc_finish_budget := 0; xc_retries := 0 |}.
(** The start is refused for a while, the completion taken at the second try. *)
Definition a_run : RunEnv :=
  {| re_start := slow_server [Response 503 (bstr "4") []]; re_caught := None; re_pending := None; re_ctx_done := false;
     re_output := [bstr "copying" ++ [nl]; bstr "disk full" ++ [nl]]; re_end := CmdExit 3; re_finish := slow_server [NoResponse (bstr "reset"); Response 200 [] (bstr "8")];
     re_began := Hour; re_ended := 2 * Hour |}.

Example a_run_report : let r := Run a_config a_run (fun _ => []) (bstr "backup.sh") in
  (rn_code r, str (rn_suffix r), str (rn_body r)) = (3, "3", "g" +:+ str [nl] +:+ "disk full" +:+ str [nl])%string /\
  (sn_warning <$> rn_start r) = Some (Some (OutOfBudget (bstr "HTTP 503") 1)) /\ sn_ok (rn_sent r) = true /\ sn_end (rn_sent r) = 2 * Hour + 3 * Second.
Proof. vm_compute. done. Qed.



(** A wait of that many seconds does not fit a [Duration]: what the server asked
    to be six centuries is three tenths of a second. *)
Example retry_after_wraps : retry_after (Response 503 (bstr "18446744074") []) = 290448384.
Proof. vm_compute. reflexivity. Qed.

Lemma Run_in_budget_witness : let r := Run a_config a_run (fun _ => []) (bstr "backup.sh") in
  2 * Hour <= sn_end (rn_sent r) <= 2 * Hour + 20 * Second /\ Z.of_nat (sn_attempts (rn_sent r)) <= 6.
Proof. exact (proj2 (Run_in_budget a_config a_run (fun _ => []) (bstr "backup.sh") (slow_server_prompt _) (slow_server_prompt _))). Defined.

Lemma newRID_canonical_witness : CanonicalUUID (newRID (map Z.of_nat (seq 200 16))) = Some (bstr "c8c9cacb-cccd-4ecf-90d1-d2d3d4d5d6d7").
Proof. rewrite newRID_canonical by reflexivity. vm_compute. reflexivity. Defined.
