(* ===== verification/HcImport.v ===== *)
(** * Importing from Healthchecks ([hcimport/hcimport.go], [cli/import.go])

    The plan that turns the checks of a Healthchecks project into heartbeats
    keeping their UUIDs as ping tokens, and the loop that carries it out. The
    time zones, the cron library and [url.Parse] are the parameters of
    [HcLibs]; the call to the API that lists the checks is in [Fetch]. *)
From S2P Require Import Prelude GoTime Tail Domain Heartbeat Failure GoStrings Sql Schema StoreHeartbeats Watch.
Open Scope Z_scope.

(** ** Checks *)

Record Check := {
  ck_name : string; ck_slug : string; ck_uuid : string; ck_ping_url : string; ck_unique_key : string;
  ck_timeout : Z; ck_grace : Z; ck_schedule : string; ck_tz : string; ck_status : string;
}.

(** [url.Parse], its path; [time.LoadLocation], whether it knows the zone;
    [cron.ParseStandard], its [Next] in a zone. *)
Class HcLibs := {
  url_path : string -> option bytes;
  zone_known : string -> bool;
  ParseStandard : string -> option (string -> Time -> Time);
}.

(** [path.Base]. *)
Definition slash (c : ascii) : bool := Ascii.eqb c "/".
Definition path_Base (p : bytes) : bytes :=
  match p with
  | [] => bstr "."
  | _ =>
      match rev (drop_while slash (rev p)) with
      | [] => bstr "/"
      | q => List.last (Split "/"%char q) []
      end
  end.

(** [firstOf]. *)
Fixpoint firstOf (ss : list string) : string :=
  match ss with
  | [] => ""
  | s :: r => if String.eqb s "" then firstOf r else s
  end.

Section Importing.
Context `{HcLibs}.

(** [Check.ID]. *)
Definition ID (c : Check) : string :=
  match CanonicalUUID (bstr (ck_uuid c)) with
  | Some u => str u
  | None =>
      match url_path (ck_ping_url c) with
      | None => ""
      | Some p => match CanonicalUUID (path_Base p) with Some u => str u | None => "" end
      end
  end.

(** ** Schedules *)

Definition sampleRuns : nat := 2000.
Definition sampleSpan : Duration := 5 * 366 * 24 * Hour.
Definition defaultPeriod : Duration := 24 * Hour.

(** The loop of [scheduleGaps]. *)
Fixpoint sample (next : Time -> Time) (last : Time) (n : nat) (prev : Time) (longest shortest : Duration) : Duration * Duration :=
  match n with
  | O => (longest, shortest)
  | S n' =>
      let t := next prev in
      if IsZero t || After t last then (longest, shortest)
      else
        let gap := TimeSub t prev in
        sample next last n' t (if longest <? gap then gap else longest) (if (shortest =? 0) || (gap <? shortest) then gap else shortest)
  end.

(** [scheduleGaps]: the longest and the shortest gap. *)
Definition scheduleGaps (expr zone : string) (from : Time) : option (Duration * Duration) :=
  match ParseStandard expr with
  | None => None
  | Some sched =>
      let prev := sched zone from in
      if IsZero prev then None
      else
        let '(longest, shortest) := sample (sched zone) (TimeAdd from sampleSpan) sampleRuns prev 0 0 in
        if 0 <? longest then Some (longest, shortest) else None
  end.

(** What the warnings say. *)
Inductive Warning :=
| UnknownZone (label tz : string) | UnreadableSchedule (label schedule : string) (grace : Z)
| CronCheck (label schedule tz : string) (longest shortest : Duration)
| PausedCheck (label : string) | SharedName (name renamed : string).

(** [mapTiming]: the period, the grace and the warnings. *)
Definition mapTiming (c : Check) (label : string) (now : Time) : Z * Z * list Warning :=
  if String.eqb (ck_schedule c) "" then (ck_timeout c, ck_grace c, [])
  else
    let tzName := if String.eqb (ck_tz c) "" then "UTC"%string else ck_tz c in
    let '(zone, ws) := if zone_known tzName then (tzName, []) else ("UTC"%string, [UnknownZone label tzName]) in
    match scheduleGaps (ck_schedule c) zone now with
    | None => (Z.quot defaultPeriod Second, ck_grace c, ws ++ [UnreadableSchedule label (ck_schedule c) (ck_grace c)])
    | Some (longest, shortest) => (Z.quot longest Second, ck_grace c, ws ++ [CronCheck label (ck_schedule c) tzName longest shortest])
    end.

(** ** The plan *)

Inductive ImportOp := OpCreate | OpUpdate | OpUnchanged | OpSkip.
#[export] Instance ImportOp_eq_dec : EqDecision ImportOp.
Proof. solve_decision. Defined.

Inductive SkipReason := NoReason | NoUUID | PausedInHealthchecks | NameTaken (name : string).

Record Action := {
  ac_check : Check; ac_op : ImportOp; ac_name : string; ac_token : string; ac_period : Z; ac_grace : Z;
  ac_was : option Heartbeat; ac_reason : SkipReason; ac_warnings : list Warning;
}.

Record Options := { op_now : Time; op_include_paused : bool }.

(** The two maps of [Plan]. *)
Definition by_token (existing : list Heartbeat) : gmap string Heartbeat := fold_left (fun m hb => <[hb_token hb := hb]> m) existing ∅.
Definition by_name (existing : list Heartbeat) : gset string := list_to_set (map hb_name existing).

(** The body of the loop of [Plan], with the [planned] it leaves. *)
Definition plan_one (opts : Options) (byToken : gmap string Heartbeat) (byName planned : gset string) (c : Check) : Action * gset string :=
  let token := ID c in
  let name := firstOf [ck_slug c; ck_name c; token] in
  let label := firstOf [ck_name c; ck_slug c; token] in
  if String.eqb token "" then
    ({| ac_check := c; ac_op := OpSkip; ac_name := name; ac_token := token; ac_period := 0; ac_grace := 0; ac_was := None; ac_reason := NoUUID; ac_warnings := [] |}, planned)
  else
    let '(period, grace, ws) := mapTiming c label (op_now opts) in
    let paused := String.eqb (ck_status c) "paused" in
    if paused && negb (op_include_paused opts) then
      ({| ac_check := c; ac_op := OpSkip; ac_name := name; ac_token := token; ac_period := period; ac_grace := grace; ac_was := None; ac_reason := PausedInHealthchecks; ac_warnings := ws |}, planned)
    else
      let ws := if paused then ws ++ [PausedCheck label] else ws in
      match byToken !! token with
      | Some hb =>
          let op := if negb (hb_period_seconds hb =? period) || negb (hb_grace_seconds hb =? grace) then OpUpdate else OpUnchanged in
          ({| ac_check := c; ac_op := op; ac_name := hb_name hb; ac_token := token; ac_period := period; ac_grace := grace; ac_was := Some hb; ac_reason := NoReason; ac_warnings := ws |},
           {[hb_name hb]} ∪ planned)
      | None =>
          let shared := bool_decide (name ∈ planned) && negb (bool_decide (name ∈ byName)) in
          let renamed := (name ++ "-" ++ substring 0 8 token)%string in
          let '(name, ws) := if shared then (renamed, ws ++ [SharedName name renamed]) else (name, ws) in
          if bool_decide (name ∈ byName) then
            ({| ac_check := c; ac_op := OpSkip; ac_name := name; ac_token := token; ac_period := period; ac_grace := grace; ac_was := None; ac_reason := NameTaken name; ac_warnings := ws |}, planned)
          else
            ({| ac_check := c; ac_op := OpCreate; ac_name := name; ac_token := token; ac_period := period; ac_grace := grace; ac_was := None; ac_reason := NoReason; ac_warnings := ws |},
             {[name]} ∪ planned)
      end.

Fixpoint plan_from (opts : Options) (byToken : gmap string Heartbeat) (byName planned : gset string) (checks : list Check) : list Action :=
  match checks with
  | [] => []
  | c :: r => let '(a, planned') := plan_one opts byToken byName planned c in a :: plan_from opts byToken byName planned' r
  end.

(** [Plan]. *)
Definition Plan (checks : list Check) (existing : list Heartbeat) (opts : Options) : list Action :=
  plan_from opts (by_token existing) (by_name existing) ∅ checks.

(** ** Carrying it out *)

Definition writes (a : Action) : bool := match ac_op a with OpCreate | OpUpdate => true | _ => false end.

(** The heartbeat written for an action. *)
Definition action_heartbeat (org : Z) (a : Action) : Heartbeat :=
  {| hb_id := 0; hb_org := org; hb_name := ac_name a; hb_token := ac_token a; hb_last_seen_at := zero_time;
     hb_period_seconds := ac_period a; hb_grace_seconds := ac_grace a; hb_status := HbNew; hb_created_at := zero_time;
     hb_started_at := zero_time; hb_started_rid := "" |}.

(** The loop over the plan: each action with the error of its write. *)
Fixpoint carry_out `{World} (org : Z) (dryRun : bool) (plan : list Action) : Store (list (Action * option Err)) :=
  match plan with
  | [] => ret []
  | a :: rest =>
      let* e := (if negb dryRun && writes a then
                   let* r := try (CreateHeartbeat (action_heartbeat org a)) in
                   ret (match r with Ok _ => None | Error e => Some e end)
                 else ret None) in
      let* l := carry_out org dryRun rest in
      ret ((a, e) :: l)
  end.

(** [cmdImportHealthchecks], from the list of checks on. *)
Definition cmdImportHealthchecks `{World} (org : Z) (opts : Options) (dryRun : bool) (checks : list Check) : Store (list (Action * option Err)) :=
  let* existing := ListHeartbeats org in
  carry_out org dryRun (Plan checks existing opts).

(** The counts of the last line, and whether the command fails. *)
Definition count (op : ImportOp) (report : list (Action * option Err)) : nat :=
  List.length (List.filter (fun '(a, e) => bool_decide (ac_op a = op) && bool_decide (e = None)) report).
Definition failed (report : list (Action * option Err)) : nat := List.length (List.filter (fun '(_, e) => negb (bool_decide (e = None))) report).

(** [checksURL], after [url.Parse]: the path of the check list. *)
Definition checks_path (path : bytes) : bytes :=
  let p := rev (drop_while slash (rev path)) in
  (if has_prefix (rev p) (rev (bstr "/api/v3")) then p else p ++ bstr "/api/v3") ++ bstr "/checks/".

End Importing.

(** ** The two maps of a plan *)

Lemma by_token_acc l (m : gmap string Heartbeat) token :
  (forall hb, fold_left (fun m hb => <[hb_token hb := hb]> m) l m !! token = Some hb -> hb ∈ l /\ hb_token hb = token \/ m !! token = Some hb) /\
  (fold_left (fun m hb => <[hb_token hb := hb]> m) l m !! token = None -> m !! token = None /\ forall hb, hb ∈ l -> hb_token hb <> token).
Proof.
  revert m. induction l as [|x l IH]; intros m; simpl; [split; [auto|]; intros E; split; [done|]; by intros hb ?%elem_of_nil|].
  destruct (IH (<[hb_token x := x]> m)) as [IH1 IH2]. split.
  - intros hb [[Hin E]|E]%IH1; [left; split; [by right|done]|]. apply lookup_insert_Some in E as [[<- <-]|[_ E]]; [left; split; [by left|done]|by right].
  - intros [E Hn]%IH2. apply lookup_insert_None in E as [E Hx]. split; [done|]. intros hb [->|Hin]%elem_of_cons; [done|by apply Hn].
Qed.

Lemma by_token_Some l token hb : by_token l !! token = Some hb -> hb ∈ l /\ hb_token hb = token.
Proof. intros [?|E]%by_token_acc; [done|]. by rewrite lookup_empty in E. Qed.
Lemma by_token_None l token hb : by_token l !! token = None -> hb ∈ l -> hb_token hb <> token.
Proof. intros [_ Hn]%by_token_acc Hin. by apply Hn. Qed.
Lemma elem_of_by_name l name : name ∈ by_name l <-> exists hb, hb ∈ l /\ hb_name hb = name.
Proof. unfold by_name. rewrite elem_of_list_to_set, list_elem_of_fmap. naive_solver. Qed.

(** ** What a plan may be, action by action *)

Section Plans.
Context `{HcLibs}.
Implicit Types (a : Action) (c : Check).

(** Why an action is the way it is, given the existing heartbeats. *)
Definition justified (byToken : gmap string Heartbeat) (byName : gset string) (a : Action) : Prop :=
  match ac_op a with
  | OpCreate => ac_token a <> "" /\ byToken !! ac_token a = None /\ ac_name a ∉ byName
  | OpUpdate | OpUnchanged => ac_token a <> "" /\ exists hb, byToken !! ac_token a = Some hb /\ ac_name a = hb_name hb /\ ac_was a = Some hb /\
      (ac_op a = OpUnchanged <-> hb_period_seconds hb = ac_period a /\ hb_grace_seconds hb = ac_grace a)
  | OpSkip => ac_reason a = NameTaken (ac_name a) -> byToken !! ac_token a = None
  end.

Lemma plan_one_justified opts bt bn planned c a planned' : plan_one opts bt bn planned c = (a, planned') ->
  justified bt bn a /\ ac_check a = c /\ ac_token a = ID c /\
  planned' = (if bool_decide (ac_op a = OpSkip) then planned else {[ac_name a]} ∪ planned).
Proof.
  unfold plan_one. destruct (String.eqb_spec (ID c) "") as [|Ht]; [by intros [= <- <-]|].
  destruct (mapTiming _ _ _) as [[period grace] ws]. destruct (_ && negb _); [by intros [= <- <-]|].
  destruct (bt !! ID c) as [hb|] eqn:Eb.
  - intros [= <- <-]. unfold justified. cbn [ac_op ac_token ac_name ac_period ac_grace ac_check ac_was].
    destruct (Z.eqb_spec (hb_period_seconds hb) period), (Z.eqb_spec (hb_grace_seconds hb) grace); simpl;
      (split; [split; [done|]; exists hb; repeat split; naive_solver|done]).
  - destruct (bool_decide (_ ∈ planned) && _); case_bool_decide; intros [= <- <-]; unfold justified; cbn [ac_op ac_token ac_name ac_check]; auto.
Qed.

Lemma plan_from_justified opts bt bn planned checks : Forall (justified bt bn) (plan_from opts bt bn planned checks).
Proof.
  revert planned. induction checks as [|c r IH]; intros planned; simpl; [constructor|].
  destruct (plan_one opts bt bn planned c) as [a planned'] eqn:E. apply plan_one_justified in E as [Hj _]. by constructor.
Qed.

Lemma plan_from_tokens opts bt bn planned checks : map ac_token (plan_from opts bt bn planned checks) = map ID checks.
Proof.
  revert planned. induction checks as [|c r IH]; intros planned; simpl; [done|].
  destruct (plan_one opts bt bn planned c) as [a planned'] eqn:E. apply plan_one_justified in E as (_ & _ & Ht & _). simpl. by rewrite IH, Ht.
Qed.

End Plans.

(** ** One write *)

Section Writes.
Context `{World}.
Implicit Types (h : Heartbeat) (d : DB).

(** The row of [h]'s name gets its settings, or there is a new row. *)
Definition upserted h d d' : Prop :=
  (exists r, r ∈ rows (db_heartbeats d) /\ hb_named (hb_org h) (hb_name h) r = true /\
     d' = on_heartbeats (fun t => update_where (is_hb (hb_org h) (hr_id r)) (fun r => hr_with_settings r (hb_period_seconds h) (hb_grace_seconds h)) (draw t)) d) \/
  (exists now, (forall r, r ∈ rows (db_heartbeats d) -> hb_named (hb_org h) (hb_name h) r = false /\ hr_token r <> Some (hb_token h)) /\
     d' = on_heartbeats (insert_row (new_hb h now)) d).

Lemma CreateHeartbeat_upserts h s : let '(r, s') := CreateHeartbeat h s in
  upserted h (st_db s) (st_db s') \/ st_db s' = st_db s /\ exists e, r = Error e.
Proof.
  unfold CreateHeartbeat, autocommit. match goal with |- context [tx ?b s] => pose proof (tx_outcome b s) as Hc; destruct (tx b s) as [r s'] end.
  cbv zeta in Hc. unfold bind, now_, query, exec, ret, throw in Hc. cbn [st_db st_tick] in Hc.
  destruct (select1 (hb_named _ _) _) as [x|] eqn:E; [apply select1_Some in E as [Hx Hp]|rewrite select1_None in E;
    destruct (exists_row (has_token _) _) eqn:Et; [|rewrite exists_row_false in Et]].
  - destruct Hc as [[Ed Hr]|(a & s1 & [= <- <-] & Ed & _ & Hr)]; [right; split; [done|]; destruct r as [v|e]; [by destruct (Hr _ eq_refl) as [s1 [=]]|by exists e]|].
    left. left. by exists x.
  - right. destruct Hc as [[Ed Hr]|(a & s1 & [=] & _)]. split; [done|]. destruct r as [v|e]; [by destruct (Hr _ eq_refl) as [s1 [=]]|by exists e].
  - destruct Hc as [[Ed Hr]|(a & s1 & [= <- <-] & Ed & _ & Hr)]; [right; split; [done|]; destruct r as [v|e]; [by destruct (Hr _ eq_refl) as [s1 [=]]|by exists e]|].
    left. right. eexists. split; [|exact Ed]. intros y Hy. split; [by apply E|]. specialize (Et y Hy). unfold has_token in Et. by apply bool_decide_eq_false in Et.
Qed.

Lemma hb_named_true org name r : hb_named org name r = true <-> hr_org r = org /\ hr_name r = name.
Proof. unfold hb_named. rewrite andb_true_iff, Z.eqb_eq, String.eqb_eq. done. Qed.

(** Names and tokens stay unique. *)
Lemma upserted_unique h d d' : upserted h d d' -> hb_unique (db_heartbeats d) -> hb_unique (db_heartbeats d').
Proof.
  intros [(r & _ & _ & ->)|(now & Hn & ->)] Hu; [by apply hb_unique_update, hb_unique_draw|].
  destruct Hu as (H1 & H2 & H3). split; [by apply table_wf_insert|].
  assert (Hx : forall r, r ∈ rows (db_heartbeats d) -> hr_org r = hb_org h -> hr_name r = hb_name h -> False).
  { intros r Hr E1 E2. destruct (Hn r Hr) as [Hf _]. by rewrite (proj2 (hb_named_true _ _ _)) in Hf. }
  split.
  - intros r1 r2 [Hr1| ->]%elem_of_insert [Hr2| ->]%elem_of_insert E1 E2; [by apply H2| | |done]; exfalso; simpl in *; by eapply Hx.
  - intros r1 r2 tok [Hr1| ->]%elem_of_insert [Hr2| ->]%elem_of_insert E1 E2; [by eapply H3| | |done]; exfalso; simpl in *;
      [apply (Hn r1 Hr1)|apply (Hn r2 Hr2)]; congruence.
Qed.

(** The row named so is updated alone. *)
Lemma upserted_row h d d' r : hb_unique (db_heartbeats d) -> upserted h d d' -> r ∈ rows (db_heartbeats d) ->
  (if hb_named (hb_org h) (hb_name h) r then hr_with_settings r (hb_period_seconds h) (hb_grace_seconds h) else r) ∈ rows (db_heartbeats d').
Proof.
  intros (Hw & Hn & _) [(x & Hx & Hp & ->)|(now & Hf & ->)] Hr.
  - apply elem_of_update. exists r. split; [done|]. apply hb_named_true in Hp as [E1 E2]. unfold is_hb.
    destruct (hb_named (hb_org h) (hb_name h) r) eqn:E.
    + apply hb_named_true in E as [E3 E4]. rewrite (Hn r x) by congruence. by rewrite E1, !Z.eqb_refl.
    + destruct ((hr_org r =? hb_org h) && (hr_id r =? hr_id x)) eqn:E'; [|done]. bsimpl.
      assert (r = x) as -> by (by eapply table_key_inj). exfalso. rewrite (proj2 (hb_named_true _ _ _)) in E by done. done.
  - destruct (Hf r Hr) as [-> _]. apply elem_of_insert. by left.
Qed.

Lemma upserted_back h d d' r' : upserted h d d' -> r' ∈ rows (db_heartbeats d') ->
  (exists r, r ∈ rows (db_heartbeats d) /\ same_hb r r') \/
  (forall r, r ∈ rows (db_heartbeats d) -> hb_named (hb_org h) (hb_name h) r = false) /\ exists now, r' = new_hb h now (next_id (db_heartbeats d)).
Proof.
  intros [(x & _ & _ & ->)|(now & Hf & ->)] Hr'.
  - apply elem_of_update in Hr' as (r & Hr & ->). left. exists r. split; [done|]. by case_match.
  - apply elem_of_insert in Hr' as [Hr'| ->]; [left; by exists r'|right]. split; [|by exists now]. intros r Hr. apply (Hf r Hr).
Qed.

End Writes.

(** ** An import takes nothing over *)

Section Keeping.
Context `{HcLibs} `{World}.

(** What [ListHeartbeats] gives. *)
Definition listed (org : Z) (d : DB) : list Heartbeat := map scanHeartbeat (select (fun r => hr_org r =? org) (db_heartbeats d)).

Lemma elem_of_listed_hb org d hb : hb ∈ listed org d <-> exists r, r ∈ rows (db_heartbeats d) /\ hr_org r = org /\ hb = scanHeartbeat r.
Proof.
  unfold listed. rewrite list_elem_of_fmap. setoid_rewrite elem_of_select. setoid_rewrite Z.eqb_eq. naive_solver.
Qed.

Lemma listed_token org d hb : hb ∈ listed org d -> hb_token hb <> "" ->
  exists r, r ∈ rows (db_heartbeats d) /\ hr_org r = org /\ hb = scanHeartbeat r /\ hr_token r = Some (hb_token hb).
Proof.
  intros (r & Hr & Ho & ->)%elem_of_listed_hb Ht. exists r. repeat split; [done|done|]. simpl in *. by destruct (hr_token r).
Qed.

(** The row an action of a plan finds under its name, if there was one. *)
Lemma justified_row org d0 a r : hb_unique (db_heartbeats d0) -> justified (by_token (listed org d0)) (by_name (listed org d0)) a -> ac_op a <> OpSkip ->
  r ∈ rows (db_heartbeats d0) -> hr_org r = org -> hr_name r = ac_name a -> ac_op a <> OpCreate /\ hr_token r = Some (ac_token a).
Proof.
  intros (_ & Hn & _) Hj Hs Hr Ho Hname.
  assert (Hc : ac_op a <> OpCreate -> exists hb, ac_token a <> "" /\ by_token (listed org d0) !! ac_token a = Some hb /\ ac_name a = hb_name hb).
  { unfold justified in Hj. destruct (ac_op a); naive_solver. }
  destruct (decide (ac_op a = OpCreate)) as [E|E].
  - unfold justified in Hj. rewrite E in Hj. destruct Hj as (_ & _ & Hnot). exfalso. apply Hnot. apply elem_of_by_name.
    exists (scanHeartbeat r). split; [apply elem_of_listed_hb; by exists r|by simpl].
  - split; [done|]. destruct (Hc E) as (hb & Ht & Hb & E'). apply by_token_Some in Hb as [Hb Et].
    destruct (listed_token org d0 hb Hb) as (x & Hx & Ho' & -> & Hxt); [congruence|].
    rewrite (Hn r x) by (simpl in E'; congruence). congruence.
Qed.

(** How the heartbeats stand after some writes of a plan: those there were are
    there, their period and grace changed at most, by a check with their
    token; the others were created by the plan, under names not taken. *)
Record kept (org : Z) (plan : list Action) (d0 d : DB) : Prop := {
  k_unique : hb_unique (db_heartbeats d);
  k_old r : r ∈ rows (db_heartbeats d0) -> exists r', r' ∈ rows (db_heartbeats d) /\ (r' = r \/ exists a, a ∈ plan /\
    hr_org r = org /\ hr_token r = Some (ac_token a) /\ r' = hr_with_settings r (ac_period a) (ac_grace a));
  k_new r' : r' ∈ rows (db_heartbeats d) -> (exists r, r ∈ rows (db_heartbeats d0) /\ same_hb r r') \/
    hr_org r' = org /\ (forall r, r ∈ rows (db_heartbeats d0) -> hb_named org (hr_name r') r = false) /\
    exists a, a ∈ plan /\ ac_op a = OpCreate /\ hr_name r' = ac_name a /\ hr_token r' = Some (ac_token a);
  k_rest : d = on_heartbeats (fun _ => db_heartbeats d) d0 }.

Lemma kept_refl org plan d : hb_unique (db_heartbeats d) -> kept org plan d d.
Proof. intros Hu. split; [done| | |by destruct d]; intros r Hr; [exists r; auto|left; by exists r]. Qed.

Lemma on_heartbeats_rest h d0 d d' : d = on_heartbeats (fun _ => db_heartbeats d) d0 -> upserted h d d' -> d' = on_heartbeats (fun _ => db_heartbeats d') d0.
Proof. intros -> [(r & _ & _ & ->)|(now & _ & ->)]; reflexivity. Qed.

Lemma kept_write org plan d0 d d' a : hb_unique (db_heartbeats d0) -> a ∈ plan -> writes a = true ->
  justified (by_token (listed org d0)) (by_name (listed org d0)) a ->
  kept org plan d0 d -> upserted (action_heartbeat org a) d d' -> kept org plan d0 d'.
Proof.
  intros Hu0 Ha Hwr Hj [Hu Hold Hnew Hrest] Hup. assert (Hs : ac_op a <> OpSkip) by (unfold writes in Hwr; by destruct (ac_op a)).
  split; [by eapply upserted_unique| | |by eapply on_heartbeats_rest].
  - intros r Hr. destruct (Hold r Hr) as (r1 & Hr1 & Hsame).
    assert (E1 : hr_org r1 = hr_org r /\ hr_name r1 = hr_name r) by (by destruct Hsame as [->|(a' & _ & _ & _ & ->)]).
    eexists. split; [by apply (upserted_row _ _ _ r1 Hu Hup)|]. cbn [hb_org hb_name action_heartbeat hb_period_seconds hb_grace_seconds].
    destruct (hb_named org (ac_name a) r1) eqn:E; [|done]. apply hb_named_true in E as [E2 E3]. destruct E1 as [E1 E1'].
    destruct (justified_row org d0 a r) as [_ Ht]; [done|done|done|done|congruence|congruence|].
    right. exists a. repeat split; [done|congruence|done|]. by destruct Hsame as [->|(a' & _ & _ & _ & ->)].
  - intros r' Hr'. destruct (upserted_back _ _ _ _ Hup Hr') as [(r1 & Hr1 & S1 & S2 & S3 & S4)|(Hfresh & now & ->)].
    + destruct (Hnew r1 Hr1) as [(r & Hr & T1 & T2 & T3 & T4)|(T1 & T2 & a' & T3 & T4 & T5 & T6)].
      * left. exists r. split; [done|]. repeat split; congruence.
      * right. rewrite S2, S3, S4. split; [done|]. split; [done|]. by exists a'.
    + right. cbn [hb_org hb_name hb_token action_heartbeat hr_org hr_name hr_token new_hb] in *.
      assert (Hfree : forall r, r ∈ rows (db_heartbeats d0) -> hb_named org (ac_name a) r = false).
      { intros r Hr. destruct (Hold r Hr) as (r1 & Hr1 & Hsame). specialize (Hfresh r1 Hr1).
        destruct Hsame as [->|(a' & _ & _ & _ & ->)]; exact Hfresh. }
      split; [done|]. split; [done|]. exists a. repeat split; [done|].
      unfold writes in Hwr. destruct (ac_op a) eqn:E; [done| |done|done]. exfalso. unfold justified in Hj. rewrite E in Hj.
      destruct Hj as (Ht & hb & Hb & En & _). apply by_token_Some in Hb as [Hb _]. apply elem_of_listed_hb in Hb as (x & Hx & Ho & ->).
      specialize (Hfree x Hx). rewrite (proj2 (hb_named_true _ _ _)) in Hfree by done. done.
Qed.

Lemma carry_out_kept org dryRun plan d0 : hb_unique (db_heartbeats d0) ->
  Forall (justified (by_token (listed org d0)) (by_name (listed org d0))) plan ->
  forall rest s, (forall a, a ∈ rest -> a ∈ plan) -> kept org plan d0 (st_db s) -> kept org plan d0 (st_db (snd (carry_out org dryRun rest s))).
Proof.
  intros Hu0 Hj. induction rest as [|a rest IH]; intros s Hin Hk; simpl; [done|]. unfold bind at 1.
  assert (Hstep : forall (m : Store (option Err)), m = (if negb dryRun && writes a then
      (let* r := try (CreateHeartbeat (action_heartbeat org a)) in ret (match r with Ok _ => None | Error e => Some e end)) else ret None) ->
      kept org plan d0 (st_db (snd (m s)))).
  { intros m ->. destruct (negb dryRun && writes a) eqn:E; [|done]. apply andb_true_iff in E as [_ Hwr]. unfold bind, try.
    pose proof (CreateHeartbeat_upserts (action_heartbeat org a) s) as Hc. destruct (CreateHeartbeat _ s) as [r s']. cbn [snd ret].
    destruct Hc as [Hup|[-> _]]; [|done]. eapply kept_write; [done|apply Hin; left|done| |done|done].
    rewrite Forall_elem in Hj. apply Hj, Hin. by left. }
  specialize (Hstep _ eq_refl). match type of Hstep with context [st_db (snd ?x)] => destruct x as [[e|e] s1] end; [|done].
  unfold bind. specialize (IH s1 (fun x Hx => Hin x (list_elem_of_further _ _ _ Hx)) Hstep). by destruct (carry_out org dryRun rest s1) as [[l|e'] s2].
Qed.

(** C37: an import, dry or not, interrupted or not, changes nothing but the
    org's heartbeats, and takes none of them over: every heartbeat there was
    keeps its id, name, token, status and history, and its period and grace
    unless a check has its very token; every other heartbeat after it is one
    the plan creates, under a name that was free and with a check's UUID for
    its token. *)
Theorem import_takes_over_nothing org opts dryRun checks s : hb_unique (db_heartbeats (st_db s)) ->
  let d' := st_db (snd (cmdImportHealthchecks org opts dryRun checks s)) in
  let plan := Plan checks (listed org (st_db s)) opts in
  kept org plan (st_db s) d' /\ map ac_token plan = map ID checks.
Proof.
  intros Hu d' plan. split; [|apply plan_from_tokens]. unfold d', cmdImportHealthchecks, ListHeartbeats, bind.
  match goal with |- context [autocommit (query ?f) s] => pose proof (autocommit_query f s) as Hq; destruct (autocommit (query f) s) as [[l|e] s1] end;
    destruct Hq as (Ed & _ & Hl); [|simpl; rewrite Ed; by apply kept_refl].
  destruct Hl as [[= ->]|[? [=]]]. apply carry_out_kept; [done|apply plan_from_justified|done|rewrite Ed; by apply kept_refl].
Qed.

End Keeping.

(** ** Importing again *)

(** What is at a name: the token, the period and the grace. *)
Definition Entry : Type := option string * Z * Z.
Definition entry_of (r : HbRow) : Entry := (hr_token r, hr_period_seconds r, hr_grace_seconds r).
Definition at_name (org : Z) (d : DB) (name : string) : option Entry := entry_of <$> select1 (hb_named org name) (db_heartbeats d).

(** What a write does to it. *)
Definition put (V : string -> option Entry) (a : Action) (name : string) : option Entry :=
  if String.eqb name (ac_name a) then
    Some (match V name with Some (token, _, _) => token | None => Some (ac_token a) end, ac_period a, ac_grace a)
  else V name.

Lemma at_name_Some org d name e : hb_unique (db_heartbeats d) ->
  at_name org d name = Some e <-> exists r, r ∈ rows (db_heartbeats d) /\ hr_org r = org /\ hr_name r = name /\ entry_of r = e.
Proof.
  intros (_ & Hn & _). unfold at_name. split.
  - intros (r & E & ->)%fmap_Some. apply select1_Some in E as [Hr [Ho Hname]%hb_named_true]. by exists r.
  - intros (r & Hr & Ho & Hname & <-). destruct (select1 _ _) as [x|] eqn:E.
    + apply select1_Some in E as [Hx [Ho' Hname']%hb_named_true]. simpl. rewrite (Hn x r) by congruence. done.
    + rewrite select1_None in E. specialize (E r Hr). by rewrite (proj2 (hb_named_true _ _ _)) in E.
Qed.

Lemma at_name_None org d name : at_name org d name = None <-> forall r, r ∈ rows (db_heartbeats d) -> hb_named org name r = false.
Proof. unfold at_name. rewrite <- select1_None. by destruct (select1 _ _). Qed.

Lemma put_upserted org a d d' name : hb_unique (db_heartbeats d) -> upserted (action_heartbeat org a) d d' ->
  at_name org d' name = put (at_name org d) a name.
Proof.
  intros Hu Hup. pose proof (upserted_unique _ _ _ Hup Hu) as Hu'. unfold put.
  assert (Hold : forall e, at_name org d name = Some e -> at_name org d' name = Some (if String.eqb name (ac_name a) then (fst (fst e), ac_period a, ac_grace a) else e)).
  { intros e (r & Hr & Ho & Hname & <-)%at_name_Some; [|done]. apply at_name_Some; [done|]. eexists. split; [by apply (upserted_row _ _ _ r Hu Hup)|].
    cbn [hb_org hb_name action_heartbeat hb_period_seconds hb_grace_seconds]. destruct (String.eqb_spec name (ac_name a)) as [->|Hne].
    - rewrite (proj2 (hb_named_true _ _ _)) by done. done.
    - destruct (hb_named org (ac_name a) r) eqn:E; [apply hb_named_true in E as [_ E]; congruence|done]. }
  destruct (at_name org d name) as [[[token p] g]|] eqn:E; [rewrite (Hold _ eq_refl); by destruct (String.eqb _ _)|].
  destruct (String.eqb_spec name (ac_name a)) as [->|Hne].
  - destruct Hup as [(r & Hr & Hp & _)|(now & Hf & ->)].
    + rewrite at_name_None in E. specialize (E r Hr). cbn [hb_org hb_name action_heartbeat] in Hp. congruence.
    + apply at_name_Some; [done|]. eexists. split; [apply elem_of_insert; by right|done].
  - apply at_name_None. intros r' Hr'. rewrite at_name_None in E. destruct (upserted_back _ _ _ _ Hup Hr') as [(r & Hr & _ & S2 & S3 & _)|(_ & now & ->)].
    + specialize (E r Hr). unfold hb_named in *. by rewrite S2, S3.
    + cbn. unfold hb_named. cbn. rewrite Z.eqb_refl. simpl. apply String.eqb_neq. congruence.
Qed.

Section Again.
Context `{HcLibs}.

(** The writes of a plan whose names differ. *)
Lemma fold_put_other l V name : name ∉ map ac_name l -> fold_left put l V name = V name.
Proof.
  revert V. induction l as [|a l IH]; intros V Hn; simpl; [done|]. simpl in Hn. apply not_elem_of_cons in Hn as [Hne Hn].
  rewrite IH by done. unfold put. by rewrite (proj2 (String.eqb_neq _ _)).
Qed.
Lemma fold_put_of l V a : NoDup (map ac_name l) -> a ∈ l ->
  fold_left put l V (ac_name a) = Some (match V (ac_name a) with Some (token, _, _) => token | None => Some (ac_token a) end, ac_period a, ac_grace a).
Proof.
  revert V. induction l as [|x l IH]; intros V Hnd Hin; [by apply elem_of_nil in Hin|]. simpl in *. apply NoDup_cons in Hnd as [Hx Hnd].
  apply elem_of_cons in Hin as [->|Hin].
  - rewrite fold_put_other by done. unfold put. by rewrite String.eqb_refl.
  - rewrite IH by done. unfold put. rewrite (proj2 (String.eqb_neq (ac_name a) (ac_name x))); [done|].
    intros E. apply Hx. rewrite <- E. by apply list_elem_of_fmap_2.
Qed.

(** [existing] is what [V] holds. *)
Record shown (V : string -> option Entry) (existing : list Heartbeat) : Prop := {
  sh_name name : name ∈ by_name existing <-> is_Some (V name);
  sh_token token hb : token <> "" -> by_token existing !! token = Some hb -> V (hb_name hb) = Some (Some token, hb_period_seconds hb, hb_grace_seconds hb);
  sh_absent token : token <> "" -> by_token existing !! token = None -> forall name p g, V name <> Some (Some token, p, g);
  sh_unique token name p g name' p' g' : V name = Some (Some token, p, g) -> V name' = Some (Some token, p', g') -> name = name' }.

Lemma listed_shown org d : hb_unique (db_heartbeats d) -> shown (at_name org d) (listed org d).
Proof.
  intros Hu. split.
  - intros name. rewrite elem_of_by_name. split.
    + intros (hb & (r & Hr & Ho & ->)%elem_of_listed_hb & E). exists (entry_of r). apply at_name_Some; [done|]. by exists r.
    + intros [e (r & Hr & Ho & Hname & _)%at_name_Some]; [|done]. exists (scanHeartbeat r). split; [|done]. apply elem_of_listed_hb. by exists r.
  - intros token hb Ht [Hb <-]%by_token_Some. destruct (listed_token org d hb Hb Ht) as (r & Hr & Ho & -> & E).
    apply at_name_Some; [done|]. exists r. repeat split; [done|done|]. unfold entry_of. by rewrite E.
  - intros token Ht Hn name p g (r & Hr & Ho & Hname & [= E _ _])%at_name_Some; [|done].
    apply (by_token_None _ _ (scanHeartbeat r) Hn); [apply elem_of_listed_hb; by exists r|]. simpl. by rewrite E.
  - intros token n p g n' p' g' (r & Hr & _ & <- & [= E _ _])%at_name_Some (r' & Hr' & _ & <- & [= E' _ _])%at_name_Some; [|done|done].
    destruct Hu as (_ & _ & Ht). by rewrite (Ht r r' token).
Qed.

(** The actions of a plan that are not skipped. *)
Definition kept_checks (plan : list Action) : list Action := List.filter (fun a => negb (bool_decide (ac_op a = OpSkip))) plan.
(** The UUIDs of the checks. *)
Definition uuids (checks : list Check) : list string := List.filter (fun u => negb (String.eqb u "")) (map ID checks).

(** What the second plan finds of an action of the first. *)
Definition in_place (V : string -> option Entry) (a : Action) : Prop :=
  if bool_decide (ac_op a = OpSkip) then ac_token a <> "" -> ac_reason a = NameTaken (ac_name a) -> forall name p g, V name <> Some (Some (ac_token a), p, g)
  else is_Some (V (ac_name a)) /\ V (ac_name a) = Some (Some (ac_token a), ac_period a, ac_grace a).

(** The action of a check met again. *)
Definition again (a : Action) : ImportOp := if bool_decide (ac_op a = OpSkip) then OpSkip else OpUnchanged.

Ltac met Hin Hp := let hb := fresh "hb" in destruct (Hin _ Hp) as [hb [-> [<- <-]]]; cbn [fst ac_op]; rewrite !Z.eqb_refl; reflexivity.

Lemma plan_one_again opts ex ex' V V' planned planned2 c a p1 : shown V ex -> shown V' ex' -> (forall name, is_Some (V name) -> is_Some (V' name)) ->
  (forall name, name ∈ planned -> is_Some (V' name)) ->
  plan_one opts (by_token ex) (by_name ex) planned c = (a, p1) -> in_place V' a ->
  ac_op (fst (plan_one opts (by_token ex') (by_name ex') planned2 c)) = again a.
Proof.
  intros Hs Hs' Hmono Hpl. unfold plan_one. destruct (String.eqb_spec (ID c) "") as [|Ht]; [by intros [= <- <-]|].
  destruct (mapTiming _ _ _) as [[period grace] ws]. destruct (_ && negb _); [by intros [= <- <-]|].
  set (name := firstOf [ck_slug c; _; _]).
  assert (Hin : forall nm, V' nm = Some (Some (ID c), period, grace) -> exists hb, by_token ex' !! ID c = Some hb /\ hb_period_seconds hb = period /\ hb_grace_seconds hb = grace).
  { intros nm E. destruct (by_token ex' !! ID c) as [hb|] eqn:Eb; [|by apply (sh_absent _ _ Hs' _ Ht Eb) in E].
    exists hb. split; [done|]. pose proof (sh_token _ _ Hs' _ _ Ht Eb) as E'. rewrite (sh_unique _ _ Hs' _ _ _ _ _ _ _ E E') in E. rewrite E in E'. by injection E'. }
  destruct (by_token ex !! ID c) as [hb|] eqn:Eb.
  - intros [= <- <-] Hp. unfold in_place, again in *. cbn [ac_op ac_name ac_token ac_period ac_grace] in *.
    match type of Hp with context [bool_decide (?x = OpSkip)] => rewrite (bool_decide_eq_false_2 (x = OpSkip)) in * by (by destruct (negb _ || negb _)) end.
    destruct Hp as [_ Hp]. met Hin Hp.
  - destruct (bool_decide (name ∈ planned) && negb (bool_decide (name ∈ by_name ex))) eqn:Esh.
    all: intros E Hp; cbv beta iota zeta in E; match type of E with context [if bool_decide ?P then _ else _] => destruct (bool_decide P) eqn:Hname end;
      injection E as <- <-; unfold in_place, again in *; cbn [ac_op ac_name ac_token ac_period ac_grace ac_reason] in *.
    all: try (rewrite (bool_decide_eq_false_2 (OpCreate = OpSkip)) in Hp by done; rewrite (bool_decide_eq_false_2 (OpCreate = OpSkip)) by done; destruct Hp as [_ Hp]; met Hin Hp).
    all: rewrite (bool_decide_eq_true_2 (OpSkip = OpSkip)) in Hp by done; rewrite (bool_decide_eq_true_2 (OpSkip = OpSkip)) by done; destruct (by_token ex' !! ID c) as [hb'|] eqn:Eb';
      [exfalso; exact (Hp Ht eq_refl _ _ _ (sh_token _ _ Hs' _ hb' Ht Eb'))|].
    all: assert (Hn' : name ∈ by_name ex') by (apply (sh_name _ _ Hs'); first [apply Hmono, (sh_name _ _ Hs); by apply bool_decide_eq_true in Hname|
      apply andb_true_iff in Esh as [Esh _]; apply Hpl; by apply bool_decide_eq_true in Esh]).
    all: rewrite (bool_decide_eq_true_2 (name ∈ by_name ex')) by done; rewrite andb_false_r; rewrite bool_decide_eq_true_2 by done; done.
Qed.

Lemma plan_from_again opts ex ex' V V' : shown V ex -> shown V' ex' -> (forall name, is_Some (V name) -> is_Some (V' name)) ->
  forall checks planned planned2, (forall name, name ∈ planned -> is_Some (V' name)) ->
  Forall (in_place V') (plan_from opts (by_token ex) (by_name ex) planned checks) ->
  map ac_op (plan_from opts (by_token ex') (by_name ex') planned2 checks) = map again (plan_from opts (by_token ex) (by_name ex) planned checks).
Proof.
  intros Hs Hs' Hmono. induction checks as [|c r IH]; intros planned planned2 Hpl; simpl; [done|].
  destruct (plan_one opts (by_token ex) _ planned c) as [a p1] eqn:E1. intros [Ha Hr]%List.Forall_cons_iff.
  pose proof (plan_one_again opts ex ex' V V' planned planned2 c a p1 Hs Hs' Hmono Hpl E1 Ha) as Hop.
  destruct (plan_one opts (by_token ex') _ planned2 c) as [a2 p2]. simpl in *. rewrite Hop. f_equal. apply IH; [|done].
  apply plan_one_justified in E1 as (_ & _ & _ & ->). unfold in_place in Ha. destruct (bool_decide _); [done|].
  intros name [->%elem_of_singleton|Hin]%elem_of_union; [apply Ha|by apply Hpl].
Qed.

End Again.

Section Repeating.
Context `{HcLibs} `{World}.

(** Writes that all succeed put the plan's entries in place. *)
Lemma carry_out_puts org plan : forall s l s', hb_unique (db_heartbeats (st_db s)) -> carry_out org false plan s = (Ok l, s') -> failed l = O ->
  map fst l = plan /\ hb_unique (db_heartbeats (st_db s')) /\
  forall name, at_name org (st_db s') name = fold_left put (List.filter writes plan) (at_name org (st_db s)) name.
Proof.
  assert (Hext : forall ws V V', (forall name, V name = V' name) -> forall name, fold_left put ws V name = fold_left put ws V' name).
  { induction ws as [|w ws IH]; intros V V' E name; simpl; [done|]. apply IH. intros n. unfold put. by rewrite !E. }
  induction plan as [|a plan IH]; intros s l s' Hu; simpl; [by intros [= <- <-]|]. unfold bind at 1. simpl.
  destruct (writes a) eqn:Hw.
  - unfold bind at 1, try. pose proof (CreateHeartbeat_upserts (action_heartbeat org a) s) as Hc.
    destruct (CreateHeartbeat _ s) as [r s1]. simpl. unfold bind at 1. destruct (carry_out org false plan s1) as [[l'|e] s2] eqn:Ec; [|done].
    intros [= <- <-] Hf. unfold failed in Hf. simpl in Hf. destruct r as [v|e]; [|done]. destruct Hc as [Hup|[_ [? [=]]]].
    destruct (IH _ _ _ (upserted_unique _ _ _ Hup Hu) Ec Hf) as (E1 & Hu2 & Hv). simpl. split; [by rewrite E1|]. split; [done|].
    intros name. rewrite Hv. apply Hext. intros n. by apply put_upserted.
  - simpl. unfold bind at 1. destruct (carry_out org false plan s) as [[l'|e] s2] eqn:Ec; [|done]. intros [= <- <-] Hf. 
    destruct (IH _ _ _ Hu Ec Hf) as (E1 & Hu2 & Hv). simpl. split; [by rewrite E1|by split].
Qed.

Lemma NoDup_kept_writes plan : NoDup (map ac_name (kept_checks plan)) -> NoDup (map ac_name (List.filter writes plan)).
Proof.
  unfold kept_checks. induction plan as [|a plan IH]; simpl; [done|]. unfold writes at 1.
  assert (Hsub : forall x, x ∈ map ac_name (List.filter writes plan) -> x ∈ map ac_name (List.filter (fun a => negb (bool_decide (ac_op a = OpSkip))) plan)).
  { intros x (b & -> & Hb)%list_elem_of_fmap. apply elem_of_filter_b in Hb as [Hb Hw]. apply list_elem_of_fmap_2. apply elem_of_filter_b. split; [done|].
    unfold writes in Hw. by destruct (ac_op b). }
  destruct (ac_op a) eqn:E; simpl; [| |rewrite NoDup_cons; tauto|done]; rewrite !NoDup_cons; intros [Hn Hd]; split; auto.
Qed.

(** Two actions of one UUID are the same action. *)
Lemma uuid_once checks plan a b : map ac_token plan = map ID checks -> NoDup (uuids checks) -> a ∈ plan -> b ∈ plan -> ac_token a = ac_token b -> ac_token a <> "" -> a = b.
Proof.
  unfold uuids. intros <-. induction plan as [|x plan IH]; simpl; intros Hnd Ha Hb E Hne; [by apply elem_of_nil in Ha|].
  assert (Hin : forall y, y ∈ plan -> ac_token y = ac_token x -> ac_token x <> "" -> ~ NoDup (if negb (String.eqb (ac_token x) "") then ac_token x ::
      List.filter (fun u => negb (String.eqb u "")) (map ac_token plan) else List.filter (fun u => negb (String.eqb u "")) (map ac_token plan))).
  { intros y Hy Ey Hx. rewrite (proj2 (String.eqb_neq _ _) Hx). simpl. rewrite NoDup_cons. intros [Hn _]. apply Hn. apply elem_of_filter_b.
    split; [rewrite <- Ey; by apply list_elem_of_fmap_2|]. by rewrite (proj2 (String.eqb_neq _ _) Hx). }
  apply elem_of_cons in Ha as [->|Ha], Hb as [->|Hb]; [done|exfalso; by eapply (Hin b)|exfalso; by eapply (Hin a); [| |congruence|]|].
  apply IH; [|done|done|done|done]. destruct (negb _); [by apply NoDup_cons in Hnd as [_ ?]|done].
Qed.

(** After it, every check is where the plan put it. *)
Lemma carried_in_place org opts checks d V' : let plan := Plan checks (listed org d) opts in hb_unique (db_heartbeats d) -> NoDup (uuids checks) ->
  NoDup (map ac_name (kept_checks plan)) -> (forall name, V' name = fold_left put (List.filter writes plan) (at_name org d) name) ->
  Forall (in_place V') plan.
Proof.
  intros plan Hu Hid Hnd HV. pose proof (listed_shown org d Hu) as Hs. set (V := at_name org d) in *.
  pose proof (plan_from_justified opts (by_token (listed org d)) (by_name (listed org d)) ∅ checks) as Hj. fold (Plan checks (listed org d) opts) in Hj. fold plan in Hj.
  pose proof (plan_from_tokens opts (by_token (listed org d)) (by_name (listed org d)) ∅ checks : map ac_token plan = _) as Htok.
  pose proof (NoDup_kept_writes _ Hnd) as Hnw. apply Forall_elem. intros a Ha. rewrite Forall_elem in Hj. pose proof (Hj a Ha) as Hja.
  assert (Hput : forall w, w ∈ plan -> writes w = true -> V' (ac_name w) = Some (match V (ac_name w) with Some (t, _, _) => t | None => Some (ac_token w) end, ac_period w, ac_grace w)).
  { intros w Hw Hww. rewrite HV. apply fold_put_of; [done|]. by apply elem_of_filter_b. }
  assert (Hkeep : forall name, (forall w, w ∈ plan -> writes w = true -> ac_name w <> name) -> V' name = V name).
  { intros name Hn. rewrite HV. apply fold_put_other. intros (w & -> & Hw)%list_elem_of_fmap. apply elem_of_filter_b in Hw as [Hw Hww]. by eapply Hn. }
  unfold in_place, justified in *. destruct (ac_op a) eqn:Eop; cbn [bool_decide decide].
  - (* created *) destruct Hja as (_ & _ & Hn). rewrite (sh_name _ _ Hs) in Hn. rewrite bool_decide_eq_false_2 by done.
    assert (E : V' (ac_name a) = Some (Some (ac_token a), ac_period a, ac_grace a)); [|split; [by eexists|done]].
    rewrite Hput by (unfold writes; by rewrite ?Eop). destruct (V (ac_name a)) as [e|] eqn:E; [destruct Hn; by eexists|done].
  - (* updated *) destruct Hja as (Ht & hb & Hb & En & _). rewrite bool_decide_eq_false_2 by done.
    assert (E : V' (ac_name a) = Some (Some (ac_token a), ac_period a, ac_grace a)); [|split; [by eexists|done]].
    rewrite Hput by (unfold writes; by rewrite ?Eop). by rewrite En, (sh_token _ _ Hs _ _ Ht Hb).
  - (* unchanged *) destruct Hja as (Ht & hb & Hb & En & _ & Hsame). destruct (proj1 Hsame eq_refl) as [E1 E2]. rewrite bool_decide_eq_false_2 by done.
    assert (E : V' (ac_name a) = Some (Some (ac_token a), ac_period a, ac_grace a)); [|split; [by eexists|done]].
    rewrite Hkeep; [by rewrite En, (sh_token _ _ Hs _ _ Ht Hb), E1, E2|]. intros w Hw Hww Ew.
    assert (Hk : forall x, x ∈ plan -> ac_op x <> OpSkip -> x ∈ kept_checks plan).
    { intros x Hx Hxo. apply elem_of_filter_b. by rewrite bool_decide_eq_false_2. }
    assert (w = a) as ->; [|unfold writes in Hww; by rewrite Eop in Hww].
    apply (NoDup_map_inj ac_name (kept_checks plan)); [done|apply Hk; [done|]|apply Hk; [done|]|done]; unfold writes in Hww; [by destruct (ac_op w)|congruence].
  - (* skipped *) rewrite bool_decide_eq_true_2 by done. intros Ht Hr name p g HV'. specialize (Hja Hr).
    destruct (decide (name ∈ map ac_name (List.filter writes plan))) as [Hin|Hin].
    + apply list_elem_of_fmap in Hin as (w & -> & Hw). apply elem_of_filter_b in Hw as [Hw Hww]. rewrite (Hput w Hw Hww) in HV'.
      destruct (V (ac_name w)) as [[[t p'] g']|] eqn:E; injection HV' as Et _ _; [rewrite Et in E; by apply (sh_absent _ _ Hs _ Ht Hja) in E|].
      assert (a = w) as <- by (eapply uuid_once; eauto). unfold writes in Hww. by rewrite Eop in Hww.
    + rewrite HV, fold_put_other in HV' by done. by apply (sh_absent _ _ Hs _ Ht Hja) in HV'.
Qed.

End Repeating.

Section Twice.
Context `{HcLibs} `{World}.

(** A plan that writes nothing. *)
Lemma carry_out_idle org dryRun plan s : Forall (fun a => writes a = false) plan -> snd (carry_out org dryRun plan s) = s.
Proof.
  revert s. induction plan as [|a plan IH]; intros s; simpl; [done|]. intros [Ha Hp]%List.Forall_cons_iff. rewrite Ha, andb_false_r.
  unfold bind. simpl. specialize (IH s Hp). by destruct (carry_out org dryRun plan s) as [[l|e] s1].
Qed.

(** an import that reports no failure is complete: where the checks'
    UUIDs differ, and the names the plan gave them do, the plan made of the
    same checks afterwards has every check it did not skip unchanged, skips
    the others again, and carrying it out writes nothing. *)
Theorem import_again org opts checks s report s' : hb_unique (db_heartbeats (st_db s)) -> NoDup (uuids checks) ->
  cmdImportHealthchecks org opts false checks s = (Ok report, s') -> failed report = O -> NoDup (map ac_name (kept_checks (map fst report))) ->
  map ac_op (Plan checks (listed org (st_db s')) opts) = map again (map fst report) /\
  forall dryRun s2, st_db s2 = st_db s' -> st_db (snd (cmdImportHealthchecks org opts dryRun checks s2)) = st_db s'.
Proof.
  intros Hu Hid Himp Hf Hnd. unfold cmdImportHealthchecks, ListHeartbeats, bind in Himp.
  match type of Himp with context [autocommit (query ?f) s] => pose proof (autocommit_query f s) as Hq; destruct (autocommit (query f) s) as [[l|e] s1] end; [|done].
  destruct Hq as (Ed & _ & [[= ->]|[? [=]]]). rewrite <- Ed in Hu. apply carry_out_puts in Himp as (Hrep & Hu' & HV); [|done|done].
  rewrite Ed in *. fold (listed org (st_db s)) in *. rewrite Hrep in Hnd |- *.
  pose proof (carried_in_place org opts checks (st_db s) _ Hu Hid Hnd HV) as Hin.
  assert (Hmono : forall name, is_Some (at_name org (st_db s) name) -> is_Some (at_name org (st_db s') name)).
  { intros name Hn. rewrite HV. clear -Hn. generalize dependent (at_name org (st_db s)). induction (List.filter writes _) as [|w ws IH]; intros V Hn; simpl; [done|].
    apply IH. unfold put. destruct (String.eqb _ _); [by eexists|done]. }
  assert (Hplan : map ac_op (Plan checks (listed org (st_db s')) opts) = map again (Plan checks (listed org (st_db s)) opts)).
  { eapply plan_from_again; [by apply listed_shown|by apply listed_shown|exact Hmono| |exact Hin]. by intros name ?%elem_of_empty. }
  split; [exact Hplan|]. intros dryRun s2 E2. unfold cmdImportHealthchecks, ListHeartbeats, bind.
  match goal with |- context [autocommit (query ?f) s2] => pose proof (autocommit_query f s2) as Hq; destruct (autocommit (query f) s2) as [[l|e] s3] end;
    destruct Hq as (Ed2 & _ & Hl); [|simpl; congruence].
  destruct Hl as [[= ->]|[? [=]]]. rewrite E2. fold (listed org (st_db s')). rewrite carry_out_idle; [congruence|].
  apply Forall_elem. intros a Ha. assert (Hop : ac_op a ∈ map again (Plan checks (listed org (st_db s)) opts)) by (rewrite <- Hplan; by apply list_elem_of_fmap_2).
  apply list_elem_of_fmap in Hop as (b & Hop & _). unfold writes, again in *. rewrite Hop. by destruct (bool_decide _).
Qed.

End Twice.

(** ** Examples *)

Definition no_libs : HcLibs := {| url_path _ := None; zone_known _ := true; ParseStandard _ := None |}.
#[local] Existing Instance no_libs.
#[local] Instance noon : World := steady (12 * Hour).

Definition a_check (name slug uuid : string) (timeout : Z) (status : string) : Check :=
  {| ck_name := name; ck_slug := slug; ck_uuid := uuid; ck_ping_url := ""; ck_unique_key := ""; ck_timeout := timeout; ck_grace := 60;
     ck_schedule := ""; ck_tz := ""; ck_status := status |}.
Definition uuid_of (n : string) : string := n ++ "-1111-2222-3333-444444444444".
Definition imported_before : DB := on_heartbeats (insert_row (new_hb
  (action_heartbeat 1 (fst (plan_one {| op_now := 0; op_include_paused := false |} ∅ ∅ ∅ (a_check "" "db" (uuid_of "0000000a") 60 "up")))) 0)) empty_db.
Definition a_project : list Check :=
  [a_check "DB" "db" (uuid_of "0000000A") 120 "up"; a_check "Web" "web" (uuid_of "0000000b") 300 "up"; a_check "Web" "web" (uuid_of "0000000c") 300 "down";
   a_check "Old" "old" (uuid_of "0000000d") 300 "paused"; a_check "" "" "" 300 "up"].
Definition some_options : Options := {| op_now := 0; op_include_paused := false |}.

Lemma imported_before_unique : hb_unique (db_heartbeats imported_before).
Proof.
  eapply (upserted_unique _ empty_db); [right; exists 0; split; [by intros r ?%elem_of_nil|reflexivity]|].
  split; [apply table_wf_empty|]. split; [by intros r1 r2 ?%elem_of_nil|by intros r1 r2 tok ?%elem_of_nil].
Qed.

Example a_plan : map (fun a => (ac_op a, ac_name a)) (Plan a_project (listed 1 imported_before) some_options) =
  [(OpUpdate, "db"); (OpCreate, "web"); (OpCreate, "web-0000000c"); (OpSkip, "old"); (OpSkip, "")]%string.
Proof. vm_compute. reflexivity. Qed.

Lemma import_takes_over_nothing_witness :
  kept 1 (Plan a_project (listed 1 imported_before) some_options) imported_before
    (st_db (snd (cmdImportHealthchecks 1 some_options false a_project (mkSt imported_before 0)))).
Proof. exact (proj1 (import_takes_over_nothing 1 some_options false a_project (mkSt imported_before 0) imported_before_unique)). Defined.

Definition the_import := cmdImportHealthchecks 1 some_options false a_project (mkSt imported_before 0).
Definition the_report : list (Action * option Err) := match fst the_import with Ok l => l | Error _ => [] end.

Lemma import_again_witness :
  map ac_op (Plan a_project (listed 1 (st_db (snd the_import))) some_options) = [OpUnchanged; OpUnchanged; OpUnchanged; OpSkip; OpSkip].
Proof.
  refine (eq_trans (proj1 (import_again 1 some_options a_project (mkSt imported_before 0) the_report (snd the_import) imported_before_unique _ _ _ _)) _);
    [apply (bool_decide_eq_true_1 _); vm_compute; reflexivity|vm_compute; reflexivity|vm_compute; reflexivity
    |apply (bool_decide_eq_true_1 _); vm_compute; reflexivity|vm_compute; reflexivity].
Defined.

(** The name a shared name is changed to is not looked for among the names
    planned: two checks end up as one heartbeat, and the second one's ping URL
    leads nowhere, though the import reports three heartbeats created. *)
Example renamed_into_another :
  let checks := [a_check "" "db-1234abcd" (uuid_of "0000000a") 60 "up"; a_check "" "db" (uuid_of "0000000b") 60 "up"; a_check "" "db" (uuid_of "1234abcd") 60 "up"] in
  match cmdImportHealthchecks 1 some_options false checks (mkSt empty_db 0) with
  | (Ok report, s) => (count OpCreate report, failed report, map hb_token (listed 1 (st_db s))) = (3%nat, O, [uuid_of "0000000a"; uuid_of "0000000b"])
  | _ => False
  end.
Proof. vm_compute. reflexivity. Qed.
