(* ===== verification/Fetch.v ===== *)
(** * Fetching ([hcimport/hcimport.go], [jobs/probe_domain.go])

    The requests that carry a credential or whose answer is trusted: listing
    a Healthchecks project's checks, a registry's RDAP server and IANA's
    bootstrap file. Both follow redirects under a policy of their own;
    [client_do] is [http.Client.Do] as they use it. A transport answers from
    the requests made so far. *)
From S2P Require Import Prelude GoTime Tail Utf8 Domain Heartbeat Executor Failure Redact Capture GoStrings Sql Schema JobSpec Probe Drill Attempt StoreHeartbeats Watch HcImport.
Open Scope Z_scope.

(** ** [net/http] and [net/url] *)

Record Url := { u_scheme : string; u_host : bytes; u_path : bytes; u_query : bytes; u_fragment : bytes }.
Record Response := { re_status : Z; re_text : bytes; re_body : bytes; re_body_err : option bytes }.

(** What a request comes to: an error, a redirect with the URL its location
    names, or a response (a redirect without a location is one). *)
Inductive Reply := NoReply (err : bytes) | Redirected (location : Url) | Replied (r : Response).

(** [url.Parse], [URL.String] and [URL.Redacted], and the texts of a failed
    request: the client's own, and with the URL taken out ([urlredact.Error]). *)
Class URLTexts := {
  ParseURL : bytes -> Url + bytes;
  URLString : Url -> bytes;
  URLRedacted : Url -> bytes;
  get_error : Url -> bytes -> bytes;
  redacted_error : bytes -> bytes -> bytes;
  redacted_host : bytes -> bytes }.

Section Client.
Context (policy : Url -> list Url -> option bytes) (transport : list Url -> Reply).

(** A request to [u] after those of [via], with [fuel] redirects to follow:
    the response or the error, and every request made. *)
Fixpoint client_do (fuel : nat) (via : list Url) (u : Url) : (Response + bytes) * list Url :=
  let sent := via ++ [u] in
  match transport sent with
  | NoReply e => (inr e, sent)
  | Replied r => (inl r, sent)
  | Redirected loc =>
      match policy loc sent with
      | Some e => (inr e, sent)
      | None => match fuel with O => (inr [], sent) | S f => client_do f sent loc end
      end
  end.

(** Every request but the first is one the policy let through. *)
Lemma client_do_allowed fuel : forall via u, let sent := snd (client_do fuel via u) in
  exists more, sent = via ++ u :: more /\ forall p x q, u :: more = p ++ x :: q -> p <> [] -> policy x (via ++ p) = None.
Proof.
  induction fuel as [|f IH]; intros via u; cbn [client_do]; destruct (transport (via ++ [u])) as [e|loc|r];
    try destruct (policy loc (via ++ [u])) as [e|] eqn:Ep; try (exists []; split; [done|]; intros [|y p] x q E Hp; [done|]; injection E as -> E; by destruct p).
  destruct (IH (via ++ [u]) loc) as (more & E & Ha). cbn zeta in *. rewrite E, <- app_assoc. exists (loc :: more). split; [done|].
  intros [|y p] x q Eq Hp; [done|]. injection Eq as -> Eq. destruct p as [|z p].
  - cbn in Eq. injection Eq as -> Eq. done.
  - pose proof (Ha (z :: p) x q Eq ltac:(done)) as Hx. by rewrite <- app_assoc in Hx.
Qed.

(** A response is the transport's to the requests made. *)
Lemma client_do_response fuel : forall via u r, fst (client_do fuel via u) = inl r -> transport (snd (client_do fuel via u)) = Replied r.
Proof.
  induction fuel as [|f IH]; intros via u r; cbn [client_do]; destruct (transport (via ++ [u])) as [e|loc|r'] eqn:E; try done;
    try (destruct (policy loc (via ++ [u])); [done|]); try done; try (intros [= ->]; done). apply IH.
Qed.

(** A policy that refuses a redirect after [limit] requests bounds them, and
    makes [limit] redirects enough. *)
Context (limit : nat) (Hlimit : forall next via, (limit <= List.length via)%nat -> policy next via <> None).

Lemma client_do_fuel more : forall fuel via u, (limit <= fuel + List.length via)%nat -> client_do (fuel + more) via u = client_do fuel via u.
Proof.
  induction fuel as [|f IH]; intros via u Hf; [destruct more as [|m]; [done|]|]; cbn [Nat.add client_do];
    destruct (transport (via ++ [u])) as [e|loc|r]; try done; destruct (policy loc (via ++ [u])) eqn:Ep; try done.
  - destruct (Hlimit loc (via ++ [u])); [rewrite length_app; cbn; lia|done].
  - apply IH. rewrite length_app. cbn. lia.
Qed.

Lemma client_do_bounded fuel u : (0 < limit)%nat -> (List.length (snd (client_do fuel [] u)) <= limit)%nat.
Proof.
  intros H0. destruct (client_do_allowed fuel [] u) as (more & E & Ha). cbn zeta in *. rewrite E. destruct (Nat.le_gt_cases (List.length ([] ++ u :: more)) limit) as [|Hgt]; [done|].
  exfalso. cbn [app] in *. destruct (lookup_lt_is_Some_2 (u :: more) limit Hgt) as [x Hx].
  apply (Hlimit x (take limit (u :: more))); [rewrite length_take; lia|]. apply (Ha _ x (drop (S limit) (u :: more))).
  - symmetry. by apply take_drop_middle.
  - intros En. apply (f_equal List.length) in En. rewrite length_take in En. cbn [List.length] in En. lia.
Qed.

End Client.

(** ** The check list of a Healthchecks project *)

Inductive FetchErr :=
| NoAPIKey | BadURL | BadRequest (err : bytes)
| ListFailed (host err : bytes)          (* [list checks at host: err] *)
| KeyRefused (host : bytes) | BadStatus (host : bytes) (status : Z) | NotAList (host err : bytes)
| ErrReadOnlyKey.

Definition maxListBytes : nat := Z.to_nat (Z.shiftl 32 20).
Definition maxAPIRedirects : nat := 10.

(** [CheckRedirect] of [Fetch]. *)
Definition api_policy (next : Url) (via : list Url) : option bytes :=
  if (maxAPIRedirects <=? List.length via)%nat then Some (bstr "too many redirects")
  else match via with
       | first :: _ =>
           if bool_decide (u_host next <> u_host first) then
             Some (bstr "refusing to follow a redirect to another host (" ++ u_host next ++ bstr ") with the API key")
           else None
       | [] => None
       end.

Section Listing.
Context `{URLTexts} `{HcLibs}.

(** [checksURL]. *)
Definition checksURL (baseURL : bytes) : bytes + FetchErr :=
  match ParseURL (TrimSpace baseURL) with
  | inr _ => inr BadURL
  | inl u =>
      if (negb (String.eqb (u_scheme u) "http") && negb (String.eqb (u_scheme u) "https")) || is_nil (u_host u) then inr BadURL
      else
        let p := rev (drop_while slash (rev (u_path u))) in
        let p := if bool_decide (lastn 7 p = bstr "/api/v3") then p else p ++ bstr "/api/v3" in
        inl (URLString {| u_scheme := u_scheme u; u_host := u_host u; u_path := p ++ bstr "/checks/"; u_query := []; u_fragment := [] |})
  end.

(** [Fetch], with the decoding of a check list: the checks, or the error, and
    the requests made, every one of which carries the key in its X-Api-Key. *)
Definition Fetch (transport : list Url -> Reply) (decode : bytes -> list Check + bytes) (baseURL apiKey : bytes) : (list Check + FetchErr) * list Url :=
  if is_nil apiKey then (inr NoAPIKey, [])
  else match checksURL baseURL with
  | inr e => (inr e, [])
  | inl endpoint =>
      match ParseURL endpoint with
      | inr e => (inr (BadRequest (redacted_error endpoint e)), [])
      | inl u =>
          let '(r, sent) := client_do api_policy transport maxAPIRedirects [] u in
          (match r with
           | inr e => inr (ListFailed (redacted_host endpoint) (redacted_error endpoint e))
           | inl resp =>
               if re_status resp =? 401 then inr (KeyRefused (redacted_host endpoint))
               else if (re_status resp <? 200) || (299 <? re_status resp) then inr (BadStatus (redacted_host endpoint) (re_status resp))
               else match decode (take maxListBytes (re_body resp)) with
               | inr e => inr (NotAList (redacted_host endpoint) e)
               | inl checks =>
                   if existsb (fun c => String.eqb (ID c) "" && negb (String.eqb (ck_unique_key c) "")) checks then inr ErrReadOnlyKey else inl checks
               end
           end, sent)
      end
  end.

Lemma api_policy_limit next via : (maxAPIRedirects <= List.length via)%nat -> api_policy next via <> None.
Proof. intros Hl. unfold api_policy. by destruct (Nat.leb_spec maxAPIRedirects (List.length via)); [|lia]. Qed.

(** C29: the API key stays with the host it was given for. Whatever servers
    answer, every request that carries the key, redirects included, goes to
    the host of the endpoint the user's URL names, and there are at most ten
    of them; and a list of checks is an answer of that host with a status of
    success, in which a check without its UUID is not taken for one. *)
Theorem api_key_stays_home transport decode baseURL apiKey : let '(r, sent) := Fetch transport decode baseURL apiKey in
  (List.length sent <= maxAPIRedirects)%nat /\
  (sent <> [] -> exists endpoint u, checksURL baseURL = inl endpoint /\ ParseURL endpoint = inl u /\ forall x, x ∈ sent -> u_host x = u_host u) /\
  forall checks, r = inl checks -> exists resp, transport sent = Replied resp /\ 200 <= re_status resp <= 299 /\
    decode (take maxListBytes (re_body resp)) = inl checks /\ forall c, c ∈ checks -> ck_unique_key c <> ""%string -> ID c <> ""%string.
Proof.
  unfold Fetch. destruct (is_nil apiKey); [cbn; split; [lia|done]|]. destruct (checksURL baseURL) as [endpoint|e] eqn:Ec; [|cbn; split; [lia|done]].
  destruct (ParseURL endpoint) as [u|e] eqn:Eu; [|cbn; split; [lia|done]].
  pose proof (client_do_bounded api_policy transport maxAPIRedirects api_policy_limit maxAPIRedirects u ltac:(unfold maxAPIRedirects; lia)) as Hb.
  destruct (client_do_allowed api_policy transport maxAPIRedirects [] u) as (more & E & Ha). cbn zeta in *.
  pose proof (client_do_response api_policy transport maxAPIRedirects [] u) as Hr.
  destruct (client_do _ _ _ _ _) as [r sent]. cbn [fst snd app] in *. subst sent. split; [done|]. split.
  - intros _. exists endpoint, u. split; [done|]. split; [done|]. intros x [->|Hx]%elem_of_cons; [done|].
    apply list_elem_of_split in Hx as (p & q & ->). specialize (Ha (u :: p) x q eq_refl ltac:(done)). unfold api_policy in Ha.
    destruct (_ <=? _)%nat; [done|]. by case_bool_decide as Hd.
  - intros checks. destruct r as [resp|]; [|done]. destruct (re_status resp =? 401); [done|].
    destruct ((re_status resp <? 200) || (299 <? re_status resp)) eqn:Es; [done|]. destruct (decode _) as [cs|] eqn:Ed; [|done].
    destruct (existsb _ cs) eqn:Ex; [done|]. intros [= ->]. exists resp. split; [by apply Hr|]. bsimpl. split; [lia|]. split; [done|].
    intros c Hc Hk Hid. rewrite <- not_true_iff_false in Ex. apply Ex, existsb_exists. exists c. rewrite <- list_elem_of_In. split; [done|].
    rewrite Hid. by destruct (String.eqb_spec (ck_unique_key c) "").
Qed.

End Listing.

(** ** RDAP *)

Definition maxRDAPAnswerBytes : nat := Z.to_nat (Z.shiftl 1 20).
Definition maxRDAPBootstrapBytes : nat := Z.to_nat (Z.shiftl 4 20).
Definition IANABootstrapURL : bytes := bstr "https://data.iana.org/rdap/dns.json".

Section RDAP.
Context `{GoText} `{URLTexts}.

(** [CheckRedirect] of [rdapClient] ([CheckRedirect] of [Probe]), with its texts. *)
Definition rdap_policy (next : Url) (via : list Url) : option bytes :=
  match via with
  | [] => None
  | first :: _ =>
      match CheckRedirect (List.length via) (u_scheme first, u_host first) (u_scheme next, u_host next) with
      | None => None
      | Some TooManyRedirects => Some (bstr "stopped after " ++ Itoa (Z.of_nat (List.length via)) ++ bstr " redirects")
      | Some LeavesHTTPS => Some (bstr "refused a redirect from https to http (" ++ URLRedacted next ++ bstr ")")
      | Some LeavesHost => Some (bstr "refused a redirect to another host (" ++ u_host next ++ bstr ")")
      end
  end.

(** [getRDAP]: the status, and the body or the error; with the requests made. *)
Definition getRDAP (transport : list Url -> Reply) (url : bytes) (limit : nat) : Z * (bytes + bytes) * list Url :=
  match ParseURL url with
  | inr e => (0, inr e, [])
  | inl u =>
      let '(r, sent) := client_do rdap_policy transport maxRDAPRedirects [] u in
      (match r with
       | inr e => (0, inr (get_error (List.last sent u) e))
       | inl resp =>
           if negb (re_status resp =? 200) then (re_status resp, inr (url ++ bstr " answered " ++ re_text resp))
           else
             let '(body, err) := read_at_most (S limit) (re_body resp) (re_body_err resp) in
             match err with
             | Some e => (re_status resp, inr (bstr "read the answer from " ++ url ++ bstr ": " ++ e))
             | None =>
                 if (limit <? List.length body)%nat then
                   (re_status resp, inr (bstr "the answer from " ++ url ++ bstr " is too large (over " ++ Itoa (Z.of_nat limit) ++ bstr " bytes)"))
                 else (re_status resp, inl body)
             end
       end, sent)
  end.

(** [fetchBootstrap], with the decoding of its services. *)
Definition fetchBootstrap (transport : list Url -> Reply) (decode : bytes -> list (list (list bytes)) + bytes) (src : bytes) : rdapBootstrap + bytes :=
  match snd (fst (getRDAP transport src maxRDAPBootstrapBytes)) with
  | inr e => inr e
  | inl body =>
      match decode body with
      | inr e => inr (src ++ bstr " is not a bootstrap file: " ++ e)
      | inl doc =>
          let services := flat_map (fun svc => match svc with tlds :: urls :: _ => [{| sv_tlds := tlds; sv_urls := urls |}] | _ => [] end) doc in
          match services with [] => inr (src ++ bstr " lists no RDAP services") | _ => inl {| bt_fetched := zero_time; bt_services := services |} end
      end
  end.

(** What [runOnceDomain] asks a registry, with the decoding of its answer. *)
Definition askRDAP (transport : list Url -> Reply) (decode : bytes -> rdapDomainAnswer + bytes) (url : bytes) : rdapReply :=
  match fst (getRDAP transport url maxRDAPAnswerBytes) with
  | (status, inr e) => ReplyErr status e
  | (_, inl body) => ReplyBody (decode body)
  end.

Lemma rdap_policy_limit next via : (maxRDAPRedirects <= List.length via)%nat -> rdap_policy next via <> None.
Proof.
  intros Hl. unfold rdap_policy, CheckRedirect. destruct via as [|v via]; [cbn in Hl; unfold maxRDAPRedirects in Hl; lia|].
  destruct (Nat.leb_spec maxRDAPRedirects (List.length (v :: via))); [done|lia].
Qed.

(** a registry answers for itself. Whatever is redirected where, the
    requests behind an RDAP answer all go to the host that was asked (letter
    case apart), stay on https if they started there, and are at most five;
    and the body taken from them is whole: a response with status 200 and no
    more bytes than the limit. *)
Theorem rdap_stays_home transport url limit : let '(status, r, sent) := getRDAP transport url limit in
  (List.length sent <= maxRDAPRedirects)%nat /\
  (sent <> [] -> exists u, ParseURL url = inl u /\ forall x, x ∈ sent ->
     x = u \/ EqualFold (u_host x) (u_host u) = true /\ (u_scheme u = "https"%string -> u_scheme x = "https"%string)) /\
  forall body, r = inl body -> exists resp, transport sent = Replied resp /\ re_status resp = 200 /\ status = 200 /\
    re_body resp = body /\ re_body_err resp = None /\ (List.length body <= limit)%nat.
Proof.
  unfold getRDAP. destruct (ParseURL url) as [u|e] eqn:Eu; [|cbn; split; [unfold maxRDAPRedirects; lia|done]].
  pose proof (client_do_bounded rdap_policy transport maxRDAPRedirects rdap_policy_limit maxRDAPRedirects u ltac:(unfold maxRDAPRedirects; lia)) as Hb.
  destruct (client_do_allowed rdap_policy transport maxRDAPRedirects [] u) as (more & E & Ha). cbn zeta in *.
  pose proof (client_do_response rdap_policy transport maxRDAPRedirects [] u) as Hr.
  destruct (client_do _ _ _ _ _) as [r sent]. cbn [fst snd app] in *. subst sent.
  assert (Hx : forall x, x ∈ u :: more -> x = u \/ EqualFold (u_host x) (u_host u) = true /\ (u_scheme u = "https"%string -> u_scheme x = "https"%string)).
  { intros x [->|Hx]%elem_of_cons; [by left|]. right. apply list_elem_of_split in Hx as (p & q & ->). specialize (Ha (u :: p) x q eq_refl ltac:(done)).
    unfold rdap_policy, CheckRedirect in Ha. cbn [app fst snd] in Ha. destruct (_ <=? _)%nat; [done|].
    destruct (String.eqb_spec (u_scheme u) "https"), (String.eqb_spec (u_scheme x) "https"); cbn [andb negb] in Ha; try done;
      by destruct (EqualFold (u_host x) (u_host u)). }
  destruct r as [resp|e]; [|cbn; split; [done|]; split; [intros _; by exists u|done]].
  destruct (Z.eqb_spec (re_status resp) 200) as [Es|]; cbn [negb]; [|split; [done|]; split; [intros _; by exists u|done]].
  destruct (read_at_most _ _ _) as [body [e|]] eqn:Er; [split; [done|]; split; [intros _; by exists u|done]|].
  destruct (Nat.ltb_spec limit (List.length body)); (split; [done|]; split; [intros _; by exists u|]); [by intros b|].
  intros b [= <-]. exists resp. split; [by apply Hr|]. unfold read_at_most in Er.
  destruct (Nat.leb_spec (S limit) (List.length (re_body resp))); simplify_eq; [|done].
  rewrite length_take in *. lia.
Qed.

Context `{URLs}.

(** [runOnceDomain] with all it calls: the file is fetched from [src] (IANA's,
    or the executor's own), the registry asked over [asking]. *)
Definition probeDomain (ctx : CtxErr) (held : option rdapBootstrap) (src : option bytes) (fetching : list Url -> Reply) (asking : list Url -> Reply)
    (decodeFile : bytes -> list (list (list bytes)) + bytes) (decodeAnswer : bytes -> rdapDomainAnswer + bytes)
    (j : Job) (now : Time) (attempt : Z) (started ended : Time) : option rdapBootstrap * RunResult :=
  runOnceDomain ctx held (fetchBootstrap fetching decodeFile (default IANABootstrapURL src)) (askRDAP asking decodeAnswer) j now attempt started ended.

End RDAP.

(** ** Servers *)

(** URLs of a scheme, a host and a path. *)
#[local] Instance plain_urls : URLTexts := {|
  ParseURL s :=
    let of_ scheme n := match Split "/"%char (drop n s) with
                        | host :: path => inl {| u_scheme := scheme; u_host := host; u_path := mjoin (map (cons "/"%char) path); u_query := []; u_fragment := [] |}
                        | [] => inr [] end in
    if has_prefix s (bstr "https://") then of_ "https"%string 8%nat else if has_prefix s (bstr "http://") then of_ "http"%string 7%nat else inr (bstr "no scheme");
  URLString u := bstr (u_scheme u) ++ bstr "://" ++ u_host u ++ u_path u;
  URLRedacted u := u_host u; get_error u e := bstr "Get: " ++ e; redacted_error _ e := e; redacted_host u := u |}.
#[local] Instance no_libraries : HcLibs := {| url_path _ := None; zone_known _ := true; ParseStandard _ := None |}.

Definition at_url (s : string) : Url :=
  match ParseURL (bstr s) with inl u => u | inr _ => {| u_scheme := ""; u_host := []; u_path := []; u_query := []; u_fragment := [] |} end.
Definition answering (hops : list string) : list Url -> Reply := fun sent =>
  match hops !! (List.length sent - 1)%nat with
  | Some loc => Redirected (at_url loc)
  | None => Replied {| re_status := 200; re_text := bstr "200 OK"; re_body := bstr "{}"; re_body_err := None |}
  end.
Definition no_checks (b : bytes) : list Check + bytes := inl [].
Definition listing (base : string) (hops : list string) : option (list string) :=
  let '(r, sent) := Fetch (answering hops) no_checks (bstr base) (bstr "key") in
  match r with inl _ => Some (map (fun u => str (URLString u)) sent) | inr _ => None end.

Example listings :
  listing "https://hc.example" [] = Some ["https://hc.example/api/v3/checks/"]%string /\
  listing "https://hc.example/api/v3/" [] = Some ["https://hc.example/api/v3/checks/"]%string /\
  listing "http://hc.example" ["https://hc.example/api/v3/checks/"]%string = Some ["http://hc.example/api/v3/checks/"; "https://hc.example/api/v3/checks/"]%string /\
  listing "https://hc.example" ["https://evil.example/"]%string = None /\ listing "hc.example" [] = None /\
  listing "https://hc.example" (replicate 10 "https://hc.example/a"%string) = None.
Proof. vm_compute. repeat split. Qed.

(** The key is kept to its host, not to https: a redirect of the host's own
    to plain http is followed, and the key then passes in the clear. A
    registry is not believed over such a redirect. *)
Example key_in_the_clear :
  listing "https://hc.example" ["http://hc.example/api/v3/checks/"]%string = Some ["https://hc.example/api/v3/checks/"; "http://hc.example/api/v3/checks/"]%string /\
  snd (fst (getRDAP
    (answering ["http://rdap.example/domain/a"]%string) (bstr "https://rdap.example/domain/a") 100)) =
    inr (bstr "Get: refused a redirect from https to http (rdap.example)").
Proof. vm_compute. repeat split. Qed.
