(* ===== verification/EnvConfig.v ===== *)
(** * Configuration from the environment ([config/*.go])

    The loaders of the environment variables, over a function for
    [os.Getenv] (empty where a variable is unset), and what they let through. *)
From S2P Require Import Prelude GoTime Tail Utf8 Domain Failure Redact GoStrings.
Open Scope Z_scope.

(** [os.Getenv]. *)
Abbreviation Env := (string -> bytes).

(** The errors name the variable, and quote its value where it is no secret. *)
Inductive ConfigError := NotWhole (name : string) (value : bytes) (most : Z) | NotBaseURL.

(** [strings.TrimSpace(os.Getenv(name))] as a whole number from 0 to [most],
    [def] where the variable is unset or blank. *)
Definition whole_number (env : Env) (name : string) (def most : Z) : Z + ConfigError :=
  let v := TrimSpace (env name) in
  if is_nil v then inl def
  else match Atoi v with
  | Some n => if (n <? 0) || (most <? n) then inr (NotWhole name v most) else inl n
  | None => inr (NotWhole name v most)
  end.

(** ** Retention ([retention.go]) *)

Definition DefaultEventRetentionDays : Z := 30.
Definition DefaultJobRunRetentionDays : Z := 90.
Definition DefaultDeliveryRetentionDays : Z := 7.
Definition DefaultPingRetentionDays : Z := 30.
Definition maxRetentionDays : Z := 100 * 365.
Definition EnvEventRetentionDays : string := "TEND_RETENTION_EVENTS_DAYS".
Definition EnvJobRunRetentionDays : string := "TEND_RETENTION_RUNS_DAYS".
Definition EnvDeliveryRetentionDays : string := "TEND_RETENTION_DELIVERIES_DAYS".
Definition EnvPingRetentionDays : string := "TEND_RETENTION_PINGS_DAYS".

Record Retention := { rt_events : Duration; rt_job_runs : Duration; rt_deliveries : Duration; rt_pings : Duration; rt_runs_by_default : bool }.

(** [time.Duration(days) * 24 * time.Hour], in 64 bits. *)
Definition days (n : Z) : Duration := wrap64 (wrap64 (n * 24) * Hour).

(** [LoadRetention]: the loop stops at the first variable that is wrong. *)
Definition LoadRetention (env : Env) : Retention + ConfigError :=
  match whole_number env EnvEventRetentionDays DefaultEventRetentionDays maxRetentionDays with
  | inr e => inr e
  | inl events =>
      match whole_number env EnvJobRunRetentionDays DefaultJobRunRetentionDays maxRetentionDays with
      | inr e => inr e
      | inl runs =>
          match whole_number env EnvDeliveryRetentionDays DefaultDeliveryRetentionDays maxRetentionDays with
          | inr e => inr e
          | inl deliveries =>
              match whole_number env EnvPingRetentionDays DefaultPingRetentionDays maxRetentionDays with
              | inr e => inr e
              | inl pings => inl {| rt_events := days events; rt_job_runs := days runs; rt_deliveries := days deliveries; rt_pings := days pings;
                                    rt_runs_by_default := is_nil (TrimSpace (env EnvJobRunRetentionDays)) |}
              end
          end
      end
  end.

(** [Retention.String]. *)
Definition window_text (d : Duration) : bytes := if d =? 0 then bstr "kept forever" else Itoa (Z.quot d (24 * Hour)) ++ bstr "d".
Definition Retention_String (r : Retention) : bytes :=
  let note := if rt_runs_by_default r then bstr " (default, up from 30d before v0.3.0; set " ++ bstr EnvJobRunRetentionDays ++ bstr " to change)" else [] in
  bstr "events " ++ window_text (rt_events r) ++ bstr ", job runs " ++ window_text (rt_job_runs r) ++ note
  ++ bstr ", deliveries " ++ window_text (rt_deliveries r) ++ bstr ", heartbeat pings " ++ window_text (rt_pings r).

(** ** The other settings *)

(** [LoadDeliveryHold]. *)
Definition EnvDeliveryHoldMinutes : string := "TEND_DELIVERY_HOLD_MINUTES".
Definition DefaultDeliveryHoldMinutes : Z := 15.
Definition maxDeliveryHoldMinutes : Z := 24 * 60.
Definition LoadDeliveryHold (env : Env) : Duration + ConfigError :=
  match whole_number env EnvDeliveryHoldMinutes DefaultDeliveryHoldMinutes maxDeliveryHoldMinutes with
  | inr e => inr e
  | inl minutes => inl (wrap64 (minutes * Minute))
  end.

(** [LoadPingBodyLimit]. *)
Definition EnvPingBodyKB : string := "TEND_PING_BODY_KB".
Definition DefaultPingBodyKB : Z := 10.
Definition MaxPingBodyKB : Z := 100.
Definition LoadPingBodyLimit (env : Env) : Z + ConfigError :=
  match whole_number env EnvPingBodyKB DefaultPingBodyKB MaxPingBodyKB with
  | inr e => inr e
  | inl kb => inl (kb * 1000)
  end.

(** [LoadAlertOutputLines]. *)
Definition EnvAlertOutputLines : string := "TEND_ALERT_OUTPUT_LINES".
Definition LoadAlertOutputLines (env : Env) : Z + ConfigError := whole_number env EnvAlertOutputLines OutputTailLines MaxOutputTailLines.

(** [LoadInstance]; the host's name is the environment's too. *)
Definition EnvInstance : string := "TEND_INSTANCE".
Definition LoadInstance (env : Env) (hostname : option bytes) : bytes :=
  let v := TrimSpace (env EnvInstance) in
  if is_nil v then default [] hostname else v.

(** What [url.Parse] reads of a base URL. *)
Record BaseParts := { bp_scheme : string; bp_host : string; bp_user : bool; bp_query : string; bp_force_query : bool; bp_fragment : string; bp_opaque : string }.
Class BaseURLs := base_Parse : bytes -> option BaseParts.

Definition slash (c : ascii) : bool := Ascii.eqb c "/".
Definition TrimSlashes (s : bytes) : bytes := rev (drop_while slash (rev s)).

(** [LoadBaseURL]. *)
Definition EnvBaseURL : string := "TEND_BASE_URL".
Definition base_ok (u : BaseParts) : bool :=
  (String.eqb (bp_scheme u) "http" || String.eqb (bp_scheme u) "https") && negb (String.eqb (bp_host u) "") && negb (bp_user u)
  && String.eqb (bp_query u) "" && negb (bp_force_query u) && String.eqb (bp_fragment u) "" && String.eqb (bp_opaque u) "".
Definition LoadBaseURL `{BaseURLs} (env : Env) : bytes + ConfigError :=
  let v := TrimSpace (env EnvBaseURL) in
  if is_nil v then inl []
  else match base_Parse v with
  | Some u => if base_ok u then inl (TrimSlashes v) else inr NotBaseURL
  | None => inr NotBaseURL
  end.

(** [Load]: the driver, the DSN and the master key. *)
Record Config := { cf_postgres : bool; cf_dsn : bytes; cf_master_key : bytes }.
Definition Load (env : Env) : Config :=
  let db := env "TEND_DB" in
  {| cf_postgres := has_prefix db (bstr "postgres://") || has_prefix db (bstr "postgresql://"); cf_dsn := db; cf_master_key := env "TEND_MASTER_KEY" |}.

(** ** What is let through *)

(** The number a variable stands for. *)
Definition stands_for (env : Env) (name : string) (def most n : Z) : Prop :=
  0 <= n <= most /\ (TrimSpace (env name) = [] /\ n = def \/ TrimSpace (env name) <> [] /\ Atoi (TrimSpace (env name)) = Some n).

Lemma is_nil_true (l : bytes) : is_nil l = true <-> l = [].
Proof. by destruct l. Qed.

Lemma whole_number_spec env name def most : 0 <= def <= most ->
  match whole_number env name def most with
  | inl n => stands_for env name def most n
  | inr e => e = NotWhole name (TrimSpace (env name)) most /\ forall n, ~ stands_for env name def most n
  end.
Proof.
  intros Hd. unfold whole_number, stands_for. destruct (is_nil (TrimSpace (env name))) eqn:En.
  - apply is_nil_true in En. split; [done|]. by left.
  - assert (Hn : TrimSpace (env name) <> []) by (intros E; by rewrite E in En).
    destruct (Atoi (TrimSpace (env name))) as [n|] eqn:Ea; [|split; [done|]; intros n [_ [[? _]|[_ ?]]]; congruence].
    destruct (Z.ltb_spec n 0), (Z.ltb_spec most n); simpl;
      first [split; [done|]; intros m [Hm [[? _]|[_ [= ->]]]]; [congruence|lia] | split; [lia|by right]].
Qed.

Lemma days_exact n : 0 <= n <= maxRetentionDays -> days n = n * 24 * Hour /\ 0 <= days n <= max_int64.
Proof.
  intros Hn. unfold days, maxRetentionDays in *. assert (Hb : 0 <= n * 24 * Hour <= max_int64) by (unfold Hour, Minute, Second, max_int64 in *; lia).
  rewrite (wrap64_id (n * 24)) by (unfold int64_range, min_int64, max_int64, Hour, Minute, Second in *; lia).
  rewrite wrap64_id by (unfold int64_range, min_int64 in *; lia). by split.
Qed.

(** the retention windows are what the environment says or nothing: each is
    the number of days its variable gives, or its default where that is unset
    or blank, exactly, without a wrap; and a value that is not a whole number of
    days from 0 to 36500 is refused by name, the first such variable's, never
    replaced. *)
Theorem LoadRetention_spec env : match LoadRetention env with
  | inl r =>
      (exists n, stands_for env EnvEventRetentionDays 30 36500 n /\ rt_events r = n * 24 * Hour) /\
      (exists n, stands_for env EnvJobRunRetentionDays 90 36500 n /\ rt_job_runs r = n * 24 * Hour) /\
      (exists n, stands_for env EnvDeliveryRetentionDays 7 36500 n /\ rt_deliveries r = n * 24 * Hour) /\
      (exists n, stands_for env EnvPingRetentionDays 30 36500 n /\ rt_pings r = n * 24 * Hour) /\
      Forall (fun d => 0 <= d <= max_int64) [rt_events r; rt_job_runs r; rt_deliveries r; rt_pings r]
  | inr e => exists before name def after, [(EnvEventRetentionDays, 30); (EnvJobRunRetentionDays, 90); (EnvDeliveryRetentionDays, 7); (EnvPingRetentionDays, 30)]
        = before ++ (name, def) :: after /\
      e = NotWhole name (TrimSpace (env name)) 36500 /\ (forall n, ~ stands_for env name def 36500 n) /\
      forall name' def', (name', def') ∈ before -> exists n, stands_for env name' def' 36500 n
  end.
Proof.
  unfold LoadRetention.
  pose proof (whole_number_spec env EnvEventRetentionDays DefaultEventRetentionDays maxRetentionDays ltac:(by unfold DefaultEventRetentionDays, maxRetentionDays)) as H1.
  pose proof (whole_number_spec env EnvJobRunRetentionDays DefaultJobRunRetentionDays maxRetentionDays ltac:(by unfold DefaultJobRunRetentionDays, maxRetentionDays)) as H2.
  pose proof (whole_number_spec env EnvDeliveryRetentionDays DefaultDeliveryRetentionDays maxRetentionDays ltac:(by unfold DefaultDeliveryRetentionDays, maxRetentionDays)) as H3.
  pose proof (whole_number_spec env EnvPingRetentionDays DefaultPingRetentionDays maxRetentionDays ltac:(by unfold DefaultPingRetentionDays, maxRetentionDays)) as H4.
  change maxRetentionDays with 36500 in *. change DefaultEventRetentionDays with 30 in *. change DefaultJobRunRetentionDays with 90 in *.
  change DefaultDeliveryRetentionDays with 7 in *. change DefaultPingRetentionDays with 30 in *.
  destruct (whole_number env EnvEventRetentionDays _ _) as [n1|e1].
  2:{ exists [], EnvEventRetentionDays, 30. eexists. split; [reflexivity|]. split; [apply H1|]. split; [apply H1|]. by intros ? ? ?%elem_of_nil. }
  destruct (whole_number env EnvJobRunRetentionDays _ _) as [n2|e2].
  2:{ exists [(EnvEventRetentionDays, 30)], EnvJobRunRetentionDays, 90. eexists. split; [reflexivity|]. split; [apply H2|]. split; [apply H2|].
      intros ? ? [= -> ->]%list_elem_of_singleton. by exists n1. }
  destruct (whole_number env EnvDeliveryRetentionDays _ _) as [n3|e3].
  2:{ exists [(EnvEventRetentionDays, 30); (EnvJobRunRetentionDays, 90)], EnvDeliveryRetentionDays, 7. eexists. split; [reflexivity|]. split; [apply H3|]. split; [apply H3|].
      intros ? ? [[= -> ->]|[= -> ->]%list_elem_of_singleton]%elem_of_cons; by eexists. }
  destruct (whole_number env EnvPingRetentionDays _ _) as [n4|e4].
  2:{ exists [(EnvEventRetentionDays, 30); (EnvJobRunRetentionDays, 90); (EnvDeliveryRetentionDays, 7)], EnvPingRetentionDays, 30. eexists. split; [reflexivity|].
      split; [apply H4|]. split; [apply H4|]. intros ? ? [[= -> ->]|[[= -> ->]|[= -> ->]%list_elem_of_singleton]%elem_of_cons]%elem_of_cons; by eexists. }
  destruct (days_exact n1 (proj1 H1)), (days_exact n2 (proj1 H2)), (days_exact n3 (proj1 H3)), (days_exact n4 (proj1 H4)). cbn [rt_events rt_job_runs rt_deliveries rt_pings].
  split; [by exists n1|]. split; [by exists n2|]. split; [by exists n3|]. split; [by exists n4|]. repeat constructor; tauto.
Qed.

(** The other limits are within their bounds. *)
Lemma LoadDeliveryHold_bounds env d : LoadDeliveryHold env = inl d -> 0 <= d <= 24 * Hour.
Proof.
  unfold LoadDeliveryHold. pose proof (whole_number_spec env EnvDeliveryHoldMinutes DefaultDeliveryHoldMinutes maxDeliveryHoldMinutes ltac:(by unfold DefaultDeliveryHoldMinutes, maxDeliveryHoldMinutes)) as Hw.
  destruct (whole_number _ _ _ _) as [n|]; [|done]. intros [= <-]. destruct Hw as [Hn _]. unfold maxDeliveryHoldMinutes in Hn.
  rewrite wrap64_id; unfold int64_range, min_int64, max_int64, Hour, Minute, Second in *; lia.
Qed.
Lemma LoadPingBodyLimit_bounds env n : LoadPingBodyLimit env = inl n -> 0 <= n <= 100000.
Proof.
  unfold LoadPingBodyLimit. pose proof (whole_number_spec env EnvPingBodyKB DefaultPingBodyKB MaxPingBodyKB ltac:(by unfold DefaultPingBodyKB, MaxPingBodyKB)) as Hw.
  destruct (whole_number _ _ _ _) as [k|]; [|done]. intros [= <-]. destruct Hw as [Hk _]. unfold MaxPingBodyKB in Hk. lia.
Qed.

Definition some_env : Env := fun name => if String.eqb name EnvEventRetentionDays then bstr " 365 " else if String.eqb name EnvPingRetentionDays then bstr "0" else [].
Example some_retention : match LoadRetention some_env with
  | inl r => str (Retention_String r)
  | inr _ => ""%string end = "events 365d, job runs 90d (default, up from 30d before v0.3.0; set TEND_RETENTION_RUNS_DAYS to change), deliveries 7d, heartbeat pings kept forever"%string.
Proof. vm_compute. reflexivity. Qed.
Example bad_retention : LoadRetention (fun name => if String.eqb name EnvDeliveryRetentionDays then bstr "30d" else []) = inr (NotWhole EnvDeliveryRetentionDays (bstr "30d") 36500).
Proof. vm_compute. reflexivity. Qed.
