(* ===== verification/Sweep.v ===== *)
(** * The retention sweep ([sweeper] of [cli/cli.go])

    What [tend serve] does once a day: prune what is older than the windows of
    [EnvConfig], then give the space back. How reclaiming the space went is
    given; [Reclaim] has it for SQLite. *)
From S2P Require Import Prelude GoTime Domain Sql Schema StoreDeliveries EnvConfig.
Open Scope Z_scope.

Inductive Pruned := PrEvents | PrJobRuns | PrDeliveries | PrPings.
Inductive SweepLog := PruneFailed (what : Pruned) | PrunedRows (what : Pruned) (n : Z) | NotReclaimed | ReclaimFailed | Reclaimed (n : Z).

(** What [ReclaimSpace] answers. *)
Inductive Reclaim := TooLarge | ReclaimError | Freed (n : Z).

Section Sweep.
Context `{World}.

(** The closure [prune] of [sweeper.run]: the rows deleted and what is logged. *)
Definition prune (ctxDone : bool) (what : Pruned) (fn : Time -> Store Z) (window : Duration) (now : Time) : Store (Z * list SweepLog) :=
  if window <=? 0 then ret (0, [])
  else
    let* r := try (fn (TimeAdd now (- window))) in
    ret (match r with
         | Error _ => (0, if ctxDone then [] else [PruneFailed what])
         | Ok n => if 0 <? n then (n, [PrunedRows what n]) else (0, [])
         end).

(** [sweeper.run]; [ctxDone] says whether the context had ended at each of its
    tests. It answers what is logged and [warnedTooLarge]. *)
Definition sweep (rt : Retention) (ctxDone : nat -> bool) (reclaim : Reclaim) (warned : bool) (now : Time) : Store (list SweepLog * bool) :=
  let* '(n1, l1) := prune (ctxDone 0%nat) PrEvents PruneEvents (rt_events rt) now in
  let* '(n2, l2) := prune (ctxDone 1%nat) PrJobRuns PruneJobRuns (rt_job_runs rt) now in
  let* '(n3, l3) := prune (ctxDone 2%nat) PrDeliveries PruneDeliveries (rt_deliveries rt) now in
  let* '(n4, l4) := prune (ctxDone 3%nat) PrPings PruneHeartbeatPings (rt_pings rt) now in
  let logs := l1 ++ l2 ++ l3 ++ l4 in
  if (n1 + n2 + n3 + n4 =? 0) || ctxDone 4%nat then ret (logs, warned)
  else ret (match reclaim with
            | TooLarge => (logs ++ (if warned then [] else [NotReclaimed]), true)
            | ReclaimError => (logs ++ (if ctxDone 5%nat then [] else [ReclaimFailed]), warned)
            | Freed n => (logs ++ (if 0 <? n then [Reclaimed n] else []), warned)
            end).

(** ** What is left *)

(** A table is as it was, or without exactly the rows a window lets go; it is
    the latter where the database does its work. *)
Definition cut {R} (window : Duration) (p : R -> bool) (t t' : Table R) : Prop :=
  (t' = t \/ 0 < window /\ t' = delete_where p t) /\ ((forall n, fault n = NoFault) -> 0 < window -> t' = delete_where p t).

(** One prune: its table is cut, the rest is left alone. *)
Definition cuts {R} (get : DB -> Table R) (set : (Table R -> Table R) -> DB -> DB) (p : DB -> R -> bool) (window : Duration) (m : Store (Z * list SweepLog)) : Prop :=
  forall s, let d := st_db s in exists a s', m s = (Ok a, s') /\ st_db s' = set (fun _ => get (st_db s')) d /\ cut window (p d) (get d) (get (st_db s')).

Lemma autocommit_delete {R} (set : (Table R -> Table R) -> DB -> DB) (p : DB -> R -> bool) (c : DB -> Z) s :
  let '(r, s') := autocommit (let* n := query c in exec (fun d => set (delete_where (p d)) d) ;;; ret n) s in
  (st_db s' = st_db s \/ st_db s' = set (delete_where (p (st_db s))) (st_db s)) /\
  ((forall n, fault n = NoFault) -> st_db s' = set (delete_where (p (st_db s))) (st_db s)).
Proof.
  unfold autocommit, tx, bind, query, exec, ret. destruct (fault (st_tick s)) eqn:E1; cbn [st_db st_tick];
    try destruct (fault (S (st_tick s))) eqn:E2; simpl; (split; [auto|]); intros Hf; rewrite ?Hf in *; try done; congruence.
Qed.

Lemma prune_cuts {R} (get : DB -> Table R) (set : (Table R -> Table R) -> DB -> DB) (p : Time -> DB -> R -> bool) c ctxDone what window now fn :
  (forall d f, get (set f d) = f (get d)) -> (forall d, set (fun _ => get d) d = d) -> (forall d f g, (f (get d) = g (get d)) -> set f d = set g d) ->
  (forall before, fn before = autocommit (let* n := query (c before) in exec (fun d => set (delete_where (p before d)) d) ;;; ret n)) ->
  cuts get set (p (now - window)) window (prune ctxDone what fn window now).
Proof.
  intros Hget Hid Hext Hfn s d. unfold prune. destruct (Z.leb_spec window 0) as [Hw|Hw].
  - exists (0, []), s. split; [done|]. split; [by rewrite Hid|]. split; [by left|]. lia.
  - rewrite Hfn. unfold bind at 1, try. change (TimeAdd now (- window)) with (now + - window). replace (now + - window) with (now - window) by lia.
    pose proof (autocommit_delete set (p (now - window)) (c (now - window)) s) as Hd. destruct (autocommit _ s) as [r s'].
    eexists. exists s'. split; [reflexivity|]. fold d in Hd. destruct Hd as [Hd Hr]. assert (Hset : st_db s' = set (fun _ => get (st_db s')) d).
    { destruct Hd as [->| ->]; [by rewrite Hid|]. apply Hext. by rewrite Hget. }
    split; [exact Hset|]. split.
    + destruct Hd as [->| ->]; [by left|]. right. by rewrite Hget.
    + intros Hf _. by rewrite (Hr Hf), Hget.
Qed.

(** a sweep takes only what the windows let go. Whatever faults it meets,
    each history is as it was, or without exactly the entries older than its
    window: events no pending delivery and no held alert needs, runs that have
    ended, deliveries that are not pending, pings; the latter where the
    database does its work and the window is not 0, and a window of 0 keeps
    all. Nothing else is touched. *)
Theorem sweep_spec rt ctxDone reclaim warned now s :
  let d := st_db s in let d' := st_db (snd (sweep rt ctxDone reclaim warned now s)) in
  cut (rt_events rt) (fun e => (ev_created_at e <? now - rt_events rt) && negb (event_needed d e)) (db_events d) (db_events d') /\
  cut (rt_job_runs rt) (fun r => (rr_created_at r <? now - rt_job_runs rt) && terminal (rr_status r)) (db_runs d) (db_runs d') /\
  cut (rt_deliveries rt) (fun r => (dl_created_at r <? now - rt_deliveries rt) && negb (bool_decide (dl_state r = DeliveryPending))) (db_deliveries d) (db_deliveries d') /\
  cut (rt_pings rt) (fun r => p_created_at (pr_ping r) <? now - rt_pings rt) (db_pings d) (db_pings d') /\
  d' = on_pings (fun _ => db_pings d') (on_deliveries (fun _ => db_deliveries d') (on_runs (fun _ => db_runs d') (on_events (fun _ => db_events d') d))).
Proof.
  intros d d'. unfold d', sweep.
  assert (H1 : cuts db_events on_events (fun d => prunable_event (now - rt_events rt) d) (rt_events rt) (prune (ctxDone 0%nat) PrEvents PruneEvents (rt_events rt) now)).
  { eapply (prune_cuts _ _ (fun before d => prunable_event before d)); [done|by intros []|by intros x f g E; unfold on_events; rewrite E|reflexivity]. }
  assert (H2 : cuts db_runs on_runs (fun _ => prunable_run (now - rt_job_runs rt)) (rt_job_runs rt) (prune (ctxDone 1%nat) PrJobRuns PruneJobRuns (rt_job_runs rt) now)).
  { eapply (prune_cuts _ _ (fun before _ => prunable_run before)); [done|by intros []|by intros x f g E; unfold on_runs; rewrite E|reflexivity]. }
  assert (H3 : cuts db_deliveries on_deliveries (fun _ => prunable_delivery (now - rt_deliveries rt)) (rt_deliveries rt) (prune (ctxDone 2%nat) PrDeliveries PruneDeliveries (rt_deliveries rt) now)).
  { eapply (prune_cuts _ _ (fun before _ => prunable_delivery before)); [done|by intros []|by intros x f g E; unfold on_deliveries; rewrite E|reflexivity]. }
  assert (H4 : cuts db_pings on_pings (fun _ => prunable_ping (now - rt_pings rt)) (rt_pings rt) (prune (ctxDone 3%nat) PrPings PruneHeartbeatPings (rt_pings rt) now)).
  { eapply (prune_cuts _ _ (fun before _ => prunable_ping before)); [done|by intros []|by intros x f g E; unfold on_pings; rewrite E|reflexivity]. }
  unfold bind. destruct (H1 s) as ([n1 l1] & s1 & -> & E1 & C1). destruct (H2 s1) as ([n2 l2] & s2 & -> & E2 & C2).
  destruct (H3 s2) as ([n3 l3] & s3 & -> & E3 & C3). destruct (H4 s3) as ([n4 l4] & s4 & -> & E4 & C4). fold d in C1, E1.
  match goal with |- context [st_db (snd (?m s4))] => assert (Es : st_db (snd (m s4)) = st_db s4) by (by destruct (_ || _)) end.
  rewrite Es. clear Es. revert C2 C3 C4. rewrite E4, E3, E2, E1. cbn. auto.
Qed.

End Sweep.
