(* ===== verification/Reclaim.v ===== *)
(** * Reclaiming space ([SQLiteStore.ReclaimSpace] of [store/sqlite.go])

    When a sweep gives the space it freed back to the file system, and how:
    in short steps within a budget, or by rewriting a small file once. What
    SQLite answers, the clock and the end of the context are an [Engine],
    which answers from what was asked of it so far; other queries that run
    between two steps are part of it. *)
From S2P Require Import Prelude GoTime Domain Heartbeat Sql Schema Failure Redact GoStrings JobSpec StoreDeliveries EnvConfig Sweep.
Open Scope Z_scope.

(** What is asked, oldest first. *)
Inductive Asked := Query (sql : string) | Exec (sql : string) | Clock | CtxErr | Conn | CloseConn.
#[export] Instance Asked_eq_dec : EqDecision Asked.
Proof. solve_decision. Defined.

Class Engine := {
  engine_query : list Asked -> string -> Z + bytes;
  engine_exec : list Asked -> string -> option bytes;
  engine_conn : list Asked -> option bytes;
  engine_now : list Asked -> Time;
  engine_done : list Asked -> bool }.

(** Its errors: [ErrCompactTooLarge] with the MiB that are free and those of
    the file, or a step's with its text. *)
Inductive ReclaimErr := ErrCompactTooLarge (free file : Z) | StepFailed (what : string) (err : bytes).

(** The settings. *)
Definition reclaimMinFreeBytes : Z := Z.shiftl 8 20.
Definition reclaimMinFreeRatio : spec_float := fdiv (float_of 1) (float_of 4).
Definition reclaimMaxVacuumBytes : Z := Z.shiftl 64 20.
Definition reclaimBudget : Duration := 2 * Second.
Definition incremental : Z := 2.

Definition step_sql : string := "PRAGMA incremental_vacuum(512)".
Definition switch_sql : string := "PRAGMA auto_vacuum = INCREMENTAL".
Definition vacuum_sql : string := "VACUUM".
Definition checkpoint_sql : string := "PRAGMA wal_checkpoint(TRUNCATE)".

(** A run of it: a value or an error, with what was asked. *)
Definition Run (A : Type) : Type := list Asked -> (A + ReclaimErr) * list Asked.
Definition rret {A} (a : A) : Run A := fun h => (inl a, h).
Definition rfail {A} (e : ReclaimErr) : Run A := fun h => (inr e, h).
Definition rbind {A B} (m : Run A) (k : A -> Run B) : Run B :=
  fun h => match m h with (inl a, h') => k a h' | (inr e, h') => (inr e, h') end.
Declare Scope reclaim_scope.
Notation "'rdo' x := m 'in' k" := (rbind m (fun x => k)) (at level 10, x name, m at level 200, k at level 200) : reclaim_scope.
Open Scope reclaim_scope.

Section Reclaim.
Context `{Engine}.

(** The closure [pragma]. *)
Definition pragma (name : string) : Run Z := fun h =>
  let sql := ("PRAGMA " +:+ name)%string in
  match engine_query h sql with inl n => (inl n, h ++ [Query sql]) | inr e => (inr (StepFailed sql e), h ++ [Query sql]) end.
Definition exec_sql (what sql : string) : Run unit := fun h =>
  match engine_exec h sql with None => (inl tt, h ++ [Exec sql]) | Some e => (inr (StepFailed what e), h ++ [Exec sql]) end.
Definition now : Run Time := fun h => (inl (engine_now h), h ++ [Clock]).
Definition ctx_done : Run bool := fun h => (inl (engine_done h), h ++ [CtxErr]).

(** The loop of incremental steps with [free] pages left. A turn that goes on
    has fewer left, so [free] turns are enough ([vacuum_steps_fuel]). *)
Fixpoint vacuum_steps (fuel : nat) (deadline : Time) (free : Z) : Run unit :=
  match fuel with
  | O => rret tt
  | S f =>
      if negb (0 <? free) then rret tt
      else
        rdo over := ctx_done in
        if over : bool then rret tt
        else
          rdo _ := exec_sql "incremental vacuum" step_sql in
          rdo left := pragma "freelist_count" in
          if free <=? left then rret tt
          else
            rdo t := now in
            if negb (Before t deadline) then rret tt else vacuum_steps f deadline left
  end.

(** Switching to incremental vacuum, on one connection. *)
Definition vacuum_once : Run unit := fun h =>
  match engine_conn h with
  | Some e => (inr (StepFailed "conn" e), h ++ [Conn])
  | None =>
      let '(r, h') := (rdo _ := exec_sql "vacuum" switch_sql in exec_sql "vacuum" vacuum_sql) (h ++ [Conn]) in
      (r, h' ++ [CloseConn])
  end.

(** Whether there is too little to reclaim. *)
Definition too_little (freeBytes fileBytes : Z) : bool :=
  (freeBytes <? reclaimMinFreeBytes) || SFltb (float_of freeBytes) (fmul reclaimMinFreeRatio (float_of fileBytes)).

(** The checkpoint, whose error is ignored. *)
Definition checkpoint : Run unit := fun h => (inl tt, snd (exec_sql "" checkpoint_sql h)).

(** [SQLiteStore.ReclaimSpace]. *)
Definition ReclaimSpace : Run Z :=
  rdo pageSize := pragma "page_size" in
  rdo pages := pragma "page_count" in
  rdo free := pragma "freelist_count" in
  let freeBytes := wrap64 (free * pageSize) in
  let fileBytes := wrap64 (pages * pageSize) in
  if too_little freeBytes fileBytes then rret 0
  else
    rdo mode := pragma "auto_vacuum" in
    rdo _ := (if mode =? incremental then
                rdo t := now in vacuum_steps (Z.to_nat free) (TimeAdd t reclaimBudget) free
              else if reclaimMaxVacuumBytes <? fileBytes then rfail (ErrCompactTooLarge (Z.shiftr freeBytes 20) (Z.shiftr fileBytes 20))
              else vacuum_once) in
    rdo _ := checkpoint in
    rdo after := pragma "page_count" in
    rret (wrap64 ((pages - after) * pageSize)).

(** What a sweep makes of it. *)
Definition reclaimed : Reclaim :=
  match fst (ReclaimSpace []) with
  | inl n => Freed n
  | inr (ErrCompactTooLarge _ _) => TooLarge
  | inr (StepFailed _ _) => ReclaimError
  end.

End Reclaim.

(** ** What it does to the file *)

Section Bounds.
Context `{Engine}.

Definition steps (h : list Asked) : nat := List.length (List.filter (fun a => bool_decide (a = Exec step_sql)) h).

Lemma steps_app h k : steps (h ++ k) = (steps h + steps k)%nat.
Proof. unfold steps. by rewrite List.filter_app, length_app. Qed.

Lemma no_steps h : Exec step_sql ∉ h -> steps h = 0%nat.
Proof. intros Hs. unfold steps. rewrite filter_none; [done|]. intros x Hx. apply bool_decide_eq_false. by intros ->. Qed.

(** In what is asked after [h], no step comes after a look at the clock that
    showed [deadline], nor after one at the context that showed its end. *)
Definition in_time (deadline : Time) (h q : list Asked) : Prop :=
  (forall p r, q = p ++ Clock :: r -> deadline <= engine_now (h ++ p) -> Exec step_sql ∉ r) /\
  (forall p r, q = p ++ CtxErr :: r -> engine_done (h ++ p) = true -> Exec step_sql ∉ r).

Lemma in_time_free deadline h q : Exec step_sql ∉ q -> in_time deadline h q.
Proof. intros Hq. split; intros p r -> _ Hr; apply Hq; apply elem_of_app; right; by right. Qed.

Lemma in_time_app deadline h q fin : in_time deadline h q -> Exec step_sql ∉ fin -> in_time deadline h (q ++ fin).
Proof.
  intros [H1 H2] Hf.
  assert (Hx : forall a p r, q ++ fin = p ++ a :: r -> (exists k, q = p ++ a :: k /\ r = k ++ fin) \/ Exec step_sql ∉ r).
  { intros a p r E. apply app_eq_inv in E as [(k & -> & E)|(k & -> & ->)]; [|right; set_solver].
    destruct k as [|b k]; cbn in E; [subst fin; right; set_solver|]. injection E as -> ->. left. by exists k. }
  split; intros p r E Hb; destruct (Hx _ p r E) as [(k & -> & ->)|]; try done; rewrite not_elem_of_app; (split; [|done]); [by eapply H1|by eapply H2].
Qed.

Lemma in_time_cons deadline h a q : (a = Clock -> deadline <= engine_now h -> Exec step_sql ∉ q) -> (a = CtxErr -> engine_done h = true -> Exec step_sql ∉ q) ->
  in_time deadline (h ++ [a]) q -> in_time deadline h (a :: q).
Proof.
  intros Hc Hd [H1 H2]. split; intros [|b p] r E; cbn in E; injection E as -> E; subst.
  - rewrite app_nil_r. by apply Hc.
  - intros Ht. apply (H1 p r eq_refl). by rewrite <- app_assoc.
  - rewrite app_nil_r. by apply Hd.
  - intros Ht. apply (H2 p r eq_refl). by rewrite <- app_assoc.
Qed.

(** The questions of the loop: [free] bounds its steps, and it asks nothing
    but these. *)
Lemma vacuum_steps_asks fuel deadline : forall free h, exists q, snd (vacuum_steps fuel deadline free h) = h ++ q /\
  (steps q <= Z.to_nat free)%nat /\ in_time deadline h q /\ Exec vacuum_sql ∉ q.
Proof.
  assert (Hno : forall h : list Asked, exists q, h = h ++ q /\ (steps q = 0)%nat /\ Exec step_sql ∉ q /\ Exec vacuum_sql ∉ q)
    by (intros h; exists []; rewrite app_nil_r; split; [done|split; [done|split; apply not_elem_of_nil]]).
  assert (Hstop : forall free (h : list Asked), exists q, h = h ++ q /\ (steps q <= Z.to_nat free)%nat /\ in_time deadline h q /\ Exec vacuum_sql ∉ q).
  { intros free h. destruct (Hno h) as (q & E & Es & H1 & H2). exists q. split; [done|]. split; [lia|]. split; [by apply in_time_free|done]. }
  induction fuel as [|f IH]; intros free h; cbn [vacuum_steps]; [apply Hstop|]. destruct (Z.ltb_spec 0 free) as [Hp|Hp]; cbn [negb]; [|apply Hstop].
  assert (Hend : forall tl, (Exec step_sql ∉ tl) -> (Exec vacuum_sql ∉ tl) -> engine_done h = false ->
    exists q, ((h ++ [CtxErr]) ++ [Exec step_sql]) ++ tl = h ++ q /\ (steps q <= Z.to_nat free)%nat /\ in_time deadline h q /\ Exec vacuum_sql ∉ q).
  { intros tl H1 H2 Hd. exists (CtxErr :: Exec step_sql :: tl). rewrite <- !app_assoc. split; [done|]. split.
    - change (CtxErr :: Exec step_sql :: tl) with ([CtxErr; Exec step_sql] ++ tl). rewrite steps_app.
      rewrite (no_steps tl) by done. change (steps [CtxErr; Exec step_sql]) with 1%nat. lia.
    - split; [|by rewrite !not_elem_of_cons]. apply in_time_cons; [done|by rewrite Hd|]. apply in_time_cons; [done..|]. by apply in_time_free. }
  unfold rbind at 1, ctx_done. destruct (engine_done h) eqn:Hd.
  { exists [CtxErr]. split; [done|]. split; [change (steps [CtxErr]) with 0%nat; lia|]. split; [|set_solver]. apply in_time_free. set_solver. }
  unfold rbind at 1, exec_sql. destruct (engine_exec _ step_sql); cbn [snd].
  { destruct (Hend [] ltac:(set_solver) ltac:(set_solver) eq_refl) as (q & E & Hq). rewrite app_nil_r in E. by exists q. }
  unfold rbind at 1, pragma. destruct (engine_query _ _) as [left|]; cbn [snd]; [|by apply Hend; set_solver].
  destruct (Z.leb_spec free left) as [Hl|Hl]; [by apply Hend; set_solver|].
  unfold rbind at 1, now. destruct (Before _ deadline) eqn:Hb; cbn [negb]; [|cbn [rret snd]; rewrite <- (app_assoc _ [Query _]); by apply Hend; set_solver].
  match goal with |- context [vacuum_steps f deadline left ?k] => destruct (IH left k) as (q & E & Hs & Ht & Hv) end. rewrite E.
  exists (CtxErr :: Exec step_sql :: Query "PRAGMA freelist_count" :: Clock :: q). rewrite <- !app_assoc. split; [done|]. split; [|split].
  - change (CtxErr :: Exec step_sql :: Query "PRAGMA freelist_count" :: Clock :: q) with ([CtxErr; Exec step_sql; Query "PRAGMA freelist_count"; Clock] ++ q).
    rewrite steps_app. change (steps [CtxErr; Exec step_sql; Query "PRAGMA freelist_count"; Clock]) with 1%nat. lia.
  - apply in_time_cons; [done|by rewrite Hd|]. apply in_time_cons; [done..|]. apply in_time_cons; [done..|].
    apply in_time_cons; [|done|done]. intros _ Hlate. unfold Before in Hb. apply Z.ltb_lt in Hb. rewrite <- ?app_assoc in Hb; rewrite <- ?app_assoc in Hlate; exact (False_ind _ (Zlt_not_le _ _ Hb Hlate)).
  - rewrite !not_elem_of_cons. done.
Qed.

(** More turns than there are free pages change nothing. *)
Lemma vacuum_steps_fuel deadline more : forall fuel free h, (Z.to_nat free <= fuel)%nat ->
  vacuum_steps (fuel + more) deadline free h = vacuum_steps fuel deadline free h.
Proof.
  induction fuel as [|f IH]; intros free h Hf.
  - cbn [Nat.add]. destruct more; [done|]. cbn [vacuum_steps]. destruct (Z.ltb_spec 0 free); [lia|done].
  - cbn [Nat.add vacuum_steps]. destruct (Z.ltb_spec 0 free); cbn [negb]; [|done]. unfold rbind, ctx_done, exec_sql, pragma, now.
    destruct (engine_done h); [done|]. destruct (engine_exec _ _); [done|]. destruct (engine_query _ _) as [left|]; [|done].
    destruct (Z.leb_spec free left); [done|]. destruct (negb _); [done|]. apply IH. lia.
Qed.

(** What a run asks after [h]. *)
Definition asks {A} (m : Run A) (P : list Asked -> list Asked -> Prop) : Prop := forall h, exists q, snd (m h) = h ++ q /\ P h q.

(** [q] changes the file: it runs a statement. *)
Definition changes (q : list Asked) : Prop := exists sql, Exec sql ∈ q.

(** What is known once [ReclaimSpace] has asked its first questions. *)
Definition asked_size : list Asked := [Query "PRAGMA page_size"].
Definition asked_pages : list Asked := asked_size ++ [Query "PRAGMA page_count"].
Definition asked_free : list Asked := asked_pages ++ [Query "PRAGMA freelist_count"].
Definition asked_mode : list Asked := asked_free ++ [Query "PRAGMA auto_vacuum"].
Definition file_is (size pages free : Z) : Prop :=
  engine_query [] "PRAGMA page_size" = inl size /\ engine_query asked_size "PRAGMA page_count" = inl pages /\
  engine_query asked_pages "PRAGMA freelist_count" = inl free.

Lemma checkpoint_after h : exists q, snd (checkpoint h) = h ++ q /\ fst (checkpoint h) = inl tt /\ q = [Exec checkpoint_sql].
Proof. exists [Exec checkpoint_sql]. unfold checkpoint, exec_sql. by destruct (engine_exec h _). Qed.

(** The end of it, once the space is reclaimed: it runs the checkpoint alone. *)
Lemma finish_asks pages size : asks (rbind checkpoint (fun _ => rbind (pragma "page_count") (fun after => rret (wrap64 ((pages - after) * size)))))
  (fun _ q => q = [Exec checkpoint_sql; Query "PRAGMA page_count"]).
Proof.
  intros h. exists [Exec checkpoint_sql; Query "PRAGMA page_count"]. split; [|done]. unfold rbind, pragma.
  destruct (checkpoint_after h) as (q & E & Er & ->). destruct (checkpoint h) as [r h']. cbn in E, Er. subst.
  destruct (engine_query _ _); cbn [snd rret]; by rewrite <- !app_assoc.
Qed.

Lemma pragma_eq name sql h n : ("PRAGMA " +:+ name)%string = sql -> engine_query h sql = inl n -> pragma name h = (inl n, h ++ [Query sql]).
Proof. intros <- E. unfold pragma. by rewrite E. Qed.

(** A run that never answers [ErrCompactTooLarge]. *)
Definition carries_on {A} (m : Run A) : Prop := forall h mib of_mib, fst (m h) <> inr (ErrCompactTooLarge mib of_mib).

Lemma carries_on_bind {A B} (m : Run A) (k : A -> Run B) : carries_on m -> (forall a, carries_on (k a)) -> carries_on (rbind m k).
Proof. intros Hm Hk h mib of_mib. unfold rbind. specialize (Hm h). destruct (m h) as [[a|e] h']; [apply Hk|]. intros [= ->]. by apply (Hm mib of_mib). Qed.

Lemma carries_on_ret {A} (a : A) : carries_on (rret a).
Proof. by intros h mib of_mib. Qed.
Lemma carries_on_pragma name : carries_on (pragma name).
Proof. intros h mib of_mib. unfold pragma. by destruct (engine_query _ _). Qed.
Lemma carries_on_exec what sql : carries_on (exec_sql what sql).
Proof. intros h mib of_mib. unfold exec_sql. by destruct (engine_exec _ _). Qed.
#[local] Hint Resolve carries_on_ret carries_on_pragma carries_on_exec : core.

Lemma carries_on_steps fuel deadline : forall free, carries_on (vacuum_steps fuel deadline free).
Proof.
  induction fuel as [|f IH]; intros free; cbn [vacuum_steps]; [auto|]. destruct (negb (0 <? free)); [auto|].
  apply carries_on_bind; [done|]. intros [|]; [auto|]. apply carries_on_bind; [auto|]. intros _. apply carries_on_bind; [auto|]. intros left.
  destruct (free <=? left); [auto|]. apply carries_on_bind; [done|]. intros t. by destruct (negb _).
Qed.

Lemma vacuum_once_asks : asks vacuum_once (fun _ q => Exec step_sql ∉ q) /\ carries_on vacuum_once.
Proof.
  assert (Hc : carries_on (rbind (exec_sql "vacuum" switch_sql) (fun _ => exec_sql "vacuum" vacuum_sql))) by (apply carries_on_bind; auto).
  split; intros h.
  - unfold vacuum_once, rbind, exec_sql. destruct (engine_conn h); [exists [Conn]; split; [done|set_solver]|].
    destruct (engine_exec _ switch_sql); [|destruct (engine_exec _ vacuum_sql)]; cbn [snd]; rewrite <- !app_assoc; eexists; (split; [reflexivity|]); set_solver.
  - intros mib of_mib. unfold vacuum_once. destruct (engine_conn h); [done|]. specialize (Hc (h ++ [Conn]) mib of_mib).
    by destruct (rbind (exec_sql "vacuum" switch_sql) _ (h ++ [Conn])).
Qed.

(** What comes after the first four questions: [work], and the end. *)
Definition work (mode size pages free : Z) : Run unit :=
  let fileBytes := wrap64 (pages * size) in
  if mode =? incremental then rbind now (fun t => vacuum_steps (Z.to_nat free) (TimeAdd t reclaimBudget) free)
  else if reclaimMaxVacuumBytes <? fileBytes then rfail (ErrCompactTooLarge (Z.shiftr (wrap64 (free * size)) 20) (Z.shiftr fileBytes 20))
  else vacuum_once.

(** [work] by its way: what it asks, and when it gives up. *)
Lemma work_asks mode size pages free : let fileBytes := wrap64 (pages * size) in
  exists q, snd (work mode size pages free asked_mode) = asked_mode ++ q /\
  ((mode = incremental /\ Exec vacuum_sql ∉ q /\ (steps q <= Z.to_nat free)%nat /\
      (exists r, q = Clock :: r /\ in_time (TimeAdd (engine_now asked_mode) reclaimBudget) (asked_mode ++ [Clock]) r)) \/
   (mode <> incremental /\ Exec step_sql ∉ q /\ (fileBytes <= reclaimMaxVacuumBytes \/ q = []))) /\
  (forall mib of_mib, fst (work mode size pages free asked_mode) = inr (ErrCompactTooLarge mib of_mib) -> reclaimMaxVacuumBytes < fileBytes /\ q = []).
Proof.
  intros fileBytes. unfold work. fold fileBytes. destruct (Z.eqb_spec mode incremental) as [->|Hm].
  - unfold rbind, now. set (dl := TimeAdd _ _).
    destruct (vacuum_steps_asks (Z.to_nat free) dl free (asked_mode ++ [Clock])) as (q & E & Hs & Ht & Hv). exists (Clock :: q).
    rewrite E, <- app_assoc. split; [done|]. split; [left|by intros ? ? ?%carries_on_steps]. split; [done|]. split; [set_solver|]. split; [done|]. by exists q.
  - destruct (Z.ltb_spec reclaimMaxVacuumBytes fileBytes) as [Hl|Hl]; cbn [rfail].
    + exists []. rewrite app_nil_r. split; [done|]. split; [right|done]. split; [done|]. split; [apply not_elem_of_nil|by right].
    + destruct vacuum_once_asks as [Ha Hc]. destruct (Ha asked_mode) as (q & E & Hq). exists q. split; [done|]. split; [right|by intros ? ? ?%Hc]. auto.
Qed.

Lemma carries_on_checkpoint : carries_on checkpoint.
Proof. by intros h mib of_mib. Qed.

(** The bounds on [work], with what comes after it. *)
Lemma work_bounds mode fileBytes free q fin : engine_query asked_free "PRAGMA auto_vacuum" = inl mode ->
  (mode = incremental /\ Exec vacuum_sql ∉ q /\ (steps q <= Z.to_nat free)%nat /\
     (exists r, q = Clock :: r /\ in_time (TimeAdd (engine_now asked_mode) reclaimBudget) (asked_mode ++ [Clock]) r)) \/
  (mode <> incremental /\ Exec step_sql ∉ q /\ (fileBytes <= reclaimMaxVacuumBytes \/ q = [])) ->
  Exec step_sql ∉ fin -> Exec vacuum_sql ∉ fin -> let h := asked_mode ++ q ++ fin in
  (Exec vacuum_sql ∈ h -> fileBytes <= reclaimMaxVacuumBytes /\ engine_query asked_free "PRAGMA auto_vacuum" <> inl incremental) /\
  (steps h <= Z.to_nat free)%nat /\ in_time (TimeAdd (engine_now asked_mode) reclaimBudget) (asked_mode ++ [Clock]) (drop 5 h).
Proof.
  intros Em Hw Hs Hv h. assert (Hm : forall sql, Exec sql ∉ asked_mode) by (intros sql; unfold asked_mode, asked_free, asked_pages, asked_size; set_solver).
  destruct Hw as [(-> & Hn & Hk & r & -> & Ht)|(Hne & Hn & Hl)]; (split; [|split]).
  - intros Hx. set_solver.
  - unfold h. rewrite !steps_app, (no_steps asked_mode), (no_steps fin) by done. lia.
  - change (drop 5 h) with (r ++ fin). by apply in_time_app.
  - intros Hx. split; [|by rewrite Em; intros [= ->]]. destruct Hl as [?| ->]; [done|]. set_solver.
  - rewrite no_steps; [lia|]. set_solver.
  - apply in_time_free. intros Hd. assert (Hx : Exec step_sql ∈ h) by (rewrite <- (take_drop 5 h); apply elem_of_app; by right). set_solver.
Qed.

Lemma ReclaimSpace_work size pages free : file_is size pages free -> ReclaimSpace [] =
  if too_little (wrap64 (free * size)) (wrap64 (pages * size)) then (inl 0, asked_free)
  else match engine_query asked_free "PRAGMA auto_vacuum" with
       | inr e => (inr (StepFailed "PRAGMA auto_vacuum" e), asked_mode)
       | inl mode => rbind (work mode size pages free) (fun _ => rbind checkpoint (fun _ => rbind (pragma "page_count")
                       (fun after => rret (wrap64 ((pages - after) * size))))) asked_mode
       end.
Proof.
  intros (Hs & Hp & Hf). unfold ReclaimSpace.
  unfold rbind at 1. rewrite (pragma_eq "page_size" "PRAGMA page_size" [] size eq_refl Hs). change ([] ++ _) with asked_size.
  unfold rbind at 1. rewrite (pragma_eq "page_count" "PRAGMA page_count" asked_size pages eq_refl Hp). fold asked_pages.
  unfold rbind at 1. rewrite (pragma_eq "freelist_count" "PRAGMA freelist_count" asked_pages free eq_refl Hf). fold asked_free. cbv zeta.
  destruct (too_little _ _); [done|]. unfold rbind at 1, pragma at 1. change ("PRAGMA " +:+ "auto_vacuum")%string with "PRAGMA auto_vacuum"%string.
  by destruct (engine_query asked_free "PRAGMA auto_vacuum").
Qed.

(** C30: reclaiming never holds the database up. Whatever SQLite answers and
    whatever else uses the file meanwhile: nothing at all is run where there
    is too little to reclaim, nor where the file would have to be rewritten
    and is too large for that; [VACUUM] is run for no other file than one of
    at most 64 MiB that is not in incremental mode; in incremental mode the
    steps are at most as many as there are free pages, and none is run once the
    clock was seen at the end of the budget or the context at its end. *)
Theorem reclaim_stays_short size pages free : file_is size pages free ->
  let freeBytes := wrap64 (free * size) in let fileBytes := wrap64 (pages * size) in
  let '(r, h) := ReclaimSpace [] in
  (too_little freeBytes fileBytes = true -> r = inl 0 /\ ~ changes h) /\
  (forall mib of_mib, r = inr (ErrCompactTooLarge mib of_mib) -> reclaimMaxVacuumBytes < fileBytes /\ ~ changes h) /\
  (Exec vacuum_sql ∈ h -> fileBytes <= reclaimMaxVacuumBytes /\ engine_query asked_free "PRAGMA auto_vacuum" <> inl incremental) /\
  (steps h <= Z.to_nat free)%nat /\ in_time (TimeAdd (engine_now asked_mode) reclaimBudget) (asked_mode ++ [Clock]) (drop 5 h).
Proof.
  intros Hf freeBytes fileBytes. rewrite (ReclaimSpace_work _ _ _ Hf). fold freeBytes fileBytes.
  assert (Hq : forall h : list Asked, Exec vacuum_sql ∉ h -> Exec step_sql ∉ h -> (Exec vacuum_sql ∈ h -> fileBytes <= reclaimMaxVacuumBytes /\
      engine_query asked_free "PRAGMA auto_vacuum" <> inl incremental) /\ (steps h <= Z.to_nat free)%nat /\
      in_time (TimeAdd (engine_now asked_mode) reclaimBudget) (asked_mode ++ [Clock]) (drop 5 h)).
  { intros h Hv Hs. split; [done|]. split; [rewrite no_steps by done; lia|]. apply in_time_free. intros Hd. apply Hs. rewrite <- (take_drop 5 h). apply elem_of_app. by right. }
  assert (Hn : ~ changes asked_free /\ ~ changes asked_mode) by (split; intros [sql Hx]; unfold asked_mode, asked_free, asked_pages, asked_size in Hx; set_solver).
  destruct Hn as [Hn1 Hn2]. destruct (too_little freeBytes fileBytes); [split; [done|]; split; [done|]; apply Hq; intros Hx; apply Hn1; by eexists|].
  destruct (engine_query asked_free "PRAGMA auto_vacuum") as [mode|e] eqn:Em; [|split; [done|]; split; [done|]; apply Hq; intros Hx; apply Hn2; by eexists].
  destruct (work_asks mode size pages free) as (q & E & Hw & Hl). fold fileBytes in Hw, Hl. unfold rbind at 1.
  destruct (work mode size pages free asked_mode) as [[[]|e] h]; cbn [fst snd] in *; subst h.
  - destruct (finish_asks pages size (asked_mode ++ q)) as (fin & Ef & ->).
    assert (Hc : forall mib of_mib, fst ((rbind checkpoint (fun _ => rbind (pragma "page_count") (fun after => rret (wrap64 ((pages - after) * size))))) (asked_mode ++ q))
      <> inr (ErrCompactTooLarge mib of_mib)) by (apply carries_on_bind; [apply carries_on_checkpoint|]; intros _; apply carries_on_bind; auto).
    destruct (rbind checkpoint _ _) as [r h]. cbn [fst snd] in *. subst h. split; [done|]. split; [by intros ? ? ?%Hc|].
    rewrite <- app_assoc, <- Em. apply (work_bounds mode); [done|done|set_solver|set_solver].
  - split; [done|]. split; [intros ? ? [= ->]; destruct (Hl _ _ eq_refl) as [? ->]; rewrite app_nil_r; done|].
    rewrite <- (app_nil_r q), <- Em. apply (work_bounds mode); [done|done|set_solver|set_solver].
Qed.

End Bounds.

(** ** A file nothing else uses *)

Section Alone.
Context `{Engine} (mode size pages free : Z).

(** The pages given back after [h]: by a step up to 512 that are free, by
    [VACUUM] all of them (as SQLite documents them). *)
Definition freed (h : list Asked) : Z := if bool_decide (Exec vacuum_sql ∈ h) then free else Z.min free (512 * Z.of_nat (steps h)).

Context `{!Alone}.





End Alone.

(** ** Files *)

(** A file of 6000 pages of 4 KiB, half of them free, in incremental mode or
    not, and a day's patience. *)
Definition a_file (mode pages free : Z) : Engine := {|
  engine_query h sql :=
    let left := free - freed free h in
    inl (if String.eqb sql "PRAGMA page_size" then 4096 else if String.eqb sql "PRAGMA page_count" then pages - freed free h
         else if String.eqb sql "PRAGMA freelist_count" then left else mode);
  engine_exec _ _ := None; engine_conn _ := None; engine_now _ := 0; engine_done _ := false |}.



Lemma reclaim_stays_short_witness : let e := a_file 0 6000 3000 in
  Exec vacuum_sql ∈ snd (@ReclaimSpace e []) /\ wrap64 (6000 * 4096) <= reclaimMaxVacuumBytes.
Proof.
  intros e. pose proof (@reclaim_stays_short e 4096 6000 3000 ltac:(split; [reflexivity|split; reflexivity])) as Hs. cbv zeta in Hs.
  assert (Hv : Exec vacuum_sql ∈ snd (@ReclaimSpace e [])) by (apply (bool_decide_unpack _); vm_compute; exact I). split; [exact Hv|].
  destruct (@ReclaimSpace e []) as [r h]. destruct Hs as (_ & _ & Hf & _). apply (Hf Hv).
Defined.

(** A file of 100 MiB that was never switched is left as it is, and so is one
    with a tenth of it free. *)
Example left_as_it_is : fst (@ReclaimSpace (a_file 0 25600 12800) []) = inr (ErrCompactTooLarge 50 100) /\
  fst (@ReclaimSpace (a_file incremental 25600 2560) []) = inl 0 /\ fst (@ReclaimSpace (a_file incremental 25600 12800) []) = inl (12800 * 4096).
Proof. vm_compute. repeat split. Qed.
