(* ===== verification/Flags.v ===== *)
(** * Command-line flags (the standard library's [flag])

    [FlagSet.Parse] as the commands use it: the flags given, in order, with
    their values checked, and the arguments left. A flag's value is kept as its
    text; the parsers of Go's number syntax are the parameters of [GoFlags]. *)
From S2P Require Import Prelude GoTime Domain Redact GoStrings.
Open Scope Z_scope.

(** [strconv.ParseInt(s, 0, 64)], which reads hexadecimal and the like too, and
    [strconv.ParseFloat(s, 64)]. *)
Class GoFlags := { flag_int : bytes -> option Z; flag_float : bytes -> option spec_float }.

Inductive FlagKind := FBool | FInt | FFloat | FDuration | FString | FValue (check : bytes -> bool).
Abbreviation FlagSet := (list (string * FlagKind)).

Inductive FlagError := ErrHelp | BadSyntax (arg : bytes) | NotDefined (name : bytes) | NeedsArgument (name : string) | BadValue (name : string) (value : bytes).

(** [strconv.ParseBool]. *)
Definition ParseBool (s : bytes) : option bool :=
  if bool_decide (str s ∈ ["1"; "t"; "T"; "TRUE"; "true"; "True"]%string) then Some true
  else if bool_decide (str s ∈ ["0"; "f"; "F"; "FALSE"; "false"; "False"]%string) then Some false
  else None.

Section Flags.
Context `{GoFlags} `{GoText}.

(** Whether [Set] takes a value. *)
Definition accepts (k : FlagKind) (v : bytes) : bool :=
  match k with
  | FBool => bool_decide (is_Some (ParseBool v))
  | FInt => bool_decide (is_Some (flag_int v))
  | FFloat => bool_decide (is_Some (flag_float v))
  | FDuration => bool_decide (is_Some (time_ParseDuration v))
  | FString => true
  | FValue check => check v
  end.

Definition kind_of (fs : FlagSet) (name : bytes) : option (string * FlagKind) := List.find (fun '(n, _) => bool_decide (bstr n = name)) fs.

(** The name of a flag and its value after [=], if it has one. *)
Fixpoint cut_eq (s : bytes) : bytes * option bytes :=
  match s with
  | [] => ([], None)
  | c :: r => if Ascii.eqb c "=" then ([], Some r) else let '(n, v) := cut_eq r in (c :: n, v)
  end.

(** What [parseOne] does with an argument: no flag, the terminator [--], or a
    flag with what follows its dashes. *)
Inductive Arg := Stop | Terminator | Flag (name : bytes).
Definition classify (s : bytes) : Arg :=
  match s with
  | d :: c :: r =>
      if negb (Ascii.eqb d "-") then Stop
      else if Ascii.eqb c "-" then (if is_nil r then Terminator else Flag r)
      else Flag (c :: r)
  | _ => Stop
  end.

Definition bad_name (n : bytes) : bool := match n with [] => true | c :: _ => Ascii.eqb c "-" || Ascii.eqb c "=" end.

(** [FlagSet.Parse]: the flags set, in order, and the arguments left. *)
Fixpoint flag_parse (fs : FlagSet) (args : list bytes) : (list (string * bytes) * list bytes) + FlagError :=
  match args with
  | [] => inl ([], [])
  | a :: rest =>
      match classify a with
      | Stop => inl ([], args)
      | Terminator => inl ([], rest)
      | Flag n =>
          if bad_name n then inr (BadSyntax a)
          else
            let '(name, value) := cut_eq n in
            match kind_of fs name with
            | None => inr (if bool_decide (str name ∈ ["help"; "h"]%string) then ErrHelp else NotDefined name)
            | Some (name, k) =>
                let set v tail := if accepts k v then match tail with inl (sets, others) => inl ((name, v) :: sets, others) | inr e => inr e end else inr (BadValue name v) in
                match value, k with
                | Some v, _ => set v (flag_parse fs rest)
                | None, FBool => set (bstr "true") (flag_parse fs rest)
                | None, _ => match rest with
                             | [] => inr (NeedsArgument name)
                             | v :: rest' => set v (flag_parse fs rest')
                             end
                end
            end
      end
  end.

(** ** Reading the flags *)

(** The last value given. *)
Definition flag_value (sets : list (string * bytes)) (name : string) : option bytes :=
  snd <$> List.find (fun '(n, _) => String.eqb n name) (rev sets).
(** [fs.Visit]: whether a flag was given. *)
Definition is_set (sets : list (string * bytes)) (name : string) : bool := existsb (fun '(n, _) => String.eqb n name) sets.

Definition flag_str (sets : list (string * bytes)) (name : string) (def : bytes) : bytes := default def (flag_value sets name).
Definition flag_z (sets : list (string * bytes)) (name : string) (def : Z) : Z := default def (v ← flag_value sets name; flag_int v).
Definition flag_bool (sets : list (string * bytes)) (name : string) (def : bool) : bool := default def (v ← flag_value sets name; ParseBool v).
Definition flag_dur (sets : list (string * bytes)) (name : string) (def : Duration) : Duration := default def (v ← flag_value sets name; time_ParseDuration v).
Definition flag_f (sets : list (string * bytes)) (name : string) (def : spec_float) : spec_float := default def (v ← flag_value sets name; flag_float v).
(** Every value given, for a flag that may be repeated. *)
Definition flag_all (sets : list (string * bytes)) (name : string) : list bytes := map snd (List.filter (fun '(n, _) => String.eqb n name) sets).

End Flags.

(** ** Facts *)

Section Facts.
Context `{GoFlags} `{GoText}.

(** What is set is a flag of the set with a value it takes, so that the
    defaults stand only for flags that were not given. *)
Lemma flag_parse_accepts fs args sets left : flag_parse fs args = inl (sets, left) -> forall name v, (name, v) ∈ sets -> exists k, (name, k) ∈ fs /\ accepts k v = true.
Proof.
  revert sets left. induction args as [args IH] using (induction_ltof1 _ (@List.length bytes)). unfold ltof in IH. intros sets left.
  destruct args as [|a rest]; [by intros [= <- <-] ? ? ?%elem_of_nil|]. cbn [flag_parse].
  destruct (classify a); [by intros [= <- <-] ? ? ?%elem_of_nil|by intros [= <- <-] ? ? ?%elem_of_nil|].
  destruct (bad_name name); [done|]. destruct (cut_eq name) as [n value]. destruct (kind_of fs n) as [[nm k]|] eqn:Ek; [|done].
  assert (Hk : (nm, k) ∈ fs). { unfold kind_of in Ek. apply find_some in Ek as [Hin _]. by apply list_elem_of_In. }
  assert (Hset : forall v tl sets left, (List.length tl <= List.length rest)%nat ->
    (if accepts k v then match flag_parse fs tl with inl (s, l) => inl ((nm, v) :: s, l) | inr e => inr e end else inr (BadValue nm v)) = inl (sets, left) ->
    forall name v, (name, v) ∈ sets -> exists k, (name, k) ∈ fs /\ accepts k v = true).
  { intros v tl sets' left' Hl. destruct (accepts k v) eqn:Ea; [|done]. destruct (flag_parse fs tl) as [[s l]|] eqn:Ep; [|done]. intros [= <- <-] nm' v' [[= -> ->]|Hin]%elem_of_cons.
    - by exists k.
    - eapply (IH tl); [simpl; lia|exact Ep|exact Hin]. }
  destruct value as [v|]; [by apply Hset|]. destruct k; [by apply Hset|destruct rest as [|v r]; [done|]; apply Hset; simpl; lia..].
Qed.

Lemma classify_plain c r : c <> "-"%char -> classify (c :: r) = Stop.
Proof. intros Hc. simpl. destruct r; [done|]. by rewrite (proj2 (Ascii.eqb_neq _ _) Hc). Qed.

End Facts.
