(* ===== verification/CliText.v ===== *)
(** * What the command line shows and makes up ([cli/cli.go])

    The pure parts of the commands: what of a ping's body may reach a terminal,
    the history of a heartbeat merged from its pings and its transitions, ping
    keys, the counts and columns of the tables printed. *)
From S2P Require Import Prelude GoTime Tail Utf8 Domain Heartbeat Pacing Redact GoStrings PingApi Chat Dto.
Open Scope Z_scope.

(** ** Terminal-safe text *)

(** The code point of a character of [chunks], enough of it to tell the
    control characters: one byte, or the two of U+0080 to U+07FF. *)
Definition control (c : bytes) : bool :=
  match c with
  | [b] => (byte_val b <? 32) || (byte_val b =? 127)
  | [b1; b2] => (byte_val b1 =? 194) && (128 <=? byte_val b2) && (byte_val b2 <=? 159)
  | _ => false
  end.
Definition keeps (c : bytes) : bool := bool_decide (c = [nl]) || bool_decide (c = ["009"%char]) || negb (control c).

(** [terminalSafe]: [strings.Map], which reads a stray byte as U+FFFD. *)
Definition safe_chunk (c : bytes * bool) : bytes := if snd c then (if keeps (fst c) then fst c else []) else FFFD.
Definition terminalSafe (s : bytes) : bytes := mjoin (map safe_chunk (chunks s)).

(** ** Ping keys *)

(** [validPingKey]; the loop is over the characters, all of one byte. *)
Definition key_char (c : ascii) : bool :=
  let n := byte_val c in
  ((97 <=? n) && (n <=? 122)) || ((65 <=? n) && (n <=? 90)) || ((48 <=? n) && (n <=? 57)) || (n =? 45) || (n =? 95).
Definition validPingKey (key : bytes) : bool := negb (is_nil key) && (List.length key <=? 128)%nat && forallb key_char key.

(** [base64.RawURLEncoding.EncodeToString]: six bits a character. *)
Definition b64_char (n : Z) : ascii :=
  List.nth (Z.to_nat n) (bstr "ABCDEFGHIJKLMNOPQRSTUVWXYZabcdefghijklmnopqrstuvwxyz0123456789-_") "A"%char.
Fixpoint RawURLEncode (b : list Z) : bytes :=
  match b with
  | x :: y :: z :: r => [b64_char (x / 4); b64_char (Z.lor (Z.shiftl (Z.land x 3) 4) (y / 16)); b64_char (Z.lor (Z.shiftl (Z.land y 15) 2) (z / 64)); b64_char (Z.land z 63)] ++ RawURLEncode r
  | [x; y] => [b64_char (x / 4); b64_char (Z.lor (Z.shiftl (Z.land x 3) 4) (y / 16)); b64_char (Z.shiftl (Z.land y 15) 2)]
  | [x] => [b64_char (x / 4); b64_char (Z.shiftl (Z.land x 3) 4)]
  | [] => []
  end.

(** [newPingKey], of 16 random bytes, and [heartbeat.NewToken]. *)
Definition newPingKey (b : list Z) : bytes := RawURLEncode b.

(** ** The history of a heartbeat *)

(** The merge of [cmdHeartbeatHistory]: [limit] entries at most, newest first,
    a transition above a ping of the same moment. *)
Fixpoint merge_history (limit : nat) (evs : list Event) (pings : list Ping) : list (Event + Ping) :=
  match limit with
  | O => []
  | S n =>
      match evs, pings with
      | [], [] => []
      | e :: es, [] => inl e :: merge_history n es []
      | [], p :: ps => inr p :: merge_history n [] ps
      | e :: es, p :: ps =>
          if negb (Before (ev_created_at e) (p_created_at p)) then inl e :: merge_history n es pings
          else inr p :: merge_history n evs ps
      end
  end.

(** [pingSummary]. *)
Definition kind_text (k : PingKind) : string :=
  match k with PingSuccess => "success" | PingStart => "start" | PingFail => "fail" | PingLog => "log" | PingOther s => s end.
Definition pingSummary (p : Ping) : bytes :=
  bstr (kind_text (p_kind p)) ++ match p_exit_status p with Some n => bstr " (exit " ++ Itoa n ++ bstr ")" | None => [] end.

(** The last result that [cmdHeartbeatShow] looks for. *)
Definition showPingScan : Z := 50.
Definition is_result (p : Ping) : bool := match p_kind p with PingSuccess | PingFail => true | _ => false end.
Definition last_result (pings : list Ping) : option Ping := List.find is_result pings.

(** [jobTypeCounts], by type. *)
Definition type_counts (js : list Job) : gmap string Z :=
  fold_left (fun m j => partial_alter (fun n => Some (default 0 n + 1)) (job_type_text (j_type j)) m) js ∅.

(** ** A terminal is safe *)

(** A character is one chunk, wherever it is cut out. *)
Lemma chunks_char s c : (c, true) ∈ chunks s -> chunks c = [(c, true)].
Proof.
  revert c. induction s as [|x r n E IH|x r E IH] using chunks_ind; [by intros c ?%elem_of_nil|..]; intros c; rewrite chunks_cons, E.
  - intros [[= ->]|Hin]%elem_of_cons; [|by apply IH].
    pose proof (rune_len_bounds _ _ E) as [Hn Hl]. pose proof (rune_len_take _ _ E) as Et.
    destruct n as [|n]; [lia|]. cbn [take] in *. rewrite chunks_cons, Et.
    assert (Hlen : (List.length (x :: take n r) <= S n)%nat) by (simpl; rewrite length_take; lia).
    rewrite take_ge, drop_ge by done. done.
  - intros [[=]|Hin]%elem_of_cons. by apply IH.
Qed.

(** A character that is safe to show, by its bytes: no byte is an ASCII control
    but a new line's or a tab's, and it is none of U+0080 to U+009F. *)
Definition text_byte (b : ascii) : Prop := (32 <= byte_val b /\ byte_val b <> 127) \/ b = nl \/ b = "009"%char.
Definition safe_char (c : bytes) : Prop := (forall b, b ∈ c -> text_byte b) /\ (forall x y, c = [x; y] -> byte_val x = 194 -> 160 <= byte_val y).

(** One byte below 128, or several from there on. *)
Lemma char_bytes s c : (c, true) ∈ chunks s -> (exists b, c = [b]) \/ ((2 <= List.length c)%nat /\ Forall (fun b => 128 <= byte_val b) c).
Proof.
  intros Hc. pose proof (chunks_char _ _ Hc) as E. destruct c as [|x r]; [done|]. rewrite chunks_cons in E. destruct (rune_len (x :: r)) as [n|] eqn:En; [|done].
  injection E as Et _. pose proof (rune_len_bounds _ _ En) as [Hn Hl]. pose proof (rune_len_tail _ _ _ En) as Ht.
  destruct r as [|y r]; [left; by eexists|right]. split; [simpl; lia|].
  assert (Hlen : n = List.length (x :: y :: r)) by (rewrite <- Et at 1; rewrite length_take; lia). subst n. constructor.
  - unfold rune_len in En. destruct (first_byte x) as [[[m lo] hi]|] eqn:Ef; [|done]. unfold first_byte in Ef. destruct (_ && _) in En; [|done]. injection En as Em.
    repeat case_match; simplify_eq; bsimpl; lia.
  - simpl in Ht. rewrite take_ge in Ht by (simpl; lia). eapply Forall_mono; [|exact Ht]. intros b Hb. unfold cont, RuneStart in Hb. rewrite negb_involutive in Hb. bsimpl. lia.
Qed.

Lemma keeps_safe s c : (c, true) ∈ chunks s -> keeps c = true <-> safe_char c.
Proof.
  intros Hc. unfold keeps, safe_char. destruct (char_bytes s c Hc) as [[b ->]|[Hl Hf]].
  - unfold text_byte. cbn [control]. split.
    + intros Hk. split; [|by intros x y [=]]. intros x ->%list_elem_of_singleton. 
      apply orb_true_iff in Hk as [Hk|Hk]; [apply orb_true_iff in Hk as [Hk|Hk]; apply bool_decide_eq_true in Hk; injection Hk as ->; auto|bsimpl; left; lia].
    + intros [Hb _]. specialize (Hb b ltac:(by left)). destruct Hb as [[H1 H2]|[-> | ->]]; [|done..].
      apply orb_true_iff. right. rewrite (proj2 (Z.ltb_ge _ _)), (proj2 (Z.eqb_neq _ _)) by lia. done.
  - destruct c as [|x [|y [|z c]]]; simpl in Hl; [lia..| |]; rewrite !bool_decide_eq_false_2 by (by intros [=]); cbn [orb control negb].
    + apply Forall_cons in Hf as [Hx Hf]. apply Forall_cons in Hf as [Hy _]. split.
      * intros Hk. split; [intros b Hb; left; repeat (apply elem_of_cons in Hb as [->|Hb]; [lia|]); by apply elem_of_nil in Hb|].
        intros x' y' [= <- <-] E. apply negb_true_iff, andb_false_iff in Hk as [Hk|Hk]; [apply andb_false_iff in Hk as [Hk|Hk]|]; bsimpl; lia.
      * intros [_ Hc1]. destruct (Z.eqb_spec (byte_val x) 194) as [E|]; [|done]. specialize (Hc1 x y eq_refl E). rewrite (proj2 (Z.leb_gt (byte_val y) 159)) by lia. by rewrite andb_false_r.
    + split; [intros _|done]. split; [|by intros ? ? [=]]. intros b Hb. left. rewrite Forall_elem in Hf. specialize (Hf b Hb). simpl in Hf. lia.
Qed.

(** The characters shown, one by one. *)
Definition shown_chunks (s : bytes) : list (bytes * bool) :=
  omap (fun c : bytes * bool => if snd c then (if keeps (fst c) then Some c else None) else Some (FFFD, true)) (chunks s).

Lemma FFFD_chunk : chunks FFFD = [(FFFD, true)].
Proof. vm_compute. reflexivity. Qed.

Lemma shown_char s c : c ∈ shown_chunks s -> snd c = true /\ keeps (fst c) = true /\ chunks (fst c) = [c].
Proof.
  intros ([c' b] & Hin & E)%elem_of_omap. simpl in E. destruct b.
  - destruct (keeps c') eqn:Ek; [|done]. injection E as <-. cbn [fst snd]. split; [done|]. split; [done|]. by apply (chunks_char s).
  - injection E as <-. cbn [fst snd]. split; [done|]. split; [done|]. apply FFFD_chunk.
Qed.

Lemma chunks_mjoin (l : list (bytes * bool)) : (forall c, c ∈ l -> snd c = true /\ chunks (fst c) = [c]) -> chunks (mjoin (map fst l)) = l.
Proof.
  induction l as [|c l IH]; intros Hl; [done|]. simpl. destruct (Hl c) as [Hs Hc]; [by left|].
  rewrite chunks_app, Hc, IH; [done|intros x Hx; apply Hl; by right|]. unfold ValidString. rewrite Hc. simpl. by rewrite Hs.
Qed.

Lemma terminalSafe_chunks s : chunks (terminalSafe s) = shown_chunks s.
Proof.
  replace (terminalSafe s) with (mjoin (map fst (shown_chunks s))).
  - apply chunks_mjoin. intros c Hc. by destruct (shown_char s c Hc) as (H1 & _ & H2).
  - unfold terminalSafe, shown_chunks. induction (chunks s) as [|[c b] l IH]; [done|]. cbn [map omap list_omap mjoin list_join fst snd]. unfold safe_chunk at 1. cbn [fst snd].
    destruct b; [destruct (keeps c)|]; [exact (f_equal (app c) IH)|exact IH|exact (f_equal (app FFFD) IH)].
Qed.

(** a logged body is shown safely: whatever bytes it has, what is written
    to the terminal is valid UTF-8 without a control character, of ASCII or C1,
    but new lines and tabs; a text without others is shown as it is, and no
    character that is safe is lost. *)
Theorem terminalSafe_safe s : ValidString (terminalSafe s) = true /\ (forall c b, (c, b) ∈ chunks (terminalSafe s) -> safe_char c) /\
  terminalSafe (terminalSafe s) = terminalSafe s /\
  (ValidString s = true -> (forall c b, (c, b) ∈ chunks s -> safe_char c) -> terminalSafe s = s) /\
  forall c, (c, true) ∈ chunks s -> safe_char c -> (c, true) ∈ chunks (terminalSafe s).
Proof.
  assert (Hid : forall t, ValidString t = true -> (forall c b, (c, b) ∈ chunks t -> safe_char c) -> terminalSafe t = t).
  { intros t Hv Hk. rewrite <- (chunks_concat t) at 2. unfold terminalSafe. f_equal. apply map_ext_in. intros [c b] Hin%list_elem_of_In.
    unfold ValidString in Hv. rewrite forallb_forall in Hv. specialize (Hv _ (proj1 (list_elem_of_In _ _) Hin)). simpl in Hv. subst b.
    unfold safe_chunk. simpl. by rewrite (proj2 (keeps_safe t c Hin) (Hk c true Hin)). }
  assert (Hv : ValidString (terminalSafe s) = true).
  { unfold ValidString. rewrite terminalSafe_chunks. apply forallb_forall. intros c Hc%list_elem_of_In. by destruct (shown_char s c Hc). }
  assert (Hk : forall c b, (c, b) ∈ chunks (terminalSafe s) -> safe_char c).
  { intros c b Hc. pose proof Hc as Hin. rewrite terminalSafe_chunks in Hc. destruct (shown_char s _ Hc) as (Eb & Hkc & _). simpl in Eb. subst b.
    by apply (keeps_safe (terminalSafe s)). }
  repeat split; [done|by eapply Hk|by eapply Hk|by apply Hid|by apply Hid|]. intros c Hc Hkc. rewrite terminalSafe_chunks. apply elem_of_omap. exists (c, true). split; [done|].
  simpl. by rewrite (proj2 (keeps_safe s c Hc) Hkc).
Qed.

Example escape_dropped : str (terminalSafe (bstr "ok" ++ ["027"; "["; "2"; "J"; "194"; "155"; "255"; "010"]%char)) = str (bstr "ok[2J" ++ FFFD ++ [nl]).
Proof. vm_compute. reflexivity. Qed.

(** ** Ping keys *)

Lemma key_char_unreserved c : key_char c = true -> unreserved c = true.
Proof. destruct c as [[] [] [] [] [] [] [] []]; vm_compute; done. Qed.

Lemma b64_char_key n : key_char (b64_char n) = true.
Proof. unfold b64_char. generalize (Z.to_nat n). intros k. do 64 (destruct k as [|k]; [reflexivity|]). destruct k; reflexivity. Qed.

Lemma RawURLEncode_key b : forallb key_char (RawURLEncode b) = true.
Proof.
  revert b. fix IH 1. intros [|x [|y [|z r]]]; cbn [RawURLEncode forallb app]; rewrite ?b64_char_key; [done..|]. simpl. apply IH.
Qed.

(** a ping key the commands set is one path segment as it stands, so the
    slug URL printed with it, the key unescaped and the name escaped, is the
    ping URL of that key and name; and a generated key is such a key, of the
    22 characters Healthchecks' keys have. *)
Theorem ping_key_url : (forall key, validPingKey key = true -> key <> [] /\ escape_segment key = key) /\
  forall b, List.length b = 16%nat -> validPingKey (newPingKey b) = true /\ List.length (newPingKey b) = 22%nat.
Proof.
  split.
  - intros key Hk. unfold validPingKey in Hk. bsimpl. split; [by intros ->|]. unfold escape_segment.
    match goal with H : forallb _ _ = true |- _ => rename H into Hf end. induction key as [|c key IH]; [done|]. simpl in Hf. apply andb_true_iff in Hf as [Hc Hf].
    cbn [map mjoin list_join]. rewrite (key_char_unreserved c Hc). simpl. f_equal. clear -Hf. induction key as [|c key IH]; [done|]. simpl in Hf. apply andb_true_iff in Hf as [Hc Hf].
    cbn [map mjoin list_join]. rewrite (key_char_unreserved c Hc). simpl. f_equal. by apply IH.
  - intros b Hb. unfold validPingKey, newPingKey. rewrite RawURLEncode_key. do 16 (destruct b as [|? b]; [done|]). by destruct b.
Qed.

(** ** The merge *)

(** When an entry was. *)
Definition entry_time (x : Event + Ping) : Time := match x with inl e => ev_created_at e | inr p => p_created_at p end.

(** The newest [n] of each list are enough for the newest [n] of both. *)
Lemma merge_history_prefix n k m evs pings : (n <= k)%nat -> (n <= m)%nat -> merge_history n (take k evs) (take m pings) = merge_history n evs pings.
Proof.
  revert k m evs pings. induction n as [|n IH]; intros k m evs pings Hk Hm; [done|]. destruct k as [|k], m as [|m]; [lia..|].
  destruct evs as [|e es], pings as [|p ps]; cbn [take merge_history]; [done| | |].
  - f_equal. rewrite <- (IH k m [] ps) by lia. by rewrite take_nil.
  - f_equal. rewrite <- (IH k m es []) by lia. by rewrite take_nil.
  - destruct (negb _); f_equal; [apply (IH k (S m) es (p :: ps))|apply (IH (S k) m (e :: es) ps)]; lia.
Qed.

(** All of both, merged. *)
Definition whole_history (evs : list Event) (pings : list Ping) : list (Event + Ping) := merge_history (List.length evs + List.length pings) evs pings.

Lemma merge_history_take n k evs pings : (n <= k)%nat -> merge_history n evs pings = take n (merge_history k evs pings).
Proof.
  revert k evs pings. induction n as [|n IH]; intros k evs pings Hk; [done|]. destruct k as [|k]; [lia|].
  destruct evs as [|e es], pings as [|p ps]; cbn [take merge_history]; [done| | |destruct (negb _)]; cbn [take]; f_equal; apply IH; lia.
Qed.

Lemma merge_history_enough k evs pings : (List.length evs + List.length pings <= k)%nat -> merge_history k evs pings = whole_history evs pings.
Proof.
  revert evs pings. assert (Hs : forall n k evs pings, (List.length evs + List.length pings <= n)%nat -> (n <= k)%nat -> merge_history n evs pings = merge_history k evs pings).
  { induction n as [|n IH]; intros k' evs pings Hn Hk; [destruct evs, pings; simpl in Hn; try lia; by destruct k'|]. destruct k' as [|k']; [lia|].
    destruct evs as [|e es], pings as [|p ps]; cbn [merge_history]; [done| | |destruct (negb _)]; f_equal; apply IH; simpl in *; lia. }
  intros evs pings Hk. symmetry. by apply Hs.
Qed.

Lemma whole_history_perm evs pings : whole_history evs pings ≡ₚ map inl evs ++ map inr pings.
Proof.
  unfold whole_history. remember (List.length evs + List.length pings)%nat as n eqn:E. revert evs pings E. induction n as [|n IH]; intros evs pings E; [by destruct evs, pings|].
  destruct evs as [|e es], pings as [|p ps]; cbn [merge_history]; [done| | |destruct (negb _)].
  - simpl. f_equiv. apply (IH [] ps). simpl in *. lia.
  - simpl. f_equiv. apply (IH es []). simpl in *. lia.
  - simpl. f_equiv. apply (IH es (p :: ps)). simpl in *. lia.
  - rewrite (IH (e :: es) ps) by (simpl in *; lia). simpl. rewrite <- Permutation_middle. apply perm_swap.
Qed.

(** Newest first. *)
Definition newest_first_of {A} (time : A -> Time) (l : list A) : Prop := StronglySorted (fun x y => time y <= time x) l.

Lemma merge_history_bound n evs pings t : Forall (fun e => ev_created_at e <= t) evs -> Forall (fun p => p_created_at p <= t) pings ->
  Forall (fun x => entry_time x <= t) (merge_history n evs pings).
Proof.
  revert evs pings. induction n as [|n IH]; intros evs pings He Hp; [constructor|].
  destruct He as [|e es He1 He], Hp as [|p ps Hp1 Hp]; cbn [merge_history]; [constructor| | |destruct (negb _)]; constructor; try done; apply IH; auto.
Qed.

Lemma merge_history_sorted n evs pings : newest_first_of ev_created_at evs -> newest_first_of p_created_at pings -> newest_first_of entry_time (merge_history n evs pings).
Proof.
  revert evs pings. induction n as [|n IH]; intros evs pings He Hp; [constructor|].
  assert (Hh : forall x xs, newest_first_of ev_created_at (x :: xs) -> newest_first_of ev_created_at xs /\ Forall (fun e => ev_created_at e <= ev_created_at x) xs) by (intros x xs Hx; by apply StronglySorted_inv in Hx).
  assert (Hq : forall x xs, newest_first_of p_created_at (x :: xs) -> newest_first_of p_created_at xs /\ Forall (fun e => p_created_at e <= p_created_at x) xs) by (intros x xs Hx; by apply StronglySorted_inv in Hx).
  destruct evs as [|e es], pings as [|p ps]; cbn [merge_history]; [constructor| | |].
  - destruct (Hq _ _ Hp) as [Hs Hf]. constructor; [by apply IH|]. by apply merge_history_bound.
  - destruct (Hh _ _ He) as [Hs Hf]. constructor; [by apply IH|]. by apply merge_history_bound.
  - destruct (Hh _ _ He) as [Hes Hef], (Hq _ _ Hp) as [Hps Hpf]. unfold Before. destruct (Z.ltb_spec (ev_created_at e) (p_created_at p)) as [Hb|Hb]; cbn [negb];
      (constructor; [by apply IH|]); (apply merge_history_bound; simpl; [|]).
    + constructor; [lia|]. eapply Forall_mono; [|exact Hef]. simpl. lia.
    + done.
    + done.
    + constructor; [lia|]. eapply Forall_mono; [|exact Hpf]. simpl. lia.
Qed.

(** the history shown is the newest of everything there is: merging the
    newest [n] transitions and the newest [n] pings gives the first [n] entries
    of the merge of all of them, and that merge has every transition and every
    ping once, newest first. *)
Theorem merge_history_newest n evs pings : newest_first_of ev_created_at evs -> newest_first_of p_created_at pings ->
  merge_history n (take n evs) (take n pings) = take n (whole_history evs pings) /\
  whole_history evs pings ≡ₚ map inl evs ++ map inr pings /\ newest_first_of entry_time (whole_history evs pings).
Proof.
  intros He Hp. split; [|split; [apply whole_history_perm|by apply merge_history_sorted]].
  rewrite merge_history_prefix by lia. rewrite <- (merge_history_enough (Nat.max n (List.length evs + List.length pings))) by lia.
  apply merge_history_take. lia.
Qed.

Definition at_time (t : Time) : Event := with_created (new_event 1 EventMissed "heartbeat" (PlText "db") "" DtNone) t.
Definition ping_at (t : Time) : Ping :=
  {| p_id := 0; p_org := 1; p_heartbeat := 1; p_kind := PingSuccess; p_exit_status := None; p_rid := ""; p_duration_ms := None; p_body := []; p_created_at := t |}.

Lemma merge_history_newest_witness :
  merge_history 2 (take 2 [at_time 5; at_time 1]) (take 2 [ping_at 5; ping_at 4; ping_at 3]) = [inl (at_time 5); inr (ping_at 5)].
Proof.
  rewrite (proj1 (merge_history_newest 2 [at_time 5; at_time 1] [ping_at 5; ping_at 4; ping_at 3] ltac:(repeat constructor; done) ltac:(repeat constructor; done))).
  reflexivity.
Defined.
