(* ===== verification/Cli.v ===== *)
(** * The commands ([cli/cli.go])

    Every command that reads or writes the store: its flags and arguments, its
    checks, what it does to the store and what it answers. What is printed is
    the value it is printed from. *)
From S2P Require Import Prelude GoTime Tail Utf8 Domain Heartbeat Pacing Failure Redact GoStrings Sql Schema StoreEvents StoreRuns StoreHeartbeats StoreDeliveries StoreConfig JobSpec Probe Runner Chat ConfigFile Auth Dto Flags CliText.
Open Scope Z_scope.

(** ** What a command answers *)

(** Why a command refuses before it does anything. *)
Inductive Refusal :=
| RFlags (e : FlagError) | RUsage | RUnexpected (arg : bytes) | RUnknown (sub : bytes) | RRequired (flag : string)
| RTimeout (n : Z) | RSchedules | RCron (expr : string) | RRunAt (s : bytes) | RUnused (flag : string) (t : JobType) | RUnknownType (t : bytes)
| RSpec (e : SpecError) | RExpiresAt (s : bytes)
| RRandom | RNoKey | RNoConfig | RNoPassword | RStdin | REncrypt | RHash | RChannelType (t : bytes)
| REvent (t : string) | RRepeatUnused (event : string) | RRepeat (s : bytes) | RUnknownChannel (name : bytes) | RUnknownJob (name : bytes)
| RPeriod | RPingKeyFlags | RBadPingKey | RNoHeartbeat (name : bytes) | RReadFile | RYAML | RParse (e : FileError).
Inductive CliError := Refused (cmd : string) (why : Refusal) | StoreFailed (cmd : string) (what : string) (e : Err).

Inductive Out :=
| OSynced (r : ReconcileResult)
| OJobRemoved (name : string) | OJobToggled (name : string) (enabled : bool) | OJobs (js : list Job) (unreadable : list Unreadable) | OJobCreated (id : Z)
| ORun (r : option Run) | ORuns (rs : list Run)
| OSecretStored (key : string) | OChannelSaved (name : string) (id : Z) | OChannels (cs : list Channel)
| ORuleSaved (id : Z) (event : string) (jobID : Z) (repeat : option (ChannelType * option Duration)) | ORules (rs : list Rule) (cs : list Channel)
| OPingURL (token : string) | OPingKey (key : string) | OPingKeyRemoved | OHeartbeat (hb : Heartbeat) (last result : option Ping) (key : option string)
| OHistory (l : list (Event + Ping)) | OHeartbeatRemoved (name : string) | OHeartbeats (l : list Heartbeat)
| OUserCreated (email : string) (id : Z)
| OToken (name : string) (id : Z) (plaintext : bytes) | OTokens (l : list APIToken) | OTokenRevoked (id : Z)
| ODoctor (js : list Job) (cs : list Channel) (rs : list Rule) (hbs : list Heartbeat) (unreadable : list Unreadable).

Section Cli.
Context `{World} `{JSONText} `{URLs} `{GoText} `{GoFlags}.
Variable cron_parse : string -> option (Time -> Time).

Abbreviation Command := (Store (Out + CliError)).
Definition refuse (cmd : string) (why : Refusal) : Command := ret (inr (Refused cmd why)).
Definition answer (o : Out) : Command := ret (inl o).
Definition stored {A} (cmd what : string) (m : Store A) (k : A -> Command) : Command :=
  let* r := try m in match r with Ok a => k a | Error e => ret (inr (StoreFailed cmd what e)) end.
Definition with_flags (cmd : string) (fs : FlagSet) (args : list bytes) (k : list (string * bytes) -> list bytes -> Command) : Command :=
  match flag_parse fs args with inr e => refuse cmd (RFlags e) | inl (sets, others) => k sets others end.

(** ** Jobs *)

(** [cmdJobRm]: a job whose row cannot be read is removed by its id. *)
Definition cmdJobRm (org : Z) (args : list bytes) : Command :=
  with_flags "job rm" [] args (fun _ others =>
  match others with
  | [] => refuse "job rm" RUsage
  | name :: _ =>
      let remove id := stored "job rm" "delete job" (DeleteJob org id) (fun _ => answer (OJobRemoved (str name))) in
      let* r := try (GetJobByName org (str name)) in
      match r with
      | Ok j => remove (j_id j)
      | Error (ErrUnreadableJob _ id _) => remove id
      | Error e => ret (inr (StoreFailed "job rm" "get job" e))
      end
  end).

(** [cmdJobToggle]. *)
Definition toggled (j : Job) (enabled : bool) : Job :=
  {| j_id := j_id j; j_org := j_org j; j_name := j_name j; j_type := j_type j; j_command := j_command j; j_http_url := j_http_url j;
     j_http_method := j_http_method j; j_http_body := j_http_body j; j_cron := j_cron j; j_interval_seconds := j_interval_seconds j;
     j_run_at := j_run_at j; j_timeout_seconds := j_timeout_seconds j; j_max_retries := j_max_retries j; j_enabled := enabled;
     j_env := j_env j; j_spec := j_spec j; j_next_run_at := j_next_run_at j; j_created_at := j_created_at j; j_updated_at := j_updated_at j |}.
Definition cmdJobToggle (org : Z) (sub : string) (enabled : bool) (args : list bytes) : Command :=
  let cmd := ("job " +:+ sub)%string in
  with_flags cmd [] args (fun _ others =>
  match others with
  | [] => refuse cmd RUsage
  | name :: _ =>
      stored cmd "get job" (GetJobByName org (str name)) (fun j =>
      stored cmd "update job" (UpdateJob (toggled j enabled)) (fun _ => answer (OJobToggled (str name) enabled)))
  end).
Definition cmdJobEnable (org : Z) (args : list bytes) : Command := cmdJobToggle org "enable" true args.
Definition cmdJobDisable (org : Z) (args : list bytes) : Command := cmdJobToggle org "disable" false args.

(** [cmdJobList]: the jobs that cannot be read are no error. *)
Definition cmdJobList (org : Z) (args : list bytes) : Command :=
  with_flags "job list" [] args (fun _ _ => stored "job list" "" (ListJobs org) (fun '(js, bad) => answer (OJobs js bad))).

(** [envFlag.Set], and the map of the values given. *)
Definition env_entry (s : bytes) : option (bytes * bytes) := match cut_eq s with ([], _) => None | (k, Some v) => Some (k, v) | (_, None) => None end.
Definition env_map (values : list bytes) : gmap string string :=
  fold_left (fun m s => match env_entry s with Some (k, v) => <[str k := str v]> m | None => m end) values ∅.

(** The flags of [cmdJobAdd]. *)
Definition jobAddFlags : FlagSet :=
  [("name", FString); ("type", FString); ("command", FString); ("cron", FString); ("interval", FInt); ("timeout", FInt); ("max-retries", FInt);
   ("url", FString); ("method", FString); ("body", FString); ("env", FValue (fun s => bool_decide (is_Some (env_entry s)))); ("run-at", FString);
   ("warn-days", FInt); ("host", FString); ("port", FInt); ("server-name", FString); ("starttls", FString); ("insecure-skip-verify", FBool);
   ("ca-file", FString); ("renew-after-fraction", FFloat); ("domain", FString); ("rdap-url", FString); ("expires-at", FString); ("expiry-command", FString);
   ("restore", FString); ("check", FString); ("cleanup", FString); ("scratch-dir", FString); ("max-duration", FInt)]%string.

(** The flags' values, as the entry of [tend.yaml] with the same settings. *)
Definition job_flags (sets : list (string * bytes)) : jobSpec :=
  let text name := str (flag_str sets name []) in
  {| js_name := text "name"; js_type := str (flag_str sets "type" (bstr "shell")); js_command := text "command"; js_http_url := text "url";
     js_http_method := str (flag_str sets "method" (bstr "GET")); js_http_body := text "body"; js_cron := text "cron"; js_interval_seconds := flag_z sets "interval" 0;
     js_run_at := text "run-at"; js_timeout_seconds := flag_z sets "timeout" 0; js_max_retries := flag_z sets "max-retries" 0; js_enabled := None;
     js_env := env_map (flag_all sets "env");
     js_warn_days := if is_set sets "warn-days" then Some (flag_z sets "warn-days" 0) else None;
     js_host := text "host"; js_port := flag_z sets "port" 0; js_server_name := text "server-name"; js_starttls := text "starttls";
     js_insecure_skip_verify := flag_bool sets "insecure-skip-verify" false; js_ca_file := text "ca-file";
     js_renew_after_fraction := if is_set sets "renew-after-fraction" then Some (flag_f sets "renew-after-fraction" (S754_zero false)) else None;
     js_domain := text "domain"; js_rdap_url := text "rdap-url"; js_expires_at := text "expires-at"; js_expiry_command := text "expiry-command";
     js_restore := text "restore"; js_checks := map str (flag_all sets "check"); js_cleanup := text "cleanup"; js_scratch_dir := text "scratch-dir";
     js_max_duration_seconds := flag_z sets "max-duration" 0 |}%string.

(** The settings of a job of type [t], with [ValidateSpec]'s verdict. *)
Definition add_spec (t : JobType) (f : jobSpec) : option Spec + Refusal :=
  if negb (HasSpec t) then inl None
  else
    let warn := match js_warn_days f with Some n => if bool_decide (t = Drill) then DefaultWarnDays t else n | None => DefaultWarnDays t end in
    let spec warn host port server starttls skip ca fraction domain rdap expires command restore checks cleanup scratch maxd :=
      {| sp_warn_days := warn; sp_host := host; sp_port := port; sp_server_name := server; sp_starttls := starttls;
         sp_insecure_skip_verify := skip; sp_ca_file := ca; sp_renew_after_fraction := fraction; sp_domain := domain; sp_rdap_url := rdap;
         sp_expires_at := expires; sp_expiry_command := command; sp_restore := restore; sp_checks := checks; sp_cleanup := cleanup;
         sp_scratch_dir := scratch; sp_max_duration_seconds := maxd |} in
    let zero := S754_zero false in
    let s := match t with
      | TLS => inl (spec warn (js_host f) (js_port f) (js_server_name f) (js_starttls f) (js_insecure_skip_verify f) (js_ca_file f)
                      (match js_renew_after_fraction f with Some x => x | None => DefaultRenewAfterFraction end) "" "" zero_time "" "" [] "" "" 0)
      | Domain => inl (spec warn "" 0 "" "" false "" zero (match NormalizeDomain (js_domain f) with inl d => str d | inr _ => js_domain f end) (js_rdap_url f) zero_time "" "" [] "" "" 0)
      | Expiry =>
          if String.eqb (js_expires_at f) "" then inl (spec warn "" 0 "" "" false "" zero "" "" zero_time (js_expiry_command f) "" [] "" "" 0)
          else match ParseExpiryDate (bstr (js_expires_at f)) with
          | None => inr (RExpiresAt (bstr (js_expires_at f)))
          | Some at_ => inl (spec warn "" 0 "" "" false "" zero "" "" at_ (js_expiry_command f) "" [] "" "" 0)
          end
      | Drill => inl (spec 0 "" 0 "" "" false "" zero "" "" zero_time "" (js_restore f) (js_checks f) (js_cleanup f) (js_scratch_dir f) (js_max_duration_seconds f))
      | _ => inl (spec warn "" 0 "" "" false "" zero "" "" zero_time "" "" [] "" "" 0)
      end%string in
    match s with
    | inr e => inr e
    | inl s => match ValidateSpec t (Some s) with Some e => inr (RSpec e) | None => inl (Some s) end
    end.

(** The type of a job, with what its type needs or refuses. *)
Definition add_type (f : jobSpec) : JobType + Refusal :=
  let watched t := if negb (String.eqb (js_command f) "") then inr (RUnused "command" t) else if negb (String.eqb (js_http_url f) "") then inr (RUnused "url" t) else inl t in
  let typ := js_type f in
  if String.eqb typ "shell" then (if String.eqb (js_command f) "" then inr (RRequired "command") else inl Shell)
  else if String.eqb typ "http" then (if String.eqb (js_http_url f) "" then inr (RRequired "url") else inl HTTP)
  else if String.eqb typ "tls" then watched TLS else if String.eqb typ "domain" then watched Domain
  else if String.eqb typ "expiry" then watched Expiry else if String.eqb typ "drill" then watched Drill
  else inr (RUnknownType (bstr typ)).

(** How many schedules are set; unlike [tend sync], any interval but 0 counts. *)
Definition add_schedules (f : jobSpec) : nat :=
  ((if String.eqb (js_cron f) "" then 0 else 1) + (if (js_interval_seconds f =? 0)%Z then 0 else 1) + (if String.eqb (js_run_at f) "" then 0 else 1))%nat.

(** The job of [cmdJobAdd]'s flags. *)
Definition add_job (org : Z) (f : jobSpec) (now : Time) : Job + Refusal :=
  if String.eqb (js_name f) "" then inr (RRequired "name")
  else if js_timeout_seconds f <? 0 then inr (RTimeout (js_timeout_seconds f))
  else if (1 <? add_schedules f)%nat then inr RSchedules
  else if negb (String.eqb (js_cron f) "") && negb (ValidateCron cron_parse (js_cron f)) then inr (RCron (js_cron f))
  else match (if String.eqb (js_run_at f) "" then Some zero_time else time_Parse RFC3339 (bstr (js_run_at f))) with
  | None => inr (RRunAt (bstr (js_run_at f)))
  | Some runAt =>
      match add_type f with
      | inr e => inr e
      | inl t =>
          match add_spec t f with
          | inr e => inr e
          | inl settings =>
              let j := {| j_id := 0; j_org := org; j_name := js_name f; j_type := t; j_command := js_command f; j_http_url := js_http_url f;
                 j_http_method := js_http_method f; j_http_body := js_http_body f; j_cron := js_cron f; j_interval_seconds := js_interval_seconds f;
                 j_run_at := runAt; j_timeout_seconds := js_timeout_seconds f; j_max_retries := js_max_retries f; j_enabled := true;
                 j_env := js_env f; j_spec := settings; j_next_run_at := zero_time; j_created_at := zero_time; j_updated_at := zero_time |} in
              inl (with_next j (mustNextRun cron_parse j now))
          end
      end
  end.

(** [cmdJobAdd]. *)
Definition cmdJobAdd (org : Z) (args : list bytes) : Command :=
  with_flags "job add" jobAddFlags args (fun sets _ =>
  let* now := now_ in
  match add_job org (job_flags sets) now with
  | inr why => refuse "job add" why
  | inl j => stored "job add" "create" (CreateJob j) (fun id => answer (OJobCreated id))
  end).

(** The dispatch on a subcommand. *)
Definition subcommand (cmd : string) (table : list (string * (list bytes -> Command))) (args : list bytes) : Command :=
  match args with
  | [] => refuse cmd RUsage
  | sub :: rest => match List.find (fun '(n, _) => bool_decide (bstr n = sub)) table with Some (_, f) => f rest | None => refuse cmd (RUnknown sub) end
  end.

(** [cmdJob]. *)
Definition cmdJob (org : Z) (args : list bytes) : Command :=
  subcommand "job" [("list", cmdJobList org); ("add", cmdJobAdd org); ("enable", cmdJobEnable org); ("disable", cmdJobDisable org); ("rm", cmdJobRm org)]%string args.

End Cli.
