(* ===== verification/CliAlerts.v ===== *)
(** * Secrets, channels and rules on the command line ([cli/cli.go]), and what reads them back ([notify/channel.go], [notify/worker.go])

    The commands that store what alerts need, the encryption of a channel's
    config, and the delivery worker's send step that decrypts it. *)
From S2P Require Import Prelude GoTime Tail Utf8 Domain Heartbeat Pacing Failure Redact GoStrings Sql Schema StoreEvents StoreConfig StoreRuns JobSpec Chat ConfigFile Dto Flags CliText Cli.
Open Scope Z_scope.

(** [strings.TrimRight(s, "\n")]. *)
Definition TrimNewlines (s : bytes) : bytes := rev (drop_while (fun c => Ascii.eqb c nl) (rev s)).

Section Channels.
Context `{World} `{Box}.

(** [notify.CreateChannel] and [GetChannelDecrypted]. *)
Definition notify_CreateChannel (ch : Channel) (cfg : bytes) : Store Z :=
  match Encrypt cfg with None => throw (ErrText (bstr "encrypt")) | Some blob => CreateChannel ch blob end.
Definition GetChannelDecrypted (org id : Z) : Store (Channel * bytes) :=
  let* '(ch, blob) := GetChannel org id in
  match Decrypt blob with None => throw (ErrText (bstr "decrypt")) | Some cfg => ret (ch, cfg) end.

End Channels.

(** ** The send step *)

(** [kitnotify.BuildProvider] of a kind and a decrypted config: how its
    [Send] ends, [None] without an error. *)
Class Providers := build_provider : ChannelType -> bytes -> option (Message -> option bytes).

Section Sender.
Context `{World} `{JSONText} `{PayloadJSON} `{Kit} `{Box} `{Providers}.

Inductive SendResult := SentOK | SendFailed (e : bytes) | LoadChannel (id : Z) (e : Err) | DecryptChannel (id : Z) | BuildFailed (id : Z).

(** [sender]; the errors name a channel by its id only. *)
Definition sender (instance : string) (chat : ChatOptions) (org channel : Z) (ev : Event) : Store SendResult :=
  let* r := try (GetChannel org channel) in
  match r with
  | Error e => ret (LoadChannel channel e)
  | Ok (ch, blob) =>
      match Decrypt blob with
      | None => ret (DecryptChannel channel)
      | Some cfg =>
          match build_provider (ch_kind ch) cfg with
          | None => ret (BuildFailed channel)
          | Some Send => ret (match Send (channelMessage (ch_kind ch) ev instance chat) with None => SentOK | Some e => SendFailed e end)
          end
      end
  end.

End Sender.

(** ** The commands *)

Section Cli.
Context `{World} `{JSONText} `{GoText} `{GoFlags}.
Abbreviation Command := (Store (Out + CliError)).

(** [cmdSecretSet]: the value is what [stdin] holds, [None] when it cannot be
    read; the key is on the command line. *)
Definition cmdSecretSet (box : option Box) (org : Z) (stdin : option bytes) (args : list bytes) : Command :=
  with_flags "secret set" [] args (fun _ others =>
  match others, box, stdin with
  | [], _, _ => refuse "secret set" RUsage
  | _, None, _ => refuse "secret set" RNoKey
  | _, _, None => refuse "secret set" RStdin
  | key :: _, Some box, Some raw =>
      match Encrypt (TrimNewlines raw) with
      | None => refuse "secret set" REncrypt
      | Some ciphertext => stored "secret set" "store" (PutSecret org (str key) ciphertext) (fun _ => answer (OSecretStored (str key)))
      end
  end).
Definition cmdSecret (box : option Box) (org : Z) (stdin : option bytes) (args : list bytes) : Command :=
  subcommand "secret" [("set"%string, cmdSecretSet box org stdin)] args.

(** [cmdChannelAdd]. *)
Definition channelAddFlags : FlagSet := [("name", FString); ("type", FString)]%string.
Definition cmdChannelAdd (box : option Box) (org : Z) (stdin : option bytes) (args : list bytes) : Command :=
  with_flags "channel add" channelAddFlags args (fun sets _ =>
  let name := flag_str sets "name" [] in
  let typ := flag_str sets "type" [] in
  if is_nil name then refuse "channel add" (RRequired "name")
  else if is_nil typ then refuse "channel add" (RRequired "type")
  else if negb (ValidChannelType (channel_type (str typ))) then refuse "channel add" (RChannelType typ)
  else match box, stdin with
  | None, _ => refuse "channel add" RNoKey
  | _, None => refuse "channel add" RStdin
  | Some box, Some raw =>
      let cfg := TrimSpace raw in
      if is_nil cfg then refuse "channel add" RNoConfig
      else stored "channel add" "" (notify_CreateChannel {| ch_id := 0; ch_org := org; ch_name := str name; ch_kind := channel_type (str typ); ch_created_at := zero_time |} cfg)
             (fun id => answer (OChannelSaved (str name) id))
  end).

(** [cmdChannelList]. *)
Definition cmdChannelList (org : Z) (args : list bytes) : Command :=
  with_flags "channel list" [] args (fun _ _ => stored "channel list" "" (ListChannels org) (fun cs => answer (OChannels cs))).
Definition cmdChannel (box : option Box) (org : Z) (stdin : option bytes) (args : list bytes) : Command :=
  subcommand "channel" [("add", cmdChannelAdd box org stdin); ("list", cmdChannelList org)]%string args.

(** The interval of [-repeat]. *)
Definition rule_repeat (event : string) (flag : bytes) : option Duration + Refusal :=
  if is_nil (TrimSpace flag) then inl None
  else if negb (String.eqb event EventRunFailed) then inr (RRepeatUnused event)
  else match ParseRepeat flag with None => inr (RRepeat flag) | Some d => inl (Some d) end.

(** The first channel of a name. *)
Definition first_named (cs : list Channel) (name : string) : option Channel := List.find (fun c => String.eqb (ch_name c) name) cs.

(** The id of the job a rule is for, 0 for all. *)
Definition rule_scope (org : Z) (jobName : bytes) (k : Z -> Command) : Command :=
  if is_nil jobName then k 0
  else
    let* r := try (GetJobByName org (str jobName)) in
    match r with
    | Ok j => k (j_id j)
    | Error e => if is_not_found e then refuse "rule add" (RUnknownJob jobName) else ret (inr (StoreFailed "rule add" "get job" e))
    end.

(** [cmdRuleAdd]. *)
Definition ruleAddFlags : FlagSet := [("channel", FString); ("event", FString); ("job", FString); ("repeat", FString)]%string.
Definition cmdRuleAdd (org : Z) (args : list bytes) : Command :=
  with_flags "rule add" ruleAddFlags args (fun sets _ =>
  let channelName := flag_str sets "channel" [] in
  let event := str (flag_str sets "event" []) in
  if is_nil channelName then refuse "rule add" (RRequired "channel")
  else if String.eqb event "" then refuse "rule add" (RRequired "event")
  else if negb (Alertable event) then refuse "rule add" (REvent event)
  else match rule_repeat event (flag_str sets "repeat" []) with
  | inr why => refuse "rule add" why
  | inl repeat =>
      stored "rule add" "list channels" (ListChannels org) (fun cs =>
      let channelID := match first_named cs (str channelName) with Some c => ch_id c | None => 0 end in
      let kind := match first_named cs (str channelName) with Some c => ch_kind c | None => OtherChannel "" end in
      if channelID =? 0 then refuse "rule add" (RUnknownChannel channelName)
      else rule_scope org (flag_str sets "job" []) (fun jobID =>
      stored "rule add" "" (CreateRule {| ru_id := 0; ru_org := org; ru_channel := channelID; ru_event_type := event; ru_enabled := true; ru_job := jobID; ru_repeat := repeat;
                                          ru_created_at := zero_time |})
        (fun id => answer (ORuleSaved id event jobID (if String.eqb event EventRunFailed then Some (kind, repeat) else None)))))
  end).

(** [describeRepeat] and [repeatColumn]. *)
Definition describeRepeat (kind : ChannelType) (repeat : option Duration) : bytes :=
  let d := EffectiveRepeat kind repeat in
  (if 0 <? d then bstr "reminders every " ++ FormatRepeat d else bstr "every failure") ++
  match repeat with None => bstr ", the default for " ++ bstr (channel_type_text kind) | Some _ => [] end.
Definition repeatColumn (r : Rule) (kind : ChannelType) : bytes :=
  if negb (String.eqb (ru_event_type r) EventRunFailed) then bstr "-"
  else FormatRepeat (EffectiveRepeat kind (ru_repeat r)) ++ match ru_repeat r with None => bstr " (default)" | Some _ => [] end.

(** A row of [cmdRuleList]; of channels of one id, the last one's. *)
Record RuleLine := { rn_channel : bytes; rn_event : string; rn_job : bytes; rn_repeat : bytes; rn_enabled : bool; rn_never_fires : bool }.
Definition rule_line (cs : list Channel) (r : Rule) : RuleLine :=
  let c := List.find (fun c => ch_id c =? ru_channel r) (rev cs) in
  let name := match c with Some c => bstr (ch_name c) | None => [] end in
  {| rn_channel := if is_nil name then bstr "#" ++ Itoa (ru_channel r) else name;
     rn_event := ru_event_type r; rn_job := if negb (ru_job r =? 0) then Itoa (ru_job r) else bstr "all";
     rn_repeat := repeatColumn r (match c with Some c => ch_kind c | None => OtherChannel "" end);
     rn_enabled := ru_enabled r; rn_never_fires := negb (Alertable (ru_event_type r)) |}.

(** [cmdRuleList]: without rules the channels are not read. *)
Definition cmdRuleList (org : Z) (args : list bytes) : Command :=
  with_flags "rule list" [] args (fun _ _ =>
  stored "rule list" "" (ListRules org) (fun rs =>
  match rs with
  | [] => answer (ORules [] [])
  | _ => stored "rule list" "list channels" (ListChannels org) (fun cs => answer (ORules rs cs))
  end)).
Definition cmdRule (org : Z) (args : list bytes) : Command :=
  subcommand "rule" [("add", cmdRuleAdd org); ("list", cmdRuleList org)]%string args.

End Cli.
