(* ===== verification/CliAccounts.v ===== *)
(** * Heartbeats, users and tokens on the command line ([cli/cli.go])

    The commands of [tend heartbeat], [tend user] and [tend token]. Random
    values (a ping token, a ping key's bytes, an API token) and the salted hash
    of a password are arguments, [None] when they could not be made. *)
From S2P Require Import Prelude GoTime Tail Utf8 Domain Heartbeat Redact GoStrings Sql Schema StoreEvents StoreHeartbeats StoreConfig StoreRuns Auth Flags CliText Cli CliAlerts.
Open Scope Z_scope.

Section Cli.
Context `{World} `{JSONText} `{GoText} `{GoFlags}.
Abbreviation Command := (Store (Out + CliError)).

(** ** Heartbeats *)

(** [GetHeartbeatByName], with the commands' errors. *)
Definition named_heartbeat (cmd : string) (org : Z) (name : bytes) (k : Heartbeat -> Command) : Command :=
  let* r := try (GetHeartbeatByName org (str name)) in
  match r with
  | Ok hb => k hb
  | Error e => if is_not_found e then refuse cmd (RNoHeartbeat name) else ret (inr (StoreFailed cmd "" e))
  end.
(** The commands of one heartbeat, which take its name and no flag. *)
Definition on_one_heartbeat (cmd : string) (org : Z) (args : list bytes) (k : Heartbeat -> Command) : Command :=
  match args with [name] => named_heartbeat cmd org name k | _ => refuse cmd RUsage end.

Definition cmdHeartbeatPingURL (org : Z) (args : list bytes) : Command :=
  on_one_heartbeat "heartbeat ping-url" org args (fun hb => answer (OPingURL (hb_token hb))).

(** [cmdHeartbeatPingKey]: of [stdin] the first 4096 bytes. *)
Definition pingKeyFlags : FlagSet := [("new", FBool); ("set", FBool); ("clear", FBool)]%string.
Definition given_key (stdin : option bytes) : bytes + Refusal :=
  match stdin with
  | None => inr RStdin
  | Some raw => let key := TrimSpace (take 4096 raw) in if validPingKey key then inl key else inr RBadPingKey
  end.
Definition count_true (l : list bool) : nat := List.length (List.filter (fun b => b) l).
Definition cmdHeartbeatPingKey (org : Z) (random : option (list Z)) (stdin : option bytes) (args : list bytes) : Command :=
  let cmd := "heartbeat ping-key"%string in
  with_flags cmd pingKeyFlags args (fun sets others =>
  let gen := flag_bool sets "new" false in
  let set := flag_bool sets "set" false in
  let clear := flag_bool sets "clear" false in
  match others with
  | x :: _ => refuse cmd (RUnexpected x)
  | [] =>
      if (1 <? count_true [gen; set; clear])%nat then refuse cmd RPingKeyFlags
      else
        let key := if gen then match random with Some b => inl (newPingKey b) | None => inr RRandom end else if set then given_key stdin else inl [] in
        match key with
        | inr why => refuse cmd why
        | inl key =>
            if gen || set || clear then
              stored cmd "" (SetOrgPingKey org (str key)) (fun _ => answer (if clear then OPingKeyRemoved else OPingKey (str key)))
            else stored cmd "" (GetOrgPingKey org) (fun key => answer (OPingKey key))
        end
  end).

(** [cmdHeartbeatShow]; a ping key that cannot be read is not shown. *)
Definition cmdHeartbeatShow (org : Z) (args : list bytes) : Command :=
  let cmd := "heartbeat show"%string in
  on_one_heartbeat cmd org args (fun hb =>
  stored cmd "" (ListHeartbeatPings org (hb_id hb) showPingScan) (fun pings =>
  let* key := try (GetOrgPingKey org) in
  answer (OHeartbeat hb (head pings) (last_result pings) (match key with Ok k => if String.eqb k "" then None else Some k | Error _ => None end)))).

(** [cmdHeartbeatHistory]: the name comes before the flags. *)
Definition historyFlags : FlagSet := [("limit", FInt); ("body", FBool)]%string.
Definition cmdHeartbeatHistory (org : Z) (args : list bytes) : Command :=
  let cmd := "heartbeat history"%string in
  match args with
  | [] => refuse cmd RUsage
  | name :: rest =>
      with_flags cmd historyFlags rest (fun sets _ =>
      let limit := flag_z sets "limit" 20 in
      named_heartbeat cmd org name (fun hb =>
      stored cmd "" (ListHeartbeatEvents org (str name) limit) (fun evs =>
      stored cmd "" (ListHeartbeatPings org (hb_id hb) limit) (fun pings =>
      answer (OHistory (merge_history (Z.to_nat limit) evs pings))))))
  end.

(** [cmdHeartbeatRemove]. *)
Definition cmdHeartbeatRemove (org : Z) (args : list bytes) : Command :=
  let cmd := "heartbeat rm"%string in
  on_one_heartbeat cmd org args (fun hb => stored cmd "" (DeleteHeartbeat org (hb_id hb)) (fun _ => answer (OHeartbeatRemoved (str (hd [] args))))).

(** [cmdHeartbeatAdd]; the ping URL shown is that of the token stored. *)
Definition heartbeatAddFlags : FlagSet := [("name", FString); ("period", FInt); ("grace", FInt)]%string.
Definition new_heartbeat (org : Z) (name : bytes) (period grace : Z) (token : string) : Heartbeat :=
  {| hb_id := 0; hb_org := org; hb_name := str name; hb_token := token; hb_last_seen_at := zero_time; hb_period_seconds := period; hb_grace_seconds := grace;
     hb_status := HbNew; hb_created_at := zero_time; hb_started_at := zero_time; hb_started_rid := "" |}.
Definition cmdHeartbeatAdd (org : Z) (token : option string) (args : list bytes) : Command :=
  let cmd := "heartbeat add"%string in
  with_flags cmd heartbeatAddFlags args (fun sets _ =>
  let name := flag_str sets "name" [] in
  let period := flag_z sets "period" 0 in
  if is_nil name then refuse cmd (RRequired "name")
  else if period <=? 0 then refuse cmd RPeriod
  else match token with
  | None => refuse cmd RRandom
  | Some token =>
      stored cmd "" (CreateHeartbeat (new_heartbeat org name period (flag_z sets "grace" 0) token)) (fun '(_, token) => answer (OPingURL token))
  end).

(** [cmdHeartbeatList]. *)
Definition cmdHeartbeatList (org : Z) (args : list bytes) : Command :=
  with_flags "heartbeat list" [] args (fun _ _ => stored "heartbeat list" "" (ListHeartbeats org) (fun hbs => answer (OHeartbeats hbs))).

(** [cmdHeartbeat]. *)
Definition cmdHeartbeat (org : Z) (token : option string) (random : option (list Z)) (stdin : option bytes) (args : list bytes) : Command :=
  subcommand "heartbeat"
    [("add", cmdHeartbeatAdd org token); ("list", cmdHeartbeatList org); ("show", cmdHeartbeatShow org); ("ping-url", cmdHeartbeatPingURL org);
     ("history", cmdHeartbeatHistory org); ("rm", cmdHeartbeatRemove org); ("ping-key", cmdHeartbeatPingKey org random stdin)]%string args.

(** ** Users *)

(** [kitauth.HashPassword]. *)
Variable HashPassword : bytes -> option string.

(** [cmdUserAdd]: the user and the membership are two transactions. *)
Definition userAddFlags : FlagSet := [("email", FString)]%string.
Definition cmdUserAdd (org : Z) (stdin : option bytes) (args : list bytes) : Command :=
  let cmd := "user add"%string in
  with_flags cmd userAddFlags args (fun sets _ =>
  let email := flag_str sets "email" [] in
  if is_nil email then refuse cmd (RRequired "email")
  else match stdin with
  | None => refuse cmd RStdin
  | Some raw =>
      let pw := TrimNewlines raw in
      if is_nil pw then refuse cmd RNoPassword
      else match HashPassword pw with
      | None => refuse cmd RHash
      | Some hash =>
          stored cmd "create user" (CreateUser {| u_id := 0; u_org := org; u_email := str email; u_password_hash := hash; u_created_at := zero_time |}) (fun userID =>
          stored cmd "create membership" (CreateMembership {| m_id := 0; m_org := org; m_user := userID; m_role := "admin"; m_created_at := zero_time |}) (fun _ =>
          answer (OUserCreated (str email) userID)))
      end
  end).
Definition cmdUser (org : Z) (stdin : option bytes) (args : list bytes) : Command :=
  subcommand "user" [("add"%string, cmdUserAdd org stdin)] args.

(** ** API tokens *)

(** [cmdTokenCreate]: what is stored is the hash, what is shown the token. *)
Definition tokenCreateFlags : FlagSet := [("name", FString)]%string.
Definition cmdTokenCreate `{KitAuth} (org : Z) (token : option bytes) (args : list bytes) : Command :=
  let cmd := "token create"%string in
  with_flags cmd tokenCreateFlags args (fun sets _ =>
  let name := flag_str sets "name" [] in
  if is_nil name then refuse cmd (RRequired "name")
  else match token with
  | None => refuse cmd RRandom
  | Some plaintext =>
      stored cmd "" (CreateToken {| tk_id := 0; tk_org := org; tk_name := str name; tk_hash := HashToken plaintext; tk_created_at := zero_time |})
        (fun id => answer (OToken (str name) id plaintext))
  end).

(** [cmdTokenList] and [cmdTokenRevoke]. *)
Definition cmdTokenList (org : Z) (args : list bytes) : Command :=
  with_flags "token list" [] args (fun _ _ => stored "token list" "" (ListTokens org) (fun tokens => answer (OTokens tokens))).
Definition tokenRevokeFlags : FlagSet := [("id", FInt)]%string.
Definition cmdTokenRevoke (org : Z) (args : list bytes) : Command :=
  let cmd := "token revoke"%string in
  with_flags cmd tokenRevokeFlags args (fun sets _ =>
  let id := flag_z sets "id" 0 in
  if id <=? 0 then refuse cmd (RRequired "id")
  else stored cmd "" (DeleteToken org id) (fun _ => answer (OTokenRevoked id))).
Definition cmdToken `{KitAuth} (org : Z) (token : option bytes) (args : list bytes) : Command :=
  subcommand "token" [("create", cmdTokenCreate org token); ("list", cmdTokenList org); ("revoke", cmdTokenRevoke org)]%string args.

End Cli.
