(* ===== verification/Drain.v ===== *)
(** * Draining the queue of runs ([jobs/runner.go])

    [DrainOnce] runs every pending run, which is what [tend run] does after it
    has queued one; that it ends, and that nothing is left. *)
From S2P Require Import Prelude GoTime Tail Utf8 Domain Heartbeat Pacing Sql Schema StoreEvents Executor Failure Redact Capture GoStrings StoreRuns StoreConfig StoreInv StoreSpec History Runner.
Open Scope Z_scope.

Section Drain.
Context `{World} `{JSONText}.
Variable Backoff : option (Z -> Duration).
Variable ctx_done : nat -> bool.
Variable box : option (string -> option string).
Variable err_text : Err -> bytes.
Variable decrypt_error : string -> bytes.
Variable execute : InFlight -> Job -> list (string * string) -> list string -> Store RunResult.
Variable claimant : string.

(** [Runner.DrainOnce]; [None] says that the fuel did not do. *)
Fixpoint DrainOnce (fuel : nat) (inFlight : InFlight) : Store (option InFlight) :=
  match fuel with
  | O => ret None
  | S fuel =>
      let* '(claimed, inFlight) := claimAndRun Backoff ctx_done box err_text decrypt_error execute claimant inFlight in
      if claimed : bool then DrainOnce fuel inFlight else ret (Some inFlight)
  end.

(** ** How many runs are pending *)

Definition pending_runs (d : DB) : nat := List.length (select (has_status StatusPending) (db_runs d)).
(** No more runs are pending, and no run is lost. *)
Definition runs_kept (d d' : DB) : Prop := forall r, r ∈ rows (db_runs d) -> exists r', r' ∈ rows (db_runs d') /\ same_run r r'.
Definition no_more_pending (d d' : DB) : Prop := (pending_runs d' <= pending_runs d)%nat /\ runs_kept d d'.

Lemma same_run_refl r : same_run r r.
Proof. by repeat split. Qed.
Lemma same_run_trans r1 r2 r3 : same_run r1 r2 -> same_run r2 r3 -> same_run r1 r3.
Proof. unfold same_run. intuition congruence. Qed.

#[local] Instance no_more_refl : Reflexive no_more_pending.
Proof. intros d. split; [lia|]. intros r Hr. exists r. split; [done|apply same_run_refl]. Qed.
#[local] Instance no_more_trans : Transitive no_more_pending.
Proof.
  intros d1 d2 d3 [H1 K1] [H2 K2]. split; [lia|]. intros r Hr. destruct (K1 r Hr) as (r2 & Hr2 & E2). destruct (K2 r2 Hr2) as (r3 & Hr3 & E3).
  exists r3. split; [done|by eapply same_run_trans].
Qed.

Lemma no_more_eq d d' : db_runs d' = db_runs d -> no_more_pending d d'.
Proof. intros E. split; [unfold pending_runs; by rewrite E|]. intros r Hr. exists r. rewrite E. split; [done|apply same_run_refl]. Qed.

Lemma update_keeps p f d : (forall r, same_run r (f r)) -> runs_kept d (on_runs (update_where p f) d).
Proof.
  intros Hf r Hr. exists (if p r then f r else r). split; [apply elem_of_update; by exists r|]. destruct (p r); [done|apply same_run_refl].
Qed.

(** An update that makes no run pending; one that makes a pending run another. *)
Lemma filter_update_le (l : list RunRow) p f : (forall r, p r = true -> has_status StatusPending (f r) = true -> has_status StatusPending r = true) ->
  (List.length (List.filter (has_status StatusPending) (map (fun r => if p r then f r else r) l)) <= List.length (List.filter (has_status StatusPending) l))%nat.
Proof.
  intros Hf. induction l as [|r l IH]; [done|]. simpl. destruct (p r) eqn:Ep; [|destruct (has_status _ r); simpl; lia].
  specialize (Hf r Ep). destruct (has_status StatusPending (f r)); [rewrite Hf by done|destruct (has_status _ r)]; simpl; lia.
Qed.

Lemma filter_update_lt (l : list RunRow) p f x : (forall r, p r = true -> has_status StatusPending (f r) = false) -> x ∈ l -> p x = true -> has_status StatusPending x = true ->
  (List.length (List.filter (has_status StatusPending) (map (fun r => if p r then f r else r) l)) < List.length (List.filter (has_status StatusPending) l))%nat.
Proof.
  intros Hf Hx Hp Hs. apply list_elem_of_split in Hx as (l1 & l2 & ->). rewrite map_app, !List.filter_app, !length_app. simpl. rewrite Hp, (Hf x Hp), Hs. simpl.
  pose proof (filter_update_le l1 p f ltac:(intros r Hr; by rewrite (Hf r Hr))). pose proof (filter_update_le l2 p f ltac:(intros r Hr; by rewrite (Hf r Hr))). lia.
Qed.

Lemma no_more_update p f d : (forall r, p r = true -> has_status StatusPending (f r) = true -> has_status StatusPending r = true) -> (forall r, same_run r (f r)) ->
  no_more_pending d (on_runs (update_where p f) d).
Proof. intros Hf Hs. split; [unfold pending_runs, select; simpl; by apply filter_update_le|by apply update_keeps]. Qed.

Lemma no_more_record e : evolves no_more_pending (recordEvent e).
Proof. apply evolves_recordEvent. intros d d' Hr. apply no_more_eq. by destruct (record_step_frame _ _ _ Hr) as (? & _). Qed.
Lemma no_more_emit e : evolves no_more_pending (emitEvent e).
Proof. unfold emitEvent. apply evolves_bind; [apply _|apply no_more_record|]. intros a. apply evolves_ret; apply _. Qed.
#[local] Hint Resolve no_more_record no_more_emit : evolves.

Lemma no_more_finish run st ec att out ev : terminal st = true -> evolves no_more_pending (FinishRunAndEmit run st ec att out ev).
Proof.
  intros Ht. unfold FinishRunAndEmit, finishRunTx, emit_recovery, endStreak, dropHeld. evolve; try by apply no_more_eq.
  all: apply no_more_update; [intros r _; first [done | by destruct st]|done].
Qed.
#[local] Hint Resolve no_more_finish : evolves.

Lemma no_more_finish_loop tries run st ec att out ev : terminal st = true -> evolves no_more_pending (finish_loop ctx_done tries run st ec att out ev).
Proof. intros Ht. induction tries as [|tries IH]; cbn [finish_loop]; evolve. Qed.

Lemma no_more_quiet {A} (m : Store A) : evolves eq m -> evolves no_more_pending m.
Proof. intros Hm s. by rewrite <- (Hm s). Qed.

Lemma GetJob_same org id : evolves eq (GetJob org id).
Proof. unfold GetJob, scan_one_job, autocommit. evolve. Qed.
Lemma GetSecret_same org name : evolves eq (GetSecret org name).
Proof. unfold GetSecret, autocommit. evolve. Qed.
Lemma resolve_value_same org v : evolves eq (resolve_value box err_text decrypt_error org v).
Proof. unfold resolve_value. pose proof GetSecret_same. evolve. Qed.
Lemma resolveEnv_same job : evolves eq (resolveEnv box err_text decrypt_error job).
Proof. unfold resolveEnv. induction (map_to_list (j_env job)) as [|[k v] l IH]; simpl; pose proof resolve_value_same; evolve. Qed.

(** ** Running a job *)

(** What the drain relies on of the execution of a job: it does not touch the
    database, and a run ends with the result it records. *)
Definition executes : Prop := forall f job env secrets, evolves eq (execute f job env secrets) /\
  forall s r s', execute f job env secrets s = (Ok r, s') -> terminal (rs_status r) = true.

Lemma run_claimed_no_more inFlight run : executes -> evolves no_more_pending (run_claimed Backoff ctx_done box err_text decrypt_error execute inFlight run).
Proof.
  intros He. unfold run_claimed. apply evolves_bind; [apply _|apply no_more_quiet; apply GetJob_same|]. intros job. cbv zeta.
  apply evolves_bind; [apply _|unfold EmitEvent; evolve|]. intros _.
  apply evolves_bind; [apply _|apply no_more_quiet, evolves_try, resolveEnv_same|]. intros [[env secrets]|e].
  - intros s. unfold bind at 1. destruct (He (inFlight_add (r_id run) (maxRunDuration Backoff job) inFlight) job env secrets) as [Hq Ht]. specialize (Hq s).
    destruct (execute _ _ _ _ s) as [[r|e] s1] eqn:E; simpl in Hq; rewrite Hq; [|reflexivity]. specialize (Ht s r s1 E). revert s1 E Hq. intros s1 _ _.
    cut (evolves no_more_pending (finish ctx_done run job (rs_status r) (rs_exit_code r) (rs_attempt r) (storedOutput (rs_output r) (map bstr secrets) (rs_truncated r)) (rs_truncated r)
           (RunEvent run (j_name job) (terminal_type (rs_status r)) (rs_status r) (rs_exit_code r)) ;;; ret (inFlight_remove (r_id run) (inFlight_add (r_id run) (maxRunDuration Backoff job) inFlight)))); [intros Hm; apply (Hm s1)|].
    apply evolves_bind; [apply _| |intros ?; apply evolves_ret; apply _]. unfold finish. by apply no_more_finish_loop.
  - apply evolves_bind; [apply _| |intros ?; apply evolves_ret; apply _]. unfold finish. by apply no_more_finish_loop.
Qed.

(** ** The loop *)

Lemma run_oldest w s : (exists e s', ClaimRun w s = (Error e, s')) \/
  (exists s', ClaimRun w s = (Ok None, s') /\ st_db s' = st_db s /\ pending_runs (st_db s) = O) \/
  exists run s', ClaimRun w s = (Ok (Some run), s') /\ (pending_runs (st_db s') < pending_runs (st_db s))%nat /\ runs_kept (st_db s) (st_db s').
Proof.
  unfold ClaimRun, autocommit, tx, bind, now_, query, exec, ret. simpl. destruct (select1 (has_status StatusPending) (db_runs (st_db s))) as [r|] eqn:Es.
  - apply select1_Some in Es as [Hr Hp]. destruct (fault (st_tick s)); simpl; [|by left; eexists _, _|];
      (destruct (fault _); simpl; [|by left; eexists _, _|by left; eexists _, _]); right; right; eexists _, _; (split; [reflexivity|split; [|by apply update_keeps]]);
      unfold pending_runs, select; simpl; (apply (filter_update_lt _ _ _ r); [by intros|done|apply Z.eqb_refl|done]).
  - assert (pending_runs (st_db s) = O).
    { unfold pending_runs. destruct (select _ _) as [|x l] eqn:E; [done|]. assert (Hx : x ∈ select (has_status StatusPending) (db_runs (st_db s))) by (rewrite E; by left).
      apply elem_of_select in Hx as [Hx Hp]. by rewrite (proj1 (select1_None _ _) Es x Hx) in Hp. }
    destruct (fault (st_tick s)); simpl; [|by left; eexists _, _|]; (destruct (fault _); simpl; [|by left; eexists _, _|by left; eexists _, _]); right; left; by eexists.
Qed.

(** One turn. *)
Lemma DrainOnce_turn fuel inFlight s : DrainOnce (S fuel) inFlight s =
  match ClaimRun (if String.eqb claimant "" then workerID else claimant) s with
  | (Error e, s') => (Error e, s')
  | (Ok None, s') => (Ok (Some inFlight), s')
  | (Ok (Some run), s') =>
      match run_claimed Backoff ctx_done box err_text decrypt_error execute inFlight run s' with
      | (Error e, s') => (Error e, s')
      | (Ok inFlight, s') => DrainOnce fuel inFlight s'
      end
  end.
Proof.
  cbn [DrainOnce]. unfold claimAndRun, bind at 1 2. destruct (ClaimRun _ s) as [[[run|]|e] s']; [|done|done].
  unfold bind at 1. by destruct (run_claimed _ _ _ _ _ _ _ _ s') as [[f|e] s2].
Qed.

(** Every run of [d] is in [d'], and none of [d'] is pending. *)
Definition drained (d d' : DB) : Prop := (forall r, r ∈ rows (db_runs d') -> rr_status r <> StatusPending) /\ runs_kept d d'.

(** C38: draining ends: whatever fails, a loop of one turn for each pending run
    and one more is enough, and unless a turn fails no run is left pending and
    none is lost. *)
Theorem DrainOnce_drains fuel inFlight s : executes -> (pending_runs (st_db s) < fuel)%nat ->
  (exists e s', DrainOnce fuel inFlight s = (Error e, s')) \/
  exists inFlight' s', DrainOnce fuel inFlight s = (Ok (Some inFlight'), s') /\ drained (st_db s) (st_db s').
Proof.
  intros He. revert inFlight s. induction fuel as [|fuel IH]; intros inFlight s Hf; [lia|]. rewrite DrainOnce_turn.
  destruct (run_oldest (if String.eqb claimant "" then workerID else claimant) s) as [(e & s' & ->)|[(s' & -> & Ed & Ep)|(run & s' & -> & Hlt & Hk)]]; [left; by eexists _, _| |].
  - right. exists inFlight, s'. split; [done|]. rewrite Ed. split; [|by apply no_more_refl]. intros r Hr Hs.
    assert (Hin : r ∈ select (has_status StatusPending) (db_runs (st_db s))) by (apply elem_of_select; split; [done|by apply has_status_true]).
    unfold pending_runs in Ep. apply length_zero_iff_nil in Ep. rewrite Ep in Hin. by apply elem_of_nil in Hin.
  - pose proof (run_claimed_no_more inFlight run He s') as Hle. destruct (run_claimed _ _ _ _ _ _ _ _ s') as [[f|e] s2]; [|left; by eexists _, _].
    destruct Hle as [Hle Hk2]. simpl in Hle, Hk2. destruct (IH f s2) as [Hfail|(f' & s3 & -> & Hp & Hk3)]; [lia|by left|]. right. exists f', s3. split; [done|]. split; [done|].
    intros r Hr. destruct (Hk r Hr) as (r1 & Hr1 & E1). destruct (Hk2 r1 Hr1) as (r2 & Hr2 & E2). destruct (Hk3 r2 Hr2) as (r3 & Hr3 & E3).
    exists r3. split; [done|]. eapply same_run_trans; [|exact E3]. by eapply same_run_trans.
Qed.

End Drain.

(** Two runs queued, and a job that succeeds. *)
Definition succeeds_at_once (f : InFlight) (job : Job) (env : list (string * string)) (secrets : list string) : Store RunResult :=
  ret {| rs_status := StatusSucceeded; rs_exit_code := 0; rs_output := []; rs_truncated := false; rs_attempt := 1; rs_started := zero_time; rs_ended := zero_time |}.
Definition queued : St DB := @run_ops (steady Hour) plain_text [OpCreateJob flaky_job; OpEnqueueRun 1 1; OpEnqueueRun 1 1] start.

Lemma DrainOnce_drains_witness :
  (exists e s', @DrainOnce (steady Hour) plain_text None (fun _ => false) None (fun _ => []) (fun _ => []) succeeds_at_once "" 3 ∅ queued = (Error e, s')) \/
  exists inFlight' s', @DrainOnce (steady Hour) plain_text None (fun _ => false) None (fun _ => []) (fun _ => []) succeeds_at_once "" 3 ∅ queued = (Ok (Some inFlight'), s') /\
    drained (st_db queued) (st_db s').
Proof.
  apply (@DrainOnce_drains (steady Hour) plain_text None (fun _ => false) None (fun _ => []) (fun _ => []) succeeds_at_once "" 3 ∅ queued).
  - intros f job env secrets. split; [intros s; reflexivity|]. by intros s r s' [= <- _].
  - vm_compute. lia.
Defined.
