(* ===== verification/CliRun.v ===== *)
(** * Running and following jobs on the command line ([cli/cli.go]: [cmdRun], [cmdLogs], [cmdSync], [cmdDoctor])

    [tend run], which queues a run, drains the queue and delivers what it
    caused; [tend logs] with its poll; [tend sync] over a file; [tend doctor]. *)
From S2P Require Import Prelude GoTime Tail Utf8 Domain Heartbeat Pacing Redact GoStrings Sql Schema StoreEvents Executor StoreHeartbeats StoreConfig StoreRuns StoreInv JobSpec Runner ConfigFile Flags CliText Cli CliAlerts Drain.
Open Scope Z_scope.

(** [jobs.ManualClaimant]: of a host's name, if it is known, and a process id. *)
Definition ManualClaimant (hostname : option string) (pid : Z) : string :=
  let host := match hostname with Some h => if String.eqb h "" then "unknown-host" else h | None => "unknown-host" end%string in
  (ManualClaimantPrefix +:+ host +:+ ":" +:+ str (Itoa pid))%string.

Section Cli.
Context `{World} `{JSONText} `{URLs} `{GoText} `{GoFlags}.
Abbreviation Command := (Store (Out + CliError)).

(** ** [tend run] *)

Section RunCommand.
Variable ctx_done : nat -> bool.
Variable err_text : Err -> bytes.
Variable decrypt_error : string -> bytes.
Variable execute : InFlight -> Job -> list (string * string) -> list string -> Store RunResult.
(** The kit's worker: one pass over the due deliveries, for a key. *)
Variable deliver : Box -> Store unit.

(** The key of the runner: its [Decrypt]. *)
Definition runner_box (box : option Box) : option (string -> option string) :=
  (fun b ciphertext => str <$> @Decrypt b ciphertext) <$> box.

(** The drain of [cmdRun], with as many turns as there are runs pending and one
    more; the runner retries at the default pace. *)
Definition drain (box : option Box) (claimant : string) : Store (option InFlight) :=
  let* n := query pending_runs in
  DrainOnce None ctx_done (runner_box box) err_text decrypt_error execute claimant (S n) ∅.

(** [cmdRun]: what the deliveries come to is at most warned about. *)
Definition cmdRun (box : option Box) (org : Z) (claimant : string) (args : list bytes) : Command :=
  with_flags "run" [] args (fun _ others =>
  match others with
  | [] => refuse "run" RUsage
  | name :: _ =>
      stored "run" "get job" (GetJobByName org (str name)) (fun j =>
      stored "run" "enqueue" (EnqueueRun org (j_id j)) (fun _ =>
      stored "run" "drain" (drain box claimant) (fun _ =>
      let* _ := match box with None => ret (Ok tt) | Some b => try (deliver b) end in
      stored "run" "list runs" (ListRuns org (j_id j) 1) (fun runs => answer (ORun (head runs))))))
  end).

End RunCommand.

(** ** [tend logs] *)

(** The loop over a poll's runs, oldest first: those printed, and the new [lastID]. *)
Fixpoint follow_print (lastID : Z) (runs : list Run) : list Run * Z :=
  match runs with
  | [] => ([], lastID)
  | r :: rest =>
      if lastID <? r_id r then let '(l, lastID) := follow_print (r_id r) rest in (r :: l, lastID)
      else follow_print lastID rest
  end.

(** [--follow], for the polls before the context ends, with what other
    processes do to the database between two polls. *)
Fixpoint follow (org jobID lastID : Z) (between : list (DB -> DB)) : Store (list Run) :=
  let* runs := ListRuns org jobID 50 in
  let '(l, lastID) := follow_print lastID (rev runs) in
  match between with
  | [] => ret l
  | f :: rest => exec f ;;; let* more := follow org jobID lastID rest in ret (l ++ more)
  end.

(** [cmdLogs]. *)
Definition logsFlags : FlagSet := [("follow", FBool)]%string.
Definition cmdLogs (org : Z) (between : list (DB -> DB)) (args : list bytes) : Command :=
  with_flags "logs" logsFlags args (fun sets others =>
  match others with
  | [] => refuse "logs" RUsage
  | name :: _ =>
      stored "logs" "get job" (GetJobByName org (str name)) (fun j =>
      stored "logs" "list runs" (if flag_bool sets "follow" false then follow org (j_id j) 0 between else ListRuns org (j_id j) 20) (fun runs => answer (ORuns runs)))
  end).

(** ** [tend sync] *)

Section SyncCommand.
Context {V : Type} (marshal : gmap string (CfgValue V) -> option bytes) (cron_parse : string -> option (Time -> Time)) (err_text : Err -> bytes).
(** [os.ReadFile], and the YAML decoder with [yaml.Strict]. *)
Variable ReadFile : bytes -> option bytes.
Variable decode : bytes -> option (fileRoot V).

(** [cmdSync]. *)
Definition syncFlags : FlagSet := [("prune", FBool)]%string.
Definition cmdSync (box : option Box) (org : Z) (tokens : list (option string)) (args : list bytes) : Command :=
  with_flags "sync" syncFlags args (fun sets others =>
  match others with
  | [] => refuse "sync" RUsage
  | path :: _ =>
      match ReadFile path with
      | None => refuse "sync" RReadFile
      | Some data =>
          match decode data with
          | None => refuse "sync" RYAML
          | Some root =>
              match Parse cron_parse root with
              | inr e => refuse "sync" (RParse e)
              | inl cfg => stored "sync" "reconcile" (Reconcile err_text marshal cron_parse org box tokens cfg (flag_bool sets "prune" true)) (fun r => answer (OSynced r))
              end
          end
      end
  end).

End SyncCommand.

(** ** [tend doctor] *)

(** What [cmdDoctor] reads; [args] is not looked at. *)
Definition cmdDoctor (org : Z) (args : list bytes) : Command :=
  stored "doctor" "list jobs" (ListJobs org) (fun '(js, bad) =>
  stored "doctor" "list channels" (ListChannels org) (fun cs =>
  stored "doctor" "list rules" (ListRules org) (fun rs =>
  stored "doctor" "list heartbeats" (ListHeartbeats org) (fun hbs => answer (ODoctor js cs rs hbs bad))))).

(** [jobProblem], over the host's files: the contents of a file, whether they
    hold a PEM certificate, whether a directory can be made in a place. *)
Inductive Problem := CAUnreadable | CANoCertificate | ScratchUnusable.
Definition jobProblem (ReadFile : string -> option bytes) (has_certificate : bytes -> bool) (can_mkdir : string -> bool) (j : Job) : option Problem :=
  match j_spec j with
  | Some s =>
      if negb (j_enabled j) then None
      else match j_type j with
      | TLS =>
          if String.eqb (sp_ca_file s) "" then None
          else match ReadFile (sp_ca_file s) with
          | None => Some CAUnreadable
          | Some pem => if has_certificate pem then None else Some CANoCertificate
          end
      | Drill => if can_mkdir (sp_scratch_dir s) then None else Some ScratchUnusable
      | _ => None
      end
  | None => None
  end.

End Cli.
