(* ===== verification/CliMain.v ===== *)
(** * The command line's entry ([cli/cli.go]: [Run]; [cli/exec.go]; [cli/import.go])

    What [Run] answers or refuses before it opens the database, the settings
    [tend exec] and [tend import] make of their flags, and the dispatch. *)
From S2P Require Import Prelude GoTime Tail Utf8 Domain Heartbeat Pacing Redact GoStrings Sql Schema StoreEvents StoreHeartbeats StoreConfig PingApi JobSpec Executor StoreRuns StoreInv Runner ConfigFile EnvConfig PingExec HcImport Auth Flags CliText Cli CliAlerts CliAccounts Drain CliRun.
Open Scope Z_scope.

(** [baseURL]. *)
Definition baseURL (env : Env) : bytes :=
  let b := env "TEND_BASE_URL"%string in if is_nil b then bstr "http://localhost:8080" else TrimSlashes b.

(** [wantsHelp]. *)
Definition wantsHelp (args : list bytes) : bool := existsb (fun a => bool_decide (str a ∈ ["-h"; "--help"; "help"]%string)) args.

Section Main.
Context `{World} `{JSONText} `{GoText} `{GoFlags} `{PingURLs} `{HcLibs}.
Variable env : Env.

(** ** [tend serve]'s settings *)

(** [serveOptions]. *)
Record ServeOptions := { so_no_master_key : bool; so_retention : Retention; so_delivery_hold : Duration; so_ping_body_limit : Z; so_alert_output_lines : Z }.

(** Why [Run] refuses before the store is opened. *)
Inductive Refused := NoDatabase | BadFlags (e : FlagError) | Unexpected (arg : bytes) | NoMasterKey | BadSetting (e : ConfigError).

(** [parseServeFlags]: whether [-no-master-key] is set. *)
Definition serveFlags : FlagSet := [("no-master-key", FBool)]%string.
Definition parseServeFlags (args : list bytes) : bool + Refused :=
  match flag_parse serveFlags args with
  | inr e => inr (BadFlags e)
  | inl (_, x :: _) => inr (Unexpected x)
  | inl (sets, []) => inl (flag_bool sets "no-master-key" false)
  end.

(** The part of [Run] that reads serve's flags and settings. *)
Definition serve_options (cfg : EnvConfig.Config) (args : list bytes) : ServeOptions + Refused :=
  match parseServeFlags args with
  | inr e => inr e
  | inl noMasterKey =>
      if is_nil (cf_master_key cfg) && negb noMasterKey then inr NoMasterKey
      else match LoadRetention env with
      | inr e => inr (BadSetting e)
      | inl retention =>
          match LoadDeliveryHold env with
          | inr e => inr (BadSetting e)
          | inl hold =>
              match LoadPingBodyLimit env with
              | inr e => inr (BadSetting e)
              | inl limit =>
                  match LoadAlertOutputLines env with
                  | inr e => inr (BadSetting e)
                  | inl lines => inl {| so_no_master_key := noMasterKey; so_retention := retention; so_delivery_hold := hold; so_ping_body_limit := limit; so_alert_output_lines := lines |}
                  end
              end
          end
      end
  end.

(** ** Before the store is opened *)

(** What [Run] does with a command: it answers or refuses without a database,
    or goes on to open it. *)
Inductive Admission := Usage | PrintVersion | Help | RunExec (args : list bytes) | ServeHelp | Refuse (why : Refused) | Open (serve : option ServeOptions).

Definition admit_command (cfg : EnvConfig.Config) (args : list bytes) : Admission :=
  match args with
  | [] => Usage
  | cmd :: rest =>
      let c := str cmd in
      if String.eqb c "version" then PrintVersion
      else if bool_decide (c ∈ ["-h"; "--help"; "help"]%string) then Help
      else if String.eqb c "exec" then RunExec rest
      else if String.eqb c "serve" && wantsHelp rest then ServeHelp
      else if is_nil (cf_dsn cfg) then Refuse NoDatabase
      else if String.eqb c "serve" then match serve_options cfg rest with inr e => Refuse e | inl o => Open (Some o) end
      else Open None
  end.

(** ** [tend exec] *)

Inductive ExecError := ExFlags (e : FlagError) | ExNoCommand | ExBothURLs | ExNoBase | ExNoURL | ExBadURL (url : bytes).

Definition execFlags : FlagSet :=
  [("ping-url", FString); ("token", FString); ("base-url", FString); ("no-start", FBool); ("body-limit", FInt); ("timeout", FDuration);
   ("start-budget", FDuration); ("finish-budget", FDuration); ("retries", FInt)]%string.

Definition envPingURL : string := "TEND_PING_URL".

(** The ping URL the flags and the environment give. *)
Definition exec_target (sets : list (string * bytes)) : bytes + ExecError :=
  let pingURL := flag_str sets "ping-url" [] in
  let token := flag_str sets "token" [] in
  let target := if is_nil pingURL && is_nil token then env envPingURL else pingURL in
  if is_nil token then inl target
  else if is_set sets "ping-url" then inr ExBothURLs
  else
    let b := flag_str sets "base-url" [] in
    let b := if is_nil b then env "TEND_BASE_URL"%string else b in
    if is_nil b then inr ExNoBase else inl (TrimSlashes b ++ bstr "/ping/" ++ escape_segment token).

(** The settings of a run; 0 for no body or no retry is told apart from unset. *)
Definition exec_config (sets : list (string * bytes)) (target : bytes) : PingExec.Config :=
  let bodyLimit := flag_z sets "body-limit" DefaultBodyLimit in
  let retries := flag_z sets "retries" DefaultRetries in
  let timeout := flag_dur sets "timeout" PingExec.DefaultTimeout in
  {| xc_url := str target; xc_start := negb (flag_bool sets "no-start" false); xc_body_limit := if bodyLimit =? 0 then -1 else bodyLimit;
     xc_timeout := if timeout <=? 0 then PingExec.DefaultTimeout else timeout; xc_start_budget := flag_dur sets "start-budget" DefaultStartBudget;
     xc_finish_budget := flag_dur sets "finish-budget" DefaultFinishBudget; xc_retries := if retries =? 0 then -1 else retries |}.

(** [cmdExec] up to the run: its settings and the command; [None] is help. *)
Definition exec_plan (args : list bytes) : option (PingExec.Config * list bytes) + ExecError :=
  match flag_parse execFlags args with
  | inr ErrHelp => inl None
  | inr e => inr (ExFlags e)
  | inl (_, []) => inr ExNoCommand
  | inl (sets, command) =>
      match exec_target sets with
      | inr e => inr e
      | inl target =>
          if is_nil target then inr ExNoURL
          else if negb (CheckPingURL (str target)) then inr (ExBadURL target)
          else inl (Some (exec_config sets target, command))
      end
  end.

(** [cmdExec], with the run: the exit status asked of the process. *)
Definition cmdExec (run : PingExec.Config -> bytes -> list bytes -> Z) (args : list bytes) : Z + ExecError :=
  match exec_plan args with
  | inr e => inr e
  | inl None => inl 0
  | inl (Some (cfg, command)) => inl (run cfg (hd [] command) (tl command))
  end.

(** ** [tend import healthchecks] *)

Inductive ImportError := ImUsage | ImFlags (e : FlagError) | ImUnexpected (arg : bytes) | ImNoKeyFile | ImKeyUnread | ImKeyEmpty | ImFetch | ImStore (e : Err) | ImFailed (n : nat).

(** [readAPIKey]; of [stdin] the first 4096 bytes. *)
Definition readAPIKey (ReadFile : bytes -> option bytes) (stdin : option bytes) (path : bytes) : bytes + ImportError :=
  match (if bool_decide (path = bstr "-") then take 4096 <$> stdin else ReadFile path) with
  | None => inr ImKeyUnread
  | Some raw => let key := TrimSpace raw in if is_nil key then inr ImKeyEmpty else inl key
  end.

Definition importFlags : FlagSet := [("api-key-file", FString); ("url", FString); ("dry-run", FBool); ("include-paused", FBool)]%string.

(** [cmdImport], with [hcimport.Fetch] of a URL and a key. *)
Definition cmdImport (ReadFile : bytes -> option bytes) (Fetch : bytes -> bytes -> option (list Check)) (org : Z) (stdin : option bytes) (args : list bytes)
    : Store (list (Action * option Err) + ImportError) :=
  match args with
  | sub :: rest =>
      if negb (bool_decide (sub = bstr "healthchecks")) then ret (inr ImUsage)
      else match flag_parse importFlags rest with
      | inr e => ret (inr (ImFlags e))
      | inl (_, x :: _) => ret (inr (ImUnexpected x))
      | inl (sets, []) =>
          let keyFile := flag_str sets "api-key-file" [] in
          if is_nil keyFile then ret (inr ImNoKeyFile)
          else match readAPIKey ReadFile stdin keyFile with
          | inr e => ret (inr e)
          | inl key =>
              match Fetch (flag_str sets "url" (bstr "https://healthchecks.io")) key with
              | None => ret (inr ImFetch)
              | Some checks =>
                  let dryRun := flag_bool sets "dry-run" false in
                  let* existing := try (ListHeartbeats org) in
                  match existing with
                  | Error e => ret (inr (ImStore e))
                  | Ok existing =>
                      let* now := now_ in
                      let* report := carry_out org dryRun (Plan checks existing {| op_now := now; op_include_paused := flag_bool sets "include-paused" false |}) in
                      ret (if (failed report =? 0)%nat then inl report else inr (ImFailed (failed report)))
                  end
              end
          end
      end
  | [] => ret (inr ImUsage)
  end.

End Main.

(** ** The dispatch *)

Section Dispatch.
Context `{World} `{JSONText} `{URLs} `{GoText} `{GoFlags} `{PingURLs} `{HcLibs} `{KitAuth}.
Variable env : Env.

(** What a process finds or makes up: its standard input, files and the other
    side of an import; random values; the outside of [tend run], [tend sync],
    [tend logs --follow], [tend exec] and [tend serve]. *)
Record Outside (V : Type) := {
  out_stdin : option bytes; out_ReadFile : bytes -> option bytes; out_Fetch : bytes -> bytes -> option (list Check);
  out_token : option string; out_tokens : list (option string); out_random : option (list Z); out_api_token : option bytes; out_HashPassword : bytes -> option string;
  out_ctx_done : nat -> bool; out_err_text : Err -> bytes; out_decrypt_error : string -> bytes;
  out_execute : InFlight -> Job -> list (string * string) -> list string -> Store RunResult; out_deliver : Box -> Store unit; out_claimant : string;
  out_between : list (DB -> DB); out_marshal : gmap string (CfgValue V) -> option bytes; out_decode : bytes -> option (fileRoot V);
  out_exec : PingExec.Config -> bytes -> list bytes -> Z; out_serve : option Box -> Org -> ServeOptions -> Store (option bytes) }.
Context {V : Type} (o : Outside V) (cron_parse : string -> option (Time -> Time)).

(** What a command comes to. *)
Inductive Result :=
| ShowUsage | ShowVersion | ShowHelp | ShowServeUsage | Refusing (why : Refused)
| OpenFailed | MigrateFailed | BootstrapFailed (e : Err) | BadMasterKey
| UnknownCommand (cmd : bytes) | Executed (r : Z + ExecError) | Answered (r : Out + CliError) | Imported (r : list (Action * option Err) + ImportError) | Served (err : option bytes).

(** The [switch] at the end of [Run]. *)
Definition run_command (box : option Box) (org : Org) (serve : option ServeOptions) (cmd : bytes) (args : list bytes) : Store Result :=
  let id := o_id org in
  let said (m : Store (Out + CliError)) : Store Result := let* r := m in ret (Answered r) in
  let c := str cmd in
  if String.eqb c "serve" then match serve with Some opts => let* e := out_serve _ o box org opts in ret (Served e) | None => ret (UnknownCommand cmd) end
  else if String.eqb c "sync" then said (cmdSync (out_marshal _ o) cron_parse (out_err_text _ o) (out_ReadFile _ o) (out_decode _ o) box id (out_tokens _ o) args)
  else if String.eqb c "job" then said (cmdJob cron_parse id args)
  else if String.eqb c "run" then said (cmdRun (out_ctx_done _ o) (out_err_text _ o) (out_decrypt_error _ o) (out_execute _ o) (out_deliver _ o) box id (out_claimant _ o) args)
  else if String.eqb c "logs" then said (cmdLogs id (out_between _ o) args)
  else if String.eqb c "secret" then said (cmdSecret box id (out_stdin _ o) args)
  else if String.eqb c "channel" then said (cmdChannel box id (out_stdin _ o) args)
  else if String.eqb c "rule" then said (cmdRule id args)
  else if String.eqb c "heartbeat" then said (cmdHeartbeat id (out_token _ o) (out_random _ o) (out_stdin _ o) args)
  else if String.eqb c "doctor" then said (cmdDoctor id args)
  else if String.eqb c "user" then said (cmdUser (out_HashPassword _ o) id (out_stdin _ o) args)
  else if String.eqb c "token" then said (cmdToken id (out_api_token _ o) args)
  else if String.eqb c "import" then let* r := cmdImport (out_ReadFile _ o) (out_Fetch _ o) id (out_stdin _ o) args in ret (Imported r)
  else ret (UnknownCommand cmd).

(** The key of the environment: none, a box, or no key at all. *)
Definition master_box (NewBox : bytes -> option Box) (cfg : EnvConfig.Config) : option (option Box) :=
  if is_nil (cf_master_key cfg) then Some None else match NewBox (cf_master_key cfg) with Some b => Some (Some b) | None => None end.

(** [Run]; [opens] and [migrates] say whether [store.Open] and [Migrate] work. *)
Definition Run (cfg : EnvConfig.Config) (NewBox : bytes -> option Box) (opens migrates : bool) (args : list bytes) : Store Result :=
  match admit_command env cfg args with
  | Usage => ret ShowUsage
  | PrintVersion => ret ShowVersion
  | Help => ret ShowHelp
  | ServeHelp => ret ShowServeUsage
  | RunExec rest => ret (Executed (cmdExec env (out_exec _ o) rest))
  | Refuse why => ret (Refusing why)
  | Open serve =>
      if negb opens then ret OpenFailed
      else if negb migrates then ret MigrateFailed
      else
        let* org := try BootstrapDefaultOrg in
        match org with
        | Error e => ret (BootstrapFailed e)
        | Ok org =>
            match master_box NewBox cfg with
            | None => ret BadMasterKey
            | Some box => run_command box org serve (hd [] args) (tl args)
            end
        end
  end.

End Dispatch.

(** ** What the flags of [tend exec] come to *)

Section Exec.
Context `{GoText} `{GoFlags} `{PingURLs}.

(** what [tend exec] runs with is what its flags say: a plan has a ping URL
    that is fit to be pinged and a command; 0 retries or a body limit of 0 mean
    none, where leaving the flag out means the default, and a time limit that
    is not positive means the default one; and a token becomes the ping URL of
    that token on the base URL, whatever bytes it has. *)
Theorem exec_plan_settings (env : Env) args sets others c command : flag_parse execFlags args = inl (sets, others) ->
  exec_plan env args = inl (Some (c, command)) ->
  CheckPingURL (xc_url c) = true /\ command = others /\ command <> [] /\
  xc_start c = negb (flag_bool sets "no-start" false) /\
  retries c = Z.max 0 (flag_z sets "retries" DefaultRetries) /\ body_limit c = Z.max 0 (flag_z sets "body-limit" DefaultBodyLimit) /\
  attempt_timeout c = (let d := flag_dur sets "timeout" PingExec.DefaultTimeout in if 0 <? d then d else PingExec.DefaultTimeout) /\
  start_budget c = (let d := flag_dur sets "start-budget" DefaultStartBudget in if 0 <? d then d else DefaultStartBudget) /\
  finish_budget c = (let d := flag_dur sets "finish-budget" DefaultFinishBudget in if 0 <? d then d else DefaultFinishBudget) /\
  (flag_str sets "token" [] <> [] -> exists base, xc_url c = str (TrimSlashes base ++ bstr "/ping/" ++ escape_segment (flag_str sets "token" [])) /\
    PathUnescape (escape_segment (flag_str sets "token" [])) = Some (flag_str sets "token" []) /\ base <> []).
Proof.
  intros Hf Hp. unfold exec_plan in Hp. rewrite Hf in Hp. destruct others as [|x others]; [done|]. destruct (exec_target env sets) as [target|] eqn:Et; [|done].
  destruct (is_nil target); [done|]. destruct (CheckPingURL (str target)) eqn:Ec; [|done]. injection Hp as <- <-.
  split; [done|]. split; [done|]. split; [done|]. split; [done|]. unfold exec_config, retries, body_limit, attempt_timeout, start_budget, finish_budget.
  cbn [xc_retries xc_body_limit xc_timeout xc_start_budget xc_finish_budget xc_url]. repeat split; cbv zeta.
  - destruct (Z.eqb_spec (flag_z sets "retries" DefaultRetries) 0) as [->|]; [done|]. rewrite (proj2 (Z.eqb_neq _ _)) by done.
    destruct (Z.ltb_spec (flag_z sets "retries" DefaultRetries) 0); lia.
  - destruct (Z.eqb_spec (flag_z sets "body-limit" DefaultBodyLimit) 0) as [->|]; [done|]. rewrite (proj2 (Z.eqb_neq _ _)) by done.
    destruct (Z.ltb_spec (flag_z sets "body-limit" DefaultBodyLimit) 0); lia.
  - generalize (flag_dur sets "timeout" PingExec.DefaultTimeout) as d. intros d. destruct (Z.leb_spec d 0), (Z.ltb_spec 0 d); try lia; [done|].
    by rewrite (proj2 (Z.leb_gt _ _)).
  - generalize (flag_dur sets "start-budget" DefaultStartBudget) as d. intros d. destruct (Z.leb_spec d 0), (Z.ltb_spec 0 d); done || lia.
  - generalize (flag_dur sets "finish-budget" DefaultFinishBudget) as d. intros d. destruct (Z.leb_spec d 0), (Z.ltb_spec 0 d); done || lia.
  - intros Ht. unfold exec_target in Et. destruct (flag_str sets "token" []) as [|b tok] eqn:Etok; [done|]. cbn [is_nil] in Et.
    destruct (is_set sets "ping-url"); [done|].
    exists (if is_nil (flag_str sets "base-url" []) then env "TEND_BASE_URL"%string else flag_str sets "base-url" []).
    destruct (is_nil (if is_nil (flag_str sets "base-url" []) then _ else _)) eqn:Eb; [done|]. injection Et as <-.
    split; [done|]. split; [apply escape_segment_unescape|]. intros E. by rewrite E in Eb.
Qed.

End Exec.

#[local] Instance exec_flags : GoFlags := {| flag_int := Atoi; flag_float _ := None |}.
#[local] Instance exec_text : GoText := {| time_Parse _ _ := None; time_ParseDuration _ := None; Quote s := s; FormatG _ := [] |}.
#[local] Instance exec_urls : PingURLs := fun _ => Some ("https", "tend.example", false)%string.
Definition at_base : Env := fun name => if String.eqb name "TEND_BASE_URL" then bstr "https://tend.example/" else [].
Definition exec_args : list bytes := map bstr ["-token"; "a b"; "-retries"; "0"; "--"; "make"; "-j"]%string.

Lemma exec_plan_settings_witness : exists c, exec_plan at_base exec_args = inl (Some (c, map bstr ["make"; "-j"]%string)) /\ retries c = 0 /\
  xc_url c = "https://tend.example/ping/a%20b"%string.
Proof.
  eexists. split; [vm_compute; reflexivity|].
  match goal with |- retries ?c = 0 /\ _ =>
    destruct (exec_plan_settings at_base exec_args [("token", bstr "a b"); ("retries", bstr "0")]%string (map bstr ["make"; "-j"]%string) c (map bstr ["make"; "-j"]%string)) as (_ & _ & _ & _ & Hr & _);
      [vm_compute; reflexivity|vm_compute; reflexivity|] end.
  split; [exact Hr|vm_compute; reflexivity].
Defined.

(** A key that is not one is refused only after the database was opened and
    the organization made in it. *)
Section BadKey.
Context `{JSONText} `{URLs} `{HcLibs} `{KitAuth} {V : Type} (o : Outside V) (cron_parse : string -> option (Time -> Time)).
#[local] Instance at_one : World := steady Hour.
Definition bad_key : EnvConfig.Config := {| cf_postgres := false; cf_dsn := bstr "/data/tend.db"; cf_master_key := bstr "typo" |}.
Example bad_key_writes : let '(r, s') := Run (fun _ => []) o cron_parse bad_key (fun _ => None) true true [bstr "serve"] (mkSt empty_db 0) in
  r = Ok BadMasterKey /\ List.length (rows (db_orgs (st_db s'))) = 1%nat.
Proof. split; vm_compute; reflexivity. Qed.
End BadKey.
