(* ===== verification/CliReport.v ===== *)
(** * What is said of the configuration, and the exit status ([cli/cli.go], [cmd/tend/main.go])

    What [tend doctor] and the first line of [tend serve] print of the DSN and
    of the base URL, the link base of the alerts, the schedule column, the key
    that signs sessions, and what the process exits with. What [net/url] and
    [path/filepath] make of a text is the parameter [DSNTexts]. *)
From S2P Require Import Prelude GoTime Tail Domain Failure Redact GoStrings Sql Schema Executor JobSpec TimeText PingApi Runner ConfigFile EnvConfig PingExec HcImport Auth Flags Cli CliRun CliMain.
Open Scope Z_scope.

(** ** Texts without credentials *)

(** A [url.URL]: the user with a password, if there is one, and what follows
    the host. *)
Record UrlParts := { up_scheme : bytes; up_user : option (bytes * option bytes); up_host : bytes; up_rest : bytes }.

Definition with_user (u : UrlParts) (user : option (bytes * option bytes)) : UrlParts :=
  {| up_scheme := up_scheme u; up_user := user; up_host := up_host u; up_rest := up_rest u |}.

Class DSNTexts := { dsn_Parse : bytes -> option UrlParts; dsn_String : UrlParts -> bytes; filepath_Abs : bytes -> option bytes }.

Section Texts.
Context `{DSNTexts}.

(** [url.URL.Redacted]. *)
Definition Redacted (u : UrlParts) : bytes :=
  dsn_String match up_user u with Some (name, Some _) => with_user u (Some (name, Some (bstr "xxxxx"))) | _ => u end.

(** [redactUserinfo]. *)
Definition redactUserinfo (u : bytes) : bytes :=
  match dsn_Parse u with Some p => match up_user p with Some _ => Redacted p | None => u end | None => u end.

(** [redactDSN]. *)
Definition redactDSN (postgres : bool) (dsn : bytes) : bytes :=
  if postgres then
    match dsn_Parse dsn with
    | Some u => if negb (is_nil (up_host u)) then dsn_String (with_user u None) else bstr "postgres://<unparseable>"
    | None => bstr "postgres://<unparseable>"
    end
  else default dsn (filepath_Abs dsn).

(** what is printed of a PostgreSQL DSN does not depend on the user and the
    password before its host, and of a base URL not on the password: two texts
    that differ in nothing else are printed alike, and a DSN that is no URL is
    not printed at all. *)
Theorem redaction_blind (a b : bytes) (u v : UrlParts) : dsn_Parse a = Some u -> dsn_Parse b = Some v ->
  (with_user u None = with_user v None -> redactDSN true a = redactDSN true b) /\
  (forall name p q, up_user u = Some (name, Some p) -> v = with_user u (Some (name, Some q)) -> redactUserinfo a = redactUserinfo b) /\
  (forall c, dsn_Parse c = None -> redactDSN true c = bstr "postgres://<unparseable>").
Proof.
  intros Ha Hb. split; [|split].
  - intros Hs. unfold redactDSN. rewrite Ha, Hb, Hs. assert (E : up_host u = up_host v) by (by injection Hs). by rewrite E.
  - intros name p q Hu ->. unfold redactUserinfo. rewrite Ha, Hb, Hu. cbn [up_user with_user]. unfold Redacted. by rewrite Hu.
  - intros c Hc. unfold redactDSN. by rewrite Hc.
Qed.

End Texts.

(** [alertLinkBase]: the base, and what [warn] is called with. *)
Definition alertLinkBase `{BaseURLs} (env : Env) : bytes * option ConfigError :=
  match LoadBaseURL env with inl base => (base, None) | inr e => ([], Some e) end.

(** [time.RFC3339] of a time in UTC. *)
Definition rfc3339Layout : list (nat * bytes) :=
  [(4%nat, bstr "-"); (2%nat, bstr "-"); (2%nat, bstr "T"); (2%nat, bstr ":"); (2%nat, bstr ":"); (2%nat, bstr "Z")].

(** [scheduleStr]. *)
Definition scheduleStr (j : Job) : bytes :=
  if negb (String.eqb (j_cron j) "") then bstr "cron:" ++ bstr (j_cron j)
  else if 0 <? j_interval_seconds j then bstr "interval:" ++ Itoa (j_interval_seconds j) ++ bstr "s"
  else if negb (IsZero (j_run_at j)) then bstr "run_at:" ++ lay rfc3339Layout (fields (j_run_at j))
  else bstr "(none)".

(** [deriveSessionKey], over [base64]'s decoding and [hkdf.Key] with SHA-256
    and no salt. *)
Definition sessionKeyInfo : bytes := bstr "tend-session-v1".
Definition sessionKeyLen : Z := 32.
Definition deriveSessionKey (DecodeString : bytes -> option bytes) (hkdf_Key : bytes -> bytes -> Z -> option bytes) (masterKeyB64 : bytes) : option bytes :=
  mk ← DecodeString masterKeyB64; hkdf_Key mk sessionKeyInfo sessionKeyLen.

(** ** The exit status *)

Section Exit.
Context `{World} `{JSONText} `{URLs} `{GoText} `{GoFlags} `{PingURLs} `{HcLibs} `{KitAuth}.

(** [main]: an [ExitError] is the status of a command that was run; any other
    error is printed, and the status is 1. *)
Definition main (r : Result) : Z :=
  match r with
  | ShowUsage | ShowVersion | ShowHelp | ShowServeUsage => 0
  | Executed (inl status) => status
  | Answered (inl _) | Imported (inl _) | Served None => 0
  | _ => 1
  end.

(** [tend exec] exits with the status of the command it ran, with 0 where
    it was asked for help and with 1 where it refused its flags; whatever it
    does, no database is opened, none has to be configured, and the store is as
    it was. *)
Theorem exec_exit_status {V} (env : Env) (o : Outside V) cron_parse cfg NewBox opens migrates rest s :
  exists r, Run env o cron_parse cfg NewBox opens migrates (bstr "exec" :: rest) s = (Ok r, s) /\
  main r = match exec_plan env rest with
           | inl (Some (c, command)) => out_exec V o c (hd [] command) (tl command)
           | inl None => 0
           | inr _ => 1
           end.
Proof.
  unfold Run, admit_command. cbn. eexists. split; [reflexivity|]. unfold cmdExec. by destruct (exec_plan env rest) as [[[c command]|]|].
Qed.

End Exit.

(** ** Concrete texts *)

(** A reading of [scheme://[user[:password]@]host/rest], for the texts below. *)
Definition parts (scheme user pass host rest : string) : UrlParts :=
  {| up_scheme := bstr scheme; up_user := if String.eqb user "" then None else Some (bstr user, if String.eqb pass "" then None else Some (bstr pass));
     up_host := bstr host; up_rest := bstr rest |}.
#[local] Instance two_texts : DSNTexts := {|
  dsn_Parse s :=
    if bool_decide (s = bstr "postgres://tend:s3cr3t@db:5432/tend") then Some (parts "postgres" "tend" "s3cr3t" "db:5432" "/tend")
    else if bool_decide (s = bstr "postgres://tend:other@db:5432/tend") then Some (parts "postgres" "tend" "other" "db:5432" "/tend")
    else if bool_decide (s = bstr "postgres://db:5432/tend?user=tend&password=s3cr3t") then Some (parts "postgres" "" "" "db:5432" "/tend?user=tend&password=s3cr3t")
    else None;
  dsn_String u := up_scheme u ++ bstr "://" ++ match up_user u with Some (n, Some p) => n ++ bstr ":" ++ p ++ bstr "@" | Some (n, None) => n ++ bstr "@" | None => [] end
    ++ up_host u ++ up_rest u;
  filepath_Abs s := Some (bstr "/srv/" ++ s) |}.

Lemma redaction_blind_witness : redactDSN true (bstr "postgres://tend:s3cr3t@db:5432/tend") = redactDSN true (bstr "postgres://tend:other@db:5432/tend").
Proof.
  apply (redaction_blind (bstr "postgres://tend:s3cr3t@db:5432/tend") (bstr "postgres://tend:other@db:5432/tend")
    (parts "postgres" "tend" "s3cr3t" "db:5432" "/tend") (parts "postgres" "tend" "other" "db:5432" "/tend")); reflexivity.
Defined.

Example redacted : str (redactDSN true (bstr "postgres://tend:s3cr3t@db:5432/tend")) = "postgres://db:5432/tend"%string
  /\ str (redactUserinfo (bstr "postgres://tend:s3cr3t@db:5432/tend")) = "postgres://tend:xxxxx@db:5432/tend"%string.
Proof. vm_compute. done. Qed.

(** A password that is a parameter of the DSN is printed. *)
Example query_password_printed : str (redactDSN true (bstr "postgres://db:5432/tend?user=tend&password=s3cr3t")) = "postgres://db:5432/tend?user=tend&password=s3cr3t"%string.
Proof. vm_compute. reflexivity. Qed.

Example schedules : str (lay rfc3339Layout (fields (63935136000 * Second + 500 * Millisecond))) = "2027-01-10T00:00:00Z"%string.
Proof. vm_compute. reflexivity. Qed.
