(* ===== verification/CliSpec.v ===== *)
(** * What the commands promise ([cli/cli.go])

    [tend job add] makes the job that [tend.yaml] with the same settings does;
    an API token works from its creation to its revocation; a channel added is
    sent to with the config it was given. *)
From S2P Require Import Prelude GoTime Tail Utf8 Domain Heartbeat Pacing Failure Redact GoStrings Sql Schema StoreEvents StoreRuns StoreHeartbeats StoreConfig JobSpec Probe Runner Chat ConfigFile Auth Flags CliText Cli CliAlerts CliAccounts.
Open Scope Z_scope.

(** ** Adding a job *)

Section JobAdd.
Context `{World} `{JSONText} `{URLs} `{GoText} `{GoFlags} (cron_parse : string -> option (Time -> Time)).

Lemma add_type_sync f : match job_type f with inl t => add_type f = inl t | inr _ => exists why, add_type f = inr why end.
Proof.
  unfold job_type, add_type. repeat (case_match; simplify_eq); try done; by eexists.
Qed.

Lemma add_spec_sync t f : match specFor t f with inl s => add_spec t f = inl s | inr _ => exists why, add_spec t f = inr why end.
Proof.
  assert (Hv : forall s, match (match ValidateSpec t (Some s) with Some e => inr (inl e) | None => inl (Some s) end : option Spec + (SpecError + string)) with
    | inl s' => match ValidateSpec t (Some s) with Some e => inr (RSpec e) | None => inl (Some s) end = inl s'
    | inr _ => exists why, match ValidateSpec t (Some s) with Some e => inr (RSpec e) | None => inl (Some s) end = inr why end).
  { intros s. destruct (ValidateSpec t (Some s)); [by eexists|done]. }
  unfold specFor, add_spec. destruct (HasSpec t) eqn:Et; [|done]. cbn [negb]. destruct t; try done; 
    try change (bool_decide (TLS = Drill)) with false; try change (bool_decide (Domain = Drill)) with false;
    try change (bool_decide (Expiry = Drill)) with false; try change (bool_decide (Drill = Drill)) with true; cbv zeta; unfold default, from_option, id.
  - destruct (js_warn_days f), (js_renew_after_fraction f); cbv iota beta; apply Hv.
  - destruct (js_warn_days f), (NormalizeDomain (js_domain f)); cbv iota beta; apply Hv.
  - destruct (String.eqb (js_expires_at f) ""); [destruct (js_warn_days f); cbv iota beta; apply Hv|].
    destruct (ParseExpiryDate _); [destruct (js_warn_days f); cbv iota beta; apply Hv|by eexists].
  - destruct (js_warn_days f); cbv iota beta; apply Hv.
Qed.

(** The job of an entry, as the command and the sync both finish it. *)
Definition scheduled (org : Z) (now : Time) (j : Job) : Job :=
  let j := with_ids j 0 org zero_time in with_next j (mustNextRun cron_parse j now).

Lemma add_job_sync org f now : 0 <= js_interval_seconds f -> js_enabled f = None ->
  match mapSpec cron_parse 0 f with
  | inl j => add_job cron_parse org f now = inl (scheduled org now j)
  | inr _ => exists why, add_job cron_parse org f now = inr why
  end.
Proof.
  intros Hi He. unfold mapSpec, add_job. destruct (String.eqb (js_name f) ""); [by eexists|].
  assert (Hs : add_schedules f = schedules f).
  { unfold add_schedules, schedules. destruct (Z.eqb_spec (js_interval_seconds f) 0), (Z.ltb_spec 0 (js_interval_seconds f)); done || lia. }
  rewrite Hs. pose proof (add_type_sync f) as Ht. destruct (job_type f) as [t|].
  - rewrite Ht. pose proof (add_spec_sync t f) as Hsp. destruct (specFor t f) as [sp|[e|e]].
    + rewrite Hsp, He. 
      destruct (js_timeout_seconds f <? 0); [by eexists|]. destruct (1 <? schedules f)%nat; [by eexists|]. destruct (negb _ && negb _); [by eexists|].
      destruct (if String.eqb (js_run_at f) "" then _ else _); [reflexivity|by eexists].
    + destruct Hsp as [why ->]. split_ifs; try by eexists; repeat case_match; by eexists.
    + destruct Hsp as [why ->]. split_ifs; try by eexists; repeat case_match; by eexists.
  - destruct Ht as [why ->]. split_ifs; try by eexists; repeat case_match; by eexists.
Qed.

(** C39: [tend job add] is [tend sync] of one entry: with any flags it reads and
    an interval that is not negative, it refuses, with nothing written, exactly
    the settings [tend.yaml] would be refused with, and otherwise creates the
    job the file's entry would give, scheduled from the same moment. *)
Theorem job_add_is_sync org args sets others s : flag_parse jobAddFlags args = inl (sets, others) -> 0 <= js_interval_seconds (job_flags sets) ->
  let '(r, s') := cmdJobAdd cron_parse org args s in
  match mapSpec cron_parse 0 (job_flags sets) with
  | inr _ => st_db s' = st_db s /\ exists why, r = Ok (inr (Refused "job add" why))
  | inl j => exists s1, st_db s1 = st_db s /\
      match CreateJob (scheduled org (clock (st_tick s)) j) s1 with
      | (Ok id, s2) => r = Ok (inl (OJobCreated id)) /\ s' = s2
      | (Error e, s2) => r = Ok (inr (StoreFailed "job add" "create" e)) /\ s' = s2
      end
  end.
Proof.
  intros Hf Hi. unfold cmdJobAdd, with_flags. rewrite Hf. unfold bind at 1, now_ at 1.
  pose proof (add_job_sync org (job_flags sets) (clock (st_tick s)) Hi eq_refl) as Ha. destruct (mapSpec cron_parse 0 (job_flags sets)) as [j|e].
  - rewrite Ha. unfold stored, bind, try. destruct (CreateJob _ _) as [[id|e] s2] eqn:Ec; (eexists; (split; [|by rewrite Ec]); done).
  - destruct Ha as [why ->]. simpl. split; [done|by eexists].
Qed.

End JobAdd.

(** ** The life of a token *)

Section Tokens.
Context `{World} `{GoText} `{GoFlags} `{KitAuth}.

(** A statement that answers has been carried out. *)
Lemma autocommit_ok {A} (m : Store A) s a s' : autocommit m s = (Ok a, s') -> exists s1, m (mkSt (st_db s) (S (st_tick s))) = (Ok a, s1) /\ st_db s' = st_db s1.
Proof.
  unfold autocommit, tx. destruct (fault (st_tick s)); [|done|]; unfold bind;
    (destruct (m _) as [[x|e] s1]; [|done]; simpl; destruct (fault (st_tick s1)); [|done|done]; intros [= -> <-]; by exists s1).
Qed.

Lemma CreateToken_ok t s id s1 : CreateToken t s = (Ok id, s1) -> exists now,
  id = next_id (db_tokens (st_db s)) /\ (forall x, x ∈ rows (db_tokens (st_db s)) -> tk_hash x <> tk_hash t) /\
  st_db s1 = on_tokens (insert_row (fun i => {| tk_id := i; tk_org := tk_org t; tk_name := tk_name t; tk_hash := tk_hash t; tk_created_at := now |})) (st_db s).
Proof.
  intros (s2 & Hb & ->)%autocommit_ok. revert Hb. unfold bind, now_, query, exec, ret. cbn [st_db st_tick].
  destruct (exists_row _ _) eqn:Et; [done|]. intros [= <- <-]. eexists. split; [done|]. split; [|reflexivity].
  intros x Hx E. rewrite exists_row_false in Et. specialize (Et x Hx). apply String.eqb_neq in Et. congruence.
Qed.

Lemma find_app_none {A} (p : A -> bool) l k : (forall x, x ∈ l -> p x = false) -> List.find p (l ++ k) = List.find p k.
Proof.
  induction l as [|x l IH]; intros Hl; [done|]. simpl. rewrite (Hl x) by (by left). apply IH. intros y Hy. apply Hl. by right.
Qed.
Lemma find_snoc_other {A} (p : A -> bool) l x : p x = false -> List.find p (l ++ [x]) = List.find p l.
Proof. intros Hx. induction l as [|y l IH]; simpl; [by rewrite Hx|]. by destruct (p y). Qed.
Lemma filter_all {A} (p : A -> bool) l : (forall x, x ∈ l -> p x = true) -> List.filter p l = l.
Proof. induction l as [|x l IH]; intros Hl; [done|]. simpl. rewrite (Hl x) by (by left). f_equal. apply IH. intros y Hy. apply Hl. by right. Qed.

(** Whose token has a hash. *)
Definition token_owner (hash : string) (d : DB) : res (Z * string) :=
  match select1 (fun t => String.eqb (tk_hash t) hash) (db_tokens d) with Some t => Ok (tk_org t, tk_name t) | None => Error ErrNotFound end.

Lemma read_answer {A} (f : DB -> A) s : exists s1, autocommit (query f) s = (Ok (f (st_db s)), s1) \/ autocommit (query f) s = (Error ErrDatabase, s1).
Proof.
  unfold autocommit, tx, bind, query, ret. destruct (fault (st_tick s)); simpl; [|by eexists; right|]; (destruct (fault _); [by eexists; left|by eexists; right|by eexists; right]).
Qed.

Lemma AuthenticateToken_owner hash s : fst (AuthenticateToken hash s) = token_owner hash (st_db s) \/ fst (AuthenticateToken hash s) = Error ErrDatabase.
Proof.
  unfold AuthenticateToken, bind, token_owner. destruct (read_answer (fun d => select1 (fun t => String.eqb (tk_hash t) hash) (db_tokens d)) s) as [s1 [-> | ->]]; [left|by right].
  by destruct (select1 _ _).
Qed.

(** an API token works from its creation to its revocation: between them it
    is the token of its org and name, after them no one's, every other token is
    as it was before, and of the token only its hash was ever stored. *)
Theorem token_lifecycle org p args args' name id s s1 s2 : table_wf tk_id (db_tokens (st_db s)) ->
  cmdTokenCreate org (Some p) args s = (Ok (inl (OToken name id p)), s1) -> cmdTokenRevoke org args' s1 = (Ok (inl (OTokenRevoked id)), s2) ->
  token_owner (HashToken p) (st_db s) = Error ErrNotFound /\ token_owner (HashToken p) (st_db s1) = Ok (org, name) /\
  (forall h, h <> HashToken p -> token_owner h (st_db s1) = token_owner h (st_db s)) /\
  (exists t, rows (db_tokens (st_db s1)) = rows (db_tokens (st_db s)) ++ [t] /\ tk_hash t = HashToken p) /\
  rows (db_tokens (st_db s2)) = rows (db_tokens (st_db s)).
Proof.
  intros (_ & Hb & _) Hc Hr. unfold cmdTokenCreate, with_flags in Hc. destruct (flag_parse _ args) as [[sets others]|]; [|done]. destruct (is_nil _); [done|].
  unfold stored, bind, try in Hc. destruct (CreateToken _ s) as [[id1|e] s1'] eqn:Ec; [|done]. cbn in Hc. injection Hc as <- <- <-. 
  apply CreateToken_ok in Ec as (now & -> & Hfree & E1). cbn [tk_hash tk_org tk_name] in *.
  assert (Hrev : rows (db_tokens (st_db s2)) = List.filter (fun t => negb ((tk_org t =? org) && (tk_id t =? next_id (db_tokens (st_db s))))) (rows (db_tokens (st_db s1')))).
  { unfold cmdTokenRevoke, with_flags in Hr. destruct (flag_parse _ args') as [[sets' others']|]; [|done]. destruct (_ <=? 0); [done|].
    unfold stored, bind, try in Hr. destruct (DeleteToken _ _ s1') as [[[]|e] s2'] eqn:Ed; [|done]. cbn in Hr. injection Hr as Eid ->. rewrite Eid in Ed.
    apply autocommit_ok in Ed as (s3 & [= <-] & ->). reflexivity. }
  assert (Hold : forall t, t ∈ rows (db_tokens (st_db s)) -> String.eqb (tk_hash t) (HashToken p) = false) by (intros t Ht; by apply String.eqb_neq, Hfree).
  unfold token_owner, select1. rewrite E1. cbn [db_tokens on_tokens insert_row rows]. repeat split.
  - pose proof (find_app_none _ _ [] Hold) as Hn. rewrite app_nil_r in Hn. by rewrite Hn.
  - rewrite (find_app_none _ _ _ Hold). simpl. by rewrite String.eqb_refl.
  - intros h Hh. simpl. rewrite find_snoc_other; [done|]. simpl. by apply String.eqb_neq.
  - by eexists.
  - rewrite Hrev, E1. cbn [db_tokens on_tokens insert_row rows]. rewrite List.filter_app. cbn [List.filter tk_org tk_id]. rewrite !Z.eqb_refl. cbn [negb andb]. rewrite app_nil_r.
    apply filter_all. intros t Ht. rewrite Forall_forall in Hb. specialize (Hb t Ht). destruct (Z.eqb_spec (tk_id t) (next_id (db_tokens (st_db s)))); [lia|]. by rewrite andb_false_r.
Qed.
End Tokens.


(** ** A channel that was added *)

Section ChannelAdd.
Context `{World} `{JSONText} `{GoText} `{GoFlags} `{PayloadJSON} `{Kit} `{Providers}.

Lemma CreateChannel_ok c config s id s1 : table_wf cr_id (db_channels (st_db s)) -> CreateChannel c config s = (Ok id, s1) ->
  table_wf cr_id (db_channels (st_db s1)) /\ exists created, new_channel c config id created ∈ rows (db_channels (st_db s1)).
Proof.
  intros Hw (s2 & Hb & ->)%autocommit_ok. revert Hb. unfold bind, now_, query, exec, ret. cbn [st_db st_tick].
  destruct (select1 _ _) as [r|] eqn:Er; intros [= <- <-]; cbn [st_db db_channels on_channels].
  - split; [by apply table_wf_update, table_wf_draw|]. apply select1_Some in Er as [Hr Hn]. unfold StoreConfig.channel_named in Hn. bsimpl.
    exists (ch_created_at (cr_channel r)). apply elem_of_update. exists r. split; [done|]. unfold is_channel. by rewrite Z.eqb_refl, (proj2 (Z.eqb_eq _ _)) by done.
  - split; [by apply table_wf_insert|]. eexists. apply elem_of_insert. by right.
Qed.

Lemma the_channel d org c config id created : table_wf cr_id (db_channels d) -> new_channel c config id created ∈ rows (db_channels d) -> ch_org c = org ->
  select1 (is_channel org id) (db_channels d) = Some (new_channel c config id created).
Proof.
  intros Hw Hr <-. destruct (select1 _ _) as [x|] eqn:E.
  - apply select1_Some in E as [Hx Hk]. unfold is_channel in Hk. bsimpl. f_equal. eapply (table_key_inj cr_id); [done..|]. by unfold cr_id at 2.
  - rewrite select1_None in E. specialize (E _ Hr). unfold is_channel in E. simpl in E. by rewrite !Z.eqb_refl in E.
Qed.

Lemma GetChannel_answer org id s : exists s1,
  GetChannel org id s = (match select1 (is_channel org id) (db_channels (st_db s)) with Some r => Ok (cr_channel r, default ""%string (cr_config r)) | None => Error ErrNotFound end, s1) \/
  GetChannel org id s = (Error ErrDatabase, s1).
Proof.
  unfold GetChannel, bind. destruct (read_answer (fun d => select1 (is_channel org id) (db_channels d)) s) as [s1 [-> | ->]]; [|by eexists; right].
  exists s1. left. by destruct (select1 _ _).
Qed.

(** How a send to a channel of this kind and config ends. *)
Definition sends_with (kind : ChannelType) (cfg : bytes) (id : Z) (m : Message) : SendResult :=
  match build_provider kind cfg with
  | None => BuildFailed id
  | Some Send => match Send m with None => SentOK | Some e => SendFailed e end
  end.

(** a channel is sent to with what it was added with: from the command's
    success on, and for as long as its row stands, the worker's send step builds
    the provider of the given type from exactly the config on standard input,
    trimmed, and sends it the message of that type, unless the database fails;
    and the config is stored as nothing but what [Encrypt] makes of it. *)
Theorem channel_add_sends (box : Box) org raw args name id s s1 : (forall cfg blob, Encrypt cfg = Some blob -> Decrypt blob = Some cfg) ->
  table_wf cr_id (db_channels (st_db s)) -> cmdChannelAdd (Some box) org (Some raw) args s = (Ok (inl (OChannelSaved name id)), s1) ->
  exists kind blob, ValidChannelType kind = true /\ Encrypt (TrimSpace raw) = Some blob /\ TrimSpace raw <> [] /\
  (exists created, {| cr_channel := {| ch_id := id; ch_org := org; ch_name := name; ch_kind := kind; ch_created_at := created |}; cr_config := nullIfEmpty blob |} ∈
    rows (db_channels (st_db s1))) /\
  forall instance chat ev s2, db_channels (st_db s2) = db_channels (st_db s1) ->
    fst (sender instance chat org id ev s2) = Ok (sends_with kind (TrimSpace raw) id (channelMessage kind ev instance chat)) \/
    fst (sender instance chat org id ev s2) = Ok (LoadChannel id ErrDatabase).
Proof.
  intros Hlaw Hw Hc. unfold cmdChannelAdd, with_flags in Hc. destruct (flag_parse _ args) as [[sets others]|]; [|done].
  destruct (is_nil (flag_str sets "name" [])); [done|]. destruct (is_nil (flag_str sets "type" [])); [done|].
  destruct (ValidChannelType _) eqn:Hv; [|done]. cbn [negb] in Hc. destruct (is_nil (TrimSpace raw)) eqn:En; [done|].
  unfold stored, bind at 1, try, notify_CreateChannel in Hc. destruct (Encrypt (TrimSpace raw)) as [blob|] eqn:Ee; [|done].
  destruct (CreateChannel _ _ s) as [[id'|e] s1'] eqn:Ec; [|done]. cbn in Hc. injection Hc as <- <- <-.
  apply CreateChannel_ok in Ec as [Hw1 [created Hr]]; [|done]. exists (channel_type (str (flag_str sets "type" []))), blob.
  split; [done|]. split; [done|]. split; [by intros E; rewrite E in En|]. split; [by exists created|].
  intros instance chat ev s2 E2. unfold sender, bind, try. destruct (GetChannel_answer org id' s2) as [s3 [-> | ->]]; [left|by right].
  rewrite E2, (the_channel _ org _ _ _ _ Hw1 Hr) by done. cbn [cr_channel cr_config new_channel ch_kind].
  assert (Hb : default ""%string (nullIfEmpty blob) = blob) by (unfold nullIfEmpty; by destruct (String.eqb_spec blob "") as [->|]).
  rewrite Hb, (Hlaw _ _ Ee). unfold sends_with. destruct (build_provider _ _) as [Send|]; [|done]. by destruct (Send _).
Qed.

End ChannelAdd.

(** ** Examples *)

#[local] Instance decimal_flags : GoFlags := {| flag_int := Atoi; flag_float _ := None |}.
#[local] Instance plain_words : GoText := {| time_Parse _ _ := None; time_ParseDuration _ := None; Quote s := s; FormatG _ := [] |}.
#[local] Instance any_urls : URLs := fun _ => None.
#[local] Instance open_box : Box := {| Encrypt b := Some (str b); Decrypt c := Some (bstr c) |}.
#[local] Instance no_payload : PayloadJSON := {| text_fields _ := {| rf_job_name := ""; rf_status := []; rf_exit_code := 0 |}; payload_json _ := []; json_member _ _ := [] |}.
#[local] Instance quiet_kit : Kit := {| ValidateV1 _ := true; SequenceAt _ := 0; DiscordOutputRoom _ := 2000; DiscordOutputLength := RuneCount |}.
#[local] Instance deaf : Providers := fun _ cfg => if is_nil cfg then None else Some (fun _ => Some cfg).
#[local] Instance named_hashes : KitAuth :=
  {| Encode _ := None; Decode _ _ := None; IssueCSRF _ := ""; CheckCSRF _ _ := false; HashToken := str; VerifyPassword hash pw := String.eqb hash (str pw); DefaultSessionTTL := Hour |}.
#[local] Instance steady_hour : World := steady Hour.
#[local] Existing Instance plain_text.

Definition words (l : list string) : list bytes := map bstr l.
Definition fresh : St DB := mkSt empty_db 0.

Definition backup_args : list bytes := words ["-name"; "backup"; "-command"; "true"; "-interval=60"].
Definition backup_sets : list (string * bytes) := [("name", bstr "backup"); ("command", bstr "true"); ("interval", bstr "60")]%string.

Lemma job_add_is_sync_witness : 0 <= js_interval_seconds (job_flags backup_sets) /\
  let '(r, s') := cmdJobAdd (fun _ => None) 1 backup_args fresh in
  match mapSpec (fun _ => None) 0 (job_flags backup_sets) with
  | inr _ => st_db s' = st_db fresh /\ exists why, r = Ok (inr (Refused "job add" why))
  | inl j => exists s1, st_db s1 = st_db fresh /\
      match CreateJob (scheduled (fun _ => None) 1 (clock (st_tick fresh)) j) s1 with
      | (Ok id, s2) => r = Ok (inl (OJobCreated id)) /\ s' = s2
      | (Error e, s2) => r = Ok (inr (StoreFailed "job add" "create" e)) /\ s' = s2
      end
  end.
Proof.
  split; [vm_compute; congruence|]. apply (job_add_is_sync (fun _ => None) 1 backup_args backup_sets [] fresh); [vm_compute; reflexivity|vm_compute; congruence].
Defined.

(** An interval of -1 is a schedule to the command and none to the file. *)
Example negative_interval :
  let f := job_flags [("name", bstr "n"); ("command", bstr "c"); ("interval", bstr "-1"); ("run-at", bstr "2026")]%string in
  (exists why, add_job (fun _ => None) 1 f 0 = inr why) /\ add_schedules f = 2%nat /\ schedules f = 1%nat.
Proof. split; [by eexists|]. split; reflexivity. Qed.

Definition token_made : St DB := snd (cmdTokenCreate 1 (Some (bstr "tend_x")) (words ["-name"; "ci"]) fresh).
Definition token_gone : St DB := snd (cmdTokenRevoke 1 (words ["-id"; "1"]) token_made).
Lemma token_lifecycle_witness : token_owner "tend_x" (st_db token_made) = Ok (1, "ci"%string) /\ rows (db_tokens (st_db token_gone)) = [].
Proof.
  destruct (token_lifecycle 1 (bstr "tend_x") (words ["-name"; "ci"]) (words ["-id"; "1"]) "ci" 1 fresh token_made token_gone) as (_ & H2 & _ & _ & H5).
  - repeat split; constructor.
  - vm_compute. reflexivity.
  - vm_compute. reflexivity.
  - exact (conj H2 H5).
Defined.

(** Revoking an id no token has is reported as a revocation. *)
Example revoked_nothing : fst (cmdTokenRevoke 1 (words ["-id"; "7"]) token_made) = Ok (inl (OTokenRevoked 7)) /\
  rows (db_tokens (st_db (snd (cmdTokenRevoke 1 (words ["-id"; "7"]) token_made)))) = rows (db_tokens (st_db token_made)).
Proof. split; vm_compute; reflexivity. Qed.

Definition hook_args : list bytes := words ["-name"; "ops"; "-type"; "webhook"].
Definition hook_added : St DB := snd (cmdChannelAdd (Some open_box) 1 (Some (bstr " {} ")) hook_args fresh).
Lemma channel_add_sends_witness : exists kind blob, ValidChannelType kind = true /\ Encrypt (bstr "{}") = Some blob /\ TrimSpace (bstr " {} ") <> [] /\
  (exists created, {| cr_channel := {| ch_id := 1; ch_org := 1; ch_name := "ops"; ch_kind := kind; ch_created_at := created |}; cr_config := nullIfEmpty blob |} ∈
    rows (db_channels (st_db hook_added))) /\
  forall instance chat ev s2, db_channels (st_db s2) = db_channels (st_db hook_added) ->
    fst (sender instance chat 1 1 ev s2) = Ok (sends_with kind (bstr "{}") 1 (channelMessage kind ev instance chat)) \/
    fst (sender instance chat 1 1 ev s2) = Ok (LoadChannel 1 ErrDatabase).
Proof.
  apply (channel_add_sends open_box 1 (bstr " {} ") hook_args "ops" 1 fresh hook_added).
  - intros cfg blob [= <-]. simpl. by rewrite bstr_str.
  - repeat split; constructor.
  - vm_compute. reflexivity.
Defined.

(** A user whose membership could not be written stays: the command says it
    failed, and trying again is refused for the address. *)
Definition membership_fails : World := {| clock n := Hour + Z.of_nat n * Second; fault n := if (n =? 3)%nat then Fails else NoFault |}.
Definition ada_args : list bytes := words ["-email"; "ada@example.org"].
Definition half_a_user : St DB := snd (@cmdUserAdd membership_fails plain_words decimal_flags (fun pw => Some (str pw)) 1 (Some (bstr "lovelace")) ada_args fresh).
Example user_without_membership :
  fst (@cmdUserAdd membership_fails plain_words decimal_flags (fun pw => Some (str pw)) 1 (Some (bstr "lovelace")) ada_args fresh) = Ok (inr (StoreFailed "user add" "create membership" ErrDatabase)) /\
  List.length (rows (db_users (st_db half_a_user))) = 1%nat /\ rows (db_memberships (st_db half_a_user)) = [] /\
  fst (@cmdUserAdd steady_hour plain_words decimal_flags (fun pw => Some (str pw)) 1 (Some (bstr "lovelace")) ada_args half_a_user) = Ok (inr (StoreFailed "user add" "create user" ErrConstraint)).
Proof. repeat split; vm_compute; reflexivity. Qed.

(** More than one trailing newline of a secret is dropped. *)
Example newlines_dropped : TrimNewlines (bstr "pw" ++ [nl; nl]) = bstr "pw".
Proof. reflexivity. Qed.
