(* ===== verification/Serve.v ===== *)
(** * The serve process ([cli/cli.go]: [cmdServe]) and its log of failing claims ([jobs/runner.go]: [claimErrors])

    The goroutines that [cmdServe] starts and waits for, as a step relation
    over what each of them is at, the context they share and the error kept of
    the HTTP server; and the limit on how often a failing claim is logged. *)
From S2P Require Import Prelude GoTime Tail Redact GoStrings EnvConfig CliMain.
From stdpp Require Import relations.
Open Scope Z_scope.

(** ** The goroutines *)

(** Where a goroutine is; the shutdown's [Shutdown] call, which waits for
    requests, has been made when it is draining. *)
Inductive Goroutine := NotStarted | Active | Draining | Ended.
#[export] Instance Goroutine_eq_dec : EqDecision Goroutine.
Proof. solve_decision. Defined.

Record Serve := {
  sv_done : bool; sv_worker : Goroutine; sv_runner : Goroutine; sv_http : Goroutine; sv_shutdown : Goroutine; sv_watcher : Goroutine; sv_sweep : Goroutine;
  sv_err : option bytes; sv_checks : nat; sv_sweeps : nat }.

(** The state once all are started; without a box there is no delivery worker. *)
Definition serve_start (box : bool) : Serve :=
  {| sv_done := false; sv_worker := if box then Active else NotStarted; sv_runner := Active; sv_http := Active; sv_shutdown := Active; sv_watcher := Active;
     sv_sweep := Active; sv_err := None; sv_checks := 0; sv_sweeps := 0 |}.

(** [buildAuthConfig]: none without a master key; the key may not decode. *)
Definition buildAuthConfig {Codec} (deriveSessionKey : bytes -> option Codec) (secure : bool) (masterKey : bytes) : option (option (Codec * bool)) :=
  if is_nil masterKey then Some None else match deriveSessionKey masterKey with Some key => Some (Some (key, secure)) | None => None end.

Definition set_done (s : Serve) : Serve :=
  {| sv_done := true; sv_worker := sv_worker s; sv_runner := sv_runner s; sv_http := sv_http s; sv_shutdown := sv_shutdown s; sv_watcher := sv_watcher s; sv_sweep := sv_sweep s;
     sv_err := sv_err s; sv_checks := sv_checks s; sv_sweeps := sv_sweeps s |}.
Definition set_worker (s : Serve) (g : Goroutine) : Serve :=
  {| sv_done := sv_done s; sv_worker := g; sv_runner := sv_runner s; sv_http := sv_http s; sv_shutdown := sv_shutdown s; sv_watcher := sv_watcher s; sv_sweep := sv_sweep s;
     sv_err := sv_err s; sv_checks := sv_checks s; sv_sweeps := sv_sweeps s |}.
Definition set_runner (s : Serve) (g : Goroutine) : Serve :=
  {| sv_done := sv_done s; sv_worker := sv_worker s; sv_runner := g; sv_http := sv_http s; sv_shutdown := sv_shutdown s; sv_watcher := sv_watcher s; sv_sweep := sv_sweep s;
     sv_err := sv_err s; sv_checks := sv_checks s; sv_sweeps := sv_sweeps s |}.
Definition set_http (s : Serve) (g : Goroutine) (err : option bytes) : Serve :=
  {| sv_done := sv_done s; sv_worker := sv_worker s; sv_runner := sv_runner s; sv_http := g; sv_shutdown := sv_shutdown s; sv_watcher := sv_watcher s; sv_sweep := sv_sweep s;
     sv_err := err; sv_checks := sv_checks s; sv_sweeps := sv_sweeps s |}.
Definition set_shutdown (s : Serve) (g : Goroutine) : Serve :=
  {| sv_done := sv_done s; sv_worker := sv_worker s; sv_runner := sv_runner s; sv_http := sv_http s; sv_shutdown := g; sv_watcher := sv_watcher s; sv_sweep := sv_sweep s;
     sv_err := sv_err s; sv_checks := sv_checks s; sv_sweeps := sv_sweeps s |}.
Definition set_watcher (s : Serve) (g : Goroutine) (checks : nat) : Serve :=
  {| sv_done := sv_done s; sv_worker := sv_worker s; sv_runner := sv_runner s; sv_http := sv_http s; sv_shutdown := sv_shutdown s; sv_watcher := g; sv_sweep := sv_sweep s;
     sv_err := sv_err s; sv_checks := checks; sv_sweeps := sv_sweeps s |}.
Definition set_sweep (s : Serve) (g : Goroutine) (sweeps : nat) : Serve :=
  {| sv_done := sv_done s; sv_worker := sv_worker s; sv_runner := sv_runner s; sv_http := sv_http s; sv_shutdown := sv_shutdown s; sv_watcher := sv_watcher s; sv_sweep := g;
     sv_err := sv_err s; sv_checks := sv_checks s; sv_sweeps := sweeps |}.

(** What happens. A [select] with several cases ready takes any of them, so
    the watcher may still check, and the sweep still run, when the context is
    done; the runner's [Start] also returns when the requeue it begins with
    fails; the sweep runs once before it looks at the context; the server may
    fail to listen even when its [Shutdown] has begun. That the worker, the
    runner and the watcher return once the context is done is here a step each:
    their loops are [Worker] and [RunnerStart]. *)
Inductive serve_step (s : Serve) : Serve -> Prop :=
| s_cancel : serve_step s (set_done s)
| s_worker_end : sv_worker s = Active -> sv_done s = true -> serve_step s (set_worker s Ended)
| s_runner_end : sv_runner s = Active -> sv_done s = true -> serve_step s (set_runner s Ended)
| s_runner_fails : sv_runner s = Active -> serve_step s (set_runner s Ended)
| s_http_fails e : sv_http s = Active -> serve_step s (set_done (set_http s Ended (Some e)))
| s_http_closed : sv_http s = Active -> sv_shutdown s <> Active -> serve_step s (set_http s Ended (sv_err s))
| s_shutdown_begins : sv_shutdown s = Active -> sv_done s = true -> serve_step s (set_shutdown s Draining)
| s_shutdown_ends : sv_shutdown s = Draining -> serve_step s (set_shutdown s Ended)
| s_watcher_check : sv_watcher s = Active -> serve_step s (set_watcher s Active (S (sv_checks s)))
| s_watcher_end : sv_watcher s = Active -> sv_done s = true -> serve_step s (set_watcher s Ended (sv_checks s))
| s_sweep_run : sv_sweep s = Active -> serve_step s (set_sweep s Active (S (sv_sweeps s)))
| s_sweep_end : sv_sweep s = Active -> (0 < sv_sweeps s)%nat -> sv_done s = true -> serve_step s (set_sweep s Ended (sv_sweeps s)).

(** [wg.Wait()] is over: everything started has ended. *)
Definition returned (s : Serve) : bool :=
  forallb (fun g => bool_decide (g = Ended) || bool_decide (g = NotStarted)) [sv_worker s; sv_runner s; sv_http s; sv_shutdown s; sv_watcher s; sv_sweep s].

(** What is known of every state that is reached. *)
Record serve_inv (box : bool) (s : Serve) : Prop := {
  si_worker : sv_worker s = if box then sv_worker s else NotStarted;
  si_worker_on : box = true -> sv_worker s = Active \/ sv_worker s = Ended;
  si_runner : sv_runner s = Active \/ sv_runner s = Ended;
  si_http : sv_http s = Active \/ sv_http s = Ended;
  si_shutdown : sv_shutdown s <> NotStarted;
  si_watcher : sv_watcher s = Active \/ sv_watcher s = Ended;
  si_sweep : sv_sweep s = Active \/ (sv_sweep s = Ended /\ (0 < sv_sweeps s)%nat);
  si_done : sv_done s = false -> sv_shutdown s = Active /\ sv_http s = Active /\ sv_watcher s = Active /\ sv_sweep s = Active /\ sv_err s = None;
  si_err : is_Some (sv_err s) -> sv_http s = Ended;
}.

Lemma serve_inv_start box : serve_inv box (serve_start box).
Proof. constructor; simpl; destruct box; naive_solver. Qed.

Lemma serve_inv_step box s s' : serve_inv box s -> serve_step s s' -> serve_inv box s'.
Proof.
  intros [H1 H2 H3 H4 H5 H6 H7 H8 H9] Hs. destruct Hs; constructor; cbn -[sv_worker]; first
    [ assumption | discriminate | done | (destruct box; cbn in *; congruence) | (intros; tauto) | (intros; intuition congruence)
    | (intros; destruct H7 as [?|[??]]; split_and?; congruence || lia || auto) | (intros Hd; destruct (H8 Hd) as (?&?&?&?&?); split_and?; congruence) ].
Qed.

Lemma serve_inv_reachable box s : rtc serve_step (serve_start box) s -> serve_inv box s.
Proof.
  intros Hr. assert (Hi : forall s0, rtc serve_step s0 s -> serve_inv box s0 -> serve_inv box s).
  { clear. intros s0 Hr. induction Hr; [done|]. intros Hi. apply IHHr. by eapply serve_inv_step. }
  by apply (Hi (serve_start box)); [|apply serve_inv_start].
Qed.

(** How many steps to the end are left at least: two for a shutdown that has
    not begun and for a sweep that never ran. *)
Definition steps_left (s : Serve) : nat :=
  ((if bool_decide (sv_worker s = Active) then 1 else 0) + (if bool_decide (sv_runner s = Active) then 1 else 0) + (if bool_decide (sv_http s = Active) then 1 else 0)
   + match sv_shutdown s with Active => 2 | Draining => 1 | _ => 0 end + (if bool_decide (sv_watcher s = Active) then 1 else 0)
   + (if bool_decide (sv_sweep s = Active) then (if bool_decide (sv_sweeps s = 0) then 2 else 1) else 0))%nat.

Lemma steps_left_returned box s : serve_inv box s -> (returned s = true <-> steps_left s = 0%nat).
Proof.
  intros [H1 H2 H3 H4 H5 H6 H7 _ _]. unfold returned, steps_left. simpl.
  assert (Hw : sv_worker s = Active \/ sv_worker s = Ended \/ sv_worker s = NotStarted) by (destruct box; [destruct H2 as [->| ->]|rewrite H1]; auto).
  clear H1 H2. destruct Hw as [->|[->| ->]], H3 as [->| ->], H4 as [->| ->], H6 as [->| ->], H7 as [->|[-> _]]; simpl; repeat case_bool_decide; destruct (sv_shutdown s); simpl; try done; split; intros; done || lia.
Qed.

Lemma step_keeps s s' : serve_step s s' -> (steps_left s' <= steps_left s)%nat /\ (sv_done s = true -> sv_done s' = true).
Proof.
  intros Hs. destruct Hs; unfold steps_left; simpl;
    repeat match goal with E : ?x = _ |- context [?x] => rewrite E end; simpl;
    repeat case_bool_decide; try done; split; done || lia.
Qed.

(** C40: serve runs until it is told to stop, and then it stops. As long as its
    context stands, the HTTP server, its shutdown, the watcher and the sweep
    are all at work; once it is done, at most eight steps are left, none ever
    adds one, a step to the end is always there to take until every goroutine
    that was started has ended, and by then the history was swept at least
    once. An error it returns is the HTTP server's. *)
Theorem serve_stops box s : rtc serve_step (serve_start box) s ->
  (sv_done s = false -> sv_http s = Active /\ sv_shutdown s = Active /\ sv_watcher s = Active /\ sv_sweep s = Active /\ sv_err s = None) /\
  (steps_left s <= 8)%nat /\ (forall s', serve_step s s' -> (steps_left s' <= steps_left s)%nat) /\
  (sv_done s = true -> returned s = false -> exists s', serve_step s s' /\ (steps_left s' < steps_left s)%nat) /\
  (returned s = true -> sv_done s = true /\ (0 < sv_sweeps s)%nat) /\ (is_Some (sv_err s) -> sv_http s = Ended).
Proof.
  intros Hr. pose proof (serve_inv_reachable box s Hr) as Hi. pose proof (steps_left_returned box s Hi) as Hz. destruct Hi as [H1 H2 H3 H4 H5 H6 H7 H8 H9].
  split; [intros Hd; destruct (H8 Hd) as (?&?&?&?&?); auto|]. split; [|split; [intros s' Hs; by apply step_keeps|split; [|split; [|done]]]].
  - unfold steps_left. repeat case_bool_decide; destruct (sv_shutdown s); lia.
  - intros Hd Hn. assert (Hp : steps_left s <> 0%nat) by (intros E; apply Hz in E; congruence).
    assert (Hshut : sv_shutdown s = Active \/ sv_shutdown s = Draining \/ sv_shutdown s = Ended) by (destruct (sv_shutdown s); auto; done).
    destruct Hshut as [Es|[Es|Es]].
    + exists (set_shutdown s Draining). split; [by constructor|]. unfold steps_left. simpl. rewrite Es. lia.
    + exists (set_shutdown s Ended). split; [by constructor|]. unfold steps_left. simpl. rewrite Es. lia.
    + destruct (decide (sv_http s = Active)) as [Eh|Eh]; [exists (set_http s Ended (sv_err s)); split; [constructor; congruence|unfold steps_left; simpl; rewrite Eh; simpl; lia]|].
      destruct (decide (sv_worker s = Active)) as [Ew|Ew]; [exists (set_worker s Ended); split; [by constructor|unfold steps_left; simpl; rewrite Ew; simpl; lia]|].
      destruct (decide (sv_runner s = Active)) as [Er|Er]; [exists (set_runner s Ended); split; [by constructor|unfold steps_left; simpl; rewrite Er; simpl; lia]|].
      destruct (decide (sv_watcher s = Active)) as [Ea|Ea]; [exists (set_watcher s Ended (sv_checks s)); split; [by constructor|unfold steps_left; simpl; rewrite Ea; simpl; lia]|].
      destruct H7 as [Ep|[Ep _]].
      * destruct (sv_sweeps s) as [|n] eqn:En.
        -- exists (set_sweep s Active 1). split; [rewrite <- En; by constructor|]. unfold steps_left. simpl. rewrite Ep, En. simpl. lia.
        -- exists (set_sweep s Ended (sv_sweeps s)). split; [constructor; [done|lia|done]|]. unfold steps_left. simpl. rewrite Ep, En. simpl. lia.
      * destruct Hp. unfold steps_left. rewrite Es. by rewrite !bool_decide_eq_false_2 by (done || congruence).
  - intros E. destruct H7 as [Ep|[Ep Hn]].
    { unfold returned in E. rewrite Ep in E. simpl in E. by rewrite !andb_false_r in E. }
    split; [|done].
    destruct (sv_done s) eqn:Ed; [done|]. destruct (H8 eq_refl) as (_ & _ & _ & Ep' & _). congruence.
Qed.

(** A runner that cannot requeue at its start is gone, and nothing else is. *)
Example serving_without_runner : exists s, rtc serve_step (serve_start true) s /\
  sv_runner s = Ended /\ sv_done s = false /\ sv_http s = Active /\ sv_watcher s = Active /\ sv_err s = None.
Proof. exists (set_runner (serve_start true) Ended). split; [apply rtc_once; by constructor|done]. Qed.

Definition stopped_at_once : Serve := set_done (serve_start false).
Lemma serve_stops_witness : (steps_left stopped_at_once <= 8)%nat /\ exists s', serve_step stopped_at_once s' /\ (steps_left s' < steps_left stopped_at_once)%nat.
Proof.
  destruct (serve_stops false stopped_at_once) as (_ & H1 & _ & H2 & _); [apply rtc_once; constructor|]. split; [exact H1|]. apply H2; reflexivity.
Defined.

(** ** The log of claims that fail *)

Definition claimErrorRepeat : Duration := Minute.
(** [claimErrors]. *)
Record ClaimErrors := { ce_failed : Z; ce_last_log : Time }.
Definition no_errors : ClaimErrors := {| ce_failed := 0; ce_last_log := zero_time |}.

(** The lines written. *)
Inductive ClaimLine := ClaimFails | StillFailing (failed : Z) | WorksAgain (failed : Z).

(** [logClaimError], while the context stands, and [claimWorked]. *)
Definition logClaimError (now : Time) (c : ClaimErrors) : ClaimErrors * list ClaimLine :=
  let n := ce_failed c + 1 in
  let due := (n =? 1) || (claimErrorRepeat <=? TimeSub now (ce_last_log c)) in
  ({| ce_failed := n; ce_last_log := if due then now else ce_last_log c |},
   if n =? 1 then [ClaimFails] else if due then [StillFailing n] else []).
Definition claimWorked (c : ClaimErrors) : ClaimErrors * list ClaimLine :=
  ({| ce_failed := 0; ce_last_log := ce_last_log c |}, if 0 <? ce_failed c then [WorksAgain (ce_failed c)] else []).

(** The claims of all workers, one after the other: failed at a time, or worked. *)
Definition log_claim (c : ClaimErrors) (e : option Time) : ClaimErrors * list ClaimLine := match e with Some t => logClaimError t c | None => claimWorked c end.
Fixpoint log_claims (c : ClaimErrors) (l : list (option Time)) : list ClaimLine :=
  match l with
  | [] => []
  | e :: r => let '(c, lines) := log_claim c e in lines ++ log_claims c r
  end.

(** Times that do not go back, from [t] on. *)
Fixpoint later (t : Time) (l : list Time) : Prop := match l with [] => True | x :: r => t <= x /\ later x r end.

(** The last of them. *)
Definition last_time (t : Time) (l : list Time) : Time := fold_left (fun _ x => x) l t.

Lemma last_time_later t l : later t l -> t <= last_time t l.
Proof. revert t. induction l as [|x l IH]; intros t; simpl; [lia|]. intros [Hx Hl]. specialize (IH x Hl). unfold last_time in *. simpl. lia. Qed.

(** After its first failure a streak writes a line for each minute at most. *)
Lemma streak_lines l c t : 1 <= ce_failed c -> ce_last_log c <= t -> later t l ->
  Z.of_nat (List.length (log_claims c (map Some l))) * claimErrorRepeat <= last_time t l - ce_last_log c.
Proof.
  revert c t. induction l as [|x l IH]; intros c t Hf Ht; [simpl; intros _; unfold last_time; simpl; lia|]. intros [Hx Hl]. simpl.
  unfold logClaimError. rewrite (proj2 (Z.eqb_neq (ce_failed c + 1) 1)) by lia. cbn [orb].
  destruct (Z.leb_spec claimErrorRepeat (TimeSub x (ce_last_log c))) as [Hd|Hd]; rewrite length_app, Nat2Z.inj_add.
  - specialize (IH {| ce_failed := ce_failed c + 1; ce_last_log := x |} x). cbn [ce_failed ce_last_log List.length] in *.
    assert (claimErrorRepeat <= x - ce_last_log c) by (unfold TimeSub in Hd; unfold claimErrorRepeat in *; revert Hd; unfold min_int64; lia).
    specialize (IH ltac:(lia) ltac:(lia) Hl). change (last_time t (x :: l)) with (last_time x l). lia.
  - specialize (IH {| ce_failed := ce_failed c + 1; ce_last_log := ce_last_log c |} x). cbn [ce_failed ce_last_log List.length] in *.
    specialize (IH ltac:(lia) ltac:(lia) Hl). change (last_time t (x :: l)) with (last_time x l). lia.
Qed.

Lemma log_claims_app c l k : log_claims c (l ++ k) = log_claims c l ++ log_claims (fold_left (fun c e => fst (log_claim c e)) l c) k.
Proof. revert c. induction l as [|e l IH]; intros c; simpl; [done|]. destruct (log_claim c e) as [c' lines]. simpl. by rewrite IH, app_assoc. Qed.

Lemma streak_failed l c : ce_failed (fold_left (fun c e => fst (log_claim c e)) (map Some l) c) = ce_failed c + Z.of_nat (List.length l).
Proof. revert c. induction l as [|x l IH]; intros c; cbn [map fold_left List.length]; [lia|]. rewrite IH. simpl. lia. Qed.

(** a store that keeps failing does not flood the log, and hides nothing: a
    streak of failing claims is logged when it begins, then at most once in each
    whole minute it lasts, and when a claim works again with how many failed. *)
Theorem claim_errors_logged c t l : ce_failed c = 0 -> later t l ->
  exists lines, log_claims c (map Some (t :: l) ++ [None]) = ClaimFails :: lines ++ [WorksAgain (Z.of_nat (List.length (t :: l)))] /\
  Z.of_nat (List.length lines) * claimErrorRepeat <= last_time t l - t.
Proof.
  intros Hc Hl. rewrite log_claims_app. pose proof (streak_failed (t :: l) c) as Hn. set (c' := fold_left _ _ c) in *. cbn [map log_claims log_claim].
  unfold logClaimError. rewrite Hc. cbn [Z.add Z.eqb Pos.eqb orb app]. eexists. split.
  - unfold claimWorked. rewrite Hn, Hc. cbn [Z.add]. rewrite (proj2 (Z.ltb_lt _ _)) by (simpl; lia). rewrite app_nil_r. reflexivity.
  - apply (streak_lines l {| ce_failed := 1; ce_last_log := t |} t); simpl; [lia|lia|done].
Qed.

Lemma claim_errors_logged_witness : log_claims no_errors (map Some [0; Second; Minute; 90 * Second] ++ [None]) = [ClaimFails; StillFailing 3; WorksAgain 4] /\
  exists lines, log_claims no_errors (map Some [0; Second; Minute; 90 * Second] ++ [None]) = ClaimFails :: lines ++ [WorksAgain 4] /\
  Z.of_nat (List.length lines) * claimErrorRepeat <= last_time 0 [Second; Minute; 90 * Second] - 0.
Proof. split; [vm_compute; reflexivity|]. apply (claim_errors_logged no_errors 0 [Second; Minute; 90 * Second]); [reflexivity|]. vm_compute. repeat split; congruence. Defined.
