(* ===== verification/Pg.v ===== *)
(** * The PostgreSQL dialect ([internal/store/postgres.go], [emit.go], [pings.go])

    What differs between the two backends. A parameter bound to a TEXT column
    must be valid UTF-8 without NULs and one bound to an INTEGER column must
    fit 32 bits, or the statement fails; a BIGSERIAL id is drawn from a
    sequence that a rollback does not give back (an [ON CONFLICT] insert draws
    one on either backend, also when it ends in an update). The code shared by the
    backends ([dialectTx]) is given with its PostgreSQL branch taken. *)
From S2P Require Import Prelude GoTime Utf8 Domain Heartbeat Pacing Sql Schema StoreEvents Capture Redact.
From stdpp Require Import sorting.
Open Scope Z_scope.

(** ** Parameters *)

(** [pgText]. *)
Definition pgText (s : bytes) : bytes :=
  if ValidString s && negb (existsb (Ascii.eqb nul) s) then s else ToValidUTF8 (dropNULs s) FFFD.

(** A parameter of a statement, by the column it is bound to. *)
Inductive Arg := Text (s : bytes) | Int4 (n : Z).

Definition storable_text (s : bytes) : bool := ValidString s && negb (existsb (Ascii.eqb nul) s).
Definition fits_int4 (n : Z) : bool := (- 2 ^ 31 <=? n) && (n <? 2 ^ 31).
Definition arg_ok (a : Arg) : bool := match a with Text s => storable_text s | Int4 n => fits_int4 n end.

Definition text (s : string) : Arg := Text (list_ascii_of_string s).

(** The texts of the enumerations that keep a value they do not know. *)
Definition type_args (t : JobType) : list Arg := match t with OtherType s => [text s] | _ => [] end.
Definition kind_args (k : ChannelType) : list Arg := match k with OtherChannel s => [text s] | _ => [] end.

(** A job run's payload, a job's and every structured detail is JSON text
    that [encoding/json] wrote, which is valid and has no NUL. *)
Definition payload_args (p : Payload) : list Arg := match p with PlText s => [text s] | _ => [] end.

(** [t.text(e.Detail)] under [nullIfEmpty]. *)
Definition pg_detail (d : Detail) : Detail :=
  match d with
  | DtText s => match string_of_list_ascii (pgText (list_ascii_of_string s)) with EmptyString => DtNone | t => DtText t end
  | _ => d
  end.

(** ** Sequences and transactions *)

(** [d] with the sequences where [d'] has them. *)
Definition sequences_of (d' d : DB) : DB :=
  let at_ {R} (t' t : Table R) := mkTable (rows t) (next_id t') in
  {| db_orgs := at_ (db_orgs d') (db_orgs d); db_users := at_ (db_users d') (db_users d);
     db_memberships := at_ (db_memberships d') (db_memberships d); db_tokens := at_ (db_tokens d') (db_tokens d);
     db_jobs := at_ (db_jobs d') (db_jobs d); db_runs := at_ (db_runs d') (db_runs d);
     db_secrets := at_ (db_secrets d') (db_secrets d); db_heartbeats := at_ (db_heartbeats d') (db_heartbeats d);
     db_pings := at_ (db_pings d') (db_pings d); db_events := at_ (db_events d') (db_events d);
     db_channels := at_ (db_channels d') (db_channels d); db_rules := at_ (db_rules d') (db_rules d);
     db_deliveries := at_ (db_deliveries d') (db_deliveries d); db_alerts := db_alerts d |}.

Section Transactions.
Context `{World}.

(** A statement's parameters as the server takes them. *)
Definition bind_args (l : list Arg) : Store unit := if forallb arg_ok l then ret tt else throw ErrDatabase.

(** [BeginTx], the body, [Commit] or [Rollback]: as [tx], but what is undone
    does not include the sequences. *)
Definition pg_tx {A} (body : Store (Outcome A)) : Store A := fun s =>
  let s0 := mkSt (st_db s) (S (st_tick s)) in
  match fault (st_tick s) with
  | Fails => (Error ErrDatabase, s0)
  | _ =>
      match body s0 with
      | (Error e, s') => (Error e, mkSt (sequences_of (st_db s') (st_db s)) (st_tick s'))
      | (Ok (Rollback a), s') => (Ok a, mkSt (sequences_of (st_db s') (st_db s)) (st_tick s'))
      | (Ok (Commit a), s') =>
          match fault (st_tick s') with
          | NoFault => (Ok a, mkSt (st_db s') (S (st_tick s')))
          | Fails => (Error ErrDatabase, mkSt (sequences_of (st_db s') (st_db s)) (S (st_tick s')))
          | AckLost => (Error ErrDatabase, mkSt (st_db s') (S (st_tick s')))
          end
      end
  end.

Definition pg_autocommit {A} (m : Store A) : Store A := pg_tx (let* a := m in ret (Commit a)).

End Transactions.

(** ** Recording events on a PostgreSQL transaction *)

Section Recording.
Context `{World} `{JSONText}.

(** [enqueueDeliveries]: the rules' [job_id] is an INTEGER column. *)
Definition pg_enqueueDeliveries (e : Event) (jobID : Z) (streak : Streak) : Store unit :=
  if negb (Alertable (ev_type e)) then ret tt
  else
    let jobID := if jobID <=? 0 then EventJobID e else jobID in
    bind_args [text (ev_type e); Int4 jobID] ;;;
    let* channels := query (matchedChannels e jobID) in
    for_each channels (enqueue_one e jobID streak).

(** What the event's insert binds. *)
Definition event_args (e : Event) : list Arg :=
  [text (ev_type e); text (ev_source e); text (ev_dedup_key e)] ++ payload_args (ev_payload e).

(** [recordEvent]: the row's detail goes through [text], the event returned keeps its own. *)
Definition pg_recordEvent (e : Event) : Store Event :=
  let* at_ := (if IsZero (ev_created_at e) then now_ else ret (ev_created_at e)) in
  let e := with_created e at_ in
  let* '(jobID, streak) := streakOf e at_ in
  let e := withStreak e streak in
  bind_args (event_args e) ;;;
  let* id := query (fun d => next_id (db_events d)) in
  exec (on_events (insert_row (fun i => with_detail (with_id e i) (pg_detail (ev_detail e))))) ;;;
  let e := with_id e id in
  pg_enqueueDeliveries e jobID streak ;;;
  ret e.

(** [pgEmitEventTx]. *)
Definition pgEmitEventTx (e : Event) : Store Z := let* r := pg_recordEvent e in ret (ev_id r).

(** [EmitEvent]. *)
Definition pg_EmitEvent (e : Event) : Store Z := pg_tx (let* id := pgEmitEventTx e in ret (Commit id)).

(** ** Releasing held failures *)

(** [ORDER BY last_sent_at, channel_id, job_id], with NULLs last. *)
Definition pg_alert_le (a b : (Z * Z) * AlertRow) : Prop :=
  let by_key := fst (fst a) < fst (fst b) \/ (fst (fst a) = fst (fst b) /\ snd (fst a) <= snd (fst b)) in
  match fa_last_sent_at (snd a), fa_last_sent_at (snd b) with
  | Some x, Some y => x < y \/ (x = y /\ by_key)
  | Some _, None => True
  | None, Some _ => False
  | None, None => by_key
  end.
#[export] Instance pg_alert_le_dec a b : Decision (pg_alert_le a b).
Proof. unfold pg_alert_le. destruct (fa_last_sent_at _), (fa_last_sent_at _); apply _. Defined.

(** The query of [releaseHeld]. *)
Definition is_held (x : (Z * Z) * AlertRow) : bool := bool_decide (is_Some (fa_held (snd x))).
Definition pg_held_candidates (d : DB) : list heldCandidate :=
  omap (fun '((ch, job), r) =>
      ev ← fa_held r;
      c ← select1 (fun c => (cr_id c =? ch) && (ch_org (cr_channel c) =? fa_org r)) (db_channels d);
      Some {| hc_org := fa_org r; hc_channel := ch; hc_job := job; hc_event := ev; hc_kind := ch_kind (cr_channel c) |})
    (merge_sort pg_alert_le (List.filter is_held (map_to_list (db_alerts d)))).

(** [releaseOne], with the job's row locked [FOR UPDATE] where it is read. *)
Definition pg_releaseOne (c : heldCandidate) (now : Time) : Store bool := pg_tx (
  let* '(st, held) := query (stillHeld c) in
  if negb held then ret (Rollback false)
  else
    bind_args [Int4 (hc_job c)] ;;;
    let* '(repeat, routed) := query (failedRepeat (hc_org c) (hc_channel c) (hc_job c) (hc_kind c)) in
    if negb routed then drop_one c
    else if negb (ReleaseDue st now repeat) then ret (Rollback false)
    else
      let* job := query (fun d => select1 (is_job (hc_org c) (hc_job c)) (db_jobs d)) in
      if (match job with None => true | Some j => jr_failed_runs j <=? 0 end) then drop_one c
      else
        let* last := query (last_run_status (hc_org c) (hc_job c)) in
        if bool_decide (last = Some StatusSucceeded) then drop_one c
        else
          let* '(st, held) := query (stillHeld c) in
          if negb held || negb (ReleaseDue st now repeat) then ret (Rollback false)
          else
            let* found := query (fun d => exists_row (fun e => ev_id e =? hc_event c) (db_events d)) in
            if negb found then drop_one c
            else
              saveAlertState (hc_org c) (hc_channel c) (hc_job c) (Released now) None ;;;
              insertDelivery (hc_org c) (hc_event c) (hc_channel c) ;;;
              ret (Commit true)).

Fixpoint pg_release_all (cs : list heldCandidate) (now : Time) : Store (Z * list Err) :=
  match cs with
  | [] => ret (0, [])
  | c :: rest =>
      let* r := try (pg_releaseOne c now) in
      let* '(n, errs) := pg_release_all rest now in
      ret match r with
          | Error e => (n, e :: errs)
          | Ok ok => ((if ok then 1 else 0) + n, errs)
          end
  end.

(** [ReleaseHeldAlerts]. *)
Definition pg_ReleaseHeldAlerts (now : Time) : Store (Z * list Err) :=
  let* cands := pg_autocommit (query pg_held_candidates) in
  pg_release_all cands now.

End Recording.
