(* ===== verification/PgStore.v ===== *)
(** * The PostgreSQL store ([internal/store/postgres.go])

    One definition per method that writes, or whose statement takes a text
    or a sequence of its own; each is one statement or one transaction, as
    the code writes it, run by itself. What a method does beside others on
    the same rows is in [PgRows] and [PgLocks]. *)
From S2P Require Import Prelude GoTime Domain Heartbeat Sql Schema StoreEvents Failure StoreRuns StoreHeartbeats StoreDeliveries StoreConfig Pg.
From stdpp Require Import sorting.
Open Scope Z_scope.

(** What the server is free to choose: the order an [UPDATE ... RETURNING]
    returns its rows in, and the collation [ORDER BY name] sorts with. *)
Class Server := {
  returning : list DeliveryRow -> list DeliveryRow;
  returning_perm : forall l, returning l ≡ₚ l;
  collates : string -> string -> bool;
}.

Section Jobs.
Context `{World} `{JSONText}.

(** ** Jobs *)

(** The typed columns of a job's row. *)
Definition job_args (j : Job) : list Arg :=
  [text (j_name j)] ++ type_args (j_type j)
  ++ [text (storedCommand j); text (j_http_url j); text (j_http_method j); text (j_http_body j); text (j_cron j);
      Int4 (j_interval_seconds j); Int4 (j_timeout_seconds j); Int4 (j_max_retries j)].

(** [CreateJob]. *)
Definition pg_CreateJob (j : Job) : Store Z :=
  match encodeSpec (j_spec j) with
  | Error e => throw e
  | Ok _ => pg_autocommit (
  let* now := now_ in
  bind_args (job_args j) ;;;
  let* taken := query (fun d => exists_row (job_named (j_org j) (j_name j)) (db_jobs d)) in
  if taken : bool then exec (on_jobs draw) ;;; throw ErrConstraint
  else
    let* id := query (fun d => next_id (db_jobs d)) in
    exec (on_jobs (insert_row (fun i => job_row i j (Val now) now 0 None))) ;;;
    ret id)
  end.

(** [GetJob], [GetJobByName] and [ListJobs]. *)
Definition pg_GetJob (org id : Z) : Store Job :=
  let* r := pg_autocommit (query (fun d => select1 (is_job org id) (db_jobs d))) in scan_one_job r.
Definition pg_GetJobByName (org : Z) (name : string) : Store Job :=
  let* r := pg_autocommit (bind_args [text name] ;;; query (fun d => select1 (job_named org name) (db_jobs d))) in scan_one_job r.
Definition pg_ListJobs (org : Z) : Store (list Job * list Unreadable) :=
  pg_autocommit (query (fun d => scanJobs (select (fun r => jr_org r =? org) (db_jobs d)))).

(** [UpdateJob]. *)
Definition pg_UpdateJob (j : Job) : Store unit :=
  match encodeSpec (j_spec j) with
  | Error e => throw e
  | Ok _ => pg_autocommit (
  let* now := now_ in
  bind_args (job_args j) ;;;
  let* taken := query (fun d => exists_row (is_job (j_org j) (j_id j)) (db_jobs d)
    && exists_row (fun r => job_named (j_org j) (j_name j) r && negb (jr_id r =? j_id j)) (db_jobs d)) in
  if taken : bool then throw ErrConstraint
  else
    let* n := query (fun d => count_where (is_job (j_org j) (j_id j)) (db_jobs d)) in
    exec (on_jobs (update_where (is_job (j_org j) (j_id j))
      (fun r => job_row (jr_id r) j (jr_created_at r) now (jr_failed_runs r) (jr_failing_since r)))) ;;;
    if n =? 0 then throw ErrNotFound else ret tt)
  end.

(** [DeleteJob]: the rules' [job_id] is an INTEGER column. *)
Definition pg_DeleteJob (org id : Z) : Store unit := pg_tx (
  let* r := query (fun d => select1 (is_job org id) (db_jobs d)) in
  match r with
  | None => throw ErrNotFound
  | Some r =>
      pgEmitEventTx (JobRemovedEvent org id (jr_name r)) ;;;
      exec (on_runs (delete_where (fun r => (rr_org r =? org) && (rr_job r =? id)))) ;;;
      bind_args [Int4 id] ;;;
      exec (on_rules (delete_where (fun r => (rw_org r =? org) && (rw_job r =? id)))) ;;;
      exec (on_jobs (delete_where (is_job org id))) ;;;
      deleteAlertStates org snd id ;;;
      ret (Commit tt)
  end).

(** [DueJobs]. *)
Definition pg_DueJobs (now : Time) : Store (list Job * list Unreadable) :=
  pg_autocommit (query (fun d => scanJobs (select (job_due now d) (db_jobs d)))).

(** [FailUnreadableJob]. *)
Definition pg_FailUnreadableJob (org jobID : Z) (name : string) (output : bytes) : Store Event := pg_tx (
  let* now := now_ in
  let* runID := query (fun d => next_id (db_runs d)) in
  exec (on_runs (insert_row (fun i =>
    {| rr_id := i; rr_org := org; rr_job := jobID; rr_status := StatusFailed; rr_attempt := 1; rr_exit_code := -1;
       rr_output := pgText output; rr_claimed_by := Some workerName; rr_started_at := Some now; rr_ended_at := Some now;
       rr_created_at := now |}))) ;;;
  let run := {| r_id := runID; r_org := org; r_job := jobID; r_status := StatusPending; r_attempt := 0; r_exit_code := 0;
                r_output := []; r_claimed_by := ""; r_started_at := zero_time; r_ended_at := zero_time;
                r_created_at := zero_time |} in
  let* ev := pg_recordEvent (with_detail (RunEvent run name EventRunFailed StatusFailed (-1)) (UnreadableFailureDetail output)) in
  exec (on_jobs (update_where (is_job org jobID) (fun r => jr_with_next_run r None))) ;;;
  ret (Commit ev)).

(** ** The run queue *)

(** [EnqueueRun]. *)
Definition pg_EnqueueRun (org jobID : Z) : Store Z := pg_autocommit (
  let* now := now_ in
  let* id := query (fun d => next_id (db_runs d)) in
  exec (on_runs (insert_row (fun i =>
    {| rr_id := i; rr_org := org; rr_job := jobID; rr_status := StatusPending; rr_attempt := 1; rr_exit_code := 0;
       rr_output := []; rr_claimed_by := None; rr_started_at := None; rr_ended_at := None; rr_created_at := now |}))) ;;;
  ret id).

(** [ClaimRun], with no row locked by another: [SKIP LOCKED] skips none. *)
Definition pg_ClaimRun (worker : string) : Store (option Run) := pg_autocommit (
  let* now := now_ in
  bind_args [text worker] ;;;
  let* oldest := query (fun d => select1 (has_status StatusPending) (db_runs d)) in
  match oldest with
  | None => ret None
  | Some r =>
      exec (on_runs (update_where (is_run (rr_id r)) (fun r => rr_claim r StatusRunning (Some worker) (Some now)))) ;;;
      ret (Some (scanRun (rr_claim r StatusRunning (Some worker) (Some now))))
  end).

(** [pgFinishRunTx]. *)
Definition pgFinishRunTx (runID : Z) (status : RunStatus) (exitCode : Z) (output : bytes) : Store unit :=
  let* now := now_ in
  bind_args [Int4 exitCode; Text (pgText output)] ;;;
  let* n := query (fun d => count_where (running runID) (db_runs d)) in
  exec (on_runs (update_where (running runID) (fun r => rr_finish r status exitCode (pgText output) now))) ;;;
  if n =? 0 then
    let* found := query (fun d => exists_row (is_run runID) (db_runs d)) in
    if found : bool then throw ErrRunNotRunning else throw ErrRunGone
  else ret tt.

(** [FinishRun]. *)
Definition pg_FinishRun (runID : Z) (status : RunStatus) (exitCode : Z) (output : bytes) : Store unit :=
  pg_tx (pgFinishRunTx runID status exitCode output ;;; ret (Commit tt)).

(** The recovery [FinishRunAndEmit] appends after a success, if any. *)
Definition pg_emit_recovery (runID : Z) (ev : Event) : Store unit :=
  let* prev := query (previousRunStatus runID) in
  match prev with
  | Some p => if bool_decide (p = StatusSucceeded) then ret tt
              else pgEmitEventTx (RunRecoveredEvent ev runID) ;;; ret tt
  | None => ret tt
  end.

(** [FinishRunAndEmit]. *)
Definition pg_FinishRunAndEmit (runID : Z) (status : RunStatus) (exitCode attempt : Z) (output : bytes) (ev : Event) : Store Z := pg_tx (
  pgFinishRunTx runID status exitCode output ;;;
  (bind_args [Int4 attempt] ;;; exec (on_runs (update_where (is_run runID) (fun r => rr_with_attempt r attempt)))) ;;;
  let* id := pgEmitEventTx ev in
  (if bool_decide (status = StatusSucceeded) then pg_emit_recovery runID ev ;;; endStreak runID else ret tt) ;;;
  ret (Commit id)).

(** [ListRunningRuns]. *)
Definition pg_ListRunningRuns : Store (list Run) :=
  pg_autocommit (query (fun d => map scanRun (select (has_status StatusRunning) (db_runs d)))).

(** [ReapStaleRun]: its output is bound as it is. *)
Definition pg_ReapStaleRun (runID : Z) (output : bytes) (ev : Event) : Store bool := pg_tx (
  let* now := now_ in
  bind_args [Text output] ;;;
  let* n := query (fun d => count_where (running runID) (db_runs d)) in
  exec (on_runs (update_where (running runID) (fun r => rr_finish r StatusFailed (-1) output now))) ;;;
  if n =? 0 then ret (Rollback false)
  else pgEmitEventTx ev ;;; ret (Commit true)).

(** [RequeueOrphanedRuns]: PostgreSQL's [LIKE] heeds the case. *)
Definition pg_orphaned (r : RunRow) : bool :=
  has_status StatusRunning r
  && match rr_claimed_by r with None => true | Some c => negb (String.prefix ManualClaimantPrefix c) end.
Definition pg_RequeueOrphanedRuns : Store Z := pg_autocommit (
  let* n := query (fun d => count_where pg_orphaned (db_runs d)) in
  exec (on_runs (update_where pg_orphaned (fun r => rr_claim r StatusPending None None))) ;;;
  ret n).

(** [GetRun] and [ListRuns]. *)
Definition pg_GetRun (org runID : Z) : Store Run :=
  let* r := pg_autocommit (query (fun d => select1 (fun r => (rr_org r =? org) && is_run runID r) (db_runs d))) in
  match r with None => throw ErrNotFound | Some r => ret (scanRun r) end.
Definition pg_ListRuns (org jobID limit : Z) : Store (list Run) :=
  pg_autocommit (query (fun d => map scanRun
    (select_desc (fun r => (rr_org r =? org) && (rr_job r =? jobID)) (list_limit limit) (db_runs d)))).

End Jobs.

(** ** Heartbeats *)

Section Heartbeats.
Context `{World} `{JSONText}.

Definition hb_args (h : Heartbeat) : list Arg :=
  [text (hb_name h); text (hb_token h); Int4 (hb_period_seconds h); Int4 (hb_grace_seconds h)].

(** [CreateHeartbeat]: the insert draws an id before it finds the conflict. *)
Definition pg_CreateHeartbeat (h : Heartbeat) : Store (Z * string) := pg_autocommit (
  let* now := now_ in
  bind_args (hb_args h) ;;;
  let* old := query (fun d => select1 (hb_named (hb_org h) (hb_name h)) (db_heartbeats d)) in
  match old with
  | Some r =>
      exec (on_heartbeats draw) ;;;
      exec (on_heartbeats (update_where (is_hb (hb_org h) (hr_id r))
        (fun r => hr_with_settings r (hb_period_seconds h) (hb_grace_seconds h)))) ;;;
      ret (hr_id r, default ("" : string) (hr_token r))
  | None =>
      let* taken := query (fun d => exists_row (has_token (hb_token h)) (db_heartbeats d)) in
      if taken : bool then exec (on_heartbeats draw) ;;; throw ErrConstraint
      else
        let* id := query (fun d => next_id (db_heartbeats d)) in
        exec (on_heartbeats (insert_row (new_hb h now))) ;;;
        ret (id, hb_token h)
  end).

(** [createHeartbeatIfAbsent]. *)
Definition pg_insert_hb_if_absent (h : Heartbeat) : Store (option string) := pg_autocommit (
  let* now := now_ in
  bind_args (hb_args h) ;;;
  let* old := query (fun d => exists_row (hb_named (hb_org h) (hb_name h)) (db_heartbeats d)) in
  if old : bool then exec (on_heartbeats draw) ;;; ret None
  else
    let* taken := query (fun d => exists_row (has_token (hb_token h)) (db_heartbeats d)) in
    if taken : bool then exec (on_heartbeats draw) ;;; throw ErrConstraint
    else exec (on_heartbeats (insert_row (new_hb h now))) ;;; ret (Some (hb_token h))).
Definition pg_CreateHeartbeatIfAbsent (h : Heartbeat) : Store (string * bool) :=
  let* token := pg_insert_hb_if_absent h in
  match token with
  | Some token => ret (token, true)
  | None =>
      let* old := pg_autocommit (query (fun d => select1 (hb_named (hb_org h) (hb_name h)) (db_heartbeats d))) in
      match old with
      | None => throw ErrDatabase
      | Some r => ret (default ("" : string) (hr_token r), false)
      end
  end.

(** [ListHeartbeats], [GetHeartbeatByName] and [GetHeartbeat]. *)
Definition pg_ListHeartbeats (org : Z) : Store (list Heartbeat) :=
  pg_autocommit (query (fun d => map scanHeartbeat (select (fun r => hr_org r =? org) (db_heartbeats d)))).
Definition pg_get_hb (args : list Arg) (p : HbRow -> bool) : Store Heartbeat :=
  let* r := pg_autocommit (bind_args args ;;; query (fun d => select1 p (db_heartbeats d))) in
  match r with None => throw ErrNotFound | Some r => ret (scanHeartbeat r) end.
Definition pg_GetHeartbeatByName (org : Z) (name : string) : Store Heartbeat := pg_get_hb [text name] (hb_named org name).
Definition pg_GetHeartbeat (org id : Z) : Store Heartbeat := pg_get_hb [] (is_hb org id).

(** [ListHeartbeatEvents]. *)
Definition pg_ListHeartbeatEvents (org : Z) (name : string) (limit : Z) : Store (list Event) :=
  pg_autocommit (bind_args [text name] ;;;
    query (fun d => select_desc (heartbeat_event org name) (list_limit limit) (db_events d))).

(** [DeleteHeartbeat]. *)
Definition pg_DeleteHeartbeat (org id : Z) : Store unit := pg_tx (
  let* r := query (fun d => select1 (is_hb org id) (db_heartbeats d)) in
  exec (on_heartbeats (delete_where (is_hb org id))) ;;;
  match r with
  | None => throw ErrNotFound
  | Some r =>
      exec (on_pings (delete_where (fun p => (p_org (pr_ping p) =? org) && (p_heartbeat (pr_ping p) =? id)))) ;;;
      pgEmitEventTx (RemovedEvent org (hr_name r)) ;;;
      ret (Commit tt)
  end).

(** What [recordHeartbeatPing]'s log entry binds: the rid, the body through
    [text], and the exit status, which is an INTEGER column. *)
Definition ping_args (i : PingInput) : list Arg :=
  [text (in_rid i); Text (pgText (in_body i))]
  ++ match in_exit_status i with Some n => [Int4 n] | None => [] end.

Definition with_body (i : PingInput) (b : bytes) : PingInput :=
  {| in_kind := in_kind i; in_exit_status := in_exit_status i; in_rid := in_rid i; in_body := b |}.

(** [RecordHeartbeatPing]. *)
Definition pg_RecordHeartbeatPing (token : string) (i : PingInput) (now : Time) : Store PingResult :=
  if negb (ValidPingKind (in_kind i)) then throw ErrUnknownKind
  else pg_tx (
    bind_args (text token :: match in_kind i with PingStart | PingSuccess => [text (in_rid i)] | _ => [] end) ;;;
    let* r := ping_state token i now in
    match r with
    | None => throw ErrNotFound
    | Some (r, event) =>
        bind_args (ping_args i) ;;;
        let* duration := query (runDuration (hr_id r) i now) in
        exec (on_pings (insert_row (log_entry (hr_org r) (hr_id r) (with_body i (pgText (in_body i))) duration now))) ;;;
        exec (on_pings (trim_entries (hr_id r))) ;;;
        exec (on_pings (trim_bytes (hr_id r))) ;;;
        (match event with None => ret tt | Some ev => pgEmitEventTx ev ;;; ret tt end) ;;;
        ret (Commit {| pg_heartbeat := hr_id r; pg_org := hr_org r; pg_name := hr_name r; pg_event := event |})
    end).

(** [RecordPing]. *)
Definition pg_RecordPing (token : string) (now : Time) : Store (Z * string * bool) :=
  let* r := pg_RecordHeartbeatPing token {| in_kind := PingSuccess; in_exit_status := None; in_rid := ""; in_body := [] |} now in
  ret (pg_org r, pg_name r, bool_decide (is_Some (pg_event r))).

(** [DueHeartbeats]. *)
Definition pg_DueHeartbeats (now : Time) : Store (list Heartbeat) :=
  pg_autocommit (query (fun d => dueFromCandidates (map scanHeartbeat (select watch_candidate (db_heartbeats d))) now)).

(** [SetHeartbeatStatus]. *)
Definition pg_SetHeartbeatStatus (id : Z) (status : HbStatus) : Store unit :=
  pg_autocommit (exec (on_heartbeats (update_where (fun r => hr_id r =? id) (fun r => hr_with_status r status)))).

(** [pgSetHeartbeatStatusIf]: a zero [lastSeenAt] stands for NULL. *)
Definition pgSetHeartbeatStatusIf (id : Z) (from to : HbStatus) (lastSeenAt : Time) : Store bool :=
  let guard r := (hr_id r =? id) && bool_decide (hr_status r = from)
    && (if IsZero lastSeenAt then bool_decide (hr_last_seen_at r = None) else bool_decide (hr_last_seen_at r = Some lastSeenAt)) in
  let* n := query (fun d => count_where guard (db_heartbeats d)) in
  exec (on_heartbeats (update_where guard (fun r => hr_with_status r to))) ;;;
  ret (0 <? n).

(** [SetHeartbeatStatusIf] and [SetHeartbeatStatusIfAndEmit]. *)
Definition pg_SetHeartbeatStatusIf (id : Z) (from to : HbStatus) (lastSeenAt : Time) : Store bool :=
  pg_autocommit (pgSetHeartbeatStatusIf id from to lastSeenAt).
Definition pg_SetHeartbeatStatusIfAndEmit (id : Z) (from to : HbStatus) (lastSeenAt : Time) (ev : Event) : Store bool := pg_tx (
  let* fired := pgSetHeartbeatStatusIf id from to lastSeenAt in
  if negb fired then ret (Rollback false)
  else pgEmitEventTx ev ;;; ret (Commit true)).

(** [MarkHeartbeatDownAndEmit], with [IS NOT DISTINCT FROM]. *)
Definition pg_MarkHeartbeatDownAndEmit (o : Heartbeat) (ev : Event) : Store bool := pg_tx (
  let* n := query (fun d => count_where (observed_guard o) (db_heartbeats d)) in
  exec (on_heartbeats (update_where (observed_guard o) (fun r => hr_set r (hr_last_seen_at r) HbDown None ""))) ;;;
  if n =? 0 then ret (Rollback false)
  else pgEmitEventTx ev ;;; ret (Commit true)).

End Heartbeats.

(** ** Deliveries and retention *)

Section Deliveries.
Context `{World} `{JSONText} `{Server}.

(** [ClaimDueDeliveries], with no row locked by another. *)
Definition pg_ClaimDueDeliveries (now : Time) (lease hold : Duration) (limit : Z) : Store (list Delivery) := pg_tx (
  let* claimed := query (claimable_rows now hold limit) in
  exec (on_deliveries (update_where (fun r => existsb (fun c => dl_id c =? dl_id r) claimed) (claim_delivery now lease))) ;;;
  let* out := join_events (returning (map (claim_delivery now lease) claimed)) in
  ret (Commit out)).

(** [MarkDeliveryDelivered], [RescheduleDelivery], [FailDelivery] and [FailDeliveryAndEmit]. *)
Definition pg_MarkDeliveryDelivered (id : Z) : Store unit :=
  pg_autocommit (exec (on_deliveries (update_where (is_delivery id) (fun r => dl_with_state r DeliveryDelivered)))).
Definition pg_RescheduleDelivery (id : Z) (nextAttemptAt : Time) : Store unit :=
  pg_autocommit (exec (on_deliveries (update_where (fun r => is_delivery id r && pending r)
    (fun r => dl_schedule r (dl_attempts r) nextAttemptAt (dl_first_attempt_at r))))).
Definition pg_FailDelivery (id : Z) : Store unit :=
  pg_autocommit (exec (on_deliveries (update_where (is_delivery id) (fun r => dl_with_state r DeliveryFailed)))).
Definition pg_FailDeliveryAndEmit (id : Z) (ev : Event) : Store unit := pg_tx (
  let* n := query (fun d => count_where (fun r => is_delivery id r && pending r) (db_deliveries d)) in
  exec (on_deliveries (update_where (fun r => is_delivery id r && pending r) (fun r => dl_with_state r DeliveryFailed))) ;;;
  if n =? 0 then ret (Rollback tt)
  else pgEmitEventTx ev ;;; ret (Commit tt)).

(** [ListEvents]. *)
Definition pg_ListEvents (org limit : Z) : Store (list Event) :=
  pg_autocommit (query (fun d => select_desc (fun e => ev_org e =? org) (list_limit limit) (db_events d))).

(** [PruneEvents]: neither subquery yields a NULL, so [NOT IN] is a non-membership. *)
Definition pg_prunable_event (before : Time) (d : DB) (e : Event) : bool :=
  (ev_created_at e <? before)
  && negb (existsb (fun i => i =? ev_id e) (map dl_event (select pending (db_deliveries d))))
  && negb (existsb (fun i => i =? ev_id e) (omap (fun '(_, r) => fa_held r) (map_to_list (db_alerts d)))).
Definition pg_PruneEvents (before : Time) : Store Z := pg_autocommit (
  let* n := query (fun d => count_where (pg_prunable_event before d) (db_events d)) in
  exec (fun d => on_events (delete_where (pg_prunable_event before d)) d) ;;;
  ret n).

(** [PruneJobRuns] and [PruneDeliveries]. *)
Definition pg_PruneJobRuns (before : Time) : Store Z := pg_autocommit (
  let* n := query (fun d => count_where (prunable_run before) (db_runs d)) in
  exec (on_runs (delete_where (prunable_run before))) ;;;
  ret n).
Definition pg_prunable_delivery (before : Time) (r : DeliveryRow) : bool :=
  (dl_created_at r <? before) && (bool_decide (dl_state r = DeliveryDelivered) || bool_decide (dl_state r = DeliveryFailed)).
Definition pg_PruneDeliveries (before : Time) : Store Z := pg_autocommit (
  let* n := query (fun d => count_where (pg_prunable_delivery before) (db_deliveries d)) in
  exec (on_deliveries (delete_where (pg_prunable_delivery before))) ;;;
  ret n).

(** [PruneHeartbeatPings], and [ReclaimSpace], which leaves it to autovacuum. *)
Definition pg_PruneHeartbeatPings (before : Time) : Store Z := pg_autocommit (
  let* n := query (fun d => count_where (prunable_ping before) (db_pings d)) in
  exec (on_pings (delete_where (prunable_ping before))) ;;;
  ret n).
Definition pg_ReclaimSpace : Store Z := ret 0.

End Deliveries.

(** ** Channels, rules, secrets and identities *)

Section Config.
Context `{World} `{JSONText} `{Server}.

(** [CreateChannel]. *)
Definition pg_CreateChannel (c : Channel) (config : string) : Store Z := pg_autocommit (
  let* now := now_ in
  bind_args ([text (ch_name c)] ++ kind_args (ch_kind c) ++ [text config]) ;;;
  let* old := query (fun d => select1 (channel_named (ch_org c) (ch_name c)) (db_channels d)) in
  match old with
  | Some r =>
      exec (on_channels draw) ;;;
      exec (on_channels (update_where (is_channel (ch_org c) (cr_id r))
        (fun r => new_channel c config (cr_id r) (ch_created_at (cr_channel r))))) ;;;
      ret (cr_id r)
  | None =>
      let* id := query (fun d => next_id (db_channels d)) in
      exec (on_channels (insert_row (fun i => new_channel c config i now))) ;;;
      ret id
  end).

(** [GetChannel] and [ListChannels]. *)
Definition pg_GetChannel (org id : Z) : Store (Channel * string) :=
  let* r := pg_autocommit (query (fun d => select1 (is_channel org id) (db_channels d))) in
  match r with None => throw ErrNotFound | Some r => ret (cr_channel r, default ("" : string) (cr_config r)) end.
Definition pg_ListChannels (org : Z) : Store (list Channel) :=
  pg_autocommit (query (fun d => map cr_channel (select (fun r => ch_org (cr_channel r) =? org) (db_channels d)))).

(** [DeleteChannel]. *)
Definition pg_DeleteChannel (org id : Z) : Store unit := pg_tx (
  exec (on_rules (delete_where (fun r => (rw_org r =? org) && (rw_channel r =? id)))) ;;;
  deleteAlertStates org fst id ;;;
  exec (on_deliveries (update_where
    (fun r => (dl_org r =? org) && (dl_channel r =? id) && bool_decide (dl_state r = DeliveryPending))
    (fun r => dl_with_state r DeliveryFailed))) ;;;
  exec (on_channels (delete_where (is_channel org id))) ;;;
  ret (Commit tt)).

(** [CreateRule]: [job_id] and [repeat_seconds] are INTEGER columns. *)
Definition rule_args (r : Rule) : list Arg :=
  [text (ru_event_type r); Int4 (ru_job r)] ++ match repeatSeconds (ru_repeat r) with Some n => [Int4 n] | None => [] end.
Definition pg_CreateRule (r : Rule) : Store Z := pg_autocommit (
  let* now := now_ in
  bind_args (rule_args r) ;;;
  let row i created := {| rw_id := i; rw_org := ru_org r; rw_channel := ru_channel r; rw_event_type := ru_event_type r;
                          rw_enabled := ru_enabled r; rw_created_at := created; rw_job := ru_job r;
                          rw_repeat_seconds := repeatSeconds (ru_repeat r) |} in
  let* old := query (fun d => select1 (same_rule r) (db_rules d)) in
  match old with
  | Some x =>
      exec (on_rules draw) ;;;
      exec (on_rules (update_where (same_rule r) (fun x => row (rw_id x) (rw_created_at x)))) ;;;
      ret (rw_id x)
  | None =>
      let* id := query (fun d => next_id (db_rules d)) in
      exec (on_rules (insert_row (fun i => row i now))) ;;;
      ret id
  end).

(** [ListRules], [DeleteRule] and [MatchingRules]. *)
Definition pg_ListRules (org : Z) : Store (list Rule) :=
  pg_autocommit (query (fun d => map scanRule (select (fun r => rw_org r =? org) (db_rules d)))).
Definition pg_DeleteRule (org id : Z) : Store unit :=
  pg_autocommit (exec (on_rules (delete_where (fun r => (rw_org r =? org) && (rw_id r =? id))))).
Definition pg_MatchingRules (org : Z) (typ : string) (jobID : Z) : Store (list Rule) :=
  pg_autocommit (bind_args [text typ; Int4 jobID] ;;;
    query (fun d => map scanRule (select (routes org typ jobID) (db_rules d)))).

(** [PutSecret]. *)
Definition pg_PutSecret (org : Z) (name ciphertext : string) : Store unit := pg_autocommit (
  let* now := now_ in
  bind_args [text name; text ciphertext] ;;;
  let row i created := {| se_id := i; se_org := org; se_name := name; se_ciphertext := ciphertext;
                          se_created_at := created; se_updated_at := now |} in
  let* old := query (fun d => exists_row (secret_named org name) (db_secrets d)) in
  if old : bool then
    exec (on_secrets draw) ;;;
    exec (on_secrets (update_where (secret_named org name) (fun r => row (se_id r) (se_created_at r))))
  else exec (on_secrets (insert_row (fun i => row i now)))).

(** [GetSecret]. *)
Definition pg_GetSecret (org : Z) (name : string) : Store string :=
  let* r := pg_autocommit (bind_args [text name] ;;; query (fun d => select1 (secret_named org name) (db_secrets d))) in
  match r with None => throw ErrNotFound | Some r => ret (se_ciphertext r) end.

(** [ListSecrets], in the order of the database's collation. *)
Definition pg_secret_le (a b : SecretRow) : Prop := is_Some (if collates (se_name a) (se_name b) then Some tt else None).
#[export] Instance pg_secret_le_dec a b : Decision (pg_secret_le a b).
Proof. unfold pg_secret_le. destruct (collates _ _); [left|right]; [by eexists|by intros []]. Defined.
Definition pg_ListSecrets (org : Z) : Store (list SecretMeta) :=
  pg_autocommit (query (fun d => map scanSecretMeta
    (merge_sort pg_secret_le (select (fun r => se_org r =? org) (db_secrets d))))).

(** [CreateUser], [GetUserByEmail] and [GetUserByID]. *)
Definition pg_CreateUser (u : User) : Store Z := pg_autocommit (
  let* now := now_ in
  bind_args [text (u_email u); text (u_password_hash u)] ;;;
  let* taken := query (fun d => exists_row (user_with_email (u_org u) (u_email u)) (db_users d)) in
  if taken : bool then exec (on_users draw) ;;; throw ErrConstraint
  else
    let* id := query (fun d => next_id (db_users d)) in
    exec (on_users (insert_row (fun i => {| u_id := i; u_org := u_org u; u_email := u_email u;
                                             u_password_hash := u_password_hash u; u_created_at := now |}))) ;;;
    ret id).
Definition pg_get_user (args : list Arg) (p : User -> bool) : Store User :=
  let* r := pg_autocommit (bind_args args ;;; query (fun d => select1 p (db_users d))) in
  match r with None => throw ErrNotFound | Some u => ret u end.
Definition pg_GetUserByEmail (org : Z) (email : string) : Store User := pg_get_user [text email] (user_with_email org email).
Definition pg_GetUserByID (org id : Z) : Store User := pg_get_user [] (fun u => (u_org u =? org) && (u_id u =? id)).

(** [CreateMembership] and [GetMembership]. *)
Definition pg_CreateMembership (m : Membership) : Store Z := pg_autocommit (
  let* now := now_ in
  bind_args [text (m_role m)] ;;;
  let* taken := query (fun d => exists_row (membership_of (m_org m) (m_user m)) (db_memberships d)) in
  if taken : bool then exec (on_memberships draw) ;;; throw ErrConstraint
  else
    let* id := query (fun d => next_id (db_memberships d)) in
    exec (on_memberships (insert_row (fun i => {| m_id := i; m_org := m_org m; m_user := m_user m; m_role := m_role m;
                                                   m_created_at := now |}))) ;;;
    ret id).
Definition pg_GetMembership (org user : Z) : Store Membership :=
  let* r := pg_autocommit (query (fun d => select1 (membership_of org user) (db_memberships d))) in
  match r with None => throw ErrNotFound | Some m => ret m end.

(** [CreateToken], [AuthenticateToken], [ListTokens] and [DeleteToken]. *)
Definition pg_CreateToken (t : APIToken) : Store Z := pg_autocommit (
  let* now := now_ in
  bind_args [text (tk_name t); text (tk_hash t)] ;;;
  let* taken := query (fun d => exists_row (fun x => String.eqb (tk_hash x) (tk_hash t)) (db_tokens d)) in
  if taken : bool then exec (on_tokens draw) ;;; throw ErrConstraint
  else
    let* id := query (fun d => next_id (db_tokens d)) in
    exec (on_tokens (insert_row (fun i => {| tk_id := i; tk_org := tk_org t; tk_name := tk_name t; tk_hash := tk_hash t;
                                              tk_created_at := now |}))) ;;;
    ret id).
Definition pg_AuthenticateToken (hash : string) : Store (Z * string) :=
  let* r := pg_autocommit (bind_args [text hash] ;;; query (fun d => select1 (fun t => String.eqb (tk_hash t) hash) (db_tokens d))) in
  match r with None => throw ErrNotFound | Some t => ret (tk_org t, tk_name t) end.
Definition pg_ListTokens (org : Z) : Store (list APIToken) :=
  pg_autocommit (query (fun d => map scanTokenMeta (select (fun t => tk_org t =? org) (db_tokens d)))).
Definition pg_DeleteToken (org id : Z) : Store unit :=
  pg_autocommit (exec (on_tokens (delete_where (fun t => (tk_org t =? org) && (tk_id t =? id))))).

(** [BootstrapDefaultOrg] and [SetOrgPingKey]. *)
Definition pg_BootstrapDefaultOrg : Store Org :=
  pg_autocommit (
    let* now := now_ in
    let* old := query (fun d => exists_row default_org (db_orgs d)) in
    if old : bool then exec (on_orgs draw)
    else exec (on_orgs (insert_row (fun i =>
      {| or_org := {| o_id := i; o_name := "default"; o_created_at := now |}; or_ping_key := None |})))) ;;;
  let* r := pg_autocommit (query (fun d => select1 default_org (db_orgs d))) in
  match r with None => throw ErrDatabase | Some r => ret (or_org r) end.
Definition pg_SetOrgPingKey (org : Z) (key : string) : Store unit := pg_autocommit (
  bind_args [text key] ;;;
  let* taken := query (fun d => negb (String.eqb key "") && exists_row (is_org org) (db_orgs d)
    && exists_row (fun r => bool_decide (or_ping_key r = Some key) && negb (is_org org r)) (db_orgs d)) in
  if taken : bool then throw ErrConstraint
  else
    let* n := query (fun d => count_where (is_org org) (db_orgs d)) in
    exec (on_orgs (update_where (is_org org) (fun r => {| or_org := or_org r; or_ping_key := nullIfEmpty key |}))) ;;;
    if n =? 0 then throw ErrNotFound else ret tt).

End Config.
