(* ===== verification/PgHistory.v ===== *)
(** * What holds of every history of a PostgreSQL store

    The store's operations run on PostgreSQL one after the other, with any
    faults: each is a sequence of the elementary steps of [StoreInv] and of
    sequence values drawn for nothing, so what [History] shows of SQLite
    holds here too, whatever texts and numbers the server refuses. *)
From S2P Require Import Prelude GoTime Domain Heartbeat Pacing Sql Schema StoreEvents Failure StoreRuns StoreHeartbeats StoreDeliveries StoreConfig StoreInv History Pg PgStore.
From stdpp Require Import relations.
Open Scope Z_scope.

Create HintDb pg.

Section Ops.
Context `{World} `{JSONText} `{Server}.

Definition pg_run_op (o : Op) : Store unit :=
  match o with
  | OpCreateJob j => ignore (pg_CreateJob j)
  | OpUpdateJob j => pg_UpdateJob j
  | OpDeleteJob org id => pg_DeleteJob org id
  | OpFailUnreadableJob org job name output => ignore (pg_FailUnreadableJob org job name output)
  | OpEnqueueRun org job => ignore (pg_EnqueueRun org job)
  | OpClaimRun w => ignore (pg_ClaimRun w)
  | OpFinishRun r st ec out => pg_FinishRun r st ec out
  | OpFinishRunAndEmit r st ec att out ev => ignore (pg_FinishRunAndEmit r st ec att out ev)
  | OpReapStaleRun r out ev => ignore (pg_ReapStaleRun r out ev)
  | OpRequeueOrphanedRuns => ignore pg_RequeueOrphanedRuns
  | OpEmitEvent ev => ignore (pg_EmitEvent ev)
  | OpReleaseHeldAlerts now => ignore (pg_ReleaseHeldAlerts now)
  | OpCreateHeartbeat h => ignore (pg_CreateHeartbeat h)
  | OpCreateHeartbeatIfAbsent h => ignore (pg_CreateHeartbeatIfAbsent h)
  | OpDeleteHeartbeat org id => pg_DeleteHeartbeat org id
  | OpRecordHeartbeatPing token i now => ignore (pg_RecordHeartbeatPing token i now)
  | OpSetHeartbeatStatus id st => pg_SetHeartbeatStatus id st
  | OpSetHeartbeatStatusIf id from to seen => ignore (pg_SetHeartbeatStatusIf id from to seen)
  | OpSetHeartbeatStatusIfAndEmit id from to seen ev => ignore (pg_SetHeartbeatStatusIfAndEmit id from to seen ev)
  | OpMarkHeartbeatDownAndEmit o ev => ignore (pg_MarkHeartbeatDownAndEmit o ev)
  | OpClaimDueDeliveries now lease hold limit => ignore (pg_ClaimDueDeliveries now lease hold limit)
  | OpMarkDeliveryDelivered id => pg_MarkDeliveryDelivered id
  | OpRescheduleDelivery id at_ => pg_RescheduleDelivery id at_
  | OpFailDelivery id => pg_FailDelivery id
  | OpFailDeliveryAndEmit id ev => pg_FailDeliveryAndEmit id ev
  | OpPruneEvents t => ignore (pg_PruneEvents t)
  | OpPruneJobRuns t => ignore (pg_PruneJobRuns t)
  | OpPruneDeliveries t => ignore (pg_PruneDeliveries t)
  | OpPruneHeartbeatPings t => ignore (pg_PruneHeartbeatPings t)
  | OpCreateChannel c config => ignore (pg_CreateChannel c config)
  | OpDeleteChannel org id => pg_DeleteChannel org id
  | OpCreateRule r => ignore (pg_CreateRule r)
  | OpDeleteRule org id => pg_DeleteRule org id
  | OpPutSecret org name ct => pg_PutSecret org name ct
  | OpCreateUser u => ignore (pg_CreateUser u)
  | OpCreateMembership m => ignore (pg_CreateMembership m)
  | OpCreateToken t => ignore (pg_CreateToken t)
  | OpDeleteToken org id => pg_DeleteToken org id
  | OpBootstrapDefaultOrg => ignore pg_BootstrapDefaultOrg
  | OpSetOrgPingKey org key => pg_SetOrgPingKey org key
  end.

Fixpoint pg_run_ops (l : list Op) (s : St DB) : St DB :=
  match l with
  | [] => s
  | o :: r => pg_run_ops r (snd (pg_run_op o s))
  end.

(** ** Sequences only move forward *)

Definition counters (d : DB) : list Z :=
  [next_id (db_orgs d); next_id (db_users d); next_id (db_memberships d); next_id (db_tokens d); next_id (db_jobs d);
   next_id (db_runs d); next_id (db_secrets d); next_id (db_heartbeats d); next_id (db_pings d); next_id (db_events d);
   next_id (db_channels d); next_id (db_rules d); next_id (db_deliveries d)].

(** [d'] has the rows of [d], some of its sequences further on. *)
Definition gaps (d d' : DB) : Prop := d' = sequences_of d' d /\ Forall2 Z.le (counters d) (counters d').

Lemma counters_sequences d d' : counters (sequences_of d' d) = counters d'.
Proof. done. Qed.

Lemma gaps_sequences d d' : Forall2 Z.le (counters d) (counters d') -> gaps d (sequences_of d' d).
Proof. intros Hc. split; [done|]. by rewrite counters_sequences. Qed.

Lemma sequences_same d : sequences_of d d = d.
Proof. unfold sequences_of. destruct d as [[] [] [] [] [] [] [] [] [] [] [] [] [] m]. done. Qed.

Lemma counters_le_refl d : Forall2 Z.le (counters d) (counters d).
Proof. unfold counters. repeat constructor; lia. Qed.
Lemma counters_le_trans d1 d2 d3 : Forall2 Z.le (counters d1) (counters d2) -> Forall2 Z.le (counters d2) (counters d3) ->
  Forall2 Z.le (counters d1) (counters d3).
Proof. intros H12 H23. unfold counters in *. repeat match goal with Hf : Forall2 _ (_ :: _) _ |- _ => apply Forall2_cons_1 in Hf as [? Hf] end. repeat constructor; lia. Qed.

(** What is recorded and what is deleted is among [P]. *)
Variable P : Change -> Prop.

Lemma counters_le_micro d d' : micro P d d' -> Forall2 Z.le (counters d) (counters d').
Proof.
  intros Hm. unfold counters. destruct Hm as [d d' e _ Hs| | | | | | | | | | | | | | | | | | |];
    try match goal with Hk : keeps_ids _ _ _ |- _ => destruct Hk as [_ Hk] end; simpl; try (repeat constructor; lia).
  destruct Hs as (e' & t & cs & _ & _ & [Hn _] & m & news & -> & _). simpl. repeat constructor; lia.
Qed.

Definition pg_step (d d' : DB) : Prop := micro P d d' \/ gaps d d'.
Definition pg_steps : DB -> DB -> Prop := rtc pg_step.

Lemma counters_le_steps d d' : pg_steps d d' -> Forall2 Z.le (counters d) (counters d').
Proof.
  induction 1 as [|d1 d2 d3 [Hm|[_ Hg]] _ IH]; [apply counters_le_refl| |]; (eapply counters_le_trans; [|exact IH]); [by apply counters_le_micro|done].
Qed.

Lemma table_wf_gap {R} (key : R -> Z) t n : next_id t <= n -> table_wf key t -> table_wf key (mkTable (rows t) n).
Proof.
  intros Hn (Hs & Hb & Hp). split; [done|]. simpl. split; [|lia]. eapply Forall_mono; [|exact Hb]. simpl. lia.
Qed.

Lemma gaps_wf d d' : gaps d d' -> db_wf d -> db_wf d'.
Proof.
  intros [-> Hc] Hw. rewrite counters_sequences in Hc. unfold counters in Hc.
  repeat match goal with Hf : Forall2 _ (_ :: _) _ |- _ => apply Forall2_cons_1 in Hf as [? Hf] end.
  unfold db_wf, sequences_of in *. simpl. decompose [and] Hw. repeat split_and; by apply table_wf_gap.
Qed.

Lemma pg_steps_wf d d' : pg_steps d d' -> db_wf d -> db_wf d'.
Proof. induction 1 as [|d1 d2 d3 [Hm|Hg] _ IH]; intros Hw; [done| |]; apply IH; [by eapply micro_wf|by eapply gaps_wf]. Qed.

(** Steps from a well-formed database. *)
Definition psteps (d d' : DB) : Prop := db_wf d -> pg_steps d d'.
#[export] Instance psteps_refl : Reflexive psteps.
Proof. intros d _. apply rtc_refl. Qed.
#[export] Instance psteps_trans : Transitive psteps.
Proof. intros d1 d2 d3 H12 H23 Hw. etrans; [by apply H12|]. apply H23. eapply pg_steps_wf; [by apply H12|done]. Qed.

Lemma psteps_micro d d' : micro P d d' -> psteps d d'.
Proof. intros Hm _. apply rtc_once. by left. Qed.
Lemma psteps_gap d d' : gaps d d' -> psteps d d'.
Proof. intros Hg _. apply rtc_once. by right. Qed.
Lemma psteps_wsteps d d' : wsteps P d d' -> psteps d d'.
Proof. intros Hs Hw. specialize (Hs Hw). induction Hs as [|d1 d2 d3 Hm _ IH]; [apply rtc_refl|]. eapply rtc_l; [by left|]. apply IH. by eapply micro_wf. Qed.

Lemma psteps_sequences d d' : psteps d d' -> psteps d (sequences_of d' d).
Proof. intros Hs Hw. apply psteps_gap; [|done]. apply gaps_sequences, counters_le_steps. by apply Hs. Qed.

Lemma evolves_sqlite {A} (m : Store A) : evolves (wsteps P) m -> evolves psteps m.
Proof. intros Hm s. apply psteps_wsteps, Hm. Qed.

(** A transaction's effect is its body's, or what its body drew. *)
Lemma evolves_pg_tx {A} (body : Store (Outcome A)) : evolves psteps body -> evolves psteps (pg_tx body).
Proof.
  intros Hb s. unfold pg_tx. specialize (Hb (mkSt (st_db s) (S (st_tick s)))). simpl in Hb.
  destruct (fault (st_tick s)); simpl; try done;
    (destruct (body _) as [[[a|a]|e] s'] eqn:E; simpl in *; [destruct (fault (st_tick s')); simpl| |]; try done; by apply psteps_sequences).
Qed.

Lemma evolves_pg_autocommit {A} (m : Store A) : evolves psteps m -> evolves psteps (pg_autocommit m).
Proof. intros Hm. apply evolves_pg_tx. apply evolves_bind; [apply _|done|]. intros a. apply evolves_ret; apply _. Qed.

Lemma evolves_bind_args l : evolves psteps (bind_args l).
Proof. unfold bind_args. evolve. Qed.

End Ops.

(** A sequence value drawn for nothing is a gap. *)
Ltac gap := split; [unfold sequences_of; simpl; by repeat match goal with |- context [mkTable (rows ?t) (next_id ?t)] => replace (mkTable (rows t) (next_id t)) with t by (by destruct t) end
  | unfold counters; simpl; repeat constructor; lia].
Ltac draws := apply psteps_gap; gap.

(** A row is deleted for what the operation deletes. *)
Ltac dropping := let r := fresh "r" in
  intros r; intros; match goal with Hd : forall c, drops _ c -> _ |- _ => apply Hd end; simpl; auto with drops; fail.

(** One statement is an elementary step. *)
Ltac states :=
  apply psteps_micro; first
    [ apply mi_run_new; intros; reflexivity
    | apply mi_run_delete; dropping
    | apply mi_run_update; [apply running_not_terminal|done]
    | apply mi_ping_new; intros; reflexivity
    | apply mi_ping_delete; dropping
    | apply mi_delivery_delete; dropping
    | apply mi_delivery_update; intros; split; [done|]; simpl; by auto
    | apply mi_alerts, held_from_imap; intros k r r' y Hf Hh; simpl in *; repeat case_match; simplify_eq; done
    | apply mi_jobs; first [by apply keeps_insert | by apply keeps_update | apply keeps_delete]
    | apply mi_heartbeats; first [by apply keeps_insert | by apply keeps_update | apply keeps_delete]
    | apply mi_channels; first [by apply keeps_insert | by apply keeps_update | apply keeps_delete]
    | apply mi_rules; first [by apply keeps_insert | by apply keeps_update | apply keeps_delete]
    | apply mi_secrets; first [by apply keeps_insert | by apply keeps_update | apply keeps_delete]
    | apply mi_users; first [by apply keeps_insert | by apply keeps_update | apply keeps_delete]
    | apply mi_memberships; first [by apply keeps_insert | by apply keeps_update | apply keeps_delete]
    | apply mi_tokens; first [by apply keeps_insert | by apply keeps_update | apply keeps_delete]
    | apply mi_orgs; first [by apply keeps_insert | by apply keeps_update | apply keeps_delete] ].

(** The statements of a transaction one by one; what is left is what neither
    tactic knows. *)
Ltac pg_evolve :=
  repeat first
    [ progress intros
    | solve [eauto with pg]
    | apply evolves_pg_tx | apply evolves_pg_autocommit
    | apply evolves_bind; [typeclasses eauto| |intros ?]
    | apply evolves_ret; typeclasses eauto
    | apply evolves_throw; typeclasses eauto
    | apply evolves_query; typeclasses eauto
    | apply evolves_now; typeclasses eauto
    | apply evolves_try
    | match goal with
      | |- evolves _ (if ?b then _ else _) => destruct b
      | |- evolves _ (match ?x with _ => _ end) => destruct x
      end
    | apply evolves_exec; intros ?; first [draws | states | idtac] ].

Section Steps.
Context `{World} `{JSONText} `{Server} (P : Change -> Prop) (records : forall e, P (Records e)).

(** ** Each operation is a sequence of steps *)

#[local] Hint Resolve evolves_pg_tx evolves_pg_autocommit evolves_bind_args : pg.

(** The event as it is told of differs from its row by the detail at most,
    which neither its deliveries nor what is held look at. *)
Lemma queues_detail e x cs d d' : queues e cs d d' -> queues (with_detail e x) cs d d'.
Proof. intros (m & news & E & Hh & Hn & Hi). by exists m, news. Qed.

Lemma pg_enqueue_effect e jobID streak s : exists cs,
  queues e cs (st_db s) (st_db (snd (pg_enqueueDeliveries e jobID streak s))).
Proof.
  unfold pg_enqueueDeliveries. destruct (negb _); [exists []; apply queues_refl|].
  unfold bind at 1, bind_args. destruct (forallb _ _); [|exists []; apply queues_refl].
  unfold bind, query, ret.
  destruct (enqueue_all_effect e (if jobID <=? 0 then EventJobID e else jobID) streak
    (matchedChannels e (if jobID <=? 0 then EventJobID e else jobID) (st_db s)) s) as (cs & s' & E & Hq & _).
  exists cs. by rewrite E.
Qed.

(** [recordEvent] changes streaks at most before it records the event. *)
Lemma evolves_pg_record e : evolves (psteps P) (pg_recordEvent e).
Proof.
  intros s. unfold pg_recordEvent.
  assert (Hat : exists a s1, (if IsZero (ev_created_at e) then now_ else ret (ev_created_at e)) s = (Ok a, s1) /\
    st_db s1 = st_db s /\ (IsZero (ev_created_at e) = false -> a = ev_created_at e))
    by (destruct (IsZero (ev_created_at e)); eexists _, _; (split; [done|]); by split).
  destruct Hat as (a & s1 & E1 & D1 & Ha). unfold bind at 1. rewrite E1.
  destruct (streakOf_effect (with_created e a) a s1) as (j & st & s2 & t & E2 & D2 & Ht). unfold bind at 1. rewrite E2.
  set (e1 := withStreak (with_created e a) st). destruct (withStreak_recorded (with_created e a) st) as [Hr Hc]. fold e1 in Hr, Hc.
  unfold bind at 1, bind_args at 1. destruct (forallb arg_ok (event_args e1)); simpl.
  - unfold bind at 1, query at 1. unfold bind at 1, exec at 1. 
    set (s3 := mkSt _ _). destruct (pg_enqueue_effect (with_id e1 (next_id (db_events (st_db s2)))) j st s3) as (cs & Hq).
    unfold bind. destruct (pg_enqueueDeliveries _ _ _ s3) as [r s4]. simpl in Hq.
    replace (st_db (snd _)) with (st_db s4) by (by destruct r). intros Hw. apply rtc_once. left. apply (mi_record P e); [done|].
    exists (with_detail (with_id e1 (next_id (db_events (st_db s)))) (pg_detail (ev_detail e1))), t, cs.
    rewrite D1 in *. split; [|split; [done|split; [done|]]].
    { destruct Hr as (? & ? & ? & ? & ? & ?). repeat split; try done. simpl. rewrite Hc. simpl. exact Ha. }
    apply (queues_detail _ (pg_detail (ev_detail e1))) in Hq. unfold s3 in Hq. simpl in Hq. rewrite D2 in Hq. exact Hq.
  - rewrite D2, D1 in *. apply psteps_micro, (mi_jobs P (st_db s) (fun _ => t)), streaks_keep, Ht.
Qed.

Lemma evolves_pg_emit e : evolves (psteps P) (pgEmitEventTx e).
Proof. unfold pgEmitEventTx. apply evolves_bind; [apply _|apply evolves_pg_record|]. intros a. apply evolves_ret; apply _. Qed.

#[local] Hint Resolve evolves_pg_record evolves_pg_emit : pg.

Lemma pg_bind_args l s : bind_args l s = (Ok tt, s) \/ bind_args l s = (Error ErrDatabase, s).
Proof. unfold bind_args. destruct (forallb _ _); [by left|by right]. Qed.

(** What SQLite's code does is a step here as well. *)
Lemma evolves_shared {A} (m : Store A) : evolves (msteps P) m -> evolves (psteps P) m.
Proof. intros Hm. apply evolves_sqlite. by apply evolves_wsteps. Qed.

(** The finish is SQLite's, of the cleaned output, unless the exit code is refused. *)
Lemma pgFinishRunTx_cases run st ec out s :
  pgFinishRunTx run st ec out s = finishRunTx run st ec (pgText out) s \/
  pgFinishRunTx run st ec out s = (Error ErrDatabase, mkSt (st_db s) (S (st_tick s))).
Proof.
  destruct (pg_bind_args [Int4 ec; Text (pgText out)] (mkSt (st_db s) (S (st_tick s)))) as [E|E]; [left|right];
    unfold pgFinishRunTx; unfold bind at 1 2; unfold now_ at 1; by rewrite E.
Qed.

Lemma evolves_pg_finish_attempt run st ec out att :
  evolves (psteps P) (pgFinishRunTx run st ec out ;;; (bind_args [Int4 att] ;;; exec (on_runs (update_where (is_run run) (fun r => rr_with_attempt r att))))).
Proof.
  intros s. pose proof (evolves_sqlite P _ (evolves_finish_attempt P run st ec (pgText out) att) s) as Hboth.
  pose proof (evolves_shared _ (evolves_finishRunTx P run st ec (pgText out)) s) as Hone. unfold bind at 1 in Hboth. unfold bind at 1.
  destruct (pgFinishRunTx_cases run st ec out s) as [-> | ->]; [|done].
  destruct (finishRunTx _ _ _ _ s) as [[[]|e] s1]; [|done]. unfold bind.
  by destruct (pg_bind_args [Int4 att] s1) as [-> | ->].
Qed.

Lemma evolves_pgFinishRunTx run st ec out : evolves (psteps P) (pgFinishRunTx run st ec out).
Proof. unfold pgFinishRunTx. pg_evolve. Qed.

Lemma evolves_pg_FinishRunAndEmit run st ec att out ev : evolves (psteps P) (pg_FinishRunAndEmit run st ec att out ev).
Proof.
  unfold pg_FinishRunAndEmit. apply evolves_pg_tx. intros s.
  rewrite (bind_assoc (pgFinishRunTx run st ec out)
             (fun _ => bind_args [Int4 att] ;;; exec (on_runs (update_where (is_run run) (fun r => rr_with_attempt r att))))). revert s.
  change (evolves (psteps P) (let* u := (pgFinishRunTx run st ec out ;;; (bind_args [Int4 att] ;;; exec (on_runs (update_where (is_run run) (fun r => rr_with_attempt r att))))) in
    (let* id := pgEmitEventTx ev in
     (if bool_decide (st = StatusSucceeded) then pg_emit_recovery run ev ;;; endStreak run else ret tt) ;;; ret (Commit id)))).
  apply evolves_bind; [apply _|apply evolves_pg_finish_attempt|]. intros u.
  pose proof (evolves_shared _ (evolves_endStreak P run)). unfold pg_emit_recovery. pg_evolve.
Qed.

(** The claimed run is pending, hence not finished. *)
Lemma evolves_pg_ClaimRun w : evolves (psteps P) (pg_ClaimRun w).
Proof.
  unfold pg_ClaimRun. apply evolves_pg_autocommit, evolves_bind; [apply _|pg_evolve|]. intros now. apply evolves_bind; [apply _|pg_evolve|]. intros _ s Hw.
  unfold bind, query. destruct (select1 (has_status StatusPending) (db_runs (st_db s))) as [r|] eqn:E; simpl; [|by apply rtc_refl].
  apply select1_Some in E as [Hr Hp]. unfold on_runs.
  rewrite (update_is_run _ r (fun x => is_run (rr_id r) x && has_status StatusPending x)); [|done|done| |].
  - apply rtc_once. left. apply (mi_run_update P (st_db s) (fun x => is_run (rr_id r) x && has_status StatusPending x)); [|done].
    intros x Hx. apply andb_true_iff in Hx as [_ Hx%has_status_true]. by rewrite Hx.
  - unfold is_run. by rewrite Z.eqb_refl.
  - intros x Hx. by bsimpl.
Qed.

(** A held failure is released with its event there. *)
Lemma evolves_release_held c now :
  evolves (psteps P) (
    let* found := query (fun d => exists_row (fun e => ev_id e =? hc_event c) (db_events d)) in
    if negb found then drop_one c
    else saveAlertState (hc_org c) (hc_channel c) (hc_job c) (Released now) None ;;;
         insertDelivery (hc_org c) (hc_event c) (hc_channel c) ;;; ret (Commit true)).
Proof.
  intros s. unfold bind at 1, query. destruct (exists_row (fun e => ev_id e =? hc_event c) (db_events (st_db s))) eqn:E; simpl.
  - apply exists_row_true in E as (e & He & Hid). apply Z.eqb_eq in Hid.
    etrans; [|apply psteps_micro, (mi_delivery_new P (on_alerts _ (st_db s)) (new_delivery (hc_org c) (hc_event c) (hc_channel c) (clock (st_tick s))))].
    + apply psteps_micro, mi_alerts, held_from_insert. by left.
    + intros i. split; [done|]. by exists e.
  - apply (evolves_shared _ (evolves_drop_one P c)).
Qed.

Lemma evolves_pg_releaseOne c now : evolves (psteps P) (pg_releaseOne c now).
Proof. pose proof (evolves_shared _ (evolves_drop_one P c)). pose proof (evolves_release_held c now). unfold pg_releaseOne. pg_evolve. Qed.

Lemma evolves_pg_release_all cs now : evolves (psteps P) (pg_release_all cs now).
Proof. pose proof evolves_pg_releaseOne. induction cs as [|c cs IH]; simpl; pg_evolve. Qed.

Lemma evolves_pg_RecordHeartbeatPing token i now : (forall log r, crowded log r -> P (DropsPing log r)) ->
  evolves (psteps P) (pg_RecordHeartbeatPing token i now).
Proof.
  intros Hc. pose proof (evolves_shared _ (evolves_ping_state P token i now)). unfold pg_RecordHeartbeatPing. pg_evolve;
    (apply psteps_wsteps; intros _; (eapply trims_step; [done|]); auto).
Qed.

Lemma event_needed_prunable before d e : pg_prunable_event before d e = prunable_event before d e.
Proof.
  unfold pg_prunable_event, prunable_event, event_needed, exists_row, select. rewrite <- andb_assoc. f_equal. rewrite <- negb_orb. f_equal. f_equal.
  - induction (rows (db_deliveries d)) as [|r l IH]; [done|]. cbn [List.filter existsb]. destruct (pending r); cbn [map existsb andb]; by rewrite IH.
  - induction (map_to_list (db_alerts d)) as [|[k r] l IH]; [done|]. cbn [omap list_omap existsb].
    destruct (fa_held r) as [x|] eqn:Eh; cbn [existsb]; rewrite <- IH; [|by rewrite bool_decide_eq_false_2].
    f_equal. destruct (Z.eqb_spec x (ev_id e)) as [->|]; [by rewrite bool_decide_eq_true_2|rewrite bool_decide_eq_false_2; congruence].
Qed.

#[local] Hint Resolve evolves_pg_FinishRunAndEmit evolves_pg_ClaimRun evolves_pg_release_all evolves_pgFinishRunTx : pg.

Lemma evolves_pg_join l : evolves (psteps P) (join_events l).
Proof. apply evolves_shared, evolves_join_events. Qed.
#[local] Hint Resolve evolves_pg_join : pg.

Lemma evolves_pg_insert_hb h : evolves (psteps P) (pg_insert_hb_if_absent h).
Proof. unfold pg_insert_hb_if_absent. pg_evolve. Qed.

Lemma evolves_pg_insert_org : evolves (psteps P) (pg_autocommit (
  let* now := now_ in
  let* old := query (fun d => exists_row default_org (db_orgs d)) in
  if old : bool then exec (on_orgs draw)
  else exec (on_orgs (insert_row (fun i =>
    {| or_org := {| o_id := i; o_name := "default"; o_created_at := now |}; or_ping_key := None |}))))).
Proof. pg_evolve. Qed.

#[local] Hint Resolve evolves_pg_insert_hb evolves_pg_insert_org : pg.

Lemma pg_prunable_delivered before r : pg_prunable_delivery before r = true -> prunable_delivery before r = true.
Proof. unfold pg_prunable_delivery, prunable_delivery, pending. destruct (dl_state r); simpl; by rewrite ?andb_false_r. Qed.

Lemma pg_op_steps o : (forall c, drops o c -> P c) -> evolves (psteps P) (pg_run_op o).
Proof.
  intros Hdrop.
  destruct o; simpl; try (apply evolves_bind; [apply _|by apply evolves_pg_RecordHeartbeatPing; intros log r; apply (Hdrop (DropsPing log r))|pg_evolve]);
     unfold ignore, pg_CreateJob, pg_UpdateJob, pg_DeleteJob, pg_FailUnreadableJob, pg_EnqueueRun, pg_FinishRun, pg_ReapStaleRun,
    pg_RequeueOrphanedRuns, pg_EmitEvent, pg_ReleaseHeldAlerts, pg_CreateHeartbeat, pg_CreateHeartbeatIfAbsent, pg_DeleteHeartbeat,
    pg_SetHeartbeatStatus, pg_SetHeartbeatStatusIf, pg_SetHeartbeatStatusIfAndEmit, pgSetHeartbeatStatusIf, pg_MarkHeartbeatDownAndEmit,
    pg_ClaimDueDeliveries, pg_MarkDeliveryDelivered, pg_RescheduleDelivery, pg_FailDelivery, pg_FailDeliveryAndEmit, pg_PruneEvents,
    pg_PruneJobRuns, pg_PruneDeliveries, pg_PruneHeartbeatPings, pg_CreateChannel, pg_DeleteChannel, pg_CreateRule, pg_DeleteRule, pg_PutSecret,
    pg_CreateUser, pg_CreateMembership, pg_CreateToken, pg_DeleteToken, pg_BootstrapDefaultOrg, pg_SetOrgPingKey, deleteAlertStates; pg_evolve.
  - apply psteps_micro, mi_run_update; [|done]. intros r Hr. apply andb_true_iff in Hr as [Hr%has_status_true _]. by rewrite Hr.
  - apply psteps_micro, mi_event_delete. intros e Hp. rewrite event_needed_prunable in Hp. unfold prunable_event in Hp. bsimpl.
    split; [done|]. apply (Hdrop (DropsEvent e)). simpl. lia.
  - apply psteps_micro, mi_delivery_delete. intros r Hr. by apply (Hdrop (DropsDelivery r)), prunable_delivery_true, pg_prunable_delivered.
Qed.

End Steps.

(** With nothing to say of what is recorded or deleted. *)
Lemma pg_op_any `{World} `{JSONText} `{Server} o : evolves (psteps any) (pg_run_op o).
Proof. by apply pg_op_steps. Qed.

Section Points.
Context `{World} `{JSONText} `{Server}.

(** ** What holds between any two points of a history *)

Lemma pg_run_ops_steps l s : db_wf (st_db s) -> pg_steps any (st_db s) (st_db (pg_run_ops l s)).
Proof.
  revert s. induction l as [|o l IH]; intros s Hw; simpl; [apply rtc_refl|]. pose proof (pg_op_any o s Hw) as Ho.
  etrans; [exact Ho|]. apply IH. by eapply pg_steps_wf.
Qed.

Lemma pg_run_ops_wf l s : db_wf (st_db s) -> db_wf (st_db (pg_run_ops l s)).
Proof. intros Hw. eapply pg_steps_wf; [by apply pg_run_ops_steps|done]. Qed.

(** A preorder that elementary steps and gaps respect. *)
Lemma pg_steps_rel (P : Change -> Prop) (R : DB -> DB -> Prop) d d' : Reflexive R -> Transitive R ->
  (forall d d', micro P d d' -> R d d') -> (forall d d', gaps d d' -> R d d') -> pg_steps P d d' -> R d d'.
Proof. intros Hrefl Htrans Hm Hg. induction 1 as [|d1 d2 d3 [Hs|Hs] _ IH]; [done| |]; (etrans; [|exact IH]); [by apply Hm|by apply Hg]. Qed.

Lemma survives_gap {R} (key : R -> Z) (rel : R -> R -> Prop) `{!Reflexive rel} (t : Table R) n : next_id t <= n ->
  survives key rel t (mkTable (rows t) n).
Proof. intros Hn. split; [done|]. simpl. intros r Hr _. by exists r. Qed.

Lemma survives_gaps d d' : gaps d d' ->
  survives rr_id run_final (db_runs d) (db_runs d') /\ survives dl_id delivery_final (db_deliveries d) (db_deliveries d') /\
  survives ev_id eq (db_events d) (db_events d') /\ survives pr_id eq (db_pings d) (db_pings d').
Proof.
  intros [-> Hc]. rewrite counters_sequences in Hc. unfold counters in Hc.
  repeat match goal with Hf : Forall2 _ (_ :: _) _ |- _ => apply Forall2_cons_1 in Hf as [? Hf] end.
  simpl. repeat split_and; apply survives_gap; try done; apply _.
Qed.

Definition kept (d d' : DB) : Prop :=
  survives rr_id run_final (db_runs d) (db_runs d') /\ survives dl_id delivery_final (db_deliveries d) (db_deliveries d') /\
  survives ev_id eq (db_events d) (db_events d') /\ survives pr_id eq (db_pings d) (db_pings d').

Lemma kept_steps P d d' : pg_steps P d d' -> kept d d'.
Proof.
  apply pg_steps_rel.
  - intros d0. unfold kept. repeat split_and; apply survives_refl; apply _.
  - intros d1 d2 d3 (A1 & A2 & A3 & A4) (B1 & B2 & B3 & B4). unfold kept. repeat split_and; eapply survives_trans; try done; apply _.
  - intros d1 d2 Hm. split; [by eapply run_final_micro|]. split; [by eapply delivery_final_micro|]. by eapply records_micro.
  - apply survives_gaps.
Qed.

Lemma alerts_have_events_gaps d d' : gaps d d' -> alerts_have_events d -> alerts_have_events d'.
Proof. intros [-> _] Ha. exact Ha. Qed.

Lemma all_accounted_gaps P d d' : gaps d d' -> all_accounted P d d'.
Proof. intros [-> _]. unfold all_accounted, accounted. simpl. repeat split_and; intros r Hr; exists r; (split; [done|]); (split; [reflexivity|by left]). Qed.

Lemma all_accounted_steps P d d' : pg_steps P d d' -> all_accounted P d d'.
Proof. apply pg_steps_rel; [apply _|apply _|apply all_accounted_micro|apply all_accounted_gaps]. Qed.

Lemma alerts_have_events_steps P d d' : pg_steps P d d' -> alerts_have_events d -> alerts_have_events d'.
Proof.
  apply (pg_steps_rel P (fun d d' => alerts_have_events d -> alerts_have_events d')).
  - by intros d0.
  - intros d1 d2 d3. auto.
  - apply alerts_have_events_micro.
  - apply alerts_have_events_gaps.
Qed.

(** What holds between two points of anything that moves by these steps from the empty database. *)
Lemma pg_steps_history P d1 d2 : pg_steps any empty_db d1 -> pg_steps P d1 d2 ->
  db_wf d2 /\ alerts_have_events d2 /\
  survives rr_id run_final (db_runs d1) (db_runs d2) /\ survives dl_id delivery_final (db_deliveries d1) (db_deliveries d2) /\
  survives ev_id eq (db_events d1) (db_events d2) /\ survives pr_id eq (db_pings d1) (db_pings d2).
Proof.
  intros Hs1 Hs2. split; [eapply pg_steps_wf, pg_steps_wf, empty_db_wf; done|]. split; [|by eapply kept_steps].
  eapply alerts_have_events_steps, alerts_have_events_steps; [done..|]. split; [by intros r Hin%elem_of_nil|by intros k r i Hk].
Qed.

(** on PostgreSQL too, whatever operations run one after the other and
    whatever faults the database has, in any history and between any two
    points of it: no id is given out twice, though sequences leave gaps; a
    finished run, a recorded event and a logged ping stay as they are until
    they are pruned; a finalized delivery is never pending again; and the
    event of every pending delivery and held alert is there. *)
Theorem pg_history (l1 l2 : list Op) :
  let d1 := st_db (pg_run_ops l1 start) in
  let d2 := st_db (pg_run_ops l2 (pg_run_ops l1 start)) in
  db_wf d2 /\ alerts_have_events d2 /\
  survives rr_id run_final (db_runs d1) (db_runs d2) /\ survives dl_id delivery_final (db_deliveries d1) (db_deliveries d2) /\
  survives ev_id eq (db_events d1) (db_events d2) /\ survives pr_id eq (db_pings d1) (db_pings d2).
Proof.
  simpl. apply (pg_steps_history any); [apply (pg_run_ops_steps l1 start empty_db_wf)|]. apply pg_run_ops_steps, pg_run_ops_wf, empty_db_wf.
Qed.

End Points.
