(* ===== verification/OpenStore.v ===== *)
(** * Opening a store ([Open], [OpenSQLite], [OpenPostgres], [buildDSN]; [rebind] of [internal/store/pings.go])

    The connection string, the pool, and which [Storage] the callers get. The
    drivers are the [sql] package's; what opening and pinging a database
    returns is given. PostgreSQL's instance of the interface is here, and
    what the ping handler does differently on it. *)
From S2P Require Import Prelude GoTime Utf8 Domain Heartbeat Failure Redact Tail Capture GoStrings Sql Schema StoreEvents StoreRuns StoreHeartbeats StoreDeliveries StoreConfig StoreInterface StoreInv PingApi PingLog PingHandler History Pg PgStore PgHistory.
From stdpp Require Import relations pretty.
Open Scope Z_scope.

(** ** The connection string *)

Definition sharedPragmas : bytes := bstr "_pragma=busy_timeout(5000)&_pragma=foreign_keys(ON)".
Definition walPragma : bytes := bstr "_pragma=journal_mode(WAL)&".

(** [joinQuery]. *)
Definition joinQuery (dsn : bytes) : bytes := if Contains dsn (bstr "?") then bstr "&" else bstr "?".

(** [buildDSN]. *)
Definition buildDSN (dsn : bytes) : bytes :=
  if Contains dsn (bstr "_pragma=") then dsn
  else if bool_decide (dsn = bstr ":memory:") || is_nil dsn then bstr "file::memory:?cache=shared&" ++ sharedPragmas
  else if has_prefix dsn (bstr "file:") then dsn ++ joinQuery dsn ++ walPragma ++ sharedPragmas
  else bstr "file:" ++ dsn ++ bstr "?" ++ walPragma ++ sharedPragmas.

(** ** The pool of a handle ([database/sql]) *)

Record Handle := mkHandle { db_driver : string; db_conn : bytes; maxOpen : Z; maxIdleCount : Z; maxLifetime : Duration; db_closed : bool }.

Definition fresh_handle (driver : string) (conn : bytes) : Handle :=
  {| db_driver := driver; db_conn := conn; maxOpen := 0; maxIdleCount := 0; maxLifetime := 0; db_closed := false |}.

(** How many connections may stay open with nothing to do. *)
Definition maxIdleConns (h : Handle) : Z := if maxIdleCount h =? 0 then 2 else Z.max 0 (maxIdleCount h).

Definition SetMaxIdleConns (n : Z) (h : Handle) : Handle :=
  let h := mkHandle (db_driver h) (db_conn h) (maxOpen h) (if 0 <? n then n else -1) (maxLifetime h) (db_closed h) in
  if (0 <? maxOpen h) && (maxOpen h <? maxIdleConns h)
  then mkHandle (db_driver h) (db_conn h) (maxOpen h) (maxOpen h) (maxLifetime h) (db_closed h) else h.
Definition SetMaxOpenConns (n : Z) (h : Handle) : Handle :=
  let h := mkHandle (db_driver h) (db_conn h) (Z.max 0 n) (maxIdleCount h) (maxLifetime h) (db_closed h) in
  if (0 <? maxOpen h) && (maxOpen h <? maxIdleConns h) then SetMaxIdleConns n h else h.
Definition SetConnMaxLifetime (d : Duration) (h : Handle) : Handle :=
  mkHandle (db_driver h) (db_conn h) (maxOpen h) (maxIdleCount h) (Z.max 0 d) (db_closed h).
Definition CloseHandle (h : Handle) : Handle :=
  mkHandle (db_driver h) (db_conn h) (maxOpen h) (maxIdleCount h) (maxLifetime h) true.

(** What opening a handle and pinging it within a deadline fail with, if they do. *)
Class Drivers := { sql_Open : string -> bytes -> option string; PingContext : string -> bytes -> Duration -> option string }.

Inductive OpenErr := OpenFailed (what err : string) | PingFailed (what err : string) | UnknownDriver (driver : bytes).

Inductive Opened := SQLiteStore (h : Handle) | PostgresStore (h : Handle).

Section Open.
Context `{Drivers}.

(** What is returned, and the handle that was made, if one was. *)
Definition OpenSQLite (dsn : bytes) : (OpenErr + Opened) * option Handle :=
  let conn := buildDSN dsn in
  match sql_Open "sqlite" conn with
  | Some err => (inl (OpenFailed "open sqlite" err), None)
  | None =>
      let db := fresh_handle "sqlite" conn in
      match PingContext "sqlite" conn (5 * Second) with
      | Some err => (inl (PingFailed "ping sqlite" err), Some (CloseHandle db))
      | None => let db := SetMaxOpenConns 1 db in (inr (SQLiteStore db), Some db)
      end
  end.

Definition OpenPostgres (dsn : bytes) : (OpenErr + Opened) * option Handle :=
  match sql_Open "pgx" dsn with
  | Some err => (inl (OpenFailed "open postgres" err), None)
  | None =>
      let db := fresh_handle "pgx" dsn in
      match PingContext "pgx" dsn (5 * Second) with
      | Some err => (inl (PingFailed "ping postgres" err), Some (CloseHandle db))
      | None =>
          let db := SetConnMaxLifetime Hour (SetMaxIdleConns 5 (SetMaxOpenConns 10 db)) in
          (inr (PostgresStore db), Some db)
      end
  end.

Definition Open (driver dsn : bytes) : (OpenErr + Opened) * option Handle :=
  if bool_decide (driver = bstr "sqlite") then OpenSQLite dsn
  else if bool_decide (driver = bstr "postgres") then OpenPostgres dsn
  else (inl (UnknownDriver driver), None).

(** [Close]. *)
Definition Close (o : Opened) : Opened :=
  match o with SQLiteStore h => SQLiteStore (CloseHandle h) | PostgresStore h => PostgresStore (CloseHandle h) end.

End Open.

(** ** Placeholders *)

Inductive dialect := dialectSQLite | dialectPostgres.

(** The loop of [rebind]: [r] is a rune's bytes. *)
Fixpoint rebind_runes (n : Z) (rs : list (bytes * bool)) : bytes :=
  match rs with
  | [] => []
  | (r, valid) :: rs =>
      if bool_decide (r = bstr "?") then bstr "$" ++ Itoa (n + 1) ++ rebind_runes (n + 1) rs
      else (if valid then r else FFFD) ++ rebind_runes n rs
  end.

(** [rebind]. *)
Definition rebind (d : dialect) (q : bytes) : bytes :=
  match d with dialectSQLite => q | dialectPostgres => rebind_runes 0 (chunks q) end.

(** ** PostgreSQL's store *)

Section Postgres.
Context `{World} `{JSONText} `{PgStore.Server}.

(** [GetOrgPingKey], [OrgByPingKey] and [ListHeartbeatPings]. *)
Definition pg_GetOrgPingKey (org : Z) : Store string :=
  let* r := pg_autocommit (query (fun d => select1 (is_org org) (db_orgs d))) in
  match r with None => throw ErrNotFound | Some r => ret (default ("" : string) (or_ping_key r)) end.
Definition pg_OrgByPingKey (key : string) : Store Z :=
  if String.eqb key "" then throw ErrNotFound
  else
    let* r := pg_autocommit (bind_args [text key] ;;;
      query (fun d => select1 (fun r => bool_decide (or_ping_key r = Some key)) (db_orgs d))) in
    match r with None => throw ErrNotFound | Some r => ret (or_id r) end.
Definition pg_ListHeartbeatPings (org heartbeatID limit : Z) : Store (list Ping) :=
  pg_autocommit (query (fun d => map scanPing
    (select_desc (fun r => (p_org (pr_ping r) =? org) && of_heartbeat heartbeatID r) (list_limit limit) (db_pings d)))).

Definition pg_tenancy : TenancyStore := {|
  s_BootstrapDefaultOrg := pg_BootstrapDefaultOrg; s_SetOrgPingKey := pg_SetOrgPingKey; s_GetOrgPingKey := pg_GetOrgPingKey;
  s_OrgByPingKey := pg_OrgByPingKey |}.
Definition pg_jobs : JobStore := {|
  s_CreateJob := pg_CreateJob; s_GetJob := pg_GetJob; s_GetJobByName := pg_GetJobByName; s_ListJobs := pg_ListJobs; s_UpdateJob := pg_UpdateJob;
  s_DeleteJob := pg_DeleteJob; s_DueJobs := pg_DueJobs; s_FailUnreadableJob := pg_FailUnreadableJob |}.
Definition pg_runs : RunStore := {|
  s_EnqueueRun := pg_EnqueueRun; s_ClaimRun := pg_ClaimRun; s_FinishRun := pg_FinishRun; s_FinishRunAndEmit := pg_FinishRunAndEmit;
  s_GetRun := pg_GetRun; s_ListRuns := pg_ListRuns; s_RequeueOrphanedRuns := pg_RequeueOrphanedRuns;
  s_ListRunningRuns := pg_ListRunningRuns; s_ReapStaleRun := pg_ReapStaleRun |}.
Definition pg_secrets : SecretStore := {| s_PutSecret := pg_PutSecret; s_GetSecret := pg_GetSecret; s_ListSecrets := pg_ListSecrets |}.
Definition pg_auth : AuthStore := {|
  s_CreateUser := pg_CreateUser; s_GetUserByEmail := pg_GetUserByEmail; s_GetUserByID := pg_GetUserByID;
  s_CreateMembership := pg_CreateMembership; s_GetMembership := pg_GetMembership; s_CreateToken := pg_CreateToken;
  s_AuthenticateToken := pg_AuthenticateToken; s_ListTokens := pg_ListTokens; s_DeleteToken := pg_DeleteToken |}.
Definition pg_events : EventStore := {|
  s_EmitEvent := pg_EmitEvent; s_ListEvents := pg_ListEvents; s_PruneEvents := pg_PruneEvents; s_PruneJobRuns := pg_PruneJobRuns;
  s_PruneDeliveries := pg_PruneDeliveries; s_PruneHeartbeatPings := pg_PruneHeartbeatPings |}.
Definition pg_deliveries : DeliveryStore := {|
  s_ClaimDueDeliveries := pg_ClaimDueDeliveries; s_ReleaseHeldAlerts := pg_ReleaseHeldAlerts; s_MarkDeliveryDelivered := pg_MarkDeliveryDelivered;
  s_RescheduleDelivery := pg_RescheduleDelivery; s_FailDelivery := pg_FailDelivery; s_FailDeliveryAndEmit := pg_FailDeliveryAndEmit |}.
Definition pg_channels : ChannelStore := {|
  s_CreateChannel := pg_CreateChannel; s_GetChannel := pg_GetChannel; s_ListChannels := pg_ListChannels; s_DeleteChannel := pg_DeleteChannel;
  s_CreateRule := pg_CreateRule; s_ListRules := pg_ListRules; s_DeleteRule := pg_DeleteRule; s_MatchingRules := pg_MatchingRules |}.
Definition pg_heartbeats : HeartbeatStore := {|
  s_CreateHeartbeat := pg_CreateHeartbeat; s_CreateHeartbeatIfAbsent := pg_CreateHeartbeatIfAbsent; s_ListHeartbeats := pg_ListHeartbeats;
  s_GetHeartbeatByName := pg_GetHeartbeatByName; s_GetHeartbeat := pg_GetHeartbeat; s_ListHeartbeatEvents := pg_ListHeartbeatEvents;
  s_DeleteHeartbeat := pg_DeleteHeartbeat; s_RecordPing := pg_RecordPing; s_RecordHeartbeatPing := pg_RecordHeartbeatPing;
  s_ListHeartbeatPings := pg_ListHeartbeatPings; s_DueHeartbeats := pg_DueHeartbeats; s_SetHeartbeatStatus := pg_SetHeartbeatStatus;
  s_SetHeartbeatStatusIf := pg_SetHeartbeatStatusIf; s_SetHeartbeatStatusIfAndEmit := pg_SetHeartbeatStatusIfAndEmit;
  s_MarkHeartbeatDownAndEmit := pg_MarkHeartbeatDownAndEmit |}.

(** The assertion that [PostgresStore] is a [Store]. *)
Definition pg_storage : Storage := {|
  storage_tenancy := pg_tenancy; storage_jobs := pg_jobs; storage_runs := pg_runs; storage_secrets := pg_secrets;
  storage_auth := pg_auth; storage_events := pg_events; storage_deliveries := pg_deliveries; storage_channels := pg_channels;
  storage_heartbeats := pg_heartbeats |}.

(** What the callers of [Open] get. *)
Definition storage_of (o : Opened) : Storage := match o with SQLiteStore _ => sqlite_storage | PostgresStore _ => pg_storage end.

End Postgres.

(** ** What the connection string says *)

Lemma Contains_spec s v : v <> [] -> Contains s v = true <-> exists a b, s = a ++ v ++ b.
Proof.
  intros Hv. unfold Contains. destruct (Index s v) as [j|] eqn:E; split; try done.
  - intros _. apply Index_Some in E as [[t Ht]%has_prefix_spec _]. exists (take j s), t. by rewrite <- Ht, take_drop.
  - intros (a & b & ->). exfalso. apply (Index_None _ _ (List.length a)) in E; [|done]. rewrite drop_app_length in E.
    assert (Hp : has_prefix (v ++ b) v = true) by (apply has_prefix_spec; by exists b). congruence.
Qed.

Lemma Contains_app a v b : v <> [] -> Contains (a ++ v ++ b) v = true.
Proof. intros Hv. apply Contains_spec; [done|]. by exists a, b. Qed.

Lemma Contains_byte s (c : ascii) : Contains s [c] = true <-> c ∈ s.
Proof. rewrite Contains_spec by done. split; [intros (a & b & ->); set_solver|intros (a & b & ->)%list_elem_of_split; by exists a, b]. Qed.

Lemma Index_byte (c : ascii) a b : c ∉ a -> Index (a ++ c :: b) [c] = Some (List.length a).
Proof.
  induction a as [|x a IH]; intros Ha; cbn [app Index].
  - by rewrite (proj2 (has_prefix_spec (c :: b) [c]) (ex_intro _ b eq_refl)).
  - destruct (has_prefix (x :: a ++ c :: b) [c]) eqn:E; [apply has_prefix_spec in E as [t [= -> _]]; set_solver|]. rewrite IH by set_solver. done.
Qed.

Lemma Split_at sep s t : Split sep (s ++ sep :: t) = Split sep s ++ Split sep t.
Proof.
  induction s as [|c s IH]; simpl; [by rewrite Ascii.eqb_refl|]. rewrite IH. destruct (Ascii.eqb c sep); [done|].
  pose proof (Split_nonempty sep s). by destruct (Split sep s).
Qed.

Lemma Split_part sep s p : p ∈ Split sep s -> exists a b, s = a ++ p ++ b.
Proof.
  revert p. induction s as [|c s IH]; intros p; simpl.
  - intros ->%list_elem_of_singleton. by exists [], [].
  - destruct (Ascii.eqb c sep).
    + intros [->|Hp]%elem_of_cons; [by exists [], (c :: s)|]. destruct (IH p Hp) as (a & b & ->). by exists (c :: a), b.
    + pose proof (Split_nonempty sep s). pose proof (Join_Split sep s) as Hj. destruct (Split sep s) as [|q ps] eqn:E; [done|].
      intros [->|Hp]%elem_of_cons.
      * exists [], (match ps with [] => [] | _ => sep :: GoStrings.Join sep ps end). subst s. by destruct ps; simpl; rewrite ?app_nil_r.
      * destruct (IH p) as (a & b & ->); [by right|]. by exists (c :: a), b.
Qed.

Definition ampersand : ascii := "&".
Definition question : ascii := "?".

(** The parameters of a connection string: what follows its first question mark, by parts. *)
Definition query_params (conn : bytes) : list bytes :=
  match Index conn [question] with Some i => Split ampersand (drop (S i) conn) | None => [] end.

Definition busy_timeout : bytes := bstr "_pragma=busy_timeout(5000)".
Definition foreign_keys : bytes := bstr "_pragma=foreign_keys(ON)".
Definition journal_wal : bytes := bstr "_pragma=journal_mode(WAL)".

Lemma query_params_at a b : question ∉ a -> query_params (a ++ question :: b) = Split ampersand b.
Proof.
  intros Ha. unfold query_params. rewrite Index_byte by done. change (a ++ question :: b) with (a ++ [question] ++ b).
  by rewrite app_assoc, drop_app_length' by (rewrite length_app; simpl; lia).
Qed.

Lemma Split_tail sep s t : sep ∉ t -> exists l q, Split sep s = l ++ [q] /\ Split sep (s ++ t) = l ++ [q ++ t].
Proof.
  intros Ht. induction s as [|c s (l & q & IH1 & IH2)]; simpl; [exists [], []; by rewrite Split_free|].
  rewrite IH1, IH2. destruct (Ascii.eqb c sep); [by exists ([] :: l), q|]. destruct l as [|x l]; [by exists [], (c :: q)|by exists ((c :: x) :: l), q].
Qed.

Ltac is_in := rewrite ?elem_of_app, ?elem_of_cons; by auto 10.
Ltac not_in := apply (bool_decide_eq_true_1 (_ ∉ _)); vm_compute; reflexivity.

(** What [buildDSN] appends, in a query that has [s] before it. *)
Definition appended : bytes := walPragma ++ sharedPragmas.
Lemma Split_appended (s t : bytes) : ampersand ∉ t ->
  exists l q, Split ampersand s = l ++ [q] /\ Split ampersand (s ++ t ++ appended) = l ++ [q ++ t ++ journal_wal; busy_timeout; foreign_keys].
Proof.
  intros Ht. destruct (Split_tail ampersand s (t ++ journal_wal)) as (l & q & E1 & E2); [apply not_elem_of_app; split; [done|not_in]|].
  exists l, q. split; [done|]. change appended with (journal_wal ++ ampersand :: sharedPragmas). rewrite (app_assoc t), (app_assoc s), Split_at, E2, <- (app_assoc l). done.
Qed.

(** [buildDSN], case by case. *)
Lemma buildDSN_cases dsn : Contains dsn (bstr "_pragma=") = false ->
  (((dsn = bstr ":memory:" \/ dsn = []) /\ query_params (buildDSN dsn) = [bstr "cache=shared"; busy_timeout; foreign_keys])) \/
  (dsn <> bstr ":memory:" /\ dsn <> [] /\
   ((question ∉ dsn /\ query_params (buildDSN dsn) = [journal_wal; busy_timeout; foreign_keys]) \/
    (exists a b, dsn = a ++ question :: b /\ question ∉ a /\
      query_params (buildDSN dsn) = Split ampersand (b ++ (if has_prefix dsn (bstr "file:") then [ampersand] else [question]) ++ appended)))).
Proof.
  intros Hp. unfold buildDSN. rewrite Hp. destruct (bool_decide_reflect (dsn = bstr ":memory:")) as [->|Hm]; [left; split; [by left|reflexivity]|].
  destruct dsn as [|c dsn]; [left; split; [by right|reflexivity]|]. right. split; [done|]. split; [done|]. cbn [orb is_nil]. set (s := c :: dsn) in *.
  assert (Hq : forall x, question ∉ x -> query_params (x ++ [question] ++ appended) = [journal_wal; busy_timeout; foreign_keys])
    by (intros x Hx; cbn [app]; by rewrite query_params_at).
  destruct (decide (question ∈ s)) as [Hin|Hn].
  - right. destruct (list_elem_of_split_l _ _ Hin) as (a & b & E & Ha). exists a, b. split; [done|]. split; [done|].
    destruct (has_prefix s _).
    + unfold joinQuery. change (bstr "?") with [question]. rewrite (proj2 (Contains_byte s question) Hin). rewrite E, <- app_assoc. cbn [app]. by rewrite query_params_at.
    + rewrite E, !app_assoc, <- (app_assoc (bstr "file:" ++ a)). rewrite <- !app_assoc. cbn [app]. rewrite app_assoc. rewrite query_params_at; [done|].
      apply not_elem_of_app. split; [not_in|done].
  - left. split; [done|]. destruct (has_prefix s _).
    + unfold joinQuery. destruct (Contains s (bstr "?")) eqn:E; [by apply (Contains_byte s question) in E|]. by apply Hq.
    + rewrite app_assoc. apply Hq. apply not_elem_of_app. split; [not_in|done].
Qed.

(** the connection string that is opened always has the pragmas the store
    relies on: unless the caller wrote pragmas of their own, the busy timeout
    and the foreign keys are parameters of it, and the write-ahead log is one
    exactly when the database is a file whose path, if it is not a [file:] URI
    already, has no question mark; and building it again changes nothing. *)
Theorem buildDSN_pragmas (dsn : bytes) :
  buildDSN (buildDSN dsn) = buildDSN dsn /\
  (Contains dsn (bstr "_pragma=") = false ->
    busy_timeout ∈ query_params (buildDSN dsn) /\ foreign_keys ∈ query_params (buildDSN dsn) /\
    (journal_wal ∈ query_params (buildDSN dsn) <->
       dsn <> bstr ":memory:" /\ dsn <> [] /\ (has_prefix dsn (bstr "file:") = true \/ question ∉ dsn))).
Proof.
  split.
  - assert (Hc : Contains (buildDSN dsn) (bstr "_pragma=") = true); [|unfold buildDSN at 1; by rewrite Hc].
    unfold buildDSN. destruct (Contains dsn _) eqn:E; [done|]. destruct (_ || _); [reflexivity|].
    assert (Ha : forall a b, Contains (a ++ b ++ appended) (bstr "_pragma=") = true).
    { intros a b. apply Contains_spec; [done|]. exists (a ++ b), (drop 8 appended). by rewrite <- app_assoc. }
    destruct (has_prefix _ _); [apply Ha|]. rewrite app_assoc. apply Ha.
  - intros Hp. destruct (buildDSN_cases dsn Hp) as [[Hm ->]|(Hm & He & [[Hq ->]|(a & b & E & Ha & ->)])].
    + split; [is_in|]. split; [is_in|]. split; [intros Hw; contradict Hw; not_in|]. intros (? & ? & _). by destruct Hm.
    + split; [is_in|]. split; [is_in|]. split; [|intros _; by left]. intros _. split; [done|]. split; [done|]. by right.
    + destruct (has_prefix dsn _).
      * cbn [app]. rewrite Split_at. change (Split ampersand appended) with [journal_wal; busy_timeout; foreign_keys].
        split; [is_in|]. split; [is_in|]. split; [|intros _; is_in]. intros _. split; [done|]. split; [done|]. by left.
      * destruct (Split_appended b [question]) as (l & q & E1 & E2); [set_solver|]. rewrite E2.
        split; [is_in|]. split; [is_in|]. split; [|intros (_ & _ & [|Hn]); [done|]; rewrite E in Hn; set_solver].
        rewrite elem_of_app. intros [Hw|Hw].
        -- destruct (Split_part ampersand b journal_wal) as (x & y & Eb); [rewrite E1; set_solver|]. exfalso.
           assert (Ht : Contains dsn (bstr "_pragma=") = true); [|congruence]. apply Contains_spec; [done|].
           exists (a ++ question :: x), (drop 8 journal_wal ++ y). rewrite E, Eb. by rewrite <- app_assoc.
        -- exfalso. rewrite !elem_of_cons, elem_of_nil in Hw. destruct Hw as [Hw|[Hw|[Hw|[]]]]; [|discriminate Hw|discriminate Hw].
           apply (f_equal (@List.length ascii)) in Hw. rewrite !length_app in Hw. simpl in Hw. lia.
Qed.

(** A path with a question mark in it: what follows the mark is taken for parameters, and the log mode is lost among them. *)
Example question_mark_path : buildDSN (bstr "data/what?.db") = bstr "file:data/what?.db?_pragma=journal_mode(WAL)&_pragma=busy_timeout(5000)&_pragma=foreign_keys(ON)"
  /\ map str (query_params (buildDSN (bstr "data/what?.db"))) =
     [".db?_pragma=journal_mode(WAL)"; "_pragma=busy_timeout(5000)"; "_pragma=foreign_keys(ON)"]%string.
Proof. vm_compute. done. Qed.

Lemma buildDSN_pragmas_witness : journal_wal ∈ query_params (buildDSN (bstr "/var/lib/tend.db")).
Proof.
  destruct (buildDSN_pragmas (bstr "/var/lib/tend.db")) as [_ Hp]. destruct (Hp eq_refl) as (_ & _ & Hw). apply Hw.
  split; [discriminate|]. split; [discriminate|]. right. not_in.
Defined.

(** ** What is opened *)

Definition handle_of (o : Opened) : Handle := match o with SQLiteStore h | PostgresStore h => h end.

(** a driver's name decides what is opened, once: [sqlite] and [postgres]
    are the only ones, a failure leaves no handle open, and a store that is
    returned has an open handle on what was asked for. SQLite's has one
    connection, which is never closed for being idle or old, so that an
    in-memory database lives as long as the store; PostgreSQL's has at most
    ten, and renews them. *)
Theorem Open_spec `{Drivers} (driver dsn : bytes) :
  let '(r, h) := Open driver dsn in
  match r with
  | inl e =>
      match h with None => True | Some h => db_closed h = true end /\
      (e = UnknownDriver driver <-> driver <> bstr "sqlite" /\ driver <> bstr "postgres")
  | inr o =>
      h = Some (handle_of o) /\ db_closed (handle_of o) = false /\
      match o with
      | SQLiteStore h => driver = bstr "sqlite" /\ db_driver h = "sqlite" /\ db_conn h = buildDSN dsn /\
          maxOpen h = 1 /\ maxIdleConns h = 1 /\ maxLifetime h = 0
      | PostgresStore h => driver = bstr "postgres" /\ db_driver h = "pgx" /\ db_conn h = dsn /\
          maxOpen h = 10 /\ maxIdleConns h = 5 /\ maxLifetime h = Hour
      end
  end.
Proof.
  unfold Open. destruct (bool_decide_reflect (driver = bstr "sqlite")) as [->|Hs]; [|destruct (bool_decide_reflect (driver = bstr "postgres")) as [->|Hp]].
  - unfold OpenSQLite. destruct (sql_Open _ _); [by split; [|split; [|intros []]]|].
    destruct (PingContext _ _ _); [by split; [|split; [|intros []]]|]. by repeat split.
  - unfold OpenPostgres. destruct (sql_Open _ _); [by split; [|split; [|intros []]]|].
    destruct (PingContext _ _ _); [by split; [|split; [|intros []]]|]. by repeat split.
  - by split.
Qed.

(** ** [rebind] numbers the placeholders *)

(** The pieces between the placeholders, with their numbers put in. *)
Fixpoint numbered (n : Z) (ps : list bytes) : bytes :=
  match ps with
  | [] => []
  | [p] => p
  | p :: r => p ++ bstr "$" ++ Itoa (n + 1) ++ numbered (n + 1) r
  end.

Lemma numbered_cons n c p ps : numbered n ((c ++ p) :: ps) = c ++ numbered n (p :: ps).
Proof. destruct ps; simpl; by rewrite <- ?app_assoc. Qed.

Lemma Split_pass sep c s : sep ∉ c -> exists p ps, Split sep s = p :: ps /\ Split sep (c ++ s) = (c ++ p) :: ps.
Proof.
  intros Hc. induction c as [|x c IH]; simpl.
  - pose proof (Split_nonempty sep s). destruct (Split sep s) as [|p ps]; [done|]. by exists p, ps.
  - destruct IH as (p & ps & E1 & E2); [set_solver|]. exists p, ps. split; [done|]. rewrite E2. destruct (Ascii.eqb_spec x sep) as [->|]; [set_solver|done].
Qed.

(** A rune that is not a question mark has none in it. *)
Lemma rune_question c r n : rune_len (c :: r) = Some n -> take n (c :: r) <> [question] -> question ∉ take n (c :: r).
Proof.
  intros E Hq. pose proof (rune_len_bounds _ _ E) as [Hb _]. pose proof (rune_len_tail _ _ _ E) as Ht. destruct n as [|n]; [lia|]. cbn [take].
  rewrite Nat.sub_succ, Nat.sub_0_r in Ht. apply not_elem_of_cons. split.
  - intros <-. vm_compute in E. injection E as <-. by apply Hq.
  - intros Hin. rewrite Forall_forall in Ht. by specialize (Ht _ Hin).
Qed.

Lemma rebind_runes_numbered q : ValidString q = true -> forall n, rebind_runes n (chunks q) = numbered n (Split question q).
Proof.
  induction q as [|c r k E IH|c r E IH] using chunks_ind; intros Hv n; [done| |].
  - rewrite ValidString_cons, E in Hv. rewrite chunks_cons, E. cbn [rebind_runes].
    destruct (bool_decide_reflect (take k (c :: r) = bstr "?")) as [Hq|Hq].
    + rewrite <- (take_drop k (c :: r)) at 2. rewrite Hq, IH by done. cbn [app bstr list_ascii_of_string Split]. rewrite Ascii.eqb_refl.
      pose proof (Split_nonempty question (drop k (c :: r))). destruct (Split question (drop k (c :: r))); [done|]. reflexivity.
    + rewrite <- (take_drop k (c :: r)) at 3. destruct (Split_pass question (take k (c :: r)) (drop k (c :: r))) as (p & ps & E1 & E2); [by eapply rune_question|].
      rewrite E2, IH, E1 by done. by rewrite numbered_cons.
  - by rewrite ValidString_cons, E in Hv.
Qed.

(** PostgreSQL gets a statement with its placeholders numbered from 1 in
    the order they are written, and every other byte where it was; SQLite gets
    it as it is. *)
Theorem rebind_numbers (q : bytes) : ValidString q = true ->
  rebind dialectSQLite q = q /\ rebind dialectPostgres q = numbered 0 (Split question q).
Proof. intros Hv. split; [done|]. by apply rebind_runes_numbered. Qed.

Lemma rebind_numbers_witness : str (rebind dialectPostgres (bstr "SELECT id FROM t WHERE a = ? AND b = ?")) = "SELECT id FROM t WHERE a = $1 AND b = $2"%string.
Proof. rewrite (proj2 (rebind_numbers (bstr "SELECT id FROM t WHERE a = ? AND b = ?") eq_refl)). reflexivity. Defined.

(** ** Whatever store is opened keeps its history *)

Section Histories.
Context `{World} `{JSONText}.

(** An operation, on the store a caller has. *)
Definition store_op `{Storage} (o : Op) : Store unit :=
  match o with
  | OpCreateJob j => ignore (s_CreateJob j)
  | OpUpdateJob j => s_UpdateJob j
  | OpDeleteJob org id => s_DeleteJob org id
  | OpFailUnreadableJob org job name output => ignore (s_FailUnreadableJob org job name output)
  | OpEnqueueRun org job => ignore (s_EnqueueRun org job)
  | OpClaimRun w => ignore (s_ClaimRun w)
  | OpFinishRun r st ec out => s_FinishRun r st ec out
  | OpFinishRunAndEmit r st ec att out ev => ignore (s_FinishRunAndEmit r st ec att out ev)
  | OpReapStaleRun r out ev => ignore (s_ReapStaleRun r out ev)
  | OpRequeueOrphanedRuns => ignore s_RequeueOrphanedRuns
  | OpEmitEvent ev => ignore (s_EmitEvent ev)
  | OpReleaseHeldAlerts now => ignore (s_ReleaseHeldAlerts now)
  | OpCreateHeartbeat h => ignore (s_CreateHeartbeat h)
  | OpCreateHeartbeatIfAbsent h => ignore (s_CreateHeartbeatIfAbsent h)
  | OpDeleteHeartbeat org id => s_DeleteHeartbeat org id
  | OpRecordHeartbeatPing token i now => ignore (s_RecordHeartbeatPing token i now)
  | OpSetHeartbeatStatus id st => s_SetHeartbeatStatus id st
  | OpSetHeartbeatStatusIf id from to seen => ignore (s_SetHeartbeatStatusIf id from to seen)
  | OpSetHeartbeatStatusIfAndEmit id from to seen ev => ignore (s_SetHeartbeatStatusIfAndEmit id from to seen ev)
  | OpMarkHeartbeatDownAndEmit h ev => ignore (s_MarkHeartbeatDownAndEmit h ev)
  | OpClaimDueDeliveries now lease hold limit => ignore (s_ClaimDueDeliveries now lease hold limit)
  | OpMarkDeliveryDelivered id => s_MarkDeliveryDelivered id
  | OpRescheduleDelivery id at_ => s_RescheduleDelivery id at_
  | OpFailDelivery id => s_FailDelivery id
  | OpFailDeliveryAndEmit id ev => s_FailDeliveryAndEmit id ev
  | OpPruneEvents t => ignore (s_PruneEvents t)
  | OpPruneJobRuns t => ignore (s_PruneJobRuns t)
  | OpPruneDeliveries t => ignore (s_PruneDeliveries t)
  | OpPruneHeartbeatPings t => ignore (s_PruneHeartbeatPings t)
  | OpCreateChannel c config => ignore (s_CreateChannel c config)
  | OpDeleteChannel org id => s_DeleteChannel org id
  | OpCreateRule r => ignore (s_CreateRule r)
  | OpDeleteRule org id => s_DeleteRule org id
  | OpPutSecret org name ct => s_PutSecret org name ct
  | OpCreateUser u => ignore (s_CreateUser u)
  | OpCreateMembership m => ignore (s_CreateMembership m)
  | OpCreateToken t => ignore (s_CreateToken t)
  | OpDeleteToken org id => s_DeleteToken org id
  | OpBootstrapDefaultOrg => ignore s_BootstrapDefaultOrg
  | OpSetOrgPingKey org key => s_SetOrgPingKey org key
  end.


(** What a backend promises: each of its operations is a sequence of the
    elementary steps of [StoreInv], with sequence values drawn for nothing, in
    which nothing is deleted but what the operation may delete. *)
Class Historic (S : Storage) := historic (P : Change -> Prop) o :
  (forall e, P (Records e)) -> (forall c, drops o c -> P c) -> evolves (psteps P) (store_op o).

#[export] Instance sqlite_historic : Historic sqlite_storage.
Proof.
  intros P o He Hd. apply evolves_sqlite. replace (store_op o) with (run_op o) by (by destruct o). apply run_op_steps; [by apply emits_all|done].
Qed.

#[export] Instance pg_historic `{PgStore.Server} : Historic pg_storage.
Proof. intros P o He Hd. replace (store_op o) with (pg_run_op o) by (by destruct o). by apply pg_op_steps. Qed.

#[export] Instance opened_historic `{PgStore.Server} (o : Opened) : Historic (storage_of o).
Proof. destruct o; apply _. Qed.





End Histories.

(** ** The ping handler on PostgreSQL

    A token that is not text for PostgreSQL (a NUL, or bytes that are not
    UTF-8) fails the statement instead of finding nothing. *)

Section Pings.
Context `{World} `{JSONText} `{PgStore.Server} {L : Type} `{!RateLimiter L}.

Lemma pg_RecordHeartbeatPing_unstorable token i now s : arg_ok (text token) = false -> ValidPingKind (in_kind i) = true ->
  exists s', pg_RecordHeartbeatPing token i now s = (Error ErrDatabase, s') /\ st_db s' = st_db s /\ st_tick s' = S (st_tick s).
Proof.
  intros Ht Hk. unfold pg_RecordHeartbeatPing. rewrite Hk. cbn [negb]. unfold pg_tx. destruct (fault (st_tick s)); try by eexists.
  all: unfold bind at 1, bind_args; cbn [forallb]; rewrite Ht; cbn [andb]; eexists; split; [reflexivity|]; split; [apply sequences_same|done].
Qed.

(** on PostgreSQL an address that rotates tokens which are no text is never
    counted: as long as its budget is not used up otherwise, each such request
    reaches the database, fails there, is answered 500, and leaves the budget
    of misses, and every other part of the server, as it was. *)
Theorem pg_unstorable_tokens_uncounted (fresh : option bytes) (now : Time) (r : HttpRequest) (req : pingRequest) (body : bytes) (s : PingHandler.Server) :
  asks r req -> rq_key req = [] -> storable_text (rq_token req) = false -> ValidPingKind (in_kind (rq_in req)) = true ->
  Has (sv_miss s) (missKey r) now = true -> Has (sv_token s) (tokenKey (rq_token req)) now = true ->
  readPingBody (hq_body r) (String.eqb (hq_method r) "POST") (Z.to_nat (sv_bodyLimit s)) [rq_token req; rq_key req] = Some body ->
  let '(x, s') := @handlePing pg_storage L _ fresh now r s in
  rp_code x = StatusInternalServerError /\ st_tick (sv_st s') = S (st_tick (sv_st s)) /\ st_db (sv_st s') = st_db (sv_st s) /\
  sv_miss s' = sv_miss s /\ sv_token s' = sv_token s /\ sv_create s' = sv_create s /\ sv_dispatched s' = sv_dispatched s.
Proof.
  intros [Hm Hp] Hk Ht Hv Hmiss Htok Hb. unfold handlePing. rewrite Hm, Hp. cbn [negb]. unfold handle_parsed, hbind at 1, hget. rewrite Hmiss, Hk. cbn [negb is_nil].
  unfold record_ping, hbind at 1, hget. rewrite Htok, Hk in *. cbn [negb]. rewrite Hb. unfold hbind at 1, store at 1.
  change s_RecordHeartbeatPing with pg_RecordHeartbeatPing.
  destruct (pg_RecordHeartbeatPing_unstorable (str (rq_token req)) (PingApi.with_body (rq_in req) body) now (sv_st s)) as (st & E & Hd & Htick); [|done|].
  { unfold text, str. simpl. by rewrite list_ascii_of_string_of_list_ascii. }
  rewrite E. cbn [is_not_found fst snd]. by repeat split.
Qed.

End Pings.

#[local] Instance no_budget_used : RateLimiter nat := {|
  Has n key now := bool_decide (n < 30)%nat; Allow n key now := (bool_decide (n < 30)%nat, S n);
  TooManyRequests _ := {| rp_code := StatusTooManyRequests; rp_headers := []; rp_body := [] |}; TooManyRequests_code _ := eq_refl |}.
Definition bytewise_server : PgStore.Server := {| returning l := l; returning_perm l := Permutation_refl l; collates := String.leb |}.
Definition ping_server : @PingHandler.Server nat := {| sv_miss := 0%nat; sv_token := 0%nat; sv_create := 0%nat;
  sv_bodyLimit := DefaultPingBodyLimit; sv_dispatched := Some []; sv_st := start |}.
Definition guess (path : string) : HttpRequest :=
  {| hq_method := "GET"; hq_path := bstr path; hq_query := ∅; hq_body := None; hq_ip := "10.0.0.1" |}.

Lemma pg_unstorable_tokens_uncounted_witness :
  let '(x, s') := @handlePing (@pg_storage (steady Hour) plain_text bytewise_server) nat _ None Hour (guess "/ping/%00a") ping_server in
  rp_code x = 500 /\ sv_miss s' = 0%nat.
Proof.
  assert (Ha : asks (guess "/ping/%00a") (by_token (bstr (String nul "a")) (plain_input PingSuccess None))) by (split; vm_compute; reflexivity).
  pose proof (@pg_unstorable_tokens_uncounted (steady Hour) plain_text bytewise_server nat _ None Hour (guess "/ping/%00a") _ [] ping_server Ha
    eq_refl eq_refl eq_refl eq_refl eq_refl eq_refl) as Hu.
  destruct (handlePing _ _ _ _) as [x s']. destruct Hu as (Hc & _ & _ & Hm & _). by split.
Defined.

(** The same token costs a unit on SQLite. *)
Example sqlite_counts :
  let '(x, s') := @handlePing (@sqlite_storage (steady Hour) plain_text) nat _ None Hour (guess "/ping/%00a") ping_server in
  rp_code x = 404 /\ sv_miss s' = 1%nat.
Proof. vm_compute. done. Qed.
