(* ===== verification/PgAgrees.v ===== *)
(** * The two backends agree

    From the same database, operations whose texts and numbers PostgreSQL can
    store answer there as on SQLite and leave the same database; only a call
    that a UNIQUE constraint refuses may leave a sequence further on. *)
From S2P Require Import Prelude GoTime Utf8 Domain Heartbeat Pacing Sql Schema StoreEvents Failure StoreRuns StoreHeartbeats StoreDeliveries StoreConfig StoreInv Capture PingLog History Pg PgStore PgHistory.
From stdpp Require Import relations sorting pretty.
Open Scope Z_scope.

(** ** Plain texts *)








Section Agreement.
Context `{World} `{JSONText} `{Server}.

(** ** What PostgreSQL can store *)





(** ** Agreeing from a state *)

Definition answers {A} (R : A -> A -> Prop) (r r' : res A) : Prop :=
  match r, r' with Ok a, Ok a' => R a a' | Error e, Error e' => e' = e | _, _ => False end.

(** From [s], [m'] answers as [m], up to [R], and leaves the same rows, and
    the same sequences unless a constraint refused it. *)
Definition agree_by {A} (R : A -> A -> Prop) (s : St DB) (m m' : Store A) : Prop :=
  let '(r, s1) := m s in let '(r', s2) := m' s in
  answers R r r' /\ st_tick s2 = st_tick s1 /\ gaps (st_db s1) (st_db s2) /\ (r <> Error ErrConstraint -> st_db s2 = st_db s1).
Definition agree {A} (s : St DB) (m m' : Store A) : Prop := agree_by eq s m m'.



Lemma agree_ret {A B} (R : A -> A -> Prop) (Q : B -> B -> Prop) s (m m' : Store A) (f : A -> B) :
  (forall a a', R a a' -> Q (f a) (f a')) -> agree_by R s m m' -> agree_by Q s (let* a := m in ret (f a)) (let* a := m' in ret (f a)).
Proof. intros Hf. unfold agree_by, bind, ret. destruct (m s) as [[a|e] s1], (m' s) as [[a'|e'] s2]; intros (E & ? & ? & E'); try done; (split; [by first [apply Hf|apply E]|]; split; [done|]; split; [done|intros Hn; apply E'; congruence]). Qed.

Lemma agree_ignore {A} R s (m m' : Store A) : agree_by R s m m' -> agree s (ignore m) (ignore m').
Proof. by apply (agree_ret R eq s m m' (fun _ => tt)). Qed.


(** *** Transactions that draw nothing in vain

    PostgreSQL's sequences stay where a transaction that is undone has moved
    them. *)

(** It answers, with something that is [ok]. *)
Definition surely {A} (ok : A -> Prop) (m : Store A) : Prop := forall s, exists a s', m s = (Ok a, s') /\ ok a.
(** It draws nothing. *)
Definition still {A} (m : Store A) : Prop := forall s, counters (st_db (snd (m s))) = counters (st_db s).
(** It has drawn nothing when it ends otherwise than [ok] or at a constraint. *)
Definition tidy_at {A} (ok : A -> Prop) (m : Store A) (s : St DB) : Prop :=
  match m s with
  | (Ok a, s') => ok a \/ counters (st_db s') = counters (st_db s)
  | (Error e, s') => e = ErrConstraint \/ counters (st_db s') = counters (st_db s)
  end.
Definition tidy {A} (ok : A -> Prop) (m : Store A) : Prop := forall s, tidy_at ok m s.
Definition any_answer {A} (a : A) : Prop := True.

Lemma surely_ret {A} (ok : A -> Prop) a : ok a -> surely ok (ret a).
Proof. intros Ha s. by exists a, s. Qed.
Lemma surely_query {A} (f : DB -> A) : surely any_answer (query f).
Proof. intros s. by eexists _, _. Qed.
Lemma surely_exec f : surely any_answer (exec f).
Proof. intros s. by eexists _, _. Qed.
Lemma surely_now : surely any_answer now_.
Proof. intros s. by eexists _, _. Qed.
Lemma surely_bind {A B} ok (m : Store A) (k : A -> Store B) : surely any_answer m -> (forall a, surely ok (k a)) -> surely ok (bind m k).
Proof. intros Hm Hk s. destruct (Hm s) as (a & s1 & E & _). destruct (Hk a s1) as (b & s2 & E2 & Hb). exists b, s2. unfold bind. by rewrite E. Qed.
Lemma surely_record e : surely any_answer (recordEvent e).
Proof. intros s. destruct (recordEvent_effect e s) as (e' & t & cs & s' & E & _). by exists e', s'. Qed.
Lemma surely_emit e : surely any_answer (emitEvent e).
Proof. apply surely_bind; [apply surely_record|]. intros a. by apply surely_ret. Qed.
Lemma surely_mono {A} (ok ok' : A -> Prop) m : (forall a, ok a -> ok' a) -> surely ok m -> surely ok' m.
Proof. intros Hi Hm s. destruct (Hm s) as (a & s' & E & Ha). exists a, s'. split; [done|by apply Hi]. Qed.

Lemma still_query {A} (f : DB -> A) : still (query f).
Proof. by intros s. Qed.
Lemma still_now : still now_.
Proof. by intros s. Qed.
Lemma still_exec f : (forall d, counters (f d) = counters d) -> still (exec f).
Proof. intros Hf s. apply Hf. Qed.
Lemma still_ret {A} (a : A) : still (ret a).
Proof. by intros s. Qed.
Lemma still_throw {A} e : still (throw (A := A) e).
Proof. by intros s. Qed.
Lemma still_bind {A B} (m : Store A) (k : A -> Store B) : still m -> (forall a, still (k a)) -> still (bind m k).
Proof. intros Hm Hk s. unfold bind. specialize (Hm s). destruct (m s) as [[a|e] s1]; [|done]. simpl in Hm. rewrite <- Hm. apply Hk. Qed.
Lemma still_join l : still (join_events l).
Proof. induction l as [|r l IH]; intros s; [done|]. simpl. unfold bind, query. destruct (select1 _ _); [|done]. specialize (IH s). by destruct (join_events l s) as [[?|?] ?]. Qed.


Ltac by_cases tac :=
  match goal with
  | |- _ (if ?b then _ else _) => destruct b; tac
  | |- _ (match ?x with _ => _ end) => destruct x; tac
  | |- _ _ (if ?b then _ else _) => destruct b; tac
  | |- _ _ (match ?x with _ => _ end) => destruct x; tac
  end.
Create HintDb tidy.
Ltac stills :=
  first [solve [auto 2 with tidy nocore] | apply still_query | apply still_now | apply still_ret | apply still_throw | apply still_join | apply still_exec; reflexivity
    | apply still_bind; [stills|intros ?; stills] | by_cases stills].
Ltac surelies :=
  first [solve [auto 2 with tidy nocore] | apply surely_ret; exact I | apply surely_query | apply surely_exec | apply surely_now | apply surely_emit | apply surely_record
    | apply surely_bind; [surelies|intros ?; surelies] | by_cases surelies].

Lemma still_ping_state token i now : still (ping_state token i now).
Proof. unfold ping_state, guarded_update, update_hb. stills. Qed.
Lemma still_finishRunTx run st ec out : still (finishRunTx run st ec out).
Proof. unfold finishRunTx. stills. Qed.
Lemma still_status_if id from to seen : still (setHeartbeatStatusIf id from to seen).
Proof. unfold setHeartbeatStatusIf. stills. Qed.
Lemma surely_recovery run ev : surely any_answer (emit_recovery run ev).
Proof. unfold emit_recovery. surelies. Qed.
Lemma surely_endStreak run : surely any_answer (endStreak run).
Proof. unfold endStreak, dropHeld. surelies. Qed.
Lemma surely_deleteAlertStates org p id : surely any_answer (deleteAlertStates org p id).
Proof. unfold deleteAlertStates. surelies. Qed.
#[local] Hint Resolve still_ping_state still_finishRunTx still_status_if surely_recovery surely_endStreak surely_deleteAlertStates : tidy.






(** ** Statements that are the same *)









(** ** The events the operations build *)







(** ** Transactions that say the same *)






(** ** The operations *)

Section Each.
Context `{!Reliable}.
Implicit Types s : St DB.






(** ** Reads *)



(** ** Releasing *)

(** A body that leaves the database alone when it does not commit. *)
Definition idle {A} (m : Store (Outcome A)) : Prop :=
  forall s, match m s with (Ok (Commit _), _) => True | (_, s') => st_db s' = st_db s end.

Lemma idle_throw {A} e : idle (throw (A := Outcome A) e).
Proof. done. Qed.





#[local] Instance alert_le_trans : Transitive alert_le.
Proof. intros a b c. unfold alert_le. simpl. lia. Qed.
#[local] Instance alert_le_total : Total alert_le.
Proof. intros a b. unfold alert_le. simpl. lia. Qed.
#[local] Instance pg_alert_le_trans : Transitive pg_alert_le.
Proof. intros [a ra] [b rb] [c rc]. unfold pg_alert_le. simpl. destruct (fa_last_sent_at ra), (fa_last_sent_at rb), (fa_last_sent_at rc); try done; lia. Qed.
#[local] Instance pg_alert_le_total : Total pg_alert_le.
Proof. intros [a ra] [b rb]. unfold pg_alert_le. simpl. destruct (fa_last_sent_at ra), (fa_last_sent_at rb); try (by auto); lia. Qed.









(** ** Two transactions in a row *)





(** ** Claims, pings and requeues *)







(** ** All of them *)














(** *** Calls with their answers *)







(** *** Stories *)





End Each.

End Agreement.

(** ** Concrete runs *)

(** A server that returns rows as they lie and collates by byte. *)
Definition plain_server : Server :=
  {| returning l := l; returning_perm l := Permutation_refl l; collates := String.leb |}.

Definition backups (period : Z) : Heartbeat :=
  {| hb_id := 0; hb_org := 1; hb_name := "backups"; hb_token := "t"; hb_last_seen_at := zero_time; hb_period_seconds := period;
     hb_grace_seconds := 60; hb_status := HbNew; hb_created_at := zero_time; hb_started_at := zero_time; hb_started_rid := "" |}.



(** A token that is taken refuses a heartbeat on both; the next one gets a
    different id. *)
Example ids_drift_after_a_conflict :
  let named name token := OpCreateHeartbeat {| hb_id := 0; hb_org := 1; hb_name := name; hb_token := token; hb_last_seen_at := zero_time; hb_period_seconds := 300;
     hb_grace_seconds := 60; hb_status := HbNew; hb_created_at := zero_time; hb_started_at := zero_time; hb_started_rid := "" |} in
  let l := [named "a" "t"; named "b" "t"; named "b" "u"]%string in
  map hr_id (rows (db_heartbeats (st_db (@run_ops (steady Hour) plain_text l start)))) = [1; 2] /\
  map hr_id (rows (db_heartbeats (st_db (@pg_run_ops (steady Hour) plain_text plain_server l start)))) = [1; 3].
Proof. by vm_compute. Qed.

(** A period that SQLite keeps does not fit PostgreSQL's INTEGER column. *)
Example wide_period :
  let o := OpCreateHeartbeat (backups (2 ^ 31)) in
  fst (@run_op (steady Hour) plain_text o start) = Ok tt /\
  @pg_run_op (steady Hour) plain_text plain_server o start = (Error ErrDatabase, mkSt empty_db 2).
Proof. by vm_compute. Qed.

(** The transitions of a heartbeat whose name reads as JSON with a wide
    ["job_id"] cannot be recorded there: its rules are looked up by it. *)
Definition json_name : string := "{" +:+ dquote +:+ "job_id" +:+ dquote +:+ ":3000000000}".
Definition json_text : JSONText := {| text_run_id _ := 0; text_job_id s := if String.eqb s json_name then 3000000000 else 0 |}.
Example json_name_refused :
  let s := start in let ev := MissedEvent 1 json_name in
  fst (@run_op (steady Hour) json_text (OpEmitEvent ev) s) = Ok tt /\
  fst (@pg_run_op (steady Hour) json_text plain_server (OpEmitEvent ev) s) = Error ErrDatabase.
Proof. by vm_compute. Qed.
