(* ===== verification/PgRows.v ===== *)
(** * One row, many transactions ([internal/store/postgres.go], [pings.go])

    On PostgreSQL transactions run beside each other (READ COMMITTED). An
    [UPDATE ... WHERE id = ... AND guard] looks for the row as last committed:
    if the guard fails there, it matches nothing and takes no lock; if it
    holds, the update waits for whoever has changed the row, looks again, and
    takes the lock if the guard still holds. The lock is kept until the
    transaction ends. A transaction is here what it does to the row: the
    statements it tries, one after the other, until one matches. *)
From S2P Require Import Prelude GoTime Domain Heartbeat Sql Schema StoreEvents StoreRuns StoreHeartbeats StoreDeliveries StoreInv Pg.
From stdpp Require Import relations.
Open Scope Z_scope.

(** ** The row's machine *)

Section Row.
Context {V : Type}.

Record Stmt := { guard : V -> bool; set_row : V -> V }.
Definition Txn := list Stmt.

(** Where a transaction is: before a statement, waiting for the lock one of
    them needs, with the row changed, or over, with what matched. *)
Inductive Session :=
| At (k : nat) | Waits (k : nat) | Holds (k : nat) (v : V) | Ended (r : option nat) | Undone.

Record Config := mkConfig { committed : V; sessions : list Session }.

Definition holds_lock (s : Session) : bool := match s with Holds _ _ => true | _ => false end.
Definition unlocked (c : Config) : bool := negb (existsb holds_lock (sessions c)).

(** What a statement found where it took effect: session, statement, match. *)
Definition Entry : Type := nat * nat * bool.

Variable ts : list Txn.
Definition stmt (i k : nat) : option Stmt := t ← ts !! i; t !! k.

Definition with_session (c : Config) (i : nat) (s : Session) : Config := mkConfig (committed c) (<[i := s]> (sessions c)).

Inductive row_step : Config -> list Entry -> Config -> Prop :=
| st_miss c i k st : sessions c !! i = Some (At k) -> stmt i k = Some st -> guard st (committed c) = false ->
    row_step c [(i, k, false)] (with_session c i (At (S k)))
| st_none c i k : sessions c !! i = Some (At k) -> stmt i k = None -> row_step c [] (with_session c i (Ended None))
| st_match c i k st : sessions c !! i = Some (At k) -> stmt i k = Some st -> guard st (committed c) = true ->
    row_step c [] (with_session c i (Waits k))
| st_lock c i k st : sessions c !! i = Some (Waits k) -> stmt i k = Some st -> unlocked c = true -> guard st (committed c) = true ->
    row_step c [] (with_session c i (Holds k (set_row st (committed c))))
| st_recheck c i k st : sessions c !! i = Some (Waits k) -> stmt i k = Some st -> unlocked c = true -> guard st (committed c) = false ->
    row_step c [(i, k, false)] (with_session c i (At (S k)))
| st_commit c i k v : sessions c !! i = Some (Holds k v) ->
    row_step c [(i, k, true)] (mkConfig v (<[i := Ended (Some k)]> (sessions c)))
| st_undo c i s : sessions c !! i = Some s -> (forall r, s <> Ended r) -> row_step c [] (with_session c i Undone).

Inductive steps : Config -> list Entry -> Config -> Prop :=
| steps_refl c : steps c [] c
| steps_snoc c1 c2 c3 l l' : steps c1 l c2 -> row_step c2 l' c3 -> steps c1 (l ++ l') c3.

(** Everyone at their first statement. *)
Definition begin (v : V) : Config := mkConfig v (replicate (List.length ts) (At 0)).

(** The statements run one at a time: each must find what the entry says. *)
Definition replay1 (v : V) (e : Entry) : option V :=
  let '(i, k, m) := e in
  st ← stmt i k;
  if bool_decide (guard st v = m) then Some (if m : bool then set_row st v else v) else None.
Fixpoint replay (v : V) (l : list Entry) : option V :=
  match l with [] => Some v | e :: r => v' ← replay1 v e; replay v' r end.

Lemma replay_app v l1 l2 : replay v (l1 ++ l2) = (v' ← replay v l1; replay v' l2).
Proof. revert v. induction l1 as [|e l1 IH]; intros v; [done|]. cbn. destruct (replay1 v e) as [v'|]; [apply IH|done]. Qed.

(** The one that has changed the row has changed the version last committed. *)
Definition held_ok (c : Config) : Prop :=
  forall i k v, sessions c !! i = Some (Holds k v) ->
    (exists st, stmt i k = Some st /\ guard st (committed c) = true /\ v = set_row st (committed c)) /\
    forall j s, sessions c !! j = Some s -> holds_lock s = true -> j = i.

Lemma unlocked_spec c : unlocked c = true <-> forall i s, sessions c !! i = Some s -> holds_lock s = false.
Proof.
  unfold unlocked. rewrite negb_true_iff. split.
  - intros Hn i s Hi. apply not_true_iff_false. intros Hh. apply not_true_iff_false in Hn. apply Hn, existsb_exists.
    exists s. split; [|done]. apply list_elem_of_In. by eapply list_elem_of_lookup_2.
  - intros Ha. apply not_true_iff_false. intros (s & Hs & Hh)%existsb_exists. apply list_elem_of_In, list_elem_of_lookup in Hs as [i Hi].
    by rewrite (Ha i s Hi) in Hh.
Qed.

(** A session that does not take the lock leaves the holder as it was. *)
Lemma held_ok_other c i s : held_ok c -> holds_lock s = false -> held_ok (with_session c i s).
Proof.
  intros Hok Hs j k v Hj. simpl in Hj. apply list_lookup_insert_Some in Hj as [(-> & E & _)|[Hne Hj]]; [by subst s|].
  destruct (Hok j k v Hj) as [Hv Hu]. split; [exact Hv|]. intros j' s' Hj' Hh. simpl in Hj'.
  apply list_lookup_insert_Some in Hj' as [(-> & <- & _)|[_ Hj']]; [congruence|]. by eapply Hu.
Qed.

Lemma held_ok_step c l c' : row_step c l c' -> held_ok c -> held_ok c'.
Proof.
  intros Hs Hok. destruct Hs as [| | |c i k st Hi Hst Hun Hg| |c i k v Hi|]; try by apply held_ok_other.
  - rewrite unlocked_spec in Hun. intros j k' v Hj. simpl in Hj. apply list_lookup_insert_Some in Hj as [(-> & E & _)|[_ Hj]].
    + simplify_eq. split; [by exists st|]. intros j' s' Hj' Hh. simpl in Hj'.
      apply list_lookup_insert_Some in Hj' as [(-> & _)|[_ Hj']]; [done|]. by rewrite (Hun _ _ Hj') in Hh.
    + specialize (Hun j _ Hj). done.
  - destruct (Hok i k v Hi) as [_ Hu]. intros j k' v' Hj. simpl in Hj. apply list_lookup_insert_Some in Hj as [(_ & E & _)|[Hne Hj]]; [done|].
    exfalso. apply Hne. symmetry. by eapply Hu.
Qed.

Lemma replay_step c l c' : row_step c l c' -> held_ok c -> replay (committed c) l = Some (committed c').
Proof.
  intros Hs Hok. destruct Hs as [c i k st _ Hst Hg|c i k|c i k st|c i k st|c i k st _ Hst _ Hg|c i k v Hi|c i s]; try done.
  - cbn. rewrite Hst. cbn. by rewrite Hg.
  - cbn. rewrite Hst. cbn. by rewrite Hg.
  - destruct (Hok i k v Hi) as [(st & Hst & Hg & ->) _]. cbn. rewrite Hst. cbn. by rewrite Hg.
Qed.

Lemma held_ok_begin v : held_ok (begin v).
Proof. intros i k v' Hi. simpl in Hi. by apply lookup_replicate in Hi as [? _]. Qed.

(** What a session has been told is in the log. *)
Definition told (l : list Entry) (i : nat) (s : Session) : Prop :=
  match s with
  | At k | Waits k | Holds k _ => (forall k', (k' < k)%nat -> (i, k', false) ∈ l) /\ (forall k', (i, k', true) ∉ l)
  | Ended (Some k) => (i, k, true) ∈ l /\ (forall k', (k' < k)%nat -> (i, k', false) ∈ l) /\ (forall k', (i, k', true) ∈ l -> k' = k)
  | Ended None => (forall k', (i, k', true) ∉ l) /\ forall k', is_Some (stmt i k') -> (i, k', false) ∈ l
  | Undone => forall k', (i, k', true) ∉ l
  end.

Definition all_told (c : Config) (l : list Entry) : Prop := forall i s, sessions c !! i = Some s -> told l i s.

Lemma told_other l l' i s : told l i s -> (forall e, e ∈ l' -> e.1.1 <> i) -> told (l ++ l') i s.
Proof.
  intros Ht Hn.
  assert (Hin : forall k m, (i, k, m) ∈ l -> (i, k, m) ∈ l ++ l') by (intros; apply elem_of_app; by left).
  assert (Hout : forall k m, (i, k, m) ∈ l ++ l' -> (i, k, m) ∈ l).
  { intros k m [?|He]%elem_of_app; [done|]. by destruct (Hn _ He). }
  destruct s as [| | |[k|]|]; simpl in *; naive_solver.
Qed.

(** The session that moves has been told its own news, and nobody else is. *)
Lemma all_told_move v c l l' i s s' :
  all_told c l -> sessions c !! i = Some s -> (forall e, e ∈ l' -> e.1.1 = i) -> (told l i s -> told (l ++ l') i s') ->
  all_told (mkConfig v (<[i := s']> (sessions c))) (l ++ l').
Proof.
  intros Ha Hi Hl Hs j t Hj. simpl in Hj. apply list_lookup_insert_Some in Hj as [(-> & <- & _)|[Hne Hj]]; [by apply Hs, Ha|].
  apply told_other; [by apply Ha|]. intros e He. by rewrite (Hl e He).
Qed.

Lemma told_missed l i k : told l i (At k) -> told (l ++ [(i, k, false)]) i (At (S k)).
Proof.
  intros [Hf Ht]. split.
  - intros k' Hk. apply elem_of_app. destruct (decide (k' = k)) as [->|]; [right; by left|left; apply Hf; lia].
  - intros k' [?|?%list_elem_of_singleton]%elem_of_app; [by eapply Ht|done].
Qed.

Lemma told_matched l i k v : told l i (Holds k v) -> told (l ++ [(i, k, true)]) i (Ended (Some k)).
Proof.
  intros [Hf Ht]. repeat split.
  - apply elem_of_app. right. by left.
  - intros k' Hk. apply elem_of_app. left. by apply Hf.
  - intros k' [?|?%list_elem_of_singleton]%elem_of_app; [by destruct (Ht k')|by simplify_eq].
Qed.

(** A transaction has no statement after one it does not have. *)
Lemma stmt_before i k k' : stmt i k = None -> is_Some (stmt i k') -> (k' < k)%nat.
Proof.
  unfold stmt. intros Hn [st Hs]. destruct (ts !! i) as [t|]; [|done]. cbn in *.
  apply lookup_ge_None in Hn. apply lookup_lt_Some in Hs. lia.
Qed.

Lemma told_step c l0 l c' : row_step c l c' -> all_told c l0 -> all_told c' (l0 ++ l).
Proof.
  intros Hs Ha. destruct Hs as [c i k st Hi Hst Hg|c i k Hi Hn|c i k st Hi|c i k st Hi|c i k st Hi Hst Hun Hg|c i k v Hi|c i s Hi He];
    eapply all_told_move; try exact Ha; try exact Hi; try (by intros e He'%not_elem_of_nil); try (by intros e ->%list_elem_of_singleton).
  - apply told_missed.
  - rewrite app_nil_r. intros [Hf Ht]. split; [done|]. intros k' Hk. by apply Hf, (stmt_before i).
  - by rewrite app_nil_r.
  - by rewrite app_nil_r.
  - apply told_missed.
  - apply told_matched.
  - rewrite app_nil_r. destruct s as [| | |r|]; simpl; [naive_solver..|by destruct (He r)|naive_solver].
Qed.

Lemma steps_ok c l c' : steps c l c' -> held_ok c -> held_ok c' /\ replay (committed c) l = Some (committed c').
Proof.
  induction 1 as [|c1 c2 c3 l l' _ IH Hs]; intros Hok; [done|]. destruct (IH Hok) as [Hok2 Hr].
  split; [by eapply held_ok_step|]. rewrite replay_app, Hr. by apply replay_step.
Qed.

Lemma run_told c l c' l0 : steps c l c' -> all_told c l0 -> all_told c' (l0 ++ l).
Proof.
  induction 1 as [|c1 c2 c3 l l' _ IH Hs]; intros Ha; [by rewrite app_nil_r|]. rewrite app_assoc. eapply told_step; [done|]. by apply IH.
Qed.

(** However the transactions on a row interleave on PostgreSQL, there is
    an order of their statements that gives the row as last committed when
    the statements run in it one at a time, each finding there what it found;
    and what a transaction was told is in that order: the statement that
    matched, if one did, and the misses before it. *)
Theorem statements_serial v c l :
  steps (begin v) l c -> replay v l = Some (committed c) /\ (forall i s, sessions c !! i = Some s -> told l i s).
Proof.
  intros Hs. destruct (steps_ok _ _ _ Hs (held_ok_begin v)) as [_ Hr]. split; [done|].
  change l with ([] ++ l). eapply run_told; [done|]. intros i s [-> _]%lookup_replicate. split; [lia|].
  intros k' []%not_elem_of_nil.
Qed.

(** ** Who wins a transition *)

(** The transition [P] stands for is taken by first statements, and no
    statement of the transactions undoes it. *)
Variable P : V -> bool.
Hypothesis first_guard : forall i st v, stmt i 0 = Some st -> guard st v = P v.
Hypothesis all_leave : forall i k st v, stmt i k = Some st -> P (set_row st v) = false.

(** Nobody has taken the transition and nobody is past the first statement,
    or one session has taken it. *)
Definition open_session (s : Session) : Prop :=
  match s with At 0 | Waits 0 | Holds 0 _ | Ended None | Undone => True | _ => False end.
Inductive race (c : Config) : Prop :=
| race_open : P (committed c) = true -> (forall i s, sessions c !! i = Some s -> open_session s) -> race c
| race_won i : P (committed c) = false -> sessions c !! i = Some (Ended (Some 0%nat)) ->
    (forall j, sessions c !! j = Some (Ended (Some 0%nat)) -> j = i) -> race c.

Lemma race_open_other c i s s' : race c -> P (committed c) = true -> sessions c !! i = Some s -> open_session s' -> race (with_session c i s').
Proof.
  intros [_ Ho|j Hp _ _] Hp' Hi Hs; [|congruence]. apply race_open; [done|]. intros k t Hk. simpl in Hk.
  apply list_lookup_insert_Some in Hk as [(-> & <- & _)|[_ Hk]]; [done|]. by eapply Ho.
Qed.

Lemma race_won_other c v i s s' : race c -> P (committed c) = false -> P v = false -> sessions c !! i = Some s -> (forall r, s <> Ended r) ->
  s' <> Ended (Some 0%nat) -> race (mkConfig v (<[i := s']> (sessions c))).
Proof.
  intros [Hp _|j _ Hj Hu] Hp' Hv Hi Hs Hs'; [congruence|]. assert (j <> i) by (intros ->; rewrite Hj in Hi; simplify_eq; by eapply Hs).
  apply (race_won _ j); [done|simpl; by rewrite list_lookup_insert_ne|]. intros k Hk. simpl in Hk.
  apply list_lookup_insert_Some in Hk as [(-> & E & _)|[_ Hk]]; [done|by apply Hu].
Qed.

(** A session moves without committing: the race goes on as it was. *)
Lemma race_move c i s s' : race c -> sessions c !! i = Some s -> (forall r, s <> Ended r) ->
  (P (committed c) = true -> open_session s -> open_session s') -> s' <> Ended (Some 0%nat) -> race (with_session c i s').
Proof.
  intros Hr Hi Hs Hopen Hs'. destruct (P (committed c)) eqn:Hp.
  - eapply race_open_other; [done..|]. apply Hopen; [done|]. destruct Hr as [_ Ho|j Hp' _ _]; [by eapply Ho|congruence].
  - by eapply race_won_other.
Qed.

Lemma race_step c l c' : row_step c l c' -> held_ok c -> race c -> race c'.
Proof.
  intros Hs Hok Hr. destruct Hs as [c i k st Hi Hst Hg|c i k Hi Hn|c i k st Hi Hst Hg|c i k st Hi Hst Hun Hg|c i k st Hi Hst Hun Hg|c i k v Hi|c i s Hi He].
  - eapply race_move; try done. intros Hp Ho. destruct k; [|done]. rewrite (first_guard _ _ _ Hst) in Hg. congruence.
  - eapply race_move; try done.
  - eapply race_move; try done.
  - eapply race_move; try done.
  - eapply race_move; try done. intros Hp Ho. destruct k; [|done]. rewrite (first_guard _ _ _ Hst) in Hg. congruence.
  - destruct (Hok i k v Hi) as [(st & Hst & Hg & ->) _]. destruct (P (committed c)) eqn:Hp.
    + destruct Hr as [_ Ho|j Hp' _ _]; [|congruence]. pose proof (Ho i _ Hi) as Hk. destruct k; [|done].
      apply (race_won _ i); simpl; [by eapply all_leave|apply list_lookup_insert_eq; by eapply lookup_lt_Some|].
      intros j Hj. apply list_lookup_insert_Some in Hj as [(-> & _)|[_ Hj]]; [done|]. by destruct (Ho j _ Hj).
    + eapply race_won_other; try done; [by eapply all_leave|]. intros [=->]. rewrite (first_guard _ _ _ Hst) in Hg. congruence.
  - eapply race_move; try done.
Qed.

Lemma race_steps c l c' : steps c l c' -> held_ok c -> race c -> race c'.
Proof.
  induction 1 as [|c1 c2 c3 l l' Hss IH Hs]; intros Hok Hr; [done|]. eapply race_step; [done| |by apply IH]. by eapply steps_ok.
Qed.

(** From a row the transition is open on, exactly one transaction takes it:
    none while nothing has been committed. *)
Lemma one_wins v l c : P v = true -> steps (begin v) l c ->
  if P (committed c) then forall i k, sessions c !! i <> Some (Ended (Some k))
  else exists i, forall j, sessions c !! j = Some (Ended (Some 0%nat)) <-> j = i.
Proof.
  intros Hv Hs. assert (Hr : race c).
  { eapply race_steps; [done|apply held_ok_begin|]. apply race_open; [done|]. by intros i s [-> _]%lookup_replicate. }
  destruct Hr as [-> Ho|i -> Hi Hu]; [intros i k Hi; by destruct (Ho _ _ Hi)|]. exists i. intros j. split; [apply Hu|by intros ->].
Qed.

End Row.

Arguments Stmt : clear implicits.
Arguments Txn : clear implicits.

(** The transaction alone on the row: the first statement whose guard holds. *)
Fixpoint run_alone {V} (t : Txn V) (v : V) : option nat * V :=
  match t with
  | [] => (None, v)
  | st :: r => if guard st v then (Some 0%nat, set_row st v) else let '(k, v') := run_alone r v in (S <$> k, v')
  end.

(** ** The run's row *)

(** [pgFinishRunTx], and the attempt count that [FinishRunAndEmit] writes with
    it and [FinishRun] does not. *)
Definition finish_txn (runID : Z) (status : RunStatus) (exitCode : Z) (attempt : option Z) (output : bytes) (now : Time) : Txn RunRow :=
  [{| guard := running runID; set_row r :=
        let ended := rr_finish r status exitCode (pgText output) now in
        match attempt with Some n => rr_with_attempt ended n | None => ended end |}].

(** [ReapStaleRun]. *)
Definition reap_txn (runID : Z) (output : bytes) (now : Time) : Txn RunRow :=
  [{| guard := running runID; set_row r := rr_finish r StatusFailed (-1) output now |}].

(** The transactions that end a run: workers that finish it, and reapers. *)
Inductive ends_run (runID : Z) : Txn RunRow -> Prop :=
| ends_finish st ec att out now : st <> StatusRunning -> ends_run runID (finish_txn runID st ec att out now)
| ends_reap out now : ends_run runID (reap_txn runID out now).

Lemma ends_run_stmt runID t k st : ends_run runID t -> t !! k = Some st ->
  k = 0%nat /\ guard st = running runID /\ forall r, running runID (set_row st r) = false.
Proof.
  intros [s ec att out now Hs|out now] Hk; (destruct k; [injection Hk as <-|done]); (split; [done|split; [done|]]);
    intros r; unfold running, has_status; try destruct att; simpl; by rewrite ?(bool_decide_false _ Hs), andb_false_r.
Qed.

(** C34: However many workers and reapers end one running run at the same
    time on PostgreSQL, in whatever order their statements take effect and
    whichever of them fail on the way: as long as the run is [running] none
    has been told that it ended it, and once it is not exactly one has. So
    the run has one outcome, and one terminal event. *)
Theorem run_ends_once runID ts v l c :
  Forall (ends_run runID) ts -> running runID v = true -> steps ts (begin ts v) l c ->
  if running runID (committed c) then forall i k, sessions c !! i <> Some (Ended (Some k))
  else exists i, forall j, sessions c !! j = Some (Ended (Some 0%nat)) <-> j = i.
Proof.
  intros Hts. assert (Hst : forall i k st, stmt ts i k = Some st ->
    k = 0%nat /\ guard st = running runID /\ forall r, running runID (set_row st r) = false).
  { intros i k st (t & Ht & Hk)%bind_Some. eapply ends_run_stmt; [|exact Hk]. by eapply Forall_lookup_1. }
  apply one_wins.
  - intros i st r Hk. by destruct (Hst _ _ _ Hk) as (_ & -> & _).
  - intros i k st r Hk. by destruct (Hst _ _ _ Hk) as (_ & _ & ?).
Qed.

(** ** The heartbeat's row *)

Definition down (token : string) (r : HbRow) : bool := has_token token r && bool_decide (hr_status r = HbDown).
Definition not_down (token : string) (r : HbRow) : bool := has_token token r && negb (bool_decide (hr_status r = HbDown)).

(** [recordHeartbeatPing]'s [update]: the guarded statement, and the unguarded
    one when that matched nothing. The ping records the transition's event
    when the first matched. *)
Definition ping_txn (token : string) (i : PingInput) (now : Time) : Txn HbRow :=
  match in_kind i with
  | PingSuccess => [{| guard := down token; set_row := set_up now (in_rid i) |}; {| guard := has_token token; set_row := set_up now (in_rid i) |}]
  | PingFail => [{| guard := not_down token; set_row := set_down now |}; {| guard := has_token token; set_row := set_down now |}]
  | PingStart => [{| guard := has_token token; set_row := set_started now (in_rid i) |}]
  | PingLog | PingOther _ => []
  end.

(** [MarkHeartbeatDownAndEmit]. *)
Definition mark_down_txn (o : Heartbeat) : Txn HbRow :=
  [{| guard := observed_guard o; set_row r := hr_set r (hr_last_seen_at r) HbDown None "" |}].

Inductive success_ping (token : string) : Txn HbRow -> Prop :=
| success_ping_intro i now : in_kind i = PingSuccess -> success_ping token (ping_txn token i now).

(** Of any number of success pings for one heartbeat that is down, in
    whatever order PostgreSQL runs their statements and whichever of them
    fail on the way, exactly one records the recovery once the heartbeat is
    no longer down, and none has before. *)
Theorem one_recovery token ts v l c :
  Forall (success_ping token) ts -> down token v = true -> steps ts (begin ts v) l c ->
  if down token (committed c) then forall i k, sessions c !! i <> Some (Ended (Some k))
  else exists i, forall j, sessions c !! j = Some (Ended (Some 0%nat)) <-> j = i.
Proof.
  intros Hts. assert (Hst : forall i t, ts !! i = Some t -> exists p now, in_kind p = PingSuccess /\ t = ping_txn token p now).
  { intros i t Ht. destruct (Forall_lookup_1 _ _ _ _ Hts Ht) as [p now Hp]. by exists p, now. }
  apply one_wins.
  - intros i st r (t & Ht & Hk)%bind_Some. destruct (Hst _ _ Ht) as (p & now & Hp & ->). unfold ping_txn in Hk. rewrite Hp in Hk. by injection Hk as <-.
  - intros i k st r (t & Ht & Hk)%bind_Some. destruct (Hst _ _ Ht) as (p & now & Hp & ->). unfold ping_txn in Hk. rewrite Hp in Hk.
    destruct k as [|[|k]]; [injection Hk as <-..|done]; unfold down; simpl; apply andb_false_r.
Qed.

(** ** Runs of the machine *)

(** Session [i] takes the next step of the kind [st] in the run [H]. *)
Ltac advance H st i :=
  match type of H with
  | steps ?ts _ _ ?c => eapply steps_snoc in H; [|eapply (st _ ts c i); reflexivity]; cbv [app] in H
  end.

Definition up_row : HbRow :=
  {| hr_id := 1; hr_org := 1; hr_name := "backup"; hr_last_seen_at := None; hr_created_at := 0; hr_token := Some "tok";
     hr_period_seconds := 60; hr_grace_seconds := 0; hr_status := HbUp; hr_started_at := None; hr_started_rid := "" |}.
Definition down_row : HbRow := hr_set up_row None HbDown None "".
Definition success_at (now : Time) : Txn HbRow :=
  ping_txn "tok" {| in_kind := PingSuccess; in_exit_status := None; in_rid := ""; in_body := [] |} now.
Definition fail_at (now : Time) : Txn HbRow :=
  ping_txn "tok" {| in_kind := PingFail; in_exit_status := None; in_rid := ""; in_body := [] |} now.
Definition race_pings : list (Txn HbRow) := [success_at 20; fail_at 10].

(** The success ping's guarded statement finds the heartbeat up, the failing
    ping takes it down and records that, and the success ping's unguarded
    statement sets it up again: it is told it matched the unguarded one, so
    it records no recovery. *)
Example recovery_lost : exists l c, steps race_pings (begin race_pings up_row) l c /\
  sessions c = [Ended (Some 1%nat); Ended (Some 0%nat)] /\ hr_status (committed c) = HbUp.
Proof.
  pose proof (steps_refl race_pings (begin race_pings up_row)) as H.
  advance H @st_miss 0%nat. advance H @st_match 1%nat. advance H @st_lock 1%nat. advance H @st_commit 1%nat.
  advance H @st_match 0%nat. advance H @st_lock 0%nat. advance H @st_commit 0%nat.
  eexists _, _. split; [exact H|]. vm_compute. done.
Qed.

(** One after the other, the pings leave the heartbeat down after a failure
    alone, or up with a failure and a recovery recorded. *)
Example recovery_lost_in_no_order :
  (let '(s, v) := run_alone (success_at 20) up_row in let '(f, v) := run_alone (fail_at 10) v in (s, f, hr_status v)) = (Some 1%nat, Some 0%nat, HbDown) /\
  (let '(f, v) := run_alone (fail_at 10) up_row in let '(s, v) := run_alone (success_at 20) v in (s, f, hr_status v)) = (Some 0%nat, Some 0%nat, HbUp).
Proof. vm_compute. done. Qed.

Definition two_successes : list (Txn HbRow) := [success_at 20; success_at 30].

(** Both find the heartbeat down; the second waits, looks again and finds it up. *)
Lemma two_successes_run : exists l c, steps two_successes (begin two_successes down_row) l c /\
  sessions c = [Ended (Some 0%nat); Ended (Some 1%nat)] /\ down "tok" (committed c) = false /\ (1%nat, 0%nat, false) ∈ l.
Proof.
  pose proof (steps_refl two_successes (begin two_successes down_row)) as H.
  advance H @st_match 0%nat. advance H @st_match 1%nat. advance H @st_lock 0%nat. advance H @st_commit 0%nat.
  advance H @st_recheck 1%nat. advance H @st_match 1%nat. advance H @st_lock 1%nat. advance H @st_commit 1%nat.
  eexists _, _. split; [exact H|]. split; [done|]. split; [by vm_compute|]. set_solver.
Qed.

Definition running_row : RunRow :=
  {| rr_id := 7; rr_org := 1; rr_job := 1; rr_status := StatusRunning; rr_attempt := 1; rr_exit_code := 0; rr_output := [];
     rr_claimed_by := Some "w"; rr_started_at := Some 1; rr_ended_at := None; rr_created_at := 0 |}.
Definition two_enders : list (Txn RunRow) := [finish_txn 7 StatusSucceeded 0 (Some 1) [] 20; reap_txn 7 [] 30].

Lemma two_enders_run : exists l c, steps two_enders (begin two_enders running_row) l c /\
  sessions c = [Ended None; Ended (Some 0%nat)] /\ rr_status (committed c) = StatusFailed.
Proof.
  pose proof (steps_refl two_enders (begin two_enders running_row)) as H.
  advance H @st_match 0%nat. advance H @st_match 1%nat. advance H @st_lock 1%nat. advance H @st_commit 1%nat.
  advance H @st_recheck 0%nat. advance H @st_none 0%nat.
  eexists _, _. split; [exact H|]. vm_compute. done.
Qed.

(** ** Witnesses *)

Lemma statements_serial_witness : exists l c, steps two_successes (begin two_successes down_row) l c /\
  replay two_successes down_row l = Some (committed c) /\ (1%nat, 1%nat, true) ∈ l.
Proof.
  destruct two_successes_run as (l & c & Hs & Hc & _). exists l, c. split; [exact Hs|].
  destruct (statements_serial two_successes down_row c l Hs) as [Hr Ht]. split; [exact Hr|].
  refine (proj1 (Ht 1%nat (Ended (Some 1%nat)) _)). by rewrite Hc.
Defined.

Lemma run_ends_once_witness : exists l c, steps two_enders (begin two_enders running_row) l c /\
  exists i, forall j, sessions c !! j = Some (Ended (Some 0%nat)) <-> j = i.
Proof.
  destruct two_enders_run as (l & c & Hs & _ & Hst). exists l, c. split; [exact Hs|].
  assert (He : Forall (ends_run 7) two_enders) by (repeat constructor; discriminate).
  pose proof (run_ends_once 7 two_enders running_row l c He eq_refl Hs) as Hone.
  unfold running, has_status in Hone. rewrite Hst, andb_false_r in Hone. exact Hone.
Defined.

Lemma one_recovery_witness : exists l c, steps two_successes (begin two_successes down_row) l c /\
  exists i, forall j, sessions c !! j = Some (Ended (Some 0%nat)) <-> j = i.
Proof.
  destruct two_successes_run as (l & c & Hs & _ & Hd & _). exists l, c. split; [exact Hs|].
  assert (Hp : Forall (success_ping "tok") two_successes) by (repeat constructor).
  pose proof (one_recovery "tok" two_successes down_row l c Hp eq_refl Hs) as Hone. rewrite Hd in Hone. exact Hone.
Defined.
