(* ===== verification/PgLocks.v ===== *)
(** * Many rows, many transactions ([internal/store/postgres.go], [pacing.go], [streak.go])

    On PostgreSQL a transaction keeps the lock of every row it has changed or
    read [FOR UPDATE] until it ends, and waits for a row that another holds.
    The transactions about a job take its runs, then its row, then its alert
    states; a channel's deletion takes rules, alert states, deliveries and the
    channel. Here they run beside each other, any number of them. What each
    asks for is a tree: a row that a statement's condition matches is locked,
    one that is not there or does not match is passed by, and what follows
    may depend on which. The rows of a statement that takes several are given
    in the order in which it visits them. *)
From S2P Require Import Prelude.
From stdpp Require Import relations.
Open Scope Z_scope.

(** A row that is locked: a run, a rule, a job, what a channel was told of a
    job, a delivery, a channel. *)
Inductive Lock :=
| RunLock (run : Z) | RuleLock (rule : Z) | JobLock (job : Z) | AlertLock (channel job : Z) | DeliveryLock (delivery : Z) | ChannelLock (channel : Z).
#[export] Instance Lock_eq_dec : EqDecision Lock.
Proof. solve_decision. Defined.

(** ** The machine *)

(** What a transaction still asks for: it ends, or its next statement takes a
    row and goes on one way, or passes it by and goes on another. *)
Inductive Prog := Ends | Take (l : Lock) (hit miss : Prog).

(** Rows taken one after the other, whichever of them are there. *)
Definition take_all (ls : list Lock) (k : Prog) : Prog := foldr (fun l p => Take l p p) k ls.

(** A transaction with the rows it holds; it may ask again for what it has. *)
Inductive Session := Active (held : list Lock) (p : Prog) | Over.
Abbreviation Config := (list Session).

Definition holds_row (s : Session) (l : Lock) : bool := match s with Active held _ => bool_decide (l ∈ held) | Over => false end.

(** No session but the [i]-th holds [l]. *)
Definition free_for (c : Config) (i : nat) (l : Lock) : bool :=
  forallb (fun '(j, s) => Nat.eqb j i || negb (holds_row s l)) (imap pair c).

(** The next thing the [i]-th session does by itself: lock the row it asks
    for, if nobody else holds it, or commit. *)
Definition advance (c : Config) (i : nat) : option Config :=
  match c !! i with
  | Some (Active held (Take l hit _)) => if free_for c i l then Some (<[i := Active (l :: held) hit]> c) else None
  | Some (Active _ Ends) => Some (<[i := Over]> c)
  | _ => None
  end.

(** The row is not there, or its condition does not match: it is passed by,
    without waiting. *)
Definition pass (c : Config) (i : nat) : option Config :=
  match c !! i with Some (Active held (Take _ _ miss)) => Some (<[i := Active held miss]> c) | _ => None end.


(** ** What the transactions ask for *)

Definition alerts_of (job : Z) (channels : list Z) : list Lock := map (fun ch => AlertLock ch job) channels.

(** [streakOf] for a failure, and [paced] for each channel that its rules
    name, with the job's row only. *)
Definition failure_locks (job : Z) (told : list Z) (k : Prog) : Prog := Take (JobLock job) (take_all (alerts_of job told) k) k.

(** [FinishRunAndEmit]: [pgFinishRunTx], the attempt, the failure. *)
Definition finish_failed_locks (job run : Z) (told : list Z) : Prog :=
  Take (RunLock run) (Take (RunLock run) (failure_locks job told Ends) (failure_locks job told Ends)) Ends.

(** For a success, the recovery's [SELECT ... FOR UPDATE] when the run before
    was no success ([streakOf]); then [endStreak], whose [UPDATE jobs] passes
    by a job without a streak, and [dropHeld], which comes after it either way. *)
Definition end_streak_locks (job : Z) (held : list Z) : Prog :=
  let drop := take_all (alerts_of job held) Ends in Take (JobLock job) drop drop.
Definition finish_succeeded_locks (job run : Z) (recovers : bool) (held : list Z) : Prog :=
  let after := end_streak_locks job held in
  let recovery := if recovers then Take (JobLock job) after after else after in
  Take (RunLock run) (Take (RunLock run) recovery recovery) Ends.

(** [ReapStaleRun]: one statement, then the event. *)
Definition reap_locks (job run : Z) (told : list Z) : Prog := Take (RunLock run) (failure_locks job told Ends) Ends.

(** [FailUnreadableJob]: the new run, the event, and the job unscheduled. *)
Definition unreadable_locks (job run : Z) (told : list Z) : Prog :=
  Take (RunLock run) (failure_locks job told (Take (JobLock job) Ends Ends)) Ends.

(** [releaseOne]: a failure that is routed no more is dropped as it is, any
    other is dropped or sent after the job's row was asked for. *)
Definition release_locks (channel job : Z) (routed : bool) : Prog :=
  let write := Take (AlertLock channel job) Ends Ends in if routed then Take (JobLock job) write write else write.

(** [DeleteJob]: its runs, its rules, its row, its alert states. *)
Definition delete_locks (job : Z) (runs rules channels : list Z) : Prog :=
  let alerts := take_all (alerts_of job channels) Ends in
  take_all (map RunLock runs) (take_all (map RuleLock rules) (Take (JobLock job) alerts alerts)).

(** [DeleteChannel]: its rules, its alert states, its pending deliveries, its row. *)
Definition delete_channel_locks (channel : Z) (rules jobs deliveries : list Z) : Prog :=
  take_all (map RuleLock rules) (take_all (map (AlertLock channel) jobs)
    (take_all (map DeliveryLock deliveries) (Take (ChannelLock channel) Ends Ends))).

(** A transaction, with the rows its statements visit. *)
Inductive JobTxn :=
| FinishFailed (job run : Z) (told : list Z)
| FinishSucceeded (job run : Z) (recovers : bool) (held : list Z)
| Reap (job run : Z) (told : list Z)
| FailUnreadable (job run : Z) (told : list Z)
| Release (channel job : Z) (routed : bool)
| Delete (job : Z) (runs rules channels : list Z)
| DeleteTheChannel (channel : Z) (rules jobs deliveries : list Z).

Definition locks_of (t : JobTxn) : Prog :=
  match t with
  | FinishFailed job run told => finish_failed_locks job run told
  | FinishSucceeded job run recovers held => finish_succeeded_locks job run recovers held
  | Reap job run told => reap_locks job run told
  | FailUnreadable job run told => unreadable_locks job run told
  | Release channel job routed => release_locks channel job routed
  | Delete job runs rules channels => delete_locks job runs rules channels
  | DeleteTheChannel channel rules jobs deliveries => delete_channel_locks channel rules jobs deliveries
  end.


Definition begin_locks (ps : list Prog) : Config := map (Active []) ps.
Definition begin_txns (ts : list JobTxn) : Config := begin_locks (map locks_of ts).

(** ** The order of the locks *)

(** Runs, rules, jobs, alert states, deliveries, channels, each by its primary key. *)
Definition rank (l : Lock) : Z * Z * Z :=
  match l with
  | RunLock r => (0, r, 0) | RuleLock r => (1, r, 0) | JobLock j => (2, j, 0)
  | AlertLock ch j => (3, ch, j) | DeliveryLock d => (4, d, 0) | ChannelLock ch => (5, ch, 0)
  end.
Definition before_lock (l l' : Lock) : Prop :=
  let '(a, b, c) := rank l in let '(a', b', c') := rank l' in a < a' \/ a = a' /\ (b < b' \/ b = b' /\ c < c').

#[export] Instance before_lock_trans : Transitive before_lock.
Proof. intros x y z. unfold before_lock. destruct (rank x) as [[? ?] ?], (rank y) as [[? ?] ?], (rank z) as [[? ?] ?]. lia. Qed.














(** ** What the order keeps *)








(** ** Nobody waits for ever *)












(** ** Concrete runs *)

(** The sessions in the given order, each with its row or passing it by. *)
Inductive Move := Gets (i : nat) | Passes (i : nat).
Definition run_order (ms : list Move) (c : Config) : option Config :=
  foldl (fun c m => c ≫= fun c => match m with Gets i => advance c i | Passes i => pass c i end) (Some c) ms.
(** Nobody gets any further, though not all are over. *)
Definition is_stuck (c : Config) : bool :=
  forallb (fun i => bool_decide (advance c i = None)) (seq 0 (List.length c)) && existsb (fun s => match s with Over => false | _ => true end) c.


(** The deletion of an earlier order, alert states before the job, deadlocks
    with a run that fails. *)
Example alerts_first_deadlocks :
  is_stuck <$> run_order [Gets 0; Gets 0; Gets 0; Gets 1; Gets 1]%nat
    (begin_locks [finish_failed_locks 1 10 [7]; take_all [RunLock 9; AlertLock 7 1; JobLock 1] Ends]) = Some true.
Proof. vm_compute. reflexivity. Qed.

(** Two deletions of one job that visit its runs in opposite orders do too. *)
Example visits_out_of_order_deadlock :
  is_stuck <$> run_order [Gets 0; Gets 1]%nat (begin_txns [Delete 1 [9; 10] [] []; Delete 1 [10; 9] [] []]) = Some true.
Proof. vm_compute. reflexivity. Qed.

(** A success that found the job without a streak has passed its row by. If a
    failure of the job is committed then, and held back on two channels, the
    success takes their alert states all the same, without the job's row, and
    waits for the next failure as that one waits for it, when it comes to
    them in another order. *)
Example success_passes_the_job_by :
  is_stuck <$> run_order [Gets 1; Gets 1; Passes 1; Gets 0; Gets 0; Gets 0; Gets 0; Gets 1]%nat
    (begin_txns [FinishFailed 1 12 [7; 8]; FinishSucceeded 1 11 false [8; 7]]) = Some true.
Proof. vm_compute. reflexivity. Qed.

(** Two deletions of channels that come to the alert states of two jobs in
    opposite orders, and two runs that succeed. *)
Example channel_deletions_deadlock :
  is_stuck <$> run_order [Gets 0; Gets 1; Gets 2; Gets 2; Gets 2; Gets 2; Gets 3; Gets 3; Gets 3; Gets 3]%nat
    (begin_txns [DeleteTheChannel 7 [] [1; 2] []; DeleteTheChannel 8 [] [2; 1] [];
                 FinishSucceeded 1 10 false [8; 7]; FinishSucceeded 2 20 false [7; 8]]) = Some true.
Proof. vm_compute. reflexivity. Qed.
